(* ===== verification/_CoqProject ===== *)
-Q . S2P
Prelude.v
Queue.v
Utf8.v
Frame.v
FrameSafe.v
Sha1.v
Event.v
EventSafe.v
EventInv.v
EventClose.v
EventRecv.v
EventSend.v
EventEnv.v
Codec.v
Base64.v
Url.v
Pairs.v
HttpParser.v
HttpSafe.v
HttpResponse.v
HttpRead.v
HttpHead.v
HttpSession.v
HttpReply.v
HttpChunked.v
HttpStream.v
WsServer.v
WsServerProps.v
WsSession.v
Proxy.v
ProxyProps.v
WsClient.v
WsClientProps.v
WsClientShake.v
WfRoute.v
WfIter.v
WfTree.v
WfQuery.v
WfHeader.v
WfHeaderSafe.v
WfMultipart.v
WfSession.v
WfRequest.v
WfDispatch.v
WfCookie.v
WfFiles.v
WfFilesProps.v
Proc.v
ProcProps.v
Poller.v
PollerInv.v
PollerRun.v
PollerProps.v
