(* ===== verification/Prelude.v ===== *)
(** * Prelude: a verification of iwnet

    [iwnet] is an asynchronous HTTP and WebSocket library.  A poller ([src/src/poller]) watches descriptors and
    runs callbacks on a thread pool.  The HTTP server ([src/src/http/iwn_http_server.c]) is a client of the poller: each
    connection is a session that scans a request out of the bytes it receives, calls a handler, and writes a response.
    The web framework ([src/src/http/iwn_wf.c]) is the handler: it parses target, headers, query and forms, walks a tree of routes and
    keeps sessions.  A session can be handed over to another server (a proxied session) or upgraded to a WebSocket connection
    ([src/src/ws]), which is driven by wslay ([src/src/wslay]): a frame codec under a message layer.
    Small helpers in [src/src/utils] (percent-encoding, base64, URLs, pairs) are shared by all of them.

    ** How the code is modelled

    Code is translated function by function and keeps its names.  Integers are [Z], wrapped where the C code relies on
    their width ([u8], [u32], [i32] and so on below); buffers are lists of [Z]
    with checked reads and writes, linked structures live in explicit heaps ([gmap] from locations), and enumerations are
    inductive types or the numbers of the source.  A definition that can go wrong returns an [option]: [None] is undefined
    behaviour (an access outside of a buffer, to freed memory, a failed assertion), or a loop that ran out of fuel where
    it takes fuel.  So a theorem that says that a result is [Some] says that the code is memory safe there and
    terminates; error codes of the program are ordinary results.  An allocation whose failure the model does not have succeeds; the files say where this is so.  What is not part of the repository is a parameter:
    callbacks, the transport, allocation failures, clocks, files, the regular expression engine, the hash map of iowow.

    ** Files

    - [Prelude]: integers, buffers, C strings, tactics and lemmas used everywhere.
    - [Queue], [Utf8], [Frame], [Event]: [wslay_queue.c], the UTF-8 automaton, [wslay_frame.c] and [wslay_event.c].
      [Frame] proves that sending puts the RFC 6455 encoding on the wire and that receiving undoes it, for all
      fragmentations; [FrameSafe], [EventSafe] that a hostile peer causes no bad access and no failed assertion;
      [EventInv] the invariant of the context over all sequences of calls; [EventClose] the answers to Close and Ping;
      [EventRecv] that exactly the peer's messages are delivered and its Pings answered, [EventSend] that the queued messages go out whole and in order,
      [EventEnv] that wslay reaches its environment through the callbacks only.
    - [Sha1]: the SHA-1 of BearSSL, equal to FIPS 180-4 for every division of the message.
    - [Codec], [Base64], [Url], [Pairs]: the helpers of [src/src/utils], with round trips, bounds, and a refinement of chains by lists.
    - [HttpParser] the table-driven scanner of [iwn_http_server.c], [HttpRead] its feeding from the network, [HttpResponse]
      the rest of the session: accessors, response headers, the writer, streaming.  [HttpSafe]: a call of the scanner is safe unless
      the input meets one of the listed hazards, each with an example.  [HttpHead], [HttpSession]: a
      well-formed request reaches the handler once and unchanged, however the network cuts it.  [HttpReply],
      [HttpChunked], [HttpStream]: plain, chunked and streamed responses reach the wire whatever the partial writes.
    - [Proxy], [ProxyProps]: proxied sessions of [iwn_http_server.c]; no byte is lost, repeated or reordered under any interleaving of the two sides.
    - [WsServer] [iwn_ws_server.c]; [WsServerProps]: the handshake of RFC 6455; [WsSession]: a whole session, from the bytes of the
      peer to the application's handler and back.  [WsClient] [iwn_ws_client.c]; [WsClientShake]: the handshake from the other side;
      [WsClientProps]: who holds a client in the course of lost connections and reconnections.
    - [WfRoute] the route tree and its iterator with the explicit stack, [WfQuery] queries, [WfHeader]
      header parameters and multipart bodies, [WfSession] sessions over the interface of a store and the in-memory
      store, [WfRequest] the request itself: creation, forms, the loop over the routes, streamed bodies, cookies.  [WfIter],
      [WfTree]: registration keeps a forest, and the iterator is a depth-first search over it.  [WfHeaderSafe], [WfMultipart]: forms are parsed safely and read back
      as written.  [WfDispatch]: which handlers a request reaches, with which body.  [WfCookie]: the session
      cookie and the parsing of a whole request.  [WfFiles], [WfFilesProps]: [iwn_wf_files.c], files and ranges of files on the wire, directories.
    - [Proc] [iwn_proc.c] and [iwn_scheduler.c]: child processes, the references to them, their channels, signals and tasks.
      [ProcProps]: the life of a child under all interleavings of the threads, against the promise to the application.
    - [Poller] the epoll variant of [iwn_poller.c]: slots in a heap, the table, and activities.  An activity is what
      a thread has still to do; a step is one critical section, or one stretch of code outside of the mutex; all
      activities interleave.  [PollerInv]: the reference counts are exact in every reachable state.  [PollerRun]: a measure
      that every step makes smaller, closing the poller.  [PollerProps]: the theorems, and runs
      that go wrong.

    ** Interfaces

    [HMapLaws] of [WfSession] is what the in-memory store needs of a hash map; a session store is a record of operations with an
    abstract state, which the session functions are proved against and the in-memory store implements.  The
    regular expression engine enters through [re_ok] (the sections of a match lie in the subject).  The callbacks of wslay are parameters
    with the contract wslay documents (a callback reports at most the bytes it was given): [EventPeer] and [EventSink] say that in addition a transport is
    a stream in each direction that blocks finitely often, and the WebSocket server discharges them from [WsNet].  [WsHost], [RelayNet], [ShakeNet]
    and [OwnerHost] are the promises of sockets, poller and scheduler to the handshake, the relay and the client; each has a concrete instance.

    ** Fuel

    Loops that are not structural take fuel, and every theorem about them states how much is enough: the length of
    the text for the scanners and parsers, twice the number of routes plus three for the route iterator, the length of
    the data plus the number of deliveries for the network loops.  The poller needs none: its runs are a relation,
    and their length is bounded by the measure [work].

    ** Not modelled

    - BearSSL ([src/src/bearssl]) is vendored; only its SHA-1, which the WebSocket handshake uses, is modelled, and
      [iwn_brssl_poller_adapter.c], which drives its TLS engine, is not.
    - Set-up and tear-down of servers, sockets and TLS; printing of routes for the log; [iwn_ws_server_route_attach].
    - The kqueue variant of the poller, the direct adapter; of [iwn_proc.c], what a program does behind [exec].
    - The generated table of mime types; the release of contexts of files; the hexadecimal and helper functions of [iwn_base64.c]. *)
From Stdlib Require Export ZArith Lia.
From stdpp Require Export gmap strings prelude list.

#[global] Open Scope Z_scope.

(** ** Machine integers

    A [w]-bit C integer is a [Z]; the conversions below are the ones the C
    compiler inserts.  Unsigned conversion is reduction modulo [2^w]; signed
    conversion is the two's complement one. *)

Definition uwrap (w x : Z) : Z := x mod 2 ^ w.
Definition swrap (w x : Z) : Z := (x + 2 ^ (w - 1)) mod 2 ^ w - 2 ^ (w - 1).

Abbreviation u8 := (uwrap 8).
Abbreviation u16 := (uwrap 16).
Abbreviation u32 := (uwrap 32).
Abbreviation u64 := (uwrap 64).
Abbreviation i8 := (swrap 8).
Abbreviation i16 := (swrap 16).
Abbreviation i32 := (swrap 32).
Abbreviation i64 := (swrap 64).

Lemma uwrap_id w x : 0 <= x < 2 ^ w -> uwrap w x = x.
Proof. intros H. unfold uwrap. by apply Z.mod_small. Qed.

Lemma uwrap_range w x : 0 <= w -> 0 <= uwrap w x < 2 ^ w.
Proof. intros Hw. unfold uwrap. apply Z.mod_pos_bound. lia. Qed.

Lemma swrap_id w x : 0 < w -> - 2 ^ (w - 1) <= x < 2 ^ (w - 1) -> swrap w x = x.
Proof.
  intros Hw H. unfold swrap.
  assert (2 ^ w = 2 * 2 ^ (w - 1)) as E.
  { rewrite <- Z.pow_succ_r by lia. f_equal. lia. }
  rewrite E, Z.mod_small by lia. lia.
Qed.

Lemma i32_small x : - 2 ^ 31 <= x < 2 ^ 31 -> i32 x = x.
Proof. intros H. apply swrap_id; [lia|exact H]. Qed.
Lemma i16_small x : - 2 ^ 15 <= x < 2 ^ 15 -> i16 x = x.
Proof. intros H. apply swrap_id; [lia|exact H]. Qed.
Lemma i64_small x : - 2 ^ 63 <= x < 2 ^ 63 -> i64 x = x.
Proof. intros H. apply swrap_id; [lia|exact H]. Qed.

(** ** Bytes and buffers

    A C [uint8_t]/[char] buffer is a [list Z] of values in [0, 256). *)

Definition byte_ok (b : Z) : Prop := 0 <= b < 256.
Abbreviation bytes_ok l := (Forall byte_ok l).

#[export] Instance byte_ok_dec b : Decision (byte_ok b).
Proof. unfold byte_ok. apply _. Defined.

Definition zlen {A} (l : list A) : Z := Z.of_nat (length l).

Lemma zlen_nonneg {A} (l : list A) : 0 <= zlen l.
Proof. unfold zlen. lia. Qed.
Lemma zlen_app {A} (l k : list A) : zlen (l ++ k) = zlen l + zlen k.
Proof. unfold zlen. rewrite length_app. lia. Qed.
Lemma zlen_cons {A} (x : A) l : zlen (x :: l) = 1 + zlen l.
Proof. unfold zlen. simpl length. lia. Qed.
Lemma zlen_nil {A} : zlen (@nil A) = 0.
Proof. reflexivity. Qed.

(** Byte literals of a C string constant. *)
Fixpoint bytes_of_string (s : string) : list Z :=
  match s with
  | EmptyString => []
  | String a s' => Z.of_N (Ascii.N_of_ascii a) :: bytes_of_string s'
  end.

Lemma bytes_of_string_ok s : bytes_ok (bytes_of_string s).
Proof.
  induction s as [|a s IH]; simpl; constructor; [|exact IH].
  destruct a as [[] [] [] [] [] [] [] []]; vm_compute; split; congruence.
Qed.

(** Bounds-checked access: [None] is an access outside of the object. *)
Definition rd (buf : list Z) (i : Z) : option Z :=
  if i <? 0 then None else buf !! Z.to_nat i.
Definition wr (buf : list Z) (i v : Z) : option (list Z) :=
  if (i <? 0) || (zlen buf <=? i) then None else Some (<[Z.to_nat i := v]> buf).

Lemma rd_Some buf i b : rd buf i = Some b -> 0 <= i < zlen buf.
Proof.
  unfold rd, zlen. destruct (Z.ltb_spec i 0); [done|].
  intros E%lookup_lt_Some. lia.
Qed.

Lemma rd_app_r l k i : zlen l <= i -> rd (l ++ k) i = rd k (i - zlen l).
Proof.
  unfold rd, zlen. intros H.
  destruct (Z.ltb_spec i 0), (Z.ltb_spec (i - Z.of_nat (length l)) 0); try lia.
  rewrite lookup_app_r by lia. f_equal. lia.
Qed.

Lemma rd_app_l l k i : i < zlen l -> rd (l ++ k) i = rd l i.
Proof.
  unfold rd, zlen. intros H. destruct (Z.ltb_spec i 0); [done|].
  by rewrite lookup_app_l by lia.
Qed.

Lemma rd_total buf i : 0 <= i < zlen buf -> exists b, rd buf i = Some b.
Proof.
  unfold rd, zlen. intros H. destruct (Z.ltb_spec i 0); [lia|].
  destruct (lookup_lt_is_Some_2 buf (Z.to_nat i)) as [b E]; [lia|eauto].
Qed.

Lemma rd_0_cons x l : rd (x :: l) 0 = Some x.
Proof. reflexivity. Qed.

(** [memcpy(dst + off, src, n)] on a buffer, [None] when it overruns it. *)
Definition memcpy (dst : list Z) (off : Z) (src : list Z) : option (list Z) :=
  if (off <? 0) || (zlen dst <? off + zlen src) then None
  else Some (take (Z.to_nat off) dst ++ src ++ drop (Z.to_nat (off + zlen src)) dst).

Definition slice (buf : list Z) (from to : Z) : list Z :=
  take (Z.to_nat (to - from)) (drop (Z.to_nat from) buf).

Lemma slice_length buf i j : 0 <= i -> i <= j -> j <= zlen buf -> zlen (slice buf i j) = j - i.
Proof.
  unfold slice, zlen. intros ???. rewrite length_take, length_drop. lia.
Qed.

Lemma slice_app l k m : slice (l ++ k ++ m) (zlen l) (zlen l + zlen k) = k.
Proof.
  unfold slice, zlen. rewrite Nat2Z.id, drop_app_length.
  replace (Z.to_nat _) with (length k) by lia. by rewrite take_app_length.
Qed.
Lemma slice_app' l k m i j :
  i = zlen l -> j = zlen l + zlen k -> slice (l ++ k ++ m) i j = k.
Proof. intros -> ->. apply slice_app. Qed.

(** A buffer is what precedes a slice, the slice, and what follows. *)
Lemma slice_split buf i j :
  0 <= i <= j -> j <= zlen buf ->
  exists l m, buf = l ++ slice buf i j ++ m /\ zlen l = i /\ zlen m = zlen buf - j.
Proof.
  unfold slice, zlen. intros Hi Hj.
  exists (take (Z.to_nat i) buf), (drop (Z.to_nat j) buf). split_and!.
  - rewrite <- (take_drop (Z.to_nat i) buf) at 1. f_equal.
    rewrite <- (take_drop (Z.to_nat (j - i)) (drop (Z.to_nat i) buf)) at 1. f_equal.
    rewrite drop_drop. f_equal. lia.
  - rewrite length_take. lia.
  - rewrite length_drop. lia.
Qed.

Lemma slice_join buf i j k : 0 <= i <= j -> j <= k -> slice buf i j ++ slice buf j k = slice buf i k.
Proof.
  unfold slice. intros Hi Hj.
  replace (drop (Z.to_nat j) buf) with (drop (Z.to_nat (j - i)) (drop (Z.to_nat i) buf))
    by (rewrite drop_drop; f_equal; lia).
  replace (Z.to_nat (k - i)) with (Z.to_nat (j - i) + Z.to_nat (k - j))%nat by lia.
  by rewrite take_take_drop.
Qed.

Lemma slice_take buf i j r : 0 <= r <= j - i -> take (Z.to_nat r) (slice buf i j) = slice buf i (i + r).
Proof. unfold slice. intros Hr. rewrite take_take. f_equal. lia. Qed.

Lemma slice_empty buf i : slice buf i i = [].
Proof. unfold slice. by rewrite Z.sub_diag. Qed.

Lemma slice_full buf : slice buf 0 (zlen buf) = buf.
Proof. unfold slice, zlen. rewrite drop_0. apply take_ge. lia. Qed.

(** ** C strings *)

Fixpoint cstr (l : list Z) : list Z :=
  match l with [] => [] | c :: l => if c =? 0 then [] else c :: cstr l end.

(** A (pointer, length) argument with the convention that a negative length means [strlen]. *)
Definition arg_len (buf : list Z) (len : Z) : list Z := if len <? 0 then cstr buf else take (Z.to_nat len) buf.

Lemma arg_len_all l : arg_len l (zlen l) = l.
Proof.
  unfold arg_len. destruct (Z.ltb_spec (zlen l) 0); [pose proof (zlen_nonneg l); lia|].
  unfold zlen. rewrite Nat2Z.id. by apply take_ge.
Qed.

Lemma cstr_nonzero l : Forall (fun c => c <> 0) l -> cstr l = l.
Proof. induction 1 as [|c l Hc _ IH]; [done|]. cbn [cstr]. by rewrite (proj2 (Z.eqb_neq c 0) Hc), IH. Qed.

Lemma cstr_app_0 l r : Forall (fun c => c <> 0) l -> cstr (l ++ 0 :: r) = l.
Proof. induction 1 as [|c l Hc _ IH]; [done|]. cbn [app cstr]. by rewrite (proj2 (Z.eqb_neq c 0) Hc), IH. Qed.

(** [strchr]: the position of [c] in the string at [i]; the outer [None] is a read outside of the
    object. *)
Fixpoint strchr_at (fuel : nat) (buf : list Z) (i c : Z) : option (option Z) :=
  match fuel with
  | O => None
  | S fuel =>
      b ← rd buf i;
      if b =? c then Some (Some i) else if b =? 0 then Some None else strchr_at fuel buf (i + 1) c
  end.
Definition strchr (buf : list Z) (i c : Z) : option (option Z) := strchr_at (S (length buf)) buf i c.

Lemma rd_middle l x r : rd (l ++ x :: r) (zlen l) = Some x.
Proof. rewrite rd_app_r, Z.sub_diag by lia. done. Qed.

Lemma strchr_at_stop x w : forall fuel l r c,
  Forall (fun b => b <> c /\ b <> 0) w -> x = c \/ x = 0 -> (length w < fuel)%nat ->
  strchr_at fuel (l ++ w ++ x :: r) (zlen l) c = Some (if x =? c then Some (zlen l + zlen w) else None).
Proof.
  induction w as [|b w IH]; intros fuel l r c Hw Hx Hf; destruct fuel as [|fuel]; cbn [length] in Hf; try lia; cbn [strchr_at app].
  - rewrite rd_middle. cbn [mbind option_bind]. change (zlen (@nil Z)) with 0. rewrite Z.add_0_r.
    destruct (Z.eqb_spec x c) as [|Hxc]; [done|]. destruct Hx as [?| ->]; [done|]. by rewrite Z.eqb_refl.
  - rewrite rd_middle. cbn [mbind option_bind]. apply Forall_cons in Hw as [[Hb1 Hb2] Hw].
    rewrite (proj2 (Z.eqb_neq b c) Hb1), (proj2 (Z.eqb_neq b 0) Hb2).
    specialize (IH fuel (l ++ [b]) r c Hw Hx ltac:(lia)). rewrite <- app_assoc in IH. cbn [app] in IH. rewrite zlen_app in IH.
    change (zlen [b]) with 1 in IH. rewrite IH, zlen_cons. destruct (x =? c); [|done]. do 2 f_equal. lia.
Qed.

Lemma strchr_stop l w x r c :
  Forall (fun b => b <> c /\ b <> 0) w -> x = c \/ x = 0 ->
  strchr (l ++ w ++ x :: r) (zlen l) c = Some (if x =? c then Some (zlen l + zlen w) else None).
Proof. intros Hw Hx. apply strchr_at_stop; [done|done|]. rewrite !length_app. cbn [length]. lia. Qed.

(** A string from [i] to a terminator inside of the buffer: [strchr] stays inside. *)
Lemma strchr_at_in fuel : forall buf i c, 0 <= i ->
  (exists j, i <= j < zlen buf /\ rd buf j = Some 0 /\ (Z.to_nat (j - i) < fuel)%nat) ->
  exists r, strchr_at fuel buf i c = Some r /\ forall p, r = Some p -> i <= p < zlen buf /\ rd buf p = Some c /\
    (forall j, i <= j < p -> rd buf j <> Some 0 /\ rd buf j <> Some c).
Proof.
  induction fuel as [|fuel IH]; intros buf i c Hi (j & Hj & Hz & Hf); [lia|]. cbn [strchr_at].
  destruct (rd_total buf i) as [b Eb]; [lia|]. rewrite Eb. cbn [mbind option_bind].
  destruct (Z.eqb_spec b c) as [->|Hbc].
  - exists (Some i). split; [done|]. intros p [= <-]. split; [lia|]. split; [done|]. lia.
  - destruct (Z.eqb_spec b 0) as [->|Hb0]; [by exists None|].
    assert (i <> j) by congruence. destruct (IH buf (i + 1) c) as (r & Er & Hr); [lia|exists j; split; [lia|split; [done|lia]]|].
    exists r. split; [done|]. intros p Ep. destruct (Hr p Ep) as (H1 & H2 & H3). split; [lia|]. split; [done|].
    intros k Hk. destruct (Z.eq_dec k i) as [->|]; [|apply H3; lia]. rewrite Eb. split; congruence.
Qed.

Lemma wr_middle l x r v : wr (l ++ x :: r) (zlen l) v = Some (l ++ v :: r).
Proof.
  unfold wr. pose proof (zlen_nonneg l). pose proof (zlen_nonneg r). rewrite (proj2 (Z.ltb_ge _ 0)), (proj2 (Z.leb_gt _ _)) by (rewrite ?zlen_app, ?zlen_cons; lia).
  cbn [orb]. f_equal. unfold zlen. rewrite Nat2Z.id. rewrite insert_app_r_alt by lia. by rewrite Nat.sub_diag.
Qed.

(** Equality of results up to arithmetic. *)
Ltac feq := repeat first [reflexivity | lia | f_equal].

(** ** Bit-level facts *)

Lemma land_low_high a b n : 0 <= n -> 0 <= b < 2 ^ n -> Z.land (Z.shiftl a n) b = 0.
Proof.
  intros Hn Hb. apply Z.bits_inj'. intros m Hm.
  rewrite Z.land_spec, Z.shiftl_spec, Z.bits_0 by lia.
  destruct (Z.lt_ge_cases m n).
  - rewrite Z.testbit_neg_r by lia. done.
  - rewrite <- (Z.mod_small b (2 ^ n)), Z.mod_pow2_bits_high by lia. apply andb_false_r.
Qed.

(** Or-ing in low bits that are free is addition. *)
Lemma lor_shiftl_add a b n :
  0 <= n -> 0 <= b < 2 ^ n -> Z.lor (Z.shiftl a n) b = a * 2 ^ n + b.
Proof.
  intros Hn Hb. rewrite <- Z.lxor_lor, <- Z.add_nocarry_lxor by (by apply land_low_high).
  by rewrite Z.shiftl_mul_pow2.
Qed.

Lemma lxor_byte a b : byte_ok a -> byte_ok b -> byte_ok (Z.lxor a b).
Proof.
  unfold byte_ok. intros Ha Hb. split; [apply Z.lxor_nonneg; lia|].
  destruct (Z.eq_dec (Z.lxor a b) 0) as [->|Hne]; [lia|].
  assert (0 <= Z.lxor a b) by (apply Z.lxor_nonneg; lia).
  apply Z.log2_lt_cancel. change (Z.log2 256) with 8.
  eapply Z.le_lt_trans; [apply Z.log2_lxor; lia|].
  assert (forall c, 0 <= c < 256 -> Z.log2 c < 8) as L.
  { intros c Hc. destruct (Z.eq_dec c 0) as [->|]; [reflexivity|].
    apply Z.log2_lt_pow2; lia. }
  apply Z.max_lub_lt; by apply L.
Qed.

Lemma lxor_cancel a b : Z.lxor (Z.lxor a b) b = a.
Proof. by rewrite Z.lxor_assoc, Z.lxor_nilpotent, Z.lxor_0_r. Qed.

(** Testing flag bits. *)
Lemma land_lor_zero x a b : (Z.land (Z.lor x a) b =? 0) = (Z.land x b =? 0) && (Z.land a b =? 0).
Proof.
  rewrite Z.land_lor_distr_l. destruct (Z.eqb_spec (Z.lor (Z.land x b) (Z.land a b)) 0) as [E|E].
  - apply Z.lor_eq_0_iff in E as [-> ->]. done.
  - destruct (Z.eqb_spec (Z.land x b) 0) as [E1|]; [|done]. destruct (Z.eqb_spec (Z.land a b) 0) as [E2|]; [|done].
    rewrite E1, E2 in E. done.
Qed.

(** Checking a property of every byte by evaluation. *)
Definition all_bytes (f : Z -> bool) : bool := forallb f (Z.of_nat <$> seq 0 256).

Lemma all_bytes_spec f : all_bytes f = true -> forall b, byte_ok b -> f b = true.
Proof.
  unfold all_bytes, byte_ok. rewrite forallb_forall. intros H b Hb.
  apply H, list_elem_of_In, list_elem_of_fmap.
  exists (Z.to_nat b). split; [lia|]. apply elem_of_seq. lia.
Qed.

(** ** Bytes through buffer operations *)

Lemma rd_byte buf i b : bytes_ok buf -> rd buf i = Some b -> byte_ok b.
Proof.
  unfold rd. destruct (i <? 0); [done|]. intros H E. by eapply Forall_lookup_1.
Qed.
Lemma slice_bytes buf i j : bytes_ok buf -> bytes_ok (slice buf i j).
Proof. intros H. unfold slice. by apply Forall_take, Forall_drop. Qed.
Lemma memcpy_bytes buf off l buf' : bytes_ok buf -> bytes_ok l -> memcpy buf off l = Some buf' -> bytes_ok buf'.
Proof.
  unfold memcpy. destruct (_ || _); [done|]. intros Hb Hl E. injection E as <-.
  apply Forall_app; split; [by apply Forall_take|]. apply Forall_app; split; [done|by apply Forall_drop].
Qed.
Lemma memcpy_fits buf off l : 0 <= off -> off + zlen l <= zlen buf -> exists b, memcpy buf off l = Some b.
Proof.
  intros. unfold memcpy.
  destruct (Z.ltb_spec off 0); [lia|]. destruct (Z.ltb_spec (zlen buf) (off + zlen l)); [lia|]. eauto.
Qed.
Lemma memcpy_length buf off l buf' : memcpy buf off l = Some buf' -> zlen buf' = zlen buf.
Proof.
  unfold memcpy. destruct (Z.ltb_spec off 0); [done|]. destruct (Z.ltb_spec (zlen buf) (off + zlen l)); [done|].
  intros E. injection E as <-. unfold zlen in *. rewrite !length_app, length_take, length_drop. lia.
Qed.

(** ** C functions with early returns

    [CM S E A] is a computation over a state [S]: [None] is undefined behaviour (an access
    outside of an object), [inl e] an early [return e], [inr a] normal completion. *)

Definition CM (S E A : Type) : Type := S -> option (S * (E + A)).

#[export] Instance CM_ret {S E} : MRet (CM S E) := fun A a s => Some (s, inr a).
#[export] Instance CM_bind {S E} : MBind (CM S E) := fun A B k m s =>
  match m s with
  | None => None
  | Some (s', inl e) => Some (s', inl e)
  | Some (s', inr a) => k a s'
  end.

Definition creturn {S E A} (e : E) : CM S E A := fun s => Some (s, inl e).
Definition cget {S E} : CM S E S := fun s => Some (s, inr s).
Definition cmod {S E} (f : S -> S) : CM S E unit := fun s => Some (f s, inr tt).
Definition clift {S E A} (o : option A) : CM S E A :=
  fun s => match o with Some a => Some (s, inr a) | None => None end.
Definition cwhen {S E} (b : bool) (m : CM S E unit) : CM S E unit :=
  if b then m else mret tt.

Lemma cbind_inr {S E A B} (m : CM S E A) (k : A -> CM S E B) s s' a :
  m s = Some (s', inr a) -> (m ≫= k) s = k a s'.
Proof. intros H. unfold mbind, CM_bind. by rewrite H. Qed.
Lemma cbind_inl {S E A B} (m : CM S E A) (k : A -> CM S E B) s s' e :
  m s = Some (s', inl e) -> (m ≫= k) s = Some (s', inl e).
Proof. intros H. unfold mbind, CM_bind. by rewrite H. Qed.

(** Total-correctness triples: [cwp m s Q] says that [m] does not run into undefined
    behaviour from [s] and that its outcome satisfies [Q]. *)
Definition cwp {S E A} (m : CM S E A) (s : S) (Q : S -> E + A -> Prop) : Prop :=
  match m s with Some (s', r) => Q s' r | None => False end.

Section Cwp.
Context {S E : Type}.
Implicit Types (s : S).

Lemma cwp_mono {A} (m : CM S E A) s (Q R : S -> E + A -> Prop) :
  cwp m s Q -> (forall s' r, Q s' r -> R s' r) -> cwp m s R.
Proof. unfold cwp. destruct (m s) as [[s' r]|]; auto. Qed.
Lemma cwp_bind {A B} (m : CM S E A) (k : A -> CM S E B) s Q :
  cwp m s (fun s' r => match r with inl e => Q s' (inl e) | inr a => cwp (k a) s' Q end) ->
  cwp (m ≫= k) s Q.
Proof. unfold cwp, mbind, CM_bind. destruct (m s) as [[s' [e|a]]|]; auto. Qed.
Lemma cwp_ret {A} (a : A) s (Q : S -> E + A -> Prop) : Q s (inr a) -> cwp (mret a) s Q.
Proof. auto. Qed.
Lemma cwp_return {A} (e : E) s (Q : S -> E + A -> Prop) : Q s (inl e) -> cwp (creturn e) s Q.
Proof. auto. Qed.
Lemma cwp_get s (Q : S -> E + S -> Prop) : Q s (inr s) -> cwp cget s Q.
Proof. auto. Qed.
Lemma cwp_mod f s (Q : S -> E + unit -> Prop) : Q (f s) (inr tt) -> cwp (cmod f) s Q.
Proof. auto. Qed.
Lemma cwp_lift {A} (o : option A) a s (Q : S -> E + A -> Prop) :
  o = Some a -> Q s (inr a) -> cwp (clift o) s Q.
Proof. unfold cwp, clift. by intros ->. Qed.
Lemma cwp_when b (m : CM S E unit) s Q :
  (b = true -> cwp m s Q) -> (b = false -> Q s (inr tt)) -> cwp (cwhen b m) s Q.
Proof. unfold cwhen. destruct b; intros; [auto|apply cwp_ret; auto]. Qed.
Lemma cwp_assoc {A B C} (m : CM S E A) (k : A -> CM S E B) (l : B -> CM S E C) s Q :
  cwp ((m ≫= k) ≫= l) s Q -> cwp (m ≫= fun a => k a ≫= l) s Q.
Proof. unfold cwp, mbind, CM_bind. by destruct (m s) as [[s' [e|a]]|]. Qed.
Lemma cwp_Some {A} (m : CM S E A) s Q :
  cwp m s Q -> exists s' r, m s = Some (s', r) /\ Q s' r.
Proof. unfold cwp. destruct (m s) as [[s' r]|]; [eauto|done]. Qed.
End Cwp.

(** Partial-correctness triples: if [m] completes, its outcome satisfies [Q]. *)
Definition cwlp {S E A} (m : CM S E A) (s : S) (Q : S -> E + A -> Prop) : Prop :=
  forall s' r, m s = Some (s', r) -> Q s' r.

Section Cwlp.
Context {S E : Type}.
Implicit Types (s : S).

Lemma cwlp_mono {A} (m : CM S E A) s (Q R : S -> E + A -> Prop) :
  cwlp m s Q -> (forall s' r, Q s' r -> R s' r) -> cwlp m s R.
Proof. unfold cwlp. eauto. Qed.
Lemma cwlp_bind {A B} (m : CM S E A) (k : A -> CM S E B) s Q :
  cwlp m s (fun s' r => match r with inl e => Q s' (inl e) | inr a => cwlp (k a) s' Q end) ->
  cwlp (m ≫= k) s Q.
Proof.
  unfold cwlp, mbind, CM_bind. destruct (m s) as [[s1 [e|a]]|]; intros H s' r E1; simplify_eq.
  - exact (H _ _ eq_refl).
  - exact (H _ _ eq_refl _ _ E1).
Qed.
Lemma cwlp_ret {A} (a : A) s (Q : S -> E + A -> Prop) : Q s (inr a) -> cwlp (mret a) s Q.
Proof. intros H s' r E1. by injection E1 as <- <-. Qed.
Lemma cwlp_return {A} (e : E) s (Q : S -> E + A -> Prop) : Q s (inl e) -> cwlp (creturn e) s Q.
Proof. intros H s' r E1. by injection E1 as <- <-. Qed.
Lemma cwlp_get s (Q : S -> E + S -> Prop) : Q s (inr s) -> cwlp cget s Q.
Proof. intros H s' r E1. by injection E1 as <- <-. Qed.
Lemma cwlp_mod f s (Q : S -> E + unit -> Prop) : Q (f s) (inr tt) -> cwlp (cmod f) s Q.
Proof. intros H s' r E1. by injection E1 as <- <-. Qed.
Lemma cwlp_lift {A} (o : option A) s (Q : S -> E + A -> Prop) :
  (forall a, o = Some a -> Q s (inr a)) -> cwlp (clift o) s Q.
Proof. unfold cwlp, clift. destruct o; [|done]. intros H s' r E1. injection E1 as <- <-. by apply H. Qed.
Lemma cwlp_when b (m : CM S E unit) s Q :
  (b = true -> cwlp m s Q) -> (b = false -> Q s (inr tt)) -> cwlp (cwhen b m) s Q.
Proof. unfold cwhen. destruct b; intros; [auto|apply cwlp_ret; auto]. Qed.
Lemma cwp_cwlp {A} (m : CM S E A) s Q : cwp m s Q -> cwlp m s Q.
Proof. unfold cwp, cwlp. intros H s' r E1. by rewrite E1 in H. Qed.
End Cwlp.

(** ** Sockets

    The results of [read] and [write] on a non-blocking descriptor: [-1] with [errno] being [EAGAIN] or another error, or the
    bytes (the number of bytes).  A call that is interrupted ([EINTR]) is repeated by the code; an operation of the models stands for
    the first call that is not. *)
Inductive io (A : Type) := IoAgain | IoErr | IoDone (a : A).
Arguments IoAgain {A}.
Arguments IoErr {A}.
Arguments IoDone {A}.

Definition IWN_POLLIN : Z := 1.
Definition IWN_POLLOUT : Z := 4.
Definition IWN_POLLET : Z := 2147483648.

(** ** Automation *)

Create HintDb iwn.
Create Rewrite HintDb zlen.
#[export] Hint Resolve zlen_nonneg bytes_of_string_ok lxor_byte rd_byte slice_bytes memcpy_bytes : iwn.
#[export] Hint Rewrite @zlen_app @zlen_cons @zlen_nil : zlen.

(** Literal byte lists. *)
Ltac bytes_tac := repeat first [assumption | apply Forall_nil_2 | apply Forall_cons_2].

Ltac zlen_lia := autorewrite with zlen in *; unfold zlen in *; lia.

(** Case analysis on the boolean comparisons a C condition compiles to. *)
Ltac zcases :=
  repeat match goal with
  | |- context [Z.ltb ?a ?b] => destruct (Z.ltb_spec a b)
  | |- context [Z.leb ?a ?b] => destruct (Z.leb_spec a b)
  | |- context [Z.eqb ?a ?b] => destruct (Z.eqb_spec a b)
  | H : context [Z.ltb ?a ?b] |- _ => destruct (Z.ltb_spec a b)
  | H : context [Z.leb ?a ?b] |- _ => destruct (Z.leb_spec a b)
  | H : context [Z.eqb ?a ?b] |- _ => destruct (Z.eqb_spec a b)
  end.
