(* ===== verification/Queue.v ===== *)
(** * Queue: the intrusive singly linked queue of [src/src/wslay/wslay_queue.c] *)
From S2P Require Import Prelude.

(** Addresses of [struct wslay_queue_entry] objects. *)
Abbreviation loc := positive.

(** What [queue->tail] points to: [&queue->top] or [&ent->next]. *)
Inductive tail_ptr := TailTop | TailNext (l : loc).

(** The heap of entries: an entry is its [next] field ([None] is [NULL]). *)
Abbreviation heap := (gmap loc (option loc)).

Record wslay_queue := mkQueue { top : option loc; tail : tail_ptr }.

Definition wslay_queue_init : wslay_queue := mkQueue None TailTop.

(** [ *queue->tail = v ]; [None] when the pointed-to entry is not live. *)
Definition store_tail (h : heap) (q : wslay_queue) (v : option loc) : option (heap * wslay_queue) :=
  match q.(tail) with
  | TailTop => Some (h, mkQueue v q.(tail))
  | TailNext l =>
      match h !! l with
      | Some _ => Some (<[l := v]> h, q)
      | None => None
      end
  end.

Definition wslay_queue_push (h : heap) (q : wslay_queue) (ent : loc) : option (heap * wslay_queue) :=
  let h := <[ent := None]> h in
  '(h, q) ← store_tail h q (Some ent);
  Some (h, mkQueue q.(top) (TailNext ent)).

Definition wslay_queue_push_front (h : heap) (q : wslay_queue) (ent : loc) : heap * wslay_queue :=
  let next := q.(top) in
  let h := <[ent := next]> h in
  (h, mkQueue (Some ent) (match next with None => TailNext ent | Some _ => q.(tail) end)).

(** [assert(queue->top)] is the [None] of the result. *)
Definition wslay_queue_pop (h : heap) (q : wslay_queue) : option wslay_queue :=
  t ← q.(top);
  next ← h !! t;
  Some (mkQueue next (match next with None => TailTop | Some _ => q.(tail) end)).

Definition wslay_queue_top (q : wslay_queue) : option loc := q.(top).

(** [wslay_struct_of(queue->tail, struct wslay_queue_entry, next)]: only meaningful when
    the tail points into an entry. *)
Definition wslay_queue_tail (q : wslay_queue) : option loc :=
  _ ← q.(top);
  match q.(tail) with TailNext l => Some l | TailTop => None end.

Definition wslay_queue_empty (q : wslay_queue) : option bool :=
  match q.(top), q.(tail) with
  | Some _, _ => Some false
  | None, TailTop => Some true
  | None, TailNext _ => None (* assert(queue->top || queue->tail == &queue->top) *)
  end.

(** ** Abstraction: a queue represents a list of entries *)

Fixpoint chain (h : heap) (p : option loc) (l : list loc) : Prop :=
  match l with
  | [] => p = None
  | x :: l' => p = Some x /\ exists n, h !! x = Some n /\ chain h n l'
  end.

Definition queue_repr (h : heap) (q : wslay_queue) (l : list loc) : Prop :=
  NoDup l /\ chain h q.(top) l /\
  q.(tail) = match last l with None => TailTop | Some x => TailNext x end.

Lemma chain_insert_ne h p l x v : x ∉ l -> chain h p l -> chain (<[x := v]> h) p l.
Proof.
  revert p. induction l as [|y l IH]; intros p Hx; simpl; [done|].
  intros [-> (n & Hn & Hc)]. split; [done|]. exists n.
  rewrite lookup_insert_ne by set_solver. split; [done|]. apply IH; set_solver.
Qed.

(** Overwriting the last [next] field appends. *)
Lemma chain_snoc h p l x y :
  NoDup (l ++ [x]) -> y ∉ l ++ [x] -> h !! y = Some None -> chain h p (l ++ [x]) ->
  chain (<[x := Some y]> h) p (l ++ [x; y]).
Proof.
  revert p. induction l as [|z l IH]; intros p Hnd Hy Hhy; simpl.
  - intros [-> (n & Hn & ->)]. split; [done|]. exists (Some y).
    rewrite lookup_insert_eq. split; [done|]. split; [done|].
    exists None. rewrite lookup_insert_ne by set_solver. done.
  - intros [-> (n & Hn & Hc)]. split; [done|].
    simpl in Hnd. apply NoDup_cons in Hnd as [Hz Hnd]. exists n.
    rewrite lookup_insert_ne by set_solver. split; [done|].
    apply IH; [done|set_solver|done|done].
Qed.

Lemma queue_init_repr h : queue_repr h wslay_queue_init [].
Proof. split_and!; [constructor|done|done]. Qed.

Lemma queue_push_repr h q l ent :
  ent ∉ l -> queue_repr h q l ->
  exists h' q', wslay_queue_push h q ent = Some (h', q') /\ queue_repr h' q' (l ++ [ent]) /\
    (forall x, x ∉ ent :: l -> h' !! x = h !! x).
Proof.
  intros Hni (Hnd & Hc & Ht). unfold wslay_queue_push, store_tail. rewrite Ht.
  destruct l as [|x l' _] using rev_ind.
  - simpl. eexists _, _. split; [done|]. split.
    + split_and!; [apply NoDup_singleton| |done]. simpl. split; [done|].
      exists None. rewrite lookup_insert_eq. done.
    + intros y Hy. rewrite lookup_insert_ne by set_solver. done.
  - rewrite last_snoc.
    assert (chain (<[ent := None]> h) (top q) (l' ++ [x])) as Hc' by (by apply chain_insert_ne).
    assert (is_Some (<[ent := None]> h !! x)) as [n Hn].
    { rewrite lookup_insert_ne by set_solver. clear -Hc. revert Hc.
      generalize (top q). induction l' as [|z l' IH]; simpl; intros p.
      - intros (_ & n & -> & _). eauto.
      - intros (_ & n & _ & Hc). eauto. }
    rewrite Hn. simpl. eexists _, _. split; [done|]. split.
    + split_and!.
      * apply NoDup_app. split_and!; [done|set_solver|apply NoDup_singleton].
      * rewrite <- app_assoc. apply chain_snoc; [done|done|apply lookup_insert_eq|done].
      * simpl. by rewrite last_snoc.
    + intros y Hy. rewrite !lookup_insert_ne by set_solver. done.
Qed.

Lemma queue_push_front_repr h q l ent :
  ent ∉ l -> queue_repr h q l ->
  let '(h', q') := wslay_queue_push_front h q ent in queue_repr h' q' (ent :: l).
Proof.
  intros Hni (Hnd & Hc & Ht). unfold wslay_queue_push_front. split_and!.
  - by constructor.
  - simpl. split; [done|]. exists (top q). rewrite lookup_insert_eq. split; [done|].
    by apply chain_insert_ne.
  - simpl. destruct l as [|y l]; simpl in *.
    + by rewrite Hc.
    + destruct Hc as [-> _]. done.
Qed.

Lemma queue_pop_repr h q x l :
  queue_repr h q (x :: l) ->
  wslay_queue_top q = Some x /\ exists q', wslay_queue_pop h q = Some q' /\ queue_repr h q' l.
Proof.
  intros (Hnd & [Htop (n & Hn & Hc)] & Ht). split; [done|].
  unfold wslay_queue_pop. rewrite Htop. simpl. rewrite Hn. simpl.
  eexists. split; [done|]. apply NoDup_cons in Hnd as [_ Hnd].
  split_and!; [done|done|]. simpl.
  destruct l as [|y l]; simpl in *; [by subst|].
  destruct Hc as [-> _]. done.
Qed.

Lemma queue_tail_repr h q l x : queue_repr h q (l ++ [x]) -> wslay_queue_tail q = Some x.
Proof.
  intros (Hnd & Hc & Ht). unfold wslay_queue_tail. rewrite last_snoc in Ht. rewrite Ht.
  destruct l as [|y l]; simpl in Hc; destruct Hc as [-> _]; done.
Qed.

Lemma queue_empty_repr h q l :
  queue_repr h q l -> wslay_queue_empty q = Some (bool_decide (l = [])).
Proof.
  intros (Hnd & Hc & Ht). unfold wslay_queue_empty.
  destruct l as [|y l]; simpl in *.
  - by rewrite Hc, Ht.
  - destruct Hc as [-> _]. done.
Qed.

(** ** Simulation: any script of operations behaves as on a list *)

Inductive qop := QPush (e : loc) | QPushFront (e : loc) | QPop.

(** The abstract deque; [None] is a use that violates the caller's obligations (an entry
    that is already linked is pushed, or an empty queue is popped). *)
Definition abs_step (l : list loc) (op : qop) : option (list loc) :=
  match op with
  | QPush e => if decide (e ∈ l) then None else Some (l ++ [e])
  | QPushFront e => if decide (e ∈ l) then None else Some (e :: l)
  | QPop => match l with [] => None | _ :: l' => Some l' end
  end.

Definition conc_step (s : heap * wslay_queue) (op : qop) : option (heap * wslay_queue) :=
  let '(h, q) := s in
  match op with
  | QPush e => wslay_queue_push h q e
  | QPushFront e => Some (wslay_queue_push_front h q e)
  | QPop => (fun q' => (h, q')) <$> wslay_queue_pop h q
  end.

Fixpoint run_ops {S} (step : S -> qop -> option S) (s : S) (ops : list qop) : option S :=
  match ops with
  | [] => Some s
  | op :: ops => s' ← step s op; run_ops step s' ops
  end.

Lemma step_simulation h q l op l' :
  queue_repr h q l -> abs_step l op = Some l' ->
  exists h' q', conc_step (h, q) op = Some (h', q') /\ queue_repr h' q' l'.
Proof.
  intros Hr. destruct op as [e|e|]; simpl.
  - case_decide as Hin; [done|]. intros [= <-].
    destruct (queue_push_repr h q l e Hin Hr) as (h' & q' & ? & ? & _). eauto.
  - case_decide as Hin; [done|]. intros [= <-].
    pose proof (queue_push_front_repr h q l e Hin Hr) as H.
    destruct (wslay_queue_push_front h q e) as [h' q']. eauto.
  - destruct l as [|x l]; [done|]. intros [= <-].
    destruct (queue_pop_repr h q x l Hr) as (_ & q' & -> & Hr'). simpl. eauto.
Qed.

Arguments conc_step : simpl never.

Lemma run_simulation ops h q l l' :
  queue_repr h q l -> run_ops abs_step l ops = Some l' ->
  exists h' q', run_ops conc_step (h, q) ops = Some (h', q') /\ queue_repr h' q' l'.
Proof.
  revert h q l. induction ops as [|op ops IH]; simpl; intros h q l Hr.
  - intros [= <-]. eauto.
  - destruct (abs_step l op) as [l1|] eqn:E; [|done]. simpl.
    destruct (step_simulation _ _ _ _ _ Hr E) as (h1 & q1 & -> & Hr1). simpl. eauto.
Qed.

(** The read-only operations on a represented queue. *)
Lemma queue_observers h q l :
  queue_repr h q l ->
  wslay_queue_top q = head l /\ wslay_queue_tail q = last l /\
  wslay_queue_empty q = Some (bool_decide (l = [])).
Proof.
  intros Hr. split_and!; [| |by eapply queue_empty_repr].
  - destruct l; [apply Hr|by eapply queue_pop_repr].
  - destruct l as [|x l _] using rev_ind.
    + destruct Hr as (_ & Hc & Ht). unfold wslay_queue_tail. simpl in Hc. by rewrite Hc.
    + rewrite last_snoc. by eapply queue_tail_repr.
Qed.

(** The pointer-level queue implements a deque: after any script of pushes, front
    pushes and pops that is legal on a list, the C operations have succeeded (no failed
    assertion, no write through a dangling [tail]) and [top], [tail] and [empty] are the
    head, the last element and the emptiness test of the abstract list. *)
Theorem queue_refines_list ops l :
  run_ops abs_step [] ops = Some l ->
  exists h q, run_ops conc_step (∅, wslay_queue_init) ops = Some (h, q) /\
    wslay_queue_top q = head l /\ wslay_queue_tail q = last l /\
    wslay_queue_empty q = Some (bool_decide (l = [])).
Proof.
  intros Hrun.
  destruct (run_simulation ops ∅ wslay_queue_init [] l (queue_init_repr _) Hrun) as (h & q & ? & Hr).
  exists h, q. split; [done|]. by eapply queue_observers.
Qed.

Lemma queue_refines_list_witness :
  let ops := [QPush 1; QPush 2; QPop; QPushFront 3; QPop; QPop; QPush 4; QPush 5]%positive in
  exists h q, run_ops conc_step (∅, wslay_queue_init) ops = Some (h, q) /\
    wslay_queue_top q = Some 4%positive /\ wslay_queue_tail q = Some 5%positive /\
    wslay_queue_empty q = Some false.
Proof.
  intros ops. apply (queue_refines_list ops [4; 5]%positive). vm_compute. reflexivity.
Defined.
