(* ===== verification/Utf8.v ===== *)
(** * Utf8: the UTF-8 validating automaton of [src/src/wslay/wslay_event.c]

    The table-driven [decode] is modelled with its table; the reference is the ABNF grammar
    of RFC 3629.  The theorems show that the automaton accepts exactly the well-formed
    strings and that it rejects as soon as no continuation can be well formed. *)
From S2P Require Import Prelude.

Definition UTF8_ACCEPT : Z := 0.
Definition UTF8_REJECT : Z := 12.

Definition utf8d : list Z :=
  [
   0;0;0;0;0;0;0;0;0;0;0;0;0;0;0;0; 0;0;0;0;0;0;0;0;0;0;0;0;0;0;0;0;
   0;0;0;0;0;0;0;0;0;0;0;0;0;0;0;0; 0;0;0;0;0;0;0;0;0;0;0;0;0;0;0;0;
   0;0;0;0;0;0;0;0;0;0;0;0;0;0;0;0; 0;0;0;0;0;0;0;0;0;0;0;0;0;0;0;0;
   0;0;0;0;0;0;0;0;0;0;0;0;0;0;0;0; 0;0;0;0;0;0;0;0;0;0;0;0;0;0;0;0;
   1;1;1;1;1;1;1;1;1;1;1;1;1;1;1;1; 9;9;9;9;9;9;9;9;9;9;9;9;9;9;9;9;
   7;7;7;7;7;7;7;7;7;7;7;7;7;7;7;7; 7;7;7;7;7;7;7;7;7;7;7;7;7;7;7;7;
   8;8;2;2;2;2;2;2;2;2;2;2;2;2;2;2; 2;2;2;2;2;2;2;2;2;2;2;2;2;2;2;2;
   10;3;3;3;3;3;3;3;3;3;3;3;3;4;3;3; 11;6;6;6;5;8;8;8;8;8;8;8;8;8;8;8;
   0;12;24;36;60;96;84;12;12;12;48;72; 12;12;12;12;12;12;12;12;12;12;12;12;
   12; 0;12;12;12;12;12; 0;12; 0;12;12; 12;24;12;12;12;12;12;24;12;24;12;12;
   12;12;12;12;12;12;12;24;12;12;12;12; 12;24;12;12;12;12;12;12;12;24;12;12;
   12;12;12;12;12;12;12;36;12;36;12;12; 12;36;12;12;12;12;12;36;12;36;12;12;
   12;36;12;12;12;12;12;12;12;12;12;12
  ].

(** [decode(&state, &codep, byte)] returns the new state and code point; [None] is a read
    outside of [utf8d]. *)
Definition decode (state codep byte : Z) : option (Z * Z) :=
  type ← rd utf8d byte;
  let codep' :=
    if negb (state =? UTF8_ACCEPT)
    then u32 (Z.lor (Z.land byte 63) (Z.shiftl codep 6))
    else Z.land (Z.shiftr 255 type) byte in
  state' ← rd utf8d (256 + state + type);
  Some (state', codep').

(** The validation loop of [wslay_event_recv]: [codep] is a scratch variable there. *)
Fixpoint utf8_run (state : Z) (l : list Z) : option Z :=
  match l with
  | [] => Some state
  | b :: l' =>
      '(s, _) ← decode state 0 b;
      if s =? UTF8_REJECT then Some s else utf8_run s l'
  end.

(** ** Reference grammar (RFC 3629, section 4) *)

Definition in_range (lo hi b : Z) : Prop := lo <= b <= hi.
Abbreviation utf8_tail := (in_range 128 191).

Inductive utf8_char : list Z -> Prop :=
| utf8_1 b : in_range 0 127 b -> utf8_char [b]
| utf8_2 b c : in_range 194 223 b -> utf8_tail c -> utf8_char [b; c]
| utf8_3_E0 c d : in_range 160 191 c -> utf8_tail d -> utf8_char [224; c; d]
| utf8_3 b c d : in_range 225 236 b -> utf8_tail c -> utf8_tail d -> utf8_char [b; c; d]
| utf8_3_ED c d : in_range 128 159 c -> utf8_tail d -> utf8_char [237; c; d]
| utf8_3_hi b c d : in_range 238 239 b -> utf8_tail c -> utf8_tail d -> utf8_char [b; c; d]
| utf8_4_F0 c d e : in_range 144 191 c -> utf8_tail d -> utf8_tail e -> utf8_char [240; c; d; e]
| utf8_4 b c d e :
    in_range 241 243 b -> utf8_tail c -> utf8_tail d -> utf8_tail e -> utf8_char [b; c; d; e]
| utf8_4_F4 c d e : in_range 128 143 c -> utf8_tail d -> utf8_tail e -> utf8_char [244; c; d; e].

Inductive utf8_octets : list Z -> Prop :=
| utf8_nil : utf8_octets []
| utf8_cons c l : utf8_char c -> utf8_octets l -> utf8_octets (c ++ l).

(** ** The automaton behind the table

    Each state names the suffixes that complete the current character. *)

Inductive ustate := UAccept | UReject | UT1 | UT2 | UE0 | UED | UF0 | UT3 | UF4.

Definition ustates : list ustate := [UAccept; UReject; UT1; UT2; UE0; UED; UF0; UT3; UF4].

Definition enc (s : ustate) : Z :=
  match s with
  | UAccept => 0 | UReject => 12 | UT1 => 24 | UT2 => 36 | UE0 => 48 | UED => 60
  | UF0 => 72 | UT3 => 84 | UF4 => 96
  end.

Definition inb (lo hi b : Z) : bool := (lo <=? b) && (b <=? hi).

Definition ustep (s : ustate) (b : Z) : ustate :=
  match s with
  | UAccept =>
      if inb 0 127 b then UAccept else if inb 194 223 b then UT1
      else if b =? 224 then UE0 else if b =? 237 then UED
      else if inb 225 239 b then UT2
      else if b =? 240 then UF0 else if inb 241 243 b then UT3
      else if b =? 244 then UF4 else UReject
  | UReject => UReject
  | UT1 => if inb 128 191 b then UAccept else UReject
  | UT2 => if inb 128 191 b then UT1 else UReject
  | UE0 => if inb 160 191 b then UT1 else UReject
  | UED => if inb 128 159 b then UT1 else UReject
  | UF0 => if inb 144 191 b then UT2 else UReject
  | UT3 => if inb 128 191 b then UT2 else UReject
  | UF4 => if inb 128 143 b then UT2 else UReject
  end.

(** The table agrees with the automaton on every state and every byte. *)
Lemma table_check :
  forallb (fun s => all_bytes (fun b =>
    match decode (enc s) 0 b with Some (n, _) => n =? enc (ustep s b) | None => false end)) ustates
  = true.
Proof. vm_compute. reflexivity. Qed.

Lemma ustates_all s : In s ustates.
Proof. destruct s; simpl; tauto. Qed.

Lemma decode_state_irrel s c c' b : fst <$> decode s c b = fst <$> decode s c' b.
Proof. unfold decode. destruct (rd utf8d b); simpl; [|done]. by destruct (rd utf8d _). Qed.

Lemma decode_ustep s c b : byte_ok b -> exists c', decode (enc s) c b = Some (enc (ustep s b), c').
Proof.
  intros Hb. pose proof table_check as H. rewrite forallb_forall in H.
  specialize (H s (ustates_all s)). apply all_bytes_spec with (b := b) in H; [|done].
  destruct (decode (enc s) 0 b) as [[n c0]|] eqn:E; [|done].
  apply Z.eqb_eq in H. subst n. pose proof (decode_state_irrel (enc s) c 0 b) as I.
  rewrite E in I. destruct (decode (enc s) c b) as [[n c1]|]; simpl in I; [|done].
  injection I as ->. eauto.
Qed.

Definition urun (s : ustate) (l : list Z) : ustate := fold_left ustep l s.

Lemma urun_reject l : urun UReject l = UReject.
Proof. induction l; simpl; done. Qed.

Lemma enc_reject s : (enc s =? UTF8_REJECT) = true <-> s = UReject.
Proof. destruct s; vm_compute; split; congruence. Qed.

Lemma enc_inj s t : enc s = enc t -> s = t.
Proof. destruct s, t; vm_compute; congruence. Qed.

Lemma utf8_run_urun s l : bytes_ok l -> utf8_run (enc s) l = Some (enc (urun s l)).
Proof.
  intros Hl. revert s. induction Hl as [|b l Hb _ IH]; intros s; simpl; [done|].
  destruct (decode_ustep s 0 b Hb) as [c ->]. simpl.
  destruct (enc (ustep s b) =? UTF8_REJECT) eqn:E; [|apply IH].
  apply enc_reject in E. by rewrite E, urun_reject.
Qed.

(** The strings that lead from a state back to acceptance. *)
Definition completes (s : ustate) (l : list Z) : Prop := urun s l = UAccept.

Lemma inb_spec lo hi b : reflect (in_range lo hi b) (inb lo hi b).
Proof. unfold inb, in_range. apply iff_reflect. rewrite andb_true_iff. lia. Qed.

Lemma urun_cons s b l : urun s (b :: l) = urun (ustep s b) l.
Proof. done. Qed.

(** States with a single non-rejecting successor. *)
Definition window (s : ustate) : option (Z * Z * ustate) :=
  match s with
  | UAccept | UReject => None
  | UT1 => Some (128, 191, UAccept) | UT2 => Some (128, 191, UT1)
  | UE0 => Some (160, 191, UT1) | UED => Some (128, 159, UT1)
  | UF0 => Some (144, 191, UT2) | UT3 => Some (128, 191, UT2) | UF4 => Some (128, 143, UT2)
  end.

Lemma window_step s lo hi t b :
  window s = Some (lo, hi, t) -> ustep s b = if inb lo hi b then t else UReject.
Proof. destruct s; simpl; intros [= <- <- <-]; done. Qed.

Lemma window_fwd s lo hi t b l :
  window s = Some (lo, hi, t) -> in_range lo hi b -> urun s (b :: l) = urun t l.
Proof. intros Hw Hb. rewrite urun_cons, (window_step _ _ _ _ _ Hw). by destruct (inb_spec lo hi b). Qed.

Lemma window_bwd s lo hi t l :
  window s = Some (lo, hi, t) -> completes s l ->
  exists b l', l = b :: l' /\ in_range lo hi b /\ completes t l'.
Proof.
  intros Hw. destruct l as [|b l]; unfold completes.
  - destruct s; simpl in *; congruence.
  - rewrite urun_cons, (window_step _ _ _ _ _ Hw). destruct (inb_spec lo hi b).
    + eauto.
    + rewrite urun_reject. done.
Qed.

(** First bytes. *)
Lemma accept_step b (s : ustate) :
  ustep UAccept b = s ->
  match s with
  | UAccept => in_range 0 127 b | UT1 => in_range 194 223 b | UE0 => b = 224 | UED => b = 237
  | UT2 => in_range 225 236 b \/ in_range 238 239 b | UF0 => b = 240
  | UT3 => in_range 241 243 b | UF4 => b = 244 | UReject => True
  end.
Proof.
  intros <-. unfold ustep.
  repeat match goal with
  | |- context [inb ?lo ?hi b] => destruct (inb_spec lo hi b)
  | |- context [b =? ?n] => destruct (Z.eqb_spec b n)
  end; unfold in_range in *; try done; lia.
Qed.

Ltac ustep_solve :=
  unfold ustep, in_range in *;
  repeat match goal with
  | |- context [inb ?lo ?hi ?b] => destruct (inb_spec lo hi b)
  | |- context [?b =? ?n] => destruct (Z.eqb_spec b n)
  end; unfold in_range in *; (lia || done).

Lemma first_T1 b : in_range 194 223 b -> ustep UAccept b = UT1.
Proof. intros. ustep_solve. Qed.
Lemma first_T2 b : in_range 225 236 b \/ in_range 238 239 b -> ustep UAccept b = UT2.
Proof. intros. ustep_solve. Qed.
Lemma first_T3 b : in_range 241 243 b -> ustep UAccept b = UT3.
Proof. intros. ustep_solve. Qed.
Lemma first_1 b : in_range 0 127 b -> ustep UAccept b = UAccept.
Proof. intros. ustep_solve. Qed.

Ltac windows := repeat (erewrite window_fwd; [|reflexivity|eassumption]).

Lemma utf8_char_urun c l : utf8_char c -> urun UAccept (c ++ l) = urun UAccept l.
Proof.
  intros H. destruct H; simpl app; rewrite urun_cons;
    rewrite ?first_1, ?first_T1, ?first_T2, ?first_T3 by tauto; try (by windows); done.
Qed.

Lemma utf8_octets_accept l : utf8_octets l -> completes UAccept l.
Proof.
  induction 1 as [|c l Hc _ IH]; [done|]. unfold completes. by rewrite utf8_char_urun.
Qed.

Lemma T1_inv l : completes UT1 l -> exists b l', l = b :: l' /\ utf8_tail b /\ completes UAccept l'.
Proof. by apply window_bwd. Qed.
Lemma T2_inv l :
  completes UT2 l -> exists b c l', l = b :: c :: l' /\ utf8_tail b /\ utf8_tail c /\ completes UAccept l'.
Proof.
  intros (b & l1 & -> & Hb & (c & l2 & -> & Hc & H)%T1_inv)%(window_bwd UT2 128 191 UT1); [|done].
  eauto 10.
Qed.

(** An accepted string starts with a well-formed character. *)
Lemma accept_split b l :
  byte_ok b -> completes UAccept (b :: l) ->
  exists c l', b :: l = c ++ l' /\ utf8_char c /\ completes UAccept l' /\ (length l' <= length l)%nat.
Proof.
  intros Hb. unfold completes at 1. rewrite urun_cons.
  destruct (ustep UAccept b) eqn:E; apply accept_step in E; intros H.
  - exists [b], l. split_and!; eauto using utf8_char.
  - by rewrite urun_reject in H.
  - apply T1_inv in H as (c & l' & -> & ? & ?). exists [b; c], l'. simpl; split_and!; eauto using utf8_char with lia.
  - apply T2_inv in H as (c & d & l' & -> & ? & ? & ?). exists [b; c; d], l'.
    destruct E; simpl; split_and!; eauto using utf8_char with lia.
  - apply (window_bwd UE0 160 191 UT1) in H as (c & l1 & -> & ? & (d & l' & -> & ? & ?)%T1_inv); [|done].
    subst. exists [224; c; d], l'. simpl; split_and!; eauto using utf8_char with lia.
  - apply (window_bwd UED 128 159 UT1) in H as (c & l1 & -> & ? & (d & l' & -> & ? & ?)%T1_inv); [|done].
    subst. exists [237; c; d], l'. simpl; split_and!; eauto using utf8_char with lia.
  - apply (window_bwd UF0 144 191 UT2) in H as (c & l1 & -> & ? & (d & e & l' & -> & ? & ? & ?)%T2_inv); [|done].
    subst. exists [240; c; d; e], l'. simpl; split_and!; eauto using utf8_char with lia.
  - apply (window_bwd UT3 128 191 UT2) in H as (c & l1 & -> & ? & (d & e & l' & -> & ? & ? & ?)%T2_inv); [|done].
    exists [b; c; d; e], l'. simpl; split_and!; eauto using utf8_char with lia.
  - apply (window_bwd UF4 128 143 UT2) in H as (c & l1 & -> & ? & (d & e & l' & -> & ? & ? & ?)%T2_inv); [|done].
    subst. exists [244; c; d; e], l'. simpl; split_and!; eauto using utf8_char with lia.
Qed.

Lemma accept_utf8_octets l : bytes_ok l -> completes UAccept l -> utf8_octets l.
Proof.
  remember (length l) as n eqn:Hn. revert l Hn.
  induction n as [n IH] using lt_wf_ind. intros [|b l] Hn Hl Hc; [constructor|].
  apply Forall_cons in Hl as [Hb Hl].
  destruct (accept_split b l Hb Hc) as (c & l' & E & Hch & Hc' & Hlen).
  rewrite E. constructor; [done|]. simpl in Hn.
  assert (bytes_ok l') by (assert (bytes_ok (b :: l)) as HF by (by constructor);
    rewrite E in HF; by apply Forall_app in HF as [_ ?]).
  by apply (IH (length l')); [lia|..].
Qed.

(** C34. The table-driven validator accepts exactly the UTF-8 strings of RFC 3629: running
    [decode] over a byte string from [UTF8_ACCEPT] never reads outside of the table, and it
    ends in [UTF8_ACCEPT] exactly when the string is a sequence of well-formed characters
    (so overlong forms, surrogates and values above U+10FFFF are rejected). *)
Theorem utf8_run_correct l :
  bytes_ok l ->
  exists s, utf8_run UTF8_ACCEPT l = Some s /\ (s = UTF8_ACCEPT <-> utf8_octets l).
Proof.
  intros Hl. exists (enc (urun UAccept l)). split; [by apply (utf8_run_urun UAccept)|].
  split.
  - intros E. apply accept_utf8_octets; [done|]. by apply enc_inj.
  - intros H. by rewrite (utf8_octets_accept l H).
Qed.

Lemma utf8_run_correct_witness :
  exists s, utf8_run UTF8_ACCEPT [72; 195; 169; 240; 159; 152; 128] = Some s /\
    (s = UTF8_ACCEPT <-> utf8_octets [72; 195; 169; 240; 159; 152; 128]).
Proof. apply (utf8_run_correct). repeat constructor; vm_compute; congruence. Defined.

(** Every live state has a completion. *)
Definition completion (s : ustate) : list Z :=
  match s with
  | UAccept | UReject => [] | UT1 => [128] | UT2 => [128; 128] | UE0 => [160; 128]
  | UED => [128; 128] | UF0 => [144; 128; 128] | UT3 => [128; 128; 128] | UF4 => [128; 128; 128]
  end.

Lemma completion_ok s : s <> UReject -> completes s (completion s) /\ bytes_ok (completion s).
Proof.
  destruct s; try congruence; intros _; (split; [reflexivity|]);
    repeat constructor; vm_compute; congruence.
Qed.

(** Fail-fast is exact: the validator has not rejected a received prefix if and only if
    some continuation makes the whole string well-formed UTF-8, so a message that is still
    being received is closed with code 1007 only when it can no longer become valid. *)
Theorem utf8_reject_exact l :
  bytes_ok l ->
  exists s, utf8_run UTF8_ACCEPT l = Some s /\
    (s <> UTF8_REJECT <-> exists k, bytes_ok k /\ utf8_octets (l ++ k)).
Proof.
  intros Hl. exists (enc (urun UAccept l)). split; [by apply (utf8_run_urun UAccept)|].
  assert (forall k, urun UAccept (l ++ k) = urun (urun UAccept l) k) as Happ
    by (intros; unfold urun; apply fold_left_app).
  split.
  - intros Hne. assert (urun UAccept l <> UReject) as Hr by (intros E; by rewrite E in Hne).
    destruct (completion_ok _ Hr) as [Hc Hk]. exists (completion (urun UAccept l)). split; [done|].
    apply accept_utf8_octets; [by apply Forall_app|]. unfold completes. by rewrite Happ.
  - intros (k & Hk & H%utf8_octets_accept) E.
    apply (enc_inj _ UReject) in E. unfold completes in H. by rewrite Happ, E, urun_reject in H.
Qed.

Lemma utf8_reject_exact_witness :
  exists s, utf8_run UTF8_ACCEPT [237; 160] = Some s /\
    (s <> UTF8_REJECT <-> exists k, bytes_ok k /\ utf8_octets ([237; 160] ++ k)).
Proof. apply (utf8_reject_exact). repeat constructor; vm_compute; congruence. Defined.
