(* ===== verification/Frame.v ===== *)
(** * Frame: the WebSocket frame codec of [src/src/wslay/wslay_frame.c]

    [wslay_frame_send] and [wslay_frame_recv] are modelled with their buffers, their
    resumable states and their callbacks; the reference is the wire format of RFC 6455,
    [encode].  The theorems are stated for every fragmentation of the byte stream that the
    transport callbacks produce. *)
From S2P Require Import Prelude.

Definition WSLAY_ERR_WANT_READ : Z := -100.
Definition WSLAY_ERR_WANT_WRITE : Z := -101.
Definition WSLAY_ERR_PROTO : Z := -200.
Definition WSLAY_ERR_INVALID_ARGUMENT : Z := -300.
Definition WSLAY_ERR_INVALID_CALLBACK : Z := -301.

(** [wslay_is_ctrl_frame(opcode)]: [(opcode >> 3) & 1]. *)
Definition wslay_is_ctrl_frame (opcode : Z) : bool :=
  negb (Z.land (Z.shiftr opcode 3) 1 =? 0).

(** ** Byte order *)

Fixpoint be_load (l : list Z) (acc : Z) : Z :=
  match l with [] => acc | b :: l' => be_load l' (acc * 256 + b) end.
Fixpoint le_load (l : list Z) : Z :=
  match l with [] => 0 | b :: l' => Z.lor b (Z.shiftl (le_load l') 8) end.
(** The [n] low bytes of [x], most significant first: what [hton*] leaves in memory. *)
Fixpoint be_store (n : nat) (x : Z) : list Z :=
  match n with O => [] | S n' => be_store n' (x / 256) ++ [x mod 256] end.

Definition ntohl (x : Z) : Z :=
  Z.lor (Z.shiftl (Z.land x 255) 24)
    (Z.lor (Z.shiftl (Z.land (Z.shiftr x 8) 255) 16)
       (Z.lor (Z.shiftl (Z.land (Z.shiftr x 16) 255) 8) (Z.land (Z.shiftr x 24) 255))).

(** [src/src/wslay/wslay_net.c], on a little-endian host. *)
Definition wslay_byteswap64 (x : Z) : Z :=
  let u := ntohl (Z.land x 4294967295) in
  let l := ntohl (u32 (Z.shiftr x 32)) in
  Z.lor (Z.shiftl u 32) l.

(** ** State *)

Inductive wslay_frame_state :=
  PREP_HEADER | PREP_HEADER_NOBUF | SEND_PAYLOAD
| RECV_HEADER1 | RECV_PAYLOADLEN | RECV_EXT_PAYLOADLEN | RECV_MASKKEY | RECV_PAYLOAD.

#[export] Instance wslay_frame_state_eq_dec : EqDecision wslay_frame_state.
Proof. solve_decision. Defined.

Definition WSLAY_FRAME_HDR_SIZ : Z := 16.
Definition IBUF_SIZE : Z := 4096.

(** The receiving half of [struct wslay_frame_context]; [ibufmark] and [ibuflimit] are
    offsets into [ibuf]. *)
Record frame_in := mkIn {
  ibuf : list Z; ibufmark : Z; ibuflimit : Z;
  iom_fin : Z; iom_opcode : Z; iom_rsv : Z;
  ipayloadlen : Z; ipayloadoff : Z;
  imask : Z; imaskkey : list Z;
  istate : wslay_frame_state; ireqread : Z }.

(** The sending half. *)
Record frame_out := mkOut {
  opayloadlen : Z; opayloadoff : Z; opayloadmaskoff : Z;
  hdrtow : Z; omask : Z; omaskkey : list Z;
  ostate : wslay_frame_state }.

(** [wslay_frame_context_init]: zeroed memory, then the initial states. *)
Definition frame_in_init : frame_in :=
  mkIn (replicate 4096 0) 0 0 0 0 0 0 0 0 [0; 0; 0; 0] RECV_HEADER1 2.
Definition frame_out_init : frame_out :=
  mkOut 0 0 0 0 0 [0; 0; 0; 0] PREP_HEADER.
Definition wslay_frame_context_init : frame_in * frame_out := (frame_in_init, frame_out_init).

(** [struct wslay_frame_iocb] as filled by [wslay_frame_recv]. *)
Record iocb_in := mkIocbIn {
  in_fin : Z; in_rsv : Z; in_opcode : Z; in_payload_length : Z; in_mask : Z; in_data : list Z }.

(** [struct wslay_frame_iocb] as given to [wslay_frame_send]: [out_data] is an offset into
    the memory object that holds the payload. *)
Record iocb_out := mkIocbOut {
  out_fin : Z; out_rsv : Z; out_opcode : Z; out_payload_length : Z; out_mask : Z;
  out_data : Z; out_data_length : Z }.

(** XOR with the masking key, the key byte being chosen by the running offset. *)
Definition key_at (key : list Z) (off : Z) : Z := nth (Z.to_nat (off mod 4)) key 0.

Fixpoint mask_from (key : list Z) (off : Z) (l : list Z) : list Z :=
  match l with
  | [] => []
  | b :: l' => Z.lxor b (key_at key off) :: mask_from key (off + 1) l'
  end.

(** ** The transport callbacks

    They are the embedding application's: functions over an abstract environment [U].
    [recv_callback u len] delivers at most [len] bytes (the empty list stands for a result
    [<= 0]); [send_callback u data] returns the number of bytes taken (or a value [<= 0]);
    [genmask_callback] delivers a 4-byte key or fails. *)
Record frame_callbacks (U : Type) := mkCb {
  recv_callback : U -> Z -> U * list Z;
  send_callback : U -> list Z -> U * Z;
  genmask_callback : U -> U * option (list Z) }.
Arguments recv_callback {U}.
Arguments send_callback {U}.
Arguments genmask_callback {U}.

(** ** Receiving *)
Section Recv.
Context {U : Type} (cb : frame_callbacks U).

Abbreviation RM := (CM (U * frame_in) Z).

Definition rget : RM frame_in := s ← cget; mret s.2.
Definition rmod (f : frame_in -> frame_in) : RM unit := cmod (fun s => (s.1, f s.2)).

Definition wslay_shift_ibuf (c : frame_in) : frame_in :=
  let len := c.(ibuflimit) - c.(ibufmark) in
  {| c with
     ibuf := slice c.(ibuf) c.(ibufmark) c.(ibuflimit) ++ drop (Z.to_nat len) c.(ibuf);
     ibuflimit := len; ibufmark := 0 |}.

(** A result [<= 0] of the callback becomes the early return [WSLAY_ERR_WANT_READ]. *)
Definition wslay_recv : RM unit :=
  c ← rget;
  _ ← cwhen (negb (c.(ibufmark) =? 0)) (rmod wslay_shift_ibuf);
  s ← cget;
  let '(u, c) := s in
  let '(u, l) := recv_callback cb u (IBUF_SIZE - c.(ibuflimit)) in
  _ ← cmod (fun s => (u, s.2));
  match l with
  | [] => creturn WSLAY_ERR_WANT_READ
  | _ =>
      buf ← clift (memcpy c.(ibuf) c.(ibuflimit) l);
      rmod (fun c => {| c with ibuf := buf; ibuflimit := c.(ibuflimit) + zlen l |})
  end.

Definition WSLAY_AVAIL_IBUF (c : frame_in) : Z := c.(ibuflimit) - c.(ibufmark).

(** The guard in front of each header part: one read if [ireqread] bytes are missing. *)
Definition require_bytes : RM unit :=
  c ← rget;
  _ ← cwhen (WSLAY_AVAIL_IBUF c <? c.(ireqread)) wslay_recv;
  c ← rget;
  cwhen (WSLAY_AVAIL_IBUF c <? c.(ireqread)) (creturn WSLAY_ERR_WANT_READ).

Definition recv_header1 : RM unit :=
  _ ← require_bytes;
  c ← rget;
  b0 ← clift (rd c.(ibuf) c.(ibufmark));
  b1 ← clift (rd c.(ibuf) (c.(ibufmark) + 1));
  let fin := Z.land (Z.shiftr b0 7) 1 in
  let rsv := Z.land (Z.shiftr b0 4) 7 in
  let opcode := Z.land b0 15 in
  let imask' := Z.land (Z.shiftr b1 7) 1 in
  let payloadlen := Z.land b1 127 in
  _ ← rmod (fun c => {| c with iom_opcode := opcode; iom_fin := fin; iom_rsv := rsv;
                             imask := imask'; ibufmark := c.(ibufmark) + 2 |});
  _ ← cwhen (wslay_is_ctrl_frame opcode && ((125 <? payloadlen) || (fin =? 0)))
        (creturn WSLAY_ERR_PROTO);
  if payloadlen =? 126 then
    rmod (fun c => {| c with istate := RECV_EXT_PAYLOADLEN; ireqread := 2 |})
  else if payloadlen =? 127 then
    rmod (fun c => {| c with istate := RECV_EXT_PAYLOADLEN; ireqread := 8 |})
  else
    _ ← rmod (fun c => {| c with ipayloadlen := payloadlen; ipayloadoff := 0 |});
    if negb (imask' =? 0) then
      rmod (fun c => {| c with istate := RECV_MASKKEY; ireqread := 4 |})
    else rmod (fun c => {| c with istate := RECV_PAYLOAD |}).

Definition recv_ext_payloadlen : RM unit :=
  _ ← require_bytes;
  c ← rget;
  let ext := slice c.(ibuf) c.(ibufmark) (c.(ibufmark) + c.(ireqread)) in
  (* the [ireqread] bytes are copied behind [8 - ireqread] zero bytes, then [ntoh64] *)
  let len := wslay_byteswap64 (le_load (replicate (Z.to_nat (8 - c.(ireqread))) 0 ++ ext)) in
  _ ← rmod (fun c => {| c with ipayloadlen := len; ipayloadoff := 0;
                             ibufmark := c.(ibufmark) + c.(ireqread) |});
  _ ← cwhen (if c.(ireqread) =? 8
             then (len <? 65536) || negb (Z.land len 9223372036854775808 =? 0)
             else len <? 126)
        (creturn WSLAY_ERR_PROTO);
  if negb (c.(imask) =? 0) then
    rmod (fun c => {| c with istate := RECV_MASKKEY; ireqread := 4 |})
  else rmod (fun c => {| c with istate := RECV_PAYLOAD |}).

Definition recv_maskkey : RM unit :=
  _ ← require_bytes;
  rmod (fun c => {| c with imaskkey := slice c.(ibuf) c.(ibufmark) (c.(ibufmark) + 4);
                          ibufmark := c.(ibufmark) + 4; istate := RECV_PAYLOAD |}).

(** [for ( ; ibufmark != readlimit; ++ibufmark, ++ipayloadoff) ibufmark[0] ^= imaskkey[ipayloadoff % 4]] *)
Fixpoint unmask_loop (n : nat) (key buf : list Z) (mark off : Z) : option (list Z * Z * Z) :=
  match n with
  | O => Some (buf, mark, off)
  | S n' =>
      b ← rd buf mark;
      buf' ← wr buf mark (Z.lxor b (key_at key off));
      unmask_loop n' key buf' (mark + 1) (off + 1)
  end.

(** The part of the [RECV_PAYLOAD] block behind the read: unmask and hand out what is
    buffered, at most [rempayloadlen] bytes. *)
Definition hand_out (rempayloadlen : Z) : RM iocb_in :=
  c ← rget;
  let readmark := c.(ibufmark) in
  let readlimit := if WSLAY_AVAIL_IBUF c <? rempayloadlen then c.(ibuflimit)
                   else c.(ibufmark) + rempayloadlen in
  _ ← (if negb (c.(imask) =? 0) then
         r ← clift (unmask_loop (Z.to_nat (readlimit - c.(ibufmark))) c.(imaskkey) c.(ibuf)
                      c.(ibufmark) c.(ipayloadoff));
         let '(buf, mark, off) := r in
         rmod (fun c => {| c with ibuf := buf; ibufmark := mark; ipayloadoff := off |})
       else
         rmod (fun c => {| c with ibufmark := readlimit;
                                 ipayloadoff := c.(ipayloadoff) + (readlimit - readmark) |}));
  c ← rget;
  let iocb := mkIocbIn c.(iom_fin) c.(iom_rsv) c.(iom_opcode) c.(ipayloadlen) c.(imask)
                (slice c.(ibuf) readmark c.(ibufmark)) in
  _ ← cwhen (c.(ipayloadlen) =? c.(ipayloadoff))
        (rmod (fun c => {| c with istate := RECV_HEADER1; ireqread := 2 |}));
  mret iocb.

Definition recv_payload : RM iocb_in :=
  c ← rget;
  let rempayloadlen := u64 (c.(ipayloadlen) - c.(ipayloadoff)) in
  _ ← cwhen ((WSLAY_AVAIL_IBUF c =? 0) && (0 <? rempayloadlen)) wslay_recv;
  hand_out rempayloadlen.

(** [wslay_frame_recv]: the error code is the early return, the filled [iocb] the value (the
    C function returns [iocb->data_length] then). *)
Definition wslay_frame_recv : RM iocb_in :=
  c ← rget;
  _ ← cwhen (bool_decide (c.(istate) = RECV_HEADER1)) recv_header1;
  c ← rget;
  _ ← cwhen (bool_decide (c.(istate) = RECV_EXT_PAYLOADLEN)) recv_ext_payloadlen;
  c ← rget;
  _ ← cwhen (bool_decide (c.(istate) = RECV_MASKKEY)) recv_maskkey;
  c ← rget;
  if bool_decide (c.(istate) = RECV_PAYLOAD) then recv_payload
  else creturn WSLAY_ERR_INVALID_ARGUMENT.

(** The way [wslay_event_recv] drives it: call again after [WSLAY_ERR_WANT_READ], collect the
    chunks until the frame is complete. *)
Fixpoint recv_loop (fuel : nat) (s : U * frame_in) (acc : list Z)
  : option (U * frame_in * iocb_in * list Z) :=
  match fuel with
  | O => None
  | S fuel' =>
      match wslay_frame_recv s with
      | None => None
      | Some (s', inl e) => if e =? WSLAY_ERR_WANT_READ then recv_loop fuel' s' acc else None
      | Some (s', inr io) =>
          let acc := acc ++ io.(in_data) in
          if bool_decide (s'.2.(istate) = RECV_HEADER1) then Some (s', io, acc)
          else recv_loop fuel' s' acc
      end
  end.
End Recv.

(** ** Sending *)
Section Send.
Context {U : Type} (cb : frame_callbacks U).

(** Locals of [wslay_frame_send] that survive the masking loop: environment, context,
    [iocb->data], [iocb->data_length] and [totallen]. *)
Record send_st := mkSend {
  s_env : U; s_ctx : frame_out; s_data : Z; s_data_length : Z; s_totallen : Z }.

(** The header bytes [buf[0 .. wp)] up to the masking key, or the error returned. *)
Definition prep_header (iocb : iocb_out) : Z + list Z :=
  let b0 := Z.lor (Z.lor (Z.land (u8 (Z.shiftl iocb.(out_fin) 7)) 128)
                     (Z.land (u8 (Z.shiftl iocb.(out_rsv) 4)) 112))
              (Z.land (u8 iocb.(out_opcode)) 15) in
  let b1 := Z.land (u8 (Z.shiftl iocb.(out_mask) 7)) 128 in
  let len := iocb.(out_payload_length) in
  if wslay_is_ctrl_frame iocb.(out_opcode) && (125 <? len) then inl WSLAY_ERR_INVALID_ARGUMENT
  else if len <? 126 then inr [b0; Z.lor b1 (u8 len)]
  else if len <? 65536 then inr (b0 :: Z.lor b1 126 :: be_store 2 (u16 len))
  else if len <? 9223372036854775808 then inr (b0 :: Z.lor b1 127 :: be_store 8 len)
  else inl WSLAY_ERR_INVALID_ARGUMENT.

(** The accounting after [r > 0] bytes were taken by the callback. *)
Definition account (st : send_st) (u : U) (r : Z) (masked : bool) : send_st :=
  let c := st.(s_ctx) in
  let hp := if c.(hdrtow) =? 0 then 0 else Z.min c.(hdrtow) r in
  mkSend u
    {| c with opayloadoff := c.(opayloadoff) + r;
              opayloadmaskoff := if masked then c.(opayloadmaskoff) + r - hp else c.(opayloadmaskoff);
              hdrtow := c.(hdrtow) - hp |}
    (st.(s_data) + hp) (st.(s_data_length) - hp) (st.(s_totallen) + r - hp).

(** The masked write loop over [[datamark, datalimit)] in blocks of at most 4096 bytes.
    [inl st] is [return WSLAY_ERR_WANT_WRITE]; [fuel] bounds the iterations ([None] when it
    is exhausted or memory is overrun). *)
Fixpoint mask_loop (fuel : nat) (mem : list Z) (datamark datalimit : Z) (st : send_st)
  : option (send_st + send_st) :=
  if negb (datamark <? datalimit) then Some (inr st) else
  match fuel with
  | O => None
  | S fuel' =>
      let writelen := Z.min 4096 (datalimit - datamark) in
      let c := st.(s_ctx) in
      if (datamark <? 0) || (zlen mem <? datamark + writelen) then None else
      let seg := slice mem datamark (datamark + writelen) in
      let h := Z.to_nat (Z.min writelen c.(hdrtow)) in
      let temp := take h seg ++ mask_from c.(omaskkey) c.(opayloadmaskoff) (drop h seg) in
      let '(u, r) := send_callback cb st.(s_env) temp in
      if 0 <? r then mask_loop fuel' mem (datamark + r) datalimit (account st u r true)
      else
        let st := mkSend u c st.(s_data) st.(s_data_length) st.(s_totallen) in
        if 0 <? st.(s_totallen) then Some (inr st) else Some (inl st)
  end.

(** The [SEND_PAYLOAD] part. *)
Definition send_payload (mem : list Z) (st : send_st) : option (U * frame_out * list Z * Z) :=
  r ← (if 0 <? st.(s_data_length) then
         if negb (st.(s_ctx).(omask) =? 0) then
           mask_loop (Z.to_nat st.(s_data_length)) mem st.(s_data)
             (st.(s_data) + st.(s_data_length)) st
         else
           if (st.(s_data) <? 0) || (zlen mem <? st.(s_data) + st.(s_data_length)) then None else
           let '(u, r) := send_callback cb st.(s_env)
                            (slice mem st.(s_data) (st.(s_data) + st.(s_data_length))) in
           if 0 <? r then Some (inr (account st u r false))
           else Some (inl (mkSend u st.(s_ctx) st.(s_data) st.(s_data_length) st.(s_totallen)))
       else Some (inr st));
  match r with
  | inl st => Some (st.(s_env), st.(s_ctx), mem, WSLAY_ERR_WANT_WRITE)
  | inr st =>
      let c := st.(s_ctx) in
      if negb (c.(hdrtow) =? 0) then Some (st.(s_env), c, mem, WSLAY_ERR_WANT_WRITE)
      else
        let c := if c.(opayloadoff) =? c.(opayloadlen)
                 then {| c with ostate := PREP_HEADER |} else c in
        Some (st.(s_env), c, mem, st.(s_totallen))
  end.

(** [wslay_frame_send(ctx, iocb)]: [mem] is the object [iocb->data] points into (the header
    is written in front of the payload); the last component is the returned value. *)
Definition wslay_frame_send (u : U) (c : frame_out) (mem : list Z) (iocb : iocb_out)
  : option (U * frame_out * list Z * Z) :=
  if bool_decide (c.(ostate) = PREP_HEADER) then
    match prep_header iocb with
    | inl e => Some (u, c, mem, e)
    | inr hdr =>
        let '(u, key) := if negb (iocb.(out_mask) =? 0) then genmask_callback cb u else (u, Some []) in
        match key with
        | None => Some (u, c, mem, WSLAY_ERR_INVALID_CALLBACK)
        | Some key =>
            let c := if negb (iocb.(out_mask) =? 0)
                     then {| c with omask := 1; omaskkey := key |} else c in
            let hdr := hdr ++ key in
            let n := zlen hdr in
            mem ← memcpy mem (iocb.(out_data) - n) hdr;
            let c := {| c with hdrtow := n; opayloadlen := iocb.(out_data_length) + n;
                               opayloadoff := 0; opayloadmaskoff := 0; ostate := SEND_PAYLOAD |} in
            send_payload mem (mkSend u c (iocb.(out_data) - n) (iocb.(out_data_length) + n) 0)
        end
    end
  else if bool_decide (c.(ostate) = SEND_PAYLOAD) then
    send_payload mem (mkSend u c (iocb.(out_data) - c.(hdrtow))
                        (iocb.(out_data_length) + c.(hdrtow)) 0)
  else Some (u, c, mem, WSLAY_ERR_INVALID_ARGUMENT).

(** The way [wslay_event_send] drives it for a message whose [len] payload bytes start at
    [base]: advance by the returned count, call again after [WSLAY_ERR_WANT_WRITE]. *)
Fixpoint send_loop (fuel : nat) (fin rsv opcode mask base len : Z)
    (u : U) (c : frame_out) (mem : list Z) (off : Z) : option (U * frame_out * list Z) :=
  match fuel with
  | O => None
  | S fuel' =>
      '(u, c, mem, r) ← wslay_frame_send u c mem
          (mkIocbOut fin rsv opcode len mask (base + off) (len - off));
      if 0 <=? r then
        if off + r =? len then Some (u, c, mem)
        else send_loop fuel' fin rsv opcode mask base len u c mem (off + r)
      else if r =? WSLAY_ERR_WANT_WRITE then
        send_loop fuel' fin rsv opcode mask base len u c mem off
      else None
  end.
End Send.
Arguments mkSend {U}.
Arguments s_env {U}.
Arguments s_ctx {U}.
Arguments s_data {U}.
Arguments s_data_length {U}.
Arguments s_totallen {U}.

(** ** Reference: the frame format of RFC 6455, section 5.2 *)

Record ws_frame := mkFrame {
  f_fin : Z; f_rsv : Z; f_opcode : Z; f_mask : option (list Z); f_payload : list Z }.

Definition frame_ok (f : ws_frame) : Prop :=
  (f.(f_fin) = 0 \/ f.(f_fin) = 1) /\ 0 <= f.(f_rsv) < 8 /\ 0 <= f.(f_opcode) < 16 /\
  match f.(f_mask) with None => True | Some k => bytes_ok k /\ length k = 4%nat end /\
  bytes_ok f.(f_payload) /\ zlen f.(f_payload) < 2 ^ 63 /\
  (8 <= f.(f_opcode) -> zlen f.(f_payload) <= 125).

Definition mask_bit (f : ws_frame) : Z := match f.(f_mask) with None => 0 | Some _ => 1 end.
Definition mask_key (f : ws_frame) : list Z := default [] f.(f_mask).

Definition length_field (m len : Z) : list Z :=
  if len <? 126 then [m * 128 + len]
  else if len <? 65536 then (m * 128 + 126) :: be_store 2 len
  else (m * 128 + 127) :: be_store 8 len.

Definition masked_payload (f : ws_frame) : list Z :=
  match f.(f_mask) with None => f.(f_payload) | Some k => mask_from k 0 f.(f_payload) end.

Definition encode_header (f : ws_frame) : list Z :=
  (f.(f_fin) * 128 + f.(f_rsv) * 16 + f.(f_opcode))
    :: length_field (mask_bit f) (zlen f.(f_payload)) ++ mask_key f.

Definition encode (f : ws_frame) : list Z := encode_header f ++ masked_payload f.

(** ** Masking *)

Lemma mask_from_length key off l : length (mask_from key off l) = length l.
Proof. revert off. induction l; intros; simpl; auto. Qed.

Lemma mask_from_zlen key off l : zlen (mask_from key off l) = zlen l.
Proof. unfold zlen. by rewrite mask_from_length. Qed.

Lemma mask_from_app key off l k :
  mask_from key off (l ++ k) = mask_from key off l ++ mask_from key (off + zlen l) k.
Proof.
  revert off. induction l as [|b l IH]; intros off; simpl.
  - f_equal. rewrite zlen_nil. lia.
  - rewrite IH, zlen_cons. do 3 f_equal. lia.
Qed.

Lemma mask_from_involutive key off l : mask_from key off (mask_from key off l) = l.
Proof. revert off. induction l as [|b l IH]; intros; simpl; [done|]. by rewrite lxor_cancel, IH. Qed.

Lemma mask_from_drop key off l n :
  (n <= length l)%nat ->
  drop n (mask_from key off l) = mask_from key (off + Z.of_nat n) (drop n l).
Proof.
  intros Hn. rewrite <- (take_drop n l) at 1. rewrite mask_from_app.
  rewrite drop_app_length' by (rewrite mask_from_length, length_take; lia).
  do 2 f_equal. unfold zlen. rewrite length_take. lia.
Qed.

Lemma mask_from_take key off l n : take n (mask_from key off l) = mask_from key off (take n l).
Proof.
  revert off n. induction l as [|b l IH]; intros off [|n]; simpl; f_equal; auto.
Qed.

Lemma key_at_ok key off : bytes_ok key -> byte_ok (key_at key off).
Proof.
  intros Hk. unfold key_at. generalize (Z.to_nat (off mod 4)). intros n.
  revert n. induction Hk as [|b key Hb Hk IH]; intros [|n]; simpl; try (split; lia); auto.
Qed.

Lemma mask_from_ok key off l : bytes_ok key -> bytes_ok l -> bytes_ok (mask_from key off l).
Proof.
  intros Hk Hl. revert off. induction Hl; intros off; simpl; constructor;
    eauto using lxor_byte, key_at_ok.
Qed.

Lemma unmask_loop_spec key seg pre post off :
  unmask_loop (length seg) key (pre ++ seg ++ post) (zlen pre) off =
  Some (pre ++ mask_from key off seg ++ post, zlen pre + zlen seg, off + zlen seg).
Proof.
  revert pre off. induction seg as [|b seg IH]; intros pre off; simpl.
  - rewrite zlen_nil. f_equal. f_equal; [f_equal|]; lia.
  - rewrite rd_app_r by lia. replace (zlen pre - zlen pre) with 0 by lia.
    rewrite rd_0_cons. simpl. unfold wr.
    assert ((zlen pre <? 0) = false) as -> by (apply Z.ltb_ge; apply zlen_nonneg).
    assert ((zlen (pre ++ b :: seg ++ post) <=? zlen pre) = false) as ->.
    { apply Z.leb_gt. rewrite zlen_app, zlen_cons. pose proof (zlen_nonneg (seg ++ post)). lia. }
    simpl. unfold zlen at 1. rewrite Nat2Z.id, insert_app_r_alt, Nat.sub_diag by lia. simpl.
    specialize (IH (pre ++ [Z.lxor b (key_at key off)]) (off + 1)).
    rewrite <- !app_assoc in IH. simpl in IH. rewrite zlen_app in IH. simpl in IH.
    change (zlen [Z.lxor b (key_at key off)]) with 1 in IH. rewrite IH, zlen_cons.
    f_equal. f_equal; [f_equal|]; lia.
Qed.

(** ** Byte order *)

Lemma be_store_length n x : length (be_store n x) = n.
Proof. revert x. induction n; intros x; simpl; [done|]. rewrite length_app, IHn. simpl. lia. Qed.

Lemma be_store_ok n x : bytes_ok (be_store n x).
Proof.
  revert x. induction n; intros x; simpl; [constructor|].
  apply Forall_app. split; [done|]. constructor; [|constructor].
  unfold byte_ok. apply Z.mod_pos_bound. lia.
Qed.

Lemma be_load_app l k acc : be_load (l ++ k) acc = be_load k (be_load l acc).
Proof. revert acc. induction l; intros; simpl; auto. Qed.

Lemma be_load_store n x acc :
  0 <= x < 256 ^ Z.of_nat n -> be_load (be_store n x) acc = acc * 256 ^ Z.of_nat n + x.
Proof.
  revert x acc. induction n as [|n IH]; intros x acc; simpl be_store.
  - simpl. intros. lia.
  - rewrite Nat2Z.inj_succ, Z.pow_succ_r by lia. intros Hx.
    rewrite be_load_app, IH.
    + simpl. pose proof (Z.div_mod x 256). lia.
    + split; [apply Z.div_pos; lia|]. apply Z.div_lt_upper_bound; lia.
Qed.

Lemma be_load_zeros n l : be_load (replicate n 0 ++ l) 0 = be_load l 0.
Proof. induction n; simpl; [done|]. done. Qed.

Lemma le_load_bounds l : bytes_ok l -> 0 <= le_load l < 256 ^ zlen l.
Proof.
  induction 1 as [|b l Hb Hl IH]; simpl; [change (0 <= 0 < 1); lia|].
  rewrite zlen_cons, Z.pow_add_r by (try lia; apply zlen_nonneg).
  rewrite Z.lor_comm, lor_shiftl_add by (unfold byte_ok in Hb; lia).
  change (2 ^ 8) with 256. change (256 ^ 1) with 256. unfold byte_ok in Hb. nia.
Qed.

Lemma le_load_cons b l : byte_ok b -> bytes_ok l -> le_load (b :: l) = b + 256 * le_load l.
Proof.
  intros Hb Hl. simpl. rewrite Z.lor_comm, lor_shiftl_add by (unfold byte_ok in Hb; lia).
  change (2 ^ 8) with 256. lia.
Qed.

Lemma ntohl_eq a b c d :
  byte_ok a -> byte_ok b -> byte_ok c -> byte_ok d ->
  ntohl (a + 256 * (b + 256 * (c + 256 * d))) = ((a * 256 + b) * 256 + c) * 256 + d.
Proof.
  intros Ha Hb Hc Hd. unfold byte_ok in *. unfold ntohl.
  change 255 with (Z.ones 8). rewrite !Z.land_ones, !Z.shiftr_div_pow2 by lia.
  set (x := a + 256 * (b + 256 * (c + 256 * d))).
  assert (x mod 2 ^ 8 = a) as ->.
  { unfold x. rewrite Z.mul_comm, Z.mod_add by lia. apply Z.mod_small. lia. }
  assert (x / 2 ^ 8 = b + 256 * (c + 256 * d)) as E1.
  { unfold x. rewrite Z.mul_comm, Z.div_add, Z.div_small by lia. lia. }
  assert (x / 2 ^ 16 = c + 256 * d) as E2.
  { change (2 ^ 16) with (2 ^ 8 * 256). rewrite <- Z.div_div, E1 by lia.
    rewrite Z.mul_comm, Z.div_add, Z.div_small by lia. lia. }
  assert (x / 2 ^ 24 = d) as E3.
  { change (2 ^ 24) with (2 ^ 16 * 256). rewrite <- Z.div_div, E2 by lia.
    rewrite Z.mul_comm, Z.div_add, Z.div_small by lia. lia. }
  rewrite E1, E2, E3.
  assert ((b + 256 * (c + 256 * d)) mod 2 ^ 8 = b) as ->
    by (rewrite Z.mul_comm, Z.mod_add, Z.mod_small by lia; lia).
  assert ((c + 256 * d) mod 2 ^ 8 = c) as ->
    by (rewrite Z.mul_comm, Z.mod_add, Z.mod_small by lia; lia).
  rewrite (Z.mod_small d) by lia.
  rewrite (lor_shiftl_add c d 8) by lia.
  rewrite (lor_shiftl_add b (c * 2 ^ 8 + d) 16) by lia.
  rewrite (lor_shiftl_add a (b * 2 ^ 16 + (c * 2 ^ 8 + d)) 24) by lia. lia.
Qed.

Lemma byteswap_be l : bytes_ok l -> length l = 8%nat -> wslay_byteswap64 (le_load l) = be_load l 0.
Proof.
  intros Hl Hn.
  destruct l as [|a [|b [|c [|d [|e [|f [|g [|h [|? ?]]]]]]]]]; try done. clear Hn.
  repeat match goal with H : Forall _ (_ :: _) |- _ => apply Forall_cons in H as [? H] end.
  rewrite !le_load_cons by bytes_tac. change (le_load []) with 0.
  unfold wslay_byteswap64, uwrap. change 4294967295 with (Z.ones 32).
  rewrite Z.land_ones, Z.shiftr_div_pow2 by lia.
  set (lo := a + 256 * (b + 256 * (c + 256 * d))).
  set (hi := e + 256 * (f + 256 * (g + 256 * h))).
  assert (a + 256 * (b + 256 * (c + 256 * (d + 256 * (e + 256 * (f + 256 * (g + 256 * (h + 256 * 0)))))))
          = lo + hi * 2 ^ 32) as -> by (unfold lo, hi; lia).
  assert (0 <= lo < 2 ^ 32) by (unfold lo, byte_ok in *; lia).
  assert (0 <= hi < 2 ^ 32) by (unfold hi, byte_ok in *; lia).
  rewrite Z.mod_add, Z.div_add, (Z.mod_small lo), (Z.div_small lo), Z.add_0_l by lia.
  rewrite (Z.mod_small hi) by lia. unfold lo, hi. rewrite !ntohl_eq by done.
  unfold byte_ok in *. rewrite lor_shiftl_add by lia. simpl be_load. lia.
Qed.

(** ** Receiving: correctness for every fragmentation of the stream *)

Section RecvProof.
Context {U : Type} (cb : frame_callbacks U).

(** The transport: [pending u] are the bytes of the stream not delivered yet; [budget u]
    bounds the number of further calls (deliveries and would-block results) until it is
    drained.  These are what a stream socket promises. *)
Context (pending : U -> list Z) (budget : U -> nat).
Hypothesis recv_delivers : forall u n u' l,
  recv_callback cb u n = (u', l) -> 0 < n -> pending u = l ++ pending u' /\ zlen l <= n.
Hypothesis recv_fair : forall u n u' l,
  recv_callback cb u n = (u', l) -> 0 < n -> pending u <> [] -> (budget u' < budget u)%nat.

Definition in_ok (c : frame_in) : Prop :=
  zlen c.(ibuf) = IBUF_SIZE /\ 0 <= c.(ibufmark) <= c.(ibuflimit) /\ c.(ibuflimit) <= IBUF_SIZE.

Definition unread (c : frame_in) : list Z := slice c.(ibuf) c.(ibufmark) c.(ibuflimit).
Definition todo (s : U * frame_in) : list Z := unread s.2 ++ pending s.1.

Lemma unread_len c : in_ok c -> zlen (unread c) = WSLAY_AVAIL_IBUF c.
Proof. intros (? & ? & ?). unfold unread, WSLAY_AVAIL_IBUF. apply slice_length; lia. Qed.

(** [c'] is [c] up to the position and contents of the input buffer. *)
Definition same_but_buf (c c' : frame_in) : Prop :=
  c' = {| c with ibuf := c'.(ibuf); ibufmark := c'.(ibufmark); ibuflimit := c'.(ibuflimit) |}.

Lemma shift_ibuf_ok c :
  in_ok c -> in_ok (wslay_shift_ibuf c) /\ unread (wslay_shift_ibuf c) = unread c /\
  same_but_buf c (wslay_shift_ibuf c) /\ ibufmark (wslay_shift_ibuf c) = 0.
Proof.
  intros Hok. pose proof (unread_len c Hok) as Hlen. destruct Hok as (Hb & Hm & Hl).
  unfold wslay_shift_ibuf. fold (unread c). split_and!; [|..|done|done].
  - unfold in_ok. simpl. rewrite zlen_app, Hlen. unfold WSLAY_AVAIL_IBUF, zlen in *.
    rewrite length_drop. unfold IBUF_SIZE in *. lia.
  - unfold unread at 1. simpl. unfold slice at 1. rewrite drop_0, take_app_length'; [done|].
    unfold WSLAY_AVAIL_IBUF, zlen in *. lia.
Qed.

Lemma recv_append_ok c l buf :
  in_ok c -> zlen l <= IBUF_SIZE - c.(ibuflimit) -> memcpy c.(ibuf) c.(ibuflimit) l = Some buf ->
  forall c', c' = {| c with ibuf := buf; ibuflimit := c.(ibuflimit) + zlen l |} ->
  in_ok c' /\ unread c' = unread c ++ l /\ same_but_buf c c'.
Proof.
  intros Hok Hl. unfold memcpy. destruct (_ || _); [done|]. intros Hbuf c' ->.
  injection Hbuf as <-.
  destruct Hok as (Hb & Hm & Hlim). pose proof (zlen_nonneg l).
  destruct (slice_split c.(ibuf) c.(ibufmark) c.(ibuflimit)) as (pre & post & E & Hpre & Hpost);
    [lia|unfold IBUF_SIZE in *; lia|]. fold (unread c) in E.
  assert (zlen (unread c) = c.(ibuflimit) - c.(ibufmark)) as Hu
    by (unfold unread; apply slice_length; lia).
  assert (take (Z.to_nat c.(ibuflimit)) c.(ibuf) = pre ++ unread c) as Et.
  { rewrite E, app_assoc at 1. apply take_app_length'. rewrite length_app. unfold zlen in *. lia. }
  assert (drop (Z.to_nat (c.(ibuflimit) + zlen l)) c.(ibuf) = drop (length l) post) as Ed.
  { rewrite E, app_assoc at 1. rewrite drop_app_ge by (rewrite length_app; unfold zlen in *; lia).
    f_equal. rewrite length_app. unfold zlen in *. lia. }
  split_and!; [| |done].
  - unfold in_ok. simpl. rewrite Et, Ed. unfold zlen, IBUF_SIZE in *.
    rewrite !length_app, length_drop. lia.
  - unfold unread at 1. simpl. rewrite Et, Ed.
    rewrite <- app_assoc, (app_assoc (unread c)). apply slice_app'; [lia|]. rewrite zlen_app. lia.
Qed.

(** One read: either nothing arrived and the early return is taken, or at least one byte was
    appended; the stream to parse is the same. *)
Lemma wslay_recv_spec u c :
  in_ok c -> WSLAY_AVAIL_IBUF c < IBUF_SIZE -> pending u <> [] ->
  cwp (wslay_recv cb) (u, c) (fun s' r =>
    in_ok s'.2 /\ same_but_buf c s'.2 /\ todo s' = todo (u, c) /\ (budget s'.1 < budget u)%nat /\
    match r with
    | inl e => e = WSLAY_ERR_WANT_READ
    | inr _ => WSLAY_AVAIL_IBUF c < WSLAY_AVAIL_IBUF s'.2
    end).
Proof.
  intros Hok Hav Hpend. unfold wslay_recv.
  apply cwp_bind, cwp_bind, cwp_get, cwp_ret. simpl.
  assert (forall c1, in_ok c1 -> unread c1 = unread c -> same_but_buf c c1 -> ibufmark c1 = 0 ->
    cwp (s ← cget;
         let '(u, c) := s in
         let '(u, l) := recv_callback cb u (IBUF_SIZE - c.(ibuflimit)) in
         _ ← cmod (fun s => (u, s.2));
         match l with
         | [] => creturn WSLAY_ERR_WANT_READ
         | _ =>
             buf ← clift (memcpy c.(ibuf) c.(ibuflimit) l);
             rmod (fun c => {| c with ibuf := buf; ibuflimit := c.(ibuflimit) + zlen l |})
         end) (u, c1) (fun s' r =>
      in_ok s'.2 /\ same_but_buf c s'.2 /\ todo s' = todo (u, c) /\ (budget s'.1 < budget u)%nat /\
      match r with
      | inl e => e = WSLAY_ERR_WANT_READ
      | inr _ => WSLAY_AVAIL_IBUF c < WSLAY_AVAIL_IBUF s'.2
      end)) as Hrest.
  { intros c1 Hok1 Hun Hsame Hm1. apply cwp_bind, cwp_get. simpl.
    pose proof (unread_len c Hok) as Hlc. pose proof (unread_len c1 Hok1) as Hlc1.
    rewrite Hun, Hlc in Hlc1. assert (0 < IBUF_SIZE - ibuflimit c1) as Hroom
      by (unfold WSLAY_AVAIL_IBUF in *; lia).
    destruct (recv_callback cb u (IBUF_SIZE - ibuflimit c1)) as [u' l] eqn:E.
    destruct (recv_delivers _ _ _ _ E Hroom) as [Hp Hl]. pose proof (recv_fair _ _ _ _ E Hroom Hpend) as Hb.
    apply cwp_bind, cwp_mod. simpl.
    destruct l as [|b l].
    - apply cwp_return. simpl. split_and!; try done. unfold todo. simpl. by rewrite Hun, Hp.
    - assert (exists buf, memcpy (ibuf c1) (ibuflimit c1) (b :: l) = Some buf) as [buf Hbuf].
      { destruct Hok1 as (? & ? & ?). apply memcpy_fits; lia. }
      apply cwp_bind. eapply cwp_lift; [done|]. apply cwp_mod. simpl.
      destruct (recv_append_ok c1 (b :: l) buf Hok1 Hl Hbuf _ eq_refl) as (Hok2 & Hun2 & Hs2).
      split_and!; [done| | |done|].
      + unfold same_but_buf in *. rewrite Hsame. done.
      + unfold todo. simpl. rewrite Hun2, Hun, Hp. by rewrite <- app_assoc.
      + pose proof (unread_len _ Hok2) as Hl2. rewrite Hun2, zlen_app, zlen_cons, Hun in Hl2.
        pose proof (zlen_nonneg l). unfold WSLAY_AVAIL_IBUF in *.
        cbn [ibuflimit ibufmark] in *. rewrite zlen_cons. lia. }
  apply cwp_bind, cwp_when.
  - intros _. apply cwp_mod. simpl. destruct (shift_ibuf_ok c Hok) as (? & ? & ? & ?). by apply Hrest.
  - intros E%negb_false_iff%Z.eqb_eq. apply Hrest; try done. by destruct c.
Qed.

(** Consuming a prefix of the unread bytes. *)
Lemma unread_prefix c hd tl :
  in_ok c -> unread c = hd ++ tl ->
  slice c.(ibuf) c.(ibufmark) (c.(ibufmark) + zlen hd) = hd /\
  (forall c', c'.(ibuf) = c.(ibuf) -> c'.(ibuflimit) = c.(ibuflimit) ->
     c'.(ibufmark) = c.(ibufmark) + zlen hd -> in_ok c' /\ unread c' = tl).
Proof.
  intros Hok Hu. pose proof (unread_len c Hok) as Hlen. rewrite Hu, zlen_app in Hlen.
  pose proof (zlen_nonneg hd). pose proof (zlen_nonneg tl). unfold WSLAY_AVAIL_IBUF in Hlen.
  destruct Hok as (Hb & Hm & Hl).
  destruct (slice_split c.(ibuf) c.(ibufmark) c.(ibuflimit)) as (pre & post & E & Hpre & Hpost);
    [lia|unfold IBUF_SIZE in *; lia|]. fold (unread c) in E. rewrite Hu in E. split.
  - rewrite E. rewrite <- (app_assoc hd). apply slice_app'; lia.
  - intros c' E1 E2 E3. split; [unfold in_ok; rewrite E1, E2, E3; lia|].
    unfold unread. rewrite E1, E2, E3, E, <- (app_assoc hd), app_assoc.
    apply slice_app'; rewrite zlen_app; lia.
Qed.

Lemma todo_prefix u c hd tl :
  in_ok c -> todo (u, c) = hd ++ tl -> zlen hd <= WSLAY_AVAIL_IBUF c ->
  exists r, unread c = hd ++ r /\ tl = r ++ pending u.
Proof.
  unfold todo. simpl. intros Hok E Hl. rewrite <- (unread_len c Hok) in Hl.
  exists (drop (length hd) (unread c)). unfold zlen in Hl.
  assert (take (length hd) (unread c) = hd) as Et.
  { rewrite <- (take_app_le (unread c) (pending u)) by lia. rewrite E. apply take_app_length. }
  split.
  - rewrite <- Et at 1. by rewrite take_drop.
  - rewrite <- drop_app_le by lia. rewrite E. by rewrite drop_app_length.
Qed.

Lemma todo_pending u c n :
  in_ok c -> n <= zlen (todo (u, c)) -> WSLAY_AVAIL_IBUF c < n -> pending u <> [].
Proof.
  unfold todo. simpl. intros Hok Hn Ha Ep.
  rewrite Ep, app_nil_r, (unread_len c Hok) in Hn. lia.
Qed.

Lemma require_bytes_spec u c :
  in_ok c -> 0 < ireqread c <= IBUF_SIZE -> ireqread c <= zlen (todo (u, c)) ->
  cwp (require_bytes cb) (u, c) (fun s' r =>
    in_ok s'.2 /\ same_but_buf c s'.2 /\ todo s' = todo (u, c) /\
    match r with
    | inl e => e = WSLAY_ERR_WANT_READ /\ (budget s'.1 < budget u)%nat
    | inr _ => ireqread c <= WSLAY_AVAIL_IBUF s'.2 /\ (budget s'.1 <= budget u)%nat
    end).
Proof.
  intros Hok Hreq Htodo. unfold require_bytes.
  apply cwp_bind, cwp_bind, cwp_get, cwp_ret. simpl. apply cwp_bind, cwp_when.
  - intros Hlt%Z.ltb_lt.
    eapply cwp_mono; [apply wslay_recv_spec; [done|lia|by eapply todo_pending]|].
    intros [u' c'] [e|[]] (Hok' & Hs & Ht & Hb & Hr); simpl in *; [by split_and!|].
    apply cwp_bind, cwp_bind, cwp_get, cwp_ret. simpl.
    assert (ireqread c' = ireqread c) as Er by (rewrite Hs; done). rewrite Er. apply cwp_when.
    + intros _. apply cwp_return. simpl. by split_and!.
    + intros Hge%Z.ltb_ge. simpl. split_and!; try done. lia.
  - intros Hge%Z.ltb_ge. apply cwp_bind, cwp_bind, cwp_get, cwp_ret. simpl.
    apply cwp_when; [intros Hlt%Z.ltb_lt; lia|].
    intros _. simpl. split_and!; first [done|lia|by destruct c].
Qed.

(** The bits of the two fixed header bytes. *)
Lemma header_b0 fin rsv op :
  (fin = 0 \/ fin = 1) -> 0 <= rsv < 8 -> 0 <= op < 16 ->
  let b := fin * 128 + rsv * 16 + op in
  Z.land (Z.shiftr b 7) 1 = fin /\ Z.land (Z.shiftr b 4) 7 = rsv /\ Z.land b 15 = op.
Proof.
  intros Hf Hr Ho b. unfold b. change 1 with (Z.ones 1). change 7 with (Z.ones 3) at 2.
  change 15 with (Z.ones 4). rewrite !Z.land_ones, !Z.shiftr_div_pow2 by lia.
  change (2 ^ 7) with 128. change (2 ^ 4) with 16. change (2 ^ 1) with 2. change (2 ^ 3) with 8.
  split_and!; Z.to_euclidean_division_equations; lia.
Qed.

Lemma header_b1 m len :
  (m = 0 \/ m = 1) -> 0 <= len < 128 ->
  Z.land (Z.shiftr (m * 128 + len) 7) 1 = m /\ Z.land (m * 128 + len) 127 = len.
Proof.
  intros Hm Hl. change 1 with (Z.ones 1) at 1. change 127 with (Z.ones 7).
  rewrite !Z.land_ones, !Z.shiftr_div_pow2 by lia.
  change (2 ^ 7) with 128. change (2 ^ 1) with 2.
  split_and!; Z.to_euclidean_division_equations; lia.
Qed.

(** ** Where the receiver is inside of a frame *)

(** A frame a peer may send: control frames are not fragmented. *)
Definition recv_ok (f : ws_frame) : Prop := frame_ok f /\ (8 <= f.(f_opcode) -> f.(f_fin) = 1).

Definition fields_ok (f : ws_frame) (c : frame_in) : Prop :=
  c.(iom_fin) = f.(f_fin) /\ c.(iom_rsv) = f.(f_rsv) /\ c.(iom_opcode) = f.(f_opcode) /\
  c.(imask) = mask_bit f.

Definition flen (f : ws_frame) : Z := zlen f.(f_payload).

(** [rpos f rest off c s]: the receiver is inside of frame [f], [off] payload bytes were
    handed out, and [s] is the rest of the stream, [rest] being what follows the frame. *)
Definition rpos (f : ws_frame) (rest : list Z) (off : Z) (c : frame_in) (s : list Z) : Prop :=
  match c.(istate) with
  | RECV_HEADER1 => off = 0 /\ c.(ireqread) = 2 /\ s = encode f ++ rest
  | RECV_EXT_PAYLOADLEN =>
      off = 0 /\ fields_ok f c /\ 126 <= flen f /\
      c.(ireqread) = (if flen f <? 65536 then 2 else 8) /\
      s = be_store (Z.to_nat c.(ireqread)) (flen f) ++ mask_key f ++ masked_payload f ++ rest
  | RECV_MASKKEY =>
      off = 0 /\ fields_ok f c /\ is_Some f.(f_mask) /\ c.(ipayloadlen) = flen f /\
      c.(ipayloadoff) = 0 /\ c.(ireqread) = 4 /\ s = mask_key f ++ masked_payload f ++ rest
  | RECV_PAYLOAD =>
      fields_ok f c /\ 0 <= off <= flen f /\ c.(ipayloadlen) = flen f /\ c.(ipayloadoff) = off /\
      (is_Some f.(f_mask) -> c.(imaskkey) = mask_key f) /\
      s = drop (Z.to_nat off) (masked_payload f) ++ rest
  | _ => False
  end.

(** The receiver is between two frames. *)
Definition at_frame_start (c : frame_in) : Prop := c.(istate) = RECV_HEADER1 /\ c.(ireqread) = 2.

Lemma mask_bit_cases f : mask_bit f = 0 /\ f.(f_mask) = None \/ mask_bit f = 1 /\ is_Some f.(f_mask).
Proof. unfold mask_bit. destruct f.(f_mask); eauto. Qed.

Lemma ctrl_opcode op : 0 <= op < 16 -> wslay_is_ctrl_frame op = (8 <=? op).
Proof.
  intros H. unfold wslay_is_ctrl_frame. change 1 with (Z.ones 1).
  rewrite Z.land_ones, Z.shiftr_div_pow2 by lia. change (2 ^ 3) with 8. change (2 ^ 1) with 2.
  destruct (Z.leb_spec 8 op), (Z.eqb_spec ((op / 8) mod 2) 0); simpl; try done;
    exfalso; Z.to_euclidean_division_equations; lia.
Qed.

Lemma rpos_same f rest off c c' s :
  same_but_buf c c' -> rpos f rest off c s -> rpos f rest off c' s.
Proof. intros ->. done. Qed.

Lemma masked_payload_zlen f : zlen (masked_payload f) = flen f.
Proof. unfold masked_payload, flen. destruct (f_mask f); [apply mask_from_zlen|done]. Qed.

(** The two fixed bytes and what the length field continues with. *)
Lemma length_field_split m len :
  exists b1 ext, length_field m len = b1 :: ext /\
    b1 = m * 128 + (if len <? 126 then len else if len <? 65536 then 126 else 127) /\
    ext = (if len <? 126 then [] else be_store (if len <? 65536 then 2 else 8) len).
Proof.
  unfold length_field. destruct (len <? 126); [eauto|]. destruct (len <? 65536); eauto.
Qed.

(** What a header stage guarantees: it is suspended inside of the same frame (and the
    transport has made progress), or it has advanced to a later stage. *)
Definition stage_post (f : ws_frame) (rest : list Z) (u : U) (later : wslay_frame_state -> Prop)
    (s' : U * frame_in) (r : Z + unit) : Prop :=
  in_ok s'.2 /\ rpos f rest 0 s'.2 (todo s') /\
  match r with
  | inl e => e = WSLAY_ERR_WANT_READ /\ (budget s'.1 < budget u)%nat
  | inr _ => later s'.2.(istate) /\ (budget s'.1 <= budget u)%nat
  end.

Lemma next_stage f rest u u' c c' :
  recv_ok f -> in_ok c -> (budget u' <= budget u)%nat ->
  fields_ok f c -> c.(ipayloadlen) = flen f -> c.(ipayloadoff) = 0 ->
  todo (u', c) = mask_key f ++ masked_payload f ++ rest ->
  c' = (if negb (mask_bit f =? 0)
        then {| c with istate := RECV_MASKKEY; ireqread := 4 |}
        else {| c with istate := RECV_PAYLOAD |}) ->
  stage_post f rest u (fun st => st = RECV_MASKKEY \/ st = RECV_PAYLOAD) (u', c') (inr tt).
Proof.
  intros Hf Hok Hb Hfld Hpl Hpo Ht ->. unfold stage_post. simpl.
  destruct (mask_bit_cases f) as [[-> Hm]|[-> Hm]]; simpl; (split; [exact Hok|]); split; auto.
  - unfold rpos. simpl. split_and!; try done; try lia.
    + unfold flen. pose proof (zlen_nonneg (f_payload f)). lia.
    + rewrite Hm. by intros [? ?].
    + change (todo (u', c) = drop 0 (masked_payload f) ++ rest).
      rewrite drop_0, Ht. unfold mask_key. by rewrite Hm.
  - unfold rpos. simpl. by split_and!.
Qed.

Lemma unread_two c b0 b1 r :
  in_ok c -> unread c = [b0; b1] ++ r ->
  rd (ibuf c) (ibufmark c) = Some b0 /\ rd (ibuf c) (ibufmark c + 1) = Some b1.
Proof.
  intros Hok Hu. destruct (unread_prefix c [b0; b1] r Hok Hu) as [Hsl _].
  destruct Hok as (Hlen & Hm & Hlim). unfold slice in Hsl. change (zlen [b0; b1]) with 2 in Hsl.
  replace (Z.to_nat (ibufmark c + 2 - ibufmark c)) with 2%nat in Hsl by lia.
  unfold rd. destruct (Z.ltb_spec (ibufmark c) 0); [lia|].
  destruct (Z.ltb_spec (ibufmark c + 1) 0); [lia|].
  replace (Z.to_nat (ibufmark c + 1)) with (Z.to_nat (ibufmark c) + 1)%nat by lia.
  rewrite <- (Nat.add_0_r (Z.to_nat (ibufmark c))) at 1. rewrite <- !lookup_drop.
  destruct (drop (Z.to_nat (ibufmark c)) (ibuf c)) as [|x [|y d]]; simplify_eq/=. done.
Qed.

(** The stream of a frame, split after the two fixed bytes. *)
Lemma encode_split f rest :
  exists b1 ext, encode f ++ rest =
      [f_fin f * 128 + f_rsv f * 16 + f_opcode f; b1] ++ (ext ++ mask_key f ++ masked_payload f ++ rest) /\
    b1 = mask_bit f * 128 + (if flen f <? 126 then flen f else if flen f <? 65536 then 126 else 127) /\
    ext = (if flen f <? 126 then [] else be_store (if flen f <? 65536 then 2 else 8) (flen f)).
Proof.
  destruct (length_field_split (mask_bit f) (flen f)) as (b1 & ext & Elf & Eb1 & Eext).
  exists b1, ext. split_and!; [|done..].
  unfold encode, encode_header. fold (flen f). rewrite Elf. simpl. by rewrite <- !app_assoc.
Qed.

Lemma recv_header1_spec f rest u c :
  recv_ok f -> in_ok c -> c.(istate) = RECV_HEADER1 -> rpos f rest 0 c (todo (u, c)) ->
  cwp (recv_header1 cb) (u, c)
    (stage_post f rest u (fun st => st = RECV_EXT_PAYLOADLEN \/ st = RECV_MASKKEY \/ st = RECV_PAYLOAD)).
Proof.
  intros Hf Hok Hst Hr. pose proof Hr as Hr'. unfold rpos in Hr'. rewrite Hst in Hr'.
  destruct Hr' as (_ & Hreq & Htodo). destruct Hf as [Hfok Hctl]. pose proof Hfok as Hfok'.
  destruct Hfok' as (Hfin & Hrsv & Hop & Hkey & Hpay & Hplen & Hc125).
  fold (flen f) in Hplen, Hc125. assert (0 <= flen f) as Hnn by apply zlen_nonneg.
  destruct (encode_split f rest) as (b1 & ext & Htodo' & Eb1 & Eext). rewrite <- Htodo in Htodo'.
  unfold recv_header1. apply cwp_bind.
  eapply cwp_mono; [apply require_bytes_spec; [done| |]|].
  { rewrite Hreq. unfold IBUF_SIZE. lia. }
  { rewrite Hreq, Htodo', zlen_app. change (zlen [_; _]) with 2.
    pose proof (zlen_nonneg (ext ++ mask_key f ++ masked_payload f ++ rest)). lia. }
  intros [u1 c1] [e|[]] (Hok1 & Hs1 & Ht1 & Hr1); simpl in Hok1, Hs1, Ht1, Hr1.
  { destruct Hr1 as [-> ?]. split_and!; [done| |done|done]. rewrite Ht1. by eapply rpos_same. }
  destruct Hr1 as [Hav Hbud]. rewrite Hreq in Hav.
  apply cwp_bind, cwp_bind, cwp_get, cwp_ret. simpl.
  rewrite Htodo' in Ht1.
  destruct (todo_prefix u1 c1 _ _ Hok1 Ht1 Hav) as (r & Hu1 & Hrest).
  set (b0 := f_fin f * 128 + f_rsv f * 16 + f_opcode f) in *.
  destruct (unread_prefix c1 [b0; b1] r Hok1 Hu1) as [Hsl Hadv]. change (zlen [b0; b1]) with 2 in *.
  destruct (unread_two c1 b0 b1 r Hok1 Hu1) as [Hrd0 Hrd1].
  apply cwp_bind. eapply cwp_lift; [exact Hrd0|]. apply cwp_bind. eapply cwp_lift; [exact Hrd1|].
  destruct (header_b0 (f_fin f) (f_rsv f) (f_opcode f) Hfin Hrsv Hop) as (E7 & E4 & E15).
  fold b0 in E7, E4, E15. rewrite E7, E4, E15.
  assert (mask_bit f = 0 \/ mask_bit f = 1) as Hmb by (destruct (mask_bit_cases f) as [[? _]|[? _]]; auto).
  destruct (header_b1 (mask_bit f) (if flen f <? 126 then flen f else if flen f <? 65536 then 126 else 127) Hmb)
    as (E1 & E127). { zcases; lia. }
  rewrite <- Eb1 in E1, E127. rewrite E1, E127.
  apply cwp_bind, cwp_mod. simpl. apply cwp_bind, cwp_when.
  { rewrite ctrl_opcode by done. intros [Hop8%Z.leb_le H]%andb_true_iff. exfalso.
    rewrite (Hctl Hop8) in H. specialize (Hc125 Hop8). zcases; simpl in H; lia. }
  intros _. simpl.
  match goal with |- cwp _ (u1, ?C) _ => set (c2 := C) end.
  assert (in_ok c2 /\ unread c2 = r) as [Hok2 Hu2] by (apply Hadv; done).
  assert (fields_ok f c2) as Hf2 by done.
  assert (todo (u1, c2) = ext ++ mask_key f ++ masked_payload f ++ rest) as Ht2
    by (unfold todo; simpl; rewrite Hu2; done).
  destruct (Z.ltb_spec (flen f) 126) as [Hlt|Hge].
  - rewrite (proj2 (Z.eqb_neq (flen f) 126)), (proj2 (Z.eqb_neq (flen f) 127)) by lia.
    subst ext. apply cwp_bind, cwp_mod. simpl.
    pose proof (next_stage f rest u u1 {| c2 with ipayloadlen := flen f; ipayloadoff := 0 |} _
      (conj Hfok Hctl) Hok2 Hbud Hf2 eq_refl eq_refl Ht2 eq_refl) as HN.
    destruct (negb (mask_bit f =? 0)); apply cwp_mod;
      destruct HN as (? & ? & ? & ?); split_and!; simpl in *; try done; tauto.
  - assert (forall n, (if flen f <? 65536 then 2 else 8) = n ->
      stage_post f rest u (fun st => st = RECV_EXT_PAYLOADLEN \/ st = RECV_MASKKEY \/ st = RECV_PAYLOAD)
        (u1, {| c2 with istate := RECV_EXT_PAYLOADLEN; ireqread := n |}) (inr tt)) as HE.
    { intros n En. split_and!; simpl; [done| |by left|done]. unfold rpos. simpl.
      split_and!; try done.
      match goal with |- todo _ = ?R => change (todo (u1, c2) = R) end. rewrite Ht2, Eext, <- En.
      by destruct (flen f <? 65536). }
    destruct (flen f <? 65536); simpl; apply cwp_mod; simpl; by apply HE.
Qed.

Lemma recv_ext_payloadlen_spec f rest u c :
  recv_ok f -> in_ok c -> c.(istate) = RECV_EXT_PAYLOADLEN -> rpos f rest 0 c (todo (u, c)) ->
  cwp (recv_ext_payloadlen cb) (u, c)
    (stage_post f rest u (fun st => st = RECV_MASKKEY \/ st = RECV_PAYLOAD)).
Proof.
  intros Hf Hok Hst Hr. pose proof Hr as Hr'. unfold rpos in Hr'. rewrite Hst in Hr'.
  destruct Hr' as (_ & Hfld & H126 & Hreq & Htodo).
  pose proof Hf as [(_ & _ & _ & _ & _ & Hplen & _) _]. fold (flen f) in Hplen.
  assert (0 < ireqread c <= 8) as Hrq by (rewrite Hreq; destruct (flen f <? 65536); lia).
  pose proof (be_store_length (Z.to_nat (ireqread c)) (flen f)) as Hbl.
  set (ext := be_store _ _) in *.
  assert (zlen ext = ireqread c) as Hzl by (unfold zlen; lia).
  unfold recv_ext_payloadlen. apply cwp_bind.
  eapply cwp_mono; [apply require_bytes_spec; [done| |]|].
  { unfold IBUF_SIZE. lia. }
  { rewrite Htodo, zlen_app, Hzl. pose proof (zlen_nonneg (mask_key f ++ masked_payload f ++ rest)). lia. }
  intros [u1 c1] [e|[]] (Hok1 & Hs1 & Ht1 & Hr1); simpl in Hok1, Hs1, Ht1, Hr1.
  { destruct Hr1 as [-> ?]. split_and!; [done| |done|done]. rewrite Ht1. by eapply rpos_same. }
  destruct Hr1 as [Hav Hbud]. apply cwp_bind, cwp_bind, cwp_get, cwp_ret. simpl.
  rewrite Htodo in Ht1. rewrite <- Hzl in Hav.
  destruct (todo_prefix u1 c1 _ _ Hok1 Ht1 Hav) as (r & Hu1 & Hrest).
  destruct (unread_prefix c1 ext r Hok1 Hu1) as [Hsl Hadv].
  assert (ireqread c1 = ireqread c) as Erq by (rewrite Hs1; done).
  assert (imask c1 = mask_bit f) as Em by (rewrite Hs1; apply Hfld).
  rewrite Erq, <- Hzl, Hsl, Em.
  assert (wslay_byteswap64 (le_load (replicate (Z.to_nat (8 - zlen ext)) 0 ++ ext)) = flen f) as ->.
  { rewrite byteswap_be.
    - rewrite be_load_zeros. unfold ext. rewrite be_load_store; [lia|]. split; [lia|].
      rewrite Hreq. destruct (Z.ltb_spec (flen f) 65536).
      + change (256 ^ Z.of_nat (Z.to_nat 2)) with 65536. lia.
      + change (256 ^ Z.of_nat (Z.to_nat 8)) with (2 ^ 64). lia.
    - apply Forall_app. split; [apply Forall_replicate; split; lia|apply be_store_ok].
    - rewrite length_app, length_replicate. unfold zlen in *. lia. }
  apply cwp_bind, cwp_mod. simpl. apply cwp_bind, cwp_when.
  { assert (Z.land (flen f) 9223372036854775808 = 0) as ->.
    { apply Z.bits_inj'. intros n Hn. rewrite Z.land_spec, Z.bits_0.
      change 9223372036854775808 with (2 ^ 63). rewrite Z.pow2_bits_eqb by lia.
      destruct (Z.eqb_spec 63 n) as [<-|]; [|apply andb_false_r].
      rewrite <- (Z.mod_small (flen f) (2 ^ 63)) by lia. by rewrite Z.mod_pow2_bits_high. }
    rewrite Hzl, Hreq. simpl. zcases; simpl in *; intros; try done; lia. }
  intros _. simpl.
  match goal with |- cwp _ (u1, ?C) _ => set (c2 := C) end.
  assert (in_ok c2 /\ unread c2 = r) as [Hok2 Hu2] by (apply Hadv; unfold c2; simpl; congruence).
  assert (todo (u1, c2) = mask_key f ++ masked_payload f ++ rest) as Ht2
    by (unfold todo; simpl; rewrite Hu2; done).
  assert (fields_ok f c2) as Hf2 by (unfold c2, fields_ok in *; simpl; rewrite Hs1; done).
  pose proof (next_stage f rest u u1 c2 _ Hf Hok2 Hbud Hf2 eq_refl eq_refl Ht2 eq_refl) as HN.
  destruct (negb (mask_bit f =? 0)); apply cwp_mod; exact HN.
Qed.

Lemma recv_maskkey_spec f rest u c :
  recv_ok f -> in_ok c -> c.(istate) = RECV_MASKKEY -> rpos f rest 0 c (todo (u, c)) ->
  cwp (recv_maskkey cb) (u, c) (stage_post f rest u (fun st => st = RECV_PAYLOAD)).
Proof.
  intros Hf Hok Hst Hr. pose proof Hr as Hr'. unfold rpos in Hr'. rewrite Hst in Hr'.
  destruct Hr' as (_ & Hfld & Hmask & Hpl & Hpo & Hreq & Htodo).
  pose proof Hf as [(_ & _ & _ & Hkey & _ & Hplen & _) _].
  assert (zlen (mask_key f) = 4) as Hk4.
  { unfold mask_key, zlen. destruct Hmask as [k Ek]. rewrite Ek in *. simpl. lia. }
  unfold recv_maskkey. apply cwp_bind.
  eapply cwp_mono; [apply require_bytes_spec; [done| |]|].
  { unfold IBUF_SIZE. lia. }
  { rewrite Htodo, zlen_app. pose proof (zlen_nonneg (masked_payload f ++ rest)). lia. }
  intros [u1 c1] [e|[]] (Hok1 & Hs1 & Ht1 & Hr1); simpl in Hok1, Hs1, Ht1, Hr1.
  { destruct Hr1 as [-> ?]. split_and!; [done| |done|done]. rewrite Ht1. by eapply rpos_same. }
  destruct Hr1 as [Hav Hbud]. rewrite Hreq, <- Hk4 in Hav. rewrite Htodo in Ht1.
  destruct (todo_prefix u1 c1 _ _ Hok1 Ht1 Hav) as (r & Hu1 & Hrest).
  destruct (unread_prefix c1 (mask_key f) r Hok1 Hu1) as [Hsl Hadv]. rewrite Hk4 in Hsl, Hadv.
  apply cwp_mod. simpl.
  match goal with |- stage_post _ _ _ _ (u1, ?C) _ => set (c2 := C) end.
  assert (in_ok c2 /\ unread c2 = r) as [Hok2 Hu2] by (by apply Hadv).
  split_and!; [done| |done|done]. unfold rpos. simpl.
  assert (fields_ok f c2) as Hf2 by (unfold c2, fields_ok in *; simpl; rewrite Hs1; done).
  rewrite drop_0. split_and!; try done.
  - apply zlen_nonneg.
  - rewrite Hs1. done.
  - rewrite Hs1. done.
  - unfold todo. simpl. by rewrite Hu2.
Qed.

(** The chunk of the payload between two offsets, as it travels. *)
Lemma masked_payload_chunk f off n :
  0 <= off -> 0 <= n -> off + n <= flen f ->
  let seg := take (Z.to_nat n) (drop (Z.to_nat off) (masked_payload f)) in
  zlen seg = n /\
  (if is_Some_dec (f_mask f) then mask_from (mask_key f) off seg else seg) =
    slice (f_payload f) off (off + n).
Proof.
  intros Ho Hn Hle seg. assert (zlen seg = n) as Hseg.
  { unfold seg. pose proof (masked_payload_zlen f). unfold zlen in *. rewrite length_take, length_drop. lia. }
  split; [done|]. unfold seg, slice, masked_payload, mask_key. unfold flen, zlen in Hle.
  replace (Z.to_nat (off + n - off)) with (Z.to_nat n) by lia.
  destruct (is_Some_dec (f_mask f)) as [[k Hk]|Hk]; destruct (f_mask f) as [k'|] eqn:E; simplify_eq/=; try done.
  - rewrite mask_from_drop by lia. replace (0 + Z.of_nat (Z.to_nat off)) with off by lia.
    by rewrite mask_from_take, mask_from_involutive.
  - destruct Hk. eauto.
Qed.

(** What one successful call hands out. *)
Definition chunk_post (f : ws_frame) (rest : list Z) (off : Z) (u : U) (s' : U * frame_in) (io : iocb_in) : Prop :=
  (budget s'.1 <= budget u)%nat /\
  io.(in_fin) = f.(f_fin) /\ io.(in_rsv) = f.(f_rsv) /\ io.(in_opcode) = f.(f_opcode) /\
  io.(in_payload_length) = flen f /\ io.(in_mask) = mask_bit f /\
  exists off', off <= off' <= flen f /\ io.(in_data) = slice (f_payload f) off off' /\
    (off' = flen f /\ at_frame_start s'.2 /\ todo s' = rest \/
     off < off' < flen f /\ s'.2.(istate) = RECV_PAYLOAD /\ rpos f rest off' s'.2 (todo s')).

(** The state after [n] buffered payload bytes were unmasked in place and passed over. *)
Lemma hand_out_advance f u c off n tl :
  in_ok c -> fields_ok f c -> 0 <= off -> 0 <= n -> off + n <= flen f -> c.(ipayloadoff) = off ->
  (is_Some f.(f_mask) -> c.(imaskkey) = mask_key f) ->
  unread c = take (Z.to_nat n) (drop (Z.to_nat off) (masked_payload f)) ++ tl ->
  cwp (if negb (c.(imask) =? 0) then
         r ← clift (unmask_loop (Z.to_nat n) c.(imaskkey) c.(ibuf) c.(ibufmark) c.(ipayloadoff));
         let '(buf, mark, off) := r in
         rmod (fun c => {| c with ibuf := buf; ibufmark := mark; ipayloadoff := off |})
       else
         rmod (fun c' => {| c' with ibufmark := c.(ibufmark) + n;
                                  ipayloadoff := c'.(ipayloadoff) + n |})) (u, c)
    (fun (s' : U * frame_in) r => exists buf, r = inr tt /\
       s' = (u, {| c with ibuf := buf; ibufmark := c.(ibufmark) + n; ipayloadoff := off + n |}) /\
       in_ok s'.2 /\ unread s'.2 = tl /\
       slice buf c.(ibufmark) (c.(ibufmark) + n) = slice (f_payload f) off (off + n)).
Proof.
  intros Hok Hfld Ho Hn Hle <- Hkey Hu. set (off := ipayloadoff c) in *.
  destruct (masked_payload_chunk f off n Ho Hn Hle) as [Hlen Hch].
  set (seg := take _ _) in *.
  destruct (unread_prefix c seg tl Hok Hu) as [Hsl Hadv]. rewrite Hlen in Hsl, Hadv.
  destruct Hfld as (_ & _ & _ & Him).
  assert ((imask c =? 0) = (mask_bit f =? 0)) as -> by (by rewrite Him).
  destruct (mask_bit_cases f) as [[-> Hm]|[-> Hm]]; simpl.
  - destruct (is_Some_dec (f_mask f)) as [[k Hk]|_]; [congruence|].
    destruct (Hadv {| c with ibufmark := c.(ibufmark) + n; ipayloadoff := off + n |}
                eq_refl eq_refl eq_refl) as [Hok' Hun'].
    apply cwp_mod. exists (ibuf c). split; [done|]. split; [done|].
    split; [exact Hok'|]. split; [exact Hun'|]. by rewrite Hsl.
  - destruct (is_Some_dec (f_mask f)) as [_|Hn']; [|done].
    pose proof Hok as (Hb & Hmk & Hlim).
    assert (WSLAY_AVAIL_IBUF c = n + zlen tl) as Hav
      by (rewrite <- (unread_len c Hok), Hu, zlen_app; lia).
    unfold WSLAY_AVAIL_IBUF in Hav. pose proof (zlen_nonneg tl).
    destruct (slice_split (ibuf c) (ibufmark c) (ibuflimit c)) as (pre & post & E & Hpre & Hpost);
      [lia|unfold IBUF_SIZE in *; lia|]. fold (unread c) in E. rewrite Hu, <- app_assoc in E.
    assert (unmask_loop (Z.to_nat n) (imaskkey c) (ibuf c) (ibufmark c) off =
      Some (pre ++ mask_from (mask_key f) off seg ++ tl ++ post, ibufmark c + n, off + n)) as Hloop.
    { rewrite (Hkey Hm), E, <- Hpre, <- Hlen. replace (Z.to_nat (zlen seg)) with (length seg)
        by (unfold zlen; lia). apply unmask_loop_spec. }
    apply cwp_bind. eapply cwp_lift; [exact Hloop|]. simpl.
    apply cwp_mod. exists (pre ++ mask_from (mask_key f) off seg ++ tl ++ post). simpl.
    split; [done|]. split; [done|]. split; [|split].
    + unfold in_ok. simpl. rewrite !zlen_app, mask_from_zlen. rewrite E, !zlen_app in Hb.
      unfold zlen in *. lia.
    + unfold unread. simpl. rewrite app_assoc. apply slice_app'; rewrite zlen_app, mask_from_zlen; lia.
    + rewrite <- Hch. apply slice_app'; [done|]. rewrite mask_from_zlen. lia.
Qed.

Lemma hand_out_spec f rest u0 u c off :
  recv_ok f -> in_ok c -> (budget u <= budget u0)%nat -> c.(istate) = RECV_PAYLOAD ->
  rpos f rest off c (todo (u, c)) -> (0 < WSLAY_AVAIL_IBUF c \/ off = flen f) ->
  cwp (hand_out (U := U) (flen f - off)) (u, c) (fun s' r =>
    in_ok s'.2 /\ match r with inl _ => False | inr io => chunk_post f rest off u0 s' io end).
Proof.
  intros Hf Hok Hbud Hst Hr Hav. pose proof Hr as Hr'. unfold rpos in Hr'. rewrite Hst in Hr'.
  destruct Hr' as (Hfld & Hoff & Hpl & Hpo & Hkey & Htodo).
  set (n := Z.min (WSLAY_AVAIL_IBUF c) (flen f - off)).
  assert (0 <= WSLAY_AVAIL_IBUF c) by (destruct Hok; unfold WSLAY_AVAIL_IBUF; lia).
  destruct (masked_payload_chunk f off n) as [Hlen Hch]; try (unfold n; lia).
  assert (exists tl, unread c = take (Z.to_nat n) (drop (Z.to_nat off) (masked_payload f)) ++ tl /\
     drop (Z.to_nat n) (drop (Z.to_nat off) (masked_payload f)) ++ rest = tl ++ pending u) as (tl & Hu & Htl).
  { apply todo_prefix; [done| |rewrite Hlen; unfold n; lia].
    rewrite app_assoc, take_drop. done. }
  unfold hand_out. apply cwp_bind, cwp_bind, cwp_get, cwp_ret. simpl.
  assert ((if WSLAY_AVAIL_IBUF c <? flen f - off then ibuflimit c else ibufmark c + (flen f - off))
          = ibufmark c + n) as ->.
  { unfold n, WSLAY_AVAIL_IBUF in *. zcases; lia. }
  replace (ibufmark c + n - ibufmark c) with n by lia.
  apply cwp_bind. eapply cwp_mono;
    [eapply (hand_out_advance f u c off n tl); try done; unfold n; lia|].
  intros s' r (buf & -> & -> & Hok' & Hu' & Hsl). simpl in Hok', Hu'.
  apply cwp_bind, cwp_bind, cwp_get, cwp_ret. simpl. rewrite Hsl.
  pose proof Hfld as (F1 & F2 & F3 & F4). apply cwp_bind, cwp_when.
  - intros E%Z.eqb_eq. apply cwp_mod. apply cwp_ret. split; [exact Hok'|].
    unfold chunk_post. simpl. do 6 (split; [done|]). exists (off + n). split; [unfold n; lia|].
    split; [done|]. left. split; [lia|]. split; [done|]. unfold todo. simpl.
    match goal with |- unread ?c' ++ _ = _ => change (unread c') with (slice c'.(ibuf) c'.(ibufmark) c'.(ibuflimit)) end.
    simpl. unfold unread in Hu'. simpl in Hu'. rewrite Hu', <- Htl, drop_drop, drop_ge; [done|].
    pose proof (masked_payload_zlen f). unfold zlen in *. lia.
  - intros E%Z.eqb_neq. apply cwp_ret. split; [exact Hok'|].
    unfold chunk_post. simpl. do 6 (split; [done|]). exists (off + n). split; [unfold n; lia|].
    split; [done|]. right. split; [unfold n in *; lia|]. split; [done|]. 
    match goal with |- rpos _ _ _ _ (todo ?s) =>
      assert (todo s = drop (Z.to_nat (off + n)) (masked_payload f) ++ rest) as -> end.
    { unfold todo. simpl. rewrite Hu', <- Htl, drop_drop. do 2 f_equal. unfold n. lia. }
    unfold rpos. simpl. rewrite Hst. split_and!; try done; unfold n; lia.
Qed.

Lemma recv_payload_spec f rest u c off :
  recv_ok f -> in_ok c -> c.(istate) = RECV_PAYLOAD -> rpos f rest off c (todo (u, c)) ->
  cwp (recv_payload cb) (u, c) (fun s' r =>
    in_ok s'.2 /\
    match r with
    | inl e => e = WSLAY_ERR_WANT_READ /\ (budget s'.1 < budget u)%nat /\ rpos f rest off s'.2 (todo s')
    | inr io => chunk_post f rest off u s' io
    end).
Proof.
  intros Hf Hok Hst Hr. pose proof Hr as Hr'. unfold rpos in Hr'. rewrite Hst in Hr'.
  destruct Hr' as (Hfld & Hoff & Hpl & Hpo & Hkey & Htodo).
  pose proof Hf as [(_ & _ & _ & _ & _ & Hplen & _) _]. fold (flen f) in Hplen.
  unfold recv_payload. apply cwp_bind, cwp_bind, cwp_get, cwp_ret. simpl.
  rewrite Hpl, Hpo, uwrap_id by lia. apply cwp_bind, cwp_when.
  - intros [Ha%Z.eqb_eq Hrem%Z.ltb_lt]%andb_true_iff.
    eapply cwp_mono; [apply wslay_recv_spec; [done|unfold IBUF_SIZE; lia|]|].
    { apply (todo_pending u c 1 Hok); [|lia]. rewrite Htodo, zlen_app.
      pose proof (masked_payload_zlen f). pose proof (zlen_nonneg rest).
      unfold zlen in *. rewrite length_drop. lia. }
    intros [u1 c1] [e|[]] (Hok1 & Hs1 & Ht1 & Hb1 & Hr1); simpl in *.
    + split_and!; try done. rewrite Ht1. by eapply rpos_same.
    + eapply cwp_mono; [apply (hand_out_spec f rest u u1 c1 off); try done|].
      * lia.
      * rewrite Hs1. done.
      * rewrite Ht1. by eapply rpos_same.
      * left. lia.
      * intros s' [?|io] [? ?]; done.
  - intros E. eapply cwp_mono; [apply (hand_out_spec f rest u u c off); try done|].
    + assert (0 <= WSLAY_AVAIL_IBUF c) by (destruct Hok; unfold WSLAY_AVAIL_IBUF; lia).
      zcases; simpl in E; try done; lia.
    + intros s' [?|io] [? ?]; done.
Qed.

Definition call_post (f : ws_frame) (rest : list Z) (off : Z) (u : U) (s' : U * frame_in)
    (r : Z + iocb_in) : Prop :=
  in_ok s'.2 /\
  match r with
  | inl e => e = WSLAY_ERR_WANT_READ /\ (budget s'.1 < budget u)%nat /\ rpos f rest off s'.2 (todo s')
  | inr io => chunk_post f rest off u s' io
  end.

Lemma call_post_mono f rest off u u1 s' r :
  (budget u1 <= budget u)%nat -> call_post f rest off u1 s' r -> call_post f rest off u s' r.
Proof.
  intros Hb [Hok Hr]. split; [done|]. destruct r as [e|io].
  - destruct Hr as (? & ? & ?). split_and!; [done|lia|done].
  - destruct Hr as [? Hr]. split; [lia|done].
Qed.

(** Running one header stage in front of a continuation that handles the later stages. *)
Lemma stage_then f rest u c X stage (later : wslay_frame_state -> Prop) (k : unit -> CM (U * frame_in) Z iocb_in) :
  (c.(istate) = X -> cwp stage (u, c) (stage_post f rest u later)) ->
  in_ok c -> rpos f rest 0 c (todo (u, c)) -> (c.(istate) = X \/ later c.(istate)) ->
  (forall u1 c1, in_ok c1 -> rpos f rest 0 c1 (todo (u1, c1)) -> later c1.(istate) ->
     cwp (k tt) (u1, c1) (call_post f rest 0 u1)) ->
  cwp (cwhen (bool_decide (c.(istate) = X)) stage ≫= k) (u, c) (call_post f rest 0 u).
Proof.
  intros Hst Hok Hr Hor Hk. apply cwp_bind, cwp_when.
  - intros E%bool_decide_eq_true. eapply cwp_mono; [by apply Hst|].
    intros [u1 c1] [e|[]] (Hok1 & Hr1 & HX).
    + destruct HX as [-> ?]. split; [done|]. by split_and!.
    + destruct HX as [Hl Hb]. eapply cwp_mono; [by apply Hk|].
      intros s' r. by apply call_post_mono.
  - intros E%bool_decide_eq_false. destruct Hor as [?|Hl]; [done|]. by apply Hk.
Qed.

Lemma frame_recv_step f rest off u c :
  recv_ok f -> in_ok c -> rpos f rest off c (todo (u, c)) ->
  cwp (wslay_frame_recv cb) (u, c) (call_post f rest off u).
Proof.
  intros Hf Hok Hr.
  assert (forall u c off, in_ok c -> rpos f rest off c (todo (u, c)) -> c.(istate) = RECV_PAYLOAD ->
    cwp (c ← rget; if bool_decide (c.(istate) = RECV_PAYLOAD) then recv_payload cb
                   else creturn WSLAY_ERR_INVALID_ARGUMENT) (u, c) (call_post f rest off u)) as Htail.
  { clear u c off Hok Hr. intros u c off Hok Hr Hst. apply cwp_bind, cwp_bind, cwp_get, cwp_ret. simpl.
    rewrite bool_decide_eq_true_2 by done. by apply recv_payload_spec. }
  assert (c.(istate) = RECV_PAYLOAD \/ off = 0 /\
    (c.(istate) = RECV_HEADER1 \/ c.(istate) = RECV_EXT_PAYLOADLEN \/ c.(istate) = RECV_MASKKEY)) as Hcase.
  { unfold rpos in Hr. destruct (istate c); try done; auto; right; destruct Hr as (? & _); auto. }
  unfold wslay_frame_recv. apply cwp_bind, cwp_bind, cwp_get, cwp_ret. simpl.
  destruct Hcase as [Hst|[-> Hst]].
  - rewrite Hst. simpl.
    do 3 (apply cwp_bind, cwp_ret; apply cwp_bind, cwp_bind, cwp_get, cwp_ret; simpl; rewrite ?Hst; simpl).
    by apply recv_payload_spec.
  - apply (stage_then f rest u c RECV_HEADER1 _
      (fun st => st = RECV_EXT_PAYLOADLEN \/ st = RECV_MASKKEY \/ st = RECV_PAYLOAD));
      [intros; by apply recv_header1_spec|done|done|tauto|].
    intros u1 c1 Hok1 Hr1 Hl1. apply cwp_bind, cwp_bind, cwp_get, cwp_ret. simpl.
    apply (stage_then f rest u1 c1 RECV_EXT_PAYLOADLEN _ (fun st => st = RECV_MASKKEY \/ st = RECV_PAYLOAD));
      [intros; by apply recv_ext_payloadlen_spec|done|done|tauto|].
    intros u2 c2 Hok2 Hr2 Hl2. apply cwp_bind, cwp_bind, cwp_get, cwp_ret. simpl.
    apply (stage_then f rest u2 c2 RECV_MASKKEY _ (fun st => st = RECV_PAYLOAD));
      [intros; by apply recv_maskkey_spec|done|done|tauto|].
    intros u3 c3 Hok3 Hr3 Hl3. by apply Htail.
Qed.

Lemma slice_extend l i j k : 0 <= i <= j -> j <= k -> k <= zlen l -> slice l i j ++ slice l j k = slice l i k.
Proof.
  unfold slice, zlen. intros.
  replace (Z.to_nat (k - i)) with (Z.to_nat (j - i) + Z.to_nat (k - j))%nat by lia.
  rewrite <- take_take_drop, drop_drop. do 3 f_equal. lia.
Qed.

Lemma recv_loop_spec n f rest off u c acc :
  recv_ok f -> in_ok c -> rpos f rest off c (todo (u, c)) -> 0 <= off <= flen f ->
  (budget u + Z.to_nat (flen f - off) < n)%nat -> acc = slice (f_payload f) 0 off ->
  exists u' c' io, recv_loop cb n (u, c) acc = Some (u', c', io, f_payload f) /\
    in_ok c' /\ at_frame_start c' /\ todo (u', c') = rest /\
    in_fin io = f_fin f /\ in_rsv io = f_rsv f /\ in_opcode io = f_opcode f /\
    in_payload_length io = flen f /\ in_mask io = mask_bit f.
Proof.
  revert off u c acc. induction n as [|n IH]; intros off u c acc Hf Hok Hr Hoff Hn ->; [lia|].
  destruct (cwp_Some _ _ _ (frame_recv_step f rest off u c Hf Hok Hr)) as ([u' c'] & r & E & Hok' & Hr').
  simpl. rewrite E. destruct r as [e|io].
  - destruct Hr' as (-> & Hb & Hr'). simpl in *. apply IH with (off := off); try done. lia.
  - destruct Hr' as (Hb & F1 & F2 & F3 & F4 & F5 & off' & Ho & Hd & Hend).
    assert (slice (f_payload f) 0 off ++ in_data io = slice (f_payload f) 0 off') as Hacc.
    { rewrite Hd. apply slice_extend; unfold flen in *; lia. }
    rewrite Hacc. destruct Hend as [(-> & Hst & Ht)|(Hlt & Hst & Hr'')].
    + destruct Hst as [Hst ?]. simpl in Hst |- *. rewrite bool_decide_eq_true_2 by done.
      exists u', c', io. split_and!; try done. repeat f_equal.
      unfold slice, flen, zlen. rewrite drop_0. apply take_ge. lia.
    + simpl in *. rewrite bool_decide_eq_false_2 by congruence.
      apply IH with (off := off'); try done; lia.
Qed.

(** From one frame start to the next. *)
Lemma frame_recv_whole f rest u c :
  recv_ok f -> in_ok c -> at_frame_start c -> todo (u, c) = encode f ++ rest ->
  exists n u' c' io, recv_loop cb n (u, c) [] = Some (u', c', io, f_payload f) /\
    in_ok c' /\ at_frame_start c' /\ todo (u', c') = rest /\
    in_fin io = f_fin f /\ in_rsv io = f_rsv f /\ in_opcode io = f_opcode f /\
    in_payload_length io = flen f /\ in_mask io = mask_bit f.
Proof.
  intros Hf Hok [Hst Hreq] Ht. exists (S (budget u + Z.to_nat (flen f))).
  apply recv_loop_spec with (rest := rest) (off := 0); try done.
  - unfold rpos. by rewrite Hst.
  - split; [done|apply zlen_nonneg].
  - lia.
Qed.
End RecvProof.

(** ** Sending: correctness for every sequence of partial writes *)

Lemma send_b0 fin rsv op :
  (fin = 0 \/ fin = 1) -> 0 <= rsv < 8 -> 0 <= op < 16 ->
  Z.lor (Z.lor (Z.land (u8 (Z.shiftl fin 7)) 128) (Z.land (u8 (Z.shiftl rsv 4)) 112)) (Z.land (u8 op) 15)
  = fin * 128 + rsv * 16 + op.
Proof.
  intros Hf Hr Ho.
  assert (all_bytes (fun b =>
    Z.lor (Z.lor (Z.land (u8 (Z.shiftl (b / 128) 7)) 128)
       (Z.land (u8 (Z.shiftl ((b / 16) mod 8) 4)) 112)) (Z.land (u8 (b mod 16)) 15) =? b) = true) as H
    by (vm_compute; reflexivity).
  pose proof (all_bytes_spec _ H (fin * 128 + rsv * 16 + op)) as E. simpl in E.
  rewrite Z.eqb_eq in E.
  replace ((fin * 128 + rsv * 16 + op) / 128) with fin in E by (Z.to_euclidean_division_equations; lia).
  replace (((fin * 128 + rsv * 16 + op) / 16) mod 8) with rsv in E by (Z.to_euclidean_division_equations; lia).
  replace ((fin * 128 + rsv * 16 + op) mod 16) with op in E by (Z.to_euclidean_division_equations; lia).
  apply E. split; lia.
Qed.

Lemma send_b1 m len :
  (m = 0 \/ m = 1) -> 0 <= len < 128 -> Z.lor (Z.land (u8 (Z.shiftl m 7)) 128) len = m * 128 + len.
Proof.
  intros [->| ->] Hl; [done|].
  change (Z.land (u8 (Z.shiftl 1 7)) 128) with (Z.shiftl 1 7). by rewrite lor_shiftl_add by lia.
Qed.

Definition iocb_for (f : ws_frame) (data data_length : Z) : iocb_out :=
  mkIocbOut f.(f_fin) f.(f_rsv) f.(f_opcode) (flen f) (mask_bit f) data data_length.

Lemma prep_header_ok f data dl :
  frame_ok f -> exists hd, prep_header (iocb_for f data dl) = inr hd /\ hd ++ mask_key f = encode_header f.
Proof.
  intros (Hfin & Hrsv & Hop & _ & _ & Hplen & Hc125). fold (flen f) in Hplen, Hc125.
  assert (0 <= flen f) as Hnn by apply zlen_nonneg.
  assert (mask_bit f = 0 \/ mask_bit f = 1) as Hmb by (destruct (mask_bit_cases f) as [[? _]|[? _]]; auto).
  unfold prep_header, iocb_for. simpl. rewrite send_b0 by done.
  unfold encode_header. fold (flen f). unfold length_field. rewrite ctrl_opcode by done.
  destruct (Z.leb_spec 8 (f_opcode f)), (Z.ltb_spec 125 (flen f)); simpl; try (exfalso; lia);
  (destruct (Z.ltb_spec (flen f) 126);
   [eexists; split; [done|]; rewrite (uwrap_id 8 (flen f)) by lia; rewrite send_b1 by (try done; lia); done|];
   destruct (Z.ltb_spec (flen f) 65536);
   [eexists; split; [done|]; rewrite (uwrap_id 16 (flen f)) by lia; rewrite send_b1 by (try done; lia); done|];
   destruct (Z.ltb_spec (flen f) 9223372036854775808); [|exfalso; lia];
   eexists; split; [done|]; rewrite send_b1 by (try done; lia); done).
Qed.

Lemma encode_header_len f : frame_ok f -> 2 <= zlen (encode_header f) <= 14.
Proof.
  intros (_ & _ & _ & Hk & _). unfold encode_header. rewrite zlen_cons, zlen_app.
  assert (0 <= zlen (mask_key f) <= 4).
  { split; [apply zlen_nonneg|]. unfold mask_key, zlen. destruct (f_mask f); simpl; lia. }
  unfold length_field. zcases; rewrite ?zlen_cons, ?zlen_nil;
    try (change (zlen (be_store _ _)) with (Z.of_nat (length (be_store 2 (zlen (f_payload f))))));
    unfold zlen; rewrite ?be_store_length; simpl; unfold zlen in *; lia.
Qed.

Section SendProof.
Context {U : Type} (cb : frame_callbacks U).

(** The transport: [sent u] is what has been written so far; a positive result is the number
    of leading bytes taken; [budget u] bounds the number of refusals. *)
Context (sent : U -> list Z) (budget : U -> nat).
Hypothesis send_takes : forall u d u' r,
  send_callback cb u d = (u', r) -> r <= zlen d /\ sent u' = sent u ++ take (Z.to_nat r) d.
Hypothesis send_fair : forall u d u' r,
  send_callback cb u d = (u', r) -> d <> [] ->
  if 0 <? r then (budget u' <= budget u)%nat else (budget u' < budget u)%nat.

Section OneFrame.
Context (f : ws_frame) (Hf : frame_ok f) (pre post : list Z).
Let hd := encode_header f.
Let H := zlen hd.
Let full := encode f.
Let mem := pre ++ hd ++ f_payload f ++ post.
Let base := zlen pre + H.

(** Payload bytes among the first [k] bytes of the frame. *)
Definition pay (k : Z) : Z := Z.max 0 (k - H).

(** [k] bytes of the frame were written. *)
Definition opos (k : Z) (c : frame_out) : Prop :=
  c.(ostate) = SEND_PAYLOAD /\ c.(opayloadlen) = zlen full /\ c.(opayloadoff) = k /\
  0 <= k <= zlen full /\ c.(hdrtow) = Z.max 0 (H - k) /\
  c.(omask) = mask_bit f /\
  (is_Some f.(f_mask) -> c.(omaskkey) = mask_key f /\ c.(opayloadmaskoff) = pay k).

Lemma full_len : zlen full = H + flen f.
Proof. unfold full, encode. fold hd. rewrite zlen_app, masked_payload_zlen. done. Qed.

Lemma slice_mem k n : 0 <= k -> 0 <= n -> k + n <= zlen full ->
  slice mem (zlen pre + k) (zlen pre + k + n) = slice (hd ++ f_payload f) k (k + n).
Proof.
  intros Hk Hn Hle. rewrite full_len in Hle. unfold mem, slice.
  replace (Z.to_nat (zlen pre + k)) with (length pre + Z.to_nat k)%nat by (unfold zlen; lia).
  rewrite <- drop_drop, drop_app_length.
  replace (zlen pre + k + n - (zlen pre + k)) with (k + n - k) by lia.
  rewrite app_assoc, drop_app_le by (rewrite length_app; unfold H, flen, zlen in *; lia).
  rewrite take_app_le; [done|]. rewrite length_drop, length_app. unfold H, flen, zlen in *. lia.
Qed.

(** The block assembled in [temp] is the corresponding part of the frame. *)
Lemma temp_is_frame k n :
  0 <= k -> 0 <= n -> k + n <= zlen full -> is_Some f.(f_mask) ->
  let h := Z.to_nat (Z.min n (Z.max 0 (H - k))) in
  let seg := slice (hd ++ f_payload f) k (k + n) in
  take h seg ++ mask_from (mask_key f) (pay k) (drop h seg) = slice full k (k + n).
Proof.
  intros Hk Hn Hle [key Hm]. rewrite full_len in Hle. cbv zeta. unfold pay, slice.
  replace (k + n - k) with n by lia. set (kn := Z.to_nat k). set (nn := Z.to_nat n).
  assert (full = hd ++ mask_from (mask_key f) 0 (f_payload f)) as Ef
    by (unfold full, encode, masked_payload, mask_key; by rewrite Hm).
  rewrite Ef. pose proof (zlen_nonneg (f_payload f)) as Hp0. unfold flen in Hle.
  destruct (Z.le_gt_cases H k) as [Hge|Hlt].
  - replace (Z.max 0 (H - k)) with 0 by lia. replace (Z.min n 0) with 0 by lia. change (Z.to_nat 0) with 0%nat.
    rewrite !drop_app_ge by (unfold H, zlen, kn in *; lia).
    rewrite take_0, drop_0, app_nil_l, mask_from_drop by (unfold H, zlen, kn in *; lia).
    rewrite mask_from_take. f_equal. unfold H, zlen, kn in *. lia.
  - replace (Z.max 0 (k - H)) with 0 by lia. replace (Z.max 0 (H - k)) with (H - k) by lia.
    rewrite !drop_app_le by (unfold H, zlen, kn in *; lia).
    set (a := drop kn hd). assert (length a = Z.to_nat (H - k)) as La
      by (unfold a, H, zlen, kn in *; rewrite length_drop; lia).
    destruct (Z.le_gt_cases n (H - k)) as [Hn1|Hn1].
    + replace (Z.min n (H - k)) with n by lia. fold nn.
      rewrite !take_app_le by lia. rewrite take_take, Nat.min_id, drop_ge; [|rewrite length_take; lia].
      simpl. apply app_nil_r.
    + replace (Z.min n (H - k)) with (H - k) by lia. rewrite <- La.
      rewrite !(take_app_ge _ _ nn) by lia. rewrite take_app_length, drop_app_length. f_equal.
      by rewrite mask_from_take.
Qed.

Lemma unmasked_full : f.(f_mask) = None -> full = hd ++ f_payload f.
Proof. intros Hm. unfold full, encode, masked_payload. by rewrite Hm. Qed.

(** The bookkeeping of one successful write. *)
Lemma account_ok (st : send_st (U:=U)) u r k k0 :
  opos k st.(s_ctx) -> st.(s_totallen) = pay k - pay k0 -> 0 < r -> k + r <= zlen full ->
  opos (k + r) (account st u r (negb (mask_bit f =? 0))).(s_ctx) /\
  (account st u r (negb (mask_bit f =? 0))).(s_totallen) = pay (k + r) - pay k0 /\
  (account st u r (negb (mask_bit f =? 0))).(s_env) = u.
Proof.
  intros (O1 & O2 & O3 & O4 & O5 & O6 & O7) Ht Hr Hle.
  unfold account. simpl. rewrite O5, Ht.
  set (hp := if Z.max 0 (H - k) =? 0 then 0 else Z.min (Z.max 0 (H - k)) r).
  assert (hp = Z.min (Z.max 0 (H - k)) r) as Ehp by (unfold hp; zcases; lia).
  assert (pay (k + r) = pay k + r - hp) as Ep by (rewrite Ehp; unfold pay; lia).
  split_and!; [|lia|done].
  unfold opos. simpl. rewrite O1, O2, O3, O6. split_and!; try done; try lia.
  intros Hm. destruct (O7 Hm) as [-> ->]. split; [done|].
  destruct (mask_bit_cases f) as [[? E]|[-> _]]; [by rewrite E in Hm; destruct Hm|]. simpl. lia.
Qed.

Lemma slice_nonempty k n : 0 <= k -> 0 < n -> k + n <= zlen full -> slice full k (k + n) <> [].
Proof.
  intros Hk Hn Hle E. assert (zlen (slice full k (k + n)) = n) as L by (rewrite slice_length; lia).
  rewrite E in L. unfold zlen in L. simpl in L. lia.
Qed.

(** What one write hands to the callback, and what it takes. *)
Lemma write_takes u k n u' r :
  send_callback cb u (slice full k (k + n)) = (u', r) ->
  0 <= k -> 0 <= n -> k + n <= zlen full -> 0 < r ->
  r <= n /\ sent u' = sent u ++ slice full k (k + r) /\ (budget u' <= budget u)%nat.
Proof.
  intros Hcb Hk Hn Hle Hr.
  destruct (send_takes _ _ _ _ Hcb) as [Hr1 Hs]. rewrite slice_length in Hr1 by lia.
  pose proof (send_fair _ _ _ _ Hcb (slice_nonempty k n Hk ltac:(lia) Hle)) as Hb.
  rewrite slice_take in Hs by lia.
  destruct (Z.ltb_spec 0 r); [|lia]. split_and!; [lia|done|done].
Qed.

Lemma write_refused u k n u' r :
  send_callback cb u (slice full k (k + n)) = (u', r) -> 0 <= k -> 0 < n -> k + n <= zlen full ->
  r <= 0 -> sent u' = sent u /\ (budget u' < budget u)%nat.
Proof.
  intros Hcb Hk Hn Hle Hr. destruct (send_takes _ _ _ _ Hcb) as [_ Hs].
  pose proof (send_fair _ _ _ _ Hcb (slice_nonempty _ _ Hk Hn Hle)) as Hb.
  destruct (Z.ltb_spec 0 r); [lia|]. split; [|done].
  rewrite Hs. replace (Z.to_nat r) with 0%nat by lia. by rewrite take_0, app_nil_r.
Qed.

Lemma mem_len : zlen mem = zlen pre + zlen full + zlen post.
Proof. rewrite full_len. unfold mem, H, flen. rewrite !zlen_app. lia. Qed.

(** The state after some more bytes went out: [k'] of them in total. *)
Definition progress (k0 k : Z) (st st' : send_st (U:=U)) (k' : Z) : Prop :=
  opos k' st'.(s_ctx) /\ k <= k' /\ st'.(s_totallen) = pay k' - pay k0 /\
  sent st'.(s_env) = sent st.(s_env) ++ slice full k k' /\
  (budget st'.(s_env) <= budget st.(s_env))%nat.

Lemma progress_step k0 k st st1 st' r k' :
  0 <= k -> 0 < r -> progress k0 k st st1 (k + r) -> progress k0 (k + r) st1 st' k' ->
  progress k0 k st st' k'.
Proof.
  intros Hk Hr (_ & _ & _ & S1 & B1) (P1 & P2 & P3 & S2 & B2).
  split; [done|]. split; [lia|]. split; [done|]. split; [|lia].
  rewrite S2, S1, <- app_assoc. f_equal. apply slice_join; lia.
Qed.

Lemma mask_loop_spec k0 fuel k st :
  is_Some f.(f_mask) -> opos k st.(s_ctx) -> st.(s_totallen) = pay k - pay k0 ->
  zlen full - k <= Z.of_nat fuel ->
  exists k' st' (b : bool),
    mask_loop cb fuel mem (zlen pre + k) (zlen pre + zlen full) st = Some (if b then inr st' else inl st') /\
    progress k0 k st st' k' /\
    (b = true -> k' = zlen full \/ (budget st'.(s_env) < budget st.(s_env))%nat) /\
    (b = false -> pay k' <= pay k0 /\ k' < zlen full /\ (budget st'.(s_env) < budget st.(s_env))%nat).
Proof.
  intros Hm. revert k st. induction fuel as [|fuel IH]; intros k st Ho Ht Hfuel;
    pose proof Ho as (O1 & O2 & O3 & O4 & O5 & O6 & O7).
  - exists k, st, true. split_and!; [|split_and!|by left; lia|done]; try done; try lia.
    + simpl. destruct (Z.ltb_spec (zlen pre + k) (zlen pre + zlen full)); [lia|done].
    + by rewrite slice_empty, app_nil_r.
  - simpl mask_loop. destruct (Z.ltb_spec (zlen pre + k) (zlen pre + zlen full)) as [Hlt|Hge]; simpl negb; cbv iota.
    2:{ exists k, st, true. split_and!; [|split_and!|by left; lia|done]; try done; try lia.
        by rewrite slice_empty, app_nil_r. }
    replace (zlen pre + zlen full - (zlen pre + k)) with (zlen full - k) by lia.
    set (n := Z.min 4096 (zlen full - k)).
    pose proof mem_len. pose proof (zlen_nonneg pre). pose proof (zlen_nonneg post).
    destruct (Z.ltb_spec (zlen pre + k) 0); [lia|].
    destruct (Z.ltb_spec (zlen mem) (zlen pre + k + n)); [lia|]. simpl orb. cbv iota.
    rewrite slice_mem, O5 by lia. destruct (O7 Hm) as [-> ->]. rewrite temp_is_frame by (done || lia).
    destruct (send_callback cb (s_env st) (slice full k (k + n))) as [u r] eqn:Hcb.
    destruct (Z.ltb_spec 0 r) as [Hr|Hr].
    + destruct (write_takes _ _ _ _ _ Hcb) as (Hrn & Hs & Hb); [lia..|].
      destruct (account_ok st u r k k0 Ho Ht) as (A1 & A2 & A3); [lia..|].
      assert (mask_bit f = 1) as Em by (destruct (mask_bit_cases f) as [[? E]|[? _]]; [by rewrite E in Hm; destruct Hm|done]).
      rewrite Em in A1, A2, A3. simpl negb in A1, A2, A3.
      destruct (IH (k + r) _ A1 A2) as (k' & st' & b & E & P & Q1 & Q2); [lia|].
      rewrite Z.add_assoc in E. exists k', st', b. split; [done|]. rewrite A3 in Q1, Q2.
      split_and!.
      * eapply progress_step; [| |split_and!|exact P]; try done; try lia; by rewrite A3.
      * intros Hbt. destruct (Q1 Hbt); [by left|right; lia].
      * intros Hbf. destruct (Q2 Hbf) as (? & ? & ?). split_and!; lia.
    + destruct (write_refused _ _ _ _ _ Hcb) as [Hs Hb]; [lia..|]. rewrite Ht.
      assert (progress k0 k st (mkSend u (s_ctx st) (s_data st) (s_data_length st) (s_totallen st)) k) as P.
      { split_and!; try done; try lia. simpl. by rewrite Hs, slice_empty, app_nil_r. simpl. lia. }
      rewrite Ht in P.
      destruct (Z.ltb_spec 0 (pay k - pay k0)); simpl s_totallen;
        [eexists k, _, true | eexists k, _, false];
        (split; [reflexivity|]);
        (split; [exact P|]); (split; [intros; try done; right; simpl; lia|intros; try done; simpl; lia]).
Qed.

(** One call in state [SEND_PAYLOAD] with [k] bytes of the frame written: it writes on from
    there, reports the payload progress, and stays in the state until the frame is out. *)
Lemma send_payload_spec k st :
  opos k st.(s_ctx) -> k < zlen full -> st.(s_totallen) = 0 ->
  st.(s_data) = zlen pre + k -> st.(s_data_length) = zlen full - k ->
  exists k' u' c' r,
    send_payload cb mem st = Some (u', c', mem, r) /\
    k <= k' <= zlen full /\ sent u' = sent st.(s_env) ++ slice full k k' /\
    (budget u' + Z.to_nat (zlen full - k') < budget st.(s_env) + Z.to_nat (zlen full - k))%nat /\
    (r = WSLAY_ERR_WANT_WRITE /\ pay k' = pay k /\ k' < zlen full \/ r = pay k' - pay k /\ H <= k') /\
    (k' = zlen full -> c'.(ostate) = PREP_HEADER /\ c'.(omask) = mask_bit f) /\
    (k' < zlen full -> opos k' c').
Proof.
  intros Ho Hlt Ht Hd Hl. pose proof Ho as (O1 & O2 & O3 & O4 & O5 & O6 & O7).
  (* the write: [b = false] is the early return *)
  assert (exists k' st' (b : bool),
    (if negb (st.(s_ctx).(omask) =? 0) then
       mask_loop cb (Z.to_nat st.(s_data_length)) mem st.(s_data) (st.(s_data) + st.(s_data_length)) st
     else
       if (st.(s_data) <? 0) || (zlen mem <? st.(s_data) + st.(s_data_length)) then None else
       let '(u, r) := send_callback cb st.(s_env)
                        (slice mem st.(s_data) (st.(s_data) + st.(s_data_length))) in
       if 0 <? r then Some (inr (account st u r false))
       else Some (inl (mkSend u st.(s_ctx) st.(s_data) st.(s_data_length) st.(s_totallen))))
    = Some (if b then inr st' else inl st') /\ progress k k st st' k' /\
    (budget st'.(s_env) + Z.to_nat (zlen full - k') < budget st.(s_env) + Z.to_nat (zlen full - k))%nat /\
    (b = false -> pay k' <= pay k /\ k' < zlen full)) as (k' & st' & b & E & P & B & Hb).
  { rewrite O6, Hd, Hl. destruct (mask_bit_cases f) as [[Em Hn]|[Em Hm]]; rewrite Em; simpl negb; cbv iota.
    - pose proof mem_len. pose proof (zlen_nonneg pre). pose proof (zlen_nonneg post).
      destruct (Z.ltb_spec (zlen pre + k) 0); [lia|].
      destruct (Z.ltb_spec (zlen mem) (zlen pre + k + (zlen full - k))); [lia|]. simpl orb. cbv iota.
      rewrite slice_mem, <- unmasked_full by (done || lia).
      destruct (send_callback _ _ _) as [u r] eqn:Hcb. destruct (Z.ltb_spec 0 r) as [Hr|Hr].
      + destruct (write_takes _ _ _ _ _ Hcb) as (Hrn & Hs & Hbu); [lia..|].
        destruct (account_ok st u r k k Ho) as (A1 & A2 & A3); [lia..|].
        rewrite Em in A1, A2, A3. simpl negb in A1, A2, A3.
        exists (k + r), (account st u r false), true. split; [done|]. rewrite A3.
        split; [split_and!; try done; try lia; rewrite A3; done|]. split; [lia|done].
      + destruct (write_refused _ _ _ _ _ Hcb) as [Hs Hbu]; [lia..|].
        eexists k, _, false. split; [reflexivity|]. simpl s_env. split; [|split; [lia|intros _; lia]].
        split_and!; try done; simpl; try lia. by rewrite Hs, slice_empty, app_nil_r.
    - replace (zlen pre + k + (zlen full - k)) with (zlen pre + zlen full) by lia.
      destruct (mask_loop_spec k (Z.to_nat (zlen full - k)) k st) as (k' & st' & b & E & P & Q1 & Q2);
        [done|done|lia|lia|].
      exists k', st', b. split; [done|]. split; [done|].
      destruct P as ((_ & _ & _ & P4 & _) & P2 & _ & _ & P5).
      split; [|intros Hbf; specialize (Q2 Hbf); lia].
      destruct b; [destruct (Q1 eq_refl)|specialize (Q2 eq_refl)]; lia. }
  unfold send_payload. destruct (Z.ltb_spec 0 (s_data_length st)); [|lia].
  setoid_rewrite E. destruct P as (P1 & P2 & P3 & P4 & P5).
  pose proof P1 as (R1 & R2 & R3 & R4 & R5 & R6 & R7).
  assert (pay k <= pay k') by (unfold pay; lia).
  destruct b; simpl.
  - rewrite R5. destruct (Z.eqb_spec (Z.max 0 (H - k')) 0) as [Hz|Hz]; simpl negb; cbv iota.
    + eexists k', _, _, _. split; [reflexivity|]. split; [lia|]. split; [done|]. split; [done|].
      split; [right; lia|]. rewrite R3, R2.
      split; intros; destruct (Z.eqb_spec k' (zlen full)); try lia; done.
    + eexists k', _, _, _. split; [reflexivity|]. split; [lia|]. split; [done|]. split; [done|].
      pose proof full_len. assert (0 <= flen f) by apply zlen_nonneg.
      split; [left; split; [done|]; unfold pay; lia|]. split; [lia|done].
  - destruct (Hb eq_refl). eexists k', _, _, _. split; [reflexivity|]. split; [lia|]. split; [done|].
    split; [done|]. split; [left; split; [done|]; lia|]. split; [lia|done].
Qed.

(** The driver from [k < zlen full] bytes on. *)
Lemma send_loop_spec n k u c :
  opos k c -> k < zlen full -> (budget u + Z.to_nat (zlen full - k) <= n)%nat ->
  exists u' c',
    send_loop cb n f.(f_fin) f.(f_rsv) f.(f_opcode) (mask_bit f) base (flen f) u c mem (pay k)
      = Some (u', c', mem) /\
    sent u' = sent u ++ slice full k (zlen full) /\ c'.(ostate) = PREP_HEADER /\ c'.(omask) = mask_bit f.
Proof.
  revert k u c. induction n as [|n IH]; intros k u c Ho Hlt Hn; [lia|].
  pose proof full_len as HL. assert (0 <= flen f) by apply zlen_nonneg.
  assert (0 <= H) by apply zlen_nonneg.
  pose proof Ho as (O1 & O2 & O3 & O4 & O5 & O6 & O7).
  destruct (send_payload_spec k (mkSend u c (zlen pre + k) (zlen full - k) 0))
    as (k' & u' & c' & r & E & Hk' & Hs & Hb & Hr & Hdone & Hmore); try done.
  simpl send_loop. unfold wslay_frame_send. rewrite !O1. simpl bool_decide. cbv iota.
  cbn [out_data out_data_length]. rewrite O5.
  replace (base + pay k - Z.max 0 (H - k)) with (zlen pre + k) by (unfold base, pay; lia).
  replace (flen f - pay k + Z.max 0 (H - k)) with (zlen full - k) by (unfold pay; lia).
  setoid_rewrite E. simpl.
  assert (pay k <= pay k') by (unfold pay; lia).
  destruct (Z.eq_dec k' (zlen full)) as [->|Hne].
  - destruct (Hdone eq_refl) as [D1 D2].
    destruct Hr as [(_ & _ & ?)|[Hr _]]; [lia|].
    assert (pay (zlen full) = flen f) as Ep by (unfold pay; lia).
    destruct (Z.leb_spec 0 r); [|lia].
    destruct (Z.eqb_spec (pay k + r) (flen f)); [|lia]. by exists u', c'.
  - destruct (IH k' u' c') as (u2 & c2 & E2 & S2 & D1 & D2);
      [apply Hmore; lia|lia|simpl in Hb; lia|].
    exists u2, c2. split; [|split; [|done]].
    + destruct Hr as [(-> & Hp & _)|[Hr Hh]].
      * simpl. by rewrite <- Hp.
      * destruct (Z.leb_spec 0 r); [|lia].
        destruct (Z.eqb_spec (pay k + r) (flen f)) as [Ee|_].
        { exfalso. unfold pay in *. lia. }
        by replace (pay k + r) with (pay k') by lia.
    + simpl in Hs. rewrite S2, Hs, <- app_assoc. f_equal. apply slice_join; lia.
Qed.

(** The first call lays the header out in front of the payload. *)
Lemma first_call u u1 c junk :
  zlen junk = H -> c.(ostate) = PREP_HEADER -> (is_Some f.(f_mask) \/ c.(omask) = 0) ->
  match f.(f_mask) with
  | None => u1 = u
  | Some key => genmask_callback cb u = (u1, Some key)
  end ->
  exists c1, opos 0 c1 /\
    wslay_frame_send cb u c (pre ++ junk ++ f_payload f ++ post) (iocb_for f base (flen f))
    = send_payload cb mem (mkSend u1 c1 (zlen pre) (zlen full) 0).
Proof.
  intros Hj Hst Hom Hgen. pose proof full_len as HL.
  destruct (prep_header_ok f base (flen f) Hf) as (h & Eh & Hh). fold hd in Hh.
  unfold wslay_frame_send. rewrite Hst, bool_decide_true, Eh by done. simpl out_mask.
  assert (0 <= flen f) by apply zlen_nonneg. assert (0 <= H) by apply zlen_nonneg.
  assert (memcpy (pre ++ junk ++ f_payload f ++ post) (base - H) hd = Some mem) as Hcpy.
  { unfold memcpy, base. replace (zlen pre + H - H) with (zlen pre) by lia. fold H.
    pose proof (zlen_nonneg pre). pose proof (zlen_nonneg post). pose proof (zlen_nonneg (f_payload f)).
    destruct (Z.ltb_spec (zlen pre) 0); [lia|].
    destruct (Z.ltb_spec (zlen (pre ++ junk ++ f_payload f ++ post)) (zlen pre + H));
      [rewrite !zlen_app in *; lia|]. simpl orb. cbv iota. f_equal. unfold mem.
    replace (Z.to_nat (zlen pre)) with (length pre) by (unfold zlen; lia).
    rewrite take_app_length. do 2 f_equal.
    replace (Z.to_nat (zlen pre + H)) with (length pre + length junk)%nat by (unfold zlen in *; lia).
    rewrite <- drop_drop, drop_app_length. apply drop_app_length. }
  destruct (mask_bit_cases f) as [[Em Hn]|[Em Hm]].
  - assert (mask_key f = []) as Ek by (unfold mask_key; by rewrite Hn).
    rewrite Hn in Hgen. rewrite Em. simpl negb. cbv iota. subst u1.
    rewrite <- Ek, Hh. cbn [out_data out_data_length iocb_for]. fold H. setoid_rewrite Hcpy.
    eexists. split; [|simpl; unfold base; repeat f_equal; lia].
    destruct Hom as [[? ?]|Hom]; [congruence|].
    unfold opos. simpl. rewrite Hn, Em, Hom. split_and!; try done; try lia.
  - destruct Hm as [key Hm]. assert (mask_key f = key) as Ek by (unfold mask_key; by rewrite Hm).
    rewrite Hm in Hgen. rewrite Em. simpl negb. cbv iota. rewrite Hgen.
    rewrite <- Ek, Hh. cbn [out_data out_data_length iocb_for]. fold H. setoid_rewrite Hcpy.
    eexists. split; [|simpl; unfold base; repeat f_equal; lia].
    unfold opos. simpl. rewrite Em. split_and!; try done; lia.
Qed.

(** The whole frame is written, whatever the sizes of the partial writes. *)
Lemma send_whole u u1 c junk :
  zlen junk = H -> c.(ostate) = PREP_HEADER -> (is_Some f.(f_mask) \/ c.(omask) = 0) ->
  match f.(f_mask) with
  | None => u1 = u
  | Some key => genmask_callback cb u = (u1, Some key)
  end ->
  exists n u' c',
    send_loop cb n f.(f_fin) f.(f_rsv) f.(f_opcode) (mask_bit f) base (flen f) u c
      (pre ++ junk ++ f_payload f ++ post) 0 = Some (u', c', mem) /\
    sent u' = sent u1 ++ full /\ c'.(ostate) = PREP_HEADER /\ c'.(omask) = mask_bit f.
Proof.
  intros Hj Hst Hom Hgen. pose proof full_len as HL. pose proof (encode_header_len f Hf) as Hhl.
  fold hd H in Hhl. assert (0 <= flen f) by apply zlen_nonneg.
  destruct (first_call u u1 c junk Hj Hst Hom Hgen) as (c1 & Ho & E).
  destruct (send_payload_spec 0 (mkSend u1 c1 (zlen pre) (zlen full) 0))
    as (k' & u' & c' & r & E' & Hk' & Hs & Hb & Hr & Hdone & Hmore); try done; simpl; try lia.
  unfold iocb_for in E. rewrite E' in E. simpl in Hs.
  assert (pay 0 = 0) as Hp0 by (unfold pay; lia). rewrite Hp0, Z.sub_0_r in Hr.
  assert (pay k' <= flen f) by (unfold pay; lia).
  destruct (Z.eq_dec k' (zlen full)) as [->|Hne].
  - exists 1%nat, u', c'. destruct (Hdone eq_refl) as [D1 D2]. rewrite slice_full in Hs.
    split; [|done]. simpl send_loop. rewrite Z.add_0_r, Z.sub_0_r. setoid_rewrite E. simpl.
    assert (pay (zlen full) = flen f) by (unfold pay; lia).
    destruct Hr as [(_ & _ & ?)|[Hr _]]; [lia|].
    destruct (Z.leb_spec 0 r); [|lia].
    destruct (Z.eqb_spec (0 + r) (flen f)); [done|lia].
  - set (n := (budget u' + Z.to_nat (zlen full - k'))%nat).
    destruct (send_loop_spec n k' u' c') as (u2 & c2 & E2 & S2 & D); [apply Hmore; lia|lia|lia|].
    exists (S n), u2, c2. split; [|split; [|done]].
    + simpl send_loop. rewrite Z.add_0_r, Z.sub_0_r. setoid_rewrite E. simpl.
      destruct Hr as [(-> & Hp & _)|[Hr Hh]].
      * simpl. by rewrite Hp in E2.
      * assert (0 <= pay k') by (unfold pay; lia).
        destruct (Z.leb_spec 0 r); [|lia].
        destruct (Z.eqb_spec (0 + r) (flen f)); [unfold pay in *; lia|].
        by rewrite Z.add_0_l, Hr.
    + rewrite S2, Hs, <- app_assoc. f_equal. rewrite slice_join by lia. apply slice_full.
Qed.
End OneFrame.
End SendProof.

(** ** Interfaces of the transport

    What [recv_callback] and [send_callback] promise to the codec when they are backed by a
    stream: delivery in order without loss, and fairness (they do not refuse forever). *)

Class StreamSource {U : Type} (cb : frame_callbacks U) := {
  src_pending : U -> list Z;
  src_budget : U -> nat;
  src_delivers u n u' l :
    recv_callback cb u n = (u', l) -> 0 < n -> src_pending u = l ++ src_pending u' /\ zlen l <= n;
  src_fair u n u' l :
    recv_callback cb u n = (u', l) -> 0 < n -> src_pending u <> [] -> (src_budget u' < src_budget u)%nat }.

Class StreamSink {U : Type} (cb : frame_callbacks U) := {
  sink_sent : U -> list Z;
  sink_budget : U -> nat;
  sink_takes u d u' r :
    send_callback cb u d = (u', r) -> r <= zlen d /\ sink_sent u' = sink_sent u ++ take (Z.to_nat r) d;
  sink_fair u d u' r :
    send_callback cb u d = (u', r) -> d <> [] ->
    if 0 <? r then (sink_budget u' <= sink_budget u)%nat else (sink_budget u' < sink_budget u)%nat }.

(** A scripted transport: [plan] gives the sizes of the next transfers ([0] refuses), after
    which everything is transferred at once. *)
Record script := mkScript { wire : list Z; plan : list Z; out : list Z; key : list Z }.

Definition script_recv (e : script) (n : Z) : script * list Z :=
  let k := match e.(plan) with [] => n | k :: _ => Z.min k n end in
  ({| e with wire := drop (Z.to_nat k) e.(wire); plan := tail e.(plan) |}, take (Z.to_nat k) e.(wire)).
Definition script_send (e : script) (d : list Z) : script * Z :=
  let k := match e.(plan) with [] => zlen d | k :: _ => Z.min k (zlen d) end in
  ({| e with out := e.(out) ++ take (Z.to_nat k) d; plan := tail e.(plan) |}, k).
Definition script_cb : frame_callbacks script :=
  mkCb _ script_recv script_send (fun e => (e, Some e.(key))).

#[export] Program Instance script_source : StreamSource script_cb :=
  {| src_pending := wire; src_budget e := (length e.(plan) + length e.(wire))%nat |}.
Next Obligation.
  intros e n e' l E Hn. injection E as <- <-. simpl. split; [by rewrite take_drop|].
  unfold zlen. rewrite length_take. destruct (plan e); lia.
Qed.
Next Obligation.
  intros e n e' l E Hn Hne. injection E as <- <-. simpl. rewrite length_drop.
  destruct (plan e); simpl; [|lia]. destruct (wire e); [done|]. simpl. lia.
Qed.

#[export] Program Instance script_sink : StreamSink script_cb :=
  {| sink_sent := out; sink_budget e := length e.(plan) |}.
Next Obligation.
  intros e d e' r E. injection E as <- <-. simpl. split; [|done]. destruct (plan e); lia.
Qed.
Next Obligation.
  intros e d e' r E Hd. injection E as <- <-. simpl. destruct (plan e) as [|k p]; simpl.
  - destruct d; [done|]. rewrite zlen_cons. pose proof (zlen_nonneg d).
    destruct (Z.ltb_spec 0 (1 + zlen d)); lia.
  - destruct (0 <? Z.min k (zlen d)); lia.
Qed.

(** ** The properties *)

(** The environment after the masking key was drawn. *)
Definition key_drawn {U} (cb : frame_callbacks U) (f : ws_frame) (u u1 : U) : Prop :=
  match f.(f_mask) with
  | None => u1 = u
  | Some k => genmask_callback cb u = (u1, Some k)
  end.

(** C15. Receiving a frame: whatever the way the transport cuts the byte stream, driving
    [wslay_frame_recv] from a frame boundary over the encoding of a legal frame terminates,
    never touches memory outside of [ibuf], yields exactly the header fields and the unmasked
    payload, and stops at the next frame boundary with the rest of the stream untouched. *)
Theorem frame_recv_correct {U} (cb : frame_callbacks U) `{StreamSource U cb} f rest u c :
  recv_ok f -> in_ok c -> at_frame_start c -> unread c ++ src_pending u = encode f ++ rest ->
  exists n u' c' io, recv_loop cb n (u, c) [] = Some (u', c', io, f_payload f) /\
    in_ok c' /\ at_frame_start c' /\ unread c' ++ src_pending u' = rest /\
    in_fin io = f_fin f /\ in_rsv io = f_rsv f /\ in_opcode io = f_opcode f /\
    in_payload_length io = flen f /\ in_mask io = mask_bit f.
Proof. apply (frame_recv_whole cb src_pending src_budget src_delivers src_fair). Qed.

Definition demo_frame : ws_frame := mkFrame 1 0 1 (Some [17; 34; 51; 68]) (bytes_of_string "hello").

Lemma demo_frame_ok : frame_ok demo_frame.
Proof.
  unfold frame_ok. simpl. split; [by right|]. split; [lia|]. split; [lia|].
  split; [split; [repeat constructor; lia|done]|].
  split; [repeat constructor; lia|]. split; [reflexivity|lia].
Qed.

Lemma frame_recv_correct_witness :
  exists n u' c' io, recv_loop script_cb n
    (mkScript (encode demo_frame ++ [136; 0]) [1; 0; 2; 3] [] [], frame_in_init) []
      = Some (u', c', io, bytes_of_string "hello") /\ unread c' ++ wire u' = [136; 0].
Proof.
  destruct (frame_recv_correct script_cb demo_frame [136; 0]
    (mkScript (encode demo_frame ++ [136; 0]) [1; 0; 2; 3] [] []) frame_in_init)
    as (n & u' & c' & io & E & _ & _ & Hr & _).
  - split; [exact demo_frame_ok|intros; reflexivity].
  - split; [reflexivity|]; split; [simpl; lia|vm_compute; discriminate].
  - split; reflexivity.
  - reflexivity.
  - exists n, u', c', io. split; [exact E|exact Hr].
Defined.

(** Sending a frame: whatever the partial writes and refusals of the transport, driving
    [wslay_frame_send] the way [wslay_event_send] does terminates, writes the header only into
    the reserved bytes in front of the payload, leaves the payload as it is, puts exactly the
    RFC 6455 encoding on the wire, and is ready for the next frame. *)
Theorem frame_send_correct {U} (cb : frame_callbacks U) `{StreamSink U cb} f pre junk post u u1 c :
  frame_ok f -> zlen junk = zlen (encode_header f) -> c.(ostate) = PREP_HEADER ->
  (is_Some f.(f_mask) \/ c.(omask) = 0) -> key_drawn cb f u u1 ->
  exists n u' c',
    send_loop cb n f.(f_fin) f.(f_rsv) f.(f_opcode) (mask_bit f)
      (zlen pre + zlen (encode_header f)) (flen f) u c (pre ++ junk ++ f_payload f ++ post) 0
      = Some (u', c', pre ++ encode_header f ++ f_payload f ++ post) /\
    sink_sent u' = sink_sent u1 ++ encode f /\ c'.(ostate) = PREP_HEADER /\ c'.(omask) = mask_bit f.
Proof. intros Hf. apply (send_whole cb sink_sent sink_budget sink_takes sink_fair f Hf). Qed.

Lemma frame_send_correct_witness :
  exists n u' c' mem, send_loop script_cb n 1 0 1 1 6 5 (mkScript [] [3; 0; 4; 1] [] [17; 34; 51; 68])
      frame_out_init (replicate 6 0 ++ bytes_of_string "hello") 0 = Some (u', c', mem) /\
    out u' = encode demo_frame.
Proof.
  destruct (frame_send_correct script_cb demo_frame [] (replicate 6 0) []
    (mkScript [] [3; 0; 4; 1] [] [17; 34; 51; 68]) (mkScript [] [3; 0; 4; 1] [] [17; 34; 51; 68])
    frame_out_init) as (n & u' & c' & E & Hs & _).
  - exact demo_frame_ok.
  - reflexivity.
  - reflexivity.
  - left. eexists. reflexivity.
  - reflexivity.
  - exists n, u', c'. eexists. split; [exact E|exact Hs].
Defined.

(** C14. Round trip across two endpoints: what one endpoint's [wslay_frame_send] puts on the
    wire is received by the other endpoint's [wslay_frame_recv] as the same frame, for all
    fragmentations on both sides.  The sender masks its frames, or it has never masked one. *)
Theorem frame_roundtrip {U V} (scb : frame_callbacks U) `{StreamSink U scb}
    (rcb : frame_callbacks V) `{StreamSource V rcb} f pre junk u u1 cs :
  recv_ok f -> zlen junk = zlen (encode_header f) -> cs.(ostate) = PREP_HEADER ->
  (is_Some f.(f_mask) \/ cs.(omask) = 0) -> key_drawn scb f u u1 ->
  exists n u' cs' mem w,
    send_loop scb n f.(f_fin) f.(f_rsv) f.(f_opcode) (mask_bit f)
      (zlen pre + zlen (encode_header f)) (flen f) u cs (pre ++ junk ++ f_payload f) 0
      = Some (u', cs', mem) /\ sink_sent u' = sink_sent u1 ++ w /\
    forall v cr rest, in_ok cr -> at_frame_start cr -> unread cr ++ src_pending v = w ++ rest ->
      exists m v' cr' io, recv_loop rcb m (v, cr) [] = Some (v', cr', io, f_payload f) /\
        unread cr' ++ src_pending v' = rest /\ in_fin io = f_fin f /\ in_rsv io = f_rsv f /\
        in_opcode io = f_opcode f /\ in_mask io = mask_bit f.
Proof.
  intros Hf Hj Ho Hm Hk.
  destruct (send_whole scb sink_sent sink_budget sink_takes sink_fair f (proj1 Hf) pre [] u u1 cs junk)
    as (n & u' & cs' & E & Hs & _ & _); try done.
  rewrite !app_nil_r in E. eexists n, u', cs', _, (encode f). split; [exact E|]. split; [done|].
  intros v cr rest H1 H2 H3.
  destruct (frame_recv_whole rcb src_pending src_budget src_delivers src_fair f rest v cr Hf H1 H2 H3)
    as (m & v' & cr' & io & E' & ? & ? & ? & ? & ? & ? & ? & ?).
  exists m, v', cr', io. by split_and!.
Qed.

Lemma frame_roundtrip_witness :
  exists n u' cs' mem w,
    send_loop script_cb n 1 0 1 1 6 5 (mkScript [] [2; 0; 5] [] [17; 34; 51; 68])
      frame_out_init (replicate 6 0 ++ bytes_of_string "hello") 0 = Some (u', cs', mem) /\ out u' = w /\
    forall v, wire v = w -> exists m v' cr' io,
      recv_loop script_cb m (v, frame_in_init) [] = Some (v', cr', io, bytes_of_string "hello").
Proof.
  destruct (frame_roundtrip script_cb script_cb demo_frame [] (replicate 6 0)
    (mkScript [] [2; 0; 5] [] [17; 34; 51; 68]) (mkScript [] [2; 0; 5] [] [17; 34; 51; 68])
    frame_out_init) as (n & u' & cs' & mem & w & E & Hs & Hr).
  - split; [exact demo_frame_ok|intros; reflexivity].
  - reflexivity.
  - reflexivity.
  - left. eexists. reflexivity.
  - reflexivity.
  - exists n, u', cs', mem, w. split; [exact E|]. split; [exact Hs|]. intros v Hv.
    destruct (Hr v frame_in_init []) as (m & v' & cr' & io & E' & _).
    + split; [reflexivity|]; split; [simpl; lia|vm_compute; discriminate].
    + split; reflexivity.
    + rewrite app_nil_r. exact Hv.
    + exists m, v', cr', io. exact E'.
Defined.

(** *** Rejected headers *)

Definition header_ctrl (b0 : Z) : bool := 8 <=? b0 mod 16.

(** The header starts a frame RFC 6455 forbids: a control frame that is long or fragmented, or
    an extended length that is not minimal or has its top bit set. *)
Definition illegal_header (b0 b1 : Z) (ext : list Z) : Prop :=
  if header_ctrl b0 then 125 < b1 mod 128 \/ b0 < 128
  else b1 mod 128 = 126 /\ length ext = 2%nat /\ be_load ext 0 < 126 \/
       b1 mod 128 = 127 /\ length ext = 8%nat /\ (be_load ext 0 < 65536 \/ 2 ^ 63 <= be_load ext 0).

Section Reject.
Context {U : Type} (cb : frame_callbacks U).

Lemma require_bytes_ready u c :
  ireqread c <= WSLAY_AVAIL_IBUF c -> require_bytes cb (u, c) = Some ((u, c), inr tt).
Proof.
  intros Hav. unfold require_bytes, rget, cwhen, mbind, CM_bind, cget, mret, CM_ret. simpl.
  destruct (Z.ltb_spec (WSLAY_AVAIL_IBUF c) (ireqread c)); [lia|]. simpl.
  destruct (Z.ltb_spec (WSLAY_AVAIL_IBUF c) (ireqread c)); [lia|done].
Qed.

(** The fields of the two fixed bytes, arithmetically. *)
Lemma header_fields b0 b1 :
  byte_ok b0 -> byte_ok b1 ->
  Z.land (Z.shiftr b0 7) 1 = b0 / 128 /\ Z.land b0 15 = b0 mod 16 /\ Z.land b1 127 = b1 mod 128 /\
  wslay_is_ctrl_frame (b0 mod 16) = header_ctrl b0.
Proof.
  unfold byte_ok. intros H0 H1.
  destruct (header_b0 (b0 / 128) ((b0 / 16) mod 8) (b0 mod 16)) as (E1 & _ & E3);
    [Z.to_euclidean_division_equations; lia..|].
  replace (b0 / 128 * 128 + (b0 / 16) mod 8 * 16 + b0 mod 16) with b0 in E1, E3
    by (Z.to_euclidean_division_equations; lia).
  split_and!; try done.
  - change 127 with (Z.ones 7). by rewrite Z.land_ones by lia.
  - rewrite ctrl_opcode; [done|]. apply Z.mod_pos_bound. lia.
Qed.

Lemma recv_header1_ready u c b0 b1 r :
  in_ok c -> at_frame_start c -> unread c = b0 :: b1 :: r -> byte_ok b0 -> byte_ok b1 ->
  cwp (recv_header1 cb) (u, c) (fun s' res =>
    if header_ctrl b0 && ((125 <? b1 mod 128) || (b0 / 128 =? 0)) then s'.1 = u /\ res = inl WSLAY_ERR_PROTO
    else b1 mod 128 = 126 \/ b1 mod 128 = 127 ->
      s'.1 = u /\ res = inr tt /\ in_ok s'.2 /\ unread s'.2 = r /\ istate s'.2 = RECV_EXT_PAYLOADLEN /\
      ireqread s'.2 = if b1 mod 128 =? 126 then 2 else 8).
Proof.
  intros Hok [Hst Hreq] Hu H0 H1.
  destruct (unread_two c b0 b1 r Hok Hu) as [Hrd0 Hrd1].
  destruct (unread_prefix c [b0; b1] r Hok Hu) as [_ Hadv]. change (zlen [b0; b1]) with 2 in Hadv.
  destruct (header_fields b0 b1 H0 H1) as (E1 & E2 & E3 & E4).
  pose proof (unread_len c Hok) as Hl. rewrite Hu, !zlen_cons in Hl. pose proof (zlen_nonneg r).
  unfold recv_header1. apply cwp_bind. unfold cwp at 1. rewrite require_bytes_ready by lia.
  apply cwp_bind, cwp_bind, cwp_get, cwp_ret. simpl.
  apply cwp_bind. eapply cwp_lift; [exact Hrd0|]. apply cwp_bind. eapply cwp_lift; [exact Hrd1|].
  rewrite E1, E2, E3, E4. apply cwp_bind, cwp_mod. simpl. apply cwp_bind, cwp_when.
  { intros ->. by apply cwp_return. }
  intros ->. simpl.
  match goal with |- cwp _ (u, ?C) _ => set (c2 := C) end.
  assert (in_ok c2 /\ unread c2 = r) as [Hok2 Hu2] by (apply Hadv; done).
  destruct (Z.eqb_spec (b1 mod 128) 126) as [E|E]; [by apply cwp_mod|].
  destruct (Z.eqb_spec (b1 mod 128) 127) as [E'|E']; [by apply cwp_mod|].
  apply cwp_bind, cwp_mod. destruct (negb _); apply cwp_mod; simpl; intros [?|?]; done.
Qed.

Lemma land_top x : 2 ^ 63 <= x < 2 ^ 64 -> Z.land x 9223372036854775808 <> 0.
Proof.
  intros Hx E. assert (Z.testbit (Z.land x 9223372036854775808) 63 = true) as T; [|by rewrite E in T].
  rewrite Z.land_spec. change 9223372036854775808 with (2 ^ 63). rewrite Z.pow2_bits_true by lia.
  rewrite andb_true_r, Z.testbit_true by lia.
  replace (x / 2 ^ 63) with 1; [done|]. Z.to_euclidean_division_equations. lia.
Qed.

Lemma be_load_bound l acc n : bytes_ok l -> 0 <= acc < n -> be_load l acc < n * 256 ^ zlen l.
Proof.
  intros Hl. revert acc n. induction Hl as [|b l Hb Hl IH]; intros acc n Ha; simpl; [rewrite zlen_nil; lia|].
  unfold byte_ok in Hb. specialize (IH (acc * 256 + b) (n * 256)). rewrite zlen_cons.
  rewrite Z.pow_add_r by (try apply zlen_nonneg; lia). lia.
Qed.

Lemma be_load_nonneg l acc : bytes_ok l -> 0 <= acc -> 0 <= be_load l acc.
Proof.
  intros Hl. revert acc. induction Hl as [|b l Hb Hl IH]; intros acc Ha; simpl; [done|].
  unfold byte_ok in Hb. apply IH. lia.
Qed.

(** C35. The header of a control frame that is fragmented or announces more than 125 bytes, and the header of any other frame whose
    length is not in its shortest form or has the highest bit set, is answered with [WSLAY_ERR_PROTO] as soon as it is in the buffer,
    without reading from the transport.  (Reserved opcodes, reserved bits and the direction of masking are checked by the message
    layer.) *)
Theorem frame_recv_rejects u c b0 b1 ext tl :
  in_ok c -> at_frame_start c -> unread c = b0 :: b1 :: ext ++ tl ->
  byte_ok b0 -> byte_ok b1 -> bytes_ok ext -> illegal_header b0 b1 ext ->
  exists c', wslay_frame_recv cb (u, c) = Some ((u, c'), inl WSLAY_ERR_PROTO).
Proof.
  intros Hok Hfs Hu H0 H1 Hext Hill. pose proof Hfs as [Hst Hreq].
  assert (cwp (wslay_frame_recv cb) (u, c) (fun s' r => s'.1 = u /\ r = inl WSLAY_ERR_PROTO)) as Hw;
    [|destruct (cwp_Some _ _ _ Hw) as ([u' c'] & r & E & Eu & Er); simpl in *; subst; eauto].
  unfold wslay_frame_recv. apply cwp_bind, cwp_bind, cwp_get, cwp_ret. simpl. rewrite Hst.
  apply cwp_bind, cwp_when; [intros _|done].
  eapply cwp_mono; [by eapply recv_header1_ready|]. unfold illegal_header in Hill.
  unfold byte_ok in H0. destruct (header_ctrl b0); simpl.
  { intros [u1 c1] r. destruct (Z.ltb_spec 125 (b1 mod 128)), (Z.eqb_spec (b0 / 128) 0); simpl;
      try (intros [-> ->]; done). exfalso. Z.to_euclidean_division_equations. lia. }
  assert (b1 mod 128 = 126 \/ b1 mod 128 = 127) as Hb by tauto.
  intros [u1 c1] r Hpost. destruct (Hpost Hb) as (Eu & -> & Hok1 & Hu1 & Hst1 & Hreq1); simpl in *. subst u1.
  apply cwp_bind, cwp_bind, cwp_get, cwp_ret. simpl. rewrite Hst1.
  apply cwp_bind, cwp_when; [intros _|done].
  assert (zlen ext = ireqread c1) as Hzl.
  { rewrite Hreq1. unfold zlen. destruct Hill as [(-> & -> & _)|(-> & -> & _)]; done. }
  pose proof (unread_len c1 Hok1) as Hl. rewrite Hu1, zlen_app in Hl. pose proof (zlen_nonneg tl).
  destruct (unread_prefix c1 ext tl Hok1 Hu1) as [Hsl _].
  unfold recv_ext_payloadlen. apply cwp_bind. unfold cwp at 1. rewrite require_bytes_ready by lia.
  apply cwp_bind, cwp_bind, cwp_get, cwp_ret. simpl. rewrite <- Hzl, Hsl.
  assert (0 <= 8 - zlen ext) by (rewrite Hzl, Hreq1; destruct (b1 mod 128 =? 126); lia).
  rewrite byteswap_be, be_load_zeros.
  2:{ apply Forall_app. split; [apply Forall_replicate; split; lia|done]. }
  2:{ rewrite length_app, length_replicate. unfold zlen in *. lia. }
  apply cwp_bind, cwp_mod. simpl. apply cwp_bind, cwp_when; [intros _; by apply cwp_return|].
  intros Hno. exfalso. revert Hno.
  destruct Hill as [(E & Hle & Hlt)|(E & Hle & Hlt)]; unfold zlen; rewrite Hle; simpl.
  - destruct (Z.ltb_spec (be_load ext 0) 126); [done|lia].
  - destruct (Z.ltb_spec (be_load ext 0) 65536); [done|]. simpl. destruct Hlt as [?|Hge]; [lia|].
    pose proof (be_load_bound ext 0 1 Hext) as Hb1. unfold zlen in Hb1. rewrite Hle in Hb1.
    assert (Z.land (be_load ext 0) 9223372036854775808 <> 0) as Hn
      by (apply land_top; change (1 * 256 ^ Z.of_nat 8) with (2 ^ 64) in Hb1; lia).
    by destruct (Z.eqb_spec (Z.land (be_load ext 0) 9223372036854775808) 0).
Qed.
End Reject.

(** A fragmented ping in the buffer. *)
Lemma frame_recv_rejects_witness :
  exists c', wslay_frame_recv script_cb
    (mkScript [] [] [] [], {| frame_in_init with ibuf := [9; 0] ++ replicate 4094 0; ibuflimit := 2 |})
    = Some ((mkScript [] [] [] [], c'), inl WSLAY_ERR_PROTO).
Proof.
  apply (frame_recv_rejects script_cb _ _ 9 0 [] []).
  - split; [reflexivity|]. split; [simpl; lia|vm_compute; discriminate].
  - split; reflexivity.
  - reflexivity.
  - split; [discriminate|reflexivity].
  - split; [discriminate|reflexivity].
  - constructor.
  - right. reflexivity.
Defined.

(** [wslay_frame_send] refuses what it cannot encode (a control frame of more than 125
    bytes, a length of [2^63] or more) with [WSLAY_ERR_INVALID_ARGUMENT] and a failing mask
    generator with [WSLAY_ERR_INVALID_CALLBACK], in both cases before a byte is written to
    memory or to the transport and with the context as it was. *)
Theorem frame_send_rejects {U} (cb : frame_callbacks U) u c mem io :
  c.(ostate) = PREP_HEADER ->
  0 <= io.(out_opcode) < 16 -> 0 <= io.(out_payload_length) ->
  (8 <= io.(out_opcode) /\ 125 < io.(out_payload_length) \/ 2 ^ 63 <= io.(out_payload_length) ->
   wslay_frame_send cb u c mem io = Some (u, c, mem, WSLAY_ERR_INVALID_ARGUMENT)) /\
  (forall u', ~ (8 <= io.(out_opcode) /\ 125 < io.(out_payload_length) \/ 2 ^ 63 <= io.(out_payload_length)) ->
   io.(out_mask) <> 0 -> genmask_callback cb u = (u', None) ->
   wslay_frame_send cb u c mem io = Some (u', c, mem, WSLAY_ERR_INVALID_CALLBACK)).
Proof.
  intros Hst Hop Hlen. unfold wslay_frame_send. rewrite Hst, bool_decide_true by done.
  unfold prep_header. rewrite ctrl_opcode by done. split.
  - intros Hbad. destruct (Z.leb_spec 8 (out_opcode io)), (Z.ltb_spec 125 (out_payload_length io));
      simpl; try done;
      (destruct (Z.ltb_spec (out_payload_length io) 126); [lia|];
       destruct (Z.ltb_spec (out_payload_length io) 65536); [lia|];
       destruct (Z.ltb_spec (out_payload_length io) 9223372036854775808); [lia|done]).
  - intros u' Hgood Hm Hg. rewrite (proj2 (Z.eqb_neq _ _) Hm). simpl. rewrite Hg.
    destruct (Z.leb_spec 8 (out_opcode io)), (Z.ltb_spec 125 (out_payload_length io)); simpl; try lia;
      (destruct (out_payload_length io <? 126); [done|];
       destruct (out_payload_length io <? 65536); [done|];
       destruct (Z.ltb_spec (out_payload_length io) 9223372036854775808); [done|lia]).
Qed.

Lemma frame_send_rejects_witness :
  wslay_frame_send script_cb (mkScript [] [] [] []) frame_out_init [] (mkIocbOut 1 0 9 126 0 0 126)
  = Some (mkScript [] [] [] [], frame_out_init, [], WSLAY_ERR_INVALID_ARGUMENT).
Proof.
  apply (frame_send_rejects script_cb (mkScript [] [] [] []) frame_out_init [] (mkIocbOut 1 0 9 126 0 0 126)).
  - reflexivity.
  - simpl. lia.
  - simpl. lia.
  - left. simpl. lia.
Defined.

(** [ctx->omask] is set by a masked frame and never cleared: the payload of an unmasked frame
    sent later on the same context is XOR-ed with the old key although its header says it is not
    masked.  (A server never masks and a client always does, so neither mixes them.) *)
Example unmasked_after_masked :
  let u := mkScript [] [] [] [255; 255; 255; 255] in
  option_map (fun r => out r.1.1.1)
    ('(u, c, _, _) ← wslay_frame_send script_cb u frame_out_init (replicate 6 0) (mkIocbOut 1 0 1 0 1 6 0);
     wslay_frame_send script_cb u c (replicate 2 0 ++ [65]) (mkIocbOut 1 0 1 1 0 2 1))
  = Some [129; 128; 255; 255; 255; 255; 129; 1; 190].
Proof. vm_compute. reflexivity. Qed.
