(* ===== verification/FrameSafe.v ===== *)
(** * FrameSafe: memory safety of [wslay_frame_recv] on arbitrary input

    [Frame.v] says what the decoder does on legal frames; here the peer may send anything.  The
    invariant [fin_ok] of the receiving context is preserved by every call, no call touches
    memory outside of [ibuf], and what a call hands out stays inside of the announced length. *)
From S2P Require Import Prelude Frame.

(** Payload bytes handed out so far of the frame being received. *)
Definition mid_frame (c : frame_in) : bool :=
  bool_decide (c.(istate) = RECV_PAYLOAD) && (0 <? c.(ipayloadoff)).

Definition fin_ok (c : frame_in) : Prop :=
  in_ok c /\ bytes_ok c.(ibuf) /\ bytes_ok c.(imaskkey) /\ (c.(imask) = 0 \/ c.(imask) = 1) /\
  0 <= c.(iom_opcode) < 16 /\
  (c.(istate) <> RECV_HEADER1 -> wslay_is_ctrl_frame c.(iom_opcode) = true -> c.(iom_fin) = 1) /\
  match c.(istate) with
  | RECV_HEADER1 => c.(ireqread) = 2
  | RECV_EXT_PAYLOADLEN => c.(ireqread) = 2 \/ c.(ireqread) = 8
  | RECV_MASKKEY => c.(ireqread) = 4 /\ 0 <= c.(ipayloadlen) < 2 ^ 63 /\ c.(ipayloadoff) = 0
  | RECV_PAYLOAD => 0 <= c.(ipayloadoff) <= c.(ipayloadlen) /\ c.(ipayloadlen) < 2 ^ 63 /\
      (c.(ipayloadoff) = c.(ipayloadlen) -> c.(ipayloadoff) = 0)
  | _ => False
  end.

Lemma fin_init_ok : fin_ok frame_in_init.
Proof.
  assert (forall n, bytes_ok (replicate n 0)) as R by (intros; apply Forall_replicate; split; lia).
  unfold fin_ok, in_ok, frame_in_init. cbn [ibuf ibufmark ibuflimit imaskkey imask iom_opcode istate ireqread].
  split; [split; [reflexivity|]; unfold IBUF_SIZE; lia|]. split; [apply R|]. split; [apply (R 4%nat)|].
  split; [by left|]. split; [lia|]. by split.
Qed.

Section Safe.
Context {U : Type} (cb : frame_callbacks U).

(** The transport delivers bytes, at most as many as asked for; [deliveries u] bounds how often
    it delivers before it has nothing more for now. *)
Context (deliveries : U -> nat).
Hypothesis recv_bytes : forall u n u' l, recv_callback cb u n = (u', l) -> 0 < n ->
  bytes_ok l /\ zlen l <= n.
Hypothesis recv_finite : forall u n u' l, recv_callback cb u n = (u', l) ->
  match l with [] => (deliveries u' <= deliveries u)%nat | _ => (deliveries u' < deliveries u)%nat end.

(** What is left to do: buffered bytes, and a buffer-full for every delivery to come. *)
Definition work (s : U * frame_in) : Z := 4096 * Z.of_nat (deliveries s.1) + WSLAY_AVAIL_IBUF s.2.

Lemma work_nonneg u c : in_ok c -> 0 <= work (u, c).
Proof. intros (? & ? & ?). unfold work, WSLAY_AVAIL_IBUF. simpl. lia. Qed.

(** [c'] is [c] with other contents of the buffer, still bytes. *)
Definition buf_only (c c' : frame_in) : Prop := in_ok c' /\ bytes_ok c'.(ibuf) /\ same_but_buf c c'.

Lemma shift_ibuf_safe c : in_ok c -> bytes_ok c.(ibuf) ->
  buf_only c (wslay_shift_ibuf c) /\ ibufmark (wslay_shift_ibuf c) = 0 /\
  WSLAY_AVAIL_IBUF (wslay_shift_ibuf c) = WSLAY_AVAIL_IBUF c.
Proof.
  intros Hok Hb. destruct (shift_ibuf_ok c Hok) as (Hok' & _ & Hs & Hm). split; [|split; [done|]].
  - split_and!; [done| |done]. simpl. apply Forall_app. split; [by apply slice_bytes|by apply Forall_drop].
  - unfold WSLAY_AVAIL_IBUF. simpl. lia.
Qed.

Lemma wslay_recv_safe u c :
  in_ok c -> bytes_ok c.(ibuf) -> WSLAY_AVAIL_IBUF c < IBUF_SIZE ->
  cwp (wslay_recv cb) (u, c) (fun s' r =>
    buf_only c s'.2 /\ work s' <= work (u, c) /\
    match r with
    | inl e => e = WSLAY_ERR_WANT_READ
    | inr _ => WSLAY_AVAIL_IBUF c < WSLAY_AVAIL_IBUF s'.2
    end).
Proof.
  intros Hok Hb Hav. unfold wslay_recv. apply cwp_bind, cwp_bind, cwp_get, cwp_ret. simpl.
  (* in front of the callback the buffer starts at offset 0 *)
  apply cwp_bind.
  assert (cwp (cwhen (negb (ibufmark c =? 0)) (rmod wslay_shift_ibuf)) (u, c) (fun s' (r : Z + unit) =>
    exists c1, s' = (u, c1) /\ r = inr tt /\ buf_only c c1 /\ ibufmark c1 = 0 /\
      WSLAY_AVAIL_IBUF c1 = WSLAY_AVAIL_IBUF c)) as Hshift.
  { apply cwp_when.
    - intros _. apply cwp_mod. destruct (shift_ibuf_safe c Hok Hb) as (? & ? & ?). by eexists.
    - intros E%negb_false_iff%Z.eqb_eq. eexists. split_and!; try done; by destruct c. }
  eapply cwp_mono; [exact Hshift|]. clear Hshift.
  intros s' r (c1 & -> & -> & (Hok1 & Hb1 & Hs1) & Hm1 & Ha1).
  apply cwp_bind, cwp_get. simpl. pose proof Hok1 as (L1 & L2 & L3).
  assert (0 < IBUF_SIZE - ibuflimit c1) as Hroom by (unfold WSLAY_AVAIL_IBUF in *; lia).
  destruct (recv_callback cb u (IBUF_SIZE - ibuflimit c1)) as [u' l] eqn:E.
  destruct (recv_bytes _ _ _ _ E Hroom) as [Hlb Hl]. pose proof (recv_finite _ _ _ _ E) as Hd.
  apply cwp_bind, cwp_mod. simpl. destruct l as [|b l].
  - apply cwp_return. simpl. split_and!; try done. unfold work. simpl. lia.
  - destruct (memcpy_fits (ibuf c1) (ibuflimit c1) (b :: l)) as [buf Hbuf]; [lia..|].
    apply cwp_bind. eapply cwp_lift; [done|]. apply cwp_mod. simpl.
    destruct (recv_append_ok c1 (b :: l) buf Hok1 Hl Hbuf _ eq_refl) as (Hok2 & _ & Hs2).
    pose proof (zlen_nonneg l) as Hl0. split; [|split].
    + split; [exact Hok2|]. split; [simpl; exact (memcpy_bytes _ _ _ _ Hb1 Hlb Hbuf)|].
      unfold same_but_buf in *. rewrite Hs1. done.
    + rewrite zlen_cons in *. unfold work, WSLAY_AVAIL_IBUF, IBUF_SIZE in *. simpl in *. lia.
    + rewrite zlen_cons in *. unfold WSLAY_AVAIL_IBUF in *. simpl. lia.
Qed.

Lemma require_bytes_safe u c :
  in_ok c -> bytes_ok c.(ibuf) -> 0 < ireqread c <= IBUF_SIZE ->
  cwp (require_bytes cb) (u, c) (fun s' r =>
    buf_only c s'.2 /\ work s' <= work (u, c) /\
    match r with
    | inl e => e = WSLAY_ERR_WANT_READ
    | inr _ => ireqread c <= WSLAY_AVAIL_IBUF s'.2
    end).
Proof.
  intros Hok Hb Hreq. unfold require_bytes. apply cwp_bind, cwp_bind, cwp_get, cwp_ret. simpl.
  apply cwp_bind, cwp_when.
  - intros Hlt%Z.ltb_lt. eapply cwp_mono; [apply wslay_recv_safe; [done|done|lia]|].
    intros [u' c'] [e|[]] (Hok' & Hw & Hr); simpl in *; [done|].
    apply cwp_bind, cwp_bind, cwp_get, cwp_ret. simpl.
    assert (ireqread c' = ireqread c) as Er by (destruct Hok' as (_ & _ & ->); done). rewrite Er.
    apply cwp_when; [intros _; by apply cwp_return|]. by intros Hge%Z.ltb_ge.
  - intros Hge%Z.ltb_ge. apply cwp_bind, cwp_bind, cwp_get, cwp_ret. simpl.
    apply cwp_when; [intros Hlt%Z.ltb_lt; lia|]. intros _. simpl. split_and!; try done. by destruct c.
Qed.

(** What a header stage leaves: a legal context that is not in the middle of a payload. *)
Definition stage_safe (u : U) (c : frame_in) (s' : U * frame_in) (r : Z + unit) : Prop :=
  fin_ok s'.2 /\ mid_frame s'.2 = false /\
  match r with
  | inl e => work s' <= work (u, c) /\ e < 0 /\ s'.2.(istate) <> RECV_PAYLOAD
  | inr _ => work s' < work (u, c)
  end.

(** Between two calls a payload state has payload left. *)
Definition resting (c : frame_in) : Prop := c.(istate) = RECV_PAYLOAD -> c.(ipayloadoff) < c.(ipayloadlen).

Lemma fin_ok_buf c c' : fin_ok c -> buf_only c c' -> fin_ok c' /\ mid_frame c' = mid_frame c.
Proof.
  intros (_ & _ & H) (Hok & Hb & Hs). unfold fin_ok, mid_frame. rewrite Hs.
  cbn [ibuf imaskkey imask iom_fin iom_opcode istate ireqread ipayloadlen ipayloadoff]. done.
Qed.

Lemma land_bit x : Z.land x 1 = 0 \/ Z.land x 1 = 1.
Proof.
  assert (Z.land x 1 = x mod 2) as -> by (change 1 with (Z.ones 1); by rewrite Z.land_ones).
  pose proof (Z.mod_pos_bound x 2). lia.
Qed.
Lemma land_ones_range x n m : 0 <= n -> m = Z.ones n -> 0 <= Z.land x m < 2 ^ n.
Proof. intros Hn ->. rewrite Z.land_ones by lia. apply Z.mod_pos_bound. lia. Qed.

(** Consuming [n] buffered bytes. *)
Lemma consume_ok c c' n :
  in_ok c -> 0 <= n <= WSLAY_AVAIL_IBUF c -> c'.(ibuf) = c.(ibuf) -> c'.(ibuflimit) = c.(ibuflimit) ->
  c'.(ibufmark) = c.(ibufmark) + n -> in_ok c' /\ WSLAY_AVAIL_IBUF c' = WSLAY_AVAIL_IBUF c - n.
Proof.
  intros (? & ? & ?) Hn E1 E2 E3. unfold in_ok, WSLAY_AVAIL_IBUF in *. rewrite E1, E2, E3. lia.
Qed.

Lemma rd_in_buf c i : in_ok c -> c.(ibufmark) <= i < c.(ibuflimit) -> exists b, rd c.(ibuf) i = Some b.
Proof.
  intros (H1 & H2 & H3) Hi. unfold rd. destruct (Z.ltb_spec i 0); [lia|].
  destruct (lookup_lt_is_Some_2 (ibuf c) (Z.to_nat i)) as [b Hb]; [unfold zlen in *; lia|]. eauto.
Qed.

Lemma recv_header1_safe u c :
  fin_ok c -> c.(istate) = RECV_HEADER1 -> cwp (recv_header1 cb) (u, c) (stage_safe u c).
Proof.
  intros Hf Hst. pose proof Hf as (Hok & Hb & Hk & Him & Hop & Hfin1 & Hreq). rewrite Hst in Hreq.
  unfold recv_header1. apply cwp_bind. eapply cwp_mono; [apply require_bytes_safe; try done|].
  { unfold IBUF_SIZE. lia. }
  intros [u1 c1] [e|[]] (Hbo & Hw & Hr); simpl in Hbo, Hr.
  { destruct (fin_ok_buf c c1 Hf Hbo) as [Hf1 Hm1]. subst e. split_and!; [done| |done|done|].
    - simpl. rewrite Hm1. unfold mid_frame. by rewrite Hst.
    - destruct Hbo as (_ & _ & Hs1). simpl. rewrite Hs1. simpl. by rewrite Hst. }
  rewrite Hreq in Hr. apply cwp_bind, cwp_bind, cwp_get, cwp_ret. simpl.
  destruct Hbo as (Hok1 & Hb1 & Hs1).
  assert (bytes_ok (imaskkey c1)) as Hk1 by (by rewrite Hs1).
  assert (istate c1 = RECV_HEADER1 /\ ireqread c1 = 2) as [Hst1 Hreq1] by (by rewrite Hs1).
  destruct (rd_in_buf c1 (ibufmark c1)) as [b0 E0]; [done|unfold WSLAY_AVAIL_IBUF in Hr; lia|].
  destruct (rd_in_buf c1 (ibufmark c1 + 1)) as [b1 E1]; [done|unfold WSLAY_AVAIL_IBUF in Hr; lia|].
  apply cwp_bind. eapply cwp_lift; [exact E0|]. apply cwp_bind. eapply cwp_lift; [exact E1|].
  apply cwp_bind, cwp_mod. simpl.
  match goal with |- cwp _ (u1, ?C) _ => set (c2 := C) end.
  destruct (consume_ok c1 c2 2) as [Hok2 Hav2]; try done.
  assert (work (u1, c2) < work (u, c)) as Hw2
    by (unfold work in *; cbn [fst snd] in *; rewrite Hav2; lia).
  pose proof (land_bit (Z.shiftr b1 7)) as Hmb.
  pose proof (land_ones_range b0 4 15 ltac:(lia) eq_refl) as Hop2.
  pose proof (land_ones_range b1 7 127 ltac:(lia) eq_refl) as Hpl.
  assert (forall st rq pl po,
    (st <> RECV_HEADER1 -> wslay_is_ctrl_frame (Z.land b0 15) = true -> Z.land (Z.shiftr b0 7) 1 = 1) ->
    (match st with
     | RECV_HEADER1 => rq = 2
     | RECV_EXT_PAYLOADLEN => rq = 2 \/ rq = 8
     | RECV_MASKKEY => rq = 4 /\ 0 <= pl < 2 ^ 63 /\ po = 0
     | RECV_PAYLOAD => 0 <= po <= pl /\ pl < 2 ^ 63 /\ (po = pl -> po = 0)
     | _ => False
     end) ->
    fin_ok {| c2 with istate := st; ireqread := rq; ipayloadlen := pl; ipayloadoff := po |}) as Hfin.
  { intros st rq pl po H1 H. split; [exact Hok2|]. split; [exact Hb1|]. split; [exact Hk1|].
    split; [exact Hmb|]. split; [exact Hop2|]. split; [exact H1|exact H]. }
  apply cwp_bind, cwp_when.
  { intros _. apply cwp_return. split_and!; simpl.
    - apply (Hfin (istate c1) (ireqread c1) (ipayloadlen c1) (ipayloadoff c1)); by rewrite Hst1.
    - unfold mid_frame. simpl. by rewrite Hst1.
    - lia.
    - done.
    - by rewrite Hst1. }
  intros Hchk. simpl.
  assert (forall st : wslay_frame_state, st <> RECV_HEADER1 ->
    wslay_is_ctrl_frame (Z.land b0 15) = true -> Z.land (Z.shiftr b0 7) 1 = 1) as Hctl.
  { intros _ _ Hc. rewrite Hc in Hchk. simpl in Hchk. apply orb_false_iff in Hchk as [_ Hz%Z.eqb_neq].
    pose proof (land_bit (Z.shiftr b0 7)). lia. }
  destruct (Z.land b1 127 =? 126).
  { apply cwp_mod. split_and!; simpl; [|done|exact Hw2].
    apply (Hfin RECV_EXT_PAYLOADLEN 2 (ipayloadlen c1) (ipayloadoff c1)); [apply Hctl|by left]. }
  destruct (Z.land b1 127 =? 127).
  { apply cwp_mod. split_and!; simpl; [|done|exact Hw2].
    apply (Hfin RECV_EXT_PAYLOADLEN 8 (ipayloadlen c1) (ipayloadoff c1)); [apply Hctl|by right]. }
  apply cwp_bind, cwp_mod. simpl. destruct (negb _); apply cwp_mod; split_and!; simpl; try done.
  - apply (Hfin RECV_MASKKEY 4 (Z.land b1 127) 0); [apply Hctl|lia].
  - apply (Hfin RECV_PAYLOAD (ireqread c1) (Z.land b1 127) 0); [apply Hctl|lia].
Qed.

Lemma recv_ext_payloadlen_safe u c :
  fin_ok c -> c.(istate) = RECV_EXT_PAYLOADLEN -> cwp (recv_ext_payloadlen cb) (u, c) (stage_safe u c).
Proof.
  intros Hf Hst. pose proof Hf as (Hok & Hb & Hk & Him & Hop & Hfin1 & Hreq). rewrite Hst in Hreq.
  unfold recv_ext_payloadlen. apply cwp_bind. eapply cwp_mono; [apply require_bytes_safe; try done|].
  { unfold IBUF_SIZE. lia. }
  intros [u1 c1] [e|[]] (Hbo & Hw & Hr); simpl in Hbo, Hr.
  { destruct (fin_ok_buf c c1 Hf Hbo) as [Hf1 Hm1]. subst e. split_and!; [done| |done|done|].
    - simpl. rewrite Hm1. unfold mid_frame. by rewrite Hst.
    - destruct Hbo as (_ & _ & Hs1). simpl. rewrite Hs1. simpl. by rewrite Hst. }
  apply cwp_bind, cwp_bind, cwp_get, cwp_ret. simpl.
  destruct Hbo as (Hok1 & Hb1 & Hs1).
  assert (bytes_ok (imaskkey c1)) as Hk1 by (by rewrite Hs1).
  assert (istate c1 = RECV_EXT_PAYLOADLEN /\ ireqread c1 = ireqread c /\ imask c1 = imask c /\
    iom_opcode c1 = iom_opcode c /\ iom_fin c1 = iom_fin c) as (Hst1 & Hreq1 & Him1 & Hop1 & Hfn1)
    by (by rewrite Hs1).
  assert (wslay_is_ctrl_frame (iom_opcode c) = true -> iom_fin c = 1) as Hfin2
    by (apply Hfin1; by rewrite Hst).
  rewrite Hreq1, Him1. set (n := ireqread c) in *.
  set (ext := slice (ibuf c1) (ibufmark c1) (ibufmark c1 + n)).
  assert (bytes_ok ext) as Hext by (by apply slice_bytes).
  assert (zlen ext = n) as Hxl.
  { pose proof Hok1 as (? & ? & ?). unfold ext, WSLAY_AVAIL_IBUF in *. rewrite slice_length; lia. }
  rewrite byteswap_be, be_load_zeros.
  2:{ apply Forall_app. split; [apply Forall_replicate; split; lia|done]. }
  2:{ rewrite length_app, length_replicate. unfold zlen in *. lia. }
  set (len := be_load ext 0).
  assert (0 <= len < 256 ^ n) as Hlen.
  { split; [apply be_load_nonneg; [done|lia]|]. rewrite <- Hxl.
    pose proof (be_load_bound ext 0 1 Hext). lia. }
  apply cwp_bind, cwp_mod. simpl.
  match goal with |- cwp _ (u1, ?C) _ => set (c2 := C) end.
  destruct (consume_ok c1 c2 n) as [Hok2 Hav2]; try done; [lia|unfold c2; simpl; lia|].
  assert (work (u1, c2) < work (u, c)) as Hw2
    by (unfold work in *; cbn [fst snd] in *; rewrite Hav2; lia).
  apply cwp_bind, cwp_when.
  { intros _. apply cwp_return. split_and!; simpl; [|unfold mid_frame; simpl; by rewrite Hst1|lia|done|by rewrite Hst1].
    split; [exact Hok2|]. split; [exact Hb1|]. split; [exact Hk1|]. simpl. rewrite Him1, Hop1, Hfn1, Hst1, Hreq1.
    split; [done|]. split; [done|]. by split. }
  intros Hchk. assert (len < 2 ^ 63) as Hl63.
  { destruct Hreq as [Hn|Hn]; rewrite Hn in Hlen, Hchk; [change (256 ^ 2) with 65536 in Hlen; lia|].
    change (256 ^ 8) with (2 ^ 64) in Hlen. simpl in Hchk. apply orb_false_iff in Hchk as [_ Hchk].
    apply negb_false_iff, Z.eqb_eq in Hchk. destruct (Z.lt_ge_cases len (2 ^ 63)); [done|].
    exfalso. apply (land_top len); [lia|done]. }
  simpl. destruct (negb (imask c =? 0)); apply cwp_mod; split_and!; simpl; try done;
    (split; [exact Hok2|]); (split; [exact Hb1|]); (split; [exact Hk1|]); simpl; rewrite Him1, Hop1, Hfn1;
    split_and!; try done; lia.
Qed.

Lemma recv_maskkey_safe u c :
  fin_ok c -> c.(istate) = RECV_MASKKEY -> cwp (recv_maskkey cb) (u, c) (stage_safe u c).
Proof.
  intros Hf Hst. pose proof Hf as (Hok & Hb & Hk & Him & Hop & Hfin1 & Hreq). rewrite Hst in Hreq.
  destruct Hreq as (Hreq & Hpl & Hpo). unfold recv_maskkey. apply cwp_bind.
  eapply cwp_mono; [apply require_bytes_safe; try done|].
  { unfold IBUF_SIZE. lia. }
  intros [u1 c1] [e|[]] (Hbo & Hw & Hr); simpl in Hbo, Hr.
  { destruct (fin_ok_buf c c1 Hf Hbo) as [Hf1 Hm1]. subst e. split_and!; [done| |done|done|].
    - simpl. rewrite Hm1. unfold mid_frame. by rewrite Hst.
    - destruct Hbo as (_ & _ & Hs1). simpl. rewrite Hs1. simpl. by rewrite Hst. }
  rewrite Hreq in Hr. destruct Hbo as (Hok1 & Hb1 & Hs1). apply cwp_mod. simpl.
  match goal with |- stage_safe _ _ (_, ?C) _ => set (c2 := C) end.
  destruct (consume_ok c1 c2 4) as [Hok2 Hav2]; try done.
  assert (ipayloadlen c1 = ipayloadlen c /\ ipayloadoff c1 = 0 /\ imask c1 = imask c /\
    iom_opcode c1 = iom_opcode c /\ iom_fin c1 = iom_fin c) as (E1 & E2 & E3 & E4 & E5) by (rewrite Hs1; done).
  split_and!.
  - split; [exact Hok2|]. split; [exact Hb1|]. split; [by apply slice_bytes|]. simpl.
    rewrite E1, E2, E3, E4, E5. split; [done|]. split; [done|].
    split; [intros _; apply Hfin1; by rewrite Hst|]. split_and!; try done; lia.
  - unfold mid_frame. simpl. by rewrite E2.
  - unfold work in *. cbn [fst snd] in *. rewrite Hav2. lia.
Qed.

(** What a successful call hands out, and where it leaves the receiver. *)
Definition safe_chunk (c : frame_in) (s' : U * frame_in) (io : iocb_in) : Prop :=
  let off := if mid_frame c then c.(ipayloadoff) else 0 in
  bytes_ok io.(in_data) /\ 0 <= io.(in_payload_length) < 2 ^ 63 /\
  off + zlen io.(in_data) <= io.(in_payload_length) /\
  (io.(in_data) = [] -> io.(in_payload_length) = 0) /\
  (mid_frame c = true -> io.(in_payload_length) = c.(ipayloadlen) /\ io.(in_opcode) = c.(iom_opcode)) /\
  0 <= io.(in_opcode) < 16 /\ (wslay_is_ctrl_frame io.(in_opcode) = true -> io.(in_fin) = 1) /\
  if off + zlen io.(in_data) =? io.(in_payload_length) then mid_frame s'.2 = false
  else mid_frame s'.2 = true /\ s'.2.(ipayloadoff) = off + zlen io.(in_data) /\
       s'.2.(ipayloadlen) = io.(in_payload_length) /\ s'.2.(iom_opcode) = io.(in_opcode).

Lemma unmask_loop_safe c n :
  in_ok c -> bytes_ok c.(ibuf) -> bytes_ok c.(imaskkey) -> 0 <= n <= WSLAY_AVAIL_IBUF c ->
  exists buf, unmask_loop (Z.to_nat n) c.(imaskkey) c.(ibuf) c.(ibufmark) c.(ipayloadoff)
    = Some (buf, c.(ibufmark) + n, c.(ipayloadoff) + n) /\ bytes_ok buf /\ zlen buf = zlen c.(ibuf).
Proof.
  intros (H1 & H2 & H3) Hb Hk Hn. unfold WSLAY_AVAIL_IBUF in Hn.
  destruct (slice_split (ibuf c) (ibufmark c) (ibufmark c + n)) as (pre & post & E & Hpre & Hpost); [lia..|].
  set (seg := slice (ibuf c) _ _) in E. assert (zlen seg = n) as Hsl by (unfold seg; rewrite slice_length; lia).
  exists (pre ++ mask_from (imaskkey c) (ipayloadoff c) seg ++ post). split.
  - rewrite E at 1. rewrite <- Hpre. replace (Z.to_nat n) with (length seg) by (unfold zlen in Hsl; lia).
    rewrite unmask_loop_spec. by rewrite Hsl.
  - rewrite E in Hb. apply Forall_app in Hb as [? Hb]. apply Forall_app in Hb as [? ?]. split.
    + apply Forall_app; split; [done|]. apply Forall_app; split; [by apply mask_from_ok|done].
    + rewrite E. rewrite !zlen_app, mask_from_zlen. done.
Qed.

Lemma hand_out_safe u0 c0 u c :
  fin_ok c -> c.(istate) = RECV_PAYLOAD -> mid_frame c0 = mid_frame c ->
  (mid_frame c = true -> c0.(ipayloadlen) = c.(ipayloadlen) /\ c0.(ipayloadoff) = c.(ipayloadoff) /\
     c0.(iom_opcode) = c.(iom_opcode)) ->
  (0 < WSLAY_AVAIL_IBUF c \/ c.(ipayloadoff) = c.(ipayloadlen)) ->
  (0 < c.(ipayloadlen) \/ work (u, c) < work (u0, c0)) -> work (u, c) <= work (u0, c0) ->
  cwp (hand_out (U:=U) (c.(ipayloadlen) - c.(ipayloadoff))) (u, c) (fun s' r =>
    match r with
    | inl _ => False
    | inr io => fin_ok s'.2 /\ resting s'.2 /\ safe_chunk c0 s' io /\ work s' < work (u0, c0)
    end).
Proof.
  intros Hf Hst Hmid Hsame Hav Hw1 Hw2. pose proof Hf as (Hok & Hb & Hk & Him & Hop & Hfin1 & Hpay).
  rewrite Hst in Hpay. destruct Hpay as (Hpo & Hpl & Hpo0).
  set (rem := ipayloadlen c - ipayloadoff c). set (n := Z.min (WSLAY_AVAIL_IBUF c) rem).
  assert (0 <= WSLAY_AVAIL_IBUF c) by (destruct Hok; unfold WSLAY_AVAIL_IBUF; lia).
  assert (0 <= n <= WSLAY_AVAIL_IBUF c) as Hn by (unfold n, rem; lia).
  unfold hand_out. apply cwp_bind, cwp_bind, cwp_get, cwp_ret. simpl.
  assert ((if WSLAY_AVAIL_IBUF c <? rem then ibuflimit c else ibufmark c + rem) = ibufmark c + n) as ->
    by (unfold n, rem, WSLAY_AVAIL_IBUF in *; zcases; lia).
  replace (ibufmark c + n - ibufmark c) with n by lia.
  apply cwp_bind.
  eapply (cwp_mono _ _ (fun s' (r : Z + unit) => exists buf, r = inr tt /\ bytes_ok buf /\ zlen buf = zlen c.(ibuf) /\
     s' = (u, {| c with ibuf := buf; ibufmark := c.(ibufmark) + n; ipayloadoff := c.(ipayloadoff) + n |}))).
  { destruct (negb (imask c =? 0)).
    - destruct (unmask_loop_safe c n Hok Hb Hk Hn) as (buf & E & Hbb & Hbl).
      apply cwp_bind. eapply cwp_lift; [exact E|]. simpl. apply cwp_mod. by exists buf.
    - apply cwp_mod. by exists (ibuf c). }
  intros s' r (buf & -> & Hbb & Hbl & ->).
  apply cwp_bind, cwp_bind, cwp_get, cwp_ret. simpl.
  destruct Hok as (Hok1 & Hok2 & Hok3).
  assert (zlen (slice buf (ibufmark c) (ibufmark c + n)) = n) as Hdl
    by (unfold WSLAY_AVAIL_IBUF in *; rewrite slice_length; lia).
  assert ((if mid_frame c then ipayloadoff c else 0) = ipayloadoff c) as Hoff.
  { unfold mid_frame. rewrite Hst, bool_decide_true by done. simpl.
    destruct (Z.ltb_spec 0 (ipayloadoff c)); lia. }
  assert (in_ok {| c with ibuf := buf; ibufmark := ibufmark c + n; ipayloadoff := ipayloadoff c + n |}) as Hok'
    by (unfold in_ok, WSLAY_AVAIL_IBUF in *; simpl; lia).
  assert ((if mid_frame c0 then ipayloadoff c0 else 0) = ipayloadoff c) as Hoff0.
  { rewrite Hmid. destruct (mid_frame c); [|done]. by destruct (Hsame eq_refl) as (_ & -> & _). }
  assert (forall c', c'.(ibuflimit) = c.(ibuflimit) -> c'.(ibufmark) = c.(ibufmark) + n ->
    work (u, c') < work (u0, c0)) as Hw.
  { intros c' E1 E2. unfold work, WSLAY_AVAIL_IBUF in *. simpl in *. rewrite E1, E2. unfold n, rem in *. lia. }
  assert (forall s', (if ipayloadoff c + n =? ipayloadlen c then mid_frame s'.2 = false
     else mid_frame s'.2 = true /\ s'.2.(ipayloadoff) = ipayloadoff c + n /\
       s'.2.(ipayloadlen) = ipayloadlen c /\ s'.2.(iom_opcode) = iom_opcode c) ->
    safe_chunk c0 s' (mkIocbIn (iom_fin c) (iom_rsv c) (iom_opcode c) (ipayloadlen c) (imask c)
       (slice buf (ibufmark c) (ibufmark c + n)))) as Hsc.
  { intros s' Hs'. unfold safe_chunk. cbn [in_data in_payload_length in_opcode in_fin]. rewrite Hoff0, Hdl.
    split; [by apply slice_bytes|]. split; [lia|]. split; [unfold n, rem; lia|].
    split; [intros E; rewrite E, zlen_nil in Hdl; unfold n, rem in *; lia|].
    split; [|split; [done|]; split; [apply Hfin1; by rewrite Hst|done]].
    rewrite Hmid. intros Hm. destruct (Hsame Hm) as (-> & _ & ->). done. }
  apply cwp_bind, cwp_when.
  - intros E%Z.eqb_eq. apply cwp_mod. apply cwp_ret. split; [|split; [|split]].
    + split; [exact Hok'|]. split; [exact Hbb|]. split; [exact Hk|]. split; [done|]. split; [done|]. by split.
    + done.
    + apply Hsc. rewrite (proj2 (Z.eqb_eq _ _)) by lia. done.
    + apply Hw; done.
  - intros E%Z.eqb_neq. apply cwp_ret. split; [|split; [|split]].
    + split; [exact Hok'|]. split; [exact Hbb|]. split; [exact Hk|]. simpl. rewrite Hst.
      split; [done|]. split; [done|]. split; [intros _; apply Hfin1; by rewrite Hst|].
      split_and!; try done; unfold n, rem in *; lia.
    + intros _. simpl. unfold n, rem in *. lia.
    + apply Hsc. rewrite (proj2 (Z.eqb_neq _ _)) by lia. simpl. split; [|done].
      unfold mid_frame. simpl. rewrite Hst, bool_decide_true by done. simpl. apply Z.ltb_lt. unfold n, rem in *. lia.
    + apply Hw; done.
Qed.

(** The outcome of one call on arbitrary input. *)
Definition recv_safe (c : frame_in) (u : U) (s' : U * frame_in) (r : Z + iocb_in) : Prop :=
  fin_ok s'.2 /\ resting s'.2 /\
  match r with
  | inl e => e < 0 /\ work s' <= work (u, c) /\ mid_frame s'.2 = mid_frame c /\
      (mid_frame c = true -> s'.2.(ipayloadlen) = c.(ipayloadlen) /\
         s'.2.(ipayloadoff) = c.(ipayloadoff) /\ s'.2.(iom_opcode) = c.(iom_opcode))
  | inr io => safe_chunk c s' io /\ work s' < work (u, c)
  end.

(** The payload stage, entered directly or behind header stages that made progress. *)
Lemma recv_payload_safe u0 c0 u c :
  fin_ok c -> c.(istate) = RECV_PAYLOAD ->
  (u0 = u /\ c0 = c /\ (mid_frame c = false -> 0 < c.(ipayloadlen)) \/
   mid_frame c0 = false /\ mid_frame c = false /\ work (u, c) < work (u0, c0)) ->
  cwp (recv_payload cb) (u, c) (recv_safe c0 u0).
Proof.
  intros Hf Hst Hfrom. pose proof Hf as (Hok & Hb & Hk & Him & Hop & Hfin1 & Hpay).
  rewrite Hst in Hpay. destruct Hpay as (Hpo & Hpl & Hpo0).
  assert (work (u, c) <= work (u0, c0)) as Hw by (destruct Hfrom as [(-> & -> & _)|(_ & _ & ?)]; lia).
  assert (mid_frame c0 = mid_frame c) as Hmid by (destruct Hfrom as [(_ & -> & _)|(-> & -> & _)]; done).
  assert (mid_frame c = true -> ipayloadlen c0 = ipayloadlen c /\ ipayloadoff c0 = ipayloadoff c /\
    iom_opcode c0 = iom_opcode c) as Hsame by (destruct Hfrom as [(_ & -> & _)|(_ & -> & _)]; done).
  assert (0 < ipayloadlen c \/ work (u, c) < work (u0, c0)) as Hlt.
  { destruct Hfrom as [(-> & -> & H)|(_ & _ & ?)]; [|by right]. left.
    destruct (mid_frame c) eqn:E; [|by apply H]. unfold mid_frame in E.
    apply andb_true_iff in E as [_ E%Z.ltb_lt]. lia. }
  unfold recv_payload. apply cwp_bind, cwp_bind, cwp_get, cwp_ret. simpl.
  rewrite uwrap_id by lia. apply cwp_bind, cwp_when.
  - intros [Ha%Z.eqb_eq Hrem%Z.ltb_lt]%andb_true_iff.
    eapply cwp_mono; [apply wslay_recv_safe; [done|done|unfold IBUF_SIZE; lia]|].
    intros [u1 c1] [e|[]] (Hbo & Hw1 & Hr1); simpl in Hbo, Hr1.
    + destruct (fin_ok_buf c c1 Hf Hbo) as [Hf1 Hm1]. subst e. destruct Hbo as (_ & _ & Hs1).
      split; [done|]. split; [intros _; simpl; rewrite Hs1; simpl; lia|].
      split; [done|]. split; [lia|]. simpl. rewrite Hm1, Hmid. split; [done|].
      intros Hm. destruct (Hsame Hm) as (-> & -> & ->). rewrite Hs1. done.
    + destruct (fin_ok_buf c c1 Hf Hbo) as [Hf1 Hm1]. destruct Hbo as (_ & _ & Hs1).
      assert (istate c1 = RECV_PAYLOAD /\ ipayloadlen c1 = ipayloadlen c /\ ipayloadoff c1 = ipayloadoff c /\
        iom_opcode c1 = iom_opcode c) as (E1 & E2 & E3 & E4) by (rewrite Hs1; done).
      rewrite <- E2, <- E3. eapply cwp_mono; [apply (hand_out_safe u0 c0 u1 c1 Hf1 E1)|].
      * by rewrite Hm1.
      * rewrite Hm1, E2, E3, E4. done.
      * left. lia.
      * left. lia.
      * lia.
      * intros s' [?|io]; [done|]. intros (? & ? & ? & ?). by split_and!.
  - intros E. assert (0 <= WSLAY_AVAIL_IBUF c) by (destruct Hok; unfold WSLAY_AVAIL_IBUF; lia).
    eapply cwp_mono; [apply (hand_out_safe u0 c0 u c Hf Hst); try done|].
    + zcases; simpl in E; try done; lia.
    + intros s' [?|io]; [done|]. intros (? & ? & ? & ?). by split_and!.
Qed.

Lemma not_payload_not_mid c : c.(istate) <> RECV_PAYLOAD -> mid_frame c = false.
Proof. intros H. unfold mid_frame. by rewrite bool_decide_eq_false_2. Qed.

(** One header stage in front of the rest of the call. *)
Lemma stage_then_safe u0 c0 u c X stage (k : unit -> CM (U * frame_in) Z iocb_in) :
  (c.(istate) = X -> cwp stage (u, c) (stage_safe u c)) ->
  mid_frame c0 = false -> work (u, c) <= work (u0, c0) ->
  (c.(istate) <> X -> cwp (k tt) (u, c) (recv_safe c0 u0)) ->
  (forall u1 c1, fin_ok c1 -> mid_frame c1 = false -> work (u1, c1) < work (u0, c0) ->
     cwp (k tt) (u1, c1) (recv_safe c0 u0)) ->
  cwp (cwhen (bool_decide (c.(istate) = X)) stage ≫= k) (u, c) (recv_safe c0 u0).
Proof.
  intros Hst Hm0 Hw Hskip Hk. apply cwp_bind, cwp_when.
  - intros E%bool_decide_eq_true. eapply cwp_mono; [by apply Hst|].
    intros [u1 c1] [e|[]] (Hf1 & Hm1 & Hr).
    + destruct Hr as (Hr & ? & Hnp). split; [done|]. split; [intros ?; done|]. split; [done|]. split; [lia|]. simpl in *.
      rewrite Hm1, Hm0. done.
    + apply Hk; [done|done|lia].
  - intros E%bool_decide_eq_false. by apply Hskip.
Qed.

Lemma recv_from_payload u0 c0 u c :
  fin_ok c -> mid_frame c0 = false -> mid_frame c = false -> work (u, c) < work (u0, c0) ->
  cwp (c ← rget; if bool_decide (c.(istate) = RECV_PAYLOAD) then recv_payload cb
                 else creturn WSLAY_ERR_INVALID_ARGUMENT) (u, c) (recv_safe c0 u0).
Proof.
  intros Hf Hm0 Hm Hw. apply cwp_bind, cwp_bind, cwp_get, cwp_ret. simpl.
  destruct (bool_decide_reflect (istate c = RECV_PAYLOAD)) as [E|E].
  - apply recv_payload_safe; try done. right. done.
  - apply cwp_return. split; [done|]. split; [intros ?; done|]. split; [done|]. split; [lia|].
    simpl. rewrite Hm, Hm0. done.
Qed.

Lemma frame_recv_safe_lemma u c :
  fin_ok c -> resting c ->
  cwp (wslay_frame_recv cb) (u, c) (recv_safe c u).
Proof.
  intros Hf Hpos. unfold wslay_frame_recv. apply cwp_bind, cwp_bind, cwp_get, cwp_ret. simpl.
  destruct (decide (istate c = RECV_PAYLOAD)) as [Hst|Hst].
  { do 3 (rewrite Hst; apply cwp_bind, cwp_ret; apply cwp_bind, cwp_bind, cwp_get, cwp_ret; simpl).
    rewrite Hst. simpl. apply recv_payload_safe; try done. left. split_and!; try done. intros _.
    specialize (Hpos Hst). destruct Hf as (_ & _ & _ & _ & _ & _ & H). rewrite Hst in H. lia. }
  pose proof (not_payload_not_mid c Hst) as Hm.
  assert (forall u1 c1, fin_ok c1 -> mid_frame c1 = false -> work (u1, c1) < work (u, c) ->
    cwp (c' ← rget; cwhen (bool_decide (istate c' = RECV_MASKKEY)) (recv_maskkey cb) ≫= fun _ =>
         c' ← rget; if bool_decide (istate c' = RECV_PAYLOAD) then recv_payload cb
                    else creturn WSLAY_ERR_INVALID_ARGUMENT) (u1, c1) (recv_safe c u)) as Hkey.
  { intros u1 c1 Hf1 Hm1 Hw1. apply cwp_bind, cwp_bind, cwp_get, cwp_ret. simpl.
    apply stage_then_safe; [intros; by apply recv_maskkey_safe|done|lia| |].
    - intros _. by apply recv_from_payload.
    - intros u2 c2 Hf2 Hm2 Hw2. apply recv_from_payload; try done. }
  assert (forall u1 c1, fin_ok c1 -> mid_frame c1 = false -> work (u1, c1) < work (u, c) ->
    cwp (c' ← rget; cwhen (bool_decide (istate c' = RECV_EXT_PAYLOADLEN)) (recv_ext_payloadlen cb) ≫= fun _ =>
         c' ← rget; cwhen (bool_decide (istate c' = RECV_MASKKEY)) (recv_maskkey cb) ≫= fun _ =>
         c' ← rget; if bool_decide (istate c' = RECV_PAYLOAD) then recv_payload cb
                    else creturn WSLAY_ERR_INVALID_ARGUMENT) (u1, c1) (recv_safe c u)) as Hext.
  { intros u1 c1 Hf1 Hm1 Hw1. apply cwp_bind, cwp_bind, cwp_get, cwp_ret. simpl.
    apply stage_then_safe; [intros; by apply recv_ext_payloadlen_safe|done|lia| |].
    - intros _. by apply Hkey.
    - intros u2 c2 Hf2 Hm2 Hw2. apply Hkey; try done. }
  (* from a header state at least one stage runs *)
  apply stage_then_safe; [intros; by apply recv_header1_safe|done|lia| |auto].
  intros Hne1. apply cwp_bind, cwp_bind, cwp_get, cwp_ret. simpl.
  apply stage_then_safe; [intros; by apply recv_ext_payloadlen_safe|done|lia| |auto].
  intros Hne2. apply cwp_bind, cwp_bind, cwp_get, cwp_ret. simpl.
  apply stage_then_safe; [intros; by apply recv_maskkey_safe|done|lia| |].
  - intros Hne3. exfalso. destruct Hf as (_ & _ & _ & _ & _ & _ & H). destruct (istate c); done.
  - intros u1 c1 Hf1 Hm1 Hw1. apply recv_from_payload; try done.
Qed.
End Safe.

(** ** The property *)

(** What the transport promises here: bytes, no more than asked for, finitely many times. *)
Class ByteSource {U : Type} (cb : frame_callbacks U) := {
  bs_deliveries : U -> nat;
  bs_bytes u n u' l : recv_callback cb u n = (u', l) -> 0 < n -> bytes_ok l /\ zlen l <= n;
  bs_finite u n u' l : recv_callback cb u n = (u', l) ->
    match l with
    | [] => (bs_deliveries u' <= bs_deliveries u)%nat
    | _ => (bs_deliveries u' < bs_deliveries u)%nat
    end }.

(** C21. Memory safety against a hostile peer: from any state [wslay_frame_recv] can be in, and
    whatever bytes arrive in whatever pieces, a call never reads or writes outside of [ibuf],
    leaves the context in such a state again, hands out bytes within the announced payload
    length (empty only for an empty payload), passes control frames only unfragmented, and uses
    up input. *)
Theorem frame_recv_safe {U} (cb : frame_callbacks U) `{ByteSource U cb} u c :
  fin_ok c -> resting c ->
  exists s' r, wslay_frame_recv cb (u, c) = Some (s', r) /\ recv_safe bs_deliveries c u s' r.
Proof. intros Hf Hr. apply cwp_Some. by apply frame_recv_safe_lemma; [apply bs_bytes|apply bs_finite|..]. Qed.

(** A transport that delivers a list of packets. *)
Definition packets_cb : frame_callbacks (list (list Z)) :=
  mkCb _ (fun u n => match u with [] => ([], []) | l :: u' => (u', u8 <$> take (Z.to_nat n) l) end)
    (fun u d => (u, zlen d)) (fun u => (u, None)).

#[export] Program Instance packets_source : ByteSource packets_cb := {| bs_deliveries := length |}.
Next Obligation.
  intros [|l u] n u' l' E Hn; injection E as <- <-; [split; [constructor|rewrite zlen_nil; lia]|].
  split; [|unfold zlen; rewrite length_fmap, length_take; lia].
  apply Forall_fmap, Forall_true. intros x. split; apply (uwrap_range 8); lia.
Qed.
Next Obligation.
  intros [|l u] n u' l' E; injection E as <- <-; simpl; [done|]. destruct (u8 <$> _); lia.
Qed.

Lemma frame_recv_safe_witness :
  exists s' r, wslay_frame_recv packets_cb ([[255; 300; 7]], frame_in_init) = Some (s', r) /\
    recv_safe bs_deliveries frame_in_init [[255; 300; 7]] s' r.
Proof.
  apply (frame_recv_safe packets_cb).
  - exact fin_init_ok.
  - intros E. discriminate E.
Defined.
