(* ===== verification/Sha1.v ===== *)
(** * Sha1: the hash of the WebSocket handshake, [src/src/bearssl/hash/sha1.c]

    The handshake of RFC 6455 hashes the key of the client with the SHA-1 of the vendored BearSSL.  The code keeps its five words in
    place and rotates their roles over five unrolled statements, and it hashes a stream block by block from a buffer.
    The reference is the algorithm of FIPS 180-4: one step per word of the schedule, over the padded message. *)
From S2P Require Import Prelude Frame.

(** ** The code *)
Module SHA1.

(** The macros of the file. *)
Definition ROTL (x n : Z) : Z := Z.lor (u32 (Z.shiftl x n)) (Z.shiftr x (32 - n)).

Definition F (b c d : Z) : Z := Z.lxor (Z.land (Z.lxor c d) b) d.
Definition G (b c d : Z) : Z := Z.lxor (Z.lxor b c) d.
Definition H (b c d : Z) : Z := Z.lor (Z.land d c) (Z.land (Z.lor d c) b).
Definition I (b c d : Z) : Z := G b c d.

Definition K1 : Z := 0x5A827999.
Definition K2 : Z := 0x6ED9EBA1.
Definition K3 : Z := 0x8F1BBCDC.
Definition K4 : Z := 0xCA62C1D6.

Definition br_sha1_IV : list Z := [0x67452301; 0xEFCDAB89; 0x98BADCFE; 0x10325476; 0xC3D2E1F0].

(** [uint32_t] addition. *)
Definition add32 (x y : Z) : Z := u32 (x + y).

(** [br_dec32be] and [br_enc32be], the variants without unaligned access. *)
Definition br_dec32be (buf : list Z) (p : Z) : option Z :=
  b0 ← rd buf p; b1 ← rd buf (p + 1); b2 ← rd buf (p + 2); b3 ← rd buf (p + 3);
  Some (Z.lor (Z.lor (Z.lor (u32 (Z.shiftl b0 24)) (u32 (Z.shiftl b1 16))) (u32 (Z.shiftl b2 8))) b3).

Definition br_enc32be (x : Z) : list Z :=
  [u8 (Z.shiftr x 24); u8 (Z.shiftr x 16); u8 (Z.shiftr x 8); u8 x].
Definition br_enc64be (x : Z) : list Z := br_enc32be (u32 (Z.shiftr x 32)) ++ br_enc32be (u32 x).

(** [br_range_dec32be]: [num] words from the bytes at [p]; [br_range_enc32be] the other way. *)
Fixpoint br_range_dec32be (num : nat) (buf : list Z) (p : Z) : option (list Z) :=
  match num with
  | O => Some []
  | S num => w ← br_dec32be buf p; v ← br_range_dec32be num buf (p + 4); Some (w :: v)
  end.

Fixpoint br_range_enc32be (v : list Z) : list Z :=
  match v with [] => [] | w :: v => br_enc32be w ++ br_range_enc32be v end.

(** [for (i = 16; i < 80; i ++)], [n] iterations to go. *)
Fixpoint expand (n : nat) (m : list Z) (i : Z) : option (list Z) :=
  match n with
  | O => Some m
  | S n =>
      m3 ← rd m (i - 3); m8 ← rd m (i - 8); m14 ← rd m (i - 14); m16 ← rd m (i - 16);
      m ← wr m i (ROTL (Z.lxor (Z.lxor (Z.lxor m3 m8) m14) m16) 1);
      expand n m (i + 1)
  end.

Definition words : Type := Z * Z * Z * Z * Z.

(** The five statements of the body of a loop, [f] and [k] the function and the constant of the loop. *)
Definition round5 (f : Z -> Z -> Z -> Z) (k : Z) (m : list Z) (i : Z) (st : words) : option words :=
  let '(a, b, c, d, e) := st in
  m0 ← rd m (i + 0);
  let e := add32 e (add32 (add32 (add32 (ROTL a 5) (f b c d)) k) m0) in let b := ROTL b 30 in
  m1 ← rd m (i + 1);
  let d := add32 d (add32 (add32 (add32 (ROTL e 5) (f a b c)) k) m1) in let a := ROTL a 30 in
  m2 ← rd m (i + 2);
  let c := add32 c (add32 (add32 (add32 (ROTL d 5) (f e a b)) k) m2) in let e := ROTL e 30 in
  m3 ← rd m (i + 3);
  let b := add32 b (add32 (add32 (add32 (ROTL c 5) (f d e a)) k) m3) in let d := ROTL d 30 in
  m4 ← rd m (i + 4);
  let a := add32 a (add32 (add32 (add32 (ROTL b 5) (f c d e)) k) m4) in let c := ROTL c 30 in
  Some (a, b, c, d, e).

(** [for (i = ...; i < ...; i += 5)], [n] iterations to go. *)
Fixpoint round_loop (n : nat) (f : Z -> Z -> Z -> Z) (k : Z) (m : list Z) (i : Z) (st : words) : option words :=
  match n with O => Some st | S n => st ← round5 f k m i st; round_loop n f k m (i + 5) st end.

Record br_sha1_context := mkSha1 { sha_buf : list Z; sha_count : Z; sha_val : list Z }.

(** [junk] is what uninitialised memory holds. *)
Section Code.
Context (junk : Z).

Definition br_sha1_round (buf val : list Z) : option (list Z) :=
  a ← rd val 0; b ← rd val 1; c ← rd val 2; d ← rd val 3; e ← rd val 4;
  w ← br_range_dec32be 16 buf 0;
  m ← memcpy (replicate 80 junk) 0 w;
  m ← expand 64 m 16;
  st ← round_loop 4 F K1 m 0 (a, b, c, d, e);
  st ← round_loop 4 G K2 m 20 st;
  st ← round_loop 4 H K3 m 40 st;
  st ← round_loop 4 I K4 m 60 st;
  let '(a', b', c', d', e') := st in
  Some [add32 a a'; add32 b b'; add32 c c'; add32 d d'; add32 e e'].

Definition br_sha1_init : br_sha1_context := mkSha1 (replicate 64 junk) 0 br_sha1_IV.

(** The loop of [br_sha1_update]; [None] also when [fuel] iterations are not enough. *)
Fixpoint update_loop (fuel : nat) (cc : br_sha1_context) (ptr : Z) (data : list Z) : option br_sha1_context :=
  if negb (0 <? zlen data) then Some cc else
  match fuel with
  | O => None
  | S fuel =>
      let clen := 64 - ptr in
      let clen := if zlen data <? clen then zlen data else clen in
      buf ← memcpy cc.(sha_buf) ptr (take (Z.to_nat clen) data);
      let ptr := ptr + clen in
      let cc := {| cc with sha_buf := buf; sha_count := u64 (cc.(sha_count) + clen) |} in
      let data := drop (Z.to_nat clen) data in
      if ptr =? 64 then
        val ← br_sha1_round cc.(sha_buf) cc.(sha_val);
        update_loop fuel {| cc with sha_val := val |} 0 data
      else update_loop fuel cc ptr data
  end.

Definition br_sha1_update (cc : br_sha1_context) (data : list Z) : option br_sha1_context :=
  update_loop (length data) cc (Z.land cc.(sha_count) 63) data.

Definition br_sha1_out (cc : br_sha1_context) : option (list Z) :=
  let ptr := Z.land cc.(sha_count) 63 in
  buf ← memcpy (replicate 64 junk) 0 (slice cc.(sha_buf) 0 ptr);
  let val := cc.(sha_val) in
  buf ← wr buf ptr 0x80;
  let ptr := ptr + 1 in
  bv ← (if 56 <? ptr then
          buf ← memcpy buf ptr (replicate (Z.to_nat (64 - ptr)) 0);
          val ← br_sha1_round buf val;
          buf ← memcpy buf 0 (replicate 56 0);
          Some (buf, val)
        else
          buf ← memcpy buf ptr (replicate (Z.to_nat (56 - ptr)) 0);
          Some (buf, val));
  buf ← memcpy bv.1 56 (br_enc64be (u64 (Z.shiftl cc.(sha_count) 3)));
  val ← br_sha1_round buf bv.2;
  Some (br_range_enc32be val).

(** [br_sha1_state] and [br_sha1_set_state]: saving and resuming at a block boundary. *)
Definition br_sha1_state (cc : br_sha1_context) : list Z * Z := (br_range_enc32be cc.(sha_val), cc.(sha_count)).
Definition br_sha1_set_state (cc : br_sha1_context) (stb : list Z) (count : Z) : option br_sha1_context :=
  val ← br_range_dec32be 5 stb 0; Some {| cc with sha_val := val; sha_count := count |}.

(** Hashing pieces one after the other, the way the handshake does with one piece. *)
Fixpoint br_sha1_updates (cc : br_sha1_context) (l : list (list Z)) : option br_sha1_context :=
  match l with [] => Some cc | d :: l => cc ← br_sha1_update cc d; br_sha1_updates cc l end.
Definition br_sha1 (l : list (list Z)) : option (list Z) :=
  cc ← br_sha1_updates br_sha1_init l; br_sha1_out cc.
End Code.
End SHA1.
Import SHA1.

(** ** The reference: FIPS 180-4 *)

Definition Ch (x y z : Z) : Z := Z.lxor (Z.land x y) (Z.land (Z.lnot x) z).
Definition Parity (x y z : Z) : Z := Z.lxor (Z.lxor x y) z.
Definition Maj (x y z : Z) : Z := Z.lxor (Z.lxor (Z.land x y) (Z.land x z)) (Z.land y z).

Definition f_t (t : nat) : Z -> Z -> Z -> Z :=
  if (t <? 20)%nat then Ch else if (t <? 40)%nat then Parity else if (t <? 60)%nat then Maj else Parity.
Definition K_t (t : nat) : Z :=
  if (t <? 20)%nat then 0x5A827999 else if (t <? 40)%nat then 0x6ED9EBA1 else if (t <? 60)%nat then 0x8F1BBCDC else 0xCA62C1D6.

Fixpoint block_words (n : nat) (l : list Z) : list Z :=
  match n with O => [] | S n => be_load (take 4 l) 0 :: block_words n (drop 4 l) end.

(** [W_t = ROTL^1(W_(t-3) xor W_(t-8) xor W_(t-14) xor W_(t-16))] *)
Definition schedule_next (w : list Z) : Z :=
  let at_ n := nth (length w - n) w 0 in ROTL (Z.lxor (Z.lxor (Z.lxor (at_ 3%nat) (at_ 8%nat)) (at_ 14%nat)) (at_ 16%nat)) 1.
Fixpoint schedule (n : nat) (w : list Z) : list Z :=
  match n with O => w | S n => schedule n (w ++ [schedule_next w]) end.

Definition sha_step (f : Z -> Z -> Z -> Z) (k w : Z) (st : words) : words :=
  let '(a, b, c, d, e) := st in ((ROTL a 5 + f b c d + e + k + w) mod 2 ^ 32, a, ROTL b 30, c, d).

Fixpoint sha_steps (t : nat) (ws : list Z) (st : words) : words :=
  match ws with [] => st | w :: ws => sha_steps (S t) ws (sha_step (f_t t) (K_t t) w st) end.

Definition compress (block : list Z) (h : words) : words :=
  let '(a', b', c', d', e') := sha_steps 0 (schedule 64 (block_words 16 block)) h in
  let '(a, b, c, d, e) := h in
  ((a + a') mod 2 ^ 32, (b + b') mod 2 ^ 32, (c + c') mod 2 ^ 32, (d + d') mod 2 ^ 32, (e + e') mod 2 ^ 32).

(** [f] over the first [n] blocks of [l]. *)
Fixpoint over_blocks (f : list Z -> words -> words) (n : nat) (l : list Z) (h : words) : words :=
  match n with O => h | S n => over_blocks f n (drop 64 l) (f (take 64 l) h) end.
Definition hash_blocks : nat -> list Z -> words -> words := over_blocks compress.

Definition H0 : words := (0x67452301, 0xEFCDAB89, 0x98BADCFE, 0x10325476, 0xC3D2E1F0).

Definition pad (msg : list Z) : list Z :=
  msg ++ [0x80] ++ replicate (Z.to_nat ((55 - zlen msg) mod 64)) 0 ++ be_store 8 (8 * zlen msg).

Definition sha1 (msg : list Z) : list Z :=
  let p := pad msg in
  let '(a, b, c, d, e) := hash_blocks (length p / 64) p H0 in
  be_store 4 a ++ be_store 4 b ++ be_store 4 c ++ be_store 4 d ++ be_store 4 e.

(** ** Equivalence *)

Lemma F_Ch b c d : F b c d = Ch b c d.
Proof.
  unfold F, Ch. apply Z.bits_inj'. intros n Hn. rewrite !Z.lxor_spec, !Z.land_spec, Z.lxor_spec, Z.lnot_spec by done.
  by destruct (Z.testbit b n), (Z.testbit c n), (Z.testbit d n).
Qed.
Lemma H_Maj b c d : H b c d = Maj b c d.
Proof.
  unfold H, Maj. apply Z.bits_inj'. intros n Hn. rewrite !Z.lxor_spec, Z.lor_spec, !Z.land_spec, Z.lor_spec.
  by destruct (Z.testbit b n), (Z.testbit c n), (Z.testbit d n).
Qed.

Lemma add32_chain e r f k m : add32 e (add32 (add32 (add32 r f) k) m) = (r + f + e + k + m) mod 2 ^ 32.
Proof.
  unfold add32, uwrap. rewrite !Z.add_mod_idemp_l, Z.add_mod_idemp_r by lia.
  replace (e + ((r + f) mod 2 ^ 32 + k + m)) with ((r + f) mod 2 ^ 32 + (e + k + m)) by lia.
  rewrite Z.add_mod_idemp_l by lia. apply (f_equal (fun x => x mod 2 ^ 32)). lia.
Qed.

(** Reading a segment of a buffer. *)
Lemma rd_segment (pre ws post : list Z) i w : 0 <= i -> ws !! Z.to_nat i = Some w -> rd (pre ++ ws ++ post) (zlen pre + i) = Some w.
Proof.
  intros Hi Hw. rewrite rd_app_r by lia. replace (zlen pre + i - zlen pre) with i by lia.
  rewrite rd_app_l; [|apply lookup_lt_Some in Hw; unfold zlen; lia]. unfold rd. by rewrite (proj2 (Z.ltb_ge i 0) Hi).
Qed.

(** Five statements of the code are five steps of the reference. *)
Lemma round5_steps f f' k pre w0 w1 w2 w3 w4 post st :
  (forall b c d, f b c d = f' b c d) ->
  round5 f k (pre ++ [w0; w1; w2; w3; w4] ++ post) (zlen pre) st
  = Some (foldl (fun st w => sha_step f' k w st) st [w0; w1; w2; w3; w4]).
Proof.
  intros Hf. destruct st as [[[[a b] c] d] e]. unfold round5.
  rewrite (rd_segment pre _ post 0 w0), (rd_segment pre _ post 1 w1), (rd_segment pre _ post 2 w2),
    (rd_segment pre _ post 3 w3), (rd_segment pre _ post 4 w4) by done.
  cbn [mbind option_bind foldl]. unfold sha_step. by rewrite !add32_chain, !Hf.
Qed.

Lemma list_five {A} (n : nat) (l : list A) : length l = (5 * S n)%nat ->
  exists w0 w1 w2 w3 w4 r, l = [w0; w1; w2; w3; w4] ++ r /\ length r = (5 * n)%nat.
Proof.
  destruct l as [|w0 [|w1 [|w2 [|w3 [|w4 r]]]]]; cbn [length]; intros Hl; try lia.
  exists w0, w1, w2, w3, w4, r. split; [done|lia].
Qed.

Lemma round_loop_steps f f' k : (forall b c d, f b c d = f' b c d) -> forall n pre ws post st, length ws = (5 * n)%nat ->
  round_loop n f k (pre ++ ws ++ post) (zlen pre) st = Some (foldl (fun st w => sha_step f' k w st) st ws).
Proof.
  intros Hf. induction n as [|n IH]; intros pre ws post st Hl.
  - destruct ws; [done|cbn [length] in Hl; lia].
  - destruct (list_five n ws Hl) as (w0 & w1 & w2 & w3 & w4 & r & -> & Hr). cbn [round_loop].
    rewrite <- (app_assoc _ r), (round5_steps f f') by done. cbn [mbind option_bind].
    rewrite (app_assoc pre). replace (zlen pre + 5) with (zlen (pre ++ [w0; w1; w2; w3; w4])) by (rewrite zlen_app; done).
    rewrite IH by done. by rewrite foldl_app.
Qed.

Lemma sha_steps_app t ws ws' st : sha_steps t (ws ++ ws') st = sha_steps (t + length ws) ws' (sha_steps t ws st).
Proof.
  revert t st. induction ws as [|w ws IH]; intros t st; cbn [app sha_steps length]; [by rewrite Nat.add_0_r|].
  rewrite IH. f_equal. lia.
Qed.

(** In a stretch with one function and one constant the steps are a fold. *)
Lemma sha_steps_stretch f k t ws st :
  (forall i, (t <= i < t + length ws)%nat -> f_t i = f /\ K_t i = k) ->
  sha_steps t ws st = foldl (fun st w => sha_step f k w st) st ws.
Proof.
  revert t st. induction ws as [|w ws IH]; intros t st Ht; [done|]. cbn [sha_steps foldl length] in *.
  destruct (Ht t ltac:(lia)) as [-> ->]. apply IH. intros i Hi. apply Ht. lia.
Qed.

(** The four loops over a schedule of eighty words. *)
Lemma rounds_steps w st : length w = 80%nat ->
  (st ← round_loop 4 F K1 w 0 st; st ← round_loop 4 G K2 w 20 st; st ← round_loop 4 H K3 w 40 st; round_loop 4 I K4 w 60 st)
  = Some (sha_steps 0 w st).
Proof.
  intros Hl.
  assert (exists w1 w2 w3 w4, w = w1 ++ w2 ++ w3 ++ w4 /\
    length w1 = 20%nat /\ length w2 = 20%nat /\ length w3 = 20%nat /\ length w4 = 20%nat) as (w1 & w2 & w3 & w4 & -> & L1 & L2 & L3 & L4).
  { exists (take 20 w), (take 20 (drop 20 w)), (take 20 (drop 40 w)), (drop 60 w).
    rewrite !length_take, !length_drop. split; [|lia].
    rewrite <- (take_drop 20 w) at 1. f_equal. rewrite <- (take_drop 20 (drop 20 w)) at 1. f_equal.
    rewrite drop_drop. change (20 + 20)%nat with 40%nat. rewrite <- (take_drop 20 (drop 40 w)) at 1. by rewrite drop_drop. }
  pose proof (round_loop_steps F Ch K1 F_Ch 4 [] w1 (w2 ++ w3 ++ w4)) as E1.
  pose proof (round_loop_steps G Parity K2 (fun _ _ _ => eq_refl) 4 w1 w2 (w3 ++ w4)) as E2.
  pose proof (round_loop_steps H Maj K3 H_Maj 4 (w1 ++ w2) w3 w4) as E3.
  pose proof (round_loop_steps I Parity K4 (fun _ _ _ => eq_refl) 4 (w1 ++ w2 ++ w3) w4 []) as E4.
  assert (zlen w1 = 20) as Z1 by (unfold zlen; lia). assert (zlen (w1 ++ w2) = 40) as Z2 by (unfold zlen; rewrite length_app; lia).
  assert (zlen (w1 ++ w2 ++ w3) = 60) as Z3 by (unfold zlen; rewrite !length_app; lia).
  rewrite Z1 in E2. rewrite Z2 in E3. rewrite Z3 in E4. rewrite app_nil_r in E4. rewrite <- (app_assoc w1) in E3. rewrite <- (app_assoc w1), <- (app_assoc w2) in E4.
  change (zlen (@nil Z)) with 0 in E1. cbn [app] in E1.
  rewrite E1 by lia. cbn [mbind option_bind]. rewrite E2 by lia. cbn [mbind option_bind]. rewrite E3 by lia. cbn [mbind option_bind].
  rewrite E4 by lia. f_equal. rewrite !sha_steps_app, L1, L2, L3. cbn [Nat.add].
  rewrite (sha_steps_stretch Ch K1 0), (sha_steps_stretch Parity K2 20), (sha_steps_stretch Maj K3 40), (sha_steps_stretch Parity K4 60);
    [done|..]; intros i Hi; unfold f_t, K_t; destruct (Nat.ltb_spec i 20), (Nat.ltb_spec i 40), (Nat.ltb_spec i 60); try lia; done.
Qed.

(** *** Words and schedule *)

Lemma br_dec32be_spec pre b0 b1 b2 b3 post : bytes_ok [b0; b1; b2; b3] ->
  br_dec32be (pre ++ [b0; b1; b2; b3] ++ post) (zlen pre) = Some (be_load [b0; b1; b2; b3] 0).
Proof.
  intros Hb. unfold br_dec32be. pose proof (rd_segment pre [b0; b1; b2; b3] post 0 b0) as R0. rewrite Z.add_0_r in R0.
  rewrite R0, (rd_segment pre _ post 1 b1), (rd_segment pre _ post 2 b2), (rd_segment pre _ post 3 b3) by done.
  cbn [mbind option_bind be_load]. f_equal.
  rewrite !Forall_cons in Hb. unfold byte_ok in Hb. destruct Hb as (H0 & H1 & H2 & H3 & _).
  rewrite !uwrap_id by (rewrite Z.shiftl_mul_pow2 by lia; change (2 ^ 24) with 16777216; change (2 ^ 16) with 65536; change (2 ^ 8) with 256; lia).
  rewrite <- !Z.lor_assoc, (lor_shiftl_add b2 b3 8), (lor_shiftl_add b1 _ 16), (lor_shiftl_add b0 _ 24) by lia. lia.
Qed.

Lemma list_four {A} (n : nat) (l : list A) : length l = (4 * S n)%nat ->
  exists b0 b1 b2 b3 r, l = [b0; b1; b2; b3] ++ r /\ length r = (4 * n)%nat.
Proof.
  destruct l as [|b0 [|b1 [|b2 [|b3 r]]]]; cbn [length]; intros Hl; try lia. exists b0, b1, b2, b3, r. split; [done|lia].
Qed.

Lemma br_range_dec32be_spec n : forall pre l post, length l = (4 * n)%nat -> bytes_ok l ->
  br_range_dec32be n (pre ++ l ++ post) (zlen pre) = Some (block_words n l).
Proof.
  induction n as [|n IH]; intros pre l post Hl Hb; [done|].
  destruct (list_four n l Hl) as (b0 & b1 & b2 & b3 & r & -> & Hr). apply Forall_app in Hb as [Hb Hb'].
  cbn [br_range_dec32be]. rewrite <- app_assoc, br_dec32be_spec by done. cbn [mbind option_bind].
  rewrite (app_assoc pre). replace (zlen pre + 4) with (zlen (pre ++ [b0; b1; b2; b3])) by (rewrite zlen_app; done).
  rewrite IH by done. done.
Qed.

Lemma block_words_length n l : length (block_words n l) = n.
Proof. revert l. induction n as [|n IH]; intros l; cbn [block_words length]; [done|]. by rewrite IH. Qed.

Lemma rd_back w r k : 1 <= k <= zlen w -> rd (w ++ r) (zlen w - k) = Some (nth (length w - Z.to_nat k) w 0).
Proof.
  intros Hk. rewrite rd_app_l by lia. unfold rd. rewrite (proj2 (Z.ltb_ge _ _)) by lia. unfold zlen in *.
  rewrite nth_lookup. replace (Z.to_nat (Z.of_nat (length w) - k)) with (length w - Z.to_nat k)%nat by lia.
  destruct (lookup_lt_is_Some_2 w (length w - Z.to_nat k)) as [x ->]; [lia|]. done.
Qed.

Lemma expand_schedule n : forall w r, (16 <= length w)%nat -> length r = n -> expand n (w ++ r) (zlen w) = Some (schedule n w).
Proof.
  induction n as [|n IH]; intros w r Hw Hr.
  - destruct r; [|done]. by rewrite app_nil_r.
  - destruct r as [|x r]; [done|]. injection Hr as Hr. cbn [expand].
    rewrite !rd_back by (unfold zlen; lia). cbn [mbind option_bind]. rewrite wr_middle. cbn [mbind option_bind].
    change (w ++ ?y :: r) with (w ++ [y] ++ r). rewrite app_assoc.
    match goal with |- expand n ((w ++ [?y]) ++ r) _ = _ => replace (zlen w + 1) with (zlen (w ++ [y])) by (rewrite zlen_app; done) end.
    rewrite IH; [done|rewrite length_app; lia|done].
Qed.

Lemma schedule_length n : forall w, length (schedule n w) = (length w + n)%nat.
Proof. induction n as [|n IH]; intros w; cbn [schedule]; [lia|]. rewrite IH, length_app. cbn [length]. lia. Qed.

Definition word_list (h : words) : list Z := let '(a, b, c, d, e) := h in [a; b; c; d; e].

(** The part of [br_sha1_round] behind the decoding, for any sixteen words. *)
Lemma rounds_of_words junk w h : length w = 16%nat ->
  (m ← memcpy (replicate 80 junk) 0 w; m ← expand 64 m 16; st ← round_loop 4 F K1 m 0 h; st ← round_loop 4 G K2 m 20 st;
   st ← round_loop 4 H K3 m 40 st; round_loop 4 I K4 m 60 st) = Some (sha_steps 0 (schedule 64 w) h).
Proof.
  intros Hw. assert (zlen w = 16) as Ez by (unfold zlen; lia).
  assert (memcpy (replicate 80 junk) 0 w = Some (w ++ replicate 64 junk)) as -> by (unfold memcpy; by rewrite Ez).
  cbn [mbind option_bind]. pose proof (expand_schedule 64 w (replicate 64 junk)) as Ee. rewrite Ez in Ee.
  rewrite Ee by (rewrite ?length_replicate; lia). cbn [mbind option_bind]. apply rounds_steps. rewrite schedule_length. lia.
Qed.

(** One call of [br_sha1_round] is the compression function. *)
Lemma br_sha1_round_spec junk block h : length block = 64%nat -> bytes_ok block ->
  br_sha1_round junk block (word_list h) = Some (word_list (compress block h)).
Proof.
  intros Hl Hb. pose proof (br_range_dec32be_spec 16 [] block [] Hl Hb) as Ew. rewrite app_nil_r in Ew. cbn [app] in Ew.
  pose proof (rounds_of_words junk (block_words 16 block) h (block_words_length _ _)) as Er. unfold compress, br_sha1_round.
  change (zlen (@nil Z)) with 0 in Ew. rewrite Ew. generalize dependent (block_words 16 block). intros w _ Er.
  generalize dependent (schedule 64 w). intros m Er. destruct h as [[[[a b] c] d] e]. cbn [word_list].
  change (rd _ 0) with (Some a). change (rd _ 1) with (Some b). change (rd _ 2) with (Some c). change (rd _ 3) with (Some d).
  change (rd _ 4) with (Some e). cbn [mbind option_bind].
  destruct (sha_steps 0 m _) as [[[[a' b'] c'] d'] e'].
  destruct (memcpy _ 0 w) as [m1|]; [|done]. cbn [mbind option_bind] in *.
  destruct (expand 64 m1 16) as [m2|]; [|done]. cbn [mbind option_bind] in *.
  destruct (round_loop 4 F K1 m2 0 _) as [s1|]; [|done]. cbn [mbind option_bind] in *.
  destruct (round_loop 4 G K2 m2 20 _) as [s2|]; [|done]. cbn [mbind option_bind] in *.
  destruct (round_loop 4 H K3 m2 40 _) as [s3|]; [|done]. cbn [mbind option_bind] in *.
  by rewrite Er.
Qed.

(** *** The stream *)

Lemma over_blocks_app f n m : forall l l' h, length l = (64 * n)%nat ->
  over_blocks f (n + m) (l ++ l') h = over_blocks f m l' (over_blocks f n l h).
Proof.
  induction n as [|n IH]; intros l l' h Hl; [by destruct l|]. cbn [over_blocks Nat.add].
  rewrite take_app_le, drop_app_le by lia. apply IH. rewrite length_drop. lia.
Qed.
Lemma over_blocks_one f l h : length l = 64%nat -> over_blocks f 1 l h = f l h.
Proof. intros Hl. cbn [over_blocks]. by rewrite take_ge by lia. Qed.

Lemma hash_blocks_app n m l l' h : length l = (64 * n)%nat -> hash_blocks (n + m) (l ++ l') h = hash_blocks m l' (hash_blocks n l h).
Proof. apply over_blocks_app. Qed.
Lemma hash_blocks_one l h : length l = 64%nat -> hash_blocks 1 l h = compress l h.
Proof. apply over_blocks_one. Qed.

(** A context that has taken in [full ++ tail], the blocks of [full] hashed and [tail] in the buffer. *)
Record taken (cc : br_sha1_context) (n : nat) (full tail : list Z) : Prop := mkTaken {
  t_full : length full = (64 * n)%nat; t_tail : (length tail < 64)%nat; t_bytes : bytes_ok full /\ bytes_ok tail;
  t_buf : exists r, cc.(sha_buf) = tail ++ r /\ length cc.(sha_buf) = 64%nat;
  t_val : cc.(sha_val) = word_list (hash_blocks n full H0); t_count : cc.(sha_count) = u64 (zlen (full ++ tail)) }.

Lemma taken_ptr cc n full tail : taken cc n full tail -> Z.land cc.(sha_count) 63 = zlen tail.
Proof.
  intros [Hf Ht _ _ _ ->]. change 63 with (Z.ones 6). rewrite Z.land_ones by lia. unfold uwrap, zlen.
  rewrite length_app, Hf. change (2 ^ 6) with 64.
  rewrite Z.mod_mod_divide by (by exists (2 ^ 58)).
  replace (Z.of_nat (64 * n + length tail)) with (Z.of_nat (length tail) + Z.of_nat n * 64) by lia.
  rewrite Z.mod_add by lia. apply Z.mod_small. lia.
Qed.

Lemma taken_init junk : taken (br_sha1_init junk) 0 [] [].
Proof. split; try done; [cbn [length]; lia|]. exists (replicate 64 junk). done. Qed.

(** Storing behind the tail. *)
Lemma memcpy_behind t r d : (length d <= length r)%nat -> memcpy (t ++ r) (zlen t) d = Some (t ++ d ++ drop (length d) r).
Proof.
  intros Hd. unfold memcpy. rewrite (proj2 (Z.ltb_ge _ _)), (proj2 (Z.ltb_ge _ _)) by (rewrite ?zlen_app; unfold zlen; lia).
  cbn [orb]. do 2 f_equal; [unfold zlen; rewrite Nat2Z.id; by rewrite take_app_length|]. f_equal.
  rewrite drop_app_ge by (unfold zlen; lia). f_equal. unfold zlen. lia.
Qed.

Lemma taken_more junk fuel : forall cc n full tail data, taken cc n full tail -> bytes_ok data -> (length data <= fuel)%nat ->
  exists cc' n' full' tail', update_loop junk fuel cc (zlen tail) data = Some cc' /\ taken cc' n' full' tail' /\
    full' ++ tail' = full ++ tail ++ data.
Proof.
  induction fuel as [|fuel IH]; intros cc n full tail data Ht Hd Hf.
  { destruct data; [|cbn [length] in Hf; lia]. exists cc, n, full, tail. rewrite app_nil_r. done. }
  cbn [update_loop]. destruct (Z.ltb_spec 0 (zlen data)) as [Hp|Hp]; cbn [negb].
  2: { destruct data; [|unfold zlen in Hp; cbn [length] in Hp; lia]. exists cc, n, full, tail. rewrite app_nil_r. done. }
  destruct Ht as [Hfull Htail [Hb1 Hb2] (r & Er & Hl) Hval Hcount].
  set (clen := if zlen data <? 64 - zlen tail then zlen data else 64 - zlen tail).
  assert (clen = Z.min (zlen data) (64 - zlen tail)) as Ec by (unfold clen; destruct (Z.ltb_spec (zlen data) (64 - zlen tail)); lia).
  clearbody clen. set (d := take (Z.to_nat clen) data).
  assert (length d = Z.to_nat clen) as Ld by (unfold d; rewrite length_take; unfold zlen in *; lia).
  assert (data = d ++ drop (Z.to_nat clen) data) as Ed by (unfold d; by rewrite take_drop).
  rewrite Er in Hl |- *. rewrite length_app in Hl.
  rewrite memcpy_behind by (unfold zlen in *; lia). cbn [mbind option_bind sha_buf sha_count sha_val].
  pose proof Hd as Hd'. rewrite Ed in Hd'. apply Forall_app in Hd' as [Hd1 Hd2].
  assert (u64 (sha_count cc + clen) = u64 (zlen (full ++ tail ++ d))) as Hcount'.
  { rewrite Hcount. unfold uwrap. rewrite Z.add_mod_idemp_l by lia. apply (f_equal (fun x => x mod 2 ^ 64)). rewrite app_assoc, (zlen_app _ d). unfold zlen in *. lia. }
  destruct (Z.eqb_spec (zlen tail + clen) 64) as [E64|E64].
  - assert (length (tail ++ d) = 64%nat) as L64 by (rewrite length_app; unfold zlen in *; lia).
    assert (drop (length d) r = []) as -> by (apply nil_length_inv; rewrite length_drop; unfold zlen in *; lia).
    rewrite app_nil_r, Hval, br_sha1_round_spec by (try apply Forall_app; done). cbn [mbind option_bind].
    destruct (IH (mkSha1 (tail ++ d) (u64 (sha_count cc + clen)) (word_list (compress (tail ++ d) (hash_blocks n full H0)))) (n + 1)%nat (full ++ tail ++ d) []
      (drop (Z.to_nat clen) data)) as (cc' & n' & full' & tail' & E & Ht' & Eq).
    { split; cbn [sha_buf sha_val sha_count]; try done.
      - rewrite length_app. lia.
      - cbn [length]. lia.
      - split; [|done]. apply Forall_app; split; [done|]. by apply Forall_app.
      - exists (tail ++ d). done.
      - rewrite hash_blocks_app, hash_blocks_one by done. done.
      - rewrite app_nil_r. done. }
    { done. } { rewrite length_drop. unfold zlen in *. lia. }
    exists cc', n', full', tail'. split; [exact E|]. split; [done|]. rewrite Eq. cbn [app]. rewrite <- !app_assoc. by rewrite <- Ed.
  - assert (drop (Z.to_nat clen) data = []) as En by (apply nil_length_inv; rewrite length_drop; unfold zlen in *; lia).
    replace (zlen tail + clen) with (zlen (tail ++ d)) by (rewrite zlen_app; unfold zlen in *; lia).
    destruct (IH (mkSha1 (tail ++ d ++ drop (length d) r) (u64 (sha_count cc + clen)) (sha_val cc)) n full (tail ++ d)
      (drop (Z.to_nat clen) data)) as (cc' & n' & full' & tail' & E & Ht' & Eq).
    { split; cbn [sha_buf sha_val sha_count]; try done.
      - rewrite length_app. unfold zlen in *. lia.
      - split; [done|]. by apply Forall_app.
      - exists (drop (length d) r). rewrite <- app_assoc. split; [done|]. rewrite !length_app, length_drop. unfold zlen in *. lia. }
    { done. } { rewrite En. cbn [length]. lia. }
    exists cc', n', full', tail'. split; [exact E|]. split; [done|]. rewrite Eq, <- app_assoc. by rewrite <- Ed.
Qed.

(** *** The end of a message *)

Lemma u8_shiftr x n : 0 <= n -> u8 (Z.shiftr x n) = x / 2 ^ n mod 256.
Proof. intros Hn. unfold uwrap. by rewrite Z.shiftr_div_pow2. Qed.

Lemma br_enc32be_spec x : br_enc32be x = be_store 4 x.
Proof. unfold br_enc32be. rewrite !u8_shiftr by lia. cbn [be_store app]. by rewrite !Z.div_div by lia. Qed.

Lemma be_store_split n m x : be_store (n + m) x = be_store n (x / 256 ^ Z.of_nat m) ++ be_store m x.
Proof.
  revert x. induction m as [|m IH]; intros x; [by rewrite Nat.add_0_r, Z.div_1_r, app_nil_r|].
  rewrite Nat.add_succ_r. cbn [be_store]. rewrite IH, app_assoc, Z.div_div, Nat2Z.inj_succ, Z.pow_succ_r by lia. done.
Qed.
Lemma be_store_mod n x y : x mod 256 ^ Z.of_nat n = y mod 256 ^ Z.of_nat n -> be_store n x = be_store n y.
Proof.
  revert x y. induction n as [|n IH]; intros x y E; [done|]. cbn [be_store].
  rewrite Nat2Z.inj_succ, Z.pow_succ_r in E by lia. rewrite !Z.rem_mul_r in E by lia.
  assert (x mod 256 = y mod 256) as Em.
  { apply (f_equal (fun z => z mod 256)) in E. rewrite !(Z.mul_comm 256), !Z.mod_add, !Z.mod_mod in E by lia. done. }
  rewrite Em in E |- *. f_equal. apply IH. lia.
Qed.

Lemma br_enc64be_spec x y : x mod 2 ^ 64 = y mod 2 ^ 64 -> br_enc64be x = be_store 8 y.
Proof.
  intros E. unfold br_enc64be. rewrite !br_enc32be_spec, (be_store_mod 8 y x) by (symmetry; exact E).
  change 8%nat with (4 + 4)%nat. rewrite (be_store_split 4 4 x), Z.shiftr_div_pow2 by lia.
  f_equal; apply be_store_mod; unfold uwrap; by rewrite Z.mod_mod by lia.
Qed.

Lemma br_range_enc32be_spec h : br_range_enc32be (word_list h) =
  let '(a, b, c, d, e) := h in be_store 4 a ++ be_store 4 b ++ be_store 4 c ++ be_store 4 d ++ be_store 4 e.
Proof.
  destruct h as [[[[a b] c] d] e]. cbn [word_list br_range_enc32be]. rewrite !br_enc32be_spec. by rewrite app_nil_r.
Qed.

(** The blocks that [br_sha1_out] hashes behind those of [full]. *)
Definition last_blocks (tail : list Z) (len : Z) : list Z :=
  tail ++ [0x80] ++ replicate (Z.to_nat ((55 - zlen tail) mod 64)) 0 ++ be_store 8 (8 * len).

Lemma pad_split full tail n : length full = (64 * n)%nat -> pad (full ++ tail) = full ++ last_blocks tail (zlen (full ++ tail)).
Proof.
  intros Hf. unfold pad, last_blocks. rewrite <- !app_assoc. do 5 f_equal. rewrite zlen_app.
  replace (55 - (zlen full + zlen tail)) with (55 - zlen tail + (- Z.of_nat n) * 64) by (unfold zlen; lia). by rewrite Z.mod_add by lia.
Qed.

Lemma last_blocks_small tail len : (length tail <= 55)%nat ->
  last_blocks tail len = tail ++ [0x80] ++ replicate (55 - length tail) 0 ++ be_store 8 (8 * len).
Proof. intros Ht. unfold last_blocks. do 4 f_equal. rewrite Z.mod_small by (unfold zlen; lia). unfold zlen. lia. Qed.
Lemma last_blocks_big tail len : (55 < length tail < 64)%nat ->
  last_blocks tail len = (tail ++ [0x80] ++ replicate (63 - length tail) 0) ++ replicate 56 0 ++ be_store 8 (8 * len).
Proof.
  intros Ht. unfold last_blocks. rewrite <- !app_assoc. do 2 f_equal. rewrite app_assoc, <- replicate_add. do 2 f_equal.
  replace (55 - zlen tail) with (119 - zlen tail + (-1) * 64) by lia. rewrite Z.mod_add, Z.mod_small by (unfold zlen; lia). unfold zlen. lia.
Qed.

Lemma memcpy_front r d : (length d <= length r)%nat -> memcpy r 0 d = Some (d ++ drop (length d) r).
Proof. apply (memcpy_behind []). Qed.

Lemma hash_two full n b1 b2 : length full = (64 * n)%nat -> length b1 = 64%nat -> length b2 = 64%nat ->
  hash_blocks (n + 2) (full ++ b1 ++ b2) H0 = compress b2 (compress b1 (hash_blocks n full H0)).
Proof.
  intros Hf H1 H2. rewrite hash_blocks_app by done. rewrite (hash_blocks_app 1 1), !hash_blocks_one by done. done.
Qed.

Lemma zeros_ok n : bytes_ok (replicate n 0).
Proof. apply Forall_replicate. unfold byte_ok. lia. Qed.

(** What [br_sha1_out] leaves in its buffer in front of the zeros. *)
Lemma out_buffer junk tail r : (length tail < 64)%nat ->
  (buf ← memcpy (replicate 64 junk) 0 (slice (tail ++ r) 0 (zlen tail)); wr buf (zlen tail) 0x80)
  = Some ((tail ++ [0x80]) ++ replicate (63 - length tail) junk).
Proof.
  intros Ht. replace (slice (tail ++ r) 0 (zlen tail)) with tail by (unfold slice, zlen; rewrite drop_0, Z.sub_0_r, Nat2Z.id; by rewrite take_app_length).
  rewrite memcpy_front by (rewrite length_replicate; lia). cbn [mbind option_bind].
  rewrite drop_replicate. replace (64 - length tail)%nat with (S (63 - length tail)) by lia. cbn [replicate].
  rewrite wr_middle. by rewrite <- app_assoc.
Qed.

(** The two ways in which the end of the message fills its last blocks. *)
Lemma out_small junk tail lenb h : (length tail <= 55)%nat -> bytes_ok tail -> length lenb = 8%nat -> bytes_ok lenb ->
  (buf ← memcpy ((tail ++ [0x80]) ++ replicate (63 - length tail) junk) (zlen tail + 1) (replicate (Z.to_nat (56 - (zlen tail + 1))) 0);
   buf ← memcpy buf 56 lenb; br_sha1_round junk buf (word_list h))
  = Some (word_list (compress (tail ++ [0x80] ++ replicate (55 - length tail) 0 ++ lenb) h)).
Proof.
  intros Ht Hb L8 B8. replace (zlen tail + 1) with (zlen (tail ++ [0x80])) by (rewrite zlen_app; done).
  assert (zlen (tail ++ [0x80]) = Z.of_nat (length tail) + 1) as Zt by (rewrite zlen_app; unfold zlen; cbn [length]; lia).
  rewrite memcpy_behind by (rewrite !length_replicate, Zt; lia). cbn [mbind option_bind]. rewrite length_replicate, drop_replicate, Zt.
  replace (Z.to_nat (56 - (Z.of_nat (length tail) + 1))) with (55 - length tail)%nat by lia.
  set (t := (tail ++ [0x80]) ++ replicate (55 - length tail) 0).
  assert (length t = 56%nat) as Lt by (unfold t; rewrite !length_app, length_replicate; cbn [length]; lia).
  rewrite app_assoc. fold t.
  assert (memcpy (t ++ replicate (63 - length tail - (55 - length tail)) junk) 56 lenb = Some (t ++ lenb)) as ->.
  { replace 56 with (zlen t) by (unfold zlen; by rewrite Lt). rewrite memcpy_behind by (rewrite length_replicate; lia).
    by rewrite drop_ge, app_nil_r by (rewrite length_replicate; lia). }
  cbn [mbind option_bind]. rewrite br_sha1_round_spec; [|rewrite length_app; lia|].
  - do 3 f_equal. unfold t. by rewrite <- !app_assoc.
  - apply Forall_app_2; [|done]. unfold t. repeat apply Forall_app_2; [done|by repeat constructor|apply zeros_ok].
Qed.

Lemma out_big junk tail lenb h : (55 < length tail < 64)%nat -> bytes_ok tail -> length lenb = 8%nat -> bytes_ok lenb ->
  (buf ← memcpy ((tail ++ [0x80]) ++ replicate (63 - length tail) junk) (zlen tail + 1) (replicate (Z.to_nat (64 - (zlen tail + 1))) 0);
   val ← br_sha1_round junk buf (word_list h); buf ← memcpy buf 0 (replicate 56 0);
   buf ← memcpy buf 56 lenb; br_sha1_round junk buf val)
  = Some (word_list (compress (replicate 56 0 ++ lenb) (compress (tail ++ [0x80] ++ replicate (63 - length tail) 0) h))).
Proof.
  intros Ht Hb L8 B8. replace (zlen tail + 1) with (zlen (tail ++ [0x80])) by (rewrite zlen_app; done).
  assert (zlen (tail ++ [0x80]) = Z.of_nat (length tail) + 1) as Zt by (rewrite zlen_app; unfold zlen; cbn [length]; lia).
  rewrite memcpy_behind by (rewrite !length_replicate, Zt; lia). cbn [mbind option_bind]. rewrite length_replicate, drop_replicate, Zt.
  replace (Z.to_nat (64 - (Z.of_nat (length tail) + 1))) with (63 - length tail)%nat by lia.
  rewrite Nat.sub_diag. change (replicate 0 junk) with (@nil Z). rewrite app_nil_r, <- app_assoc.
  set (b1 := tail ++ [0x80] ++ replicate (63 - length tail) 0).
  assert (length b1 = 64%nat) as L1 by (unfold b1; rewrite !length_app, length_replicate; cbn [length]; lia).
  rewrite br_sha1_round_spec; [|done|unfold b1; repeat apply Forall_app_2; [done|by repeat constructor|apply zeros_ok]].
  cbn [mbind option_bind]. generalize (compress b1 h). intros h1. clearbody b1.
  rewrite memcpy_front by (rewrite length_replicate; lia). cbn [mbind option_bind]. rewrite length_replicate.
  assert (memcpy (replicate 56 0 ++ drop 56 b1) 56 lenb = Some (replicate 56 0 ++ lenb)) as ->.
  { change 56 with (zlen (replicate 56 0)) at 1. rewrite memcpy_behind by (rewrite length_drop; lia).
    by rewrite drop_ge, app_nil_r by (rewrite length_drop; lia). }
  cbn [mbind option_bind]. apply br_sha1_round_spec; [rewrite length_app, length_replicate; lia|]. apply Forall_app_2; [apply zeros_ok|done].
Qed.

Lemma br_sha1_out_spec junk cc n full tail : taken cc n full tail -> br_sha1_out junk cc = Some (sha1 (full ++ tail)).
Proof.
  intros Ht. pose proof (taken_ptr _ _ _ _ Ht) as Hp. destruct Ht as [Hf Ht [Hb1 Hb2] (r & Er & Hl) Hval Hcount].
  unfold br_sha1_out. rewrite Hp, Er.
  pose proof (out_buffer junk tail r Ht) as Eb. destruct (memcpy _ 0 _) as [b0|]; [|done]. cbn [mbind option_bind] in *. rewrite Eb. cbn [mbind option_bind].
  unfold sha1. rewrite (pad_split _ _ n) by done. rewrite length_app, Hf.
  assert (br_enc64be (u64 (Z.shiftl (sha_count cc) 3)) = be_store 8 (8 * zlen (full ++ tail))) as ->.
  { apply br_enc64be_spec. rewrite Hcount, Z.shiftl_mul_pow2 by lia. unfold uwrap. rewrite Z.mod_mod, Z.mul_mod_idemp_l by lia.
    apply (f_equal (fun x => x mod 2 ^ 64)). lia. }
  generalize (zlen (full ++ tail)). intros len. rewrite Hval.
  pose proof (be_store_length 8 (8 * len)) as L8. pose proof (be_store_ok 8 (8 * len)) as B8.
  destruct (Z.ltb_spec 56 (zlen tail + 1)) as [Hbig|Hsmall].
  - rewrite last_blocks_big by (unfold zlen in *; lia).
    pose proof (out_big junk tail (be_store 8 (8 * len)) (hash_blocks n full H0) ltac:(unfold zlen in *; lia) Hb2 L8 B8) as Eo.
    generalize dependent (be_store 8 (8 * len)). intros lenb L8 B8 Eo.
    rewrite !length_app, !length_replicate, L8. cbn [length].
    replace ((64 * n + (length tail + (1 + (63 - length tail)) + (56 + 8))) / 64)%nat with (n + 2)%nat by (apply Nat.div_unique with 0%nat; unfold zlen in *; lia).
    rewrite hash_two by (rewrite ?length_app, ?length_replicate; cbn [length]; unfold zlen in *; lia).
    generalize dependent (hash_blocks n full H0). intros h _ Eo.
    generalize dependent (compress (replicate 56 0 ++ lenb) (compress (tail ++ [128] ++ replicate (63 - length tail) 0) h)). intros h2 Eo.
    destruct (memcpy _ (zlen tail + 1) _) as [buf1|]; [|done]. cbn [mbind option_bind] in *.
    destruct (br_sha1_round junk buf1 _) as [val1|]; [|done]. cbn [mbind option_bind] in *.
    destruct (memcpy buf1 0 _) as [buf2|]; [|done]. cbn [mbind option_bind fst snd] in *.
    destruct (memcpy buf2 56 _) as [buf3|]; [|done]. cbn [mbind option_bind] in *. rewrite Eo. cbn [mbind option_bind].
    by rewrite br_range_enc32be_spec.
  - rewrite last_blocks_small by (unfold zlen in *; lia).
    pose proof (out_small junk tail (be_store 8 (8 * len)) (hash_blocks n full H0) ltac:(unfold zlen in *; lia) Hb2 L8 B8) as Eo.
    generalize dependent (be_store 8 (8 * len)). intros lenb L8 B8 Eo.
    rewrite !length_app, !length_replicate, L8. cbn [length].
    replace ((64 * n + (length tail + (1 + (55 - length tail + 8)))) / 64)%nat with (n + 1)%nat by (apply Nat.div_unique with 0%nat; unfold zlen in *; lia).
    rewrite hash_blocks_app, hash_blocks_one by (rewrite ?length_app, ?length_replicate; cbn [length]; unfold zlen in *; lia).
    generalize dependent (hash_blocks n full H0). intros h _ Eo.
    generalize dependent (compress (tail ++ [128] ++ replicate (55 - length tail) 0 ++ lenb) h). intros h2 Eo.
    destruct (memcpy _ (zlen tail + 1) _) as [buf1|]; [|done]. cbn [mbind option_bind fst snd] in *.
    destruct (memcpy buf1 56 _) as [buf3|]; [|done]. cbn [mbind option_bind] in *. rewrite Eo. cbn [mbind option_bind].
    by rewrite br_range_enc32be_spec.
Qed.

Lemma br_sha1_updates_spec junk l : forall cc n full tail, taken cc n full tail -> Forall (fun d => bytes_ok d) l ->
  exists cc' n' full' tail', br_sha1_updates junk cc l = Some cc' /\ taken cc' n' full' tail' /\ full' ++ tail' = full ++ tail ++ concat l.
Proof.
  induction l as [|d l IH]; intros cc n full tail Ht Hl; cbn [br_sha1_updates concat].
  - exists cc, n, full, tail. by rewrite app_nil_r.
  - apply Forall_cons in Hl as [Hd Hl]. unfold br_sha1_update. rewrite (taken_ptr _ _ _ _ Ht).
    destruct (taken_more junk (length d) cc n full tail d Ht Hd ltac:(lia)) as (cc1 & n1 & f1 & t1 & -> & Ht1 & E1). cbn [mbind option_bind].
    destruct (IH cc1 n1 f1 t1 Ht1 Hl) as (cc2 & n2 & f2 & t2 & -> & Ht2 & E2).
    exists cc2, n2, f2, t2. split; [done|]. split; [done|]. by rewrite E2, app_assoc, E1, <- !app_assoc.
Qed.

Definition words_ok (h : words) : Prop := Forall (fun w => 0 <= w < 2 ^ 32) (word_list h).

Lemma compress_ok block h : words_ok (compress block h).
Proof.
  unfold compress, words_ok. destruct (sha_steps _ _ _) as [[[[a' b'] c'] d'] e'], h as [[[[a b] c] d] e].
  cbn [word_list]. repeat constructor; apply Z.mod_pos_bound; lia.
Qed.
Lemma over_blocks_ok f n l h : (forall b h, words_ok (f b h)) -> words_ok h -> words_ok (over_blocks f n l h).
Proof. intros Hf. revert l h. induction n as [|n IH]; intros l h Hh; [done|]. cbn [over_blocks]. by apply IH. Qed.

Lemma state_roundtrip h : words_ok h -> br_range_dec32be 5 (br_range_enc32be (word_list h)) 0 = Some (word_list h).
Proof.
  intros Hh. assert (bytes_ok (br_range_enc32be (word_list h)) /\ length (br_range_enc32be (word_list h)) = 20%nat) as [Hb Hl].
  { rewrite br_range_enc32be_spec. destruct h as [[[[a b] c] d] e]. rewrite !length_app, !be_store_length. split; [|done].
    rewrite !Forall_app. split_and!; apply be_store_ok. }
  pose proof (br_range_dec32be_spec 5 [] _ [] Hl Hb) as E. rewrite app_nil_r in E. cbn [app] in E. change (zlen (@nil Z)) with 0 in E.
  rewrite E, br_range_enc32be_spec. f_equal. destruct h as [[[[a b] c] d] e]. unfold words_ok in Hh. cbn [word_list] in *.
  assert (forall w r, 0 <= w < 2 ^ 32 -> be_load (take 4 (be_store 4 w ++ r)) 0 = w /\ drop 4 (be_store 4 w ++ r) = r) as W.
  { intros w r Hw. rewrite take_app_length', drop_app_length' by (by rewrite be_store_length). by rewrite be_load_store by (change (256 ^ Z.of_nat 4) with (2 ^ 32); lia). }
  rewrite !Forall_cons in Hh. destruct Hh as (Ha & Hb' & Hc & Hd & He & _).
  rewrite <- (app_nil_r (be_store 4 e)). cbn [block_words].
  rewrite (proj1 (W a _ Ha)), (proj2 (W a _ Ha)), (proj1 (W b _ Hb')), (proj2 (W b _ Hb')), (proj1 (W c _ Hc)), (proj2 (W c _ Hc)),
    (proj1 (W d _ Hd)), (proj2 (W d _ Hd)), (proj1 (W e _ He)). done.
Qed.

(** Saved at a block boundary and set into any context, the state goes on as the original. *)
Lemma sha1_resume cc n full cc2 : taken cc n full [] -> length cc2.(sha_buf) = 64%nat ->
  exists cc3, br_sha1_set_state cc2 (br_sha1_state cc).1 (br_sha1_state cc).2 = Some cc3 /\ taken cc3 n full [].
Proof.
  intros [Hf Ht Hb _ Hval Hcount] Hl. unfold br_sha1_set_state, br_sha1_state. cbn [fst snd].
  rewrite Hval, state_roundtrip; [|apply over_blocks_ok; [apply compress_ok|by repeat constructor]]. cbn [mbind option_bind].
  eexists. split; [reflexivity|]. split; try done. by exists (sha_buf cc2).
Qed.

Lemma br_sha1_digest junk l : Forall (fun d => bytes_ok d) l -> br_sha1 junk l = Some (sha1 (concat l)).
Proof.
  intros Hl. unfold br_sha1.
  destruct (br_sha1_updates_spec junk l _ 0 [] [] (taken_init junk) Hl) as (cc & n & full & tail & -> & Ht & E). cbn [mbind option_bind].
  rewrite (br_sha1_out_spec _ _ _ _ _ Ht), E. done.
Qed.

Lemma sha1_digest msg : zlen (sha1 msg) = 20 /\ bytes_ok (sha1 msg).
Proof.
  unfold sha1. destruct (hash_blocks _ _ _) as [[[[a b] c] d] e]. split; [unfold zlen; rewrite !length_app, !be_store_length; done|].
  rewrite !Forall_app. split_and!; apply be_store_ok.
Qed.

(** C36. Hashing a message in pieces with [br_sha1_init], [br_sha1_update] and [br_sha1_out] terminates, stays inside of the buffers
    and gives the digest that FIPS 180-4 defines for the whole message, whatever the pieces and whatever uninitialised memory
    holds. *)
Theorem sha1_correct junk l : Forall (fun d => bytes_ok d) l -> br_sha1 junk l = Some (sha1 (concat l)).
Proof. apply br_sha1_digest. Qed.

(** The example of FIPS 180-1, cut in the middle of its second block. *)
Definition abc_example : list Z := bytes_of_string "abcdbcdecdefdefgefghfghighijhijkijkljklmklmnlmnomnopnopq".

Lemma sha1_correct_witness :
  br_sha1 165 [take 10 abc_example; drop 10 abc_example]
  = Some (be_store 4 0x84983E44 ++ be_store 4 0x1C3BD26E ++ be_store 4 0xBAAE4AA1 ++ be_store 4 0xF95129E5 ++ be_store 4 0xE54670F1).
Proof.
  rewrite (sha1_correct 165 [take 10 abc_example; drop 10 abc_example]); [vm_compute; reflexivity|].
  repeat constructor; vm_compute; discriminate.
Defined.
