(* ===== verification/Event.v ===== *)
(** * Event: the WebSocket message layer of [src/src/wslay/wslay_event.c]

    The context is a record with the source's fields.  The three [wslay_queue]s are lists, which
    is what [Queue.v] shows them to be; the UTF-8 automaton is [Utf8.v]'s, the frame layer
    [Frame.v]'s.  The application's callbacks are functions over an abstract environment; what a
    callback does to the context it does through the public API, so a callback's result contains
    the list of API calls it makes. *)
From S2P Require Import Prelude Utf8 Frame.

Definition WSLAY_ERR_NO_MORE_MSG : Z := -302.
Definition WSLAY_ERR_CALLBACK_FAILURE : Z := -400.
Definition WSLAY_ERR_WOULDBLOCK : Z := -401.
Definition WSLAY_ERR_NOMEM : Z := -500.

Definition WSLAY_CODE_PROTOCOL_ERROR : Z := 1002.
Definition WSLAY_CODE_NO_STATUS_RCVD : Z := 1005.
Definition WSLAY_CODE_ABNORMAL_CLOSURE : Z := 1006.
Definition WSLAY_CODE_INVALID_FRAME_PAYLOAD_DATA : Z := 1007.
Definition WSLAY_CODE_MESSAGE_TOO_BIG : Z := 1009.

Definition WSLAY_CONTINUATION_FRAME : Z := 0.
Definition WSLAY_TEXT_FRAME : Z := 1.
Definition WSLAY_BINARY_FRAME : Z := 2.
Definition WSLAY_CONNECTION_CLOSE : Z := 8.
Definition WSLAY_PING : Z := 9.
Definition WSLAY_PONG : Z := 10.

Definition WSLAY_RSV_NONE : Z := 0.
Definition WSLAY_RSV1_BIT : Z := 4.
Definition wslay_get_rsv1 (rsv : Z) : bool := negb (Z.land (Z.shiftr rsv 2) 1 =? 0).

Definition WSLAY_CLOSE_RECEIVED : Z := 1.
Definition WSLAY_CLOSE_QUEUED : Z := 2.
Definition WSLAY_CLOSE_SENT : Z := 4.
Definition WSLAY_CONFIG_NO_BUFFERING : Z := 1.

(** ** Data *)

(** [struct wslay_event_imsg]; a chunk is its memory block. *)
Record imsg := mkImsg {
  m_fin : Z; m_rsv : Z; m_opcode : Z; utf8state : Z; chunks : list (list Z); msg_length : Z }.

Inductive wslay_event_msg_type := WSLAY_NON_FRAGMENTED | WSLAY_FRAGMENTED.

(** [struct wslay_event_omsg]: [o_mem] is the block behind the struct, [WSLAY_FRAME_HDR_SIZ]
    bytes of header room followed by the data ([data] points behind the room). *)
Record omsg := mkOmsg {
  o_fin : Z; o_opcode : Z; o_rsv : Z; o_type : wslay_event_msg_type;
  o_mem : list Z; o_data_length : Z; o_source : Z }.

Record ectx := mkCtx {
  config : Z; max_recv_msg_length : Z; server : bool; close_status : Z;
  status_code_recv : Z; status_code_sent : Z;
  fctx_in : frame_in; fctx_out : frame_out;
  read_enabled : bool; write_enabled : bool;
  imsgs0 : imsg; imsgs1 : imsg; imsg_second : bool;  (* [imsg == &imsgs[1]] *)
  e_ipayloadlen : Z; e_ipayloadoff : Z;
  c_omsg : option omsg; send_queue : list omsg; send_ctrl_queue : list omsg;
  queued_msg_count : Z; queued_msg_length : Z;
  obuf_mem : list Z; obuflimit : Z; obufmark : Z;    (* [_obuf] and offsets into it *)
  e_opayloadlen : Z; e_opayloadoff : Z; allowed_rsv_bits : Z }.

Record on_msg_recv_arg := mkMsgArg {
  a_rsv : Z; a_opcode : Z; a_msg : list Z; a_status_code : Z }.
Record frame_recv_start_arg := mkStartArg { s_fin : Z; s_rsv : Z; s_opcode : Z; s_payload_length : Z }.

(** API calls a callback may make. *)
Inductive api_call :=
| ApiQueueMsg (opcode : Z) (msg : list Z) (rsv : Z)
| ApiQueueFragmented (opcode : Z) (source : Z) (rsv : Z)
| ApiQueueClose (status_code : Z) (reason : list Z)
| ApiShutdownRead | ApiShutdownWrite
| ApiSetError (val : Z).

(** The application's side: [ev_alloc u n] is whether [malloc] of [n] bytes succeeds;
    [ev_read] is the [read_callback] of a fragmented message (new source, return value, bytes
    written, [eof]); the last component of the transport callbacks is the value they hand to
    [wslay_event_set_error], if they call it, and [ev_shut u] is whether they have called
    [wslay_event_shutdown_read] and [wslay_event_shutdown_write] by now. *)
Record event_callbacks (U : Type) := mkEv {
  ev_recv : U -> Z -> U * list Z * option Z;
  ev_send : U -> list Z -> U * Z * option Z;
  ev_shut : U -> bool * bool;
  ev_genmask : U -> U * option (list Z);
  ev_alloc : U -> Z -> U * bool;
  ev_read : U -> Z -> Z -> U * Z * Z * list Z * bool;
  on_frame_recv_start : option (U -> frame_recv_start_arg -> U * list api_call);
  on_frame_recv_chunk : option (U -> list Z -> U * list api_call);
  on_frame_recv_end : option (U -> U * list api_call);
  on_msg_recv : option (U -> on_msg_recv_arg -> U * list api_call) }.
Arguments ev_recv {U}.
Arguments ev_send {U}.
Arguments ev_shut {U}.
Arguments ev_genmask {U}.
Arguments ev_alloc {U}.
Arguments ev_read {U}.
Arguments on_frame_recv_start {U}.
Arguments on_frame_recv_chunk {U}.
Arguments on_frame_recv_end {U}.
Arguments on_msg_recv {U}.

(** ** Messages being received *)

Definition wslay_event_imsg_set (m : imsg) (fin rsv opcode : Z) : imsg :=
  {| m with m_fin := fin; m_rsv := rsv; m_opcode := opcode; msg_length := 0 |}.

Definition wslay_event_imsg_reset (m : imsg) : imsg :=
  {| m with m_opcode := 255; utf8state := UTF8_ACCEPT; chunks := [] |}.

(** The successful part of [wslay_event_imsg_append_chunk]: a new block of [len] bytes. *)
Definition imsg_append (m : imsg) (len : Z) : imsg :=
  {| m with chunks := m.(chunks) ++ [replicate (Z.to_nat len) 0];
            msg_length := u64 (m.(msg_length) + len) |}.

(** [wslay_event_byte_chunk_copy] into the chunk at the tail of the queue. *)
Definition imsg_chunk_copy (m : imsg) (off : Z) (data : list Z) : option imsg :=
  match reverse m.(chunks) with
  | [] => None
  | c :: r => c' ← memcpy c off data; Some {| m with chunks := reverse (c' :: r) |}
  end.

(** [wslay_event_flatten_queue]: [None] when the chunks do not fill the [len] bytes. *)
Definition wslay_event_flatten_queue (m : imsg) (len : Z) : option (list Z * imsg) :=
  if len =? 0 then Some ([], m)
  else if zlen (concat m.(chunks)) =? len then Some (concat m.(chunks), {| m with chunks := [] |})
  else None.

Definition wslay_event_is_valid_status_code (status_code : Z) : bool :=
  ((1000 <=? status_code) && (status_code <=? 1011) && negb (status_code =? 1004) &&
   negb (status_code =? 1005) && negb (status_code =? 1006)) ||
  ((3000 <=? status_code) && (status_code <=? 4999)).

Definition cur_imsg (c : ectx) : imsg := if c.(imsg_second) then c.(imsgs1) else c.(imsgs0).
Definition set_imsg (c : ectx) (m : imsg) : ectx :=
  if c.(imsg_second) then {| c with imsgs1 := m |} else {| c with imsgs0 := m |}.

Definition no_buffering (c : ectx) : bool := 0 <? Z.land c.(config) WSLAY_CONFIG_NO_BUFFERING.
Definition wslay_event_verify_rsv_bits (c : ectx) (rsv : Z) : bool :=
  Z.land rsv (Z.lnot c.(allowed_rsv_bits)) =? 0.
Definition has_close (c : ectx) (bit : Z) : bool := negb (Z.land c.(close_status) bit =? 0).
Definition wslay_event_is_msg_queueable (c : ectx) : bool :=
  c.(write_enabled) && negb (has_close c WSLAY_CLOSE_QUEUED).

(** ** Construction *)

Definition imsg_init : imsg := wslay_event_imsg_reset (mkImsg 0 0 0 0 [] 0).

Definition wslay_event_context_init (is_server : bool) : ectx :=
  mkCtx 0 2147483647 is_server 0 WSLAY_CODE_ABNORMAL_CLOSURE WSLAY_CODE_ABNORMAL_CLOSURE
    frame_in_init frame_out_init true true imsg_init imsg_init false 0 0
    None [] [] 0 0 (replicate 4096 0) WSLAY_FRAME_HDR_SIZ WSLAY_FRAME_HDR_SIZ 0 0 0.

Definition omsg_non_fragmented (opcode rsv : Z) (msg : list Z) : omsg :=
  mkOmsg 1 opcode rsv WSLAY_NON_FRAGMENTED (replicate 16 0 ++ msg) (zlen msg) 0.
Definition omsg_fragmented (opcode rsv source : Z) : omsg :=
  mkOmsg 0 opcode rsv WSLAY_FRAGMENTED [] 0 source.

(** ** Configuration and queries *)

Definition wslay_event_config_set_allowed_rsv_bits (c : ectx) (rsv : Z) : ectx :=
  {| c with allowed_rsv_bits := Z.land rsv WSLAY_RSV1_BIT |}.
Definition wslay_event_config_set_no_buffering (c : ectx) (val : Z) : ectx :=
  {| c with config := if negb (val =? 0) then Z.lor c.(config) WSLAY_CONFIG_NO_BUFFERING
                      else Z.land c.(config) (u32 (Z.lnot WSLAY_CONFIG_NO_BUFFERING)) |}.
Definition wslay_event_config_set_max_recv_msg_length (c : ectx) (val : Z) : ectx :=
  {| c with max_recv_msg_length := val |}.
Definition wslay_event_shutdown_read (c : ectx) : ectx := {| c with read_enabled := false |}.
Definition wslay_event_shutdown_write (c : ectx) : ectx := {| c with write_enabled := false |}.
Definition wslay_event_want_read (c : ectx) : bool := c.(read_enabled).
Definition has_output (c : ectx) : bool :=
  negb (bool_decide (c.(send_queue) = [] /\ c.(send_ctrl_queue) = [] /\ c.(c_omsg) = None)).
Definition wslay_event_want_write (c : ectx) : bool := c.(write_enabled) && has_output c.
Definition wslay_event_get_close_received (c : ectx) : bool := has_close c WSLAY_CLOSE_RECEIVED.
Definition wslay_event_get_close_sent (c : ectx) : bool := has_close c WSLAY_CLOSE_SENT.

(** ** Operations *)
Section Event.
Context {U : Type} (cb : event_callbacks U).

(** The application's environment together with [ctx->error], and the context. *)
Record est := mkE { e_env : U * Z; e_ctx : ectx }.

Abbreviation EM := (CM est Z).

Definition eget : EM ectx := s ← cget; mret s.(e_ctx).
Definition emod (f : ectx -> ectx) : EM unit := cmod (fun s => mkE s.(e_env) (f s.(e_ctx))).
Definition set_error (e : option Z) (s : U * Z) : U * Z := (s.1, default s.2 e).
(** [break] out of the loop of [wslay_event_recv] and [wslay_event_send]: they return 0. *)
Definition ebreak {A} : EM A := creturn 0.

(** [wslay_event_frame_*_callback]: the frame layer's callbacks. *)
Definition frame_cb : frame_callbacks (U * Z) :=
  mkCb _
    (fun s n => let '(u, l, e) := ev_recv cb s.1 n in (set_error e (u, s.2), l))
    (fun s d => let '(u, r, e) := ev_send cb s.1 d in (set_error e (u, s.2), r))
    (fun s => let '(u, k) := ev_genmask cb s.1 in ((u, s.2), k)).

(** The shutdowns that the transport callbacks have made; the frame layer does not look at the two fields. *)
Definition shut (u : U * Z) (c : ectx) : ectx :=
  let c := if (ev_shut cb u.1).1 then wslay_event_shutdown_read c else c in
  if (ev_shut cb u.1).2 then wslay_event_shutdown_write c else c.

Definition ealloc (n : Z) : EM bool :=
  s ← cget;
  let '(u, ok) := ev_alloc cb s.(e_env).1 n in
  _ ← cmod (fun s => mkE (u, s.(e_env).2) s.(e_ctx));
  mret ok.

(** *** Queueing

    The C functions return an [int]; here it is the value of the computation. *)

Definition wslay_event_queue_msg_ex (opcode : Z) (msg : list Z) (rsv : Z) : EM Z :=
  c ← eget;
  if negb (wslay_event_is_msg_queueable c) then mret WSLAY_ERR_NO_MORE_MSG
  else if (wslay_is_ctrl_frame opcode && ((125 <? zlen msg) || wslay_get_rsv1 rsv))
          || negb (wslay_event_verify_rsv_bits c rsv) then mret WSLAY_ERR_INVALID_ARGUMENT
  else
    ok ← ealloc (WSLAY_FRAME_HDR_SIZ + zlen msg);
    if negb ok then mret WSLAY_ERR_NOMEM
    else
      let o := omsg_non_fragmented opcode rsv msg in
      _ ← emod (fun c =>
             let c := if wslay_is_ctrl_frame opcode
                      then {| c with send_ctrl_queue := c.(send_ctrl_queue) ++ [o] |}
                      else {| c with send_queue := c.(send_queue) ++ [o] |} in
             {| c with queued_msg_count := u64 (c.(queued_msg_count) + 1);
                       queued_msg_length := u64 (c.(queued_msg_length) + zlen msg) |});
      mret 0.

Definition wslay_event_queue_msg (opcode : Z) (msg : list Z) : EM Z :=
  wslay_event_queue_msg_ex opcode msg WSLAY_RSV_NONE.

Definition wslay_event_queue_fragmented_msg_ex (opcode source rsv : Z) : EM Z :=
  c ← eget;
  if negb (wslay_event_is_msg_queueable c) then mret WSLAY_ERR_NO_MORE_MSG
  else if wslay_is_ctrl_frame opcode || negb (wslay_event_verify_rsv_bits c rsv)
       then mret WSLAY_ERR_INVALID_ARGUMENT
  else
    ok ← ealloc 0;
    if negb ok then mret WSLAY_ERR_NOMEM
    else
      _ ← emod (fun c => {| c with send_queue := c.(send_queue) ++ [omsg_fragmented opcode rsv source];
                                   queued_msg_count := u64 (c.(queued_msg_count) + 1) |});
      mret 0.

Definition wslay_event_queue_close (status_code : Z) (reason : list Z) : EM Z :=
  c ← eget;
  if negb (wslay_event_is_msg_queueable c) then mret WSLAY_ERR_NO_MORE_MSG
  else if 123 <? zlen reason then mret WSLAY_ERR_INVALID_ARGUMENT
  else
    let msg := if status_code =? 0 then [] else be_store 2 status_code ++ reason in
    r ← wslay_event_queue_msg WSLAY_CONNECTION_CLOSE msg;
    _ ← cwhen (r =? 0)
          (emod (fun c => {| c with close_status := Z.lor c.(close_status) WSLAY_CLOSE_QUEUED |}));
    mret r.

(** [wslay_event_queue_close_wrapper] and the [return] its callers make of a nonzero result. *)
Definition wslay_event_queue_close_wrapper (status_code : Z) (reason : list Z) : EM unit :=
  _ ← emod wslay_event_shutdown_read;
  r ← wslay_event_queue_close status_code reason;
  cwhen (negb (r =? 0) && negb (r =? WSLAY_ERR_NO_MORE_MSG)) (creturn r).

(** *** Callbacks *)

Definition api_step (a : api_call) : EM unit :=
  match a with
  | ApiQueueMsg opcode msg rsv => _ ← wslay_event_queue_msg_ex opcode msg rsv; mret tt
  | ApiQueueFragmented opcode source rsv =>
      _ ← wslay_event_queue_fragmented_msg_ex opcode source rsv; mret tt
  | ApiQueueClose code reason => _ ← wslay_event_queue_close code reason; mret tt
  | ApiShutdownRead => emod wslay_event_shutdown_read
  | ApiShutdownWrite => emod wslay_event_shutdown_write
  | ApiSetError val => cmod (fun s => mkE (s.(e_env).1, val) s.(e_ctx))
  end.

Fixpoint api_steps (l : list api_call) : EM unit :=
  match l with [] => mret tt | a :: l' => _ ← api_step a; api_steps l' end.

(** A callback that is not set is not called. *)
Definition call_back {A} (f : option (U -> A -> U * list api_call)) (arg : A) : EM unit :=
  match f with
  | None => mret tt
  | Some f =>
      s ← cget;
      let '(u, calls) := f s.(e_env).1 arg in
      _ ← cmod (fun s => mkE (u, s.(e_env).2) s.(e_ctx));
      api_steps calls
  end.

(** *** [wslay_event_recv] *)

(** The checks in front: reserved bits and masking direction. *)
Definition iocb_illegal (c : ectx) (io : iocb_in) : bool :=
  negb (wslay_event_verify_rsv_bits c io.(in_rsv))
  || (wslay_get_rsv1 io.(in_rsv) &&
      (wslay_is_ctrl_frame io.(in_opcode) || (io.(in_opcode) =? WSLAY_CONTINUATION_FRAME)))
  || (c.(server) && (io.(in_mask) =? 0)) || (negb c.(server) && negb (io.(in_mask) =? 0)).

Definition is_ctrl_opcode (op : Z) : bool :=
  (op =? WSLAY_CONNECTION_CLOSE) || (op =? WSLAY_PING) || (op =? WSLAY_PONG).

(** Which message the chunk belongs to; the result is [new_frame]. *)
Definition select_imsg (io : iocb_in) : EM bool :=
  c ← eget;
  let op := io.(in_opcode) in
  if (cur_imsg c).(m_opcode) =? 255 then
    if (op =? WSLAY_TEXT_FRAME) || (op =? WSLAY_BINARY_FRAME) || is_ctrl_opcode op then
      _ ← emod (fun c => set_imsg c (wslay_event_imsg_set (cur_imsg c) io.(in_fin) io.(in_rsv) op));
      mret true
    else
      _ ← wslay_event_queue_close_wrapper WSLAY_CODE_PROTOCOL_ERROR []; ebreak
  else if (c.(e_ipayloadlen) =? 0) && (c.(e_ipayloadoff) =? 0) then
    if op =? WSLAY_CONTINUATION_FRAME then
      _ ← emod (fun c => set_imsg c {| (cur_imsg c) with m_fin := io.(in_fin) |}); mret true
    else if is_ctrl_opcode op then
      _ ← emod (fun c =>
             let c := {| c with imsg_second := true |} in
             set_imsg c (wslay_event_imsg_set (cur_imsg c) io.(in_fin) io.(in_rsv) op));
      mret true
    else
      _ ← wslay_event_queue_close_wrapper WSLAY_CODE_PROTOCOL_ERROR []; ebreak
  else mret false.

(** Payload of this frame is collected in the message's chunks. *)
Definition buffered (c : ectx) (io : iocb_in) : bool :=
  negb (no_buffering c) || wslay_is_ctrl_frame io.(in_opcode).

(** The [if (new_frame)] block. *)
Definition start_frame (io : iocb_in) : EM unit :=
  c ← eget;
  _ ← cwhen (c.(max_recv_msg_length) <? u64 ((cur_imsg c).(msg_length) + io.(in_payload_length)))
        (_ ← wslay_event_queue_close_wrapper WSLAY_CODE_MESSAGE_TOO_BIG []; ebreak);
  _ ← emod (fun c => {| c with e_ipayloadlen := io.(in_payload_length) |});
  _ ← call_back (on_frame_recv_start cb)
        (mkStartArg io.(in_fin) io.(in_rsv) io.(in_opcode) io.(in_payload_length));
  c ← eget;
  cwhen (buffered c io && negb (io.(in_payload_length) =? 0))
    (ok ← ealloc io.(in_payload_length);
     if negb ok then
       _ ← emod wslay_event_shutdown_read; creturn WSLAY_ERR_NOMEM
     else emod (fun c => set_imsg c (imsg_append (cur_imsg c) io.(in_payload_length)))).

(** The validation loop; [break] inside of it leaves only the loop. *)
Fixpoint utf8_check (l : list Z) : EM unit :=
  match l with
  | [] => mret tt
  | b :: l' =>
      c ← eget;
      d ← clift (decode (cur_imsg c).(utf8state) 0 b);
      _ ← emod (fun c => set_imsg c {| (cur_imsg c) with utf8state := d.1 |});
      if d.1 =? UTF8_REJECT
      then wslay_event_queue_close_wrapper WSLAY_CODE_INVALID_FRAME_PAYLOAD_DATA []
      else utf8_check l'
  end.

Definition validate_chunk (io : iocb_in) : EM unit :=
  c ← eget;
  let m := cur_imsg c in
  _ ← cwhen ((negb (wslay_get_rsv1 m.(m_rsv)) && (m.(m_opcode) =? WSLAY_TEXT_FRAME))
             || (m.(m_opcode) =? WSLAY_CONNECTION_CLOSE))
        (utf8_check (drop (if m.(m_opcode) =? WSLAY_CONNECTION_CLOSE then 2 else 0) io.(in_data)));
  c ← eget;
  cwhen ((cur_imsg c).(utf8state) =? UTF8_REJECT) ebreak.

(** Storing the chunk and advancing. *)
Definition store_chunk (io : iocb_in) : EM unit :=
  cwhen (0 <? zlen io.(in_data))
    (c ← eget;
     _ ← cwhen (buffered c io)
           (m ← clift (imsg_chunk_copy (cur_imsg c) c.(e_ipayloadoff) io.(in_data));
            emod (fun c => set_imsg c m));
     emod (fun c => {| c with e_ipayloadoff := u64 (c.(e_ipayloadoff) + zlen io.(in_data)) |})).

(** A complete Close message: check the code, record it, answer. *)
Definition handle_close (msg : list Z) : EM Z :=
  c ← eget;
  let len := (cur_imsg c).(msg_length) in
  cr ← (if 2 <=? len then
          b0 ← clift (rd msg 0);
          b1 ← clift (rd msg 1);
          let status_code := be_load [b0; b1] 0 in
          _ ← cwhen (negb (wslay_event_is_valid_status_code status_code))
                (_ ← wslay_event_queue_close_wrapper WSLAY_CODE_PROTOCOL_ERROR []; ebreak);
          mret (status_code, slice msg 2 len)
        else mret (0, []));
  _ ← emod (fun c => {| c with close_status := Z.lor c.(close_status) WSLAY_CLOSE_RECEIVED;
                               status_code_recv := if cr.1 =? 0 then WSLAY_CODE_NO_STATUS_RCVD else cr.1 |});
  _ ← wslay_event_queue_close_wrapper cr.1 cr.2;
  mret cr.1.

(** A complete Ping is answered by a Pong with its payload. *)
Definition handle_ping (msg : list Z) : EM unit :=
  r ← wslay_event_queue_msg WSLAY_PONG msg;
  cwhen (negb (r =? 0) && negb (r =? WSLAY_ERR_NO_MORE_MSG))
    (_ ← emod wslay_event_shutdown_read; creturn r).

(** The body of [if (on_msg_recv_callback || Close || Ping)]. *)
Definition finish_msg (io : iocb_in) : EM unit :=
  c ← eget;
  let op := (cur_imsg c).(m_opcode) in
  msg ← (if buffered c io then
           ok ← (if (cur_imsg c).(msg_length) =? 0 then mret true else ealloc (cur_imsg c).(msg_length));
           if negb ok then _ ← emod wslay_event_shutdown_read; creturn WSLAY_ERR_NOMEM
           else
             c ← eget;
             fm ← clift (wslay_event_flatten_queue (cur_imsg c) (cur_imsg c).(msg_length));
             _ ← emod (fun c => set_imsg c fm.2);
             mret fm.1
         else mret []);
  code ← (if op =? WSLAY_CONNECTION_CLOSE then handle_close msg
          else if op =? WSLAY_PING then _ ← handle_ping msg; mret 0
          else mret 0);
  cwhen (bool_decide (is_Some (on_msg_recv cb)))
    (c ← eget;
     let arg := mkMsgArg (cur_imsg c).(m_rsv) (cur_imsg c).(m_opcode) msg code in
     _ ← cmod (fun s => mkE (s.(e_env).1, 0) s.(e_ctx));
     call_back (on_msg_recv cb) arg).

(** The end of a frame. *)
Definition end_frame (io : iocb_in) : EM unit :=
  c ← eget;
  let m := cur_imsg c in
  _ ← cwhen (negb (m.(m_fin) =? 0) &&
             ((m.(m_opcode) =? WSLAY_TEXT_FRAME) || (m.(m_opcode) =? WSLAY_CONNECTION_CLOSE)) &&
             negb (m.(utf8state) =? UTF8_ACCEPT))
        (_ ← wslay_event_queue_close_wrapper WSLAY_CODE_INVALID_FRAME_PAYLOAD_DATA []; ebreak);
  _ ← call_back (option_map (fun f u (_ : unit) => f u) (on_frame_recv_end cb)) tt;
  c ← eget;
  _ ← cwhen (negb ((cur_imsg c).(m_fin) =? 0))
        (_ ← cwhen (bool_decide (is_Some (on_msg_recv cb))
                    || ((cur_imsg c).(m_opcode) =? WSLAY_CONNECTION_CLOSE)
                    || ((cur_imsg c).(m_opcode) =? WSLAY_PING))
               (finish_msg io);
         emod (fun c => let c := set_imsg c (wslay_event_imsg_reset (cur_imsg c)) in
                        {| c with imsg_second := false |}));
  emod (fun c => {| c with e_ipayloadlen := 0; e_ipayloadoff := 0 |}).

(** The [if (r >= 0)] branch: one chunk from the frame layer. *)
Definition handle_iocb (io : iocb_in) : EM unit :=
  c ← eget;
  _ ← cwhen (iocb_illegal c io)
        (_ ← wslay_event_queue_close_wrapper WSLAY_CODE_PROTOCOL_ERROR []; ebreak);
  new_frame ← select_imsg io;
  _ ← cwhen new_frame (start_frame io);
  _ ← validate_chunk io;
  _ ← call_back (on_frame_recv_chunk cb) io.(in_data);
  _ ← store_chunk io;
  c ← eget;
  cwhen (c.(e_ipayloadoff) =? c.(e_ipayloadlen)) (end_frame io).

(** The [else] branch. *)
Definition handle_recv_error (r : Z) : EM unit :=
  s ← cget;
  let error := s.(e_env).2 in
  _ ← cwhen (negb (r =? WSLAY_ERR_WANT_READ)
             || (negb (error =? WSLAY_ERR_WOULDBLOCK) && negb (error =? 0)))
        (_ ← wslay_event_queue_close_wrapper 0 []; creturn WSLAY_ERR_CALLBACK_FAILURE);
  ebreak.

Definition call_frame_recv : EM (Z + iocb_in) :=
  s ← cget;
  r ← clift (wslay_frame_recv frame_cb (s.(e_env), s.(e_ctx).(fctx_in)));
  let '((env, fi), res) := r in
  _ ← cmod (fun s => mkE env (shut env {| s.(e_ctx) with fctx_in := fi |}));
  mret res.

Definition recv_iter : EM unit :=
  r ← call_frame_recv;
  match r with inr io => handle_iocb io | inl e => handle_recv_error e end.

(** [wslay_event_recv]; [None] when [fuel] iterations are not enough. *)
Fixpoint wslay_event_recv (fuel : nat) : EM Z :=
  match fuel with
  | O => fun _ => None
  | S fuel' =>
      c ← eget;
      if c.(read_enabled) then _ ← recv_iter; wslay_event_recv fuel' else mret 0
  end.

(** *** [wslay_event_send] *)

Definition wslay_event_on_non_fragmented_msg_popped (c : ectx) (o : omsg) : ectx :=
  {| c with c_omsg := Some {| o with o_fin := 1 |}; e_opayloadlen := o.(o_data_length);
            e_opayloadoff := 0 |}.

Definition omsg_popped (c : ectx) (o : omsg) : ectx :=
  match o.(o_type) with
  | WSLAY_NON_FRAGMENTED => wslay_event_on_non_fragmented_msg_popped c o
  | WSLAY_FRAGMENTED => {| c with c_omsg := Some o |}
  end.

(** The [while] of [wslay_event_send_ctrl_queue_pop]: everything in front of the first Close
    is freed. *)
Fixpoint pop_close (q : list omsg) : option omsg * list omsg :=
  match q with
  | [] => (None, [])
  | o :: q' => if o.(o_opcode) =? WSLAY_CONNECTION_CLOSE then (Some o, q') else pop_close q'
  end.

Definition wslay_event_send_ctrl_queue_pop (c : ectx) : option (option omsg * ectx) :=
  if has_close c WSLAY_CLOSE_QUEUED then
    let '(o, q) := pop_close c.(send_ctrl_queue) in
    Some (o, {| c with send_ctrl_queue := q |})
  else
    match c.(send_ctrl_queue) with
    | [] => None
    | o :: q => Some (Some o, {| c with send_ctrl_queue := q |})
    end.

(** Choosing the message to send. *)
Definition select_omsg : EM unit :=
  c ← eget;
  match c.(c_omsg) with
  | None =>
      match c.(send_ctrl_queue) with
      | [] =>
          match c.(send_queue) with
          | [] => clift None
          | o :: q => emod (fun c => omsg_popped {| c with send_queue := q |} o)
          end
      | _ =>
          r ← clift (wslay_event_send_ctrl_queue_pop c);
          _ ← emod (fun _ => r.2);
          match r.1 with None => ebreak | Some o => emod (fun c => omsg_popped c o) end
      end
  | Some o =>
      cwhen (negb (wslay_is_ctrl_frame o.(o_opcode))
             && bool_decide (c.(fctx_out).(ostate) = PREP_HEADER)
             && negb (bool_decide (c.(send_ctrl_queue) = [])))
        (_ ← emod (fun c => {| c with send_queue := o :: c.(send_queue); c_omsg := None |});
         c ← eget;
         r ← clift (wslay_event_send_ctrl_queue_pop c);
         _ ← emod (fun _ => r.2);
         match r.1 with
         | None => ebreak
         | Some o => emod (fun c => wslay_event_on_non_fragmented_msg_popped c o)
         end)
  end.

Definition call_frame_send (mem : list Z) (io : iocb_out) : EM (list Z * Z) :=
  s ← cget;
  r ← clift (wslay_frame_send frame_cb s.(e_env) s.(e_ctx).(fctx_out) mem io);
  let '(env, fo, mem, res) := r in
  _ ← cmod (fun s => mkE env (shut env {| s.(e_ctx) with fctx_out := fo |}));
  mret (mem, res).

(** The common [else] branch of both kinds of messages. *)
Definition handle_send_error (r : Z) : EM unit :=
  s ← cget;
  let error := s.(e_env).2 in
  _ ← cwhen (negb (r =? WSLAY_ERR_WANT_WRITE)
             || (negb (error =? WSLAY_ERR_WOULDBLOCK) && negb (error =? 0)))
        (_ ← emod wslay_event_shutdown_write; creturn WSLAY_ERR_CALLBACK_FAILURE);
  ebreak.

(** The message is out. *)
Definition non_fragmented_done (o : omsg) : EM unit :=
  _ ← emod (fun c => {| c with queued_msg_count := u64 (c.(queued_msg_count) - 1);
                               queued_msg_length := u64 (c.(queued_msg_length) - o.(o_data_length)) |});
  _ ← cwhen (o.(o_opcode) =? WSLAY_CONNECTION_CLOSE)
        (code ← (if 2 <=? o.(o_data_length) then
                   b0 ← clift (rd o.(o_mem) WSLAY_FRAME_HDR_SIZ);
                   b1 ← clift (rd o.(o_mem) (WSLAY_FRAME_HDR_SIZ + 1));
                   mret (be_load [b0; b1] 0)
                 else mret 0);
         emod (fun c => {| c with write_enabled := false;
                                  close_status := Z.lor c.(close_status) WSLAY_CLOSE_SENT;
                                  status_code_sent := if code =? 0 then WSLAY_CODE_NO_STATUS_RCVD else code |}));
  emod (fun c => {| c with c_omsg := None |}).

Definition send_non_fragmented (o : omsg) : EM unit :=
  c ← eget;
  mr ← call_frame_send o.(o_mem)
         (mkIocbOut 1 o.(o_rsv) o.(o_opcode) c.(e_opayloadlen) (if c.(server) then 0 else 1)
            (WSLAY_FRAME_HDR_SIZ + c.(e_opayloadoff)) (c.(e_opayloadlen) - c.(e_opayloadoff)));
  let o := {| o with o_mem := mr.1 |} in
  _ ← emod (fun c => {| c with c_omsg := Some o |});
  let r := mr.2 in
  if 0 <=? r then
    _ ← emod (fun c => {| c with e_opayloadoff := u64 (c.(e_opayloadoff) + r) |});
    c ← eget;
    if c.(e_opayloadoff) =? c.(e_opayloadlen) then non_fragmented_done o else ebreak
  else handle_send_error r.

(** Refilling [_obuf] from the application; the result is whether to go on. *)
Definition refill_obuf (o : omsg) : EM omsg :=
  c ← eget;
  if (o.(o_fin) =? 0) && (c.(obuflimit) =? c.(obufmark)) then
    s ← cget;
    let '(u, src, r, data, eof) := ev_read cb s.(e_env).1 o.(o_source) (4096 - WSLAY_FRAME_HDR_SIZ) in
    mem ← clift (memcpy c.(obuf_mem) WSLAY_FRAME_HDR_SIZ data);
    let o := {| o with o_source := src |} in
    _ ← cmod (fun s => mkE (u, s.(e_env).2) {| s.(e_ctx) with obuf_mem := mem; c_omsg := Some o |});
    _ ← cwhen ((r =? 0) && negb eof) ebreak;
    _ ← cwhen (r <? 0) (_ ← emod wslay_event_shutdown_write; creturn WSLAY_ERR_CALLBACK_FAILURE);
    let o := if eof then {| o with o_fin := 1 |} else o in
    _ ← emod (fun c => {| c with obuflimit := WSLAY_FRAME_HDR_SIZ + r; c_omsg := Some o;
                                 e_opayloadlen := r; e_opayloadoff := 0 |});
    mret o
  else mret o.

Definition send_fragmented (o : omsg) : EM unit :=
  o ← refill_obuf o;
  c ← eget;
  mr ← call_frame_send c.(obuf_mem)
         (mkIocbOut o.(o_fin) o.(o_rsv) o.(o_opcode) c.(e_opayloadlen) (if c.(server) then 0 else 1)
            c.(obufmark) (c.(obuflimit) - c.(obufmark)));
  _ ← emod (fun c => {| c with obuf_mem := mr.1 |});
  let r := mr.2 in
  if 0 <=? r then
    _ ← emod (fun c => {| c with obufmark := c.(obufmark) + r |});
    c ← eget;
    if c.(obufmark) =? c.(obuflimit) then
      _ ← emod (fun c => {| c with obufmark := WSLAY_FRAME_HDR_SIZ; obuflimit := WSLAY_FRAME_HDR_SIZ |});
      if negb (o.(o_fin) =? 0) then
        emod (fun c => {| c with queued_msg_count := u64 (c.(queued_msg_count) - 1); c_omsg := None |})
      else
        emod (fun c => {| c with c_omsg := Some {| o with o_opcode := WSLAY_CONTINUATION_FRAME;
                                    o_rsv := u8 (Z.land o.(o_rsv) (Z.lnot WSLAY_RSV1_BIT)) |} |})
    else ebreak
  else handle_send_error r.

Definition send_iter : EM unit :=
  _ ← select_omsg;
  c ← eget;
  o ← clift c.(c_omsg);
  match o.(o_type) with
  | WSLAY_NON_FRAGMENTED => send_non_fragmented o
  | WSLAY_FRAGMENTED => send_fragmented o
  end.

(** [wslay_event_send]; [None] when [fuel] iterations are not enough. *)
Fixpoint wslay_event_send (fuel : nat) : EM Z :=
  match fuel with
  | O => fun _ => None
  | S fuel' =>
      c ← eget;
      if wslay_event_want_write c then _ ← send_iter; wslay_event_send fuel' else mret 0
  end.
End Event.
Arguments mkE {U}.
Arguments e_env {U}.
Arguments e_ctx {U}.

(** ** A concrete application *)

(** Packets from the peer; every complete message is recorded and echoed. *)
Record demo_env := mkDemo { d_in : list (list Z); d_msgs : list on_msg_recv_arg; d_out : list Z }.
Definition demo_cb : event_callbacks demo_env :=
  mkEv _
    (fun u n => match u.(d_in) with
                | [] => (u, [], Some WSLAY_ERR_WOULDBLOCK)
                | l :: r => ({| u with d_in := r |}, u8 <$> take (Z.to_nat n) l, None)
                end)
    (fun u d => ({| u with d_out := u.(d_out) ++ d |}, zlen d, None))
    (fun u => (false, false))
    (fun u => (u, Some [1; 2; 3; 4]))
    (fun u n => (u, true))
    (fun u src n => (u, src, 0, [], true))
    None None None
    (Some (fun u a => ({| u with d_msgs := u.(d_msgs) ++ [a] |},
                       if a.(a_opcode) <? 8 then [ApiQueueMsg a.(a_opcode) a.(a_msg) 0] else []))).
