(* ===== verification/EventSafe.v ===== *)
(** * EventSafe: [wslay_event_recv] on arbitrary input

    The coupling between the message layer and the frame layer ([coupled]) is an invariant of
    the receive loop as long as reading is enabled; from it follow the bounds of the chunk copy,
    the assertions of [wslay_event_flatten_queue] and the termination of the loop. *)
From S2P Require Import Prelude Utf8 Frame FrameSafe Event.

(** ** The receive side of the context *)

Definition utf8_ok (m : imsg) : Prop := exists s, m.(utf8state) = enc s.

Definition imsg_ok (max : Z) (m : imsg) : Prop :=
  utf8_ok m /\ m.(utf8state) <> UTF8_REJECT /\
  (m.(m_opcode) = 255 -> m.(chunks) = [] /\ m.(utf8state) = UTF8_ACCEPT) /\
  (m.(m_opcode) <> 255 -> m.(msg_length) = zlen (concat m.(chunks)) /\ m.(msg_length) <= max).

Definition imsgs_ok (c : ectx) : Prop :=
  0 <= c.(max_recv_msg_length) < 2 ^ 63 /\
  imsg_ok c.(max_recv_msg_length) c.(imsgs0) /\ imsg_ok c.(max_recv_msg_length) c.(imsgs1) /\
  (if c.(imsg_second)
   then (wslay_is_ctrl_frame c.(imsgs1).(m_opcode) = true /\ c.(imsgs1).(m_opcode) <> 255) /\
     (c.(imsgs0).(m_opcode) <> 255 -> wslay_is_ctrl_frame c.(imsgs0).(m_opcode) = false)
   else c.(imsgs1).(m_opcode) = 255).

(** In the middle of a frame with [off] of [len] payload bytes stored. *)
Definition in_frame (c : ectx) (op len off : Z) : Prop :=
  c.(e_ipayloadlen) = len /\ c.(e_ipayloadoff) = off /\ (cur_imsg c).(m_opcode) <> 255 /\
  wslay_is_ctrl_frame (cur_imsg c).(m_opcode) = wslay_is_ctrl_frame op /\
  (wslay_is_ctrl_frame op = true -> (cur_imsg c).(m_fin) = 1) /\
  (negb (no_buffering c) || wslay_is_ctrl_frame op = true -> len <> 0 ->
   exists l blk, (cur_imsg c).(chunks) = l ++ [blk] /\ zlen blk = len).

(** Between two frames. *)
Definition between (c : ectx) : Prop :=
  c.(e_ipayloadlen) = 0 /\ c.(e_ipayloadoff) = 0 /\ c.(imsg_second) = false /\
  (c.(imsgs0).(m_opcode) <> 255 -> wslay_is_ctrl_frame c.(imsgs0).(m_opcode) = false).

Definition coupled (c : ectx) (fi : frame_in) : Prop :=
  imsgs_ok c /\
  if mid_frame fi then in_frame c fi.(iom_opcode) fi.(ipayloadlen) fi.(ipayloadoff)
  else between c.

Definition rinv (c : ectx) : Prop :=
  fin_ok c.(fctx_in) /\ resting c.(fctx_in) /\ (c.(read_enabled) = true -> coupled c c.(fctx_in)).

(** [c'] differs from [c] only on the sending side, and in that reading may have been disabled. *)
Definition same_recv (c c' : ectx) : Prop :=
  c'.(config) = c.(config) /\ c'.(max_recv_msg_length) = c.(max_recv_msg_length) /\
  c'.(server) = c.(server) /\ c'.(allowed_rsv_bits) = c.(allowed_rsv_bits) /\
  c'.(fctx_in) = c.(fctx_in) /\ c'.(imsgs0) = c.(imsgs0) /\ c'.(imsgs1) = c.(imsgs1) /\
  c'.(imsg_second) = c.(imsg_second) /\ c'.(e_ipayloadlen) = c.(e_ipayloadlen) /\
  c'.(e_ipayloadoff) = c.(e_ipayloadoff) /\
  (c'.(read_enabled) = true -> c.(read_enabled) = true).

#[export] Instance same_recv_preorder : PreOrder same_recv.
Proof.
  split; [intros c; unfold same_recv; by split_and!|].
  unfold same_recv. intros c1 c2 c3 (?&?&?&?&?&?&?&?&?&?&?) (?&?&?&?&?&?&?&?&?&?&?).
  split_and!; try congruence. auto.
Qed.

Lemma same_recv_cur c c' : same_recv c c' -> cur_imsg c' = cur_imsg c.
Proof. intros (?&?&?&?&?&E0&E1&E2&?). unfold cur_imsg. by rewrite E0, E1, E2. Qed.
Lemma same_recv_imsgs c c' : same_recv c c' -> imsgs_ok c -> imsgs_ok c'.
Proof.
  intros (?&E&?&?&?&E0&E1&E2&?). unfold imsgs_ok. by rewrite E, E0, E1, E2.
Qed.
Lemma same_recv_in_frame c c' op len off : same_recv c c' -> in_frame c op len off -> in_frame c' op len off.
Proof.
  intros Hs. unfold in_frame, no_buffering. rewrite (same_recv_cur c c' Hs).
  destruct Hs as (E&?&?&?&?&?&?&?&E1&E2&?). by rewrite E, E1, E2.
Qed.

(** ** The current message *)

Lemma cur_set_imsg c m : cur_imsg (set_imsg c m) = m.
Proof. unfold cur_imsg, set_imsg. by destruct (imsg_second c) eqn:E; simpl; rewrite ?E. Qed.

Ltac set_imsg_cases := unfold set_imsg; match goal with |- context [imsg_second ?c] => destruct (imsg_second c) end; done.

Lemma set_imsg_config c m : (set_imsg c m).(config) = c.(config). Proof. set_imsg_cases. Qed.
Lemma set_imsg_max c m : (set_imsg c m).(max_recv_msg_length) = c.(max_recv_msg_length). Proof. set_imsg_cases. Qed.
Lemma set_imsg_fin c m : (set_imsg c m).(fctx_in) = c.(fctx_in). Proof. set_imsg_cases. Qed.
Lemma set_imsg_second c m : (set_imsg c m).(imsg_second) = c.(imsg_second).
Proof. unfold set_imsg. by destruct (imsg_second c) eqn:E. Qed.
Lemma set_imsg_len c m : (set_imsg c m).(e_ipayloadlen) = c.(e_ipayloadlen). Proof. set_imsg_cases. Qed.
Lemma set_imsg_off c m : (set_imsg c m).(e_ipayloadoff) = c.(e_ipayloadoff). Proof. set_imsg_cases. Qed.
Lemma set_imsg_read c m : (set_imsg c m).(read_enabled) = c.(read_enabled). Proof. set_imsg_cases. Qed.
Lemma set_imsg_nobuf c m : no_buffering (set_imsg c m) = no_buffering c.
Proof. unfold no_buffering. by rewrite set_imsg_config. Qed.

Create Rewrite HintDb imsg.
#[export] Hint Rewrite cur_set_imsg set_imsg_config set_imsg_max set_imsg_fin set_imsg_second set_imsg_len
  set_imsg_off set_imsg_read set_imsg_nobuf : imsg.

(** Replacing the current message by another legal one. *)
Lemma set_imsg_ok c m :
  imsgs_ok c -> imsg_ok c.(max_recv_msg_length) m ->
  (c.(imsg_second) = true -> wslay_is_ctrl_frame m.(m_opcode) = true /\ m.(m_opcode) <> 255) ->
  imsgs_ok (set_imsg c m).
Proof.
  intros (Hx & H0 & H1 & H2) Hm Hc. unfold imsgs_ok, set_imsg.
  destruct (imsg_second c) eqn:E; simpl; rewrite ?E; (split; [done|]); (split; [done|]); (split; [done|]); [|done].
  split; [by apply Hc|apply H2].
Qed.

Lemma cur_imsg_ok c : imsgs_ok c -> imsg_ok c.(max_recv_msg_length) (cur_imsg c).
Proof. intros (Hx & H0 & H1 & H2). unfold cur_imsg. by destruct (imsg_second c). Qed.

Lemma imsgs_ok_second c : imsgs_ok c -> c.(imsg_second) = true ->
  wslay_is_ctrl_frame (cur_imsg c).(m_opcode) = true /\ (cur_imsg c).(m_opcode) <> 255.
Proof. intros (Hx & H0 & H1 & H2) E. unfold cur_imsg. rewrite E in *. apply H2. Qed.

(** ** Triples for the building blocks *)
Section Triples.
Context {U : Type} (cb : event_callbacks U).
Implicit Types s : est (U:=U).

Lemma cwp_eget s (Q : est -> Z + ectx -> Prop) : Q s (inr s.(e_ctx)) -> cwp eget s Q.
Proof. auto. Qed.
Lemma cwp_emod f s (Q : est -> Z + unit -> Prop) : Q (mkE s.(e_env) (f s.(e_ctx))) (inr tt) -> cwp (emod f) s Q.
Proof. auto. Qed.

(** What the application promises for the receive loop: the transport delivers bytes, no more
    than asked for, and finitely many times before it has nothing for now; the other callbacks
    do not produce input. *)
Class EventSource := {
  es_deliveries : U -> nat;
  es_bytes u n u' l e : ev_recv cb u n = (u', l, e) -> 0 < n -> bytes_ok l /\ zlen l <= n;
  es_finite u n u' l e : ev_recv cb u n = (u', l, e) ->
    match l with
    | [] => (es_deliveries u' <= es_deliveries u)%nat
    | _ => (es_deliveries u' < es_deliveries u)%nat
    end;
  es_alloc u n u' b : ev_alloc cb u n = (u', b) -> (es_deliveries u' <= es_deliveries u)%nat;
  es_start f u a u' l : on_frame_recv_start cb = Some f -> f u a = (u', l) -> (es_deliveries u' <= es_deliveries u)%nat;
  es_chunk f u a u' l : on_frame_recv_chunk cb = Some f -> f u a = (u', l) -> (es_deliveries u' <= es_deliveries u)%nat;
  es_end f u u' l : on_frame_recv_end cb = Some f -> f u = (u', l) -> (es_deliveries u' <= es_deliveries u)%nat;
  es_msg f u a u' l : on_msg_recv cb = Some f -> f u a = (u', l) -> (es_deliveries u' <= es_deliveries u)%nat }.
Context `{EventSource}.

(** [m] does not touch the receive side and does not return early. *)
Definition quiet (s s' : est) : Prop :=
  same_recv s.(e_ctx) s'.(e_ctx) /\ (es_deliveries s'.(e_env).1 <= es_deliveries s.(e_env).1)%nat.

Lemma quiet_refl s : quiet s s.
Proof. split; [reflexivity|done]. Qed.
Lemma quiet_trans s1 s2 s3 : quiet s1 s2 -> quiet s2 s3 -> quiet s1 s3.
Proof. intros [? ?] [? ?]. split; [by etrans|lia]. Qed.

Definition quiet_op {A} (m : CM est Z A) : Prop :=
  forall s, cwp m s (fun s' r => quiet s s' /\ exists a, r = inr a).

Lemma quiet_bind {A B} (m : CM est Z A) (k : A -> CM est Z B) :
  quiet_op m -> (forall a, quiet_op (k a)) -> quiet_op (m ≫= k).
Proof.
  intros Hm Hk s. apply cwp_bind. eapply cwp_mono; [apply Hm|].
  intros s1 r [Hq [a ->]]. eapply cwp_mono; [apply Hk|].
  intros s2 r2 [Hq2 Hr]. split; [by eapply quiet_trans|done].
Qed.
Lemma quiet_ret {A} (a : A) : quiet_op (mret a).
Proof. intros s. apply cwp_ret. split; [apply quiet_refl|eauto]. Qed.
Lemma quiet_eget : quiet_op eget.
Proof. intros s. apply cwp_eget. split; [apply quiet_refl|eauto]. Qed.
Lemma quiet_cget : quiet_op cget.
Proof. intros s. apply cwp_get. split; [apply quiet_refl|eauto]. Qed.
Lemma quiet_emod f : (forall c, same_recv c (f c)) -> quiet_op (emod f).
Proof. intros Hf s. apply cwp_emod. split; [split; [apply Hf|done]|eauto]. Qed.
Lemma quiet_when b m : quiet_op m -> quiet_op (cwhen b m).
Proof. destruct b; [done|intros; apply quiet_ret]. Qed.
Lemma quiet_error v : quiet_op (cmod (fun s => mkE (s.(e_env).1, v) s.(e_ctx))).
Proof. intros s. apply cwp_mod. split; [split; [reflexivity|done]|eauto]. Qed.

Lemma quiet_ealloc n : quiet_op (ealloc cb n).
Proof.
  intros s. unfold ealloc. apply cwp_bind, cwp_get.
  destruct (ev_alloc cb (e_env s).1 n) as [u b] eqn:E. apply cwp_bind, cwp_mod, cwp_ret.
  split; [|eauto]. split; [reflexivity|]. simpl. by eapply es_alloc.
Qed.

Ltac quiet_tac :=
  repeat first
    [ apply quiet_ret | apply quiet_eget | apply quiet_cget | apply quiet_ealloc | apply quiet_error
    | apply quiet_when | apply quiet_bind; [|intros] ];
  try (apply quiet_emod; intros ?c; unfold same_recv; by split_and!).

Lemma quiet_queue_msg op msg rsv : quiet_op (wslay_event_queue_msg_ex cb op msg rsv).
Proof.
  unfold wslay_event_queue_msg_ex. apply quiet_bind; [apply quiet_eget|intros c].
  destruct (negb _); [apply quiet_ret|]. destruct (_ || _); [apply quiet_ret|].
  apply quiet_bind; [apply quiet_ealloc|intros ok]. destruct (negb ok); [apply quiet_ret|].
  apply quiet_bind; [|intros; apply quiet_ret]. apply quiet_emod. intros c'. unfold same_recv.
  destruct (wslay_is_ctrl_frame op); by split_and!.
Qed.
Lemma quiet_queue_fragmented op src rsv : quiet_op (wslay_event_queue_fragmented_msg_ex cb op src rsv).
Proof.
  unfold wslay_event_queue_fragmented_msg_ex. apply quiet_bind; [apply quiet_eget|intros c].
  destruct (negb _); [apply quiet_ret|]. destruct (_ || _); [apply quiet_ret|].
  apply quiet_bind; [apply quiet_ealloc|intros ok]. destruct (negb ok); quiet_tac.
Qed.
Lemma quiet_queue_close code reason : quiet_op (wslay_event_queue_close cb code reason).
Proof.
  unfold wslay_event_queue_close. apply quiet_bind; [apply quiet_eget|intros c].
  destruct (negb _); [apply quiet_ret|]. destruct (123 <? _); [apply quiet_ret|].
  apply quiet_bind; [apply quiet_queue_msg|intros r]. quiet_tac.
Qed.

Lemma quiet_api_steps l : quiet_op (api_steps cb l).
Proof.
  induction l as [|a l IH]; simpl; [apply quiet_ret|]. apply quiet_bind; [|done].
  destruct a; simpl; try (apply quiet_bind; [|intros; apply quiet_ret]);
    first [apply quiet_queue_msg | apply quiet_queue_fragmented | apply quiet_queue_close | quiet_tac].
Qed.

Lemma quiet_call_back {A} (f : option (U -> A -> U * list api_call)) a :
  (forall g u u' l, f = Some g -> g u a = (u', l) -> (es_deliveries u' <= es_deliveries u)%nat) ->
  quiet_op (call_back cb f a).
Proof.
  intros Hf. unfold call_back. destruct f as [g|]; [|apply quiet_ret]. intros s.
  apply cwp_bind, cwp_get. destruct (g (e_env s).1 a) as [u l] eqn:E.
  apply cwp_bind, cwp_mod. eapply cwp_mono; [apply quiet_api_steps|].
  intros s' r [Hq Hr]. split; [|done]. eapply quiet_trans; [|exact Hq].
  split; [reflexivity|]. simpl. by eapply Hf.
Qed.

(** The close wrapper disables reading whatever comes. *)
Lemma close_wrapper_spec code reason s :
  cwp (wslay_event_queue_close_wrapper cb code reason) s (fun s' r =>
    quiet s s' /\ s'.(e_ctx).(read_enabled) = false).
Proof.
  unfold wslay_event_queue_close_wrapper. apply cwp_bind, cwp_emod. apply cwp_bind.
  eapply cwp_mono; [apply quiet_queue_close|]. intros s1 r [[Hs Hd] [a ->]]. simpl in Hs, Hd.
  assert (quiet s s1 /\ read_enabled (e_ctx s1) = false) as HQ.
  { split; [split; [|done]|].
    - etrans; [|exact Hs]. unfold same_recv. by split_and!.
    - destruct Hs as (?&?&?&?&?&?&?&?&?&?&Hr). destruct (read_enabled (e_ctx s1)); [|done].
      by specialize (Hr eq_refl). }
  apply cwp_when; intros _; [by apply cwp_return|done].
Qed.
(** *** Outcomes of the parts of the handler *)

(** The frame context and the configuration are as before. *)
Definition kept s s' : Prop :=
  s'.(e_ctx).(fctx_in) = s.(e_ctx).(fctx_in) /\ s'.(e_ctx).(config) = s.(e_ctx).(config) /\
  s'.(e_ctx).(max_recv_msg_length) = s.(e_ctx).(max_recv_msg_length) /\
  (es_deliveries s'.(e_env).1 <= es_deliveries s.(e_env).1)%nat.

(** The part normally ends in a state with [P], or it returned early with reading disabled. *)
Definition part {A} (P : A -> ectx -> Prop) (s s' : est) (r : Z + A) : Prop :=
  kept s s' /\ match r with inl _ => s'.(e_ctx).(read_enabled) = false | inr a => P a s'.(e_ctx) end.

Lemma kept_refl s : kept s s.
Proof. done. Qed.
Lemma kept_trans s1 s2 s3 : kept s1 s2 -> kept s2 s3 -> kept s1 s3.
Proof. intros (?&?&?&?) (?&?&?&?). split_and!; [congruence..|lia]. Qed.
Lemma quiet_kept s s' : quiet s s' -> kept s s'.
Proof. intros [(E1&E2&_&_&E3&_) Hd]. done. Qed.
Ltac kept_tac := unfold kept; cbn [e_ctx e_env]; autorewrite with imsg; done.

Lemma part_bind {A B} (P : A -> ectx -> Prop) (Q : B -> ectx -> Prop) (m : CM est Z A) (k : A -> CM est Z B) s :
  cwp m s (part P s) -> (forall a s', kept s s' -> P a s'.(e_ctx) -> cwp (k a) s' (part Q s')) ->
  cwp (m ≫= k) s (part Q s).
Proof.
  intros Hm Hk. apply cwp_bind. eapply cwp_mono; [exact Hm|].
  intros s1 [e|a] [Hkp Hr]; [done|]. eapply cwp_mono; [by apply Hk|].
  intros s2 r2 [Hkp2 Hr2]. split; [by eapply kept_trans|done].
Qed.
Lemma part_ret {A} (P : A -> ectx -> Prop) a s : P a s.(e_ctx) -> cwp (mret a) s (part P s).
Proof. intros HP. apply cwp_ret. split; [apply kept_refl|done]. Qed.
Lemma part_quiet {A} (P : ectx -> Prop) (m : CM est Z A) s :
  quiet_op m -> (forall c', same_recv s.(e_ctx) c' -> P c') -> cwp m s (part (fun _ => P) s).
Proof.
  intros Hm HP. eapply cwp_mono; [apply Hm|]. intros s' r [Hq [a ->]]. split; [by apply quiet_kept|].
  apply HP, Hq.
Qed.
(** Closing the connection and leaving the loop. *)
Lemma part_close_break {A} (P : A -> ectx -> Prop) code reason s :
  cwp (_ ← wslay_event_queue_close_wrapper cb code reason; ebreak) s (part P s).
Proof.
  apply cwp_bind. eapply cwp_mono; [apply close_wrapper_spec|].
  intros s1 [e|[]] [Hq Hr]; [|apply cwp_return]; split; try done; by apply quiet_kept.
Qed.

(** *** Choosing the message *)

Definition frame_begun (op : Z) (c : ectx) : Prop :=
  imsgs_ok c /\ c.(e_ipayloadoff) = 0 /\ (cur_imsg c).(m_opcode) <> 255 /\
  wslay_is_ctrl_frame (cur_imsg c).(m_opcode) = wslay_is_ctrl_frame op /\
  (wslay_is_ctrl_frame op = true -> (cur_imsg c).(m_fin) = 1).

Lemma ctrl_or_data op : is_ctrl_opcode op = true -> wslay_is_ctrl_frame op = true /\ op <> 255.
Proof.
  unfold is_ctrl_opcode. rewrite !orb_true_iff, !Z.eqb_eq. intros [[-> | ->] | ->]; done.
Qed.

Lemma imsg_set_ok max m fin rsv op :
  0 <= max -> imsg_ok max m -> m.(m_opcode) = 255 -> op <> 255 -> imsg_ok max (wslay_event_imsg_set m fin rsv op).
Proof.
  intros Hx (H1 & H2 & H3 & H4) E Hop. destruct (H3 E) as [Hch Hu].
  split_and!; simpl; try done. intros _. rewrite Hch. done.
Qed.

Lemma select_imsg_spec io s :
  imsgs_ok s.(e_ctx) -> between s.(e_ctx) ->
  0 <= io.(in_opcode) < 16 -> (wslay_is_ctrl_frame io.(in_opcode) = true -> io.(in_fin) = 1) ->
  cwp (select_imsg cb io) s (part (fun b c => b = true /\ frame_begun io.(in_opcode) c) s).
Proof.
  intros Hi (Hl & Ho & Hs & Hdata) Hop Hfin. unfold select_imsg. apply cwp_bind, cwp_eget.
  pose proof Hi as (Hx & I0 & I1 & I2). rewrite Hs in I2.
  assert (cur_imsg (e_ctx s) = imsgs0 (e_ctx s)) as Ec by (unfold cur_imsg; by rewrite Hs). rewrite Ec.
  set (op := in_opcode io) in *.
  destruct (Z.eqb_spec (m_opcode (imsgs0 (e_ctx s))) 255) as [E255|E255].
  - destruct (_ || _ || _) eqn:Ek; [|apply part_close_break].
    apply cwp_bind, cwp_emod. apply cwp_ret. simpl. split; [kept_tac|].
    split; [done|]. unfold frame_begun. cbn [e_ctx]. rewrite Ec. autorewrite with imsg. split_and!; try done; simpl.
    + apply set_imsg_ok; [done|apply imsg_set_ok; try done; lia|by rewrite Hs].
    + lia.
  - rewrite Hl, Ho. simpl. destruct (Z.eqb_spec op WSLAY_CONTINUATION_FRAME) as [Ecf|Ecf].
    + apply cwp_bind, cwp_emod. apply cwp_ret. split; [kept_tac|].
      split; [done|]. unfold frame_begun. cbn [e_ctx]. rewrite Ec. autorewrite with imsg. cbn [m_opcode m_fin]. rewrite (Hdata E255), Ecf.
      split_and!; try done. apply set_imsg_ok; [done|apply I0|by rewrite Hs].
    + destruct (is_ctrl_opcode op) eqn:Ek; [|apply part_close_break].
      destruct (ctrl_or_data op Ek) as [Hc Hn].
      apply cwp_bind, cwp_emod. apply cwp_ret. split; [kept_tac|].
      split; [done|]. unfold frame_begun. cbn [e_ctx]. autorewrite with imsg. split_and!; try done.
      unfold imsgs_ok, set_imsg, cur_imsg. simpl. split; [done|]. split; [done|].
      split; [apply imsg_set_ok; try done; lia|]. done.
Qed.
(** *** Starting a frame *)

Lemma same_recv_begun op c c' : same_recv c c' -> frame_begun op c -> frame_begun op c'.
Proof.
  intros Hs (H1 & H2 & H3). split; [by eapply same_recv_imsgs|]. rewrite (same_recv_cur c c' Hs).
  destruct Hs as (_&_&_&_&_&_&_&_&_&E&_). by rewrite E.
Qed.

Lemma imsg_append_ok max m len :
  imsg_ok max m -> max < 2 ^ 63 -> 0 <= len < 2 ^ 63 -> m.(m_opcode) <> 255 -> m.(msg_length) + len <= max ->
  imsg_ok max (imsg_append m len).
Proof.
  intros (H1 & H2 & H3 & H4) Hx Hl Hop Hsum. destruct (H4 Hop) as [Hm Hle].
  assert (0 <= msg_length m) by (rewrite Hm; apply zlen_nonneg).
  unfold imsg_ok, imsg_append, utf8_ok. simpl. split; [done|]. split; [done|]. split; [done|]. intros _.
  rewrite uwrap_id by lia. rewrite concat_app, zlen_app, Hm. simpl. rewrite app_nil_r.
  split; [|lia]. f_equal. unfold zlen. rewrite length_replicate. lia.
Qed.

Lemma start_frame_spec io s :
  frame_begun io.(in_opcode) s.(e_ctx) -> 0 <= io.(in_payload_length) < 2 ^ 63 ->
  cwp (start_frame cb io) s (part (fun _ c => imsgs_ok c /\ in_frame c io.(in_opcode) io.(in_payload_length) 0) s).
Proof.
  intros Hb Hpl. unfold start_frame. apply cwp_bind, cwp_eget.
  pose proof Hb as (Hi & Ho & H255 & Hct & Hfin). pose proof Hi as (Hx & _).
  destruct (cur_imsg_ok _ Hi) as (_ & _ & _ & H4). destruct (H4 H255) as [Hm Hle].
  assert (0 <= msg_length (cur_imsg (e_ctx s))) by (rewrite Hm; apply zlen_nonneg).
  rewrite uwrap_id by lia.
  destruct (Z.ltb_spec (max_recv_msg_length (e_ctx s))
    (msg_length (cur_imsg (e_ctx s)) + in_payload_length io)) as [Hbig|Hfit].
  { apply cwp_bind. eapply cwp_mono; [apply (part_close_break (A:=unit) (fun _ _ => False))|].
    intros s' [e|a] [Hk Hr]; [done|destruct Hr]. }
  apply cwp_bind, cwp_ret. apply cwp_bind, cwp_emod.
  set (s1 := mkE _ _). assert (kept s s1) as Hk1 by done.
  assert (cwp (call_back cb (on_frame_recv_start cb)
     (mkStartArg (in_fin io) (in_rsv io) (in_opcode io) (in_payload_length io))) s1
     (part (fun _ c' => same_recv s1.(e_ctx) c') s1)) as Hcb.
  { apply part_quiet; [|done]. apply quiet_call_back. intros. by eapply es_start. }
  apply cwp_bind. eapply cwp_mono; [exact Hcb|]. intros s2 [e|[]] [Hk2 Hs2].
  { split; [by eapply kept_trans|done]. }
  assert (frame_begun (in_opcode io) (e_ctx s2)) as Hb2 by (eapply same_recv_begun; [exact Hs2|exact Hb]).
  assert (cur_imsg (e_ctx s2) = cur_imsg (e_ctx s)) as Ec by (exact (same_recv_cur _ _ Hs2)).
  destruct Hs2 as (Ecfg&Emax&_&_&_&_&_&_&Elen&_). simpl in Ecfg, Emax, Elen.
  pose proof Hb2 as (Hi2 & Ho2 & H2552 & Hct2 & Hfin2).
  apply cwp_bind, cwp_eget. unfold buffered. apply cwp_when.
  - intros [Hbuf Hnz]%andb_true_iff. apply negb_true_iff, Z.eqb_neq in Hnz.
    apply cwp_bind. eapply cwp_mono; [apply quiet_ealloc|]. intros s3 r [Hq [ok ->]].
    pose proof (quiet_kept _ _ Hq) as Hk3. destruct Hq as [Hs3 _]. destruct ok; simpl negb; cbv iota.
    + apply cwp_emod. split; [eapply kept_trans; [exact Hk1|]; eapply kept_trans; [exact Hk2|];
        eapply kept_trans; [exact Hk3|kept_tac]|].
      cbn [e_ctx]. pose proof (same_recv_begun _ _ _ Hs3 Hb2) as (Hi3 & Ho3 & H2553 & Hct3 & Hfin3).
      pose proof (same_recv_cur _ _ Hs3) as Ec3. rewrite Ec in Ec3.
      destruct Hs3 as (_&Emax3&_&_&_&_&_&_&Elen3&_).
      split.
      * apply set_imsg_ok; [done| |by apply imsgs_ok_second].
        apply imsg_append_ok; try lia; [by apply cur_imsg_ok|rewrite Ec3, Emax3, Emax; lia].
      * unfold in_frame. autorewrite with imsg. cbn [m_opcode m_fin chunks imsg_append].
        split; [congruence|]. split; [done|]. split; [done|]. split; [done|]. split; [done|].
        intros _ _. eexists _, _. split; [done|]. unfold zlen. rewrite length_replicate. lia.
    + apply cwp_bind, cwp_emod. apply cwp_return.
      split; [eapply kept_trans; [exact Hk1|]; eapply kept_trans; [exact Hk2|exact Hk3]|done].
  - intros Hno. split; [by eapply kept_trans|]. split; [done|].
    unfold in_frame. split; [done|]. split; [done|]. split; [done|]. split; [done|]. split; [done|].
    intros Hbuf Hnz. rewrite Hbuf in Hno. simpl in Hno. apply negb_false_iff, Z.eqb_eq in Hno. done.
Qed.

(** *** Validation and storing *)

Definition chunk_state (op len off : Z) (c : ectx) : Prop := imsgs_ok c /\ in_frame c op len off.

Lemma same_recv_chunk op len off c c' : same_recv c c' -> chunk_state op len off c -> chunk_state op len off c'.
Proof. intros Hs [? ?]. split; [by eapply same_recv_imsgs|by eapply same_recv_in_frame]. Qed.

(** Changing only the automaton's state. *)
Lemma chunk_state_utf8 op len off c st :
  chunk_state op len off c -> enc st <> UTF8_REJECT ->
  chunk_state op len off (set_imsg c {| (cur_imsg c) with utf8state := enc st |}).
Proof.
  intros [Hi Hf] Hst. pose proof (cur_imsg_ok _ Hi) as (H1 & H2 & H3 & H4).
  destruct Hf as (F1 & F2 & F3 & F4 & F5 & F6). split.
  - apply set_imsg_ok; [done| |exact (imsgs_ok_second c Hi)].
    split; [by exists st|]. split; [done|]. split; [intros E; done|done].
  - unfold in_frame. autorewrite with imsg. cbn [m_opcode m_fin chunks]. done.
Qed.

Lemma utf8_check_spec op len off l s :
  chunk_state op len off s.(e_ctx) -> bytes_ok l ->
  cwp (utf8_check cb l) s (part (fun _ c =>
    chunk_state op len off c \/ (cur_imsg c).(utf8state) = UTF8_REJECT /\ c.(read_enabled) = false) s).
Proof.
  intros Hc Hl. revert s Hc. induction Hl as [|b l Hb Hl IH]; intros s Hc; simpl.
  { apply part_ret. by left. }
  apply cwp_bind, cwp_eget. destruct (proj1 (cur_imsg_ok _ (proj1 Hc))) as [st Est]. rewrite Est.
  destruct (decode_ustep st 0 b Hb) as [cp Ed]. apply cwp_bind. eapply cwp_lift; [exact Ed|].
  cbn [fst]. set (st' := ustep st b). apply cwp_bind, cwp_emod.
  destruct (Z.eqb_spec (enc st') UTF8_REJECT) as [Er|Er].
  - eapply cwp_mono; [apply close_wrapper_spec|]. intros s2 r [Hq Hro].
    split; [eapply kept_trans; [|by apply quiet_kept]; kept_tac|]. destruct r; [done|]. right.
    split; [|done]. rewrite (same_recv_cur _ _ (proj1 Hq)). cbn [e_ctx]. by autorewrite with imsg.
  - eapply cwp_mono; [apply IH; by apply chunk_state_utf8|].
    intros s2 r [Hk Hr]. split; [eapply kept_trans; [|exact Hk]; kept_tac|done].
Qed.

Lemma validate_chunk_spec op len off io s :
  chunk_state op len off s.(e_ctx) -> bytes_ok io.(in_data) ->
  cwp (validate_chunk cb io) s (part (fun _ => chunk_state op len off) s).
Proof.
  intros Hc Hb. unfold validate_chunk. apply cwp_bind, cwp_eget.
  apply (part_bind (fun _ c => chunk_state op len off c \/
     (cur_imsg c).(utf8state) = UTF8_REJECT /\ c.(read_enabled) = false)).
  - apply cwp_when; intros _; [apply utf8_check_spec; [done|by apply Forall_drop]|].
    split; [done|]. by left.
  - intros [] s1 Hk1 H1. apply cwp_bind, cwp_eget.
    destruct (Z.eqb_spec (utf8state (cur_imsg (e_ctx s1))) UTF8_REJECT) as [Er|Er]; simpl.
    + apply cwp_return. split; [done|]. destruct H1 as [[Hi _]|[_ ?]]; [|done].
      exfalso. destruct (cur_imsg_ok _ Hi) as (_ & H2 & _). done.
    + apply cwp_ret. split; [done|]. destruct H1 as [?|[? _]]; done.
Qed.

Lemma imsg_chunk_copy_ok m l blk off data :
  m.(chunks) = l ++ [blk] -> 0 <= off -> off + zlen data <= zlen blk ->
  exists blk', imsg_chunk_copy m off data = Some {| m with chunks := l ++ [blk'] |} /\ zlen blk' = zlen blk.
Proof.
  intros E Ho Hle. unfold imsg_chunk_copy. rewrite E, reverse_snoc.
  unfold memcpy. pose proof (zlen_nonneg data).
  destruct (Z.ltb_spec off 0); [lia|]. destruct (Z.ltb_spec (zlen blk) (off + zlen data)); [lia|]. simpl.
  eexists. split; [rewrite reverse_cons, reverse_involutive; done|].
  rewrite !zlen_app. unfold zlen in *. rewrite length_take, length_drop. lia.
Qed.

Lemma store_chunk_spec op len off io s :
  chunk_state op len off s.(e_ctx) -> op = io.(in_opcode) -> 0 <= off -> off + zlen io.(in_data) <= len -> len < 2 ^ 63 ->
  cwp (store_chunk io) s (part (fun _ => chunk_state op len (off + zlen io.(in_data))) s).
Proof.
  intros [Hi (F1 & F2 & F3 & F4 & F5 & F6)] Eop Ho Hle Hlen. pose proof (zlen_nonneg (in_data io)).
  unfold store_chunk. apply cwp_when.
  2:{ intros Hz%Z.ltb_ge. split; [done|]. replace (off + zlen (in_data io)) with off by lia. done. }
  intros Hpos%Z.ltb_lt. apply cwp_bind, cwp_eget.
  apply (part_bind (fun _ => chunk_state op len off)).
  - apply cwp_when; intros Hbuf; [|done]. unfold buffered in Hbuf. rewrite <- Eop in Hbuf.
    destruct (F6 Hbuf) as (l & blk & Ech & Hblk); [lia|].
    destruct (imsg_chunk_copy_ok (cur_imsg (e_ctx s)) l blk off (in_data io) Ech Ho) as (blk' & Ecp & Hblk'); [lia|].
    rewrite F2. apply cwp_bind. eapply cwp_lift; [exact Ecp|]. apply cwp_emod. split; [kept_tac|]. cbn [e_ctx].
    pose proof (cur_imsg_ok _ Hi) as (H1 & H2 & H3 & H4). split.
    + apply set_imsg_ok; [done| |exact (imsgs_ok_second _ Hi)].
      split; [exact H1|]. split; [exact H2|]. split; [intros E; done|]. intros E. destruct (H4 E) as [Hm Hx].
      cbn [msg_length chunks]. split; [|done]. rewrite Hm, Ech, !concat_app, !zlen_app. simpl. rewrite !app_nil_r. lia.
    + unfold in_frame. autorewrite with imsg. cbn [m_opcode m_fin chunks]. split_and!; try done.
      intros _ _. exists l, blk'. split; [done|lia].
  - intros [] s1 Hk1 [Hi1 (G1 & G2 & G3 & G4 & G5 & G6)]. apply cwp_emod. split; [done|].
    split; [exact Hi1|]. unfold in_frame. cbn [e_ctx e_ipayloadlen e_ipayloadoff].
    rewrite G2, uwrap_id by lia. done.
Qed.
(** *** The end of a frame *)

(** What does not depend on the current message. *)
Definition others_ok (c : ectx) : Prop :=
  0 <= c.(max_recv_msg_length) < 2 ^ 63 /\
  (if c.(imsg_second)
   then imsg_ok c.(max_recv_msg_length) c.(imsgs0) /\
     (c.(imsgs0).(m_opcode) <> 255 -> wslay_is_ctrl_frame c.(imsgs0).(m_opcode) = false)
   else imsg_ok c.(max_recv_msg_length) c.(imsgs1) /\ c.(imsgs1).(m_opcode) = 255).

Lemma imsgs_others c : imsgs_ok c -> others_ok c.
Proof. intros (Hx & H0 & H1 & H2). split; [done|]. destruct (imsg_second c); [|done]. by destruct H2. Qed.
Lemma others_set_imsg c m : others_ok c -> others_ok (set_imsg c m).
Proof.
  intros [Hx Hr]. unfold others_ok, set_imsg. destruct (imsg_second c) eqn:E; simpl; by rewrite ?E.
Qed.
Lemma same_recv_others c c' : same_recv c c' -> others_ok c -> others_ok c'.
Proof. intros (?&E&?&?&?&E0&E1&E2&?). unfold others_ok. by rewrite E, E0, E1, E2. Qed.

(** The message that was finished is reset, and the other one is current. *)
Definition finish_reset (c : ectx) : ectx :=
  let c := set_imsg c (wslay_event_imsg_reset (cur_imsg c)) in
  {| c with imsg_second := false; e_ipayloadlen := 0; e_ipayloadoff := 0 |}.

Lemma finish_reset_ok c : others_ok c -> imsgs_ok (finish_reset c) /\ between (finish_reset c).
Proof.
  intros [Hx Ho].
  assert (forall m, imsg_ok (max_recv_msg_length c) (wslay_event_imsg_reset m)) as Hr.
  { intros m. split_and!; simpl; try done. by exists UAccept. }
  unfold finish_reset, imsgs_ok, between, set_imsg, cur_imsg. destruct (imsg_second c) eqn:E; simpl.
  - destruct Ho as [H0 Hd]. split; [split_and!; try done; lia|done].
  - destruct Ho as [H1 E1]. split; [split_and!; try done; lia|done].
Qed.

Lemma others_quiet {A} (m : CM est Z A) s : quiet_op m -> others_ok s.(e_ctx) -> cwp m s (part (fun _ => others_ok) s).
Proof. intros Hm Ho. apply part_quiet; [done|]. intros c' Hs. by eapply same_recv_others. Qed.

Lemma handle_close_spec msg s :
  others_ok s.(e_ctx) -> (2 <= (cur_imsg s.(e_ctx)).(msg_length) -> (cur_imsg s.(e_ctx)).(msg_length) = zlen msg) ->
  cwp (handle_close cb msg) s (part (fun _ => others_ok) s).
Proof.
  intros Ho Hlen. unfold handle_close. apply cwp_bind, cwp_eget.
  apply (part_bind (fun _ => others_ok)).
  - destruct (Z.leb_spec 2 (msg_length (cur_imsg (e_ctx s)))) as [Hge|_]; [|by apply part_ret].
    specialize (Hlen Hge). rewrite Hlen in Hge.
    destruct msg as [|b0 [|b1 msg]]; [done|done|]. apply cwp_bind. eapply cwp_lift; [done|].
    apply cwp_bind. eapply cwp_lift; [done|].
    apply (part_bind (fun _ => others_ok)).
    + destruct (negb _); [|by apply part_ret]. apply part_close_break.
    + intros [] s1 _ Ho1. by apply part_ret.
  - intros cr s1 _ Ho1. apply cwp_bind, cwp_emod. apply cwp_bind.
    eapply cwp_mono; [apply close_wrapper_spec|]. intros s2 [e|[]] [Hq Hr].
    + split; [|done]. eapply kept_trans; [|by apply quiet_kept]. done.
    + apply cwp_ret. split; [eapply kept_trans; [|by apply quiet_kept]; done|].
      destruct Hq as [Hs _]. by eapply same_recv_others.
Qed.

Lemma handle_ping_spec msg s :
  others_ok s.(e_ctx) -> cwp (handle_ping cb msg) s (part (fun _ => others_ok) s).
Proof.
  intros Ho. unfold handle_ping. apply (part_bind (fun _ => others_ok)); [apply others_quiet; [apply quiet_queue_msg|done]|].
  intros r s1 _ Ho1. apply cwp_when; intros _; [|done].
  apply cwp_bind, cwp_emod. by apply cwp_return.
Qed.

Lemma finish_msg_spec op len off io s :
  chunk_state op len off s.(e_ctx) -> op = io.(in_opcode) ->
  cwp (finish_msg cb io) s (part (fun _ => others_ok) s).
Proof.
  intros [Hi (F1 & F2 & F3 & F4 & F5 & F6)] Eop. unfold finish_msg. apply cwp_bind, cwp_eget.
  destruct (cur_imsg_ok _ Hi) as (_ & _ & _ & H4). destruct (H4 F3) as [Hm Hmax].
  set (m := cur_imsg (e_ctx s)) in *.
  apply (part_bind (fun msg c => others_ok c /\ (cur_imsg c).(msg_length) = msg_length m /\
     (wslay_is_ctrl_frame (m_opcode m) = true -> zlen msg = msg_length m))).
  - destruct (buffered (e_ctx s) io) eqn:Eb.
    2:{ apply part_ret. split; [by apply imsgs_others|]. split; [done|]. rewrite F4, Eop. intros E.
        unfold buffered in Eb. rewrite E, orb_true_r in Eb. done. }
    apply (part_bind (fun _ c => imsgs_ok c /\ cur_imsg c = m)).
    + destruct (msg_length m =? 0); [by apply part_ret|].
      apply part_quiet; [apply quiet_ealloc|]. intros c' Hs. split; [by eapply same_recv_imsgs|exact (same_recv_cur _ _ Hs)].
    + intros ok s1 _ [Hi1 Ec1]. destruct (negb ok).
      { apply cwp_bind, cwp_emod. by apply cwp_return. }
      apply cwp_bind, cwp_eget. rewrite Ec1.
      assert (exists m', wslay_event_flatten_queue m (msg_length m) = Some (concat m.(chunks), m') /\
        m'.(msg_length) = msg_length m) as (m' & Ef & Em').
      { unfold wslay_event_flatten_queue. destruct (Z.eqb_spec (msg_length m) 0) as [E0|E0].
        - exists m. split; [|done]. rewrite Hm in E0. destruct (concat (chunks m)); [done|].
          rewrite zlen_cons in E0. pose proof (zlen_nonneg l). lia.
        - rewrite <- Hm, Z.eqb_refl. by eexists. }
      apply cwp_bind. eapply cwp_lift; [exact Ef|]. apply cwp_bind, cwp_emod. apply cwp_ret.
      split; [kept_tac|]. cbn [e_ctx fst snd]. autorewrite with imsg.
      split; [apply others_set_imsg, imsgs_others; done|]. by rewrite Em', Hm.
  - intros msg s1 _ (Ho1 & El & Ez).
    apply (part_bind (fun _ => others_ok)).
    + destruct (Z.eqb_spec (m_opcode m) WSLAY_CONNECTION_CLOSE) as [E|_].
      { apply handle_close_spec; [done|]. intros _. rewrite El, Ez; [done|]. by rewrite E. }
      destruct (m_opcode m =? WSLAY_PING); [|by apply part_ret].
      apply (part_bind (fun _ => others_ok)); [by apply handle_ping_spec|]. intros [] s2 _ Ho2. by apply part_ret.
    + intros code s2 _ Ho2. apply cwp_when; intros _; [|done].
      apply cwp_bind, cwp_eget. apply (part_bind (fun _ => others_ok)); [by apply others_quiet; [apply quiet_error|]|].
      intros [] s3 _ Ho3. apply others_quiet; [|done]. apply quiet_call_back. intros. by eapply es_msg.
Qed.

Lemma end_frame_spec op len io s :
  chunk_state op len len s.(e_ctx) -> op = io.(in_opcode) ->
  cwp (end_frame cb io) s (part (fun _ c => imsgs_ok c /\ between c) s).
Proof.
  intros Hc Eop. unfold end_frame. apply cwp_bind, cwp_eget.
  apply (part_bind (fun _ => chunk_state op len len)).
  { destruct (_ && _); [apply part_close_break|by apply part_ret]. }
  intros [] s1 _ Hc1. apply (part_bind (fun _ => chunk_state op len len)).
  { apply part_quiet; [|intros c' Hs; by eapply same_recv_chunk].
    apply quiet_call_back. intros g u u' l E. destruct (on_frame_recv_end cb) as [f|] eqn:Ef; simpl in E; [|done].
    injection E as <-. intros E. by eapply es_end. }
  intros [] s2 _ Hc2. apply cwp_bind, cwp_eget.
  pose proof Hc2 as [Hi2 (F1 & F2 & F3 & F4 & F5 & F6)].
  destruct (Z.eqb_spec (m_fin (cur_imsg (e_ctx s2))) 0) as [Ef|Ef]; simpl cwhen.
  - apply cwp_bind, cwp_ret. apply cwp_emod. split; [done|]. cbn [e_ctx].
    split; [exact Hi2|].
    assert (wslay_is_ctrl_frame (m_opcode (cur_imsg (e_ctx s2))) = false) as Hd.
    { rewrite F4. destruct (wslay_is_ctrl_frame op); [|done]. specialize (F5 eq_refl). lia. }
    assert (imsg_second (e_ctx s2) = false) as Hsec.
    { destruct (imsg_second (e_ctx s2)) eqn:E; [|done].
      destruct (imsgs_ok_second _ Hi2 E) as [Hct _]. by rewrite Hct in Hd. }
    unfold between. cbn [e_ipayloadlen e_ipayloadoff imsg_second imsgs0]. split_and!; try done. intros _.
    unfold cur_imsg in Hd. by rewrite Hsec in Hd.
  - apply (part_bind (fun _ c' => exists c, others_ok c /\
       c' = {| (set_imsg c (wslay_event_imsg_reset (cur_imsg c))) with imsg_second := false |})).
    + apply (part_bind (fun _ => others_ok)).
      * apply cwp_when; intros _; [by eapply finish_msg_spec|]. split; [done|]. by apply imsgs_others.
      * intros [] s3 _ Ho3. apply cwp_emod. split; [kept_tac|]. by exists (e_ctx s3).
    + intros [] s3 _ (c & Ho & E). apply cwp_emod. split; [done|]. cbn [e_ctx]. rewrite E.
      exact (finish_reset_ok c Ho).
Qed.
(** *** One chunk, one iteration, the loop *)

Lemma handle_iocb_spec fi io s :
  coupled s.(e_ctx) fi -> safe_chunk (U:=U * Z) fi (s.(e_env), s.(e_ctx).(fctx_in)) io -> resting fi ->
  fin_ok fi ->
  cwp (handle_iocb cb io) s (part (fun _ c => coupled c s.(e_ctx).(fctx_in)) s).
Proof.
  intros [Hi Hcp] (S1 & S2 & S3 & S4 & S5 & S6 & S7 & S8) Hrest Hfin. set (op := in_opcode io) in *.
  set (off := if mid_frame fi then ipayloadoff fi else 0) in *.
  unfold handle_iocb. apply cwp_bind, cwp_eget.
  apply (part_bind (fun _ c => imsgs_ok c /\
    (if mid_frame fi then in_frame c (iom_opcode fi) (ipayloadlen fi) (ipayloadoff fi) else between c))).
  { destruct (iocb_illegal _ _); [apply part_close_break|by apply part_ret]. }
  clear Hi Hcp. intros [] s1 _ [Hi Hcp].
  (* the frame is begun or goes on *)
  assert (cwp (new_frame ← select_imsg cb io; cwhen new_frame (start_frame cb io)) s1
    (part (fun _ => chunk_state op (in_payload_length io) off) s1)) as Hstart.
  { unfold off. destruct (mid_frame fi) eqn:Em.
    - destruct (S5 eq_refl) as [El Eo]. destruct Hcp as (F1 & F2 & F3 & F4 & F5 & F6).
      assert (0 < ipayloadoff fi) by (unfold mid_frame in Em; apply andb_true_iff in Em as [_ E%Z.ltb_lt]; done).
      apply cwp_bind. unfold select_imsg. apply cwp_bind, cwp_eget.
      rewrite (proj2 (Z.eqb_neq _ _) F3), F2, (proj2 (Z.eqb_neq (ipayloadoff fi) 0)) by lia.
      rewrite andb_false_r. apply cwp_ret. simpl. apply part_ret. split; [done|].
      rewrite El, Eo. done.
    - apply (part_bind (fun b c => b = true /\ frame_begun op c)); [by apply select_imsg_spec|].
      intros b s2 _ [-> Hb]. simpl. by apply start_frame_spec. }
  assert (0 <= off) as Hoff.
  { unfold off. destruct (mid_frame fi) eqn:Em; [|lia]. unfold mid_frame in Em.
    apply andb_true_iff in Em as [_ E%Z.ltb_lt]. lia. }
  apply cwp_assoc. apply (part_bind _ _ _ _ _ Hstart). intros [] s2 _ Hc2.
  apply (part_bind (fun _ => chunk_state op (in_payload_length io) off)); [by apply validate_chunk_spec|].
  intros [] s3 _ Hc3. apply (part_bind (fun _ => chunk_state op (in_payload_length io) off)).
  { apply part_quiet; [|intros c' Hs; by eapply same_recv_chunk].
    apply quiet_call_back. intros. by eapply es_chunk. }
  intros [] s4 _ Hc4. apply (part_bind (fun _ => chunk_state op (in_payload_length io) (off + zlen (in_data io)))).
  { apply store_chunk_spec; try done. lia. }
  intros [] s5 _ Hc5. apply cwp_bind, cwp_eget. pose proof Hc5 as [Hi5 (F1 & F2 & _)]. rewrite F1, F2.
  unfold coupled. cbn [snd] in S8.
  destruct (Z.eqb_spec (off + zlen (in_data io)) (in_payload_length io)) as [Ee|Ee]; simpl cwhen.
  - rewrite S8. rewrite Ee in Hc5. by eapply end_frame_spec.
  - destruct S8 as (-> & -> & -> & ->). by apply part_ret.
Qed.
Definition frame_deliveries (e : U * Z) : nat := es_deliveries e.1.

Lemma frame_cb_bytes e n e' l :
  recv_callback (frame_cb cb) e n = (e', l) -> 0 < n -> bytes_ok l /\ zlen l <= n.
Proof.
  simpl. destruct (ev_recv cb e.1 n) as [[u' l'] err] eqn:E. intros E' Hn. injection E' as <- <-.
  by eapply es_bytes.
Qed.
Lemma frame_cb_finite e n e' l :
  recv_callback (frame_cb cb) e n = (e', l) ->
  match l with
  | [] => (frame_deliveries e' <= frame_deliveries e)%nat
  | _ => (frame_deliveries e' < frame_deliveries e)%nat
  end.
Proof.
  simpl. destruct (ev_recv cb e.1 n) as [[u' l'] err] eqn:E. intros E'. injection E' as <- <-.
  exact (es_finite _ _ _ _ _ E).
Qed.

(** What is left to receive. *)
Definition pending_work s : Z := work frame_deliveries (s.(e_env), s.(e_ctx).(fctx_in)).

Lemma kept_work s s' : kept s s' -> pending_work s' <= pending_work s.
Proof. intros (E & _ & _ & Hd). unfold pending_work, work, frame_deliveries. simpl. rewrite E. lia. Qed.

Lemma handle_recv_error_spec e s :
  rinv s.(e_ctx) -> cwp (handle_recv_error cb e) s (fun s' r => rinv s'.(e_ctx) /\ exists v, r = inl v).
Proof.
  intros Hr. unfold handle_recv_error. apply cwp_bind, cwp_get.
  destruct (_ || _); simpl cwhen; [|apply cwp_bind, cwp_ret, cwp_return; eauto].
  apply cwp_bind, cwp_bind. eapply cwp_mono; [apply close_wrapper_spec|].
  intros s1 r [Hq Hro]. assert (rinv (e_ctx s1)) as Hr1.
  { destruct Hr as (R1 & R2 & R3). destruct Hq as [Hs _]. pose proof Hs as (_&_&_&_&Ef&_).
    unfold rinv. rewrite Ef, Hro. done. }
  destruct r as [v|[]]; [eauto|]. apply cwp_return. eauto.
Qed.

Lemma coupled_frame_ctx c fi fi' : coupled c fi -> coupled {| c with fctx_in := fi' |} fi.
Proof. done. Qed.

Lemma recv_iter_spec s :
  rinv s.(e_ctx) -> s.(e_ctx).(read_enabled) = true ->
  cwp (recv_iter cb) s (fun s' r => rinv s'.(e_ctx) /\
    match r with inl _ => True | inr _ => pending_work s' < pending_work s end).
Proof.
  intros (R1 & R2 & R3) Hre. specialize (R3 Hre). unfold recv_iter, call_frame_recv.
  pose proof (frame_recv_safe_lemma (frame_cb cb) frame_deliveries frame_cb_bytes frame_cb_finite
    s.(e_env) s.(e_ctx).(fctx_in) R1 R2) as Hw.
  destruct (cwp_Some _ _ _ Hw) as ([env' fi'] & res & E & Q1 & Q2 & Q3). clear Hw. cbn [snd] in Q1, Q2.
  apply cwp_bind, cwp_bind, cwp_get, cwp_bind. eapply cwp_lift; [exact E|].
  apply cwp_bind, cwp_mod, cwp_ret. cbn [e_ctx].
  set (c1 := shut cb env' _).
  assert (fctx_in c1 = fi' /\ (forall fi, coupled (e_ctx s) fi -> coupled c1 fi)) as [Ec1 Hc1]
    by (unfold c1, shut; destruct (ev_shut cb env'.1) as [[] []]; done).
  destruct res as [e|io].
  - destruct Q3 as (_ & _ & Hm & Hsame). cbn [snd] in Hm, Hsame.
    eapply cwp_mono; [apply handle_recv_error_spec|].
    + unfold rinv. cbn [e_ctx]. rewrite Ec1. split; [exact Q1|]. split; [exact Q2|]. intros _. apply Hc1.
      destruct R3 as [Hi Hcp]. split; [exact Hi|]. rewrite Hm.
      destruct (mid_frame (fctx_in (e_ctx s))); [|exact Hcp].
      destruct (Hsame eq_refl) as (-> & -> & ->). exact Hcp.
    + intros s' r [Hr [v ->]]. done.
  - destruct Q3 as [Q3 Q4].
    set (s1 := mkE env' _).
    assert (coupled (e_ctx s1) (fctx_in (e_ctx s))) as Hcp by (apply Hc1; exact R3).
    assert (safe_chunk (fctx_in (e_ctx s)) (e_env s1, fctx_in (e_ctx s1)) io) as Hsc by (cbn [s1 e_ctx e_env]; rewrite Ec1; exact Q3).
    eapply cwp_mono; [exact (handle_iocb_spec _ io s1 Hcp Hsc R2 R1)|].
    intros s2 r [Hk Hr]. pose proof (kept_work _ _ Hk) as Hwk. destruct Hk as (Ef & _). cbn [s1 e_ctx] in Ef. rewrite Ec1 in Ef.
    split; [|destruct r; [done|]; unfold pending_work in *; cbn [e_env e_ctx s1] in *; rewrite ?Ec1 in *; lia].
    unfold rinv. rewrite Ef. split; [exact Q1|]. split; [exact Q2|]. intros Hre2.
    destruct r as [v|[]]; [by rewrite Hr in Hre2|]. cbn [s1 e_ctx] in Hr. rewrite Ec1 in Hr. exact Hr.
Qed.

Lemma pending_work_nonneg s : rinv s.(e_ctx) -> 0 <= pending_work s.
Proof. intros ((? & _) & _). by apply work_nonneg. Qed.

Lemma event_recv_lemma fuel s :
  rinv s.(e_ctx) -> pending_work s < Z.of_nat fuel ->
  cwp (wslay_event_recv cb fuel) s (fun s' _ => rinv s'.(e_ctx)).
Proof.
  revert s. induction fuel as [|fuel IH]; intros s Hr Hf.
  { pose proof (pending_work_nonneg s Hr). lia. }
  simpl. apply cwp_bind, cwp_eget. destruct (read_enabled (e_ctx s)) eqn:Hre; [|by apply cwp_ret].
  apply cwp_bind. eapply cwp_mono; [by apply recv_iter_spec|].
  intros s1 [v|[]] [Hr1 Hw1]; [done|]. apply IH; [done|lia].
Qed.
End Triples.

Lemma rinv_init server : rinv (wslay_event_context_init server).
Proof.
  split; [exact fin_init_ok|]. split; [done|]. intros _.
  assert (imsg_ok 2147483647 imsg_init) as Hm.
  { split_and!; simpl; try done. by exists UAccept. }
  split; [|by split_and!]. split; [simpl; lia|]. by split_and!.
Qed.

(** ** The property *)

(** C19. [wslay_event_recv] against a hostile peer: from any state reachable by receiving
    (starting with the initial one), whatever the peer sends and however the callbacks use the
    API, the call returns after a bounded number of iterations, never writes a chunk outside of
    its block, never violates an assertion of [wslay_event_flatten_queue] and never indexes the
    UTF-8 tables out of range, and ends in such a state again. *)
Theorem event_recv_safe {U} (cb : event_callbacks U) `{EventSource U cb} s fuel :
  rinv s.(e_ctx) -> pending_work cb s < Z.of_nat fuel ->
  exists s' r, wslay_event_recv cb fuel s = Some (s', r) /\ rinv s'.(e_ctx).
Proof. intros Hr Hf. apply cwp_Some. exact (event_recv_lemma cb fuel s Hr Hf). Qed.

#[export] Program Instance demo_source : EventSource demo_cb := {| es_deliveries u := length u.(d_in) |}.
Next Obligation.
  intros u n u' l e E Hn. simpl in E. destruct (d_in u) as [|p r]; injection E as <- <- <-.
  - split; [constructor|rewrite zlen_nil; lia].
  - split; [|unfold zlen; rewrite length_fmap, length_take; lia].
    apply Forall_fmap, Forall_true. intros x. split; apply (uwrap_range 8); lia.
Qed.
Next Obligation.
  intros u n u' l e E. simpl in E. destruct (d_in u) as [|p r] eqn:Ei; injection E as <- <- <-; simpl.
  - rewrite Ei. done.
  - rewrite Ei. simpl. destruct (u8 <$> _); lia.
Qed.
Next Obligation. intros u n u' b E. injection E as <- <-. done. Qed.
Next Obligation. done. Qed.
Next Obligation. done. Qed.
Next Obligation. done. Qed.
Next Obligation. intros f u a u' l E E'. injection E as <-. injection E' as <- <-. done. Qed.

(** An unmasked frame to a server (illegal), then garbage. *)
Lemma event_recv_safe_witness :
  exists s' r, wslay_event_recv demo_cb 10000
    (mkE (mkDemo [[129; 1; 65]; [255; 255]] [] [], 0) (wslay_event_context_init true)) = Some (s', r) /\
    rinv s'.(e_ctx).
Proof.
  apply (event_recv_safe demo_cb).
  - apply rinv_init.
  - vm_compute. reflexivity.
Defined.
