(* ===== verification/EventInv.v ===== *)
(** * EventInv: invariants of the message layer over every sequence of operations

    The steps of a WebSocket connection are the public API calls and the runs of
    [wslay_event_recv] and [wslay_event_send]; [event_inv] holds in every state reachable from
    [wslay_event_context_init], and with it what the header promises, [event_wf]. *)
From S2P Require Import Prelude Utf8 Frame Event.

Definition ctrl_ok (o : omsg) : Prop :=
  wslay_is_ctrl_frame o.(o_opcode) = true /\ o.(o_type) = WSLAY_NON_FRAGMENTED /\ o.(o_data_length) <= 125.
(** Fragmented messages carry no data of their own. *)
Definition data_ok (o : omsg) : Prop :=
  wslay_is_ctrl_frame o.(o_opcode) = false /\ (o.(o_type) = WSLAY_FRAGMENTED -> o.(o_data_length) = 0).
Definition omsg_ok (o : omsg) : Prop := ctrl_ok o \/ data_ok o.

(** Messages accepted and not completely sent, and their payload bytes. *)
Definition outstanding (c : ectx) : list omsg :=
  option_list c.(c_omsg) ++ c.(send_ctrl_queue) ++ c.(send_queue).
Definition total_length (l : list omsg) : Z := foldr (fun o n => o.(o_data_length) + n) 0 l.

Record event_inv (c : ectx) : Prop := {
  inv_ctrl : Forall ctrl_ok c.(send_ctrl_queue);
  inv_data : Forall data_ok c.(send_queue);
  inv_cur : forall o, c.(c_omsg) = Some o -> omsg_ok o;
  inv_sent : has_close c WSLAY_CLOSE_SENT = true -> c.(write_enabled) = false;
  inv_recv : has_close c WSLAY_CLOSE_RECEIVED = true -> c.(read_enabled) = false;
  inv_count : has_close c WSLAY_CLOSE_QUEUED = false ->
    c.(queued_msg_count) = u64 (zlen (outstanding c)) /\
    c.(queued_msg_length) = u64 (total_length (outstanding c)) }.

(** What [wslay_event.h] promises of the fields: the counters are about the queues, so they are exact when no message is under way. *)
Record event_wf (c : ectx) : Prop := {
  wf_ctrl : Forall ctrl_ok c.(send_ctrl_queue);
  wf_data : Forall data_ok c.(send_queue);
  wf_cur : forall o, c.(c_omsg) = Some o -> omsg_ok o;
  wf_sent : has_close c WSLAY_CLOSE_SENT = true -> c.(write_enabled) = false;
  wf_recv : has_close c WSLAY_CLOSE_RECEIVED = true -> c.(read_enabled) = false;
  wf_count : has_close c WSLAY_CLOSE_QUEUED = false -> c.(c_omsg) = None ->
    c.(queued_msg_count) = u64 (zlen c.(send_queue) + zlen c.(send_ctrl_queue));
  wf_length : has_close c WSLAY_CLOSE_QUEUED = false -> c.(c_omsg) = None -> c.(send_ctrl_queue) = [] ->
    c.(queued_msg_length) = u64 (total_length c.(send_queue)) }.
Lemma event_inv_wf c : event_inv c -> event_wf c.
Proof.
  intros [H1 H2 H3 H4 H5 H6]. split; try done; intros Hq Ho; destruct (H6 Hq) as [E1 E2]; unfold outstanding in *; rewrite Ho in *.
  - rewrite E1. simpl. rewrite zlen_app. f_equal. apply Z.add_comm.
  - intros Hc. rewrite E2, Hc. done.
Qed.

(** The invariant without the clause on received Close frames, which the handler of a Close
    frame restores when it disables reading. *)
Record send_inv (c : ectx) : Prop := {
  si_ctrl : Forall ctrl_ok c.(send_ctrl_queue);
  si_data : Forall data_ok c.(send_queue);
  si_cur : forall o, c.(c_omsg) = Some o -> omsg_ok o;
  si_sent : has_close c WSLAY_CLOSE_SENT = true -> c.(write_enabled) = false;
  si_count : has_close c WSLAY_CLOSE_QUEUED = false ->
    c.(queued_msg_count) = u64 (zlen (outstanding c)) /\
    c.(queued_msg_length) = u64 (total_length (outstanding c)) }.
Definition recv_inv (c : ectx) : Prop :=
  has_close c WSLAY_CLOSE_RECEIVED = true -> c.(read_enabled) = false.

Lemma event_inv_split c : event_inv c <-> send_inv c /\ recv_inv c.
Proof. split; [intros []; split; [by split|done]|intros [[] ?]; by split]. Qed.

Lemma total_length_app l k : total_length (l ++ k) = total_length l + total_length k.
Proof. induction l; simpl; lia. Qed.
Lemma total_length_perm l k : l ≡ₚ k -> total_length l = total_length k.
Proof. induction 1; simpl; lia. Qed.
Lemma u64_add_l a b : u64 (u64 a + b) = u64 (a + b).
Proof. unfold uwrap. apply Z.add_mod_idemp_l. lia. Qed.
Lemma u64_sub_l a b : u64 (u64 a - b) = u64 (a - b).
Proof. unfold uwrap. apply Zminus_mod_idemp_l. Qed.

Section Inv.
Context {U : Type} (cb : event_callbacks U).
Implicit Types s : est (U:=U).

Definition keeps {A} (P : ectx -> Prop) (m : CM est Z A) : Prop :=
  forall s, P s.(e_ctx) -> cwlp m s (fun s' _ => P s'.(e_ctx)).

Lemma keeps_bind {A B} P (m : CM est Z A) (k : A -> CM est Z B) :
  keeps P m -> (forall a, keeps P (k a)) -> keeps P (m ≫= k).
Proof.
  intros Hm Hk s HP. apply cwlp_bind. eapply cwlp_mono; [by apply Hm|].
  intros s' [e|a] HP'; [done|]. by apply Hk.
Qed.
Lemma keeps_ret {A} P (a : A) : keeps P (mret a).
Proof. intros s HP. by apply cwlp_ret. Qed.
Lemma keeps_return {A} P e : keeps (A:=A) P (creturn e).
Proof. intros s HP. by apply cwlp_return. Qed.
Lemma keeps_eget P : keeps P eget.
Proof. intros s HP. unfold eget. apply cwlp_bind, cwlp_get, cwlp_ret. done. Qed.
Lemma keeps_cget P : keeps P cget.
Proof. intros s HP. by apply cwlp_get. Qed.
Lemma keeps_emod (P : ectx -> Prop) f : (forall c, P c -> P (f c)) -> keeps P (emod f).
Proof. intros Hf s HP. apply cwlp_mod. simpl. auto. Qed.
Lemma keeps_lift {A} P (o : option A) : keeps P (clift o).
Proof. intros s HP. by apply cwlp_lift. Qed.
Lemma keeps_when P b m : keeps P m -> keeps P (cwhen b m).
Proof. destruct b; [done|intros; apply keeps_ret]. Qed.
(** A state change of the environment only. *)
Lemma keeps_env P (f : est -> U * Z) : keeps P (cmod (fun s => mkE (f s) s.(e_ctx))).
Proof. intros s HP. by apply cwlp_mod. Qed.
(** Knowing that the value read is the context. *)
Lemma keeps_eget_bind {A} P (k : ectx -> CM est Z A) :
  (forall s, P s.(e_ctx) -> cwlp (k s.(e_ctx)) s (fun s' _ => P s'.(e_ctx))) -> keeps P (eget ≫= k).
Proof. intros Hk s HP. apply cwlp_bind, cwlp_bind, cwlp_get, cwlp_ret. by apply Hk. Qed.

Lemma keeps_ealloc P n : keeps P (ealloc cb n).
Proof.
  intros s HP. unfold ealloc. apply cwlp_bind, cwlp_get.
  destruct (ev_alloc cb (e_env s).1 n) as [u b]. by apply cwlp_bind, cwlp_mod, cwlp_ret.
Qed.

(** The parts of the context the invariants read. *)
Definition same_send (c c' : ectx) : Prop :=
  c'.(send_ctrl_queue) = c.(send_ctrl_queue) /\ c'.(send_queue) = c.(send_queue) /\
  c'.(c_omsg) = c.(c_omsg) /\ c'.(close_status) = c.(close_status) /\
  (c.(write_enabled) = false -> c'.(write_enabled) = false) /\
  (c.(read_enabled) = false -> c'.(read_enabled) = false) /\
  c'.(queued_msg_count) = c.(queued_msg_count) /\ c'.(queued_msg_length) = c.(queued_msg_length).

Lemma same_send_inv c c' : same_send c c' -> send_inv c -> send_inv c'.
Proof.
  intros (E1&E2&E3&E4&E5&E6&E7&E8) [? ? ? Hs Hn]. unfold has_close, outstanding in *.
  split; unfold has_close, outstanding; rewrite ?E1, ?E2, ?E3, ?E4, ?E7, ?E8; auto.
Qed.
Lemma same_recv_inv c c' : same_send c c' -> recv_inv c -> recv_inv c'.
Proof. intros (_&_&_&E4&_&E6&_) Hr. unfold recv_inv, has_close in *. rewrite E4. auto. Qed.

(** [P] does not depend on anything but the send side. *)
Class SendSide (P : ectx -> Prop) := send_side c c' : same_send c c' -> P c -> P c'.
#[local] Instance send_inv_side : SendSide send_inv := same_send_inv.
#[local] Instance recv_inv_side : SendSide recv_inv := same_recv_inv.

Lemma keeps_emod_side P `{SendSide P} f : (forall c, same_send c (f c)) -> keeps P (emod f).
Proof. intros Hf. apply keeps_emod. intros c. by apply send_side. Qed.

Lemma shut_send u c c' : same_send c c' -> same_send c (shut cb u c').
Proof.
  intros (E1&E2&E3&E4&E5&E6&E7&E8). unfold shut. destruct (ev_shut cb u.1) as [[] []]; by split_and!.
Qed.

Lemma set_imsg_send c m : same_send c (set_imsg c m).
Proof. unfold set_imsg. destruct (imsg_second c); unfold same_send; by split_and!. Qed.
(** *** Queueing *)

Lemma send_inv_queue c op rsv msg :
  send_inv c -> (wslay_is_ctrl_frame op = true -> zlen msg <= 125) ->
  send_inv
    (let o := omsg_non_fragmented op rsv msg in
     let c := if wslay_is_ctrl_frame op
              then {| c with send_ctrl_queue := c.(send_ctrl_queue) ++ [o] |}
              else {| c with send_queue := c.(send_queue) ++ [o] |} in
     {| c with queued_msg_count := u64 (c.(queued_msg_count) + 1);
               queued_msg_length := u64 (c.(queued_msg_length) + zlen msg) |}).
Proof.
  intros [H1 H2 H3 H4 H5] Hop. cbv zeta.
  assert (forall l, has_close c WSLAY_CLOSE_QUEUED = false ->
    l ≡ₚ omsg_non_fragmented op rsv msg :: outstanding c ->
    u64 (queued_msg_count c + 1) = u64 (zlen l) /\ u64 (queued_msg_length c + zlen msg) = u64 (total_length l)) as Hcnt.
  { intros l Hq Hl. destruct (H5 Hq) as [-> ->]. rewrite !u64_add_l.
    split; f_equal; [unfold zlen; rewrite Hl; simpl; lia|rewrite (total_length_perm _ _ Hl); simpl; lia]. }
  destruct (wslay_is_ctrl_frame op) eqn:Eop; split; simpl; try done.
  - apply Forall_app. split; [done|]. constructor; [|done]. split_and!; simpl; auto.
  - intros Hq. apply Hcnt; [done|]. unfold outstanding. simpl. solve_Permutation.
  - apply Forall_app. split; [done|]. by constructor.
  - intros Hq. apply Hcnt; [done|]. unfold outstanding. simpl. solve_Permutation.
Qed.

Lemma queue_msg_send_inv op msg rsv : keeps send_inv (wslay_event_queue_msg_ex cb op msg rsv).
Proof.
  unfold wslay_event_queue_msg_ex. apply keeps_bind; [apply keeps_eget|intros c].
  destruct (negb _); [apply keeps_ret|].
  destruct (wslay_is_ctrl_frame op && ((125 <? zlen msg) || wslay_get_rsv1 rsv)) eqn:Eg; [apply keeps_ret|].
  destruct (false || _); [apply keeps_ret|].
  apply keeps_bind; [apply keeps_ealloc|intros ok]. destruct (negb ok); [apply keeps_ret|].
  apply keeps_bind; [|intros; apply keeps_ret]. apply keeps_emod. intros c' Hc'.
  apply send_inv_queue; [done|]. intros Hop. rewrite Hop in Eg. simpl in Eg.
  apply orb_false_iff in Eg as [Hle%Z.ltb_ge _]. done.
Qed.

Lemma queue_fragmented_send_inv op src rsv : keeps send_inv (wslay_event_queue_fragmented_msg_ex cb op src rsv).
Proof.
  unfold wslay_event_queue_fragmented_msg_ex. apply keeps_bind; [apply keeps_eget|intros c].
  destruct (negb _); [apply keeps_ret|]. destruct (wslay_is_ctrl_frame op) eqn:Eop; [apply keeps_ret|].
  destruct (false || _); [apply keeps_ret|].
  apply keeps_bind; [apply keeps_ealloc|intros ok]. destruct (negb ok); [apply keeps_ret|].
  apply keeps_bind; [|intros; apply keeps_ret]. apply keeps_emod. intros c' [H1 H2 H3 H4 H5].
  split; simpl; try done.
  - apply Forall_app. split; [done|]. by constructor.
  - intros Hq. destruct (H5 Hq) as [-> ->].
    assert (outstanding {| c' with send_queue := send_queue c' ++ [omsg_fragmented op rsv src] |}
      ≡ₚ omsg_fragmented op rsv src :: outstanding c') as Hp by (unfold outstanding; simpl; solve_Permutation).
    rewrite u64_add_l. split; f_equal.
    + change (zlen (outstanding c') + 1 =
        zlen (outstanding {| c' with send_queue := send_queue c' ++ [omsg_fragmented op rsv src] |})).
      unfold zlen. rewrite Hp. simpl. lia.
    + change (total_length (outstanding c') =
        total_length (outstanding {| c' with send_queue := send_queue c' ++ [omsg_fragmented op rsv src] |})).
      rewrite (total_length_perm _ _ Hp). done.
Qed.

Lemma close_queued_inv c : send_inv c -> send_inv {| c with close_status := Z.lor c.(close_status) WSLAY_CLOSE_QUEUED |}.
Proof.
  intros [H1 H2 H3 H4 H5]. split; try done; unfold has_close; cbn [close_status]; rewrite land_lor_zero.
  - intros Hs. apply H4. unfold has_close. by rewrite andb_true_r in Hs.
  - rewrite andb_false_r. done.
Qed.

Lemma queue_close_send_inv code reason : keeps send_inv (wslay_event_queue_close cb code reason).
Proof.
  unfold wslay_event_queue_close. apply keeps_bind; [apply keeps_eget|intros c].
  destruct (negb _); [apply keeps_ret|]. destruct (123 <? _); [apply keeps_ret|].
  apply keeps_bind; [apply queue_msg_send_inv|intros r]. apply keeps_bind; [|intros; apply keeps_ret].
  apply keeps_when, keeps_emod. exact close_queued_inv.
Qed.

(** The receive clause is untouched by queueing. *)
Lemma queue_msg_recv_inv op msg rsv : keeps recv_inv (wslay_event_queue_msg_ex cb op msg rsv).
Proof.
  unfold wslay_event_queue_msg_ex. apply keeps_bind; [apply keeps_eget|intros c].
  destruct (negb _); [apply keeps_ret|]. destruct (_ || _); [apply keeps_ret|].
  apply keeps_bind; [apply keeps_ealloc|intros ok]. destruct (negb ok); [apply keeps_ret|].
  apply keeps_bind; [|intros; apply keeps_ret]. apply keeps_emod. intros c'.
  destruct (wslay_is_ctrl_frame op); done.
Qed.
Lemma queue_fragmented_recv_inv op src rsv : keeps recv_inv (wslay_event_queue_fragmented_msg_ex cb op src rsv).
Proof.
  unfold wslay_event_queue_fragmented_msg_ex. apply keeps_bind; [apply keeps_eget|intros c].
  destruct (negb _); [apply keeps_ret|]. destruct (_ || _); [apply keeps_ret|].
  apply keeps_bind; [apply keeps_ealloc|intros ok]. destruct (negb ok); [apply keeps_ret|].
  apply keeps_bind; [|intros; apply keeps_ret]. by apply keeps_emod.
Qed.
Lemma queue_close_recv_inv code reason : keeps recv_inv (wslay_event_queue_close cb code reason).
Proof.
  unfold wslay_event_queue_close. apply keeps_bind; [apply keeps_eget|intros c].
  destruct (negb _); [apply keeps_ret|]. destruct (123 <? _); [apply keeps_ret|].
  apply keeps_bind; [apply queue_msg_recv_inv|intros r]. apply keeps_bind; [|intros; apply keeps_ret].
  apply keeps_when, keeps_emod. intros c'. unfold recv_inv, has_close. cbn [close_status read_enabled].
  rewrite land_lor_zero, andb_true_r. done.
Qed.

(** A predicate the queueing operations keep. *)
Class QueueInv (P : ectx -> Prop) := {
  qi_side :: SendSide P;
  qi_msg op msg rsv : keeps P (wslay_event_queue_msg_ex cb op msg rsv);
  qi_frag op src rsv : keeps P (wslay_event_queue_fragmented_msg_ex cb op src rsv);
  qi_close code reason : keeps P (wslay_event_queue_close cb code reason) }.
#[local] Instance send_inv_queue_inv : QueueInv send_inv :=
  {| qi_msg := queue_msg_send_inv; qi_frag := queue_fragmented_send_inv; qi_close := queue_close_send_inv |}.
#[local] Instance recv_inv_queue_inv : QueueInv recv_inv :=
  {| qi_msg := queue_msg_recv_inv; qi_frag := queue_fragmented_recv_inv; qi_close := queue_close_recv_inv |}.

Section Generic.
Context (P : ectx -> Prop) `{!QueueInv P}.

Ltac side_tac :=
  apply keeps_emod_side; [apply _|]; intros ?c; first [apply set_imsg_send | unfold same_send; by split_and!].
Ltac keeps_tac :=
  repeat first
    [ apply keeps_ret | apply keeps_return | apply keeps_eget | apply keeps_cget | apply keeps_lift
    | apply keeps_ealloc | apply keeps_env | apply qi_msg | apply qi_frag | apply qi_close
    | apply keeps_when | side_tac | apply keeps_bind; [|intros] ].

Lemma shutdown_read_keeps : keeps P (emod wslay_event_shutdown_read).
Proof. side_tac. Qed.
Lemma shutdown_write_keeps : keeps P (emod wslay_event_shutdown_write).
Proof. side_tac. Qed.

Lemma api_step_keeps a : keeps P (api_step cb a).
Proof. destruct a; simpl; keeps_tac. Qed.
Lemma api_steps_keeps l : keeps P (api_steps cb l).
Proof. induction l as [|a l IH]; simpl; [apply keeps_ret|]. apply keeps_bind; [apply api_step_keeps|done]. Qed.
Lemma call_back_keeps {A} (f : option (U -> A -> U * list api_call)) a : keeps P (call_back cb f a).
Proof.
  unfold call_back. destruct f as [g|]; [|apply keeps_ret]. intros s HP.
  apply cwlp_bind, cwlp_get. destruct (g (e_env s).1 a) as [u l]. apply cwlp_bind, cwlp_mod.
  by apply api_steps_keeps.
Qed.
Lemma close_wrapper_keeps code reason : keeps P (wslay_event_queue_close_wrapper cb code reason).
Proof. unfold wslay_event_queue_close_wrapper. keeps_tac. Qed.
Lemma close_break_keeps {A} code reason :
  keeps P (_ ← wslay_event_queue_close_wrapper cb code reason; ebreak : CM est Z A).
Proof. apply keeps_bind; [apply close_wrapper_keeps|intros; apply keeps_return]. Qed.

Lemma select_imsg_keeps io : keeps P (select_imsg cb io).
Proof.
  unfold select_imsg. apply keeps_bind; [apply keeps_eget|intros c].
  repeat match goal with |- keeps _ (if ?b then _ else _) => destruct b end;
    try apply close_break_keeps; keeps_tac.
Qed.
Lemma start_frame_keeps io : keeps P (start_frame cb io).
Proof.
  unfold start_frame. apply keeps_bind; [apply keeps_eget|intros c].
  apply keeps_bind; [apply keeps_when, close_break_keeps|intros []]. apply keeps_bind; [keeps_tac|intros []].
  apply keeps_bind; [apply call_back_keeps|intros []]. apply keeps_bind; [apply keeps_eget|intros c'].
  apply keeps_when, keeps_bind; [apply keeps_ealloc|intros ok]. destruct (negb ok); keeps_tac.
Qed.
Lemma utf8_check_keeps l : keeps P (utf8_check cb l).
Proof.
  induction l as [|b l IH]; simpl; [apply keeps_ret|]. apply keeps_bind; [apply keeps_eget|intros c].
  apply keeps_bind; [apply keeps_lift|intros d]. apply keeps_bind; [keeps_tac|intros []].
  destruct (_ =? _); [apply close_wrapper_keeps|done].
Qed.
Lemma validate_chunk_keeps io : keeps P (validate_chunk cb io).
Proof.
  unfold validate_chunk. apply keeps_bind; [apply keeps_eget|intros c].
  apply keeps_bind; [apply keeps_when, utf8_check_keeps|intros []]. keeps_tac.
Qed.
Lemma store_chunk_keeps io : keeps P (store_chunk io).
Proof. unfold store_chunk. keeps_tac. Qed.
Lemma handle_ping_keeps msg : keeps P (handle_ping cb msg).
Proof. unfold handle_ping, wslay_event_queue_msg. keeps_tac. Qed.
(** The rest of the receive path, given the handler of Close frames. *)
Context (close_keeps : forall msg, keeps P (handle_close cb msg)).

Lemma finish_msg_keeps io : keeps P (finish_msg cb io).
Proof.
  unfold finish_msg. apply keeps_bind; [apply keeps_eget|intros c]. apply keeps_bind.
  { destruct (buffered c io); [|apply keeps_ret]. apply keeps_bind.
    - destruct (_ =? 0); keeps_tac.
    - intros ok. destruct (negb ok); keeps_tac. }
  intros msg. apply keeps_bind.
  { destruct (_ =? WSLAY_CONNECTION_CLOSE); [apply close_keeps|].
    destruct (_ =? WSLAY_PING); [apply keeps_bind; [apply handle_ping_keeps|intros]|]; apply keeps_ret. }
  intros code. apply keeps_when, keeps_bind; [apply keeps_eget|intros c'].
  apply keeps_bind; [apply keeps_env|intros []]. apply call_back_keeps.
Qed.
Lemma end_frame_keeps io : keeps P (end_frame cb io).
Proof.
  unfold end_frame. apply keeps_bind; [apply keeps_eget|intros c].
  apply keeps_bind; [apply keeps_when, close_break_keeps|intros []].
  apply keeps_bind; [apply call_back_keeps|intros []]. apply keeps_bind; [apply keeps_eget|intros c'].
  apply keeps_bind; [|intros []; keeps_tac]. apply keeps_when, keeps_bind; [apply keeps_when, finish_msg_keeps|intros []].
  apply keeps_emod_side; [apply _|]. intros c2. apply (set_imsg_send c2).
Qed.
Lemma handle_iocb_keeps io : keeps P (handle_iocb cb io).
Proof.
  unfold handle_iocb. apply keeps_bind; [apply keeps_eget|intros c].
  apply keeps_bind; [apply keeps_when, close_break_keeps|intros []].
  apply keeps_bind; [apply select_imsg_keeps|intros b]. apply keeps_bind; [apply keeps_when, start_frame_keeps|intros []].
  apply keeps_bind; [apply validate_chunk_keeps|intros []]. apply keeps_bind; [apply call_back_keeps|intros []].
  apply keeps_bind; [apply store_chunk_keeps|intros []]. apply keeps_bind; [apply keeps_eget|intros c'].
  apply keeps_when, end_frame_keeps.
Qed.
Lemma handle_recv_error_keeps e : keeps P (handle_recv_error cb e).
Proof.
  unfold handle_recv_error. apply keeps_bind; [apply keeps_cget|intros s].
  apply keeps_bind; [|intros []; apply keeps_return]. apply keeps_when, keeps_bind; [apply close_wrapper_keeps|intros []].
  apply keeps_return.
Qed.
Lemma call_frame_recv_keeps : keeps P (call_frame_recv cb).
Proof.
  intros s HP. unfold call_frame_recv. apply cwlp_bind, cwlp_get, cwlp_bind, cwlp_lift.
  intros [[env fi] res] _. apply cwlp_bind, cwlp_mod, cwlp_ret. simpl.
  eapply send_side; [|exact HP]. apply shut_send. unfold same_send. by split_and!.
Qed.
Lemma recv_iter_keeps : keeps P (recv_iter cb).
Proof.
  unfold recv_iter. apply keeps_bind; [apply call_frame_recv_keeps|intros [e|io]];
    [apply handle_recv_error_keeps|apply handle_iocb_keeps].
Qed.
Lemma event_recv_keeps fuel : keeps P (wslay_event_recv cb fuel).
Proof.
  induction fuel as [|fuel IH]; simpl; [by intros s HP s' r E|].
  apply keeps_bind; [apply keeps_eget|intros c]. destruct (read_enabled c); [|apply keeps_ret].
  apply keeps_bind; [apply recv_iter_keeps|intros []; done].
Qed.
End Generic.

(** *** Close frames *)

Lemma handle_close_send_inv msg : keeps send_inv (handle_close cb msg).
Proof.
  unfold handle_close. apply keeps_bind; [apply keeps_eget|intros c]. apply keeps_bind.
  { destruct (2 <=? _); [|apply keeps_ret]. apply keeps_bind; [apply keeps_lift|intros b0].
    apply keeps_bind; [apply keeps_lift|intros b1].
    apply keeps_bind; [apply keeps_when, close_break_keeps, _|intros; apply keeps_ret]. }
  intros cr. apply keeps_bind; [|intros []; apply keeps_bind; [apply close_wrapper_keeps, _|intros; apply keeps_ret]].
  apply keeps_emod. intros c' [H1 H2 H3 H4 H5].
  split; try done; unfold has_close; cbn [close_status]; rewrite land_lor_zero, andb_true_r; [exact H4|exact H5].
Qed.

(** The wrapper disables reading, whatever the state. *)
Lemma close_wrapper_disables code reason s :
  cwlp (wslay_event_queue_close_wrapper cb code reason) s (fun s' _ => s'.(e_ctx).(read_enabled) = false).
Proof.
  unfold wslay_event_queue_close_wrapper. apply cwlp_bind, cwlp_mod.
  assert (forall op msg rsv, keeps (fun c => read_enabled c = false) (wslay_event_queue_msg_ex cb op msg rsv)) as Hm.
  { intros. unfold wslay_event_queue_msg_ex. apply keeps_bind; [apply keeps_eget|intros c].
    destruct (negb _); [apply keeps_ret|]. destruct (_ || _); [apply keeps_ret|].
    apply keeps_bind; [apply keeps_ealloc|intros ok]. destruct (negb ok); [apply keeps_ret|].
    apply keeps_bind; [|intros; apply keeps_ret]. apply keeps_emod. intros c' Hc. by destruct (wslay_is_ctrl_frame op). }
  assert (keeps (fun c => read_enabled c = false) (wslay_event_queue_close cb code reason)) as Hc.
  { unfold wslay_event_queue_close. apply keeps_bind; [apply keeps_eget|intros c].
    destruct (negb _); [apply keeps_ret|]. destruct (123 <? _); [apply keeps_ret|].
    apply keeps_bind; [apply Hm|intros r]. apply keeps_bind; [|intros; apply keeps_ret].
    by apply keeps_when, keeps_emod. }
  apply cwlp_bind. eapply cwlp_mono; [by apply Hc|]. intros s1 [e|r] H1; [done|].
  apply cwlp_when; intros _; [by apply cwlp_return|done].
Qed.

Lemma handle_close_recv_inv msg : keeps recv_inv (handle_close cb msg).
Proof.
  unfold handle_close. apply keeps_bind; [apply keeps_eget|intros c]. apply keeps_bind.
  { destruct (2 <=? _); [|apply keeps_ret]. apply keeps_bind; [apply keeps_lift|intros b0].
    apply keeps_bind; [apply keeps_lift|intros b1].
    apply keeps_bind; [apply keeps_when, close_break_keeps, _|intros; apply keeps_ret]. }
  intros cr s HP. apply cwlp_bind, cwlp_mod. apply cwlp_bind.
  eapply cwlp_mono; [apply close_wrapper_disables|]. intros s' [e|[]] Hr; [intros _; done|].
  apply cwlp_ret. intros _. done.
Qed.

Lemma event_recv_inv fuel s : event_inv s.(e_ctx) ->
  cwlp (wslay_event_recv cb fuel) s (fun s' _ => event_inv s'.(e_ctx)).
Proof.
  rewrite event_inv_split. intros [H1 H2] s' r E. rewrite event_inv_split. split.
  - exact (event_recv_keeps send_inv handle_close_send_inv fuel s H1 s' r E).
  - exact (event_recv_keeps recv_inv handle_close_recv_inv fuel s H2 s' r E).
Qed.

Lemma api_step_inv a s : event_inv s.(e_ctx) -> cwlp (api_step cb a) s (fun s' _ => event_inv s'.(e_ctx)).
Proof.
  rewrite event_inv_split. intros [H1 H2] s' r E. rewrite event_inv_split. split.
  - exact (api_step_keeps send_inv a s H1 s' r E).
  - exact (api_step_keeps recv_inv a s H2 s' r E).
Qed.
(** *** Sending *)

(** [c'] has the same outstanding messages up to order and contents. *)
Lemma send_inv_reorder c c' :
  send_inv c -> Forall ctrl_ok c'.(send_ctrl_queue) -> Forall data_ok c'.(send_queue) ->
  (forall o, c'.(c_omsg) = Some o -> omsg_ok o) ->
  c'.(close_status) = c.(close_status) -> (c.(write_enabled) = false -> c'.(write_enabled) = false) ->
  c'.(queued_msg_count) = c.(queued_msg_count) -> c'.(queued_msg_length) = c.(queued_msg_length) ->
  (has_close c WSLAY_CLOSE_QUEUED = false ->
    o_data_length <$> outstanding c' ≡ₚ o_data_length <$> outstanding c) ->
  send_inv c'.
Proof.
  intros [H1 H2 H3 H4 H5] G1 G2 G3 E1 E2 E3 E4 Hp. split; unfold has_close in *; rewrite ?E1, ?E3, ?E4; auto.
  intros Hq. destruct (H5 Hq) as [-> ->]. specialize (Hp Hq).
  assert (forall l, total_length l = foldr Z.add 0 (o_data_length <$> l)) as Ht
    by (unfold total_length; induction l as [|a l IHl]; [done|]; simpl; by rewrite IHl).
  rewrite !Ht. split; f_equal.
  - unfold zlen. apply Permutation_length in Hp. rewrite !length_fmap in Hp. lia.
  - induction Hp; simpl; lia.
Qed.

Lemma omsg_popped_inv c c0 o :
  send_inv c0 -> omsg_ok o -> Forall ctrl_ok c.(send_ctrl_queue) -> Forall data_ok c.(send_queue) ->
  c.(close_status) = c0.(close_status) -> c.(write_enabled) = c0.(write_enabled) ->
  c.(queued_msg_count) = c0.(queued_msg_count) -> c.(queued_msg_length) = c0.(queued_msg_length) ->
  (has_close c0 WSLAY_CLOSE_QUEUED = false -> o :: c.(send_ctrl_queue) ++ c.(send_queue) ≡ₚ outstanding c0) ->
  send_inv (omsg_popped c o) /\ send_inv (wslay_event_on_non_fragmented_msg_popped c o).
Proof.
  intros H0 Ho Hc Hd E1 E2 E3 E4 Hp.
  assert (forall o', omsg_ok o' -> o_data_length o' = o_data_length o ->
    forall c', c'.(send_ctrl_queue) = c.(send_ctrl_queue) -> c'.(send_queue) = c.(send_queue) ->
    c'.(c_omsg) = Some o' -> c'.(close_status) = c.(close_status) -> c'.(write_enabled) = c.(write_enabled) ->
    c'.(queued_msg_count) = c.(queued_msg_count) -> c'.(queued_msg_length) = c.(queued_msg_length) -> send_inv c') as Hgen.
  { intros o' Ho' El c' F1 F2 F3 F4 F5 F6 F7.
    apply (send_inv_reorder c0); rewrite ?F1, ?F2, ?F3, ?F4, ?F5, ?F6, ?F7; try done; try congruence.
    intros Hq. unfold outstanding at 1. rewrite F1, F2, F3. simpl. rewrite El. rewrite <- (Hp Hq). done. }
  split; unfold omsg_popped; [destruct (o_type o)|];
    (eapply Hgen; [| |done|done|reflexivity|done|done|done|done]; done).
Qed.

Lemma pop_close_ok q o r : Forall ctrl_ok q -> pop_close q = (o, r) ->
  Forall ctrl_ok r /\ (forall x, o = Some x -> ctrl_ok x).
Proof.
  intros Hq. revert o r. induction Hq as [|x q Hx Hq IH]; intros o r; simpl.
  - intros E. injection E as <- <-. split; [constructor|done].
  - destruct (_ =? _); intros E; [|by apply IH]. injection E as <- <-. split; [done|]. intros y Ey. by injection Ey as <-.
Qed.

(** Popping a control message. *)
Lemma ctrl_pop_ok c r :
  Forall ctrl_ok c.(send_ctrl_queue) -> wslay_event_send_ctrl_queue_pop c = Some r ->
  exists q, r.2 = {| c with send_ctrl_queue := q |} /\ Forall ctrl_ok q /\
    (forall o, r.1 = Some o -> ctrl_ok o /\
       (has_close c WSLAY_CLOSE_QUEUED = false -> c.(send_ctrl_queue) = o :: q)) /\
    (r.1 = None -> has_close c WSLAY_CLOSE_QUEUED = true).
Proof.
  intros Hq. unfold wslay_event_send_ctrl_queue_pop. destruct (has_close c WSLAY_CLOSE_QUEUED) eqn:Ec.
  - destruct (pop_close (send_ctrl_queue c)) as [o q] eqn:E. intros Er. injection Er as <-.
    destruct (pop_close_ok _ _ _ Hq E) as [Hr Ho]. exists q. split_and!; try done. intros x Ex. split; [by apply Ho|done].
  - destruct (send_ctrl_queue c) as [|o q]; [done|]. intros Er. injection Er as <-.
    apply Forall_cons in Hq as [Ho Hq]. exists q. split_and!; try done. intros x Ex. by injection Ex as <-.
Qed.

Lemma select_omsg_inv : keeps send_inv (select_omsg (U:=U)).
Proof.
  unfold select_omsg. apply keeps_eget_bind. intros s Hs. pose proof Hs as [H1 H2 H3 H4 H5].
  destruct (c_omsg (e_ctx s)) as [o|] eqn:Eo.
  - apply cwlp_when; [|done]. intros [[Hnc Hst]%andb_true_iff Hne]%andb_true_iff. apply negb_true_iff in Hnc.
    apply cwlp_bind, cwlp_mod. apply cwlp_bind, cwlp_bind, cwlp_get, cwlp_ret. cbn [e_ctx].
    set (c1 := {| (e_ctx s) with send_queue := o :: send_queue (e_ctx s); c_omsg := None |}).
    apply cwlp_bind, cwlp_lift. intros r Er.
    destruct (ctrl_pop_ok c1 r H1 Er) as (q & E2 & Hq & Ho & Hn).
    apply cwlp_bind, cwlp_mod. cbn [e_env e_ctx].
    assert (Forall data_ok (o :: send_queue (e_ctx s))) as Hd.
    { constructor; [|done]. destruct (H3 o eq_refl) as [[Hc _]|?]; [congruence|done]. }
    destruct (r.1) as [o2|] eqn:E1.
    + destruct (Ho o2 eq_refl) as [Hc Hq2]. apply cwlp_mod. cbn [e_env e_ctx]. rewrite E2.
      eapply (omsg_popped_inv _ (e_ctx s)); try done; [by left|]. intros Hcl.
      unfold outstanding. rewrite Eo. simpl. specialize (Hq2 Hcl). simpl in Hq2. rewrite Hq2. solve_Permutation.
    + apply cwlp_return. cbn [e_env e_ctx]. rewrite E2. apply (send_inv_reorder (e_ctx s)); try done.
      intros Hcl. specialize (Hn eq_refl). unfold has_close in *. simpl in Hn. congruence.
  - destruct (send_ctrl_queue (e_ctx s)) as [|o q'] eqn:Eq.
    + destruct (send_queue (e_ctx s)) as [|o q] eqn:Ed; [by apply cwlp_lift|].
      apply Forall_cons in H2 as [Ho H2]. apply cwlp_mod. cbn [e_env e_ctx].
      eapply (omsg_popped_inv _ (e_ctx s)); try done; [by right|by rewrite Eq|]. intros _.
      unfold outstanding. simpl. rewrite Eo, Eq, Ed. done.
    + rewrite <- Eq in H1. apply cwlp_bind, cwlp_lift. intros r Er.
      destruct (ctrl_pop_ok (e_ctx s) r H1 Er) as (q & E2 & Hq & Ho & Hn).
      apply cwlp_bind, cwlp_mod. cbn [e_env e_ctx]. destruct (r.1) as [o2|] eqn:E1.
      * destruct (Ho o2 eq_refl) as [Hc Hq2]. apply cwlp_mod. cbn [e_env e_ctx]. rewrite E2.
        eapply (omsg_popped_inv _ (e_ctx s)); try done; [by left|]. intros Hcl.
        unfold outstanding. rewrite Eo, (Hq2 Hcl). done.
      * apply cwlp_return. cbn [e_env e_ctx]. rewrite E2. apply (send_inv_reorder (e_ctx s)); try done.
        -- simpl. intros o2 E. congruence.
        -- intros Hcl. rewrite (Hn eq_refl) in Hcl. done.
Qed.
(** The invariant while [o] is being sent. *)
Definition sending (o : omsg) (c : ectx) : Prop := send_inv c /\ c.(c_omsg) = Some o.

(** Replacing the current message by a version of it. *)
Lemma sending_replace o o' c :
  sending o c -> omsg_ok o' -> o'.(o_data_length) = o.(o_data_length) -> sending o' {| c with c_omsg := Some o' |}.
Proof.
  intros [Hc Eo] Ho' El. split; [|done]. pose proof Hc as [H1 H2 H3 H4 H5].
  apply (send_inv_reorder c); try done; simpl.
  - intros x E. by injection E as <-.
  - intros _. unfold outstanding. simpl. rewrite Eo. simpl. by rewrite El.
Qed.
Lemma sending_ok o c : sending o c -> omsg_ok o.
Proof. intros [[_ _ H _ _] E]. by apply H. Qed.
Lemma sending_side o c c' : same_send c c' -> sending o c -> sending o c'.
Proof. intros Hs [Hc Eo]. split; [by eapply same_send_inv|]. destruct Hs as (_&_&->&_). done. Qed.

(** The current message is done. *)
Lemma sending_done o c :
  sending o c ->
  send_inv {| c with queued_msg_count := u64 (c.(queued_msg_count) - 1);
                     queued_msg_length := u64 (c.(queued_msg_length) - o.(o_data_length)); c_omsg := None |}.
Proof.
  intros [[H1 H2 H3 H4 H5] Eo]. split; try done. intros Hq. destruct (H5 Hq) as [-> ->].
  unfold outstanding. rewrite Eo. simpl. rewrite !u64_sub_l.
  split; f_equal; [rewrite zlen_cons; lia|lia].
Qed.

Lemma call_frame_send_sending o mem io s : sending o s.(e_ctx) ->
  cwlp (call_frame_send cb mem io) s (fun s' _ => sending o s'.(e_ctx)).
Proof.
  intros Hs. unfold call_frame_send. apply cwlp_bind, cwlp_get, cwlp_bind, cwlp_lift.
  intros [[[env fo] mem'] res] _. apply cwlp_bind, cwlp_mod, cwlp_ret. cbn [e_ctx].
  eapply sending_side; [|exact Hs]. apply shut_send. unfold same_send. by split_and!.
Qed.

Lemma handle_send_error_inv r : keeps send_inv (handle_send_error r).
Proof.
  unfold handle_send_error. apply keeps_bind; [apply keeps_cget|intros s].
  apply keeps_bind; [|intros; apply keeps_return].
  apply keeps_when, keeps_bind; [apply shutdown_write_keeps, _|intros; apply keeps_return].
Qed.

Lemma write_sent_inv c code :
  send_inv c -> send_inv {| c with write_enabled := false;
      close_status := Z.lor c.(close_status) WSLAY_CLOSE_SENT; status_code_sent := code |}.
Proof.
  intros [H1 H2 H3 H4 H5]. split; try done. unfold has_close. cbn [close_status].
  rewrite land_lor_zero, andb_true_r. exact H5.
Qed.

Lemma non_fragmented_done_inv o s : sending o s.(e_ctx) ->
  cwlp (non_fragmented_done o) s (fun s' _ => send_inv s'.(e_ctx)).
Proof.
  intros Hs. unfold non_fragmented_done. apply cwlp_bind, cwlp_mod. cbn [e_env e_ctx].
  pose proof (sending_done o _ Hs) as Hd. set (c1 := {| (e_ctx s) with queued_msg_count := _; queued_msg_length := _ |}).
  assert (send_inv {| c1 with c_omsg := None |}) as Hd1 by exact Hd. clear Hd.
  apply cwlp_bind, cwlp_when.
  - intros _. apply cwlp_bind.
    assert (forall code, cwlp (_ ← emod (fun c => {| c with write_enabled := false;
                                  close_status := Z.lor c.(close_status) WSLAY_CLOSE_SENT;
                                  status_code_sent := if code =? 0 then WSLAY_CODE_NO_STATUS_RCVD else code |});
      emod (fun c => {| c with c_omsg := None |})) (mkE (e_env s) c1) (fun s' _ => send_inv (e_ctx s'))) as Hk.
    { intros code. apply cwlp_bind, cwlp_mod, cwlp_mod. cbn [e_env e_ctx]. by apply (write_sent_inv _ _ Hd1). }
    destruct (2 <=? o_data_length o).
    + apply cwlp_bind, cwlp_lift. intros b0 _. apply cwlp_bind, cwlp_lift. intros b1 _. apply cwlp_ret.
      apply cwlp_mod. specialize (Hk (be_load [b0; b1] 0)). exact Hk.
    + apply cwlp_ret. apply cwlp_mod. exact (Hk 0).
  - intros _. apply cwlp_mod. exact Hd1.
Qed.

Lemma send_non_fragmented_inv o s : sending o s.(e_ctx) ->
  cwlp (send_non_fragmented cb o) s (fun s' _ => send_inv s'.(e_ctx)).
Proof.
  intros Hs. unfold send_non_fragmented. apply cwlp_bind, cwlp_bind, cwlp_get, cwlp_ret.
  apply cwlp_bind. eapply cwlp_mono; [by apply call_frame_send_sending|].
  intros s1 [e|[mem r]] Hs1; [apply Hs1|]. cbn [fst snd].
  apply cwlp_bind, cwlp_mod. cbn [e_env e_ctx]. set (o' := {| o with o_mem := mem |}).
  assert (sending o' {| (e_ctx s1) with c_omsg := Some o' |}) as Hs2.
  { apply (sending_replace o); [done|exact (sending_ok _ _ Hs1)|done]. }
  destruct (0 <=? r); [|apply handle_send_error_inv; apply Hs2].
  apply cwlp_bind, cwlp_mod, cwlp_bind, cwlp_bind, cwlp_get, cwlp_ret. cbn [e_env e_ctx].
  match goal with |- cwlp _ (mkE _ ?C) _ => set (c3 := C) end.
  assert (sending o' c3) as Hs3 by (eapply sending_side; [|exact Hs2]; unfold same_send; by split_and!).
  destruct (_ =? _); [|apply cwlp_return; exact (proj1 Hs3)]. by apply non_fragmented_done_inv.
Qed.

Lemma omsg_ok_fin o f : omsg_ok o -> omsg_ok {| o with o_fin := f |}.
Proof. done. Qed.

Lemma refill_obuf_inv o s : sending o s.(e_ctx) -> o.(o_type) = WSLAY_FRAGMENTED ->
  cwlp (refill_obuf cb o) s (fun s' r =>
    match r with
    | inl _ => send_inv s'.(e_ctx)
    | inr o' => sending o' s'.(e_ctx) /\ o'.(o_type) = WSLAY_FRAGMENTED /\ o'.(o_data_length) = o.(o_data_length)
    end).
Proof.
  intros Hs Ht. unfold refill_obuf. apply cwlp_bind, cwlp_bind, cwlp_get, cwlp_ret.
  destruct (_ && _); [|by apply cwlp_ret]. apply cwlp_bind, cwlp_get.
  destruct (ev_read cb (e_env s).1 (o_source o) (4096 - WSLAY_FRAME_HDR_SIZ)) as [[[[u src] r] data] eof].
  apply cwlp_bind, cwlp_lift. intros mem _. apply cwlp_bind, cwlp_mod. cbn [e_env e_ctx].
  set (o1 := {| o with o_source := src |}).
  assert (sending o1 {| (e_ctx s) with obuf_mem := mem; c_omsg := Some o1 |}) as Hs1.
  { eapply sending_side; [|apply (sending_replace o o1); [exact Hs|exact (sending_ok _ _ Hs)|done]].
    unfold same_send. by split_and!. }
  apply cwlp_bind, cwlp_when; [intros _; apply cwlp_return; apply Hs1|intros _].
  apply cwlp_bind, cwlp_when.
  { intros _. apply cwlp_bind, cwlp_mod, cwlp_return. cbn [e_env e_ctx].
    eapply same_send_inv; [|apply Hs1]. unfold same_send. by split_and!. }
  intros _. apply cwlp_bind, cwlp_mod, cwlp_ret. cbn [e_env e_ctx].
  set (o2 := if eof then _ else _). assert (omsg_ok o2 /\ o_data_length o2 = o_data_length o1 /\ o_type o2 = o_type o)
    as (Ho2 & El & Et2) by (pose proof (sending_ok _ _ Hs1); destruct eof; done).
  split; [|split; [congruence|done]].
  eapply sending_side; [|apply (sending_replace o1 o2); [exact Hs1|done|done]]. unfold same_send. by split_and!.
Qed.

Lemma ctrl_continuation : wslay_is_ctrl_frame WSLAY_CONTINUATION_FRAME = false.
Proof. done. Qed.

Lemma send_fragmented_inv o s : sending o s.(e_ctx) -> o.(o_type) = WSLAY_FRAGMENTED ->
  cwlp (send_fragmented cb o) s (fun s' _ => send_inv s'.(e_ctx)).
Proof.
  intros Hs Ht.
  assert (o_data_length o = 0) as Hz
    by (destruct (sending_ok _ _ Hs) as [(_ & E & _)|[_ ?]]; [congruence|auto]).
  unfold send_fragmented. apply cwlp_bind. eapply cwlp_mono; [by apply refill_obuf_inv|].
  intros s1 [e|o1] Hs1; [done|]. destruct Hs1 as (Hs1 & Ht1 & El). rewrite Hz in El.
  apply cwlp_bind, cwlp_bind, cwlp_get, cwlp_ret.
  apply cwlp_bind. eapply cwlp_mono; [by apply (call_frame_send_sending o1)|].
  intros s2 [e|[mem r]] Hs2; [apply Hs2|]. cbn [fst snd]. apply cwlp_bind, cwlp_mod. cbn [e_env e_ctx].
  assert (sending o1 {| (e_ctx s2) with obuf_mem := mem |}) as Hs3
    by (eapply sending_side; [|exact Hs2]; unfold same_send; by split_and!).
  destruct (0 <=? r); [|apply handle_send_error_inv; apply Hs3].
  apply cwlp_bind, cwlp_mod, cwlp_bind, cwlp_bind, cwlp_get, cwlp_ret. cbn [e_env e_ctx].
  match goal with |- cwlp _ (mkE _ ?C) _ => set (c3 := C) end.
  assert (sending o1 c3) as Hs4 by (eapply sending_side; [|exact Hs3]; unfold same_send; by split_and!).
  destruct (_ =? _); [|apply cwlp_return; exact (proj1 Hs4)]. apply cwlp_bind, cwlp_mod. cbn [e_env e_ctx].
  assert (sending o1 {| c3 with obufmark := WSLAY_FRAME_HDR_SIZ; obuflimit := WSLAY_FRAME_HDR_SIZ |}) as Hs5
    by (eapply sending_side; [|exact Hs4]; unfold same_send; by split_and!).
  destruct (negb _); apply cwlp_mod; cbn [e_env e_ctx].
  - pose proof (sending_done _ _ Hs5) as [G1 G2 G3 G4 G5]. split; try done. intros Hq.
    destruct (G5 Hq) as [E1 E2]. split; [exact E1|]. etrans; [|exact E2]. simpl. rewrite El, Z.sub_0_r.
    destruct Hs5 as [[_ _ _ _ K5] _]. destruct (K5 Hq) as [_ K]. simpl in K. rewrite K. unfold uwrap. by rewrite Zmod_mod.
  - refine (proj1 (sending_replace o1 _ _ Hs5 _ _)); [right; split; [exact ctrl_continuation|done]|done].
Qed.
Lemma send_iter_inv : keeps send_inv (send_iter cb).
Proof.
  unfold send_iter. apply keeps_bind; [apply select_omsg_inv|intros []]. apply keeps_eget_bind. intros s Hs.
  apply cwlp_bind, cwlp_lift. intros o Eo. destruct (o_type o) eqn:Et.
  - by apply send_non_fragmented_inv.
  - by apply send_fragmented_inv.
Qed.
Lemma event_send_send_inv fuel : keeps send_inv (wslay_event_send cb fuel).
Proof.
  induction fuel as [|fuel IH]; simpl; [by intros s HP s' r E|].
  apply keeps_bind; [apply keeps_eget|intros c]. destruct (wslay_event_want_write c); [|apply keeps_ret].
  apply keeps_bind; [apply send_iter_inv|intros []; done].
Qed.

(** Sending does not touch what the receive clause reads. *)
Ltac recv_side := unfold recv_inv, has_close; cbn [close_status read_enabled]; rewrite ?land_lor_zero, ?andb_true_r; done.
Ltac keeps_recv :=
  repeat first
    [ apply keeps_ret | apply keeps_return | apply keeps_eget | apply keeps_cget | apply keeps_lift
    | apply keeps_when | (apply keeps_emod; intros ?c; recv_side) | (apply keeps_bind; [|intros]) ].

Lemma pop_recv c r : wslay_event_send_ctrl_queue_pop c = Some r -> recv_inv c -> recv_inv r.2.
Proof.
  unfold wslay_event_send_ctrl_queue_pop. destruct (has_close c WSLAY_CLOSE_QUEUED).
  - destruct (pop_close _). intros E. by injection E as <-.
  - destruct (send_ctrl_queue c); [done|]. intros E. by injection E as <-.
Qed.

Lemma popped_recv c o : recv_inv c -> recv_inv (omsg_popped c o) /\ recv_inv (wslay_event_on_non_fragmented_msg_popped c o).
Proof. intros Hr. split; [unfold omsg_popped; by destruct (o_type o)|done]. Qed.

Lemma select_omsg_recv : keeps recv_inv (select_omsg (U:=U)).
Proof.
  unfold select_omsg. apply keeps_eget_bind. intros s Hs.
  destruct (c_omsg (e_ctx s)) as [o|].
  - apply cwlp_when; [|done]. intros _. apply cwlp_bind, cwlp_mod, cwlp_bind, cwlp_bind, cwlp_get, cwlp_ret.
    apply cwlp_bind, cwlp_lift. intros r Er. apply cwlp_bind, cwlp_mod.
    assert (recv_inv r.2) by (by eapply pop_recv). destruct (r.1) as [o2|]; [|by apply cwlp_return].
    apply cwlp_mod. by apply popped_recv.
  - destruct (send_ctrl_queue (e_ctx s)) eqn:Eq.
    + destruct (send_queue (e_ctx s)) as [|o q]; [by apply cwlp_lift|]. apply cwlp_mod. by apply popped_recv.
    + apply cwlp_bind, cwlp_lift. intros r Er. apply cwlp_bind, cwlp_mod.
      assert (recv_inv r.2) by (by eapply pop_recv). destruct (r.1) as [o2|]; [|by apply cwlp_return].
      apply cwlp_mod. by apply popped_recv.
Qed.

Lemma call_frame_send_recv mem io : keeps recv_inv (call_frame_send cb mem io).
Proof.
  intros s Hs. unfold call_frame_send. apply cwlp_bind, cwlp_get, cwlp_bind, cwlp_lift.
  intros [[[env fo] mem'] res] _. apply cwlp_bind, cwlp_mod, cwlp_ret. cbn [e_ctx].
  eapply same_recv_inv; [apply shut_send|exact Hs]. unfold same_send. by split_and!.
Qed.
Lemma handle_send_error_recv r : keeps recv_inv (handle_send_error r).
Proof. unfold handle_send_error. keeps_recv. Qed.
Lemma non_fragmented_done_recv o : keeps recv_inv (non_fragmented_done o).
Proof.
  unfold non_fragmented_done. keeps_recv. destruct (2 <=? _); keeps_recv.
Qed.
Lemma send_non_fragmented_recv o : keeps recv_inv (send_non_fragmented cb o).
Proof.
  unfold send_non_fragmented. apply keeps_bind; [apply keeps_eget|intros c].
  apply keeps_bind; [apply call_frame_send_recv|intros [mem r]]. apply keeps_bind; [keeps_recv|intros []].
  simpl. destruct (0 <=? r); [|apply handle_send_error_recv]. apply keeps_bind; [keeps_recv|intros []].
  apply keeps_bind; [apply keeps_eget|intros c']. destruct (_ =? _); [apply non_fragmented_done_recv|apply keeps_return].
Qed.
Lemma refill_obuf_recv o : keeps recv_inv (refill_obuf cb o).
Proof.
  unfold refill_obuf. apply keeps_bind; [apply keeps_eget|intros c]. destruct (_ && _); [|apply keeps_ret].
  intros s Hs. apply cwlp_bind, cwlp_get. destruct (ev_read _ _ _ _) as [[[[u src] r] data] eof].
  apply cwlp_bind, cwlp_lift. intros mem _. apply cwlp_bind, cwlp_mod.
  match goal with |- cwlp ?m ?s1 _ => assert (keeps recv_inv m) as Hk; [|by apply (Hk s1)] end.
  keeps_recv.
Qed.
Lemma send_fragmented_recv o : keeps recv_inv (send_fragmented cb o).
Proof.
  unfold send_fragmented. apply keeps_bind; [apply refill_obuf_recv|intros o1].
  apply keeps_bind; [apply keeps_eget|intros c].
  apply keeps_bind; [apply call_frame_send_recv|intros [mem r]]. apply keeps_bind; [keeps_recv|intros []].
  simpl. destruct (0 <=? r); [|apply handle_send_error_recv]. apply keeps_bind; [keeps_recv|intros []].
  apply keeps_bind; [apply keeps_eget|intros c']. destruct (_ =? _); [|apply keeps_return].
  apply keeps_bind; [keeps_recv|intros []]. destruct (negb _); keeps_recv.
Qed.
Lemma event_send_recv_inv fuel : keeps recv_inv (wslay_event_send cb fuel).
Proof.
  induction fuel as [|fuel IH]; simpl; [by intros s HP s' r E|].
  apply keeps_bind; [apply keeps_eget|intros c]. destruct (wslay_event_want_write c); [|apply keeps_ret].
  apply keeps_bind; [|intros []; done]. unfold send_iter. apply keeps_bind; [apply select_omsg_recv|intros []].
  apply keeps_bind; [apply keeps_eget|intros c']. apply keeps_bind; [apply keeps_lift|intros o].
  destruct (o_type o); [apply send_non_fragmented_recv|apply send_fragmented_recv].
Qed.

Lemma event_send_inv fuel s : event_inv s.(e_ctx) ->
  cwlp (wslay_event_send cb fuel) s (fun s' _ => event_inv s'.(e_ctx)).
Proof.
  rewrite event_inv_split. intros [H1 H2] s' r E. rewrite event_inv_split. split.
  - exact (event_send_send_inv fuel s H1 s' r E).
  - exact (event_send_recv_inv fuel s H2 s' r E).
Qed.

(** ** Reachable states *)

Inductive event_step (s s' : est (U:=U)) : Prop :=
| StepApi a r : api_step cb a s = Some (s', r) -> event_step s s'
| StepRecv fuel r : wslay_event_recv cb fuel s = Some (s', r) -> event_step s s'
| StepSend fuel r : wslay_event_send cb fuel s = Some (s', r) -> event_step s s'.

Definition event_start (s : est (U:=U)) : Prop := exists server, s.(e_ctx) = wslay_event_context_init server.

Inductive event_reachable : est (U:=U) -> Prop :=
| ReachStart s : event_start s -> event_reachable s
| ReachStep s s' : event_reachable s -> event_step s s' -> event_reachable s'.

Lemma event_inv_init server : event_inv (wslay_event_context_init server).
Proof. split; try done. Qed.

(** In every reachable state, with the counters as the code keeps them: they count the message under way and the control messages too. *)
Lemma event_inv_reachable s : event_reachable s -> event_inv s.(e_ctx).
Proof.
  induction 1 as [s [server ->]|s s' _ IH Hstep]; [apply event_inv_init|].
  destruct Hstep as [a r E|fuel r E|fuel r E].
  - exact (api_step_inv a s IH s' r E).
  - exact (event_recv_inv fuel s IH s' r E).
  - exact (event_send_inv fuel s IH s' r E).
Qed.

(** C18. In every state reachable from a new context by API calls, receiving and sending (with any peer, any transport and any
    callbacks): the control queue holds only unfragmented control frames of at most 125 bytes, the data queue only data messages, a
    fragmented one without data of its own, and the message under way is one or the other; once a Close frame is sent nothing more is
    written, once one is received nothing more is read; and as long as no Close is queued, [queued_msg_count] is the size of both
    queues whenever no message is under way, and [queued_msg_length] the sum over the data queue whenever no control message is
    outstanding either (modulo [2^64]). *)
Theorem event_invariant s : event_reachable s -> event_wf s.(e_ctx).
Proof. intros Hr. by apply event_inv_wf, event_inv_reachable. Qed.
End Inv.

(** A server that received a text message and echoed it: the echo is outstanding. *)
Definition demo_start : est :=
  mkE (mkDemo [[129; 129; 1; 2; 3; 4; 64]] [] [], 0) (wslay_event_context_init true).
Definition demo_after : est :=
  match wslay_event_recv demo_cb 10 demo_start with Some (s, _) => s | None => demo_start end.

Lemma event_invariant_witness :
  event_wf demo_after.(e_ctx) /\ demo_after.(e_ctx).(queued_msg_count) = 1.
Proof.
  split; [|vm_compute; reflexivity].
  apply (event_invariant demo_cb). apply (ReachStep _ demo_start).
  - apply ReachStart. exists true. reflexivity.
  - apply (StepRecv _ _ _ 10 (inl 0)). vm_compute. reflexivity.
Defined.
