(* ===== verification/EventClose.v ===== *)
(** * EventClose: the closing handshake and the answers to control frames *)
From S2P Require Import Prelude Utf8 Frame Event.

(** ** Exact behaviour of queueing *)

(** A message is accepted: appended to the queue of its kind, and counted. *)
Definition accept_msg (opcode rsv : Z) (msg : list Z) (c : ectx) : ectx :=
  let o := omsg_non_fragmented opcode rsv msg in
  let c := if wslay_is_ctrl_frame opcode
           then {| c with send_ctrl_queue := c.(send_ctrl_queue) ++ [o] |}
           else {| c with send_queue := c.(send_queue) ++ [o] |} in
  {| c with queued_msg_count := u64 (c.(queued_msg_count) + 1);
            queued_msg_length := u64 (c.(queued_msg_length) + zlen msg) |}.

Definition close_queued (msg : list Z) (c : ectx) : ectx :=
  let c := accept_msg WSLAY_CONNECTION_CLOSE WSLAY_RSV_NONE msg c in
  {| c with close_status := Z.lor c.(close_status) WSLAY_CLOSE_QUEUED |}.

Section Close.
Context {U : Type} (cb : event_callbacks U).
Context (alloc_ok : forall u n, ev_alloc cb u n = (u, true)).
Implicit Types s : est (U:=U).

Lemma ealloc_run n s : ealloc cb n s = Some (s, inr true).
Proof.
  unfold ealloc, mbind, CM_bind, cget. rewrite alloc_ok. destruct s as [[u e] c]. done.
Qed.

Lemma rsv_none_ok c : wslay_event_verify_rsv_bits c WSLAY_RSV_NONE = true.
Proof. unfold wslay_event_verify_rsv_bits, WSLAY_RSV_NONE. by rewrite Z.land_0_l. Qed.

Lemma queue_msg_run op msg s :
  wslay_event_queue_msg cb op msg s =
    Some (if negb (wslay_event_is_msg_queueable s.(e_ctx)) then (s, inr WSLAY_ERR_NO_MORE_MSG)
          else if wslay_is_ctrl_frame op && (125 <? zlen msg) then (s, inr WSLAY_ERR_INVALID_ARGUMENT)
          else (mkE s.(e_env) (accept_msg op WSLAY_RSV_NONE msg s.(e_ctx)), inr 0)).
Proof.
  unfold wslay_event_queue_msg, wslay_event_queue_msg_ex. erewrite cbind_inr by reflexivity.
  destruct (negb (wslay_event_is_msg_queueable (e_ctx s))); [done|].
  replace (wslay_get_rsv1 WSLAY_RSV_NONE) with false by done.
  rewrite rsv_none_ok, orb_false_r. simpl (negb true). rewrite orb_false_r. destruct (_ && _); [done|].
  erewrite cbind_inr by apply ealloc_run. done.
Qed.

Lemma queue_close_run code reason s :
  wslay_event_is_msg_queueable s.(e_ctx) = true -> zlen reason <= 123 ->
  wslay_event_queue_close cb code reason s =
    Some (mkE s.(e_env) (close_queued (if code =? 0 then [] else be_store 2 code ++ reason) s.(e_ctx)), inr 0).
Proof.
  intros Hq Hr. unfold wslay_event_queue_close. erewrite cbind_inr by reflexivity.
  rewrite Hq. cbn [negb]. cbv iota. destruct (Z.ltb_spec 123 (zlen reason)); [lia|].
  cbv zeta. set (msg := if code =? 0 then [] else _).
  assert (zlen msg <= 125) as Hm.
  { unfold msg. destruct (code =? 0); [rewrite zlen_nil; lia|]. rewrite zlen_app. unfold zlen at 1.
    rewrite be_store_length. lia. }
  erewrite cbind_inr; [|rewrite queue_msg_run, Hq; cbn [negb]; cbv iota;
    destruct (Z.ltb_spec 125 (zlen msg)); [lia|]; rewrite andb_false_r; reflexivity].
  done.
Qed.

Lemma close_wrapper_run code reason s :
  wslay_event_is_msg_queueable s.(e_ctx) = true -> zlen reason <= 123 ->
  wslay_event_queue_close_wrapper cb code reason s =
    Some (mkE s.(e_env) (close_queued (if code =? 0 then [] else be_store 2 code ++ reason)
                           (wslay_event_shutdown_read s.(e_ctx))), inr tt).
Proof.
  intros Hq Hr. unfold wslay_event_queue_close_wrapper.
  erewrite cbind_inr by reflexivity. erewrite cbind_inr by (by apply queue_close_run). done.
Qed.

(** ** The properties *)

(** The status code of a Close payload (0 when there is none). *)
Definition close_code (msg : list Z) : Z := be_load (take 2 msg) 0.

(** The state after a Close message that is answered by [answer]. *)
Definition close_answered (code : Z) (answer : list Z) (c : ectx) : ectx :=
  close_queued answer (wslay_event_shutdown_read
    {| c with close_status := Z.lor c.(close_status) WSLAY_CLOSE_RECEIVED;
              status_code_recv := if code =? 0 then WSLAY_CODE_NO_STATUS_RCVD else code |}).

Lemma be_store_load b0 b1 : byte_ok b0 -> byte_ok b1 -> be_store 2 (be_load [b0; b1] 0) = [b0; b1].
Proof.
  unfold byte_ok. intros H0 H1. simpl. f_equal; [|f_equal]; Z.to_euclidean_division_equations; lia.
Qed.

Lemma queueable_received c st :
  wslay_event_is_msg_queueable {| c with close_status := Z.lor c.(close_status) WSLAY_CLOSE_RECEIVED;
                                         status_code_recv := st |} = wslay_event_is_msg_queueable c.
Proof.
  unfold wslay_event_is_msg_queueable, has_close. cbn [write_enabled close_status].
  by rewrite land_lor_zero, andb_true_r.
Qed.

(** C33. The closing handshake, when memory for the answer suffices.  A complete Close message received while messages can
    still be queued ends reading and queues exactly one answer: the payload itself when it has a valid
    status code, an empty Close when it has no code (recorded as 1005), and a protocol error
    (1002) when the code is invalid, in which case the peer's Close is not recorded as received. *)
Theorem close_reply msg s :
  wslay_event_is_msg_queueable s.(e_ctx) = true -> bytes_ok msg -> zlen msg <= 125 ->
  (cur_imsg s.(e_ctx)).(msg_length) = zlen msg ->
  handle_close cb msg s =
    Some (if zlen msg <? 2 then (mkE s.(e_env) (close_answered 0 [] s.(e_ctx)), inr 0)
          else if wslay_event_is_valid_status_code (close_code msg)
          then (mkE s.(e_env) (close_answered (close_code msg) msg s.(e_ctx)), inr (close_code msg))
          else (mkE s.(e_env) (close_queued [3; 234] (wslay_event_shutdown_read s.(e_ctx))), inl 0)).
Proof.
  intros Hq Hb Hle Hlen. unfold handle_close. erewrite cbind_inr by reflexivity. rewrite Hlen.
  destruct (Z.ltb_spec (zlen msg) 2) as [Hlt|Hge].
  - destruct (Z.leb_spec 2 (zlen msg)); [lia|]. erewrite cbind_inr by reflexivity.
    erewrite cbind_inr by reflexivity. erewrite cbind_inr; [|apply close_wrapper_run; [etrans; [apply queueable_received|exact Hq]|done]]. done.
  - destruct (Z.leb_spec 2 (zlen msg)); [|lia].
    destruct msg as [|b0 [|b1 reason]]; [done|done|].
    apply Forall_cons in Hb as [Hb0 Hb]. apply Forall_cons in Hb as [Hb1 Hb].
    assert (slice (b0 :: b1 :: reason) 2 (zlen (b0 :: b1 :: reason)) = reason) as Hs.
    { unfold slice. rewrite !zlen_cons. simpl. apply take_ge. unfold zlen. lia. }
    change (close_code (b0 :: b1 :: reason)) with (be_load [b0; b1] 0).
    destruct (wslay_event_is_valid_status_code (be_load [b0; b1] 0)) eqn:Ev.
    + erewrite cbind_inr; [|erewrite cbind_inr by reflexivity; erewrite cbind_inr by reflexivity; rewrite Ev; reflexivity].
      erewrite cbind_inr by reflexivity. cbn [fst snd]. rewrite Hs.
      assert (be_load [b0; b1] 0 <> 0) as Hnz by (intros E; by rewrite E in Ev).
      erewrite cbind_inr;
        [|apply close_wrapper_run; [etrans; [apply queueable_received|exact Hq]|rewrite !zlen_cons in Hle; lia]].
      rewrite (proj2 (Z.eqb_neq _ _) Hnz), be_store_load by done. unfold close_answered.
      by rewrite (proj2 (Z.eqb_neq _ _) Hnz).
    + erewrite cbind_inl; [reflexivity|].
      erewrite cbind_inr by reflexivity. erewrite cbind_inr by reflexivity. rewrite Ev. simpl cwhen.
      erewrite cbind_inl; [reflexivity|]. erewrite cbind_inr; [|apply close_wrapper_run; [exact Hq|done]]. done.
Qed.

(** Ping is answered by Pong: a complete Ping message queues a Pong with the same payload,
    and nothing else happens; after a Close was queued it is ignored. *)
Theorem ping_pong msg s :
  zlen msg <= 125 ->
  handle_ping cb msg s =
    Some (mkE s.(e_env) (if wslay_event_is_msg_queueable s.(e_ctx)
                         then accept_msg WSLAY_PONG WSLAY_RSV_NONE msg s.(e_ctx) else s.(e_ctx)), inr tt).
Proof.
  intros Hle. unfold handle_ping.
  destruct (wslay_event_is_msg_queueable (e_ctx s)) eqn:Hq;
    (erewrite cbind_inr by (rewrite queue_msg_run, Hq; cbn [negb]; cbv iota;
       try (destruct (Z.ltb_spec 125 (zlen msg)); [lia|]; rewrite andb_false_r); reflexivity)); [done|].
  simpl. by destruct s.
Qed.
End Close.

Lemma demo_alloc u n : ev_alloc demo_cb u n = (u, true).
Proof. reflexivity. Defined.

(** A server whose current message is a Close with status 1000. *)
Definition closing_server : est :=
  let c := wslay_event_context_init true in
  mkE (mkDemo [] [] [], 0) {| c with imsgs0 := mkImsg 1 0 8 0 [] 4 |}.

Lemma close_reply_witness :
  handle_close demo_cb [3; 232; 111; 107] closing_server =
    Some (mkE (mkDemo [] [] [], 0) (close_answered 1000 [3; 232; 111; 107] closing_server.(e_ctx)), inr 1000).
Proof.
  apply (close_reply demo_cb demo_alloc [3; 232; 111; 107] closing_server).
  - reflexivity.
  - repeat constructor; lia.
  - vm_compute. discriminate.
  - reflexivity.
Defined.

Lemma ping_pong_witness :
  handle_ping demo_cb [1; 2] (mkE (mkDemo [] [] [], 0) (wslay_event_context_init true)) =
    Some (mkE (mkDemo [] [] [], 0) (accept_msg WSLAY_PONG 0 [1; 2] (wslay_event_context_init true)), inr tt).
Proof.
  apply (ping_pong demo_cb demo_alloc [1; 2]). vm_compute. discriminate.
Defined.
