(* ===== verification/EventRecv.v ===== *)
(** * EventRecv: the messages [wslay_event_recv] delivers

    A peer that follows the protocol sends messages in one or more frames, with Ping and Pong frames in between.
    Whatever the way the stream is cut into deliveries, the calls of [wslay_event_recv] hand exactly these messages to
    [on_msg_recv_callback], in order, and queue a Pong for every Ping. *)
From S2P Require Import Prelude Utf8 Frame Event EventClose.

(** ** Reference: messages in frames

    [p] is the message under way: its opcode and the payload of the frames received so far. *)
Definition partial : Type := option (Z * list Z).

Definition ctrl (f : ws_frame) : bool := (f.(f_opcode) =? WSLAY_PING) || (f.(f_opcode) =? WSLAY_PONG).

(** The message the frame belongs to, and its payload with the frame. *)
Definition msg_of (p : partial) (f : ws_frame) : Z * list Z :=
  if ctrl f then (f.(f_opcode), f.(f_payload))
  else match p with
       | Some (op, acc) => (op, acc ++ f.(f_payload))
       | None => (f.(f_opcode), f.(f_payload))
       end.

Definition after (p : partial) (f : ws_frame) : partial :=
  if ctrl f then p else if f.(f_fin) =? 1 then None else Some (msg_of p f).
Definition delivered (p : partial) (f : ws_frame) : list (Z * list Z) := if f.(f_fin) =? 1 then [msg_of p f] else [].

(** What a peer may send next; [mask] is the masking bit the receiver requires, [max] the limit on messages. *)
Definition next_ok (mask max : Z) (p : partial) (f : ws_frame) : Prop :=
  recv_ok f /\ f.(f_rsv) = 0 /\ mask_bit f = mask /\
  (if ctrl f then True else match p with
                            | None => f.(f_opcode) = WSLAY_TEXT_FRAME \/ f.(f_opcode) = WSLAY_BINARY_FRAME
                            | Some _ => f.(f_opcode) = WSLAY_CONTINUATION_FRAME
                            end) /\
  zlen (msg_of p f).2 <= max /\
  ((msg_of p f).1 = WSLAY_TEXT_FRAME ->
   urun UAccept (msg_of p f).2 <> UReject /\ (f.(f_fin) = 1 -> urun UAccept (msg_of p f).2 = UAccept)).

Fixpoint frames_ok (mask max : Z) (p : partial) (fs : list ws_frame) : Prop :=
  match fs with [] => True | f :: fs => next_ok mask max p f /\ frames_ok mask max (after p f) fs end.

Fixpoint messages (p : partial) (fs : list ws_frame) : list (Z * list Z) :=
  match fs with [] => [] | f :: fs => delivered p f ++ messages (after p f) fs end.

Fixpoint pongs (fs : list ws_frame) : list (list Z) :=
  match fs with [] => [] | f :: fs => (if f.(f_opcode) =? WSLAY_PING then [f.(f_payload)] else []) ++ pongs fs end.

Definition wire_of (fs : list ws_frame) : list Z := fs ≫= encode.

(** ** The frame layer only touches the transport through the callback *)
Section Env.
Context {U : Type} (cb : frame_callbacks U) (P : U -> Prop).
Context (HP : forall u n u' l, recv_callback cb u n = (u', l) -> P u -> P u').

Definition env_keeps {A} (m : CM (U * frame_in) Z A) : Prop := forall s, P s.1 -> cwlp m s (fun s' _ => P s'.1).

Lemma env_bind {A B} (m : CM (U * frame_in) Z A) (k : A -> CM (U * frame_in) Z B) :
  env_keeps m -> (forall a, env_keeps (k a)) -> env_keeps (m ≫= k).
Proof. intros Hm Hk s Hs. apply cwlp_bind. eapply cwlp_mono; [by apply Hm|]. intros s' [e|a] Hs'; [done|]. by apply Hk. Qed.
Lemma env_ret {A} (a : A) : env_keeps (mret a).
Proof. intros s Hs. by apply cwlp_ret. Qed.
Lemma env_return {A} e : env_keeps (A:=A) (creturn e).
Proof. intros s Hs. by apply cwlp_return. Qed.
Lemma env_get : env_keeps cget.
Proof. intros s Hs. by apply cwlp_get. Qed.
Lemma env_rget : env_keeps rget.
Proof. apply env_bind; [apply env_get|intros; apply env_ret]. Qed.
Lemma env_rmod f : env_keeps (rmod f).
Proof. intros s Hs. by apply cwlp_mod. Qed.
Lemma env_lift {A} (o : option A) : env_keeps (clift o).
Proof. intros s Hs. by apply cwlp_lift. Qed.
Lemma env_when b m : env_keeps m -> env_keeps (cwhen b m).
Proof. destruct b; [done|intros; apply env_ret]. Qed.

Lemma env_recv : env_keeps (wslay_recv cb).
Proof using HP.
  intros s Hs. unfold wslay_recv. apply cwlp_bind, cwlp_bind, cwlp_get, cwlp_ret. apply cwlp_bind.
  eapply cwlp_mono; [by apply (env_when _ _ (env_rmod _))|]. intros s1 [e|[]] Hs1; [done|].
  apply cwlp_bind, cwlp_get. destruct s1 as [u c]. destruct (recv_callback cb u _) as [u' l] eqn:E.
  apply cwlp_bind, cwlp_mod. cbn [fst snd]. pose proof (HP _ _ _ _ E Hs1).
  destruct l; [by apply cwlp_return|]. apply cwlp_bind, cwlp_lift. intros buf _. by apply cwlp_mod.
Qed.

Ltac env_tac := repeat first
  [ apply env_recv | apply env_rget | apply env_get | apply env_rmod | apply env_lift | apply env_ret | apply env_return
  | apply env_when | apply env_bind; [|intros ?]
  | match goal with
    | |- env_keeps (let '(_, _) := ?x in _) => destruct x as [[? ?] ?]
    | |- env_keeps (if ?b then _ else _) => destruct b
    end ].

Lemma frame_recv_env : env_keeps (wslay_frame_recv cb).
Proof using HP.
  unfold wslay_frame_recv, recv_header1, recv_ext_payloadlen, recv_maskkey, recv_payload, hand_out, require_bytes. env_tac.
Qed.
End Env.

(** ** A drained stream

    At a frame boundary with nothing left the frame layer asks the transport once and wants to read. *)
Section Drained.
Context {U : Type} (cb : frame_callbacks U) (pending : U -> list Z).
Hypothesis delivers : forall u n u' l, recv_callback cb u n = (u', l) -> 0 < n -> pending u = l ++ pending u' /\ zlen l <= n.

Definition drained (s : U * frame_in) : Prop := in_ok s.2 /\ at_frame_start s.2 /\ todo pending s = [].

Lemma recv_drained s : drained s -> cwp (wslay_recv cb) s (fun s' r => r = inl WSLAY_ERR_WANT_READ /\ drained s').
Proof using delivers.
  destruct s as [u c]. intros (Hok & Hst & Ht). cbn [fst snd] in *. unfold wslay_recv. apply cwp_bind, cwp_bind, cwp_get, cwp_ret. cbn [snd].
  assert (forall c1, in_ok c1 -> at_frame_start c1 -> unread c1 = unread c -> ibufmark c1 = 0 ->
    cwp (s ← cget;
         let '(u, c) := s in
         let '(u, l) := recv_callback cb u (IBUF_SIZE - c.(ibuflimit)) in
         _ ← cmod (fun s => (u, s.2));
         match l with
         | [] => creturn WSLAY_ERR_WANT_READ
         | _ => buf ← clift (memcpy c.(ibuf) c.(ibuflimit) l);
                rmod (fun c => {| c with ibuf := buf; ibuflimit := c.(ibuflimit) + zlen l |})
         end) (u, c1) (fun s' r => r = inl WSLAY_ERR_WANT_READ /\ drained s')) as Hrest.
  { intros c1 Hok1 Hst1 Hu1 Hm1. apply cwp_bind, cwp_get. destruct (recv_callback cb u _) as [u' l] eqn:E.
    unfold todo in Ht. cbn [fst snd] in Ht. apply app_nil in Ht as [Hu Hp].
    assert (ibuflimit c1 = 0) as Hl1.
    { pose proof (unread_len c1 Hok1) as Hl. rewrite Hu1, Hu, zlen_nil in Hl. unfold WSLAY_AVAIL_IBUF in Hl. lia. }
    destruct (delivers _ _ _ _ E) as [Hd _]; [rewrite Hl1; unfold IBUF_SIZE; lia|]. rewrite Hp in Hd. symmetry in Hd. apply app_nil in Hd as [-> Hp'].
    apply cwp_bind, cwp_mod, cwp_return. split; [done|]. split_and!; try done. unfold todo. cbn [fst snd]. by rewrite Hu1, Hu, Hp'. }
  apply cwp_bind, cwp_when; [intros _; apply cwp_mod|intros E%negb_false_iff%Z.eqb_eq; by apply Hrest].
  destruct (shift_ibuf_ok c Hok) as (H1 & H2 & H3 & H4). by apply Hrest.
Qed.

Lemma frame_recv_drained s : drained s -> cwp (wslay_frame_recv cb) s (fun s' r => r = inl WSLAY_ERR_WANT_READ /\ drained s').
Proof using delivers.
  destruct s as [u c]. intros Hd. pose proof Hd as (Hok & (Hst & Hreq) & Ht). cbn [fst snd] in *.
  unfold wslay_frame_recv. apply cwp_bind, cwp_bind, cwp_get, cwp_ret. cbn [snd]. rewrite Hst. apply cwp_bind. unfold recv_header1, require_bytes.
  cbn [bool_decide cwhen]. apply cwp_bind, cwp_bind, cwp_bind, cwp_get, cwp_ret. cbn [snd].
  assert ((WSLAY_AVAIL_IBUF c <? ireqread c) = true) as ->.
  { rewrite Hreq. apply Z.ltb_lt. rewrite <- (unread_len c Hok). unfold todo in Ht. cbn [fst snd] in Ht. apply app_nil in Ht as [-> _]. by rewrite zlen_nil. }
  apply cwp_bind. eapply cwp_mono; [by apply recv_drained|]. by intros s' r [-> ?].
Qed.
End Drained.

(** ** The application and the transport *)
Section Recv.
Context {U : Type} (cb : event_callbacks U).
Implicit Types s : est (U:=U).

(** Nothing but the time at which bytes arrive is open: the transport delivers the stream [ep_pending] in pieces and says
    "would block" finitely often, memory is available, and the application only takes messages ([ep_seen], of those it [ep_wants]). *)
Class EventPeer := {
  ep_ok : U -> Prop; ep_pending : U -> list Z; ep_budget : U -> nat;
  ep_wants : Z * list Z -> bool; ep_seen : U -> list (Z * list Z);
  ep_open u : ep_ok u -> ev_shut cb u = (false, false);
  ep_recv u n u' l e : ev_recv cb u n = (u', l, e) ->
    (ep_ok u -> ep_ok u') /\ (e = None \/ e = Some WSLAY_ERR_WOULDBLOCK) /\ ep_seen u' = ep_seen u;
  ep_stream u n u' l e : ev_recv cb u n = (u', l, e) -> 0 < n -> ep_pending u = l ++ ep_pending u' /\ zlen l <= n;
  ep_fair u n u' l e : ev_recv cb u n = (u', l, e) -> 0 < n -> ep_pending u <> [] -> (ep_budget u' < ep_budget u)%nat;
  ep_alloc u n : ep_ok u -> exists u', ev_alloc cb u n = (u', true) /\ ep_ok u' /\ ep_pending u' = ep_pending u /\
    ep_budget u' = ep_budget u /\ ep_seen u' = ep_seen u;
  ep_frames : on_frame_recv_start cb = None /\ on_frame_recv_chunk cb = None /\ on_frame_recv_end cb = None;
  ep_msg : exists g, on_msg_recv cb = Some g /\ forall u a, ep_ok u -> exists u', g u a = (u', []) /\ ep_ok u' /\
    ep_pending u' = ep_pending u /\ ep_budget u' = ep_budget u /\ 
    ep_seen u' = ep_seen u ++ List.filter ep_wants [(a.(a_opcode), a.(a_msg))] }.
Context `{EventPeer}.
Context (srv : bool) (max : Z) (Hmax : 0 <= max < 2 ^ 63).

(** The settings of the receiver. *)
Definition receiving (c : ectx) : Prop :=
  c.(read_enabled) = true /\ no_buffering c = false /\ c.(allowed_rsv_bits) = 0 /\ c.(max_recv_msg_length) = max /\ c.(server) = srv.

(** The sending side: unchanged but for the answers to Pings. *)
Definition answered (ps : list (list Z)) (c c' : ectx) : Prop :=
  c'.(write_enabled) = c.(write_enabled) /\ c'.(close_status) = c.(close_status) /\ c'.(send_queue) = c.(send_queue) /\
  c'.(c_omsg) = c.(c_omsg) /\ c'.(fctx_out) = c.(fctx_out) /\ c'.(e_opayloadlen) = c.(e_opayloadlen) /\ c'.(e_opayloadoff) = c.(e_opayloadoff) /\
  c'.(send_ctrl_queue) = c.(send_ctrl_queue) ++
    (if wslay_event_is_msg_queueable c then omsg_non_fragmented WSLAY_PONG WSLAY_RSV_NONE <$> ps else []).

Definition error_ok (e : Z) : Prop := e = 0 \/ e = WSLAY_ERR_WOULDBLOCK.

(** [s'] is [s] after [ms] were delivered and Pings [ps] answered, the stream untouched. *)
Record moved (ms : list (Z * list Z)) (ps : list (list Z)) s s' : Prop := mkMoved {
  mv_ok : ep_ok s'.(e_env).1; mv_err : error_ok s'.(e_env).2; mv_recv : receiving s'.(e_ctx);
  mv_pending : ep_pending s'.(e_env).1 = ep_pending s.(e_env).1; mv_budget : ep_budget s'.(e_env).1 = ep_budget s.(e_env).1;
  mv_seen : ep_seen s'.(e_env).1 = ep_seen s.(e_env).1 ++ List.filter ep_wants ms;
  mv_in : s'.(e_ctx).(fctx_in) = s.(e_ctx).(fctx_in); mv_answered : answered ps s.(e_ctx) s'.(e_ctx) }.

Definition running s : Prop := ep_ok s.(e_env).1 /\ error_ok s.(e_env).2 /\ receiving s.(e_ctx).

Lemma answered_refl c : answered [] c c.
Proof. unfold answered. split_and!; try done. destruct (wslay_event_is_msg_queueable c); cbn; by rewrite app_nil_r. Qed.
Lemma answered_trans ps ps' c1 c2 c3 : answered ps c1 c2 -> answered ps' c2 c3 -> answered (ps ++ ps') c1 c3.
Proof.
  intros (A1&A2&A3&A4&A5&A6&A7&A8) (B1&B2&B3&B4&B5&B6&B7&B8). unfold answered. split_and!; try congruence.
  rewrite B8, A8. assert (wslay_event_is_msg_queueable c2 = wslay_event_is_msg_queueable c1) as ->
    by (unfold wslay_event_is_msg_queueable, has_close; by rewrite A1, A2).
  destruct (wslay_event_is_msg_queueable c1); [by rewrite fmap_app, app_assoc|by rewrite !app_nil_r].
Qed.

Lemma moved_refl s : running s -> moved [] [] s s.
Proof. intros (? & ? & ?). split; try done; [by rewrite app_nil_r|apply answered_refl]. Qed.
Lemma moved_trans ms ps ms' ps' s1 s2 s3 : moved ms ps s1 s2 -> moved ms' ps' s2 s3 -> moved (ms ++ ms') (ps ++ ps') s1 s3.
Proof.
  intros [] []. split; try done; try congruence; [by rewrite List.filter_app, app_assoc; congruence|by eapply answered_trans].
Qed.
Lemma moved_running ms ps s s' : moved ms ps s s' -> running s'.
Proof. intros []. done. Qed.

(** A change of the receiving half of the context. *)
Lemma moved_ctx s c : running s -> receiving c -> c.(fctx_in) = s.(e_ctx).(fctx_in) -> answered [] s.(e_ctx) c ->
  moved [] [] s (mkE s.(e_env) c).
Proof. intros (? & ? & ?) ???. split; try done. by rewrite app_nil_r. Qed.

(** *** Triples that end normally *)

Definition does {A} (m : CM est Z A) s (Q : A -> est -> Prop) : Prop :=
  cwp m s (fun s' r => match r with inl _ => False | inr a => Q a s' end).

Lemma does_bind {A B} (m : CM est Z A) (k : A -> CM est Z B) s Q R :
  does m s R -> (forall a s', R a s' -> does (k a) s' Q) -> does (m ≫= k) s Q.
Proof. intros Hm Hk. apply cwp_bind. eapply cwp_mono; [exact Hm|]. intros s' [e|a] Hr; [done|]. by apply Hk. Qed.
Lemma does_ret {A} (a : A) s (Q : A -> est -> Prop) : Q a s -> does (mret a) s Q.
Proof. auto. Qed.
Lemma does_ret_bind {A B} (a : A) (k : A -> CM est Z B) s Q : does (k a) s Q -> does (mret a ≫= k) s Q.
Proof. auto. Qed.
Lemma does_eget {B} (k : ectx -> CM est Z B) s Q : does (k s.(e_ctx)) s Q -> does (eget ≫= k) s Q.
Proof. auto. Qed.
Lemma does_emod {B} f (k : unit -> CM est Z B) s Q : does (k tt) (mkE s.(e_env) (f s.(e_ctx))) Q -> does (emod f ≫= k) s Q.
Proof. auto. Qed.
Lemma does_emod_end f s (Q : unit -> est -> Prop) : Q tt (mkE s.(e_env) (f s.(e_ctx))) -> does (emod f) s Q.
Proof. auto. Qed.
Lemma does_skip {B} (b : bool) m (k : unit -> CM est Z B) s Q : b = false -> does (k tt) s Q -> does (cwhen b m ≫= k) s Q.
Proof. by intros ->. Qed.
Lemma does_when (b : bool) m s Q : b = true -> does m s Q -> does (cwhen b m) s Q.
Proof. by intros ->. Qed.
Lemma does_lift {A B} (o : option A) a (k : A -> CM est Z B) s Q : o = Some a -> does (k a) s Q -> does (clift o ≫= k) s Q.
Proof. by intros ->. Qed.
Lemma does_mono {A} (m : CM est Z A) s (Q R : A -> est -> Prop) : does m s Q -> (forall a s', Q a s' -> R a s') -> does m s R.
Proof. intros Hm HR. eapply cwp_mono; [exact Hm|]. intros s' [e|a]; [done|apply HR]. Qed.

Lemma alloc_does n s : running s ->
  does (ealloc cb n) s (fun ok s' => ok = true /\ moved [] [] s s' /\ exists u, s' = mkE (u, s.(e_env).2) s.(e_ctx)).
Proof.
  intros (Hu & He & Hc). destruct (ep_alloc (e_env s).1 n Hu) as (u & Ea & H1 & H2 & H3 & H4).
  unfold does, cwp, ealloc, cget, mbind, CM_bind. rewrite Ea. cbn. split; [done|]. split; [|by exists u].
  split; try done; cbn; [by rewrite app_nil_r|apply answered_refl].
Qed.
Lemma does_alloc {B} n (k : bool -> CM est Z B) s Q : running s ->
  (forall u, moved [] [] s (mkE (u, s.(e_env).2) s.(e_ctx)) -> does (k true) (mkE (u, s.(e_env).2) s.(e_ctx)) Q) ->
  does (ealloc cb n ≫= k) s Q.
Proof. intros Hrun Hk. eapply does_bind; [by apply alloc_does|]. intros ok s' (-> & Hm & u & ->). by apply Hk. Qed.

(** *** The message under way in the context *)

Definition text_state (op : Z) (l : list Z) : Z := if op =? WSLAY_TEXT_FRAME then enc (urun UAccept l) else UTF8_ACCEPT.

(** [m] holds the frames of the message received so far. *)
Definition holds (m : imsg) (p : partial) : Prop :=
  match p with
  | None => m.(m_opcode) = 255 /\ m.(utf8state) = UTF8_ACCEPT /\ m.(chunks) = []
  | Some (op, acc) =>
      m.(m_opcode) = op /\ (op = WSLAY_TEXT_FRAME \/ op = WSLAY_BINARY_FRAME) /\ m.(m_rsv) = 0 /\
      m.(utf8state) = text_state op acc /\ concat m.(chunks) = acc /\ m.(msg_length) = zlen acc
  end.

(** The part of the message in front of [f]. *)
Definition before (p : partial) (f : ws_frame) : list Z :=
  if ctrl f then [] else match p with Some (_, acc) => acc | None => [] end.

(** [m] holds the message up to [off] bytes of [f], with [v] bytes of [f] validated; the block of [f] is there in full
    length. *)
Definition filling (m : imsg) (p : partial) (f : ws_frame) (v off : Z) : Prop :=
  m.(m_opcode) = (msg_of p f).1 /\ m.(m_rsv) = 0 /\ m.(m_fin) = f.(f_fin) /\
  m.(utf8state) = text_state (msg_of p f).1 (before p f ++ take (Z.to_nat v) f.(f_payload)) /\
  m.(msg_length) = zlen (before p f) + flen f /\
  exists ch blk, m.(chunks) = ch ++ (if flen f =? 0 then [] else [blk]) /\ concat ch = before p f /\
    zlen blk = flen f /\ take (Z.to_nat off) blk = take (Z.to_nat off) f.(f_payload).

(** Between two frames, and inside of one.  A control frame inside of a message has the second slot. *)
Definition between (c : ectx) (p : partial) : Prop :=
  c.(imsg_second) = false /\ holds c.(imsgs0) p /\ holds c.(imsgs1) None /\ c.(e_ipayloadlen) = 0 /\ c.(e_ipayloadoff) = 0.
Definition second (p : partial) (f : ws_frame) : bool := ctrl f && bool_decide (is_Some p).
Definition partial_ok (p : partial) : Prop := match p with Some (op, _) => op = WSLAY_TEXT_FRAME \/ op = WSLAY_BINARY_FRAME | None => True end.
Definition inside (c : ectx) (p : partial) (f : ws_frame) (v off : Z) : Prop :=
  partial_ok p /\
  c.(e_ipayloadlen) = flen f /\ c.(e_ipayloadoff) = off /\ c.(imsg_second) = second p f /\ filling (cur_imsg c) p f v off /\
  (if second p f then holds c.(imsgs0) p else holds c.(imsgs1) None).

(** The header of the chunks of [f]. *)
Definition header_of (io : iocb_in) (f : ws_frame) : Prop :=
  io.(in_fin) = f.(f_fin) /\ io.(in_rsv) = f.(f_rsv) /\ io.(in_opcode) = f.(f_opcode) /\
  io.(in_payload_length) = flen f /\ io.(in_mask) = mask_bit f.

Lemma msg_of_payload p f : (msg_of p f).2 = before p f ++ f.(f_payload).
Proof. unfold msg_of, before. destruct (ctrl f); [done|]. by destruct p as [[]|]. Qed.

Lemma ctrl_cases f : ctrl f = true -> f.(f_opcode) = WSLAY_PING \/ f.(f_opcode) = WSLAY_PONG.
Proof. unfold ctrl. intros [E%Z.eqb_eq|E%Z.eqb_eq]%orb_true_iff; auto. Qed.

(** The opcode of a frame a peer may send. *)
Lemma next_opcode mask p f : next_ok mask max p f ->
  wslay_is_ctrl_frame f.(f_opcode) = ctrl f /\ is_ctrl_opcode f.(f_opcode) = ctrl f /\ f.(f_opcode) <> 255 /\
  (ctrl f = true -> f.(f_fin) = 1 /\ flen f <= 125).
Proof.
  intros (((_ & _ & Hop & _ & _ & _ & Hl) & Hfin) & _ & _ & Hk & _). destruct (ctrl f) eqn:Ec.
  - destruct (ctrl_cases f Ec) as [E|E]; rewrite E in *; (split; [done|]; split; [done|]; split; [done|]; intros _; split; [by apply Hfin|by apply Hl]).
  - destruct p; [rewrite Hk in *|destruct Hk as [Hk|Hk]; rewrite Hk in *]; done.
Qed.

Lemma msg_opcode mask p f : partial_ok p -> next_ok mask max p f -> (msg_of p f).1 <> 255.
Proof.
  intros Hp Hn. destruct (next_opcode _ _ _ Hn) as (_ & _ & K3 & _). unfold msg_of. destruct (ctrl f); [done|].
  destruct p as [[op acc]|]; [|done]. cbn [fst]. by destruct Hp as [->| ->].
Qed.

Lemma set_imsg_receiving c m : receiving (set_imsg c m) <-> receiving c.
Proof. unfold receiving, set_imsg, no_buffering. by destruct (imsg_second c). Qed.
Lemma set_imsg_in c m : fctx_in (set_imsg c m) = fctx_in c.
Proof. unfold set_imsg. by destruct (imsg_second c). Qed.
Lemma set_imsg_answered ps c m c' : answered ps c' (set_imsg c m) <-> answered ps c' c.
Proof. unfold answered, set_imsg. by destruct (imsg_second c). Qed.
Lemma cur_set c m : cur_imsg (set_imsg c m) = m.
Proof. unfold cur_imsg, set_imsg. by destruct (imsg_second c) eqn:E; simpl; rewrite ?E. Qed.

Lemma does_seq {A B C} (m : CM est Z A) (k : A -> CM est Z B) (l : B -> CM est Z C) s Q :
  does (m ≫= fun a => k a ≫= l) s Q -> does ((m ≫= k) ≫= l) s Q.
Proof. unfold does, cwp, mbind, CM_bind. by destruct (m s) as [[s' [e|a]]|]. Qed.

Lemma does_assoc {A B C} (m : CM est Z A) (k : A -> CM est Z B) (l : B -> CM est Z C) s Q :
  does ((m ≫= k) ≫= l) s Q -> does (m ≫= fun a => k a ≫= l) s Q.
Proof. apply cwp_assoc. Qed.

(** The first chunk of a frame: the message is chosen and gets a block for the frame. *)
Definition chosen (io : iocb_in) : CM (est (U:=U)) Z unit := new_frame ← select_imsg cb io; cwhen new_frame (start_frame cb io).

Lemma start_frame_does s p f io m :
  running s -> partial_ok p -> next_ok (Z.b2z srv) max p f -> header_of io f ->
  s.(e_ctx).(imsg_second) = second p f -> cur_imsg s.(e_ctx) = m ->
  m.(m_opcode) = (msg_of p f).1 -> m.(m_rsv) = 0 -> m.(m_fin) = f.(f_fin) -> m.(utf8state) = text_state (msg_of p f).1 (before p f) ->
  m.(msg_length) = zlen (before p f) -> concat m.(chunks) = before p f ->
  (if second p f then holds s.(e_ctx).(imsgs0) p else holds s.(e_ctx).(imsgs1) None) -> s.(e_ctx).(e_ipayloadoff) = 0 ->
  does (start_frame cb io) s (fun _ s' => moved [] [] s s' /\ inside s'.(e_ctx) p f 0 0).
Proof.
  intros Hrun Hpok Hn (I1 & I2 & I3 & I4 & I5) Hsec Em M1 M2 M3 M4 M5 M6 Hoth Hoff.
  pose proof Hrun as (_ & _ & (R1 & R2 & R3 & R4 & R5)). destruct (next_opcode _ _ _ Hn) as (K1 & _).
  destruct Hn as (((_ & _ & _ & _ & _ & Hfl & _) & _) & _ & _ & _ & Hlen & _). rewrite msg_of_payload, zlen_app in Hlen. fold (flen f) in Hlen, Hfl.
  pose proof (zlen_nonneg (f_payload f)) as Hfp. fold (flen f) in Hfp. pose proof (zlen_nonneg (before p f)).
  unfold start_frame. apply does_eget, does_skip.
  { rewrite Em, M5, I4, R4, uwrap_id by lia. apply Z.ltb_ge. lia. }
  apply does_emod. destruct ep_frames as (-> & _). cbn [call_back]. apply does_ret_bind, does_eget. cbn [e_ctx].
  assert (buffered {| (e_ctx s) with e_ipayloadlen := in_payload_length io |} io = true) as ->.
  { unfold buffered, no_buffering in *. cbn [config]. by rewrite R2. }
  rewrite I4. destruct (Z.eqb_spec (flen f) 0) as [E0|E0]; cbn [negb andb].
  - apply does_ret. split; [by apply moved_ctx; [| |done|apply (answered_refl (e_ctx s))]|].
    split; [done|]. split; [done|]. split; [done|]. split; [done|]. split; [|done].
    assert (f_payload f = []) as Ep by (apply nil_length_inv; unfold flen, zlen in E0; lia).
    change (filling (cur_imsg (e_ctx s)) p f 0 0). rewrite Em. unfold filling. rewrite E0, app_nil_r. split_and!; try done; [lia|].
    exists (chunks m), []. by rewrite app_nil_r.
  - apply does_when; [done|]. apply does_alloc; [split; [apply Hrun|split; [apply Hrun|done]]|]. intros u Hmv. cbn [negb].
    set (c1 := {| (e_ctx s) with e_ipayloadlen := flen f |}) in *.
    assert (cur_imsg c1 = m) as Em1 by (rewrite <- Em; done).
    apply does_emod_end. cbn [e_env e_ctx fst snd]. rewrite Em1. split.
    + destruct Hmv as [V1 V2 V3 V4 V5 V6 V7 V8]. cbn [e_env e_ctx fst snd] in *. split; cbn [e_env e_ctx fst snd]; try done.
      * by apply set_imsg_receiving.
      * by rewrite set_imsg_in.
      * apply set_imsg_answered. apply (answered_refl (e_ctx s)).
    + unfold inside. rewrite cur_set.
      unfold set_imsg. replace (imsg_second c1) with (second p f) by (symmetry; exact Hsec).
      assert (filling (imsg_append m (flen f)) p f 0 0) as Hfil.
      { unfold filling, imsg_append. cbn [m_opcode m_rsv m_fin utf8state msg_length chunks]. rewrite M5, uwrap_id, app_nil_r by lia.
        split_and!; try done. exists (chunks m), (replicate (Z.to_nat (flen f)) 0).
        rewrite (proj2 (Z.eqb_neq _ _) E0). split_and!; try done. unfold zlen. rewrite length_replicate. lia. }
      destruct (second p f) eqn:Es; cbn [e_ipayloadlen e_ipayloadoff imsg_second imsgs0 imsgs1]; split_and!; done.
Qed.

Lemma text_state_nil op : text_state op [] = UTF8_ACCEPT.
Proof. unfold text_state. by destruct (op =? _). Qed.

(** A step in front of a triple. *)
Lemma does_after {A} ms ps ms' ps' s0 s (m : CM est Z A) (Q : est -> Prop) :
  moved ms ps s0 s -> does m s (fun _ s' => moved ms' ps' s s' /\ Q s') -> does m s (fun _ s' => moved (ms ++ ms') (ps ++ ps') s0 s' /\ Q s').
Proof. intros Hm Hd. eapply does_mono; [exact Hd|]. intros a s' [Hm' HQ]. split; [by eapply moved_trans|done]. Qed.

Lemma chosen_first s p f io :
  running s -> next_ok (Z.b2z srv) max p f -> header_of io f -> between s.(e_ctx) p ->
  does (chosen io) s (fun _ s' => moved [] [] s s' /\ inside s'.(e_ctx) p f 0 0).
Proof using Hmax.
  intros Hrun Hn Hh (B1 & B2 & B3 & B4 & B5). pose proof Hh as (I1 & I2 & I3 & I4 & I5). pose proof Hrun as (_ & _ & Hrec).
  destruct (next_opcode _ _ _ Hn) as (_ & K2 & K3 & K4). pose proof Hn as (_ & Hrsv & _ & Hk & _). rewrite Hrsv in I2.
  unfold chosen, select_imsg. apply does_seq, does_eget. unfold cur_imsg at 1. rewrite B1, I3, K2, I2, I1.
  assert (forall c m, receiving c -> fctx_in c = fctx_in (e_ctx s) -> answered [] (e_ctx s) c ->
    moved [] [] s (mkE s.(e_env) (set_imsg c m))) as Hset.
  { intros c m H1 H2 H3. apply moved_ctx; [done|by apply set_imsg_receiving|by rewrite set_imsg_in|by apply set_imsg_answered]. }
  destruct p as [[op acc]|].
  - destruct B2 as (M1 & Hop & M2 & M3 & M4 & M5). rewrite M1. rewrite (proj2 (Z.eqb_neq op 255)) by (destruct Hop as [->| ->]; done).
    rewrite B4, B5. cbn [Z.eqb andb]. destruct (ctrl f) eqn:Ec.
    + rewrite (proj2 (Z.eqb_neq _ WSLAY_CONTINUATION_FRAME)) by (destruct (ctrl_cases f Ec) as [->| ->]; done).
      destruct (K4 eq_refl) as [K5 _]. apply does_seq, does_emod, does_ret_bind. cbn [cwhen].
      set (c1 := {| (e_ctx s) with imsg_second := true |}).
      pose proof (Hset c1 (wslay_event_imsg_set (cur_imsg c1) (f_fin f) 0 (f_opcode f)) Hrec eq_refl (answered_refl _)) as Hm.
      refine (does_after [] [] [] [] s _ _ (fun s' => inside (e_ctx s') _ f 0 0) Hm _). pose proof B3 as (N1 & N2 & N3).
      eapply start_frame_does; [by eapply moved_running|done|done|done|..]; unfold second, msg_of, before; rewrite ?Ec; try done.
      * cbn [fst]. rewrite text_state_nil. exact N2.
      * cbn. by rewrite N3.
    + rewrite Hk. cbn [Z.eqb]. apply does_seq, does_emod, does_ret_bind. cbn [cwhen].
      pose proof (Hset (e_ctx s) {| (cur_imsg (e_ctx s)) with m_fin := f_fin f |} Hrec eq_refl (answered_refl _)) as Hm.
      refine (does_after [] [] [] [] s _ _ (fun s' => inside (e_ctx s') _ f 0 0) Hm _). unfold set_imsg, cur_imsg. rewrite B1.
      eapply start_frame_does; [unfold set_imsg, cur_imsg in Hm; rewrite B1 in Hm; by eapply moved_running|done|done|done|..];
        unfold second, msg_of, before, cur_imsg; cbn [e_ctx imsg_second]; rewrite ?Ec, ?B1; try done.
  - destruct B2 as (M1 & M2 & M3). rewrite M1. cbn [Z.eqb].
    assert ((f_opcode f =? WSLAY_TEXT_FRAME) || (f_opcode f =? WSLAY_BINARY_FRAME) || ctrl f = true) as ->.
    { destruct (ctrl f); [apply orb_true_r|]. by destruct Hk as [->| ->]. }
    apply does_seq, does_emod, does_ret_bind. cbn [cwhen].
    pose proof (Hset (e_ctx s) (wslay_event_imsg_set (cur_imsg (e_ctx s)) (f_fin f) 0 (f_opcode f)) Hrec eq_refl (answered_refl _)) as Hm.
    refine (does_after [] [] [] [] s _ _ (fun s' => inside (e_ctx s') _ f 0 0) Hm _). unfold set_imsg, cur_imsg. rewrite B1.
    assert (msg_of None f = (f_opcode f, f_payload f)) as Emo by (unfold msg_of; by destruct (ctrl f)).
    assert (before None f = []) as Ebe by (unfold before; by destruct (ctrl f)).
    assert (second None f = false) as Ese by (unfold second; by rewrite andb_false_r).
    eapply start_frame_does; [unfold set_imsg, cur_imsg in Hm; rewrite B1 in Hm; by eapply moved_running|done|done|done|..];
      rewrite ?Emo, ?Ebe, ?Ese; unfold cur_imsg; cbn [e_ctx imsg_second]; rewrite ?B1; try done.
    + cbn [fst]. rewrite text_state_nil. exact M2.
    + cbn. by rewrite M3.
Qed.

Lemma chosen_next s p f io off :
  running s -> next_ok (Z.b2z srv) max p f -> inside s.(e_ctx) p f off off -> 0 < off ->
  does (chosen io) s (fun _ s' => moved [] [] s s' /\ inside s'.(e_ctx) p f off off).
Proof using Hmax.
  intros Hrun Hn Hin Hoff. pose proof Hin as (Hpo & N1 & N2 & N3 & (M1 & _) & _). unfold chosen, select_imsg. apply does_seq, does_eget.
  rewrite M1, N1, N2, (proj2 (Z.eqb_neq off 0)), andb_false_r by lia.
  assert ((msg_of p f).1 <> 255) as Hne by (by eapply msg_opcode).
  rewrite (proj2 (Z.eqb_neq _ _) Hne). apply does_ret_bind, does_ret. split; [by apply moved_refl|done].
Qed.

(** *** Validation *)

Lemma moved_set s m : running s -> moved [] [] s (mkE s.(e_env) (set_imsg s.(e_ctx) m)).
Proof.
  intros Hrun. pose proof Hrun as (_ & _ & Hrec).
  apply moved_ctx; [done|by apply set_imsg_receiving|by rewrite set_imsg_in|apply set_imsg_answered, answered_refl].
Qed.

Lemma inside_set c m p f v off v' off' : inside c p f v off -> off' = off -> filling m p f v' off' -> inside (set_imsg c m) p f v' off'.
Proof.
  intros (N1 & N2 & N3 & N4 & N5 & N6) -> Hm. unfold inside. rewrite cur_set. unfold set_imsg.
  destruct (imsg_second c) eqn:E; rewrite <- N4 in *; cbn [e_ipayloadlen e_ipayloadoff imsg_second imsgs0 imsgs1]; by rewrite ?E.
Qed.

Lemma set_cur c : set_imsg c (cur_imsg c) = c.
Proof. unfold set_imsg, cur_imsg. destruct c as [? ? ? ? ? ? ? ? ? ? ? ? [] ? ? ? ? ? ? ? ? ? ? ? ? ?]; done. Qed.
Lemma set_set c m m' : set_imsg (set_imsg c m) m' = set_imsg c m'.
Proof. unfold set_imsg. by destruct (imsg_second c) eqn:E; cbn [imsg_second]; rewrite ?E. Qed.

Lemma urun_app q l k : urun q (l ++ k) = urun (urun q l) k.
Proof. unfold urun. apply fold_left_app. Qed.

Lemma utf8_check_does l s q :
  bytes_ok l -> utf8state (cur_imsg s.(e_ctx)) = enc q -> urun q l <> UReject ->
  does (utf8_check cb l) s
    (fun _ s' => s' = mkE s.(e_env) (set_imsg s.(e_ctx) {| (cur_imsg s.(e_ctx)) with utf8state := enc (urun q l) |})).
Proof.
  revert s q. induction l as [|b l IH]; intros s q Hb Hq Hr.
  - apply does_ret. destruct s as [e c]. cbn [e_env e_ctx] in *. f_equal. cbn [urun fold_left].
    rewrite <- Hq. rewrite <- (set_cur c) at 1. f_equal. by destruct (cur_imsg c).
  - apply Forall_cons in Hb as [Hb Hl]. cbn [utf8_check]. apply does_eget. rewrite Hq.
    destruct (decode_ustep q 0 b Hb) as [c' E]. eapply does_lift; [exact E|]. cbn [fst]. apply does_emod.
    rewrite urun_cons in Hr |- *. destruct (enc (ustep q b) =? UTF8_REJECT) eqn:Er.
    { apply enc_reject in Er. rewrite Er, urun_reject in Hr. done. }
    eapply does_mono; [apply (IH _ (ustep q b)); [done|cbn [e_ctx]; by rewrite cur_set|done]|].
    intros _ s' ->. cbn [e_env e_ctx]. by rewrite cur_set, set_set.
Qed.

Lemma take_slice l i j : 0 <= i <= j -> take (Z.to_nat j) l = take (Z.to_nat i) l ++ slice l i j.
Proof.
  intros Hij. unfold slice. replace (Z.to_nat j) with (Z.to_nat i + Z.to_nat (j - i))%nat by lia. symmetry. apply take_take_drop.
Qed.

(** A prefix of a text that is not rejected is not rejected. *)
Lemma prefix_not_reject mask p f v : next_ok mask max p f -> (msg_of p f).1 = WSLAY_TEXT_FRAME ->
  urun UAccept (before p f ++ take v f.(f_payload)) <> UReject.
Proof.
  intros (_ & _ & _ & _ & _ & Ht) E. destruct (Ht E) as [Hr _]. rewrite msg_of_payload in Hr.
  rewrite <- (take_drop v (f_payload f)), app_assoc, urun_app in Hr. intros E'. by rewrite E', urun_reject in Hr.
Qed.

Lemma msg_opcode_cases mask p f : partial_ok p -> next_ok mask max p f ->
  (msg_of p f).1 = WSLAY_TEXT_FRAME \/ (msg_of p f).1 = WSLAY_BINARY_FRAME \/ (msg_of p f).1 = WSLAY_PING \/ (msg_of p f).1 = WSLAY_PONG.
Proof.
  intros Hp (_ & _ & _ & Hk & _). unfold msg_of. destruct (ctrl f) eqn:Ec; cbn [fst].
  - destruct (ctrl_cases f Ec); auto.
  - destruct p as [[op acc]|]; cbn [fst]; [destruct Hp; auto|destruct Hk; auto].
Qed.

Lemma validate_does s p f io off off' :
  running s -> next_ok (Z.b2z srv) max p f -> inside s.(e_ctx) p f off off -> 0 <= off <= off' ->
  io.(in_data) = slice f.(f_payload) off off' ->
  does (validate_chunk cb io) s (fun _ s' => moved [] [] s s' /\ inside s'.(e_ctx) p f off' off).
Proof.
  intros Hrun Hn Hin Ho Hd. pose proof Hin as (Hpo & _ & _ & _ & (M1 & M2 & M3 & M4 & M5 & M6) & _).
  unfold validate_chunk. apply does_eget. rewrite M1, M2, Hd.
  pose proof Hn as (((_ & _ & _ & _ & Hbytes & _) & _) & _).
  destruct (msg_opcode_cases _ _ _ Hpo Hn) as [E|E].
  - rewrite E in *. change (does (utf8_check cb (slice (f_payload f) off off') ≫= fun _ => c ← eget; cwhen (utf8state (cur_imsg c) =? UTF8_REJECT) ebreak)
      s (fun _ s' => moved [] [] s s' /\ inside s'.(e_ctx) p f off' off)).
    eapply does_bind.
    { eapply (utf8_check_does _ s (urun UAccept (before p f ++ take (Z.to_nat off) (f_payload f)))); [by apply slice_bytes|exact M4|].
      rewrite <- urun_app, <- app_assoc, <- take_slice by lia. by eapply prefix_not_reject. }
    intros _ s' ->. rewrite <- urun_app, <- app_assoc, <- take_slice by lia. apply does_eget. cbn [e_ctx]. rewrite cur_set. cbn [utf8state].
    destruct (_ =? UTF8_REJECT) eqn:Er; [apply enc_reject in Er; by apply (prefix_not_reject _ _ _ _ Hn E) in Er|].
    apply does_ret. split; [by apply moved_set|]. cbn [e_ctx]. eapply inside_set; [exact Hin|done|].
    unfold filling. rewrite E. by split_and!.
  - replace ((msg_of p f).1 =? WSLAY_TEXT_FRAME) with false by (by destruct E as [->|[->| ->]]).
    replace ((msg_of p f).1 =? WSLAY_CONNECTION_CLOSE) with false by (by destruct E as [->|[->| ->]]).
    assert (forall l, text_state (msg_of p f).1 l = UTF8_ACCEPT) as Et by (intros l; by destruct E as [->|[->| ->]]).
    rewrite andb_false_r. apply does_ret_bind, does_eget. rewrite M4, Et. apply does_ret. split; [by apply moved_refl|].
    rewrite <- (set_cur (e_ctx s)). eapply inside_set; [exact Hin|done|]. unfold filling. rewrite Et in M4 |- *. by split_and!.
Qed.

(** *** Storing *)

Lemma memcpy_take blk off l : 0 <= off -> off + zlen l <= zlen blk ->
  exists blk', memcpy blk off l = Some blk' /\ zlen blk' = zlen blk /\
    take (Z.to_nat (off + zlen l)) blk' = take (Z.to_nat off) blk ++ l.
Proof.
  intros Ho Hle. destruct (memcpy_fits blk off l Ho Hle) as [blk' E]. exists blk'. split; [done|].
  split; [by eapply memcpy_length|]. unfold memcpy in E. destruct (_ || _); [done|]. injection E as <-.
  rewrite app_assoc. apply take_app_length'. rewrite length_app, length_take. unfold zlen in *. lia.
Qed.

Lemma copy_filling m p f v off data :
  filling m p f v off -> 0 <= off -> data <> [] -> off + zlen data <= flen f ->
  take (Z.to_nat (off + zlen data)) f.(f_payload) = take (Z.to_nat off) f.(f_payload) ++ data ->
  exists m', imsg_chunk_copy m off data = Some m' /\ filling m' p f v (off + zlen data).
Proof.
  intros (M1 & M2 & M3 & M4 & M5 & ch & blk & Ec & Eb & El & Et) Ho Hd Hle Hpay.
  assert (0 < zlen data) by (destruct data; [done|rewrite zlen_cons; pose proof (zlen_nonneg data); lia]).
  assert ((flen f =? 0) = false) as E0 by (apply Z.eqb_neq; lia). rewrite E0 in Ec.
  unfold imsg_chunk_copy. rewrite Ec, reverse_snoc. destruct (memcpy_take blk off data Ho) as (blk' & E & El' & Et'); [lia|].
  rewrite E. cbn [mbind option_bind]. eexists. split; [done|]. unfold filling. cbn [m_opcode m_rsv m_fin utf8state msg_length chunks].
  split_and!; try done. exists ch, blk'. rewrite E0, reverse_cons, reverse_involutive.
  split_and!; [done|done|congruence|]. by rewrite Et', Et, Hpay.
Qed.

Lemma receiving_buffered c io : receiving c -> buffered c io = true.
Proof. intros (_ & R & _). unfold buffered. by rewrite R. Qed.

Lemma inside_advance c m p f v off v' off' :
  inside c p f v off -> filling m p f v' off' -> inside {| (set_imsg c m) with e_ipayloadoff := off' |} p f v' off'.
Proof.
  intros (N1 & N2 & N3 & N4 & N5 & N6) Hm. unfold inside.
  change (cur_imsg {| (set_imsg c m) with e_ipayloadoff := off' |}) with (cur_imsg (set_imsg c m)). rewrite cur_set. unfold set_imsg.
  destruct (imsg_second c) eqn:E; rewrite <- N4 in *; cbn [e_ipayloadlen e_ipayloadoff imsg_second imsgs0 imsgs1]; by rewrite ?E.
Qed.

Lemma store_does s p f io off off' :
  running s -> next_ok (Z.b2z srv) max p f -> inside s.(e_ctx) p f off' off -> 0 <= off <= off' -> off' <= flen f ->
  io.(in_data) = slice f.(f_payload) off off' ->
  does (store_chunk io) s (fun _ s' => moved [] [] s s' /\ inside s'.(e_ctx) p f off' off').
Proof using Hmax.
  intros Hrun Hn Hin Ho Hle Hd. pose proof Hin as (_ & _ & N3 & _ & Hfil & _). pose proof Hrun as (_ & _ & Hrec).
  pose proof Hn as (((_ & _ & _ & _ & _ & Hfl & _) & _) & _). fold (flen f) in Hfl.
  assert (zlen (in_data io) = off' - off) as Hz by (rewrite Hd; apply slice_length; unfold flen in *; lia).
  unfold store_chunk. rewrite Hz. destruct (Z.ltb_spec 0 (off' - off)) as [Hlt|Hge].
  - cbn [cwhen]. apply does_eget. rewrite receiving_buffered by done. cbn [cwhen]. apply does_seq.
    destruct (copy_filling _ p f off' off (in_data io) Hfil) as (m & Em & Hm); [lia|intros E; rewrite E, zlen_nil in Hz; lia|lia| |].
    { rewrite Hz, Hd. replace (off + (off' - off)) with off' by lia. by apply take_slice. }
    rewrite N3. eapply does_lift; [exact Em|]. apply does_emod, does_emod_end. cbn [e_env e_ctx].
    rewrite Hz in *. replace (off + (off' - off)) with off' in * by lia.
    assert (e_ipayloadoff (set_imsg (e_ctx s) m) = off) as E1 by (unfold set_imsg; by destruct (imsg_second _)).
    rewrite E1, uwrap_id by lia. replace (off + (off' - off)) with off' by lia. split.
    + destruct (moved_set s m Hrun). by split.
    + by eapply inside_advance.
  - apply does_ret. split; [by apply moved_refl|]. replace off' with off at 2 by lia. done.
Qed.

(** *** The end of a frame *)

Lemma filling_whole m p f : filling m p f (flen f) (flen f) ->
  m.(m_opcode) = (msg_of p f).1 /\ m.(m_rsv) = 0 /\ m.(m_fin) = f.(f_fin) /\ m.(utf8state) = text_state (msg_of p f).1 (msg_of p f).2 /\
  m.(msg_length) = zlen (msg_of p f).2 /\ concat m.(chunks) = (msg_of p f).2.
Proof.
  assert (forall l : list Z, zlen l = flen f -> take (Z.to_nat (flen f)) l = l) as Ht by (intros l E; apply take_ge; unfold zlen in E; lia).
  intros (M1 & M2 & M3 & M4 & M5 & ch & blk & Ec & Eb & El & Et). rewrite !Ht in * by done. rewrite msg_of_payload, zlen_app.
  split_and!; try done. rewrite Ec, concat_app, Eb. f_equal. destruct (Z.eqb_spec (flen f) 0) as [E|E].
  - rewrite E in El. destruct blk; [done|rewrite zlen_cons in El; pose proof (zlen_nonneg blk); lia].
  - rewrite <- Et. cbn. by rewrite app_nil_r.
Qed.

Definition same_msgs (c c' : ectx) : Prop :=
  c'.(imsgs0) = c.(imsgs0) /\ c'.(imsgs1) = c.(imsgs1) /\ c'.(imsg_second) = c.(imsg_second).

(** The message of [f] is complete; only its opcode is still needed. *)
Definition ready (c : ectx) (p : partial) (f : ws_frame) : Prop :=
  partial_ok p /\ c.(imsg_second) = second p f /\ (cur_imsg c).(m_opcode) = (msg_of p f).1 /\ (cur_imsg c).(m_fin) = f.(f_fin) /\
  (if second p f then holds c.(imsgs0) p else holds c.(imsgs1) None).

Lemma ready_same c c' p f : same_msgs c c' -> ready c p f -> ready c' p f.
Proof. intros (E0 & E1 & E2). unfold ready, cur_imsg. by rewrite E0, E1, E2. Qed.

Lemma inside_ready c p f v off m : inside c p f v off -> m.(m_opcode) = (msg_of p f).1 -> m.(m_fin) = f.(f_fin) -> ready (set_imsg c m) p f.
Proof.
  intros (N1 & N2 & N3 & N4 & _ & N6) Hm Hf. unfold ready. rewrite cur_set. unfold set_imsg.
  destruct (imsg_second c) eqn:E; rewrite <- N4 in *; cbn [imsg_second imsgs0 imsgs1]; by rewrite ?E.
Qed.

Definition pong_of (f : ws_frame) : list (list Z) := if f.(f_opcode) =? WSLAY_PING then [f.(f_payload)] else [].

Lemma handle_ping_does s msg : running s -> zlen msg <= 125 ->
  does (handle_ping cb msg) s (fun _ s' => moved [] [msg] s s' /\ same_msgs s.(e_ctx) s'.(e_ctx)).
Proof.
  intros Hrun Hl. pose proof Hrun as (H1 & H2 & H3). unfold handle_ping, wslay_event_queue_msg, wslay_event_queue_msg_ex. apply does_seq, does_eget.
  destruct (wslay_event_is_msg_queueable (e_ctx s)) eqn:Eq; cbn [negb].
  - rewrite rsv_none_ok. replace (wslay_is_ctrl_frame WSLAY_PONG) with true by done. replace (wslay_get_rsv1 WSLAY_RSV_NONE) with false by done.
    rewrite (proj2 (Z.ltb_ge 125 (zlen msg)) Hl). cbn [andb orb negb]. apply does_seq, does_alloc; [done|]. intros u Hm. cbn [negb].
    apply does_seq, does_emod, does_ret_bind, does_ret. split; [|done]. cbn [e_env e_ctx] in *. destruct Hm as [V1 V2 V3 V4 V5 V6 V7 V8].
    split; try done. unfold answered. cbn [e_env e_ctx]. by rewrite Eq.
  - apply does_ret_bind, does_ret. split; [|done]. split; try done; [by rewrite app_nil_r|]. unfold answered. by rewrite Eq, app_nil_r.
Qed.

Lemma flatten_does s p f : running s -> inside s.(e_ctx) p f (flen f) (flen f) ->
  does (ok ← (if (cur_imsg s.(e_ctx)).(msg_length) =? 0 then mret true else ealloc cb (cur_imsg s.(e_ctx)).(msg_length));
        if negb ok then _ ← emod wslay_event_shutdown_read; creturn WSLAY_ERR_NOMEM
        else c ← eget;
             fm ← clift (wslay_event_flatten_queue (cur_imsg c) (cur_imsg c).(msg_length));
             _ ← emod (fun c => set_imsg c fm.2);
             mret fm.1) s
    (fun msg s' => msg = (msg_of p f).2 /\ moved [] [] s s' /\ ready s'.(e_ctx) p f).
Proof.
  intros Hrun Hin. pose proof Hin as (_ & _ & _ & _ & Hfil & _).
  destruct (filling_whole _ _ _ Hfil) as (M1 & M2 & M3 & M4 & M5 & M6).
  eapply (does_bind _ _ _ _ (fun ok s1 => ok = true /\ moved [] [] s s1 /\ e_ctx s1 = e_ctx s)).
  { destruct (_ =? 0); [by apply does_ret; split_and!; [|apply moved_refl|]|].
    eapply does_mono; [by apply alloc_does|]. by intros ok s' (-> & Hm & u & ->). }
  intros ok s1 (-> & Hmv & E1). cbn [negb]. apply does_eget. rewrite E1, M5.
  assert (exists m, wslay_event_flatten_queue (cur_imsg (e_ctx s)) (zlen (msg_of p f).2) = Some ((msg_of p f).2, m) /\
    m.(m_opcode) = (msg_of p f).1 /\ m.(m_fin) = f.(f_fin)) as (m & Em & Hm & Hf).
  { unfold wslay_event_flatten_queue. rewrite M6, Z.eqb_refl. destruct (Z.eqb_spec (zlen (msg_of p f).2) 0) as [E|E]; [|eauto].
    destruct (msg_of p f).2 as [|b l]; [eauto|]. rewrite zlen_cons in E. pose proof (zlen_nonneg l). lia. }
  eapply does_lift; [exact Em|]. cbn [fst snd]. apply does_emod, does_ret. split_and!; [done| |].
  - apply (moved_trans _ _ [] [] _ _ _ Hmv), moved_set. by eapply moved_running.
  - cbn [e_ctx]. rewrite E1. by eapply inside_ready.
Qed.

Lemma deliver_does s p f msg : running s -> ready s.(e_ctx) p f -> (cur_imsg s.(e_ctx)).(m_opcode) = (msg_of p f).1 -> msg = (msg_of p f).2 ->
  does (cwhen (bool_decide (is_Some (on_msg_recv cb)))
    (c ← eget;
     let arg := mkMsgArg (cur_imsg c).(m_rsv) (cur_imsg c).(m_opcode) msg 0 in
     _ ← cmod (fun s => mkE (s.(e_env).1, 0) s.(e_ctx));
     call_back cb (on_msg_recv cb) arg)) s (fun _ s' => moved [msg_of p f] [] s s' /\ ready s'.(e_ctx) p f).
Proof.
  intros (Hu & He & Hc) Hr Hop ->. destruct ep_msg as (g & -> & Hg). cbn [cwhen bool_decide decide_rel]. apply does_eget.
  set (a := mkMsgArg _ _ _ _). destruct (Hg (e_env s).1 a Hu) as (u & Eg & G1 & G2 & G3 & G4).
  unfold does, cwp, call_back, cget, cmod, mbind, CM_bind. cbn [e_env e_ctx fst snd]. rewrite Eg. cbn.
  split; [|done]. split; try done; cbn; [by left| |apply answered_refl]. rewrite G4. unfold a. cbn. rewrite Hop. by destruct (msg_of p f).
Qed.

Lemma finish_does s p f io : running s -> next_ok (Z.b2z srv) max p f -> inside s.(e_ctx) p f (flen f) (flen f) ->
  does (finish_msg cb io) s (fun _ s' => moved [msg_of p f] (pong_of f) s s' /\ ready s'.(e_ctx) p f).
Proof.
  intros Hrun Hn Hin. pose proof Hrun as (_ & _ & Hrec). pose proof Hin as (Hpo & _ & _ & _ & (M1 & _) & _).
  unfold finish_msg. apply does_eget. rewrite receiving_buffered by done. eapply does_bind; [by apply flatten_does|].
  intros msg s1 (-> & Hm1 & Hr1). rewrite M1.
  eapply (does_bind _ _ _ _ (fun code s2 => code = 0 /\ moved [] (pong_of f) s s2 /\ ready s2.(e_ctx) p f)).
  { replace ((msg_of p f).1 =? WSLAY_CONNECTION_CLOSE) with false
      by (by destruct (msg_opcode_cases _ _ _ Hpo Hn) as [->|[->|[->| ->]]]).
    assert (((msg_of p f).1 =? WSLAY_PING) = (f_opcode f =? WSLAY_PING) /\
      ((f_opcode f =? WSLAY_PING) = true -> (msg_of p f).2 = f_payload f /\ flen f <= 125)) as [-> Hpl].
    { destruct (next_opcode _ _ _ Hn) as (_ & _ & _ & K4). unfold msg_of. destruct (ctrl f) eqn:Ec; [split; [done|]; intros _; split; [done|]; by destruct (K4 eq_refl)|].
      assert ((f_opcode f =? WSLAY_PING) = false) as Ep by (unfold ctrl in Ec; by apply orb_false_iff in Ec as [? _]).
      rewrite Ep. split; [|done]. destruct p as [[op acc]|]; cbn [fst]; [by destruct Hpo as [->| ->]|done]. }
    unfold pong_of. destruct (f_opcode f =? WSLAY_PING).
    - destruct (Hpl eq_refl) as [-> Hl]. eapply does_bind; [apply handle_ping_does; [by eapply moved_running|done]|].
      intros _ s2 [Hm2 Hs2]. apply does_ret. split_and!; [done|by apply (moved_trans _ _ _ _ _ _ _ Hm1 Hm2)|by eapply ready_same].
    - by apply does_ret. }
  intros code s2 (-> & Hm2 & Hr2). pose proof Hr2 as (_ & _ & Hop & _). rewrite <- (app_nil_r (pong_of f)).
  apply (does_after [] (pong_of f) [msg_of p f] [] _ _ _ _ Hm2), deliver_does; try done. by eapply moved_running.
Qed.

(** The slot that is given back. *)
Lemma reset_between c p f : ready c p f -> f.(f_fin) = 1 -> next_ok (Z.b2z srv) max p f ->
  between {| (set_imsg c (wslay_event_imsg_reset (cur_imsg c))) with imsg_second := false; e_ipayloadlen := 0; e_ipayloadoff := 0 |} (after p f).
Proof.
  intros (Hpo & R1 & _ & _ & R4) Hf Hn. unfold between, set_imsg. cbn [imsg_second e_ipayloadlen e_ipayloadoff].
  assert (after p f = if second p f then p else None) as ->.
  { unfold after, second. rewrite Hf. destruct (ctrl f); [|done]. by destruct p as [[]|]. }
  rewrite R1. destruct (second p f); cbn [imsgs0 imsgs1]; by split_and!.
Qed.

Lemma fragment_between c p f : partial_ok p -> next_ok (Z.b2z srv) max p f -> inside c p f (flen f) (flen f) -> f.(f_fin) = 0 ->
  between {| c with e_ipayloadlen := 0; e_ipayloadoff := 0 |} (after p f).
Proof.
  intros Hpo Hn (_ & N1 & N2 & N3 & Hfil & N6) Hf. destruct (filling_whole _ _ _ Hfil) as (M1 & M2 & M3 & M4 & M5 & M6).
  destruct (next_opcode _ _ _ Hn) as (_ & _ & _ & K4).
  assert (ctrl f = false) as Ec by (destruct (ctrl f); [destruct (K4 eq_refl); congruence|done]).
  assert (second p f = false) as Es by (unfold second; by rewrite Ec). rewrite Es in N6, N3.
  unfold between, cur_imsg in *. rewrite N3 in *. cbn [imsg_second e_ipayloadlen e_ipayloadoff imsgs0 imsgs1].
  unfold after. rewrite Ec, Hf. cbn [Z.eqb]. split; [done|]. split; [|done]. destruct (msg_of p f) as [op acc] eqn:Em. cbn [fst snd holds] in *.
  split_and!; try done. pose proof Hn as (_ & _ & _ & Hk & _). unfold msg_of in Em. rewrite Ec in *. destruct p as [[op' acc']|]; injection Em as <- <-; done.
Qed.

Lemma end_frame_does s p f io : running s -> next_ok (Z.b2z srv) max p f -> inside s.(e_ctx) p f (flen f) (flen f) ->
  does (end_frame cb io) s (fun _ s' => moved (delivered p f) (pong_of f) s s' /\ between s'.(e_ctx) (after p f)).
Proof.
  intros Hrun Hn Hin. pose proof Hin as (Hpo & _ & _ & _ & Hfil & _). destruct (filling_whole _ _ _ Hfil) as (M1 & M2 & M3 & M4 & M5 & M6).
  pose proof Hn as (((Hfin & _) & _) & _ & _ & _ & _ & Ht). destruct (next_opcode _ _ _ Hn) as (_ & _ & _ & K4).
  unfold end_frame. apply does_eget. rewrite M1, M3, M4. apply does_skip.
  { destruct Hfin as [-> | Ef]; [done|]. rewrite Ef. destruct (msg_opcode_cases _ _ _ Hpo Hn) as [E|[E|[E|E]]]; rewrite E in *; try done.
    destruct (Ht eq_refl) as [_ Ha]. unfold text_state. cbn [Z.eqb]. by rewrite (Ha Ef). }
  destruct ep_frames as (_ & _ & ->). cbn [option_map call_back]. apply does_ret_bind, does_eget. rewrite M3, M1. destruct Hfin as [Ef|Ef].
  - rewrite Ef. cbn [Z.eqb negb cwhen]. apply does_ret_bind, does_emod_end. cbn [e_env e_ctx].
    assert (delivered p f = []) as -> by (unfold delivered; by rewrite Ef).
    assert (pong_of f = []) as ->.
    { unfold pong_of. destruct (f_opcode f =? WSLAY_PING) eqn:E; [|done]. destruct K4 as [K4 _]; [|congruence]. unfold ctrl. by rewrite E. }
    split; [|by apply fragment_between]. destruct Hrun as (Hu & He & Hrec). apply moved_ctx; try done. apply (answered_refl (e_ctx s)).
  - rewrite Ef. cbn [Z.eqb negb cwhen]. apply does_seq. destruct ep_msg as (g & Eg & _).
    rewrite bool_decide_eq_true_2 by (rewrite Eg; by eexists). cbn [orb cwhen].
    assert (delivered p f = [msg_of p f]) as -> by (unfold delivered; by rewrite Ef).
    eapply does_bind; [by eapply finish_does|]. intros _ s1 [Hm1 Hr1]. apply does_emod, does_emod_end. cbn [e_env e_ctx].
    pose proof (reset_between _ _ _ Hr1 Ef Hn) as Hb. split; [|exact Hb].
    destruct (moved_trans _ _ [] [] _ _ _ Hm1 (moved_set s1 (wslay_event_imsg_reset (cur_imsg (e_ctx s1))) (moved_running _ _ _ _ Hm1))) as [].
    rewrite !app_nil_r in *. by split.
Qed.

(** *** One chunk *)

Lemma chunk_does s p f io off off' :
  running s -> next_ok (Z.b2z srv) max p f -> header_of io f -> io.(in_data) = slice f.(f_payload) off off' ->
  0 <= off <= off' -> off' <= flen f -> (if off =? 0 then between s.(e_ctx) p else inside s.(e_ctx) p f off off) ->
  does (handle_iocb cb io) s (fun _ s' =>
    if off' =? flen f then moved (delivered p f) (pong_of f) s s' /\ between s'.(e_ctx) (after p f)
    else moved [] [] s s' /\ inside s'.(e_ctx) p f off' off').
Proof.
  intros Hrun Hn Hh Hd Ho Hle Hpos. pose proof Hrun as (_ & _ & (R1 & R2 & R3 & R4 & R5)). pose proof Hh as (I1 & I2 & I3 & I4 & I5).
  pose proof Hn as (_ & Hrsv & Hmask & _). unfold handle_iocb. apply does_eget, does_skip.
  { unfold iocb_illegal. pose proof (rsv_none_ok (e_ctx s)) as Ev. unfold WSLAY_RSV_NONE in Ev.
    rewrite I2, Hrsv, I5, Hmask, R5, Ev. by destruct srv. }
  assert (does (chosen io) s (fun _ s' => moved [] [] s s' /\ inside s'.(e_ctx) p f off off)) as Hch.
  { destruct (Z.eqb_spec off 0) as [->|Hne]; [by apply chosen_first|apply chosen_next; [done|done|done|lia]]. }
  apply does_assoc. eapply does_bind; [exact Hch|]. intros _ s1 [Hm1 Hi1].
  eapply does_bind; [by eapply validate_does; [eapply moved_running|..]|]. intros _ s2 [Hm2 Hi2].
  destruct ep_frames as (_ & -> & _). cbn [call_back]. apply does_ret_bind.
  eapply does_bind; [by eapply store_does; [eapply moved_running|..]|]. intros _ s3 [Hm3 Hi3].
  pose proof (moved_trans _ _ _ _ _ _ _ Hm1 (moved_trans _ _ _ _ _ _ _ Hm2 Hm3)) as Hm. cbn [app] in Hm.
  apply does_eget. pose proof Hi3 as (_ & N1 & N2 & _). rewrite N1, N2. destruct (Z.eqb_spec off' (flen f)) as [->|Hne]; cbn [cwhen].
  - apply (does_after [] [] _ _ _ _ _ _ Hm), end_frame_does; try done. by eapply moved_running.
  - by apply does_ret.
Qed.

(** *** The loop *)

Definition src_pend (e : U * Z) : list Z := ep_pending e.1.
Definition src_budg (e : U * Z) : nat := ep_budget e.1.

Lemma cb_delivers e n e' l : recv_callback (frame_cb cb) e n = (e', l) -> 0 < n -> src_pend e = l ++ src_pend e' /\ zlen l <= n.
Proof. cbn. destruct (ev_recv cb e.1 n) as [[u k] x] eqn:E. intros [= <- <-] Hn. by apply (ep_stream _ _ _ _ _ E). Qed.
Lemma cb_fair e n e' l : recv_callback (frame_cb cb) e n = (e', l) -> 0 < n -> src_pend e <> [] -> (src_budg e' < src_budg e)%nat.
Proof. cbn. destruct (ev_recv cb e.1 n) as [[u k] x] eqn:E. intros [= <- <-] Hn. by apply (ep_fair _ _ _ _ _ E). Qed.

(** What the frame layer keeps of the application's side. *)
Definition untouched (seen : list (Z * list Z)) (e : U * Z) : Prop := ep_ok e.1 /\ error_ok e.2 /\ ep_seen e.1 = seen.

Lemma cb_untouched seen e n e' l : recv_callback (frame_cb cb) e n = (e', l) -> untouched seen e -> untouched seen e'.
Proof.
  cbn. destruct (ev_recv cb e.1 n) as [[u k] x] eqn:E. intros [= <- <-] (H1 & H2 & H3).
  destruct (ep_recv _ _ _ _ _ E) as (G1 & G2 & G3). unfold untouched, set_error. cbn. split_and!; [auto| |congruence].
  destruct G2 as [-> | ->]; cbn; [done|by right].
Qed.

(** Where the receiver is in the stream: [off] bytes of the first frame of [fs] were handed out. *)
Definition position s (p : partial) (fs : list ws_frame) (off : Z) : Prop :=
  let st := (s.(e_env), s.(e_ctx).(fctx_in)) in
  in_ok st.2 /\
  match fs with
  | [] => off = 0 /\ at_frame_start st.2 /\ todo src_pend st = [] /\ between s.(e_ctx) p
  | f :: fs => 0 <= off /\ (off = 0 \/ off < flen f) /\ rpos f (wire_of fs) off st.2 (todo src_pend st) /\
      (if off =? 0 then between s.(e_ctx) p else inside s.(e_ctx) p f off off)
  end.

Fixpoint remaining (fs : list ws_frame) : nat := match fs with [] => 0 | f :: fs => (S (length f.(f_payload)) + remaining fs)%nat end.

(** [s'] is [s] after [ms] were delivered and [ps] answered. *)
Record advanced (ms : list (Z * list Z)) (ps : list (list Z)) s s' : Prop := mkAdv {
  ad_run : running s'; ad_seen : ep_seen s'.(e_env).1 = ep_seen s.(e_env).1 ++ List.filter ep_wants ms; ad_answered : answered ps s.(e_ctx) s'.(e_ctx) }.

Lemma moved_advanced ms ps s s' : moved ms ps s s' -> advanced ms ps s s'.
Proof. intros []. by split. Qed.
Lemma advanced_trans ms ps ms' ps' s1 s2 s3 : advanced ms ps s1 s2 -> advanced ms' ps' s2 s3 -> advanced (ms ++ ms') (ps ++ ps') s1 s3.
Proof. intros [] []. split; [done|by rewrite List.filter_app, app_assoc; congruence|by eapply answered_trans]. Qed.

(** One call of the frame layer. *)
Lemma call_does s (Q : U * Z * frame_in -> Z + iocb_in -> Prop) :
  running s -> cwp (wslay_frame_recv (frame_cb cb)) (s.(e_env), s.(e_ctx).(fctx_in)) Q ->
  does (call_frame_recv cb) s (fun r s' =>
    Q (s'.(e_env), s'.(e_ctx).(fctx_in)) r /\ advanced [] [] s s' /\ (forall p, between s.(e_ctx) p -> between s'.(e_ctx) p) /\
    (forall p f v off, inside s.(e_ctx) p f v off -> inside s'.(e_ctx) p f v off)).
Proof.
  intros (Hu & He & Hc) HQ. destruct (cwp_Some _ _ _ HQ) as ([e fi] & r & E & Hq).
  pose proof (frame_recv_env (frame_cb cb) (untouched (ep_seen (e_env s).1)) (cb_untouched _) (e_env s, fctx_in (e_ctx s))
    (conj Hu (conj He eq_refl)) _ _ E) as (H1 & H2 & H3). cbn [fst snd] in *.
  unfold call_frame_recv, does, cwp, cget, clift, cmod, mbind, CM_bind. rewrite E. cbn [e_env e_ctx].
  assert (shut cb e {| (e_ctx s) with fctx_in := fi |} = {| (e_ctx s) with fctx_in := fi |}) as -> by (unfold shut; by rewrite ep_open).
  cbn [e_env e_ctx fctx_in fst snd]. split; [done|]. split; [|done]. split; [done|cbn; by rewrite app_nil_r|apply (answered_refl (e_ctx s))].
Qed.

(** The message under way after the frames. *)
Definition final (p : partial) (fs : list ws_frame) : partial := fold_left after fs p.

(** From [s] at [p], [fs] to [s'] at [p'], [fs']: what was delivered and answered is what the frames in between stand for. *)
Record went s (p : partial) (fs : list ws_frame) s' (p' : partial) (fs' : list ws_frame) (off' : Z) : Prop := mkWent {
  wn_moved : exists ms ps, advanced ms ps s s' /\ messages p fs = ms ++ messages p' fs' /\ pongs fs = ps ++ pongs fs';
  wn_position : position s' p' fs' off';
  wn_frames : frames_ok (Z.b2z srv) max p' fs';
  wn_final : final p fs = final p' fs';
  wn_left : (remaining fs' <= remaining fs)%nat }.

Lemma went_stay s p fs s' off : frames_ok (Z.b2z srv) max p fs -> advanced [] [] s s' -> position s' p fs off -> went s p fs s' p fs off.
Proof. intros Hf Ha Hp. split; try done. by exists [], []. Qed.
Lemma went_trans s p fs s1 p1 fs1 off1 s2 p2 fs2 off2 : went s p fs s1 p1 fs1 off1 -> went s1 p1 fs1 s2 p2 fs2 off2 -> went s p fs s2 p2 fs2 off2.
Proof.
  intros [(ms & ps & A1 & A2 & A3) _ _ A4 A5] [(ms' & ps' & B1 & B2 & B3) B5 B6 B4 B7]. split; [|done|done|congruence|lia].
  exists (ms ++ ms'), (ps ++ ps'). rewrite <- !app_assoc, <- B2, <- B3. split; [by eapply advanced_trans|done].
Qed.
Lemma went_running s p fs s' p' fs' off' : went s p fs s' p' fs' off' -> running s'.
Proof. intros [(ms & ps & [] & _) _ _ _ _]. done. Qed.

Lemma want_read_break s : running s -> handle_recv_error cb WSLAY_ERR_WANT_READ s = Some (s, inl 0).
Proof. intros (_ & [E|E] & _); unfold handle_recv_error, cget, mbind, CM_bind; rewrite E; done. Qed.

Lemma rpos_start f fs c l : at_frame_start c -> l = wire_of (f :: fs) -> rpos f (wire_of fs) 0 c l.
Proof. intros [E1 E2] ->. unfold rpos. rewrite E1. split_and!; try done. Qed.

Lemma moved_todo ms ps s s' : moved ms ps s s' ->
  todo src_pend (s'.(e_env), s'.(e_ctx).(fctx_in)) = todo src_pend (s.(e_env), s.(e_ctx).(fctx_in)).
Proof. intros []. unfold todo, src_pend. cbn [fst snd]. congruence. Qed.

Definition iter_post s p fs off (s' : est (U:=U)) (r : Z + unit) : Prop :=
  match r with
  | inl e => e = 0 /\ went s p fs s' p fs off /\ (fs = [] \/ (ep_budget s'.(e_env).1 < ep_budget s.(e_env).1)%nat)
  | inr _ => exists p' fs' off', went s p fs s' p' fs' off' /\ (ep_budget s'.(e_env).1 <= ep_budget s.(e_env).1)%nat /\
      (remaining fs' - Z.to_nat off' < remaining fs - Z.to_nat off)%nat
  end.

Lemma iter_spec s p fs off :
  running s -> frames_ok (Z.b2z srv) max p fs -> position s p fs off -> cwp (recv_iter cb) s (iter_post s p fs off).
Proof.
  intros Hrun Hfs (Hok & Hpos). unfold recv_iter. apply cwp_bind. destruct fs as [|f fs].
  - destruct Hpos as (-> & Hst & Ht & Hb).
    eapply cwp_mono; [apply (call_does s _ Hrun (frame_recv_drained _ src_pend cb_delivers _ (conj Hok (conj Hst Ht))))|].
    intros s1 [e|r] H1; [done|]. destruct H1 as ((-> & D1 & D2 & D3) & Ha & Hbt & _).
    unfold cwp. rewrite want_read_break by apply Ha. split; [done|]. split; [|by left]. apply went_stay; [done|done|]. split_and!; auto.
  - destruct Hpos as (Ho & Hlt & Hr & Hb). destruct Hfs as [Hn Hfs]. pose proof Hn as (Hrok & _).
    pose proof (frame_recv_step (frame_cb cb) src_pend src_budg cb_delivers cb_fair f (wire_of fs) off _ _ Hrok Hok Hr) as Hstep.
    eapply cwp_mono; [apply (call_does s _ Hrun Hstep)|].
    intros s1 [e|r] H1; [done|]. destruct H1 as ((Hok1 & H1) & Ha & Hbt & Hin). cbn [fst snd] in *. destruct r as [e|io].
    + destruct H1 as (-> & Hbud & Hr1). unfold cwp. rewrite want_read_break by apply Ha. split; [done|]. split; [|by right].
      apply went_stay; [done|done|]. split_and!; try done. cbn [fst snd]. destruct (off =? 0); auto.
    + destruct H1 as (Hbud & F1 & F2 & F3 & F4 & F5 & off' & Ho' & Hd & Hend).
      eapply cwp_mono; [apply (chunk_does s1 p f io off off'); try done; [apply Ha|lia|lia|destruct (off =? 0); auto]|].
      intros s2 [e|[]] H2; [done|]. cbn beta iota in H2. unfold iter_post. destruct (Z.eqb_spec off' (flen f)) as [Ef|Ef]; destruct H2 as [Hm Hb2].
      * destruct Hend as [(_ & Hst & Ht)|(Hx & _)]; [|lia].
        assert (position s2 (after p f) fs 0) as Hp2.
        { pose proof (moved_todo _ _ _ _ Hm) as Et. pose proof (mv_in _ _ _ _ Hm) as Ei. split; cbn [snd]; [by rewrite Ei|].
          rewrite Et, Ht, Ei. destruct fs as [|g fs]; [done|]. split_and!; [done|by left|by apply rpos_start|done]. }
        exists (after p f), fs, 0. split_and!.
        -- split; try done; [|cbn [remaining]; lia]. exists (delivered p f), (pong_of f). split; [|done].
           apply (advanced_trans [] [] _ _ _ _ _ Ha), moved_advanced, Hm.
        -- rewrite (mv_budget _ _ _ _ Hm). exact Hbud.
        -- cbn [remaining]. unfold flen, zlen in *. destruct Hlt; lia.
      * destruct Hend as [(Hx & _)|(Hx & _ & Hr1)]; [done|]. exists p, (f :: fs), off'. split_and!.
        -- apply went_stay; [done|apply (advanced_trans [] [] [] [] _ _ _ Ha), moved_advanced, Hm|].
           pose proof (moved_todo _ _ _ _ Hm) as Et. pose proof (mv_in _ _ _ _ Hm) as Ei. split; cbn [snd]; [by rewrite Ei|].
           rewrite Et, Ei, (proj2 (Z.eqb_neq off' 0)) by lia. split_and!; [lia|right; lia|done|done].
        -- rewrite (mv_budget _ _ _ _ Hm). exact Hbud.
        -- cbn [remaining]. unfold flen, zlen in *. lia.
Qed.

(** One call, which ends when the transport has nothing more at the moment. *)
Lemma recv_call fuel s p fs off :
  running s -> frames_ok (Z.b2z srv) max p fs -> position s p fs off -> (remaining fs - Z.to_nat off < fuel)%nat ->
  cwp (wslay_event_recv cb fuel) s (fun s' r => r = inl 0 /\ exists p' fs' off', went s p fs s' p' fs' off' /\
    (fs' = [] \/ (ep_budget s'.(e_env).1 < ep_budget s.(e_env).1)%nat)).
Proof.
  revert s p fs off. induction fuel as [|fuel IH]; intros s p fs off Hrun Hfs Hpos Hfuel; [lia|].
  cbn [wslay_event_recv]. apply cwp_bind, cwp_bind, cwp_get, cwp_ret. pose proof Hrun as (_ & _ & (-> & _)).
  apply cwp_bind. eapply cwp_mono; [by eapply iter_spec|]. intros s1 [e|[]] H1.
  - destruct H1 as (-> & Hw & Hor). split; [done|]. by exists p, fs, off.
  - destruct H1 as (p1 & fs1 & off1 & Hw & Hb & Hl). pose proof Hw as [_ Hp1 Hf1 _ _].
    eapply cwp_mono; [eapply (IH s1 p1 fs1 off1); [by eapply went_running|done|done|lia]|].
    intros s2 r (-> & p2 & fs2 & off2 & Hw2 & Hor). split; [done|]. exists p2, fs2, off2. split; [by eapply went_trans|].
    destruct Hor; [by left|right; lia].
Qed.

(** Calls of [wslay_event_recv] one after the other, as long as they return 0. *)
Fixpoint recv_calls (n fuel : nat) s : option est :=
  match n with
  | O => Some s
  | S n => match wslay_event_recv cb fuel s with
           | Some (s', inl r) | Some (s', inr r) => if r =? 0 then recv_calls n fuel s' else None
           | None => None
           end
  end.

Lemma recv_all s p fs off fuel b :
  running s -> frames_ok (Z.b2z srv) max p fs -> position s p fs off -> (remaining fs < fuel)%nat -> (ep_budget s.(e_env).1 <= b)%nat ->
  exists n s', (n <= S b)%nat /\ recv_calls n fuel s = Some s' /\ went s p fs s' (final p fs) [] 0.
Proof.
  revert s p fs off. induction b as [|b IH]; intros s p fs off Hrun Hfs Hpos Hfuel Hb;
    destruct (cwp_Some _ _ _ (recv_call fuel s p fs off Hrun Hfs Hpos ltac:(lia))) as (s1 & r & E & -> & p1 & fs1 & off1 & Hw & Hor);
    pose proof Hw as [_ Hp1 Hf1 Hfin Hl].
  all: assert (fs1 = [] -> exists n s', (n <= 1)%nat /\ recv_calls n fuel s = Some s' /\ went s p fs s' (final p fs) [] 0) as Hend.
  1, 3: intros ->; exists 1%nat, s1; cbn [recv_calls]; rewrite E; destruct Hp1 as (_ & -> & _); rewrite Hfin; split_and!; done.
  - destruct Hor as [->|]; [|lia]. destruct (Hend eq_refl) as (n & s' & ? & ?). exists n, s'. split; [lia|done].
  - destruct Hor as [->|Hlt]; [destruct (Hend eq_refl) as (n & s' & ? & ?); exists n, s'; split; [lia|done]|].
    destruct (IH s1 p1 fs1 off1) as (n & s' & Hn & E' & Hw'); [by eapply went_running|done|done|lia|lia|].
    exists (S n), s'. cbn [recv_calls]. rewrite E. split_and!; [lia|exact E'|]. rewrite Hfin. by eapply went_trans.
Qed.

(** *** A conversation *)

(** A fresh context. *)
Definition fresh : ectx := wslay_event_config_set_max_recv_msg_length (wslay_event_context_init srv) max.

Lemma fresh_position u fs : ep_pending u = wire_of fs -> position (mkE (u, 0) fresh) None fs 0.
Proof.
  intros Hp. assert (todo src_pend (e_env (mkE (u, 0) fresh), fctx_in fresh) = wire_of fs) as Ht by exact Hp.
  split; [by vm_compute|]. cbn [e_env e_ctx snd] in *. rewrite Ht.
  destruct fs as [|f fs]; [done|]. split_and!; [done|by left|by apply rpos_start|done].
Qed.

(** C16. The messages of a conversation.  Let a peer send the frames [fs]: messages in one or more frames with Ping and Pong
    frames in between, masked as the receiver's role demands, within its size limit and with valid UTF-8 in text messages.
    Whatever the way the transport cuts the stream and however often it would block, calling [wslay_event_recv] repeatedly
    from a fresh context (at most once more than the transport delivers or blocks) succeeds each time and hands exactly
    the peer's messages, complete, unmasked and in order, to the application (which keeps those it wants).  Every Ping is answered by one queued Pong
    with its payload, in order, nothing else is queued, and the receiver is ready for the next frame. *)
Theorem messages_received u fs fuel :
  ep_ok u -> ep_pending u = wire_of fs -> frames_ok (Z.b2z srv) max None fs -> (remaining fs < fuel)%nat ->
  exists n s', (n <= S (ep_budget u))%nat /\ recv_calls n fuel (mkE (u, 0) fresh) = Some s' /\
    ep_seen s'.(e_env).1 = ep_seen u ++ List.filter ep_wants (messages None fs) /\
    s'.(e_ctx).(send_ctrl_queue) = omsg_non_fragmented WSLAY_PONG WSLAY_RSV_NONE <$> pongs fs /\ s'.(e_ctx).(send_queue) = [] /\
    s'.(e_ctx).(read_enabled) = true /\ s'.(e_ctx).(close_status) = 0 /\ position s' (final None fs) [] 0.
Proof using Hmax.
  intros Hu Hp Hfs Hfuel.
  destruct (recv_all (mkE (u, 0) fresh) None fs 0 fuel (ep_budget u)) as (n & s' & Hn & E & Hw);
    [split_and!; [done|by left|done]|done|by apply fresh_position|done|done|].
  destruct Hw as [(ms & ps & Ha & Em & Eps) Hpos _ _ _]. destruct Ha as [(_ & _ & Hrec) Hs (A1 & A2 & A3 & A4 & A5 & _ & _ & A6)].
  cbn [messages pongs] in *. rewrite app_nil_r in Em, Eps. subst ms ps. exists n, s'. by split_and!; try done; apply Hrec.
Qed.
End Recv.

(** ** A concrete peer *)

(** The stream, the sizes of the next deliveries ([0] would block), and the messages taken. *)
Record tape := mkTape { t_wire : list Z; t_plan : list Z; t_seen : list (Z * list Z) }.

Definition tape_recv (u : tape) (n : Z) : tape * list Z * option Z :=
  let k := match u.(t_plan) with [] => n | k :: _ => Z.min k n end in
  let l := take (Z.to_nat k) u.(t_wire) in
  ({| u with t_wire := drop (Z.to_nat k) u.(t_wire); t_plan := tail u.(t_plan) |}, l,
   match l with [] => Some WSLAY_ERR_WOULDBLOCK | _ => None end).

Definition tape_cb : event_callbacks tape :=
  mkEv _ tape_recv (fun u d => (u, zlen d, None)) (fun u => (false, false)) (fun u => (u, None)) (fun u n => (u, true))
    (fun u src n => (u, src, 0, [], true)) None None None
    (Some (fun u a => ({| u with t_seen := u.(t_seen) ++ [(a.(a_opcode), a.(a_msg))] |}, []))).

#[export] Program Instance tape_peer : EventPeer tape_cb :=
  {| ep_ok _ := True; ep_pending := t_wire; ep_budget u := (length u.(t_plan) + length u.(t_wire))%nat; ep_wants _ := true; ep_seen := t_seen |}.
Next Obligation. done. Qed.
Next Obligation.
  intros u n u' l e E. injection E as <- <- <-. split_and!; [done| |done]. destruct (take _ _); auto.
Qed.
Next Obligation.
  intros u n u' l e E Hn. injection E as <- <- <-. cbn. split; [by rewrite take_drop|].
  unfold zlen. rewrite length_take. destruct (t_plan u); lia.
Qed.
Next Obligation.
  intros u n u' l e E Hn Hne. injection E as <- <- <-. cbn. rewrite length_drop.
  destruct (t_plan u); cbn; [|lia]. destruct (t_wire u); [done|]. cbn. lia.
Qed.
Next Obligation. intros u n _. by exists u. Qed.
Next Obligation. done. Qed.
Next Obligation. eexists. split; [done|]. intros u a _. by eexists. Qed.

(** A text message in two frames with a Ping in between, and a binary message; the stream arrives in pieces. *)
Definition demo_frames : list ws_frame :=
  let key := Some [17; 34; 51; 68] in
  [mkFrame 0 0 1 key (bytes_of_string "hel"); mkFrame 1 0 9 key [1; 2]; mkFrame 1 0 0 key (bytes_of_string "lo"); mkFrame 1 0 2 key [255]].
Definition demo_tape : tape := mkTape (wire_of demo_frames) [1; 0; 3; 5; 0; 4] [].

Lemma messages_received_witness :
  exists n s', (n <= 40)%nat /\ recv_calls tape_cb n 20 (mkE (demo_tape, 0) (fresh true 125)) = Some s' /\
    s'.(e_env).1.(t_seen) = [(9, [1; 2]); (1, bytes_of_string "hello"); (2, [255])] /\
    s'.(e_ctx).(send_ctrl_queue) = [omsg_non_fragmented WSLAY_PONG WSLAY_RSV_NONE [1; 2]].
Proof.
  destruct (messages_received tape_cb true 125 ltac:(lia) demo_tape demo_frames 20) as (n & s' & Hn & E & H1 & H2 & _).
  - exact I.
  - reflexivity.
  - cbn. unfold next_ok, recv_ok, frame_ok, byte_ok. cbn. split_and!; try lia; try done; auto; try (repeat constructor; lia); try (intros _; split; [vm_compute; discriminate|try done]).
  - vm_compute. lia.
  - exists n, s'. split; [etrans; [exact Hn|]; vm_compute; lia|]. split; [exact E|]. split; [exact H1|exact H2].
Defined.
