(* ===== verification/EventSend.v ===== *)
(** * EventSend: the frames [wslay_event_send] writes

    The server's side: messages are sent unmasked, each in one frame.  Whatever the sizes of the writes the transport
    accepts, the calls of [wslay_event_send] write exactly the queued messages, the one under way first, then control
    messages, then the others; nothing follows a Close. *)
From S2P Require Import Prelude Utf8 Frame Event EventClose EventRecv.

(** ** Reference: the frames to send *)

Definition is_close (f : ws_frame) : bool := f.(f_opcode) =? WSLAY_CONNECTION_CLOSE.

(** Nothing is sent behind a Close. *)
Fixpoint upto_close (fs : list ws_frame) : list ws_frame :=
  match fs with [] => [] | f :: fs => f :: if is_close f then [] else upto_close fs end.

(** Once the closing handshake has begun ([closing]) control messages in front of the Close are dropped. *)
Fixpoint from_close (fs : list ws_frame) : list ws_frame :=
  match fs with [] => [] | f :: fs => if is_close f then f :: fs else from_close fs end.
Definition to_go (closing : bool) (cur : option ws_frame) (cfs dfs : list ws_frame) : list ws_frame :=
  upto_close (option_list cur ++ (if closing then from_close cfs else cfs) ++ dfs).

(** A message of the server. *)
Definition plain (f : ws_frame) : Prop := frame_ok f /\ f.(f_fin) = 1 /\ f.(f_mask) = None.
Definition omsg_of (f : ws_frame) : omsg := omsg_non_fragmented f.(f_opcode) f.(f_rsv) f.(f_payload).

(** ** One call of the frame layer *)
Section Call.
Context {U : Type} (cb : frame_callbacks U) (sent : U -> list Z) (budget : U -> nat).
Hypothesis send_takes : forall u d u' r, send_callback cb u d = (u', r) -> r <= zlen d /\ sent u' = sent u ++ take (Z.to_nat r) d.
Hypothesis send_fair : forall u d u' r, send_callback cb u d = (u', r) -> d <> [] ->
  if 0 <? r then (budget u' <= budget u)%nat else (budget u' < budget u)%nat.

(** [k] bytes of [f] are out, its header is laid out in front of the payload; [c] is at a frame boundary before the first
    call. *)
Definition at_byte (f : ws_frame) (k : Z) (c : frame_out) (mem : list Z) : Prop :=
  exists pre, zlen pre + zlen (encode_header f) = WSLAY_FRAME_HDR_SIZ /\
    (c.(ostate) = PREP_HEADER /\ c.(omask) = 0 /\ k = 0 /\
       (exists junk, zlen junk = zlen (encode_header f) /\ mem = pre ++ junk ++ f.(f_payload)) \/
     opos f k c /\ mem = pre ++ encode_header f ++ f.(f_payload)).

Lemma frame_send_call f u c mem k :
  plain f -> at_byte f k c mem -> 0 <= k < zlen (encode f) ->
  exists k' u' c' mem' r,
    wslay_frame_send cb u c mem (mkIocbOut 1 f.(f_rsv) f.(f_opcode) (flen f) 0 (WSLAY_FRAME_HDR_SIZ + pay f k) (flen f - pay f k))
      = Some (u', c', mem', r) /\
    k <= k' <= zlen (encode f) /\ sent u' = sent u ++ slice (encode f) k k' /\
    (budget u' + Z.to_nat (zlen (encode f) - k') < budget u + Z.to_nat (zlen (encode f) - k))%nat /\
    (r = WSLAY_ERR_WANT_WRITE /\ pay f k' = pay f k /\ k' < zlen (encode f) \/ r = pay f k' - pay f k /\ zlen (encode_header f) <= k') /\
    (k' = zlen (encode f) -> c'.(ostate) = PREP_HEADER /\ c'.(omask) = 0) /\
    (k' < zlen (encode f) -> opos f k' c') /\
    exists pre, zlen pre + zlen (encode_header f) = WSLAY_FRAME_HDR_SIZ /\ mem' = pre ++ encode_header f ++ f.(f_payload).
Proof using send_takes send_fair.
  intros (Hf & Hfin & Hm) (pre & Hpre & Hat) Hk.
  assert (mask_bit f = 0) as Hmb by (unfold mask_bit; by rewrite Hm).
  pose proof (full_len f) as HL.
  destruct Hat as [(Hst & Hom & -> & junk & Hj & ->)|[Ho ->]].
  - destruct (first_call cb f Hf pre [] u u c junk Hj Hst) as (c1 & Ho & E); [by right|by rewrite Hm|].
    rewrite !app_nil_r in E.
    destruct (send_payload_spec cb sent budget send_takes send_fair f pre [] 0 (mkSend u c1 (zlen pre) (zlen (encode f)) 0))
      as (k' & u' & c' & r & E' & H1 & H2 & H3 & H4 & H5 & H6); cbn [s_ctx s_totallen s_data s_data_length]; try done; try lia.
    rewrite !app_nil_r in E'. rewrite Hmb in H5.
    assert (pay f 0 = 0) as Hp0 by (unfold pay; pose proof (zlen_nonneg (encode_header f)); lia).
    exists k', u', c', (pre ++ encode_header f ++ f_payload f), r. rewrite Hp0, Z.add_0_r, Z.sub_0_r.
    unfold iocb_for in E. rewrite Hfin, Hmb, Hpre in E. rewrite E, E'. cbn [s_env] in *. rewrite Hp0 in H4. split_and!; try done; try lia. by exists pre.
  - pose proof Ho as (O1 & O2 & O3 & O4 & O5 & O6 & O7).
    destruct (send_payload_spec cb sent budget send_takes send_fair f pre [] k (mkSend u c (zlen pre + k) (zlen (encode f) - k) 0))
      as (k' & u' & c' & r & E' & H1 & H2 & H3 & H4 & H5 & H6); cbn [s_ctx s_totallen s_data s_data_length]; try done; try lia.
    rewrite !app_nil_r in E'. rewrite Hmb in H5. exists k', u', c', (pre ++ encode_header f ++ f_payload f), r.
    unfold wslay_frame_send. rewrite !O1. cbn [bool_decide out_data out_data_length decide_rel]. rewrite O5.
    replace (WSLAY_FRAME_HDR_SIZ + pay f k - Z.max 0 (zlen (encode_header f) - k)) with (zlen pre + k) by (unfold pay; lia).
    replace (flen f - pay f k + Z.max 0 (zlen (encode_header f) - k)) with (zlen (encode f) - k) by (unfold pay; lia).
    split; [exact E'|]. split_and!; try done; try lia. by exists pre.
Qed.
End Call.

(** An unmasked frame asks the transport at most once. *)
Lemma frame_send_env {U} (cb : frame_callbacks U) (P : U -> Prop) u c mem io u' c' mem' r :
  (forall u d u' r, send_callback cb u d = (u', r) -> P u -> P u') -> out_mask io = 0 -> omask c = 0 ->
  wslay_frame_send cb u c mem io = Some (u', c', mem', r) -> P u -> P u'.
Proof.
  intros HP Hio Hom E Hu.
  assert (forall m st, st.(s_ctx).(omask) = 0 -> P st.(s_env) -> send_payload cb m st = Some (u', c', mem', r) -> P u') as Hpay.
  { clear E. intros m st Ho Hs E. unfold send_payload in E. rewrite Ho in E. cbn [Z.eqb negb] in E.
    destruct (0 <? s_data_length st).
    - destruct (_ || _); [done|]. destruct (send_callback cb _ _) as [u1 r1] eqn:Ec. pose proof (HP _ _ _ _ Ec Hs).
      destruct (0 <? r1); cbn in E; [destruct (negb _); by injection E as <- <- <- <-|by injection E as <- <- <- <-].
    - cbn in E. destruct (negb _); by injection E as <- <- <- <-. }
  unfold wslay_frame_send in E. destruct (bool_decide _).
  - destruct (prep_header io); [by injection E as <- <- <- <-|]. rewrite Hio in E. cbn [Z.eqb negb] in E. destruct (memcpy _ _ _); [|done]. by apply (Hpay _ _) in E.
  - destruct (bool_decide _); [by apply (Hpay _ _) in E|by injection E as <- <- <- <-].
Qed.

(** ** Sending messages *)
Section Send.
Context {U : Type} (cb : event_callbacks U).
Implicit Types s : est (U:=U).

(** The transport takes what it is given in pieces and refuses finitely often. *)
Class EventSink := {
  es_ok : U -> Prop; es_sent : U -> list Z; es_budget : U -> nat;
  es_open u : es_ok u -> ev_shut cb u = (false, false);
  es_send u d u' r e : ev_send cb u d = (u', r, e) -> (es_ok u -> es_ok u') /\ (e = None \/ e = Some WSLAY_ERR_WOULDBLOCK);
  es_takes u d u' r e : ev_send cb u d = (u', r, e) -> r <= zlen d /\ es_sent u' = es_sent u ++ take (Z.to_nat r) d;
  es_fair u d u' r e : ev_send cb u d = (u', r, e) -> d <> [] ->
    if 0 <? r then (es_budget u' <= es_budget u)%nat else (es_budget u' < es_budget u)%nat }.
Context `{EventSink}.

Definition snk_sent (e : U * Z) : list Z := es_sent e.1.
Definition snk_budget (e : U * Z) : nat := es_budget e.1.

Lemma cb_takes e d e' r : send_callback (frame_cb cb) e d = (e', r) -> r <= zlen d /\ snk_sent e' = snk_sent e ++ take (Z.to_nat r) d.
Proof. cbn. destruct (ev_send cb e.1 d) as [[u k] x] eqn:E. intros [= <- <-]. by apply (es_takes _ _ _ _ _ E). Qed.
Lemma cb_send_fair e d e' r : send_callback (frame_cb cb) e d = (e', r) -> d <> [] ->
  if 0 <? r then (snk_budget e' <= snk_budget e)%nat else (snk_budget e' < snk_budget e)%nat.
Proof. cbn. destruct (ev_send cb e.1 d) as [[u k] x] eqn:E. intros [= <- <-] Hd. by apply (es_fair _ _ _ _ _ E). Qed.

Definition sendable (e : U * Z) : Prop := es_ok e.1 /\ error_ok e.2.
Lemma cb_sendable e d e' r : send_callback (frame_cb cb) e d = (e', r) -> sendable e -> sendable e'.
Proof.
  cbn. destruct (ev_send cb e.1 d) as [[u k] x] eqn:E. intros [= <- <-] (H1 & H2). destruct (es_send _ _ _ _ _ E) as (G1 & G2).
  unfold sendable, set_error. cbn. split; [auto|]. destruct G2 as [-> | ->]; cbn; [done|by right].
Qed.

(** The receiving half of the context and the flags, which sending does not change. *)
Definition same_in (c c' : ectx) : Prop :=
  c'.(config) = c.(config) /\ c'.(max_recv_msg_length) = c.(max_recv_msg_length) /\ c'.(server) = c.(server) /\
  c'.(allowed_rsv_bits) = c.(allowed_rsv_bits) /\ c'.(fctx_in) = c.(fctx_in) /\ c'.(read_enabled) = c.(read_enabled) /\
  c'.(imsgs0) = c.(imsgs0) /\ c'.(imsgs1) = c.(imsgs1) /\ c'.(imsg_second) = c.(imsg_second) /\
  c'.(e_ipayloadlen) = c.(e_ipayloadlen) /\ c'.(e_ipayloadoff) = c.(e_ipayloadoff).

Lemma same_in_trans c1 c2 c3 : same_in c1 c2 -> same_in c2 c3 -> same_in c1 c3.
Proof. unfold same_in. intuition congruence. Qed.

(** The message under way: [k] bytes of its frame are out. *)
Definition underway (c : ectx) (f : ws_frame) (k : Z) : Prop :=
  plain f /\ 0 <= k < zlen (encode f) /\ c.(e_opayloadlen) = flen f /\ c.(e_opayloadoff) = pay f k /\
  exists mem, c.(c_omsg) = Some (mkOmsg 1 f.(f_opcode) f.(f_rsv) WSLAY_NON_FRAGMENTED mem (flen f) 0) /\ at_byte f k c.(fctx_out) mem.

Record sends (c : ectx) (cur : option ws_frame) (k : Z) (cfs dfs : list ws_frame) : Prop := mkSends {
  sd_write : c.(write_enabled) = true; sd_server : c.(server) = true;
  sd_ctrl : c.(send_ctrl_queue) = omsg_of <$> cfs; sd_data : c.(send_queue) = omsg_of <$> dfs;
  sd_plain : Forall plain (cfs ++ dfs);
  sd_close : has_close c WSLAY_CLOSE_QUEUED = true -> Exists (fun f => is_close f = true) (option_list cur ++ cfs);
  sd_cur : match cur with
           | None => c.(c_omsg) = None /\ k = 0 /\ c.(fctx_out).(ostate) = PREP_HEADER /\ c.(fctx_out).(omask) = 0
           | Some f => underway c f k /\ c.(fctx_out).(ostate) = SEND_PAYLOAD
           end }.

(** Everything is out, or the Close is. *)
Definition closed (c : ectx) : Prop := c.(write_enabled) = false /\ has_close c WSLAY_CLOSE_SENT = true /\ c.(c_omsg) = None.

(** *** Sending one frame *)

(** What a step may change besides the frame under way. *)
Definition out_rel (c c' : ectx) : Prop :=
  same_in c c' /\ c'.(send_ctrl_queue) = c.(send_ctrl_queue) /\ c'.(send_queue) = c.(send_queue).
Definition only_out s s' : Prop := sendable s'.(e_env) /\ out_rel s.(e_ctx) s'.(e_ctx).

Lemma out_rel_trans c1 c2 c3 : out_rel c1 c2 -> out_rel c2 c3 -> out_rel c1 c3.
Proof. intros (A & B & C) (A' & B' & C'). split; [by eapply same_in_trans|]. split; congruence. Qed.

Definition send_post s f k s' (r : Z + unit) : Prop :=
  exists k', k <= k' <= zlen (encode f) /\ es_sent s'.(e_env).1 = es_sent s.(e_env).1 ++ slice (encode f) k k' /\
    (es_budget s'.(e_env).1 + Z.to_nat (zlen (encode f) - k') < es_budget s.(e_env).1 + Z.to_nat (zlen (encode f) - k))%nat /\
    only_out s s' /\
    match r with
    | inl e => e = 0 /\ underway s'.(e_ctx) f k' /\ s'.(e_ctx).(fctx_out).(ostate) = SEND_PAYLOAD /\
        s'.(e_ctx).(write_enabled) = s.(e_ctx).(write_enabled) /\ s'.(e_ctx).(close_status) = s.(e_ctx).(close_status)
    | inr _ => k' = zlen (encode f) /\ s'.(e_ctx).(c_omsg) = None /\ s'.(e_ctx).(fctx_out).(ostate) = PREP_HEADER /\
        s'.(e_ctx).(fctx_out).(omask) = 0 /\
        if is_close f then closed s'.(e_ctx)
        else s'.(e_ctx).(write_enabled) = s.(e_ctx).(write_enabled) /\ s'.(e_ctx).(close_status) = s.(e_ctx).(close_status)
    end.

Lemma done_post s f mem : sendable s.(e_env) -> flen f + WSLAY_FRAME_HDR_SIZ = zlen mem ->
  s.(e_ctx).(fctx_out).(ostate) = PREP_HEADER -> s.(e_ctx).(fctx_out).(omask) = 0 ->
  cwp (non_fragmented_done (U:=U) (mkOmsg 1 f.(f_opcode) f.(f_rsv) WSLAY_NON_FRAGMENTED mem (flen f) 0)) s (fun s' r => r = inr tt /\
    s'.(e_env) = s.(e_env) /\ only_out s s' /\ s'.(e_ctx).(c_omsg) = None /\ s'.(e_ctx).(fctx_out) = s.(e_ctx).(fctx_out) /\
    if is_close f then closed s'.(e_ctx)
    else s'.(e_ctx).(write_enabled) = s.(e_ctx).(write_enabled) /\ s'.(e_ctx).(close_status) = s.(e_ctx).(close_status)).
Proof.
  intros Hs Hl Hst Hom. unfold non_fragmented_done. apply cwp_bind, cwp_mod. cbn [o_opcode o_data_length o_mem]. fold (is_close f).
  set (c1 := {| s.(e_ctx) with queued_msg_count := _; queued_msg_length := _ |}).
  assert (out_rel (e_ctx s) c1 /\ fctx_out c1 = fctx_out (e_ctx s) /\ write_enabled c1 = write_enabled (e_ctx s) /\
    close_status c1 = close_status (e_ctx s)) as (F1 & F2 & F3 & F4) by (by split_and!).
  clearbody c1. destruct (is_close f); cbn [cwhen].
  - apply cwp_bind, cwp_bind.
    assert (forall code, cwp (emod (U:=U) (fun c => {| c with write_enabled := false; close_status := Z.lor c.(close_status) WSLAY_CLOSE_SENT;
        status_code_sent := if code =? 0 then WSLAY_CODE_NO_STATUS_RCVD else code |})) (mkE s.(e_env) c1)
      (fun s' r => match r with inl e => False | inr _ => cwp (emod (fun c => {| c with c_omsg := None |})) s' (fun s' r => r = inr tt /\
        s'.(e_env) = s.(e_env) /\ only_out s s' /\ s'.(e_ctx).(c_omsg) = None /\ s'.(e_ctx).(fctx_out) = s.(e_ctx).(fctx_out) /\ closed s'.(e_ctx)) end)) as Hend.
    { intros code. apply cwp_mod, cwp_mod. cbn [e_env e_ctx]. split; [done|]. split; [done|]. split; [by split|]. split; [done|]. split; [exact F2|].
      split; [done|]. split; [|done]. unfold has_close. cbn [close_status].
      rewrite Z.land_lor_distr_l. change (Z.land WSLAY_CLOSE_SENT WSLAY_CLOSE_SENT) with 4. apply negb_true_iff, Z.eqb_neq.
      intros E%Z.lor_eq_0_iff. destruct E as [_ E]. discriminate. }
    destruct (Z.leb_spec 2 (flen f)) as [H2|H2].
    + destruct (rd_total mem WSLAY_FRAME_HDR_SIZ) as [b0 E0]; [unfold WSLAY_FRAME_HDR_SIZ in *; lia|].
      destruct (rd_total mem (WSLAY_FRAME_HDR_SIZ + 1)) as [b1 E1]; [unfold WSLAY_FRAME_HDR_SIZ in *; lia|].
      apply cwp_bind. eapply cwp_lift; [exact E0|]. apply cwp_bind. eapply cwp_lift; [exact E1|]. apply cwp_ret.
      eapply cwp_mono; [apply Hend|]. intros s' [e|[]] ?; done.
    + apply cwp_ret. eapply cwp_mono; [apply Hend|]. intros s' [e|[]] ?; done.
  - apply cwp_bind, cwp_ret, cwp_mod. cbn [e_env e_ctx]. split_and!; try done.
Qed.

Lemma call_frame_send_run s mem io e fo mem' r :
  wslay_frame_send (frame_cb cb) s.(e_env) s.(e_ctx).(fctx_out) mem io = Some (e, fo, mem', r) ->
  sendable s.(e_env) -> out_mask io = 0 -> omask s.(e_ctx).(fctx_out) = 0 ->
  sendable e /\ call_frame_send cb mem io s = Some (mkE e {| s.(e_ctx) with fctx_out := fo |}, inr (mem', r)).
Proof.
  intros E Hs Hio Hom. pose proof (frame_send_env _ sendable _ _ _ _ _ _ _ _ cb_sendable Hio Hom E Hs) as Hs'. split; [done|].
  unfold call_frame_send, cget, clift, cmod, mbind, CM_bind. rewrite E. unfold shut. cbn [e_env e_ctx]. by rewrite es_open by apply Hs'.
Qed.

Lemma at_byte_mem f k c mem : at_byte f k c mem -> zlen mem = WSLAY_FRAME_HDR_SIZ + flen f.
Proof. intros (pre & Hp & [(_ & _ & _ & junk & Hj & ->)|[_ ->]]); rewrite !zlen_app; fold (flen f); lia. Qed.
Lemma at_byte_mask f k c mem : plain f -> at_byte f k c mem -> omask c = 0.
Proof.
  intros (_ & _ & Hm) (pre & _ & [(_ & E & _)|[(_ & _ & _ & _ & _ & E & _) _]]); [done|]. unfold mask_bit in E. by rewrite Hm in E.
Qed.

Lemma send_error_break s : sendable s.(e_env) -> handle_send_error (U:=U) WSLAY_ERR_WANT_WRITE s = Some (s, inl 0).
Proof. intros (_ & [E|E]); unfold handle_send_error, cget, mbind, CM_bind; rewrite E; done. Qed.

Lemma send_one s f k o : sendable s.(e_env) -> s.(e_ctx).(server) = true -> underway s.(e_ctx) f k -> s.(e_ctx).(c_omsg) = Some o ->
  cwp (send_non_fragmented cb o) s (send_post s f k).
Proof.
  intros Hs Hsrv (Hp & Hk & Hl & Ho & mem & Em & Hat) Eo. rewrite Em in Eo. injection Eo as <-.
  pose proof (full_len f) as HL. pose proof (zlen_nonneg (f_payload f)) as Hf0. fold (flen f) in Hf0.
  pose proof Hp as ((_ & _ & _ & _ & _ & Hfl & _) & _). fold (flen f) in Hfl.
  unfold send_non_fragmented. apply cwp_bind, cwp_bind, cwp_get, cwp_ret. rewrite Hl, Ho, Hsrv. cbn [o_mem o_rsv o_opcode].
  destruct (frame_send_call (frame_cb cb) snk_sent snk_budget cb_takes cb_send_fair f (e_env s) (fctx_out (e_ctx s)) mem k Hp Hat Hk)
    as (k' & e & fo & mem' & r & E & H1 & H2 & H3 & H4 & H5 & H6 & pre & Hpre & Emem).
  destruct (call_frame_send_run s _ _ _ _ _ _ E Hs eq_refl (at_byte_mask _ _ _ _ Hp Hat)) as [Hs' Ec].
  apply cwp_bind. unfold cwp at 1. rewrite Ec. apply cwp_bind, cwp_mod. cbn [fst snd e_env e_ctx].
  set (o' := mkOmsg 1 (f_opcode f) (f_rsv f) WSLAY_NON_FRAGMENTED mem' (flen f) 0).
  change {| (mkOmsg 1 (f_opcode f) (f_rsv f) WSLAY_NON_FRAGMENTED mem (flen f) 0) with o_mem := mem' |} with o'.
  match goal with |- cwp _ (mkE e ?c) _ => set (c1 := c) end.
  assert (out_rel (e_ctx s) c1 /\ fctx_out c1 = fo /\ c_omsg c1 = Some o' /\ write_enabled c1 = write_enabled (e_ctx s) /\
    close_status c1 = close_status (e_ctx s) /\ e_opayloadlen c1 = flen f /\ e_opayloadoff c1 = pay f k) as (F1 & F2 & F3 & F4 & F5 & F6 & F7)
    by (by split_and!).
  clearbody c1.
  assert (forall c, k' < zlen (encode f) -> fctx_out c = fo -> c_omsg c = Some o' -> e_opayloadlen c = flen f -> e_opayloadoff c = pay f k' ->
    underway c f k' /\ ostate (fctx_out c) = SEND_PAYLOAD) as Hund.
  { intros c Hlt G1 G2 G3 G4. pose proof (H6 Hlt) as Hop. rewrite G1. split; [|by destruct Hop]. split; [done|]. split; [lia|]. split; [done|].
    split; [done|]. exists mem'. split; [done|]. exists pre. split; [done|]. right. by rewrite G1. }
  assert (pay f k <= pay f k') by (unfold pay; lia). assert (0 <= pay f k /\ pay f k' <= flen f) as [] by (unfold pay; lia).
  destruct H4 as [(-> & Hpk & Hlt)|[-> Hge]].
  - cbn [Z.leb]. unfold cwp. cbn [Z.compare]. rewrite send_error_break by done. exists k'. split_and!; try done; try lia.
    all: apply (Hund c1); first [done|congruence].
  - destruct (Z.leb_spec 0 (pay f k' - pay f k)); [|lia]. apply cwp_bind, cwp_mod. cbn [e_env e_ctx]. rewrite F7.
    rewrite uwrap_id by lia. replace (pay f k + (pay f k' - pay f k)) with (pay f k') by lia.
    set (c2 := {| c1 with e_opayloadoff := pay f k' |}).
    assert (out_rel (e_ctx s) c2 /\ fctx_out c2 = fo /\ c_omsg c2 = Some o' /\ write_enabled c2 = write_enabled (e_ctx s) /\
      close_status c2 = close_status (e_ctx s) /\ e_opayloadlen c2 = flen f /\ e_opayloadoff c2 = pay f k') as (G1 & G2 & G3 & G4 & G5 & G6 & G7)
      by (by split_and!).
    clearbody c2. apply cwp_bind, cwp_bind, cwp_get, cwp_ret. cbn [e_ctx]. rewrite G6, G7. destruct (Z.eqb_spec (pay f k') (flen f)) as [Ep|Ep].
    + assert (k' = zlen (encode f)) as -> by (unfold pay in Ep; lia). destruct (H5 eq_refl) as [D1 D2].
      eapply cwp_mono; [apply done_post; cbn [e_env e_ctx]; try done; [|by rewrite G2|by rewrite G2]|].
      { rewrite Emem, !zlen_app. fold (flen f). lia. }
      intros s' r' (-> & Ee & (_ & Hrel) & Hom & Hfo & Hcl). cbn [e_env e_ctx] in *. exists (zlen (encode f)). rewrite Ee, Hfo, G2.
      split_and!; try done; try lia. { split; [by rewrite Ee|by eapply out_rel_trans]. } destruct (is_close f); [done|]. by rewrite <- G4, <- G5.
    + apply cwp_return. exists k'. assert (k' < zlen (encode f)) by (unfold pay in Ep; lia). cbn [e_env e_ctx].
      split_and!; try done; try lia. all: by apply Hund.
Qed.

(** *** The choice of the message *)

Definition closing (c : ectx) : bool := has_close c WSLAY_CLOSE_QUEUED.

Lemma pop_close_spec cfs : Exists (fun f => is_close f = true) cfs ->
  exists f cfs', pop_close (omsg_of <$> cfs) = (Some (omsg_of f), omsg_of <$> cfs') /\ from_close cfs = f :: cfs' /\ is_close f = true /\
    (Forall plain cfs -> plain f /\ Forall plain cfs').
Proof.
  induction cfs as [|f cfs IH]; intros Hex; [by apply Exists_nil in Hex|]. cbn [pop_close fmap list_fmap from_close].
  change (o_opcode (omsg_of f) =? WSLAY_CONNECTION_CLOSE) with (is_close f). destruct (is_close f) eqn:E.
  - exists f, cfs. split_and!; try done. by intros [? ?]%Forall_cons.
  - apply Exists_cons in Hex as [Hex|Hex]; [congruence|]. destruct (IH Hex) as (g & cfs' & E1 & E2 & E3 & E4). exists g, cfs'. split_and!; try done.
    intros [? ?]%Forall_cons. auto.
Qed.

Lemma fresh_underway c f : plain f -> c.(fctx_out).(ostate) = PREP_HEADER -> c.(fctx_out).(omask) = 0 -> underway (omsg_popped c (omsg_of f)) f 0.
Proof.
  intros Hp Hst Hom. pose proof (encode_header_len f (proj1 Hp)) as Hh. pose proof (full_len f) as HL. pose proof (zlen_nonneg (f_payload f)) as Hf0.
  fold (flen f) in Hf0. unfold underway, omsg_popped, wslay_event_on_non_fragmented_msg_popped, omsg_of, omsg_non_fragmented.
  cbn [o_type o_data_length e_opayloadlen e_opayloadoff c_omsg fctx_out o_mem o_opcode o_rsv o_source].
  split; [done|]. split; [lia|]. split; [done|]. split; [unfold pay; lia|]. eexists. split; [done|].
  exists (replicate (Z.to_nat (16 - zlen (encode_header f))) 0). split; [unfold zlen at 1; rewrite length_replicate; unfold WSLAY_FRAME_HDR_SIZ; lia|].
  left. split_and!; try done. exists (replicate (Z.to_nat (zlen (encode_header f))) 0). split; [unfold zlen at 1; rewrite length_replicate; lia|].
  rewrite app_assoc, <- replicate_add. do 2 f_equal. lia.
Qed.

(** [f] is the message under way, [cfs] and [dfs] are the queues behind it. *)
Record chosen_msg (c : ectx) (f : ws_frame) (k : Z) (cfs dfs : list ws_frame) : Prop := {
  cm_write : c.(write_enabled) = true; cm_server : c.(server) = true;
  cm_ctrl : c.(send_ctrl_queue) = omsg_of <$> cfs; cm_data : c.(send_queue) = omsg_of <$> dfs; cm_plain : Forall plain (cfs ++ dfs);
  cm_close : closing c = true -> is_close f = true \/ Exists (fun f => is_close f = true) cfs;
  cm_cur : underway c f k }.

Definition select_post s cur k cfs dfs (s' : est (U:=U)) (r : Z + unit) : Prop :=
  r = inr tt /\ s'.(e_env) = s.(e_env) /\ same_in s.(e_ctx) s'.(e_ctx) /\ s'.(e_ctx).(close_status) = s.(e_ctx).(close_status) /\
  exists f cfs' dfs', chosen_msg s'.(e_ctx) f k cfs' dfs' /\ (dfs = [] -> dfs' = []) /\
    to_go (closing s.(e_ctx)) cur cfs dfs = f :: if is_close f then [] else to_go (closing s.(e_ctx)) None cfs' dfs'.

Lemma select_spec s cur k cfs dfs : sends s.(e_ctx) cur k cfs dfs -> to_go (closing s.(e_ctx)) cur cfs dfs <> [] ->
  cwp (select_omsg (U:=U)) s (select_post s cur k cfs dfs).
Proof.
  intros [W1 W2 W3 W4 W5 W6 W7] Hne. unfold select_omsg. apply cwp_bind, cwp_bind, cwp_get, cwp_ret. destruct cur as [f|].
  - destruct W7 as [Hu Hst]. pose proof Hu as (_ & _ & _ & _ & mem & -> & _). rewrite Hst. cbn [bool_decide decide_rel]. rewrite andb_false_r. cbn [andb cwhen].
    apply cwp_ret. split_and!; try done. exists f, cfs, dfs. split; [|by split]. split; try done. intros Hc. specialize (W6 Hc). apply Exists_cons in W6 as [?|?]; auto.
  - destruct W7 as (-> & -> & Hst & Hom). destruct cfs as [|g cfs].
    + rewrite W3. cbn [fmap list_fmap]. assert (closing (e_ctx s) = false) as Hc
        by (destruct (closing (e_ctx s)) eqn:E; [by apply W6, Exists_nil in E|done]).
      destruct dfs as [|f dfs]; [by rewrite Hc in Hne|]. rewrite W4. cbn [fmap list_fmap]. apply cwp_mod. cbn [e_env e_ctx].
      apply Forall_cons in W5 as [Hf W5]. split_and!; try done. exists f, [], dfs. split; [|split; [done|by rewrite Hc]]. split; try done.
      * intros E. change (closing (e_ctx s) = true) in E. congruence.
      * by apply fresh_underway.
    + rewrite W3 at 1. cbn [fmap list_fmap].
      assert (exists f cfs', wslay_event_send_ctrl_queue_pop (e_ctx s) = Some (Some (omsg_of f), {| (e_ctx s) with send_ctrl_queue := omsg_of <$> cfs' |}) /\
        plain f /\ Forall plain cfs' /\ (closing (e_ctx s) = true -> is_close f = true) /\
        to_go (closing (e_ctx s)) None (g :: cfs) dfs = f :: if is_close f then [] else to_go (closing (e_ctx s)) None cfs' dfs)
        as (f & cfs' & Epop & Hf & Hcfs & Hcl & Ego).
      { unfold wslay_event_send_ctrl_queue_pop. rewrite W3. fold (closing (e_ctx s)). apply Forall_app in W5 as [W5 _].
        destruct (closing (e_ctx s)) eqn:Hc.
        - destruct (pop_close_spec (g :: cfs) (W6 Hc)) as (f & cfs' & E1 & E2 & E3 & E4). rewrite E1. exists f, cfs'. destruct (E4 W5).
          split_and!; try done. unfold to_go. rewrite E2. cbn. by rewrite E3.
        - apply Forall_cons in W5 as [? ?]. by exists g, cfs. }
      apply cwp_bind. eapply cwp_lift; [exact Epop|]. apply cwp_bind, cwp_mod. cbn [fst snd e_env e_ctx]. apply cwp_mod. cbn [e_env e_ctx].
      split_and!; try done. exists f, cfs', dfs. split; [|by split]. split; try done.
      * apply Forall_app in W5 as [_ ?]. by apply Forall_app.
      * intros E. left. by apply Hcl.
      * by apply fresh_underway.
Qed.

(** *** The loop *)

(** The bytes still to be written. *)
Definition to_write (c : ectx) (cur : option ws_frame) (k : Z) (cfs dfs : list ws_frame) : list Z :=
  drop (Z.to_nat k) (wire_of (to_go (closing c) cur cfs dfs)).

(** [s'] is [s] with the bytes [w] out. *)
Record wrote s (w : list Z) s' : Prop := mkWrote {
  wr_ok : sendable s'.(e_env); wr_in : same_in s.(e_ctx) s'.(e_ctx);
  wr_sent : es_sent s'.(e_env).1 = es_sent s.(e_env).1 ++ w }.

Lemma wrote_trans s w s1 w' s2 : wrote s w s1 -> wrote s1 w' s2 -> wrote s (w ++ w') s2.
Proof. intros [] []. split; [done|by eapply same_in_trans|by rewrite app_assoc; congruence]. Qed.

(** Either all of [w] is out, or the rest is in the queues and the transport made progress. *)
Definition still s (w : list Z) (go dfs : list ws_frame) s' : Prop := exists w' cur k cfs dfs' front,
  wrote s w' s' /\ sends s'.(e_ctx) cur k cfs dfs' /\ s'.(e_ctx).(close_status) = s.(e_ctx).(close_status) /\
  w = w' ++ to_write s'.(e_ctx) cur k cfs dfs' /\
  (es_budget s'.(e_env).1 + length (to_write s'.(e_ctx) cur k cfs dfs') < es_budget s.(e_env).1 + length w)%nat /\
  go = front ++ to_go (closing s'.(e_ctx)) cur cfs dfs' /\ (dfs = [] -> dfs' = []).
Definition all_out s (w : list Z) (go : list ws_frame) s' : Prop :=
  wrote s w s' /\ (closed s'.(e_ctx) /\ Exists (fun f => is_close f = true) go \/
    sends s'.(e_ctx) None 0 [] [] /\ s'.(e_ctx).(close_status) = s.(e_ctx).(close_status) /\ 
    (es_budget s'.(e_env).1 <= es_budget s.(e_env).1 + length w)%nat /\ (w <> [] -> es_budget s'.(e_env).1 < es_budget s.(e_env).1 + length w)%nat).

Lemma to_write_cons c cur k cfs dfs f rest : 0 <= k <= zlen (encode f) -> to_go (closing c) cur cfs dfs = f :: rest ->
  to_write c cur k cfs dfs = slice (encode f) k (zlen (encode f)) ++ wire_of rest.
Proof.
  intros Hk E. unfold to_write, wire_of. rewrite E. cbn [mbind list_bind]. rewrite drop_app_le by (unfold zlen in Hk; lia). f_equal.
  unfold slice. rewrite take_ge; [done|]. rewrite length_drop. unfold zlen in *. lia.
Qed.

Lemma send_iter_spec s cur k cfs dfs : sendable s.(e_env) -> sends s.(e_ctx) cur k cfs dfs -> to_go (closing s.(e_ctx)) cur cfs dfs <> [] ->
  cwp (send_iter cb) s (fun s' r => match r with
    | inl e => e = 0 /\ still s (to_write s.(e_ctx) cur k cfs dfs) (to_go (closing s.(e_ctx)) cur cfs dfs) dfs s'
    | inr _ => (wrote s (to_write s.(e_ctx) cur k cfs dfs) s' /\ closed s'.(e_ctx) /\ to_write s.(e_ctx) cur k cfs dfs <> [] /\
          Exists (fun f => is_close f = true) (to_go (closing s.(e_ctx)) cur cfs dfs)) \/
        exists cfs' dfs' w, wrote s w s' /\ sends s'.(e_ctx) None 0 cfs' dfs' /\ s'.(e_ctx).(close_status) = s.(e_ctx).(close_status) /\
          w <> [] /\ to_write s.(e_ctx) cur k cfs dfs = w ++ to_write s'.(e_ctx) None 0 cfs' dfs' /\
          (es_budget s'.(e_env).1 + length (to_write s'.(e_ctx) None 0 cfs' dfs') <
           es_budget s.(e_env).1 + length (to_write s.(e_ctx) cur k cfs dfs))%nat /\
          (exists f, to_go (closing s.(e_ctx)) cur cfs dfs = f :: to_go (closing s'.(e_ctx)) None cfs' dfs') /\ (dfs = [] -> dfs' = [])
    end).
Proof.
  intros Hs Hsd Hne. unfold send_iter. apply cwp_bind. eapply cwp_mono; [by eapply select_spec|].
  intros s1 r (-> & Ee & Hin & Hcs & f & cfs' & dfs' & [M1 M2 M3 M4 M5 M6 M7] & Hdfs & Ego).
  apply cwp_bind, cwp_bind, cwp_get, cwp_ret. pose proof M7 as (Hp & Hk & _ & _ & mem & Em & _).
  apply cwp_bind. eapply cwp_lift; [exact Em|]. cbn [o_type].
  assert (closing (e_ctx s1) = closing (e_ctx s)) as Hc1 by (unfold closing, has_close; by rewrite Hcs).
  eapply cwp_mono; [apply send_one; [by rewrite Ee|done|exact M7|exact Em]|].
  intros s2 r (k' & Hk' & Hsent & Hbud & (Hs2 & Hin2 & Q1 & Q2) & Hr).
  assert (0 <= k <= zlen (encode f)) as Hk0 by lia. assert (0 <= k' <= zlen (encode f)) as Hk1 by lia.
  rewrite Ee in *. rewrite (to_write_cons _ _ _ _ _ f _ Hk0 Ego).
  assert (forall w, es_sent (e_env s2).1 = es_sent (e_env s).1 ++ w -> wrote s w s2) as Hwr by (intros w Ew; split; [done|by eapply same_in_trans|done]).
  pose proof Hin2 as (_ & _ & Hsrv2 & _).
  destruct r as [e|[]].
  - destruct Hr as (-> & Hu & Hst & W & C). split; [done|]. pose proof Hu as (_ & Hlt & _).
    assert (closing (e_ctx s2) = closing (e_ctx s)) as Hc2 by (unfold closing, has_close; by rewrite C, Hcs).
    assert (to_go (closing (e_ctx s2)) (Some f) cfs' dfs' = f :: if is_close f then [] else to_go (closing (e_ctx s)) None cfs' dfs') as Ego2
      by (rewrite Hc2; done).
    exists (slice (encode f) k k'), (Some f), k', cfs', dfs', []. rewrite (to_write_cons _ _ _ _ _ f _ Hk1 Ego2).
    rewrite app_assoc, slice_join by lia. split_and!; try done; [by apply Hwr| |by rewrite C| |by rewrite Ego2, Ego].
    + split; try congruence; [|done].
      intros Hcl. apply Exists_cons. apply M6. fold (closing (e_ctx s2)) in Hcl. congruence.
    + rewrite !length_app. pose proof (slice_length (encode f) k (zlen (encode f)) ltac:(lia) ltac:(lia) ltac:(lia)).
      pose proof (slice_length (encode f) k' (zlen (encode f)) ltac:(lia) ltac:(lia) ltac:(lia)). unfold zlen in *. lia.
  - destruct Hr as (-> & Ho & Hst & Hom & Hcl). pose proof (slice_length (encode f) k (zlen (encode f)) ltac:(lia) ltac:(lia) ltac:(lia)) as Hsl.
    assert (slice (encode f) k (zlen (encode f)) <> []) as Hnn by (intros E; rewrite E, zlen_nil in Hsl; lia).
    destruct (is_close f) eqn:Ecl.
    + left. cbn. rewrite app_nil_r. split; [by apply Hwr|]. split; [done|]. split; [done|]. rewrite Ego. by left.
    + right. destruct Hcl as [W C].
      assert (closing (e_ctx s2) = closing (e_ctx s)) as Hc2 by (unfold closing, has_close; by rewrite C, Hcs).
      exists cfs', dfs', (slice (encode f) k (zlen (encode f))). split_and!; [by apply Hwr| |by rewrite C| | | | |done].
      * split; try congruence; [|done].
        intros Hq. fold (closing (e_ctx s2)) in Hq. rewrite Hc2, <- Hc1 in Hq. destruct (M6 Hq); [congruence|done].
      * done.
      * unfold to_write. by rewrite Hc2, drop_0.
      * unfold to_write. rewrite Hc2, drop_0, length_app. unfold zlen in *. lia.
      * exists f. by rewrite Ego, Hc2.
Qed.

Lemma to_go_nil c cur k cfs dfs : sends c cur k cfs dfs -> to_go (closing c) cur cfs dfs = [] -> cur = None /\ k = 0 /\ cfs = [] /\ dfs = [].
Proof.
  intros [W1 W2 W3 W4 W5 W6 W7] E. destruct cur; [done|]. destruct W7 as (_ & -> & _). unfold to_go in E. cbn in E.
  destruct (closing c) eqn:Hc.
  - destruct (pop_close_spec cfs (W6 Hc)) as (f & cfs' & _ & E2 & _). by rewrite E2 in E.
  - destruct cfs; [|done]. by destruct dfs.
Qed.

Lemma want_write_iff c cur k cfs dfs : sends c cur k cfs dfs -> wslay_event_want_write c = negb (bool_decide (to_go (closing c) cur cfs dfs = [])).
Proof.
  intros Hs. pose proof Hs as [W1 W2 W3 W4 W5 W6 W7]. unfold wslay_event_want_write, has_output. rewrite W1. cbn [andb]. f_equal.
  apply bool_decide_ext. rewrite W3, W4. split.
  - intros (E1 & E2 & E3). destruct cur as [f|]; [destruct W7 as [(_ & _ & _ & _ & mem & E & _) _]; congruence|].
    apply fmap_nil_inv in E1 as ->. apply fmap_nil_inv in E2 as ->. by destruct (closing c).
  - intros E. destruct (to_go_nil _ _ _ _ _ Hs E) as (-> & _ & -> & ->). by destruct W7.
Qed.

Lemma closed_quiet c : closed c -> wslay_event_want_write c = false.
Proof. intros (E & _). unfold wslay_event_want_write. by rewrite E. Qed.

Lemma wrote_refl s : sendable s.(e_env) -> wrote s [] s.
Proof. intros Hs. split; [done|by unfold same_in|by rewrite app_nil_r]. Qed.

(** One call: it returns 0, and either everything is out or the transport stopped taking bytes. *)
Lemma send_call fuel s cur k cfs dfs : sendable s.(e_env) -> sends s.(e_ctx) cur k cfs dfs ->
  (length (to_write s.(e_ctx) cur k cfs dfs) < fuel)%nat ->
  cwp (wslay_event_send cb fuel) s (fun s' r => (r = inl 0 \/ r = inr 0) /\
    (all_out s (to_write s.(e_ctx) cur k cfs dfs) (to_go (closing s.(e_ctx)) cur cfs dfs) s' \/ still s (to_write s.(e_ctx) cur k cfs dfs) (to_go (closing s.(e_ctx)) cur cfs dfs) dfs s')).
Proof.
  revert s cur k cfs dfs. induction fuel as [|fuel IH]; intros s cur k cfs dfs Hs Hsd Hfuel; [lia|].
  cbn [wslay_event_send]. apply cwp_bind, cwp_bind, cwp_get, cwp_ret. rewrite (want_write_iff _ _ _ _ _ Hsd).
  destruct (bool_decide_reflect (to_go (closing (e_ctx s)) cur cfs dfs = [])) as [E|Hne]; cbn [negb].
  - apply cwp_ret. split; [by right|]. left. destruct (to_go_nil _ _ _ _ _ Hsd E) as (-> & -> & -> & ->).
    unfold to_write. rewrite E. split; [by apply wrote_refl|]. right. split_and!; [done|done|lia|done].
  - apply cwp_bind. eapply cwp_mono; [by apply send_iter_spec|]. intros s1 [e|[]] H1.
    + destruct H1 as [-> Hst]. split; [by left|by right].
    + destruct H1 as [(Hw & Hcl & Hnn & Hex)|(cfs' & dfs' & w & Hw & Hsd' & Hcs & Hwne & Ew & Hb & (f & Ef) & Hd)].
      * assert (exists fuel', fuel = S fuel') as [fuel' ->].
        { destruct fuel; [|by eexists]. destruct (to_write _ _ _ _ _); [done|cbn in Hfuel; lia]. }
        cbn [wslay_event_send]. apply cwp_bind, cwp_bind, cwp_get, cwp_ret. rewrite closed_quiet by done. apply cwp_ret.
        split; [by right|]. left. split; [done|by left].
      * rewrite Ew in *. rewrite length_app in *. destruct w as [|b w]; [done|]. cbn [length] in *.
        eapply cwp_mono; [apply (IH s1 None 0 cfs' dfs'); [apply Hw|done|lia]|].
        intros s2 r [Hr [[Hw2 Hend]|Hst]]; (split; [done|]).
        -- left. split; [by eapply wrote_trans|]. rewrite Ef. destruct Hend as [[? ?]|(? & ? & ? & _)]; [left; split; [done|by right]|right].
           split; [done|]. split; [congruence|]. rewrite length_app. cbn [length]. split; [lia|]. intros _. lia.
        -- right. destruct Hst as (w' & cur2 & k2 & cfs2 & dfs2 & front & Hw2 & Hsd2 & Hcs2 & Ew2 & Hb2 & Ego2 & Hd2).
           exists ((b :: w) ++ w'), cur2, k2, cfs2, dfs2, (f :: front). rewrite <- app_assoc, <- Ew2, Ef, Ego2.
           split; [by eapply wrote_trans|]. split; [done|]. split; [congruence|]. split; [done|]. split; [rewrite length_app; cbn [length]; lia|].
           split; [done|auto].
Qed.

(** Calls of [wslay_event_send] one after the other, as long as they return 0. *)
Fixpoint send_calls (n fuel : nat) s : option est :=
  match n with
  | O => Some s
  | S n => match wslay_event_send cb fuel s with
           | Some (s', inl r) | Some (s', inr r) => if r =? 0 then send_calls n fuel s' else None
           | None => None
           end
  end.

Lemma send_all m fuel s cur k cfs dfs w : sendable s.(e_env) -> sends s.(e_ctx) cur k cfs dfs -> to_write s.(e_ctx) cur k cfs dfs = w ->
  (length w < fuel)%nat -> (es_budget s.(e_env).1 + length w <= m)%nat ->
  exists n s', (n <= S m)%nat /\ send_calls n fuel s = Some s' /\ wrote s w s' /\ wslay_event_want_write s'.(e_ctx) = false.
Proof.
  revert s cur k cfs dfs w. induction m as [|m IH]; intros s cur k cfs dfs w Hs Hsd <- Hfuel Hm;
    destruct (cwp_Some _ _ _ (send_call fuel s cur k cfs dfs Hs Hsd Hfuel)) as (s1 & r & E & Hr & Hor);
    assert (forall n, send_calls (S n) fuel s = send_calls n fuel s1) as Hn by (intros n; cbn [send_calls]; rewrite E; by destruct Hr as [-> | ->]);
    (destruct Hor as [[Hw Hend]|(w' & cur1 & k1 & cfs1 & dfs1 & front & Hw & Hsd1 & Hcs & Ew & Hb & _)];
     [exists 1%nat, s1; rewrite Hn; split_and!; [lia|done|done|]; destruct Hend as [[? _]|[Hsd1 _]];
      [by apply closed_quiet|rewrite (want_write_iff _ _ _ _ _ Hsd1); by destruct (closing _)]|]); [lia|].
  destruct (IH s1 cur1 k1 cfs1 dfs1 _ (wr_ok _ _ _ Hw) Hsd1 eq_refl) as (n & s' & Hle & E' & Hw' & Hq);
    [rewrite Ew, length_app in Hfuel; lia|lia|].
  exists (S n), s'. rewrite Hn, Ew. split_and!; [lia|done|by eapply wrote_trans|done].
Qed.

(** C17. The frames a server writes.  Let the queues of a server's context hold the control messages [cfs] and the messages
    [dfs], with no message under way.  Whatever the sizes of the writes the transport accepts and however often it would
    block, calling [wslay_event_send] repeatedly succeeds each time and writes exactly the frames of these messages, the
    control messages first, each kind in the order it was queued, and then wants to write no more.  Nothing follows a
    Close, and once the closing handshake has begun the control messages in front of the Close are skipped. *)
Theorem messages_sent u e c cfs dfs fuel w :
  es_ok u -> error_ok e -> c.(server) = true -> c.(write_enabled) = true -> c.(c_omsg) = None ->
  c.(fctx_out).(ostate) = PREP_HEADER -> c.(fctx_out).(omask) = 0 ->
  c.(send_ctrl_queue) = omsg_of <$> cfs -> c.(send_queue) = omsg_of <$> dfs -> Forall plain (cfs ++ dfs) ->
  (closing c = true -> Exists (fun f => is_close f = true) cfs) -> w = wire_of (to_go (closing c) None cfs dfs) -> (length w < fuel)%nat ->
  exists n s', (n <= S (es_budget u + length w))%nat /\ send_calls n fuel (mkE (u, e) c) = Some s' /\
    es_sent s'.(e_env).1 = es_sent u ++ w /\ wslay_event_want_write s'.(e_ctx) = false.
Proof.
  intros Hu He H1 H2 H3 H4 H5 H6 H7 H8 H9 -> Hfuel.
  destruct (send_all (es_budget u + length (wire_of (to_go (closing c) None cfs dfs))) fuel (mkE (u, e) c) None 0 cfs dfs
    (wire_of (to_go (closing c) None cfs dfs))) as (n & s' & Hn & E & Hw & Hq); try done.
  exists n, s'. split_and!; try done. apply Hw.
Qed.
End Send.

(** ** A concrete transport *)

(** The sizes of the next writes ([0] would block), and what was written. *)
Record sheet := mkSheet { sh_plan : list Z; sh_out : list Z }.

Definition sheet_send (u : sheet) (d : list Z) : sheet * Z * option Z :=
  let k := match u.(sh_plan) with [] => zlen d | k :: _ => Z.min k (zlen d) end in
  (mkSheet (tail u.(sh_plan)) (u.(sh_out) ++ take (Z.to_nat k) d), k, if k <=? 0 then Some WSLAY_ERR_WOULDBLOCK else None).

Definition sheet_cb : event_callbacks sheet :=
  mkEv _ (fun u n => (u, [], Some WSLAY_ERR_WOULDBLOCK)) sheet_send (fun u => (false, false)) (fun u => (u, None)) (fun u n => (u, true))
    (fun u src n => (u, src, 0, [], true)) None None None None.

#[export] Program Instance sheet_sink : EventSink sheet_cb :=
  {| es_ok _ := True; es_sent := sh_out; es_budget u := length u.(sh_plan) |}.
Next Obligation. done. Qed.
Next Obligation. intros u d u' r e E. injection E as <- <- <-. split; [done|]. destruct (_ <=? 0); auto. Qed.
Next Obligation. intros u d u' r e E. injection E as <- <- <-. cbn. split; [|done]. destruct (sh_plan u); lia. Qed.
Next Obligation.
  intros u d u' r e E Hd. injection E as <- <- <-. cbn. destruct (sh_plan u) as [|k p]; cbn.
  - destruct d; [done|]. rewrite zlen_cons. pose proof (zlen_nonneg d). destruct (Z.ltb_spec 0 (1 + zlen d)); lia.
  - destruct (0 <? Z.min k (zlen d)); lia.
Qed.

(** A server with a Pong and two messages queued, the last one behind the Close. *)
Definition full_server : ectx :=
  let c := wslay_event_context_init true in
  {| c with send_ctrl_queue := omsg_of <$> [mkFrame 1 0 10 None [1]; mkFrame 1 0 8 None [3; 232]];
            send_queue := omsg_of <$> [mkFrame 1 0 1 None (bytes_of_string "late")] |}.

Lemma messages_sent_witness :
  exists n s', (n <= 20)%nat /\ send_calls sheet_cb n 20 (mkE (mkSheet [1; 0; 3; 0] [], 0) full_server) = Some s' /\
    s'.(e_env).1.(sh_out) = [138; 1; 1; 136; 2; 3; 232] /\ wslay_event_want_write s'.(e_ctx) = false.
Proof.
  destruct (messages_sent sheet_cb (mkSheet [1; 0; 3; 0] []) 0 full_server [mkFrame 1 0 10 None [1]; mkFrame 1 0 8 None [3; 232]]
    [mkFrame 1 0 1 None (bytes_of_string "late")] 20 [138; 1; 1; 136; 2; 3; 232]) as (n & s' & H1 & H2 & H3 & H4);
    try reflexivity; try exact I; [by left| |done|vm_compute; lia|].
  - unfold plain, frame_ok. repeat apply Forall_cons_2; [..|apply Forall_nil_2]; cbn; (split_and!; try done; [by right|]);
      repeat constructor; unfold byte_ok; lia.
  - exists n, s'. split; [vm_compute in H1; lia|]. done.
Defined.
