(* ===== verification/EventEnv.v ===== *)
(** * EventEnv: wslay reaches its environment through its callbacks only

    A property of the environment that every callback keeps is kept by all functions of the event layer. *)
From S2P Require Import Prelude Utf8 Frame Event EventRecv.

Section FrameSend.
Context {U : Type} (cb : frame_callbacks U) (P : U -> Prop).
Context (Hsend : forall u d u' r, send_callback cb u d = (u', r) -> P u -> P u') (Hmask : forall u u' k, genmask_callback cb u = (u', k) -> P u -> P u').

Lemma mask_loop_kept fuel : forall mem mark limit st r, mask_loop cb fuel mem mark limit st = Some r -> P st.(s_env) ->
  P (match r with inl st => st | inr st => st end).(s_env).
Proof using Hsend.
  induction fuel as [|fuel IH]; intros mem mark limit st r E Hs; cbn [mask_loop] in E; (destruct (negb _); [by injection E as <-|]); [done|].
  destruct (_ || _); [done|]. destruct (send_callback cb _ _) as [u k] eqn:Ec. pose proof (Hsend _ _ _ _ Ec Hs).
  destruct (0 <? k); [by apply (IH _ _ _ _ _ E)|]. destruct (0 <? _); by injection E as <-.
Qed.
Lemma send_payload_kept mem st u c mem' r : send_payload cb mem st = Some (u, c, mem', r) -> P st.(s_env) -> P u.
Proof using Hsend.
  unfold send_payload. intros E Hs. match type of E with mbind _ ?x = _ => destruct x as [y|] eqn:Ey; [|done] end.
  assert (P (match y with inl st => st | inr st => st end).(s_env)) as Hy.
  { destruct (0 <? s_data_length st); [|by injection Ey as <-]. destruct (negb (omask _ =? 0)); [by apply mask_loop_kept in Ey|].
    destruct (_ || _); [done|]. destruct (send_callback cb _ _) as [u1 k] eqn:Ec. pose proof (Hsend _ _ _ _ Ec Hs). destruct (0 <? k); by injection Ey as <-. }
  destruct y as [st'|st']; cbn [mbind option_bind] in E; [by injection E as <- _ _ _|]. cbv zeta in E. by destruct (negb (hdrtow _ =? 0)); simplify_eq.
Qed.
Lemma frame_send_kept u c mem io u' c' mem' r : wslay_frame_send cb u c mem io = Some (u', c', mem', r) -> P u -> P u'.
Proof using Hsend Hmask.
  unfold wslay_frame_send. intros E Hu. destruct (bool_decide _).
  - destruct (prep_header io) as [e|hdr]; [by injection E as <- _ _ _|].
    destruct (if negb (out_mask io =? 0) then genmask_callback cb u else (u, Some [])) as [u1 k] eqn:Ek.
    assert (P u1) as H1 by (destruct (negb _); [by apply (Hmask _ _ _ Ek)|by injection Ek as <- _]).
    destruct k as [key|]; [|by injection E as <- _ _ _]. cbv zeta in E. destruct (memcpy _ _ _); [|done]. by apply send_payload_kept in E.
  - destruct (bool_decide _); [by apply send_payload_kept in E|by injection E as <- _ _ _].
Qed.
End FrameSend.

Section Env.
Context {U : Type} (cb : event_callbacks U) (P : U -> Prop).

(** What the callbacks keep. *)
Record env_kept := mkKept {
  ek_recv u n u' l e : ev_recv cb u n = (u', l, e) -> P u -> P u';
  ek_send u d u' r e : ev_send cb u d = (u', r, e) -> P u -> P u';
  ek_mask u u' k : ev_genmask cb u = (u', k) -> P u -> P u';
  ek_alloc u n u' ok : ev_alloc cb u n = (u', ok) -> P u -> P u';
  ek_read u src n u' src' r d eof : ev_read cb u src n = (u', src', r, d, eof) -> P u -> P u';
  ek_start f u a u' l : on_frame_recv_start cb = Some f -> f u a = (u', l) -> P u -> P u';
  ek_chunk f u a u' l : on_frame_recv_chunk cb = Some f -> f u a = (u', l) -> P u -> P u';
  ek_end f u u' l : on_frame_recv_end cb = Some f -> f u = (u', l) -> P u -> P u';
  ek_msg f u a u' l : on_msg_recv cb = Some f -> f u a = (u', l) -> P u -> P u' }.
Context (HP : env_kept).

Definition guards {A} (m : CM (est (U := U)) Z A) : Prop := forall s, P s.(e_env).1 -> cwlp m s (fun s' _ => P s'.(e_env).1).

Lemma guards_bind {A B} (m : CM (est (U := U)) Z A) (k : A -> CM (est (U := U)) Z B) : guards m -> (forall a, guards (k a)) -> guards (m ≫= k).
Proof. intros Hm Hk s Hs. apply cwlp_bind. eapply cwlp_mono; [by apply Hm|]. intros s' [e|a] Hs'; [done|]. by apply Hk. Qed.
Lemma guards_ret {A} (a : A) : guards (mret a).
Proof. intros s Hs. by apply cwlp_ret. Qed.
Lemma guards_return {A} e : guards (A := A) (creturn e).
Proof. intros s Hs. by apply cwlp_return. Qed.
Lemma guards_cget : guards cget.
Proof. intros s Hs. by apply cwlp_get. Qed.
Lemma guards_eget : guards eget.
Proof. apply guards_bind; [apply guards_cget|intros; apply guards_ret]. Qed.
Lemma guards_emod f : guards (emod f).
Proof. intros s Hs. by apply cwlp_mod. Qed.
Lemma guards_lift {A} (o : option A) : guards (clift o).
Proof. intros s Hs. by apply cwlp_lift. Qed.
Lemma guards_when b m : guards m -> guards (cwhen b m).
Proof. destruct b; [done|intros; apply guards_ret]. Qed.
Lemma guards_error e : guards (cmod (fun s => mkE (s.(e_env).1, e) s.(e_ctx))).
Proof. intros s Hs. by apply cwlp_mod. Qed.

(** Walk through a computation; [t] closes the calls that are known already. *)
Ltac guards_with t := repeat first
  [ t | apply guards_eget | apply guards_cget | apply guards_emod | apply guards_lift | apply guards_ret | apply guards_return | apply guards_error
  | apply guards_when | apply guards_bind; [|intros ?]
  | match goal with
    | |- guards (if ?b then _ else _) => destruct b
    | |- guards (match ?x with _ => _ end) => destruct x
    end ].

Lemma guards_ealloc n : guards (ealloc cb n).
Proof using HP.
  intros s Hs. unfold ealloc. apply cwlp_bind, cwlp_get. destruct (ev_alloc cb (e_env s).1 n) as [u b] eqn:E.
  apply cwlp_bind, cwlp_mod, cwlp_ret. by apply (ek_alloc HP _ _ _ _ E).
Qed.

Lemma guards_queue_msg op msg rsv : guards (wslay_event_queue_msg_ex cb op msg rsv).
Proof using HP. unfold wslay_event_queue_msg_ex. guards_with ltac:(apply guards_ealloc). Qed.
Lemma guards_queue_close code reason : guards (wslay_event_queue_close cb code reason).
Proof using HP. unfold wslay_event_queue_close. guards_with ltac:(apply guards_queue_msg). Qed.
Lemma guards_close_wrapper code reason : guards (wslay_event_queue_close_wrapper cb code reason).
Proof using HP. unfold wslay_event_queue_close_wrapper. guards_with ltac:(apply guards_queue_close). Qed.
Lemma guards_queue_fragmented op src rsv : guards (wslay_event_queue_fragmented_msg_ex cb op src rsv).
Proof using HP. unfold wslay_event_queue_fragmented_msg_ex. guards_with ltac:(apply guards_ealloc). Qed.
Lemma guards_api_steps l : guards (api_steps cb l).
Proof using HP.
  induction l as [|a l IH]; [apply guards_ret|]. cbn [api_steps]. apply guards_bind; [|done].
  destruct a; cbn [api_step]; guards_with ltac:(first [apply guards_queue_msg|apply guards_queue_fragmented|apply guards_queue_close]).
Qed.

Lemma guards_call {A} (f : option (U -> A -> U * list api_call)) a :
  (forall g u u' l, f = Some g -> g u a = (u', l) -> P u -> P u') -> guards (call_back cb f a).
Proof using HP.
  intros Hf. destruct f as [g|]; [|apply guards_ret]. cbn [call_back]. intros s Hs. apply cwlp_bind, cwlp_get.
  destruct (g (e_env s).1 a) as [u l] eqn:E. apply cwlp_bind, cwlp_mod. apply guards_api_steps. cbn [e_env fst]. by apply (Hf g _ _ _ eq_refl E).
Qed.

Ltac guards_tac := guards_with ltac:(first
  [ apply guards_ealloc | apply guards_queue_msg | apply guards_queue_close | apply guards_close_wrapper ]).

(** ** Receiving *)

Lemma guards_utf8 l : guards (utf8_check cb l).
Proof using HP. induction l as [|b l IH]; [apply guards_ret|]. cbn [utf8_check]. guards_with ltac:(first [apply guards_close_wrapper|apply IH]). Qed.
Lemma guards_handle_close msg : guards (handle_close cb msg).
Proof using HP. unfold handle_close, ebreak. guards_tac. Qed.
Lemma guards_finish_msg io : guards (finish_msg cb io).
Proof using HP.
  unfold finish_msg, handle_ping. guards_with ltac:(first [ apply guards_ealloc | apply guards_queue_msg | apply guards_handle_close | apply guards_call; intros ????; by apply (ek_msg HP)]).
Qed.
Lemma guards_end_frame io : guards (end_frame cb io).
Proof using HP.
  unfold end_frame, ebreak. guards_with ltac:(first [ apply guards_close_wrapper | apply guards_finish_msg | apply guards_call ]).
  intros g u u' l Hg E. destruct (on_frame_recv_end cb) as [f|] eqn:Ef; [|done]. injection Hg as <-. by apply (ek_end HP _ _ _ _ Ef E).
Qed.
Lemma guards_handle_iocb io : guards (handle_iocb cb io).
Proof using HP.
  unfold handle_iocb, select_imsg, start_frame, validate_chunk, store_chunk, ebreak.
  guards_with ltac:(first [ apply guards_ealloc | apply guards_close_wrapper | apply guards_utf8 | apply guards_end_frame
    | apply guards_call; intros ????; first [by apply (ek_start HP)|by apply (ek_chunk HP)] ]).
Qed.
Lemma guards_call_frame_recv : guards (call_frame_recv cb).
Proof using HP.
  intros s Hs. unfold call_frame_recv. apply cwlp_bind, cwlp_get, cwlp_bind, cwlp_lift. intros [[env fi] res] E.
  apply cwlp_bind, cwlp_mod, cwlp_ret. cbn [e_env].
  refine (frame_recv_env (frame_cb cb) (fun u => P u.1) _ (e_env s, fctx_in (e_ctx s)) Hs _ _ E).
  intros [u e] n u' l Ec Hu. cbn in Ec. destruct (ev_recv cb u n) as [[u1 l1] e1] eqn:Er. injection Ec as <- <-. by apply (ek_recv HP _ _ _ _ _ Er).
Qed.
Lemma guards_recv fuel : guards (wslay_event_recv cb fuel).
Proof using HP.
  induction fuel as [|fuel IH]; [by intros s Hs s' r E|]. cbn [wslay_event_recv]. unfold recv_iter, handle_recv_error, ebreak.
  guards_with ltac:(first [ apply guards_call_frame_recv | apply guards_handle_iocb | apply guards_close_wrapper | apply IH ]).
Qed.

(** ** Sending *)

Lemma guards_call_frame_send mem io : guards (call_frame_send cb mem io).
Proof using HP.
  intros s Hs. unfold call_frame_send. apply cwlp_bind, cwlp_get, cwlp_bind, cwlp_lift. intros [[[env fo] mem'] res] E.
  apply cwlp_bind, cwlp_mod, cwlp_ret. cbn [e_env].
  refine (frame_send_kept (frame_cb cb) (fun u => P u.1) _ _ _ _ _ _ _ _ _ _ E Hs).
  - intros [u e] d u' r Ec Hu. cbn in Ec. destruct (ev_send cb u d) as [[u1 r1] e1] eqn:Er. injection Ec as <- <-. by apply (ek_send HP _ _ _ _ _ Er).
  - intros [u e] u' k Ec Hu. cbn in Ec. destruct (ev_genmask cb u) as [u1 k1] eqn:Er. injection Ec as <- <-. by apply (ek_mask HP _ _ _ Er).
Qed.
Lemma guards_refill o : guards (refill_obuf cb o).
Proof using HP.
  unfold refill_obuf. apply guards_bind; [apply guards_eget|intros c]. destruct (_ && _); [|apply guards_ret].
  intros s Hs. apply cwlp_bind, cwlp_get. destruct (ev_read cb (e_env s).1 (o_source o) _) as [[[[u src] r] data] eof] eqn:E.
  apply cwlp_bind, cwlp_lift. intros mem _. apply cwlp_bind, cwlp_mod.
  assert (guards (A := omsg) (_ ← cwhen ((r =? 0) && negb eof) ebreak;
    _ ← cwhen (r <? 0) (_ ← emod wslay_event_shutdown_write; creturn WSLAY_ERR_CALLBACK_FAILURE);
    let o := if eof then {| {| o with o_source := src |} with o_fin := 1 |} else {| o with o_source := src |} in
    _ ← emod (fun c => {| c with obuflimit := WSLAY_FRAME_HDR_SIZ + r; c_omsg := Some o; e_opayloadlen := r; e_opayloadoff := 0 |});
    mret o)) as Hg by (unfold ebreak; cbv zeta; guards_tac).
  apply Hg. cbn [e_env fst]. by apply (ek_read HP _ _ _ _ _ _ _ _ E).
Qed.
Lemma guards_select_omsg : guards select_omsg.
Proof. unfold select_omsg, ebreak. guards_with fail. Qed.
Lemma guards_send fuel : guards (wslay_event_send cb fuel).
Proof using HP.
  induction fuel as [|fuel IH]; [by intros s Hs s' r E|]. cbn [wslay_event_send].
  unfold send_iter, send_non_fragmented, send_fragmented, non_fragmented_done, handle_send_error, ebreak.
  guards_with ltac:(first [ apply guards_select_omsg | apply guards_call_frame_send | apply guards_refill | apply IH ]).
Qed.
End Env.
