(* ===== verification/Codec.v ===== *)
(** * Codec: percent-encoding and backslash unescaping of [src/src/utils/iwn_codec.c]

    Strings are lists of bytes; output buffers are lists written through the bounds-checked
    [wr], so that a result [Some _] means that no access left its object. *)
From S2P Require Import Prelude.

(** ** Characters *)

Definition inr_b (lo hi c : Z) : bool := (lo <=? c) && (c <=? hi).

Definition is_unreserved (c : Z) : bool :=
  inr_b 48 57 c || inr_b 97 122 c || inr_b 65 90 c || (c =? 45) || (c =? 46) || (c =? 95) || (c =? 126).

(** [hex[]] *)
Definition hex_digit (d : Z) : Z := if d <? 10 then 48 + d else 55 + d.

(** The three characters written for a reserved byte. *)
Definition escape_seq (c : Z) : list Z :=
  [37; hex_digit (Z.land (Z.shiftr c 4) 15); hex_digit (Z.land c 15)].

(** ** Encoding *)

(** [++i] of the loops' [int i]; an overflow is undefined behaviour. *)
Definition int_inc (i : Z) : option Z := if i <? 2147483647 then Some (i + 1) else None.

(** The loops of the two length functions; [width c] is what [c] adds to [res]. *)
Fixpoint encoded_len_loop (width : Z -> Z) (src : list Z) (i res : Z) : option Z :=
  match src with
  | [] => Some res
  | c :: src' => i' ← int_inc i; encoded_len_loop width src' i' (res + width c)
  end.
Definition iwn_url_encoded_len (src : list Z) : option Z := encoded_len_loop (fun c => if is_unreserved c then 1 else 3) src 0 0.
Definition iwn_url_encoded_aws_len (src : list Z) : option Z :=
  encoded_len_loop (fun c => if is_unreserved c then 1 else if c =? 61 then 5 else 3) src 0 0.

(** [out[n++] = ...] for each byte of [l]. *)
Fixpoint put (out : list Z) (n : Z) (l : list Z) : option (list Z) :=
  match l with
  | [] => Some out
  | b :: l' => out' ← wr out n b; put out' (n + 1) l'
  end.

(** The loop: [seq c] is what is written for a reserved [c]; the result is [out] and [n]. *)
Fixpoint encode_loop (seq : Z -> list Z) (src : list Z) (i : Z) (out : list Z) (n : Z) : option (list Z * Z) :=
  match src with
  | [] => Some (out, n)
  | c :: src' =>
      if zlen out <=? n then Some (out, n)
      else if is_unreserved c then
        out' ← put out n [c]; i' ← int_inc i; encode_loop seq src' i' out' (n + 1)
      else
        let k := zlen (seq c) in
        if zlen out <=? n + (k - 1) then Some (out, n)
        else out' ← put out n (seq c); i' ← int_inc i; encode_loop seq src' i' out' (n + k)
  end.

(** The terminator. *)
Definition encode_finish (r : list Z * Z) : option (list Z * Z) :=
  let '(out, n) := r in
  if n <? zlen out then out' ← wr out n 0; Some (out', n)
  else if 0 <? zlen out then out' ← wr out (zlen out - 1) 0; Some (out', n)
  else Some (out, n).

(** [iwn_url_encode(src, src_len, out, out_size)]: the filled buffer and the returned length. *)
Definition iwn_url_encode (src out : list Z) : option (list Z * Z) :=
  r ← encode_loop escape_seq src 0 out 0; encode_finish r.

(** The AWS variant writes [%253D] for ['=']. *)
Definition escape_aws (c : Z) : list Z := if c =? 61 then [37; 50; 53; 51; 68] else escape_seq c.
Definition iwn_url_encode_aws (src out : list Z) : option (list Z * Z) :=
  r ← encode_loop escape_aws src 0 out 0; encode_finish r.

(** [malloc n] is a block of [n] bytes, or nothing.  The result [Some None] is the null pointer the function returns without memory. *)
Definition iwn_url_encode_new (malloc : Z -> option (list Z)) (src : list Z) : option (option (list Z)) :=
  len ← iwn_url_encoded_len src;
  match malloc (len + 1) with
  | None => Some None
  | Some ret => r ← iwn_url_encode src ret; Some (Some r.1)
  end.

(** [iwn_url_encode_printf_va(fmt, va)]: [fmt] is the memory of the format string, [wp] what [vsnprintf] produces, if it succeeds;
    a long text goes into a block of its own. The source passes [fmt], not [wp], together with the length of [wp]. *)
Definition iwn_url_encode_printf_va (malloc : Z -> option (list Z)) (fmt : list Z) (wp : option (list Z)) : option (option (list Z)) :=
  match wp with
  | None => Some None
  | Some wp =>
      let size := zlen wp in
      if (1024 <=? size) && bool_decide (malloc (size + 1) = None) then Some None
      else if zlen fmt <? size then None
      else iwn_url_encode_new malloc (take (Z.to_nat size) fmt)
  end.

(** ** Decoding *)

Definition hex_value (c : Z) : option Z :=
  if inr_b 48 57 c then Some (c - 48)
  else if inr_b 97 102 c then Some (c - 87)
  else if inr_b 65 70 c then Some (c - 55)
  else None.

Fixpoint strtol_digits (s : list Z) (acc : Z) : Z :=
  match s with
  | [] => acc
  | c :: s' => match hex_value c with Some d => strtol_digits s' (acc * 16 + d) | None => acc end
  end.

Definition isspace (c : Z) : bool := (c =? 32) || inr_b 9 13 c.
Fixpoint skip_spaces (s : list Z) : list Z :=
  match s with [] => [] | c :: s' => if isspace c then skip_spaces s' else s end.

(** [strtol(s, 0, 16)] of the C library: blanks, a sign, an optional [0x] in front of a digit. *)
Definition strtol16 (s : list Z) : Z :=
  let s := skip_spaces s in
  let '(sign, s) := match s with
                    | 45 :: s' => (-1, s')
                    | 43 :: s' => (1, s')
                    | _ => (1, s)
                    end in
  sign * match s with
         | 48 :: x :: d :: s' =>
             if ((x =? 120) || (x =? 88)) && bool_decide (is_Some (hex_value d)) then strtol_digits (d :: s') 0
             else strtol_digits s 0
         | _ => strtol_digits s 0
         end.

(** One step of the decoding loop at [rp]: the byte to write and the new [rp]. *)
Definition decode_step (buf : list Z) (rp : Z) : option (Z * Z) :=
  c ← rd buf rp;
  if c =? 37 then
    t0 ← rd buf (rp + 1);
    t1 ← rd buf (rp + 2);
    (* [tmp] is a C string: a NUL ends it *)
    let tmp := if t0 =? 0 then [] else if t1 =? 0 then [t0] else [t0; t1] in
    Some (u8 (strtol16 tmp), rp + 3)
  else if c =? 43 then Some (32, rp + 1)
  else Some (c, rp + 1).

(** [iwn_url_decode_inplace2(sp, ep)]: [ep] is an offset; the result is the buffer and the
    value returned, which is the read position. [None]: an access outside of the buffer, or
    the fuel is exhausted. *)
Fixpoint decode2_loop (fuel : nat) (buf : list Z) (rp wp ep : Z) : option (list Z * Z) :=
  if ep <=? rp then Some (buf, rp) else
  match fuel with
  | O => None
  | S fuel' =>
      '(b, rp') ← decode_step buf rp;
      buf' ← wr buf wp b;
      decode2_loop fuel' buf' rp' (wp + 1) ep
  end.
Definition iwn_url_decode_inplace2 (buf : list Z) (ep : Z) : option (list Z * Z) :=
  decode2_loop (Z.to_nat ep) buf 0 0 ep.

(** [iwn_url_decode_inplace(str)] on a NUL-terminated string. *)
Fixpoint decode_loop (fuel : nat) (buf : list Z) (rp wp : Z) : option (list Z) :=
  c ← rd buf rp;
  if c =? 0 then wr buf wp 0 else
  match fuel with
  | O => None
  | S fuel' =>
      '(b, rp') ← decode_step buf rp;
      buf' ← wr buf wp b;
      decode_loop fuel' buf' rp' (wp + 1)
  end.
Definition iwn_url_decode_inplace (buf : list Z) : option (list Z) := decode_loop (length buf) buf 0 0.

(** ** Backslashes *)

(** [iwn_unescape_backslashes_inplace(str, str_len)] for [str_len >= 0]; the result is the buffer
    and the new length. *)
Fixpoint unescape_loop (fuel : nat) (buf : list Z) (rp wp len : Z) : option (list Z * Z) :=
  if len <=? rp then Some (buf, wp) else
  c ← rd buf rp;
  if c =? 0 then Some (buf, wp) else
  match fuel with
  | O => None
  | S fuel' =>
      if c =? 92 then
        if len <=? rp + 1 then Some (buf, wp) else
        c' ← rd buf (rp + 1);
        if c' =? 0 then Some (buf, wp)
        else buf' ← wr buf wp c'; unescape_loop fuel' buf' (rp + 2) (wp + 1) len
      else buf' ← wr buf wp c; unescape_loop fuel' buf' (rp + 1) (wp + 1) len
  end.
Definition iwn_unescape_backslashes_inplace (buf : list Z) (len : Z) : option (list Z * Z) :=
  unescape_loop (Z.to_nat len) buf 0 0 len.

(** ** Reference *)

Definition pct (seq : Z -> list Z) (c : Z) : list Z := if is_unreserved c then [c] else seq c.
Definition pct_encode (src : list Z) : list Z := src ≫= pct escape_seq.
Definition pct_encode_aws (src : list Z) : list Z := src ≫= pct escape_aws.

Lemma encoded_len_loop_spec width seq src i res :
  (forall c, width c = zlen (pct seq c)) -> i + zlen src <= 2147483647 ->
  encoded_len_loop width src i res = Some (res + zlen (src ≫= pct seq)).
Proof.
  intros Hw. revert i res. induction src as [|c src IH]; intros i res Hi; csimpl; [by rewrite zlen_nil, Z.add_0_r|].
  rewrite zlen_cons in Hi. pose proof (zlen_nonneg src). unfold int_inc. destruct (Z.ltb_spec i 2147483647); [|lia]. csimpl.
  rewrite IH, Hw, zlen_app by lia. f_equal. lia.
Qed.
Lemma encoded_len_spec src : zlen src <= 2147483647 -> iwn_url_encoded_len src = Some (zlen (pct_encode src)).
Proof. intros Hl. apply (encoded_len_loop_spec _ escape_seq); [|done]. intros c. unfold pct. by destruct (is_unreserved c). Qed.
Lemma encoded_aws_len_spec src : zlen src <= 2147483647 -> iwn_url_encoded_aws_len src = Some (zlen (pct_encode_aws src)).
Proof.
  intros Hl. apply (encoded_len_loop_spec _ escape_aws); [|done]. intros c. unfold pct, escape_aws.
  destruct (is_unreserved c); [done|]. by destruct (c =? 61).
Qed.

(** ** Encoding: bounds and contents *)

Lemma wr_app pre x post v : wr (pre ++ x :: post) (zlen pre) v = Some (pre ++ v :: post).
Proof.
  unfold wr. rewrite zlen_app, zlen_cons. pose proof (zlen_nonneg pre). pose proof (zlen_nonneg post).
  destruct (Z.ltb_spec (zlen pre) 0); [lia|]. destruct (Z.leb_spec (zlen pre + (1 + zlen post)) (zlen pre)); [lia|].
  simpl. f_equal. replace (Z.to_nat (zlen pre)) with (length pre) by (unfold zlen; lia).
  by rewrite insert_app_r_alt, Nat.sub_diag by lia.
Qed.

Lemma put_app pre room post l :
  length room = length l -> put (pre ++ room ++ post) (zlen pre) l = Some (pre ++ l ++ post).
Proof.
  revert pre room. induction l as [|b l IH]; intros pre [|x room] Hl; try done; simpl.
  rewrite wr_app. simpl. replace (zlen pre + 1) with (zlen (pre ++ [b])) by (rewrite zlen_app; done).
  rewrite cons_middle, app_assoc, IH by (simpl in Hl; lia). by rewrite <- app_assoc.
Qed.

(** Splitting room for [n] bytes off. *)
Lemma room_split (l : list Z) n : (n <= length l)%nat -> exists a b, l = a ++ b /\ length a = n.
Proof. intros Hn. exists (take n l), (drop n l). rewrite take_drop, length_take. split; [done|lia]. Qed.

(** The loop in one test: stop when the next piece does not fit. *)
Lemma encode_loop_cons seq c src i pre room :
  (0 < length (seq c))%nat -> i < 2147483647 ->
  encode_loop seq (c :: src) i (pre ++ room) (zlen pre) =
    if zlen room <? zlen (pct seq c) then Some (pre ++ room, zlen pre)
    else out' ← put (pre ++ room) (zlen pre) (pct seq c); encode_loop seq src (i + 1) out' (zlen pre + zlen (pct seq c)).
Proof.
  intros Hk Hi. assert (0 < zlen (seq c)) by (unfold zlen; lia). simpl encode_loop. unfold pct. rewrite zlen_app.
  assert (int_inc i = Some (i + 1)) as -> by (unfold int_inc; by rewrite (proj2 (Z.ltb_lt _ _) Hi)). cbn [mbind option_bind].
  pose proof (zlen_nonneg room). destruct (is_unreserved c).
  - change (zlen [c]) with 1.
    destruct (Z.leb_spec (zlen pre + zlen room) (zlen pre)), (Z.ltb_spec (zlen room) 1); try lia; done.
  - destruct (Z.leb_spec (zlen pre + zlen room) (zlen pre)), (Z.ltb_spec (zlen room) (zlen (seq c))); try lia; try done;
    destruct (Z.leb_spec (zlen pre + zlen room) (zlen pre + (zlen (seq c) - 1))); try lia; done.
Qed.

(** From position [zlen pre] on the loop writes the encoding of the longest prefix that fits and nothing else. *)
Lemma encode_loop_spec seq src i pre room :
  (forall c, (0 < length (seq c))%nat) -> i + zlen src <= 2147483647 ->
  exists src1 src2,
    src = src1 ++ src2 /\
    encode_loop seq src i (pre ++ room) (zlen pre) =
      Some (pre ++ (src1 ≫= pct seq) ++ drop (length (src1 ≫= pct seq)) room, zlen pre + zlen (src1 ≫= pct seq)) /\
    zlen (src1 ≫= pct seq) <= zlen room /\
    match src2 with [] => True | c :: _ => zlen room < zlen (src1 ≫= pct seq) + zlen (pct seq c) end.
Proof.
  intros Hseq. revert i pre room. induction src as [|c src IH]; intros i pre room Hi.
  { exists [], []. simpl. rewrite Z.add_0_r. pose proof (zlen_nonneg room). by split_and!. }
  rewrite zlen_cons in Hi. pose proof (zlen_nonneg src).
  rewrite encode_loop_cons by (done || lia). destruct (Z.ltb_spec (zlen room) (zlen (pct seq c))) as [Hs|Hs].
  { exists [], (c :: src). simpl. rewrite Z.add_0_r. pose proof (zlen_nonneg room). by split_and!. }
  destruct (room_split room (length (pct seq c))) as (a & b & -> & Ha); [unfold zlen in *; lia|].
  rewrite put_app by done. simpl. set (w := pct seq c) in *.
  destruct (IH (i + 1) (pre ++ w) b) as (s1 & s2 & -> & E' & Hl & Hfit); [lia|].
  rewrite <- app_assoc, zlen_app in E'. exists (c :: s1), s2. csimpl. fold w.
  split; [done|]. rewrite length_app, drop_app, <- Ha, drop_ge, Nat.add_sub_swap, Nat.sub_diag by lia. simpl.
  split; [rewrite E'; f_equal; f_equal; [by rewrite <- !app_assoc|rewrite !zlen_app; lia]|].
  rewrite !zlen_app in *. unfold zlen in *. split; [lia|]. destruct s2; [done|]. unfold zlen in *. lia.
Qed.

(** A buffer larger than the encoding takes all of it. *)
Lemma url_encode_all src1 src2 seq (out : list Z) :
  zlen ((src1 ++ src2) ≫= pct seq) <= zlen out ->
  match src2 with [] => True | c :: _ => zlen out < zlen (src1 ≫= pct seq) + zlen (pct seq c) end -> src2 = [].
Proof.
  destruct src2 as [|c s2]; [done|]. rewrite bind_app, zlen_app. csimpl. rewrite zlen_app. pose proof (zlen_nonneg (s2 ≫= pct seq)). lia.
Qed.

(** The terminator stands behind the text, or over its last byte when the text fills the buffer. *)
Lemma encode_finish_room l x room : encode_finish (l ++ x :: room, zlen l) = Some (l ++ 0 :: room, zlen l).
Proof.
  unfold encode_finish. rewrite zlen_app, zlen_cons. pose proof (zlen_nonneg room).
  destruct (Z.ltb_spec (zlen l) (zlen l + (1 + zlen room))); [|lia]. by rewrite wr_app.
Qed.
Lemma encode_finish_full l : encode_finish (l, zlen l) = Some (match l with [] => [] | _ => removelast l ++ [0] end, zlen l).
Proof.
  unfold encode_finish. rewrite Z.ltb_irrefl. destruct l as [|y l _] using rev_ind; [done|]. rewrite removelast_last.
  assert (0 < zlen (l ++ [y])) as Hp by (rewrite zlen_app; change (zlen [y]) with 1; pose proof (zlen_nonneg l); lia).
  rewrite (proj2 (Z.ltb_lt _ _) Hp).
  replace (zlen (l ++ [y]) - 1) with (zlen l) by (rewrite zlen_app; change (zlen [y]) with 1; lia).
  rewrite wr_app. simpl. by destruct l.
Qed.

Lemma escape_seq_pos c : (0 < length (escape_seq c))%nat.
Proof. simpl. lia. Qed.
Lemma escape_aws_pos c : (0 < length (escape_aws c))%nat.
Proof. unfold escape_aws. destruct (c =? 61); simpl; lia. Qed.

(** ** Decoding what was encoded *)

Lemma rd_app_0 pre x post : rd (pre ++ x :: post) (zlen pre) = Some x.
Proof. rewrite rd_app_r by lia. by rewrite Z.sub_diag. Qed.

(** The escape sequence of a byte reads back as the byte, and its digits are not NUL. *)
Definition escape_roundtrip (c : Z) : bool :=
  match escape_seq c with
  | [p; t0; t1] => (p =? 37) && negb (t0 =? 0) && negb (t1 =? 0) && (u8 (strtol16 [t0; t1]) =? c)
  | _ => false
  end.
Lemma escape_roundtrip_all c : byte_ok c -> escape_roundtrip c = true.
Proof. apply all_bytes_spec. vm_compute. reflexivity. Qed.

Lemma unreserved_plain c : is_unreserved c = true -> c <> 0 /\ c <> 37 /\ c <> 43.
Proof. unfold is_unreserved, inr_b. intros H. split_and!; intros ->; vm_compute in H; discriminate. Qed.

(** Texts and the bytes they stand for: a byte stands for itself, a plus sign for a space, and every byte
    may be written as an escape sequence. *)
Inductive piece : list Z -> Z -> Prop :=
| piece_raw c : c <> 0 -> c <> 37 -> c <> 43 -> piece [c] c
| piece_plus : piece [43] 32
| piece_escape c : byte_ok c -> piece (escape_seq c) c.

Inductive coded : list Z -> list Z -> Prop :=
| coded_nil : coded [] []
| coded_cons w c e p : piece w c -> coded e p -> coded (w ++ e) (c :: p).

(** One step consumes the encoding of one byte. *)
Lemma decode_step_piece pre w c post : piece w c -> decode_step (pre ++ w ++ post) (zlen pre) = Some (c, zlen pre + zlen w).
Proof.
  intros Hp. unfold decode_step. destruct Hp as [c Hc0 H1 H2| |c Hc].
  - simpl. rewrite rd_app_0. simpl. rewrite (proj2 (Z.eqb_neq c 37) H1), (proj2 (Z.eqb_neq c 43) H2). done.
  - simpl. rewrite rd_app_0. done.
  - pose proof (escape_roundtrip_all c Hc) as Hr. unfold escape_roundtrip in Hr.
    destruct (escape_seq c) as [|p [|t0 [|t1 [|]]]]; try done.
    rewrite !andb_true_iff in Hr. destruct Hr as [[[Hp H0] H1] Hv].
    apply Z.eqb_eq in Hp, Hv. apply negb_true_iff in H0, H1. subst p. simpl.
    rewrite rd_app_0. simpl.
    replace (zlen pre + 1) with (zlen (pre ++ [37])) by (rewrite zlen_app; done).
    replace (zlen pre + 2) with (zlen (pre ++ [37; t0])) by (rewrite zlen_app; done).
    replace (pre ++ 37 :: t0 :: t1 :: post) with ((pre ++ [37]) ++ t0 :: t1 :: post) at 1 by (by rewrite <- app_assoc).
    rewrite rd_app_0. simpl.
    replace (pre ++ 37 :: t0 :: t1 :: post) with ((pre ++ [37; t0]) ++ t1 :: post) by (by rewrite <- app_assoc).
    rewrite rd_app_0. simpl. rewrite H0, H1, Hv. done.
Qed.

Lemma piece_head w c : piece w c -> exists x l, w = x :: l /\ x <> 0.
Proof. by destruct 1; eexists _, _. Qed.

Lemma piece_pct c : byte_ok c -> piece (pct escape_seq c) c.
Proof. intros Hc. unfold pct. destruct (is_unreserved c) eqn:Eu; [|by constructor]. destruct (unreserved_plain c Eu) as (? & ? & ?). by constructor. Qed.

Lemma coded_pct src : bytes_ok src -> coded (pct_encode src) src.
Proof. induction 1 as [|c src Hc _ IH]; [constructor|]. unfold pct_encode. csimpl. constructor; [by apply piece_pct|done]. Qed.

Lemma coded_longer e p : coded e p -> (length p <= length e)%nat.
Proof. induction 1 as [|w c e p Hw _ IH]; [done|]. rewrite length_app. destruct (piece_head w c Hw) as (x & l & -> & _). simpl. lia. Qed.

(** Writing the decoded byte over the bytes already read. *)
Lemma overwrite done gap w tail b :
  w <> [] -> exists gap', wr (done ++ gap ++ w ++ tail) (zlen done) b = Some ((done ++ [b]) ++ gap' ++ tail) /\
    zlen gap' + 1 = zlen gap + zlen w.
Proof.
  intros Hw. destruct (gap ++ w) as [|x g] eqn:E.
  - apply app_nil in E as [_ ?]. done.
  - exists g. rewrite (app_assoc gap), E. simpl. rewrite wr_app. split; [by rewrite <- app_assoc|].
    rewrite <- zlen_app, E, zlen_cons. lia.
Qed.

Lemma decode_loop_coded e src : coded e src -> forall fuel dn gap rest, (length src <= fuel)%nat ->
  exists g, decode_loop fuel (dn ++ gap ++ e ++ 0 :: rest) (zlen dn + zlen gap) (zlen dn)
    = Some (dn ++ src ++ 0 :: g ++ rest) /\ zlen src + zlen g = zlen gap + zlen e.
Proof.
  induction 1 as [|w c e src Hw _ IH]; intros fuel dn gap rest Hf.
  - assert (rd (dn ++ gap ++ 0 :: rest) (zlen dn + zlen gap) = Some 0) as Hrd
      by (rewrite <- zlen_app, app_assoc; apply rd_app_0).
    destruct (overwrite dn gap [0] rest 0) as (g & E & Hg); [done|]. simpl in E.
    exists g. change (zlen [0]) with 1 in Hg. split; [destruct fuel; simpl; rewrite Hrd; simpl; rewrite E, <- app_assoc; done|].
    rewrite !zlen_nil. lia.
  - destruct fuel as [|fuel]; [simpl in Hf; lia|]. destruct (piece_head w c Hw) as (x & l & Ex & Hx). rewrite <- (app_assoc w).
    assert (decode_step (dn ++ gap ++ w ++ e ++ 0 :: rest) (zlen dn + zlen gap) =
      Some (c, zlen dn + zlen gap + zlen w)) as Hst.
    { rewrite <- zlen_app, app_assoc. by apply decode_step_piece. }
    destruct (overwrite dn gap w (e ++ 0 :: rest) c) as (g & E & Hg); [by rewrite Ex|].
    destruct (IH fuel (dn ++ [c]) g rest) as (g' & E' & Hg'); [simpl in Hf; lia|].
    exists g'. simpl decode_loop.
    assert (rd (dn ++ gap ++ w ++ e ++ 0 :: rest) (zlen dn + zlen gap) = Some x) as Hrd.
    { rewrite <- zlen_app, app_assoc, Ex. simpl. apply rd_app_0. }
    rewrite Hrd. simpl. rewrite (proj2 (Z.eqb_neq x 0) Hx), Hst. simpl. rewrite E. simpl.
    replace (zlen dn + zlen gap + zlen w) with (zlen (dn ++ [c]) + zlen g)
      by (rewrite zlen_app; change (zlen [c]) with 1; lia).
    replace (zlen dn + 1) with (zlen (dn ++ [c])) by (rewrite zlen_app; done).
    rewrite E'. split; [by rewrite <- app_assoc|]. rewrite zlen_cons, zlen_app. lia.
Qed.

Lemma decode_loop_spec fuel src dn gap rest :
  bytes_ok src -> (length src <= fuel)%nat ->
  exists g, decode_loop fuel (dn ++ gap ++ pct_encode src ++ 0 :: rest) (zlen dn + zlen gap) (zlen dn)
    = Some (dn ++ src ++ 0 :: g ++ rest) /\ zlen src + zlen g = zlen gap + zlen (pct_encode src).
Proof. intros Hb. by apply decode_loop_coded, coded_pct. Qed.

Lemma decode2_loop_spec fuel src dn gap rest ep :
  bytes_ok src -> (length src <= fuel)%nat -> ep = zlen dn + zlen gap + zlen (pct_encode src) ->
  exists rest', decode2_loop fuel (dn ++ gap ++ pct_encode src ++ rest) (zlen dn + zlen gap) (zlen dn) ep
    = Some (dn ++ src ++ rest', ep).
Proof.
  intros Hb. revert fuel dn gap. induction Hb as [|c src Hc Hb IH]; intros fuel dn gap Hf Hep.
  - exists (gap ++ rest). change (zlen (pct_encode [])) with 0 in Hep.
    destruct fuel; simpl; (destruct (Z.leb_spec ep (zlen dn + zlen gap)); [|lia]); do 2 f_equal; lia.
  - destruct fuel as [|fuel]; [simpl in Hf; lia|]. unfold pct_encode in Hep |- *. csimpl in Hep. csimpl.
    destruct (piece_head _ _ (piece_pct c Hc)) as (x & l & Ex & Hx). set (w := pct escape_seq c) in *.
    change (src ≫= pct escape_seq) with (pct_encode src) in *. rewrite <- (app_assoc w).
    rewrite zlen_app in Hep. pose proof (zlen_nonneg (pct_encode src)).
    assert (0 < zlen w) by (rewrite Ex, zlen_cons; pose proof (zlen_nonneg l); lia).
    assert (decode_step (dn ++ gap ++ w ++ pct_encode src ++ rest) (zlen dn + zlen gap) =
      Some (c, zlen dn + zlen gap + zlen w)) as Hst.
    { rewrite <- zlen_app, app_assoc. by apply decode_step_piece, piece_pct. }
    destruct (overwrite dn gap w (pct_encode src ++ rest) c) as (g & E & Hg); [by rewrite Ex|].
    destruct (IH fuel (dn ++ [c]) g) as (rest' & E'); [simpl in Hf; lia|rewrite zlen_app; change (zlen [c]) with 1; lia|].
    exists rest'. simpl decode2_loop. destruct (Z.leb_spec ep (zlen dn + zlen gap)); [lia|].
    rewrite Hst. simpl. rewrite E. simpl.
    replace (zlen dn + zlen gap + zlen w) with (zlen (dn ++ [c]) + zlen g)
      by (rewrite zlen_app; change (zlen [c]) with 1; lia).
    replace (zlen dn + 1) with (zlen (dn ++ [c])) by (rewrite zlen_app; done).
    rewrite E'. by rewrite <- app_assoc.
Qed.

Lemma pct_encode_longer src : (length src <= length (pct_encode src))%nat.
Proof.
  unfold pct_encode. induction src as [|c src IH]; csimpl; [done|]. rewrite length_app.
  assert (0 < length (pct escape_seq c))%nat by (unfold pct; destruct (is_unreserved c); simpl; lia). lia.
Qed.

(** ** The properties *)

(** C40. For a source of at most 2^31 - 1 bytes, which [int i] can count, and a buffer of any size [iwn_url_encode] never writes outside
    of the buffer and returns the length of the percent-encoding (RFC 3986) of the longest prefix of the source whose encoding fits.
    With room left the buffer holds this encoding, a NUL, and the bytes that were there before; when the encoding fills the buffer, its
    last byte is replaced by the NUL. *)
Theorem url_encode_correct src out :
  zlen src <= 2147483647 ->
  exists src1 src2, src = src1 ++ src2 /\ zlen (pct_encode src1) <= zlen out /\
    match src2 with [] => True | c :: _ => zlen out < zlen (pct_encode (src1 ++ [c])) end /\
    iwn_url_encode src out =
      Some (if zlen (pct_encode src1) <? zlen out then pct_encode src1 ++ 0 :: drop (S (length (pct_encode src1))) out
            else if zlen out =? 0 then [] else removelast (pct_encode src1) ++ [0],
            zlen (pct_encode src1)).
Proof.
  intros Hi. destruct (encode_loop_spec escape_seq src 0 [] out escape_seq_pos Hi) as (s1 & s2 & -> & E & Hl & Hs).
  exists s1, s2. split; [done|]. split; [done|]. split.
  { destruct s2 as [|c s2]; [done|]. unfold pct_encode. rewrite bind_app, zlen_app. csimpl. by rewrite app_nil_r. }
  unfold iwn_url_encode. simpl in E. change (s1 ≫= pct escape_seq) with (pct_encode s1) in *. change (zlen []) with 0 in E. rewrite ?Z.add_0_l in E.
  rewrite E. cbn [mbind option_bind]. destruct (Z.ltb_spec (zlen (pct_encode s1)) (zlen out)) as [Hlt|Hge].
  - destruct (drop (length (pct_encode s1)) out) as [|x room] eqn:Ed.
    { apply (f_equal length) in Ed. rewrite length_drop in Ed. unfold zlen in *. simpl in Ed. lia. }
    rewrite encode_finish_room. replace (S (length (pct_encode s1))) with (length (pct_encode s1) + 1)%nat by lia.
    by rewrite <- drop_drop, Ed.
  - rewrite drop_ge, app_nil_r, encode_finish_full by (unfold zlen in *; lia). do 2 f_equal.
    replace (zlen out) with (zlen (pct_encode s1)) by lia. by destruct (pct_encode s1).
Qed.

(** A space does not fit behind ["ab"] in four bytes; in a buffer of two bytes the terminator replaces the ["b"]. *)
Lemma url_encode_correct_witness :
  exists src1 src2, bytes_of_string "ab c" = src1 ++ src2 /\ zlen (pct_encode src1) <= 4 /\
    match src2 with [] => True | c :: _ => 4 < zlen (pct_encode (src1 ++ [c])) end /\
    iwn_url_encode (bytes_of_string "ab c") [1; 2; 3; 4] =
      Some (if zlen (pct_encode src1) <? 4 then pct_encode src1 ++ 0 :: drop (S (length (pct_encode src1))) [1; 2; 3; 4]
            else if 4 =? 0 then [] else removelast (pct_encode src1) ++ [0],
            zlen (pct_encode src1)).
Proof. apply (url_encode_correct (bytes_of_string "ab c") [1; 2; 3; 4]). vm_compute. discriminate. Defined.
Example url_encode_stops : iwn_url_encode (bytes_of_string "ab c") [1; 2; 3; 4] = Some ([97; 98; 0; 4], 2) /\
  iwn_url_encode (bytes_of_string "ab c") [1; 2] = Some ([97; 0], 2).
Proof. by split. Qed.

(** C39. Round trip: for a byte string (NUL bytes included) of at most 2^31 - 1 bytes [iwn_url_encode_new] returns the null pointer if
    [malloc] fails, and otherwise a text of which [iwn_url_decode_inplace] restores the string, NUL-terminated, without leaving the
    buffer, whatever the block held before. *)
Theorem url_roundtrip malloc src :
  (forall n b, malloc n = Some b -> zlen b = n) -> bytes_ok src -> zlen src <= 2147483647 ->
  match malloc (zlen (pct_encode src) + 1) with
  | None => iwn_url_encode_new malloc src = Some None
  | Some _ => exists enc rest, iwn_url_encode_new malloc src = Some (Some enc) /\ iwn_url_decode_inplace enc = Some (src ++ 0 :: rest)
  end.
Proof.
  intros Hm Hb Hi. unfold iwn_url_encode_new. rewrite encoded_len_spec by done. csimpl.
  destruct (malloc (zlen (pct_encode src) + 1)) as [room|] eqn:Em; [|done]. apply Hm in Em.
  destruct (encode_loop_spec escape_seq src 0 [] room escape_seq_pos Hi) as (s1 & s2 & Hsrc & E & Hl & Hs).
  assert (s2 = []) as ->. { eapply url_encode_all; [|exact Hs]. rewrite <- Hsrc. change (src ≫= pct escape_seq) with (pct_encode src). lia. }
  rewrite app_nil_r in Hsrc. subst s1. simpl in E. change (src ≫= pct escape_seq) with (pct_encode src) in *.
  change (zlen []) with 0 in E. rewrite ?Z.add_0_l in E. destruct (drop (length (pct_encode src)) room) as [|x r2] eqn:Ed.
  { apply (f_equal length) in Ed. rewrite length_drop in Ed. unfold zlen in *. simpl in Ed. lia. }
  unfold iwn_url_encode. rewrite E. cbn [mbind option_bind]. rewrite encode_finish_room. cbn [mbind option_bind fst].
  pose proof (pct_encode_longer src).
  destruct (decode_loop_spec (length (pct_encode src ++ 0 :: r2)) src [] [] r2 Hb) as (g & E2 & _);
    [rewrite length_app; simpl; lia|].
  exists (pct_encode src ++ 0 :: r2), (g ++ r2). split; [done|]. unfold iwn_url_decode_inplace. exact E2.
Qed.

(** Memory that always succeeds, with arbitrary contents. *)
Definition malloc_ok (n : Z) : option (list Z) := if n <? 0 then None else Some (replicate (Z.to_nat n) 165).
Lemma url_roundtrip_witness :
  exists enc rest, iwn_url_encode_new malloc_ok (bytes_of_string "a b/c%") = Some (Some enc) /\
    iwn_url_decode_inplace enc = Some (bytes_of_string "a b/c%" ++ 0 :: rest).
Proof.
  apply (url_roundtrip malloc_ok (bytes_of_string "a b/c%")); [|repeat constructor; simpl; lia|vm_compute; discriminate].
  intros n b. unfold malloc_ok. destruct (Z.ltb_spec n 0); intros [= <-]. unfold zlen. rewrite length_replicate. lia.
Defined.

(** From the index 2^31 - 1 on the counter overflows. *)
Theorem encode_int_overflow seq c src : is_unreserved c = true -> encode_loop seq (c :: src) 2147483647 [0] 0 = None.
Proof. intros Hu. simpl. by rewrite Hu. Qed.
Lemma encode_int_overflow_witness : encode_loop escape_seq [97; 98] 2147483647 [0] 0 = None.
Proof. by apply (encode_int_overflow escape_seq 97 [98]). Defined.

(** [iwn_url_decode_inplace2] over an encoded range restores the string at the start of the
    buffer, but what it returns is the length of the encoded text, not of the decoded one. *)
Theorem url_decode2_length src rest :
  bytes_ok src ->
  exists rest', iwn_url_decode_inplace2 (pct_encode src ++ rest) (zlen (pct_encode src)) =
    Some (src ++ rest', zlen (pct_encode src)).
Proof.
  intros Hb. apply (decode2_loop_spec _ src [] [] rest _ Hb); [|reflexivity].
  pose proof (pct_encode_longer src). unfold zlen. lia.
Qed.

Lemma url_decode2_length_witness :
  exists rest', iwn_url_decode_inplace2 (pct_encode [32; 65] ++ [7]) 4 = Some ([32; 65] ++ rest', 4).
Proof. apply (url_decode2_length [32; 65] [7]). repeat constructor; lia. Defined.

(** A lone [%] at the end of a string: the decoder reads behind the terminator. *)
Example decode_trailing_percent : iwn_url_decode_inplace [65; 37; 0] = None.
Proof. reflexivity. Qed.

(** [iwn_url_encode_printf_va] encodes the format string, not the formatted text. *)
Theorem url_encode_printf_wrong :
  iwn_url_encode_printf_va malloc_ok (bytes_of_string "q=%s" ++ [0]) (Some (bytes_of_string "q=ab")) =
    Some (Some (bytes_of_string "q%3D%25s" ++ [0])) /\
  iwn_url_encode_new malloc_ok (bytes_of_string "q=ab") = Some (Some (bytes_of_string "q%3Dab" ++ [0])).
Proof. split; reflexivity. Qed.

(** ** Backslashes *)

(** Any escaping: a backslash in front of every backslash and of the characters [esc] chooses. *)
Definition bs_piece (esc : Z -> bool) (c : Z) : list Z := if (c =? 92) || esc c then [92; c] else [c].
Definition bs_escape (esc : Z -> bool) (src : list Z) : list Z := src ≫= bs_piece esc.

Lemma unescape_loop_spec esc fuel src dn gap rest len :
  Forall (fun c => c <> 0) src -> (length src <= fuel)%nat ->
  len = zlen dn + zlen gap + zlen (bs_escape esc src) ->
  exists g, unescape_loop fuel (dn ++ gap ++ bs_escape esc src ++ rest) (zlen dn + zlen gap) (zlen dn) len
    = Some (dn ++ src ++ g ++ rest, zlen dn + zlen src) /\ zlen src + zlen g = zlen gap + zlen (bs_escape esc src).
Proof.
  intros Hb. revert fuel dn gap. induction Hb as [|c src Hc Hb IH]; intros fuel dn gap Hf Hlen.
  - exists gap. change (zlen (bs_escape esc [])) with 0 in Hlen |- *.
    destruct fuel; simpl; (destruct (Z.leb_spec len (zlen dn + zlen gap)); [|lia]);
      rewrite zlen_nil, Z.add_0_r; (split; [done|lia]).
  - destruct fuel as [|fuel]; [simpl in Hf; lia|]. unfold bs_escape in Hlen |- *. csimpl in Hlen. csimpl.
    change (src ≫= bs_piece esc) with (bs_escape esc src) in *. rewrite zlen_app in Hlen.
    pose proof (zlen_nonneg (bs_escape esc src)).
    assert (forall w, w = bs_piece esc c -> w <> [] ->
      exists g, (b ← wr (dn ++ gap ++ w ++ bs_escape esc src ++ rest) (zlen dn) c;
        unescape_loop fuel b (zlen dn + zlen gap + zlen w) (zlen dn + 1) len)
        = Some (dn ++ (c :: src) ++ g ++ rest, zlen dn + zlen (c :: src)) /\
        zlen (c :: src) + zlen g = zlen gap + zlen (w ++ bs_escape esc src)) as Hgo.
    { intros w Ew Hw. rewrite <- Ew in Hlen.
      destruct (overwrite dn gap w (bs_escape esc src ++ rest) c Hw) as (g & E & Hg).
      destruct (IH fuel (dn ++ [c]) g) as (g' & E' & Hg'); [simpl in Hf; lia|rewrite zlen_app; change (zlen [c]) with 1; lia|].
      exists g'. rewrite E. cbn [mbind option_bind].
      replace (zlen dn + zlen gap + zlen w) with (zlen (dn ++ [c]) + zlen g)
        by (rewrite zlen_app; change (zlen [c]) with 1; lia).
      replace (zlen dn + 1) with (zlen (dn ++ [c])) by (rewrite zlen_app; done).
      rewrite E'. split; [f_equal; f_equal; [by rewrite <- app_assoc|rewrite zlen_app, !zlen_cons, zlen_nil; lia]|].
      rewrite zlen_cons, zlen_app. lia. }
    simpl unescape_loop. rewrite <- (app_assoc (bs_piece esc c)).
    destruct (Z.leb_spec len (zlen dn + zlen gap)) as [Hl|_].
    { exfalso. unfold bs_piece in Hlen. destruct (_ || _); rewrite ?zlen_cons, zlen_nil in Hlen; lia. }
    unfold bs_piece in Hgo, Hlen |- *. destruct ((c =? 92) || esc c) eqn:Ee.
    + assert (rd (dn ++ gap ++ [92; c] ++ bs_escape esc src ++ rest) (zlen dn + zlen gap) = Some 92) as ->
        by (rewrite <- zlen_app, app_assoc; apply rd_app_0).
      simpl. change (zlen [92; c]) with 2 in Hlen. destruct (Z.leb_spec len (zlen dn + zlen gap + 1)); [lia|].
      assert (rd (dn ++ gap ++ 92 :: c :: bs_escape esc src ++ rest) (zlen dn + zlen gap + 1) = Some c) as ->.
      { replace (dn ++ gap ++ 92 :: c :: bs_escape esc src ++ rest)
          with ((dn ++ gap ++ [92]) ++ c :: bs_escape esc src ++ rest) by (by rewrite <- !app_assoc).
        replace (zlen dn + zlen gap + 1) with (zlen (dn ++ gap ++ [92])) by (rewrite !zlen_app; change (zlen [92]) with 1; lia).
        apply rd_app_0. }
      simpl. rewrite (proj2 (Z.eqb_neq c 0) Hc). by apply (Hgo [92; c]).
    + assert (rd (dn ++ gap ++ [c] ++ bs_escape esc src ++ rest) (zlen dn + zlen gap) = Some c) as ->
        by (rewrite <- zlen_app, app_assoc; apply rd_app_0).
      apply orb_false_iff in Ee as [Ec _]. simpl. rewrite (proj2 (Z.eqb_neq c 0) Hc), Ec. by apply (Hgo [c]).
Qed.

(** [iwn_unescape_backslashes_inplace] undoes every escaping with backslashes of a string
    without NUL (whatever characters besides the backslash are escaped) and returns its length. *)
Theorem unescape_backslashes_correct esc src rest :
  Forall (fun c => c <> 0) src ->
  exists rest', iwn_unescape_backslashes_inplace (bs_escape esc src ++ rest) (zlen (bs_escape esc src)) =
    Some (src ++ rest', zlen src).
Proof.
  intros Hb. destruct (unescape_loop_spec esc (Z.to_nat (zlen (bs_escape esc src))) src [] [] rest (zlen (bs_escape esc src)) Hb) as (g & E & _); [|reflexivity|].
  2: { exists (g ++ rest). exact E. }
  unfold zlen. rewrite Nat2Z.id. clear Hb. unfold bs_escape. induction src as [|c src IH]; csimpl; [done|].
  rewrite length_app. unfold bs_piece at 1. destruct (_ || _); simpl; lia.
Qed.

(** A quoted file name of a multipart header. *)
Lemma unescape_backslashes_correct_witness :
  exists rest', iwn_unescape_backslashes_inplace ([97; 92; 34; 98; 92; 92] ++ []) 6 = Some ([97; 34; 98; 92] ++ rest', 4).
Proof.
  apply (unescape_backslashes_correct (fun c => c =? 34) [97; 34; 98; 92] []). repeat constructor; lia.
Defined.
