(* ===== verification/Base64.v ===== *)
(** * Base64: the codec of [src/src/utils/iwn_base64.c]

    The constant-time comparisons are modelled on 32-bit words as they are written; the encoder
    and the decoder with their bit accumulators, bounds and variants. *)
From S2P Require Import Prelude.

(** ** Constant-time comparisons: [0xFF] for true *)

Definition EQ (x y : Z) : Z :=
  Z.lxor (Z.land (Z.shiftr (u32 (0 - Z.lxor (u32 x) (u32 y))) 8) 255) 255.
Definition GT (x y : Z) : Z := Z.land (Z.shiftr (u32 (u32 y - u32 x)) 8) 255.
Definition GE (x y : Z) : Z := Z.lxor (GT y x) 255.
Definition LT (x y : Z) : Z := GT y x.
Definition LE (x y : Z) : Z := GE y x.

Definition b64_byte_to_char (x : Z) : Z :=
  Z.lor (Z.lor (Z.lor (Z.lor (Z.land (LT x 26) (u32 (x + 65)))
    (Z.land (Z.land (GE x 26) (LT x 52)) (u32 (x + (97 - 26)))))
    (Z.land (Z.land (GE x 52) (LT x 62)) (u32 (x + (48 - 52)))))
    (Z.land (EQ x 62) 43)) (Z.land (EQ x 63) 47).

Definition b64_byte_to_urlsafe_char (x : Z) : Z :=
  Z.lor (Z.lor (Z.lor (Z.lor (Z.land (LT x 26) (u32 (x + 65)))
    (Z.land (Z.land (GE x 26) (LT x 52)) (u32 (x + (97 - 26)))))
    (Z.land (Z.land (GE x 52) (LT x 62)) (u32 (x + (48 - 52)))))
    (Z.land (EQ x 62) 45)) (Z.land (EQ x 63) 95).

Definition b64_char_to_byte (c : Z) : Z :=
  let x := Z.lor (Z.lor (Z.lor (Z.lor (Z.land (Z.land (GE c 65) (LE c 90)) (u32 (c - 65)))
      (Z.land (Z.land (GE c 97) (LE c 122)) (u32 (c - (97 - 26)))))
      (Z.land (Z.land (GE c 48) (LE c 57)) (u32 (c - (48 - 52)))))
      (Z.land (EQ c 43) 62)) (Z.land (EQ c 47) 63) in
  Z.lor x (Z.land (EQ x 0) (Z.lxor (EQ c 65) 255)).

Definition b64_urlsafe_char_to_byte (c : Z) : Z :=
  let x := Z.lor (Z.lor (Z.lor (Z.lor (Z.land (Z.land (GE c 65) (LE c 90)) (u32 (c - 65)))
      (Z.land (Z.land (GE c 97) (LE c 122)) (u32 (c - (97 - 26)))))
      (Z.land (Z.land (GE c 48) (LE c 57)) (u32 (c - (48 - 52)))))
      (Z.land (EQ c 45) 62)) (Z.land (EQ c 95) 63) in
  Z.lor x (Z.land (EQ x 0) (Z.lxor (EQ c 65) 255)).

(** ** Variants *)

Definition VARIANT_NO_PADDING_MASK : Z := 2.
Definition VARIANT_URLSAFE_MASK : Z := 4.
Definition base64_VARIANT_ORIGINAL : Z := 1.
Definition base64_VARIANT_ORIGINAL_NO_PADDING : Z := 3.
Definition base64_VARIANT_URLSAFE : Z := 5.
Definition base64_VARIANT_URLSAFE_NO_PADDING : Z := 7.

Definition base64_check_variant (variant : Z) : bool :=
  Z.land (u32 variant) (u32 (Z.lnot 6)) =? 1.

Definition base64_ENCODED_LEN (bin_len variant : Z) : Z :=
  let q := bin_len / 3 in
  let r := bin_len - q * 3 in
  q * 4 + Z.land (Z.lor r (Z.shiftr r 1)) 1
          * (4 - Z.land (u32 (Z.lnot (u32 (Z.shiftr (Z.land variant 2) 1 - 1)))) (3 - r)) + 1.

Definition iwn_base64_encoded_len (bin_len variant : Z) : Z :=
  if negb (base64_check_variant variant) then 0 else base64_ENCODED_LEN bin_len variant.

Definition urlsafe (variant : Z) : bool := negb (Z.land (u32 variant) VARIANT_URLSAFE_MASK =? 0).
Definition padded (variant : Z) : bool := Z.land (u32 variant) VARIANT_NO_PADDING_MASK =? 0.
Definition to_char (us : bool) (x : Z) : Z := if us then b64_byte_to_urlsafe_char x else b64_byte_to_char x.
Definition to_byte (us : bool) (c : Z) : Z := if us then b64_urlsafe_char_to_byte c else b64_char_to_byte c.

(** ** Encoding

    [out] are the bytes [b64[0 .. b64_pos)]; a write at [b64_pos >= maxlen] is [None]. *)

Definition emit (maxlen : Z) (out : list Z) (c : Z) : option (list Z) :=
  if zlen out <? maxlen then Some (out ++ [c]) else None.

(** [while (acc_len >= 6) ...]: at most two characters per byte. *)
Fixpoint flush (fuel : nat) (us : bool) (maxlen acc acc_len : Z) (out : list Z) : option (Z * list Z) :=
  if acc_len <? 6 then Some (acc_len, out) else
  match fuel with
  | O => None
  | S fuel' =>
      let acc_len := acc_len - 6 in
      out ← emit maxlen out (to_char us (Z.land (Z.shiftr acc acc_len) 63));
      flush fuel' us maxlen acc acc_len out
  end.

Fixpoint encode_bytes (us : bool) (maxlen : Z) (bin : list Z) (acc acc_len : Z) (out : list Z)
  : option (Z * Z * list Z) :=
  match bin with
  | [] => Some (acc, acc_len, out)
  | b :: bin' =>
      let acc := u32 (u32 (Z.shiftl acc 8) + b) in
      r ← flush 2 us maxlen acc (acc_len + 8) out;
      encode_bytes us maxlen bin' acc r.1 r.2
  end.

(** [while (b64_pos < b64_len - 1) b64[b64_pos++] = '=';] where [lim] is [b64_len - 1]. *)
Definition pad_to (maxlen lim : Z) (out : list Z) : option (list Z) :=
  if lim <=? zlen out then Some out
  else if maxlen <? lim then None
  else Some (out ++ replicate (Z.to_nat (lim - zlen out)) 61).

(** [b64[b64_len - 1] = 0] *)
Definition terminate (maxlen lim : Z) (out : list Z) : option (list Z) :=
  if lim <? zlen out then wr out lim 0
  else if maxlen <=? lim then None
  else Some (out ++ [0]).

(** [iwn_base64_encode]: [None] is an access outside of the buffer of [maxlen] bytes; the value
    is what is in the buffer, or [None] when the source returns 0. *)
Definition iwn_base64_encode (maxlen : Z) (bin : list Z) (variant : Z) : option (option (list Z)) :=
  let b64_len := iwn_base64_encoded_len (zlen bin) variant in
  if maxlen <? b64_len then Some None else
  let us := urlsafe variant in
  '(acc, acc_len, out) ← encode_bytes us maxlen bin 0 0 [];
  out ← (if 0 <? acc_len
         then emit maxlen out (to_char us (Z.land (u32 (Z.shiftl acc (6 - acc_len))) 63))
         else Some out);
  let lim := u64 (b64_len - 1) in
  out ← pad_to maxlen lim out;
  out ← terminate maxlen lim out;
  Some (Some out).

Definition iwn_base64_encode_url (buf : list Z) : option (option (list Z)) :=
  iwn_base64_encode (base64_ENCODED_LEN (zlen buf) base64_VARIANT_URLSAFE_NO_PADDING) buf
    base64_VARIANT_URLSAFE_NO_PADDING.

(** ** Decoding *)

(** [strchr(ignore, c) != 0]; the terminator is found too. *)
Definition ignored (ignore : option (list Z)) (c : Z) : bool :=
  match ignore with None => false | Some l => (c =? 0) || bool_decide (c ∈ l) end.

(** The loop: the rest of the input, the accumulator, the output and [ret]. *)
Fixpoint decode_chars (us : bool) (ignore : option (list Z)) (maxlen : Z) (b64 : list Z)
    (acc acc_len : Z) (bin : list Z) : list Z * Z * Z * list Z * Z :=
  match b64 with
  | [] => ([], acc, acc_len, bin, 0)
  | c :: b64' =>
      let d := to_byte us (i8 c) in
      if d =? 255 then
        if ignored ignore c then decode_chars us ignore maxlen b64' acc acc_len bin
        else (b64, acc, acc_len, bin, 0)
      else
        let acc := u32 (u32 (Z.shiftl acc 6) + d) in
        let acc_len := acc_len + 6 in
        if 8 <=? acc_len then
          let acc_len := acc_len - 8 in
          if maxlen <=? zlen bin then (b64, acc, acc_len, bin, -1)
          else decode_chars us ignore maxlen b64' acc acc_len (bin ++ [Z.land (Z.shiftr acc acc_len) 255])
        else decode_chars us ignore maxlen b64' acc acc_len bin
  end.

(** [_base642bin_skip_padding]: the rest of the input and the result. *)
Fixpoint skip_padding (ignore : option (list Z)) (b64 : list Z) (padding_len : Z) : list Z * Z :=
  if padding_len <=? 0 then (b64, 0) else
  match b64 with
  | [] => ([], -1)
  | c :: b64' =>
      if c =? 61 then skip_padding ignore b64' (padding_len - 1)
      else if ignored ignore c then skip_padding ignore b64' padding_len
      else (b64, -1)
  end.

Fixpoint skip_ignored (ignore : option (list Z)) (b64 : list Z) : list Z :=
  match b64 with
  | [] => []
  | c :: b64' => if ignored ignore c then skip_ignored ignore b64' else b64
  end.

(** [iwn_base64_decode]; [want_end] is [b64_end != 0]. The result is the return value, the decoded
    bytes and the input that is left. *)
Definition iwn_base64_decode (maxlen : Z) (b64 : list Z) (ignore : option (list Z)) (want_end : bool) (variant : Z)
  : Z * list Z * list Z :=
  if negb (base64_check_variant variant) then (-1, [], b64) else
  let '(rest, acc, acc_len, bin, ret) := decode_chars (urlsafe variant) ignore maxlen b64 0 0 [] in
  let '(rest, ret) :=
    if (4 <? acc_len) || negb (Z.land acc (u32 (Z.shiftl 1 acc_len - 1)) =? 0) then (rest, -1)
    else if (ret =? 0) && padded variant then skip_padding ignore rest (acc_len / 2)
    else (rest, ret) in
  let '(rest, bin) :=
    if negb (ret =? 0) then (rest, [])
    else if bool_decide (is_Some ignore) then (skip_ignored ignore rest, bin) else (rest, bin) in
  let ret := if want_end then ret else if bool_decide (rest = []) then ret else -1 in
  (ret, bin, rest).

(** ** Reference: the 6-bit digits of RFC 4648 *)

Fixpoint b64_digits (bin : list Z) : list Z :=
  match bin with
  | [] => []
  | [a] => [a / 4; (a mod 4) * 16]
  | [a; b] => [a / 4; (a mod 4) * 16 + b / 16; (b mod 16) * 4]
  | a :: b :: c :: bin' =>
      [a / 4; (a mod 4) * 16 + b / 16; (b mod 16) * 4 + c / 64; c mod 64] ++ b64_digits bin'
  end.

(** Induction by groups of three. *)
Lemma three_ind (P : list Z -> Prop) :
  P [] -> (forall a, P [a]) -> (forall a b, P [a; b]) ->
  (forall a b c l, P l -> P (a :: b :: c :: l)) -> forall l, P l.
Proof.
  intros H0 H1 H2 H3. assert (forall l, P l /\ (forall a, P (a :: l)) /\ (forall a b, P (a :: b :: l))) as H.
  { induction l as [|x l (I0 & I1 & I2)]; [auto|]. auto. }
  intros l. apply H.
Qed.

(** ** The alphabet *)

Definition alphabet_ok (us : bool) : bool :=
  forallb (fun x => (to_byte us (i8 (to_char us x)) =? x) && (0 <=? to_char us x) && (to_char us x <? 128))
    (Z.of_nat <$> seq 0 64).
Lemma alphabet_check : forall us, alphabet_ok us = true.
Proof. intros []; vm_compute; reflexivity. Qed.

Lemma to_byte_char us x : 0 <= x < 64 -> to_byte us (i8 (to_char us x)) = x.
Proof.
  intros Hx. pose proof (alphabet_check us) as H. unfold alphabet_ok in H. rewrite forallb_forall in H.
  specialize (H x). rewrite !andb_true_iff, Z.eqb_eq in H. apply H.
  apply list_elem_of_In, list_elem_of_fmap. exists (Z.to_nat x). split; [lia|]. apply elem_of_seq. lia.
Qed.
Lemma pad_not_digit us : to_byte us (i8 61) = 255.
Proof. by destruct us. Qed.

(** ** The accumulator *)

Lemma low_bits X k m : 0 <= k -> 0 <= m -> k + m <= 32 ->
  Z.land (Z.shiftr (u32 X) k) (Z.ones m) = (X / 2 ^ k) mod 2 ^ m.
Proof.
  intros Hk Hm Hkm. rewrite Z.land_ones by lia. apply Z.bits_inj'. intros n Hn.
  destruct (Z.lt_ge_cases n m).
  - rewrite !Z.mod_pow2_bits_low by lia. rewrite Z.shiftr_spec, <- Z.shiftr_div_pow2, Z.shiftr_spec by lia.
    unfold uwrap. rewrite Z.mod_pow2_bits_low by lia. done.
  - rewrite !Z.mod_pow2_bits_high by lia. done.
Qed.
Lemma acc_push X k b : 0 <= k -> u32 (u32 (Z.shiftl (u32 X) k) + b) = u32 (X * 2 ^ k + b).
Proof.
  intros Hk. unfold uwrap. rewrite Zplus_mod_idemp_l, Z.shiftl_mul_pow2 by lia.
  rewrite <- Zplus_mod_idemp_l, Zmult_mod_idemp_l, Zplus_mod_idemp_l. done.
Qed.

(** ** Encoding computes the digits *)
Section Encode.
Context (us : bool) (maxlen : Z).
Let ch := to_char us.

Lemma emit_ok out c : zlen out < maxlen -> emit maxlen out c = Some (out ++ [c]).
Proof. intros H. unfold emit. destruct (Z.ltb_spec (zlen out) maxlen); [done|lia]. Qed.

Lemma flush1 X acc_len out :
  6 <= acc_len < 12 -> zlen out < maxlen ->
  flush 2 us maxlen (u32 X) acc_len out = Some (acc_len - 6, out ++ [ch ((X / 2 ^ (acc_len - 6)) mod 64)]).
Proof.
  intros Hl Hr. simpl. destruct (Z.ltb_spec acc_len 6); [lia|]. rewrite emit_ok by done. simpl.
  destruct (Z.ltb_spec (acc_len - 6) 6); [|lia]. change 63 with (Z.ones 6). rewrite low_bits by lia. done.
Qed.
Lemma flush2 X out :
  zlen out + 1 < maxlen ->
  flush 2 us maxlen (u32 X) 12 out = Some (0, out ++ [ch ((X / 64) mod 64); ch (X mod 64)]).
Proof.
  intros Hr. simpl. rewrite emit_ok by lia. simpl. rewrite emit_ok by (rewrite zlen_app; change (zlen [_]) with 1; lia).
  simpl. change 63 with (Z.ones 6). rewrite !low_bits by lia. rewrite Z.div_1_r, <- app_assoc. done.
Qed.

Lemma encode_bytes_cons b bin X acc_len out :
  encode_bytes us maxlen (b :: bin) (u32 X) acc_len out =
    r ← flush 2 us maxlen (u32 (X * 256 + b)) (acc_len + 8) out;
    encode_bytes us maxlen bin (u32 (X * 256 + b)) r.1 r.2.
Proof. cbn [encode_bytes]. cbv zeta. by rewrite acc_push by lia. Qed.

Lemma encode_group X a b c bin out :
  byte_ok a -> byte_ok b -> byte_ok c -> zlen out + 4 <= maxlen ->
  encode_bytes us maxlen (a :: b :: c :: bin) (u32 X) 0 out =
    encode_bytes us maxlen bin (u32 (((X * 256 + a) * 256 + b) * 256 + c)) 0
      (out ++ map ch [a / 4; (a mod 4) * 16 + b / 16; (b mod 16) * 4 + c / 64; c mod 64]).
Proof.
  unfold byte_ok. intros Ha Hb Hc Hr. rewrite encode_bytes_cons, flush1 by lia. cbn [mbind option_bind fst snd].
  rewrite encode_bytes_cons, flush1 by (rewrite ?zlen_app; change (zlen [_]) with 1; lia). cbn [mbind option_bind fst snd].
  rewrite encode_bytes_cons. change (0 + 8 - 6 + 8 - 6 + 8) with 12.
  rewrite flush2 by (rewrite !zlen_app, !zlen_cons, !zlen_nil; lia). cbn [mbind option_bind fst snd].
  rewrite <- !app_assoc. simpl. do 2 f_equal.
  f_equal; [f_equal; Z.to_euclidean_division_equations; lia|].
  f_equal; [f_equal; Z.to_euclidean_division_equations; lia|].
  f_equal; [f_equal; Z.to_euclidean_division_equations; lia|].
  f_equal; f_equal; Z.to_euclidean_division_equations; lia.
Qed.
(** The loop and the last partial digit together write the digits. *)
Lemma encode_all X bin out :
  bytes_ok bin -> zlen out + zlen (b64_digits bin) <= maxlen ->
  ('(acc, acc_len, out) ← encode_bytes us maxlen bin (u32 X) 0 out;
   if 0 <? acc_len then emit maxlen out (to_char us (Z.land (u32 (Z.shiftl acc (6 - acc_len))) 63))
   else Some out) = Some (out ++ map ch (b64_digits bin)).
Proof.
  revert X out. induction bin as [|a|a b|a b c l IH] using three_ind; intros X out Hb Hr.
  - simpl. by rewrite app_nil_r.
  - apply Forall_cons in Hb as [Ha _]. unfold byte_ok in Ha. change (zlen (b64_digits [a])) with 2 in Hr.
    rewrite encode_bytes_cons, flush1 by lia. cbn [mbind option_bind fst snd encode_bytes].
    change (0 <? 0 + 8 - 6) with true. cbv iota. rewrite emit_ok by (rewrite zlen_app; change (zlen [_]) with 1; lia).
    change (6 - (0 + 8 - 6)) with 4. rewrite <- (Z.shiftr_0_r (u32 (Z.shiftl _ 4))). change 63 with (Z.ones 6).
    rewrite low_bits, Z.shiftl_mul_pow2 by lia. unfold uwrap.
    rewrite <- app_assoc. simpl. do 2 f_equal. unfold ch.
    f_equal; [f_equal; Z.to_euclidean_division_equations; lia|].
    f_equal; f_equal; Z.to_euclidean_division_equations; lia.
  - apply Forall_cons in Hb as [Ha Hb]. apply Forall_cons in Hb as [Hb _]. unfold byte_ok in *.
    change (zlen (b64_digits [a; b])) with 3 in Hr.
    rewrite encode_bytes_cons, flush1 by lia. cbn [mbind option_bind fst snd].
    rewrite encode_bytes_cons, flush1 by (rewrite ?zlen_app; change (zlen [_]) with 1; lia).
    cbn [mbind option_bind fst snd encode_bytes].
    change (0 <? 0 + 8 - 6 + 8 - 6) with true. cbv iota.
    rewrite emit_ok by (rewrite !zlen_app, !zlen_cons, !zlen_nil; lia).
    change (6 - (0 + 8 - 6 + 8 - 6)) with 2. rewrite <- (Z.shiftr_0_r (u32 (Z.shiftl _ 2))). change 63 with (Z.ones 6).
    rewrite low_bits, Z.shiftl_mul_pow2 by lia. unfold uwrap.
    rewrite <- !app_assoc. simpl. do 2 f_equal. unfold ch.
    f_equal; [f_equal; Z.to_euclidean_division_equations; lia|].
    f_equal; [f_equal; Z.to_euclidean_division_equations; lia|].
    f_equal; f_equal; Z.to_euclidean_division_equations; lia.
  - apply Forall_cons in Hb as [Ha Hb]. apply Forall_cons in Hb as [Hb Hb']. apply Forall_cons in Hb' as [Hc Hl].
    change (b64_digits (a :: b :: c :: l)) with
      ([a / 4; (a mod 4) * 16 + b / 16; (b mod 16) * 4 + c / 64; c mod 64] ++ b64_digits l) in *.
    rewrite zlen_app in Hr. change (zlen [_; _; _; _]) with 4 in Hr. pose proof (zlen_nonneg (b64_digits l)).
    rewrite encode_group by (done || lia). rewrite IH; [|done|].
    + rewrite map_app, <- app_assoc. done.
    + rewrite zlen_app. unfold zlen at 2. rewrite length_map. simpl. lia.
Qed.
End Encode.

(** The padded length announced by [base64_ENCODED_LEN]. *)
Lemma digits_len bin : zlen (b64_digits bin) = (zlen bin / 3) * 4 + (if zlen bin mod 3 =? 0 then 0 else zlen bin mod 3 + 1).
Proof.
  induction bin as [|a|a b|a b c l IH] using three_ind; try reflexivity.
  change (b64_digits (a :: b :: c :: l)) with
      ([a / 4; (a mod 4) * 16 + b / 16; (b mod 16) * 4 + c / 64; c mod 64] ++ b64_digits l).
  rewrite zlen_app, IH. change (zlen [a / 4; _; _; _]) with 4. rewrite !zlen_cons.
  pose proof (zlen_nonneg l). replace (1 + (1 + (1 + zlen l))) with (zlen l + 1 * 3) by lia.
  rewrite Z.div_add, Z.mod_add by lia. destruct (_ =? 0); lia.
Qed.

Inductive variant_ok : Z -> Prop :=
| V1 : variant_ok base64_VARIANT_ORIGINAL | V3 : variant_ok base64_VARIANT_ORIGINAL_NO_PADDING
| V5 : variant_ok base64_VARIANT_URLSAFE | V7 : variant_ok base64_VARIANT_URLSAFE_NO_PADDING.

(** Number of [=] characters. *)
Definition pad_count (variant : Z) (bin : list Z) : Z :=
  if padded variant then (if zlen bin mod 3 =? 0 then 0 else 3 - zlen bin mod 3) else 0.

Lemma encoded_len_exact variant bin :
  variant_ok variant ->
  iwn_base64_encoded_len (zlen bin) variant = zlen (b64_digits bin) + pad_count variant bin + 1.
Proof.
  intros Hv. rewrite digits_len. pose proof (zlen_nonneg bin) as Hn. set (n := zlen bin) in *.
  assert (n - n / 3 * 3 = n mod 3) as Hr by (Z.to_euclidean_division_equations; lia).
  pose proof (Z.mod_pos_bound n 3 ltac:(lia)).
  unfold iwn_base64_encoded_len, pad_count, base64_ENCODED_LEN. fold n. rewrite Hr.
  clear Hr.
  destruct Hv;
    (match goal with |- context [negb ?b] => change (negb b) with false end); cbv iota zeta;
    (match goal with |- context [padded ?v] => let b := eval vm_compute in (padded v) in change (padded v) with b end);
    (assert (n mod 3 = 0 \/ n mod 3 = 1 \/ n mod 3 = 2) as [E|[E|E]] by lia; rewrite E;
     match goal with |- _ + ?k + 1 = _ => let v := eval vm_compute in k in change k with v end;
     simpl; lia).
Qed.

(** The text the encoder produces. *)
Definition b64_text (variant : Z) (bin : list Z) : list Z :=
  map (to_char (urlsafe variant)) (b64_digits bin) ++ replicate (Z.to_nat (pad_count variant bin)) 61.

Lemma b64_text_len variant bin : zlen (b64_text variant bin) = zlen (b64_digits bin) + pad_count variant bin.
Proof.
  assert (0 <= pad_count variant bin).
  { unfold pad_count. destruct (padded variant); [|lia]. pose proof (Z.mod_pos_bound (zlen bin) 3). zcases; lia. }
  unfold b64_text. rewrite zlen_app. unfold zlen at 1 2. rewrite length_map, length_replicate. unfold zlen. lia.
Qed.

Lemma encode_text maxlen bin variant :
  variant_ok variant -> bytes_ok bin -> zlen bin < 2 ^ 61 ->
  iwn_base64_encoded_len (zlen bin) variant <= maxlen ->
  iwn_base64_encode maxlen bin variant = Some (Some (b64_text variant bin ++ [0])).
Proof.
  intros Hv Hb Hsz Hm. pose proof (b64_text_len variant bin) as Hlen. pose proof (encoded_len_exact variant bin Hv) as He.
  assert (0 <= pad_count variant bin).
  { unfold pad_count. destruct (padded variant); [|lia]. pose proof (Z.mod_pos_bound (zlen bin) 3). zcases; lia. }
  pose proof (zlen_nonneg (b64_digits bin)).
  assert (zlen (b64_digits bin) + pad_count variant bin < 2 ^ 64) as H64.
  { rewrite digits_len. pose proof (zlen_nonneg bin). unfold pad_count. destruct (padded variant);
      zcases; Z.to_euclidean_division_equations; lia. }
  unfold iwn_base64_encode. rewrite He in *. destruct (Z.ltb_spec maxlen (zlen (b64_digits bin) + pad_count variant bin + 1)); [lia|].
  pose proof (encode_all (urlsafe variant) maxlen 0 bin [] Hb) as Hall. rewrite zlen_nil in Hall.
  specialize (Hall ltac:(lia)). change (u32 0) with 0 in Hall.
  destruct (encode_bytes (urlsafe variant) maxlen bin 0 0 []) as [[[acc al] out]|] eqn:Eb; [|done].
  cbn [mbind option_bind] in Hall |- *. rewrite Hall. cbn [mbind option_bind app].
  rewrite uwrap_id by lia. set (txt := map (to_char (urlsafe variant)) (b64_digits bin)).
  assert (zlen txt = zlen (b64_digits bin)) as Ht by (unfold txt, zlen; by rewrite length_map).
  unfold pad_to, terminate. rewrite Ht.
  replace (zlen (b64_digits bin) + pad_count variant bin + 1 - 1) with (zlen (b64_digits bin) + pad_count variant bin) by lia.
  assert ((if zlen (b64_digits bin) + pad_count variant bin <=? zlen (b64_digits bin) then Some txt
           else if maxlen <? zlen (b64_digits bin) + pad_count variant bin then None
           else Some (txt ++ replicate (Z.to_nat (zlen (b64_digits bin) + pad_count variant bin - zlen (b64_digits bin))) 61))
          = Some (b64_text variant bin)) as ->.
  { unfold b64_text. fold txt. destruct (Z.leb_spec (zlen (b64_digits bin) + pad_count variant bin) (zlen (b64_digits bin))).
    - replace (pad_count variant bin) with 0 by lia. by rewrite app_nil_r.
    - destruct (Z.ltb_spec maxlen (zlen (b64_digits bin) + pad_count variant bin)); [lia|]. do 4 f_equal. lia. }
  cbn [mbind option_bind]. rewrite Hlen. destruct (Z.ltb_spec (zlen (b64_digits bin) + pad_count variant bin)
    (zlen (b64_digits bin) + pad_count variant bin)); [lia|].
  destruct (Z.leb_spec maxlen (zlen (b64_digits bin) + pad_count variant bin)); [lia|]. done.
Qed.

(** ** Decoding the digits *)
Section Decode.
Context (us : bool) (ignore : option (list Z)) (maxlen : Z).
Let ch := to_char us.

(** One digit. *)
Lemma decode_digit x l X acc_len bin :
  0 <= x < 64 ->
  decode_chars us ignore maxlen (ch x :: l) (u32 X) acc_len bin =
    if 8 <=? acc_len + 6 then
      if maxlen <=? zlen bin then (ch x :: l, u32 (X * 64 + x), acc_len + 6 - 8, bin, -1)
      else decode_chars us ignore maxlen l (u32 (X * 64 + x)) (acc_len + 6 - 8)
             (bin ++ [Z.land (Z.shiftr (u32 (X * 64 + x)) (acc_len + 6 - 8)) 255])
    else decode_chars us ignore maxlen l (u32 (X * 64 + x)) (acc_len + 6) bin.
Proof.
  intros Hx. cbn [decode_chars]. unfold ch. rewrite to_byte_char by done.
  destruct (Z.eqb_spec x 255); [lia|]. cbv zeta. rewrite acc_push by lia. change (2 ^ 6) with 64. done.
Qed.

Lemma byte_of X k : 0 <= k <= 24 -> Z.land (Z.shiftr (u32 X) k) 255 = (X / 2 ^ k) mod 256.
Proof. intros Hk. change 255 with (Z.ones 8). by rewrite low_bits by lia. Qed.

Lemma decode_first x l X bin : 0 <= x < 64 ->
  decode_chars us ignore maxlen (ch x :: l) (u32 X) 0 bin = decode_chars us ignore maxlen l (u32 (X * 64 + x)) 6 bin.
Proof. intros Hx. by rewrite decode_digit. Qed.
Lemma decode_next x l X acc_len bin : 0 <= x < 64 -> 2 <= acc_len <= 6 -> zlen bin < maxlen ->
  decode_chars us ignore maxlen (ch x :: l) (u32 X) acc_len bin =
    decode_chars us ignore maxlen l (u32 (X * 64 + x)) (acc_len - 2)
      (bin ++ [((X * 64 + x) / 2 ^ (acc_len - 2)) mod 256]).
Proof.
  intros Hx Hl Hb. rewrite decode_digit by done. destruct (Z.leb_spec 8 (acc_len + 6)); [|lia].
  destruct (Z.leb_spec maxlen (zlen bin)); [lia|]. replace (acc_len + 6 - 8) with (acc_len - 2) by lia.
  by rewrite byte_of by lia.
Qed.

Lemma group_c X b c : 0 <= b < 256 -> 0 <= c < 256 ->
  (((X * 64 + (b mod 16 * 4 + c / 64)) * 64 + c mod 64) / 1) mod 256 = c.
Proof. intros Hb Hc. rewrite Z.div_1_r. Z.to_euclidean_division_equations; lia. Qed.

(** Accumulator bits left over are zero. *)
Definition tail_bits (bin : list Z) : Z := if zlen bin mod 3 =? 0 then 0 else if zlen bin mod 3 =? 1 then 4 else 2.

Lemma decode_all X bin rest out :
  bytes_ok bin -> zlen out + zlen bin <= maxlen ->
  exists Y, Y mod 2 ^ tail_bits bin = 0 /\
    decode_chars us ignore maxlen (map ch (b64_digits bin) ++ rest) (u32 X) 0 out =
      decode_chars us ignore maxlen rest (u32 Y) (tail_bits bin) (out ++ bin).
Proof.
  revert X out. induction bin as [|a|a b|a b c l IH] using three_ind; intros X out Hb Hr.
  - exists X. rewrite app_nil_r. split; [apply Z.mod_1_r|done].
  - apply Forall_cons in Hb as [Ha _]. unfold byte_ok in Ha. change (zlen [a]) with 1 in Hr.
    exists ((X * 64 + a / 4) * 64 + a mod 4 * 16). change (tail_bits [a]) with 4. split.
    { Z.to_euclidean_division_equations; lia. }
    change (map ch (b64_digits [a]) ++ rest) with (ch (a / 4) :: ch (a mod 4 * 16) :: rest).
    rewrite decode_first by (Z.to_euclidean_division_equations; lia).
    rewrite decode_next by (Z.to_euclidean_division_equations; lia). do 3 f_equal.
    simpl (2 ^ _). Z.to_euclidean_division_equations; lia.
  - apply Forall_cons in Hb as [Ha Hb]. apply Forall_cons in Hb as [Hb _]. unfold byte_ok in *.
    change (zlen [a; b]) with 2 in Hr.
    exists (((X * 64 + a / 4) * 64 + (a mod 4 * 16 + b / 16)) * 64 + b mod 16 * 4). change (tail_bits [a; b]) with 2. split.
    { Z.to_euclidean_division_equations; lia. }
    change (map ch (b64_digits [a; b]) ++ rest) with
      (ch (a / 4) :: ch (a mod 4 * 16 + b / 16) :: ch (b mod 16 * 4) :: rest).
    rewrite decode_first by (Z.to_euclidean_division_equations; lia).
    rewrite decode_next by (Z.to_euclidean_division_equations; lia).
    rewrite decode_next by (rewrite ?zlen_app, ?zlen_cons, ?zlen_nil; Z.to_euclidean_division_equations; lia).
    rewrite <- app_assoc. simpl app. simpl (2 ^ _). do 3 f_equal.
    { Z.to_euclidean_division_equations; lia. }
    f_equal. Z.to_euclidean_division_equations; lia.
  - apply Forall_cons in Hb as [Ha Hb]. apply Forall_cons in Hb as [Hb Hb']. apply Forall_cons in Hb' as [Hc Hl].
    unfold byte_ok in *. rewrite !zlen_cons in Hr. pose proof (zlen_nonneg l).
    assert (tail_bits (a :: b :: c :: l) = tail_bits l) as Et.
    { unfold tail_bits. rewrite !zlen_cons. replace (1 + (1 + (1 + zlen l))) with (zlen l + 1 * 3) by lia.
      by rewrite Z.mod_add by lia. }
    rewrite Et.
    set (X3 := (((X * 64 + a / 4) * 64 + (a mod 4 * 16 + b / 16)) * 64 + (b mod 16 * 4 + c / 64)) * 64 + c mod 64).
    destruct (IH X3 (out ++ [a; b; c])) as (Y & HY & E); [done|rewrite zlen_app, !zlen_cons, zlen_nil; lia|].
    exists Y. split; [done|]. rewrite <- app_assoc in E. simpl (out ++ _) in E. rewrite <- E.
    change (map ch (b64_digits (a :: b :: c :: l)) ++ rest) with
      (ch (a / 4) :: ch (a mod 4 * 16 + b / 16) :: ch (b mod 16 * 4 + c / 64) :: ch (c mod 64) :: map ch (b64_digits l) ++ rest).
    rewrite decode_first by (Z.to_euclidean_division_equations; lia).
    rewrite decode_next by (Z.to_euclidean_division_equations; lia).
    rewrite decode_next by (rewrite ?zlen_app, ?zlen_cons, ?zlen_nil; Z.to_euclidean_division_equations; lia).
    rewrite decode_next by (rewrite ?zlen_app, ?zlen_cons, ?zlen_nil; Z.to_euclidean_division_equations; lia).
    rewrite <- !app_assoc. simpl app. simpl (2 ^ _). fold X3. do 3 f_equal.
    { Z.to_euclidean_division_equations; lia. }
    f_equal; [Z.to_euclidean_division_equations; lia|]. f_equal. apply group_c; lia.
Qed.
End Decode.

Lemma skip_padding_spec n ignore rest : skip_padding ignore (replicate n 61 ++ rest) (Z.of_nat n) = skip_padding ignore rest 0.
Proof.
  induction n as [|n IH]; [done|]. cbn [replicate app skip_padding].
  destruct (Z.leb_spec (Z.of_nat (S n)) 0); [lia|]. rewrite Z.eqb_refl.
  replace (Z.of_nat (S n) - 1) with (Z.of_nat n) by lia. done.
Qed.
Lemma skip_padding_0 ignore rest : skip_padding ignore rest 0 = (rest, 0).
Proof. by destruct rest. Qed.

(** ** The properties *)

(** [iwn_base64_encode] writes the RFC 4648 text of its variant and a terminator, exactly
    [iwn_base64_encoded_len] bytes, and never more than the buffer has; a buffer that is too
    small is refused. *)
Theorem base64_encode_correct maxlen bin variant :
  variant_ok variant -> bytes_ok bin -> zlen bin < 2 ^ 61 ->
  iwn_base64_encode maxlen bin variant =
    Some (if maxlen <? iwn_base64_encoded_len (zlen bin) variant then None
          else Some (b64_text variant bin ++ [0])) /\
  zlen (b64_text variant bin ++ [0]) = iwn_base64_encoded_len (zlen bin) variant.
Proof.
  intros Hv Hb Hs. split.
  - destruct (Z.ltb_spec maxlen (iwn_base64_encoded_len (zlen bin) variant)) as [Hlt|Hge].
    + unfold iwn_base64_encode. by rewrite (proj2 (Z.ltb_lt _ _) Hlt).
    + by apply encode_text.
  - rewrite zlen_app, b64_text_len, encoded_len_exact by done. done.
Qed.

Lemma base64_encode_correct_witness :
  iwn_base64_encode 8 (bytes_of_string "abcd") base64_VARIANT_URLSAFE_NO_PADDING =
    Some (Some (bytes_of_string "YWJjZA" ++ [0])).
Proof.
  destruct (base64_encode_correct 8 (bytes_of_string "abcd") base64_VARIANT_URLSAFE_NO_PADDING) as [E _].
  - constructor.
  - repeat constructor; simpl; lia.
  - reflexivity.
  - rewrite E. reflexivity.
Defined.

(** The decoder restores the bytes from their text. *)
Lemma decode_text maxlen bin variant ignore want_end :
  variant_ok variant -> bytes_ok bin -> zlen bin <= maxlen -> ignored ignore 61 = false ->
  iwn_base64_decode maxlen (b64_text variant bin) ignore want_end variant = (0, bin, []).
Proof.
  intros Hv Hb Hm Eig. unfold iwn_base64_decode.
  assert (base64_check_variant variant = true) as -> by (by destruct Hv). simpl negb. cbv iota.
  set (us := urlsafe variant).
  destruct (decode_all us ignore maxlen 0 bin (replicate (Z.to_nat (pad_count variant bin)) 61) [] Hb) as (Y & HY & E);
    [rewrite zlen_nil; lia|].
  change (u32 0) with 0 in E. unfold b64_text. fold us. rewrite E. cbn [app].
  pose proof (Z.mod_pos_bound (zlen bin) 3 ltac:(lia)) as Hmod.
  assert (forall n, decode_chars us ignore maxlen (replicate n 61) (u32 Y) (tail_bits bin) bin =
    (replicate n 61, u32 Y, tail_bits bin, bin, 0)) as ->.
  { intros [|n]; [done|]. cbn [replicate decode_chars]. rewrite pad_not_digit, Z.eqb_refl, Eig. done. }
  assert (tail_bits bin = 0 \/ tail_bits bin = 2 \/ tail_bits bin = 4) as Ht by (unfold tail_bits; zcases; lia).
  assert (Z.land (u32 Y) (u32 (Z.shiftl 1 (tail_bits bin) - 1)) = 0) as ->.
  { replace (u32 (Z.shiftl 1 (tail_bits bin) - 1)) with (Z.ones (tail_bits bin))
      by (destruct Ht as [->|[->| ->]]; reflexivity).
    rewrite <- (Z.shiftr_0_r (u32 Y)), low_bits, Z.div_1_r by lia. done. }
  rewrite Z.eqb_refl, orb_false_r. destruct (Z.ltb_spec 4 (tail_bits bin)); [lia|]. simpl andb.
  assert ((if padded variant then skip_padding ignore (replicate (Z.to_nat (pad_count variant bin)) 61) (tail_bits bin / 2)
           else (replicate (Z.to_nat (pad_count variant bin)) 61, 0)) = ([], 0)) as ->.
  { unfold pad_count, tail_bits. destruct (padded variant); [|done].
    assert (zlen bin mod 3 = 0 \/ zlen bin mod 3 = 1 \/ zlen bin mod 3 = 2) as [E3|[E3|E3]] by lia; rewrite E3; done. }
  simpl. destruct ignore; simpl; by destruct want_end.
Qed.

(** C38. Round trip: for each of the four variants [iwn_base64_encode], with a buffer of at least [iwn_base64_encoded_len] bytes, writes a
    text (that of RFC 4648) and a terminator of together exactly that length, and [iwn_base64_decode] of the text, into a buffer that
    holds the original, succeeds, consumes all of it and restores the bytes, whatever characters other than the padding are to be
    ignored; a smaller buffer is refused by the encoder. *)
Theorem base64_roundtrip b64_maxlen maxlen bin variant ignore want_end :
  variant_ok variant -> bytes_ok bin -> zlen bin < 2 ^ 61 -> zlen bin <= maxlen -> ignored ignore 61 = false ->
  if b64_maxlen <? iwn_base64_encoded_len (zlen bin) variant then iwn_base64_encode b64_maxlen bin variant = Some None
  else exists text, iwn_base64_encode b64_maxlen bin variant = Some (Some (text ++ [0])) /\ text = b64_text variant bin /\
    zlen (text ++ [0]) = iwn_base64_encoded_len (zlen bin) variant /\
    iwn_base64_decode maxlen text ignore want_end variant = (0, bin, []).
Proof.
  intros Hv Hb Hs Hm Hi. destruct (Z.ltb_spec b64_maxlen (iwn_base64_encoded_len (zlen bin) variant)) as [Hlt|Hge].
  - unfold iwn_base64_encode. by rewrite (proj2 (Z.ltb_lt _ _) Hlt).
  - exists (b64_text variant bin). split; [by apply encode_text|]. split; [done|]. split; [|by apply decode_text].
    rewrite zlen_app, b64_text_len, encoded_len_exact by done. done.
Qed.

Lemma base64_roundtrip_witness :
  exists text, iwn_base64_encode 20 [250; 0; 7; 91] base64_VARIANT_ORIGINAL = Some (Some (text ++ [0])) /\
    text = b64_text base64_VARIANT_ORIGINAL [250; 0; 7; 91] /\
    zlen (text ++ [0]) = iwn_base64_encoded_len 4 base64_VARIANT_ORIGINAL /\
    iwn_base64_decode 10 text (Some [10; 13]) false base64_VARIANT_ORIGINAL = (0, [250; 0; 7; 91], []).
Proof.
  apply (base64_roundtrip 20 10 [250; 0; 7; 91] base64_VARIANT_ORIGINAL (Some [10; 13]) false).
  - constructor.
  - repeat constructor; lia.
  - vm_compute. reflexivity.
  - vm_compute. discriminate.
  - reflexivity.
Defined.

(** An invalid variant makes [b64_len] zero, and [b64_len - 1] the largest [size_t]: the padding
    loop runs out of every buffer. *)
Example base64_bad_variant : iwn_base64_encode 64 [1] 0 = None.
Proof. vm_compute. reflexivity. Qed.
