(* ===== verification/Url.v ===== *)
(** * Url: the in-place URL parser of [src/src/utils/iwn_url.c]

    The string is a buffer with a terminator, which the parser cuts into parts by writing
    terminators over the separators; a pointer is a position in the buffer, [None] is [NULL].  An
    access outside of the buffer is the result [None]. *)
From S2P Require Import Prelude.

Record iwn_url := mkUrl {
  scheme : option Z; username : option Z; password : option Z; host : option Z;
  path : option Z; query : option Z; fragment : option Z; port : Z }.

Definition url_zero : iwn_url := mkUrl None None None None None None None 0.

(** [natoi]: no check that the characters are digits. *)
Fixpoint natoi_loop (n : nat) (buf : list Z) (i r : Z) : option Z :=
  match n with
  | O => Some r
  | S n => c ← rd buf i; natoi_loop n buf (i + 1) (i32 (i32 (r * 10) + (i8 c - 48)))
  end.
Definition natoi (buf : list Z) (str len : Z) : option Z := natoi_loop (Z.to_nat len) buf str 0.

(** [atoi] of the C library. *)
Definition is_space (c : Z) : bool := (c =? 32) || ((9 <=? c) && (c <=? 13)).
Definition is_digit (c : Z) : bool := (48 <=? c) && (c <=? 57).
Fixpoint atoi_digits (fuel : nat) (buf : list Z) (i sign r : Z) : option Z :=
  match fuel with
  | O => None
  | S fuel => c ← rd buf i; if is_digit c then atoi_digits fuel buf (i + 1) sign (r * 10 + (c - 48)) else Some (i32 (sign * r))
  end.
Fixpoint atoi_spaces (fuel : nat) (buf : list Z) (i : Z) : option Z :=
  match fuel with
  | O => None
  | S fuel =>
      c ← rd buf i;
      if is_space c then atoi_spaces fuel buf (i + 1)
      else if c =? 45 then atoi_digits (length buf) buf (i + 1) (-1) 0
      else if c =? 43 then atoi_digits (length buf) buf (i + 1) 1 0
      else atoi_digits (S (length buf)) buf i 1 0
  end.
Definition atoi (buf : list Z) (i : Z) : option Z := atoi_spaces (S (length buf)) buf i.

Definition is_relative (buf : list Z) (url : Z) : option bool := c ← rd buf url; Some (c =? 47).

Definition parse_scheme (buf : list Z) (str : Z) : option (list Z * option Z) :=
  s ← strchr buf str 58;
  match s with
  | None => Some (buf, None)
  | Some s =>
      if s =? str then Some (buf, None)
      else
        c1 ← rd buf (s + 1);
        if negb (c1 =? 47) then Some (buf, None)
        else
          c2 ← rd buf (s + 2);
          if (c2 =? 0) || negb (c2 =? 47) then Some (buf, None)
          else buf ← wr buf s 0; Some (buf, Some (s + 3))
  end.

Definition find_and_terminate (buf : list Z) (str find : Z) : option (list Z * option Z) :=
  p ← strchr buf str find;
  match p with
  | None => Some (buf, None)
  | Some p => buf ← wr buf p 0; Some (buf, Some (p + 1))
  end.
Definition find_fragment (buf : list Z) (str : Z) := find_and_terminate buf str 35.
Definition find_query (buf : list Z) (str : Z) := find_and_terminate buf str 63.
Definition find_path (buf : list Z) (str : Z) := find_and_terminate buf str 47.

(** The credentials; [false] is the result [-1]. *)
Definition parse_credentials (buf : list Z) (url : iwn_url) (h : Z) : option (list Z * iwn_url * bool) :=
  u ← strchr buf h 64;
  match u with
  | None => Some (buf, url, true)
  | Some u =>
      if u =? h then Some (buf, url, false)
      else
        let url := {| url with username := Some h; host := Some (u + 1) |} in
        buf ← wr buf u 0;
        c ← strchr buf h 58;
        match c with
        | None => Some (buf, url, false)
        | Some c => buf ← wr buf c 0; Some (buf, {| url with password := Some (c + 1) |}, true)
        end
  end.

(** The port: [None] for the result [-1]. *)
Definition parse_port (buf : list Z) (h : Z) (path : option Z) : option (list Z * option Z) :=
  u ← strchr buf h 58;
  match u with
  | None => Some (buf, Some 0)
  | Some u =>
      if match path with None => true | Some p => u <? p end then
        buf ← wr buf u 0;
        c ← rd buf (u + 1);
        if c =? 0 then Some (buf, None)
        else
          n ← match path with Some p => natoi buf (u + 1) (p - (u + 1) - 1) | None => atoi buf (u + 1) end;
          Some (buf, Some n)
      else Some (buf, Some 0)
  end.

(** The host part of an absolute URL, from [u]. *)
Definition parse_host (buf : list Z) (url : iwn_url) (u : Z) : option (list Z * iwn_url * Z) :=
  c ← rd buf u;
  if c =? 0 then Some (buf, url, -1)
  else
    let url := {| url with host := Some u |} in
    '(buf, p) ← find_path buf u;
    let url := {| url with path := p |} in
    '(buf, url, ok) ← parse_credentials buf url u;
    if negb ok then Some (buf, url, -1)
    else
      h ← url.(host);
      c ← rd buf h;
      if c =? 0 then Some (buf, url, -1)
      else
        '(buf, n) ← parse_port buf h url.(path);
        match n with
        | None => Some (buf, url, -1)
        | Some n =>
            let url := {| url with port := n |} in
            c ← rd buf h;
            Some (buf, url, if c =? 0 then -1 else 0)
        end.

Definition iwn_url_parse (u : list Z) : option (list Z * iwn_url * Z) :=
  '(buf, f) ← find_fragment u 0;
  let url := {| url_zero with fragment := f |} in
  '(buf, q) ← find_query buf 0;
  let url := {| url with query := q |} in
  rel ← is_relative buf 0;
  if negb rel then
    let url := {| url with scheme := Some 0 |} in
    '(buf, h) ← parse_scheme buf 0;
    match h with
    | None => Some (buf, url, -1)
    | Some h => parse_host buf url h
    end
  else '(buf, p) ← find_path buf 0; Some (buf, {| url with path := p |}, 0).

(** The string at a pointer. *)
Definition part (buf : list Z) (p : option Z) : option (list Z) := (fun i => cstr (drop (Z.to_nat i) buf)) <$> p.

Example url_parse_example :
  ('(buf, u, rc) ← iwn_url_parse (bytes_of_string "http://me:pw@h.org:8080/a/b?x=1#top" ++ [0]);
  Some (rc, part buf u.(scheme), part buf u.(username), part buf u.(password), part buf u.(host), u.(port), part buf u.(path),
        part buf u.(query), part buf u.(fragment))) =
  Some (0, Some (bytes_of_string "http"), Some (bytes_of_string "me"), Some (bytes_of_string "pw"), Some (bytes_of_string "h.org"), 8080,
        Some (bytes_of_string "a/b"), Some (bytes_of_string "x=1"), Some (bytes_of_string "top")).
Proof. reflexivity. Qed.

(** ** URLs as text *)

Record url_parts := mkParts {
  u_scheme : list Z; u_creds : option (list Z * list Z); u_host : list Z; u_port : option (list Z);
  u_path : option (list Z); u_query : option (list Z); u_fragment : option (list Z) }.

Definition opt (c : Z) (o : option (list Z)) : list Z := match o with Some x => c :: x | None => [] end.
Definition print_creds (o : option (list Z * list Z)) : list Z := match o with Some (u, p) => u ++ 58 :: p ++ [64] | None => [] end.
Definition print_url (u : url_parts) : list Z :=
  u.(u_scheme) ++ [58; 47; 47] ++ print_creds u.(u_creds) ++ u.(u_host) ++ opt 58 u.(u_port) ++ opt 47 u.(u_path) ++
  opt 63 u.(u_query) ++ opt 35 u.(u_fragment).

(** The string has no terminator and none of the characters [cs]. *)
Definition lacks (cs : list Z) (w : list Z) : Prop := Forall (fun b => b ∉ 0 :: cs) w.
Definition all_some {A} (P : A -> Prop) (o : option A) : Prop := match o with Some x => P x | None => True end.
Definition digits_ok (w : list Z) : Prop := w <> [] /\ Forall (fun c => 48 <= c <= 57) w /\ zlen w <= 9.

Record url_wf (u : url_parts) : Prop := {
  uw_scheme : lacks [58; 63; 35] u.(u_scheme) /\ u.(u_scheme) <> [] /\ head u.(u_scheme) <> Some 47;
  uw_creds : all_some (fun c => lacks [47; 63; 35; 64; 58] c.1 /\ lacks [47; 63; 35; 64] c.2) u.(u_creds);
  uw_host : lacks [47; 63; 35; 64; 58] u.(u_host) /\ u.(u_host) <> [];
  uw_port : all_some digits_ok u.(u_port);
  uw_path : all_some (lacks [63; 35]) u.(u_path);
  uw_query : all_some (lacks [35]) u.(u_query);
  uw_fragment : all_some (lacks []) u.(u_fragment) }.

Definition decimal (a : Z) (w : list Z) : Z := fold_left (fun a c => a * 10 + (c - 48)) w a.

(** ** Searching and cutting *)

Lemma lacks_strchr cs c w : lacks cs w -> c ∈ cs -> Forall (fun b => b <> c /\ b <> 0) w.
Proof. intros Hw Hc. eapply Forall_impl; [exact Hw|]. intros b Hb. split; intros ->; apply Hb; set_solver. Qed.
Lemma lacks_nonzero cs w : lacks cs w -> Forall (fun b => b <> 0) w.
Proof. intros Hw. eapply Forall_impl; [exact Hw|]. intros b Hb ->. apply Hb. set_solver. Qed.
Lemma lacks_sub cs cs' w : cs' ⊆ cs -> lacks cs w -> lacks cs' w.
Proof. intros Hs Hw. eapply Forall_impl; [exact Hw|]. intros b Hb Hb'. apply Hb. apply elem_of_cons in Hb' as [->|Hb']; [left|right; by apply Hs]. Qed.
Lemma lacks_app cs w w' : lacks cs (w ++ w') <-> lacks cs w /\ lacks cs w'.
Proof. apply Forall_app. Qed.
Lemma lacks_opt cs c o : c ∉ 0 :: cs -> all_some (lacks cs) o -> lacks cs (opt c o).
Proof. intros Hc Ho. destruct o; [by constructor|constructor]. Qed.

Definition behind (o : option (list Z)) (t : list Z) : list Z := match o with Some x => x ++ 0 :: t | None => t end.

(** An optional part behind its separator: the separator becomes a terminator. *)
Lemma find_part l w c o t : c <> 0 -> Forall (fun b => b <> c /\ b <> 0) w ->
  find_and_terminate (l ++ w ++ opt c o ++ 0 :: t) (zlen l) c =
  Some (l ++ w ++ 0 :: behind o t, match o with Some _ => Some (zlen l + zlen w + 1) | None => None end).
Proof.
  intros Hc Hw. unfold find_and_terminate. destruct o as [x|]; cbn [opt app behind].
  - rewrite strchr_stop by auto. cbn [mbind option_bind]. rewrite Z.eqb_refl.
    replace (zlen l + zlen w) with (zlen (l ++ w)) by (by rewrite zlen_app). rewrite app_assoc, wr_middle. cbn [mbind option_bind]. by rewrite <- app_assoc.
  - rewrite strchr_stop by auto. cbn [mbind option_bind]. by rewrite (proj2 (Z.eqb_neq 0 c)) by auto.
Qed.

Lemma find_part0 w c o t : c <> 0 -> Forall (fun b => b <> c /\ b <> 0) w ->
  find_and_terminate (w ++ opt c o ++ 0 :: t) 0 c =
  Some (w ++ 0 :: behind o t, match o with Some _ => Some (zlen w + 1) | None => None end).
Proof. apply (find_part [] w c o t). Qed.

Lemma part_at buf l w r i : buf = l ++ w ++ 0 :: r -> i = zlen l -> Forall (fun b => b <> 0) w -> part buf (Some i) = Some w.
Proof.
  intros -> -> Hw. unfold part. cbn [fmap option_fmap option_map]. unfold zlen. by rewrite Nat2Z.id, drop_app_length, cstr_app_0.
Qed.

(** ** Numbers *)

Lemma natoi_digits w : forall l r a, Forall (fun c => 48 <= c <= 57) w -> 0 <= a -> (a + 1) * 10 ^ zlen w <= 2 ^ 31 ->
  natoi_loop (length w) (l ++ w ++ r) (zlen l) a = Some (decimal a w).
Proof.
  induction w as [|c w IH]; intros l r a Hw Ha Hb; [done|]. apply Forall_cons in Hw as [Hc Hw]. cbn [length natoi_loop app].
  rewrite rd_middle. cbn [mbind option_bind]. rewrite zlen_cons, Z.pow_add_r in Hb by (pose proof (zlen_nonneg w); lia).
  assert (0 < 10 ^ zlen w) by (apply Z.pow_pos_nonneg; [lia|apply zlen_nonneg]).
  assert (a * 10 + 10 <= 2 ^ 31) by nia. rewrite (i32_small (a * 10)) by lia.
  assert (i8 c = c) as -> by (apply (swrap_id 8); lia).
  rewrite i32_small by lia. cbn [decimal fold_left].
  specialize (IH (l ++ [c]) r (a * 10 + (c - 48)) Hw ltac:(lia)). rewrite <- app_assoc, zlen_app in IH. apply IH. nia.
Qed.

Lemma atoi_digits_run w : forall fuel l t a, Forall (fun c => 48 <= c <= 57) w -> (length w < fuel)%nat -> 0 <= a ->
  (a + 1) * 10 ^ zlen w <= 2 ^ 31 -> atoi_digits fuel (l ++ w ++ 0 :: t) (zlen l) 1 a = Some (decimal a w).
Proof.
  induction w as [|c w IH]; intros fuel l t a Hw Hf Ha Hb; destruct fuel as [|fuel]; cbn [length] in Hf; try lia; cbn [atoi_digits app].
  - rewrite rd_middle. cbn [mbind option_bind]. change (is_digit 0) with false. cbv iota. change (10 ^ zlen []) with 1 in Hb.
    cbn [decimal fold_left]. by rewrite Z.mul_1_l, i32_small by lia.
  - rewrite rd_middle. cbn [mbind option_bind]. apply Forall_cons in Hw as [Hc Hw]. unfold is_digit at 1.
    rewrite (proj2 (Z.leb_le 48 c)), (proj2 (Z.leb_le c 57)) by lia. cbn [andb decimal fold_left].
    rewrite zlen_cons, Z.pow_add_r in Hb by (pose proof (zlen_nonneg w); lia).
    assert (0 < 10 ^ zlen w) by (apply Z.pow_pos_nonneg; [lia|apply zlen_nonneg]).
    specialize (IH fuel (l ++ [c]) t (a * 10 + (c - 48)) Hw ltac:(lia) ltac:(lia)). rewrite <- app_assoc, zlen_app in IH. apply IH. nia.
Qed.

Lemma atoi_run l w t : digits_ok w -> atoi (l ++ w ++ 0 :: t) (zlen l) = Some (decimal 0 w).
Proof.
  intros (Hne & Hw & Hl). unfold atoi. cbn [atoi_spaces]. destruct w as [|c w]; [done|]. pose proof Hw as [Hc _]%Forall_cons. cbn [app].
  rewrite rd_middle. cbn [mbind option_bind]. unfold is_space.
  destruct (Z.eqb_spec c 32); [lia|]. destruct (Z.leb_spec 9 c), (Z.leb_spec c 13); try lia. cbn [orb andb].
  destruct (Z.eqb_spec c 45); [lia|]. destruct (Z.eqb_spec c 43); [lia|].
  apply (atoi_digits_run (c :: w)); [done| |lia|].
  - rewrite !length_app. cbn [length]. rewrite length_app. lia.
  - assert (10 ^ zlen (c :: w) <= 10 ^ 9) by (apply Z.pow_le_mono_r; lia). lia.
Qed.

(** ** The round trip *)

Section Round.
Context (u : url_parts) (Hu : url_wf u).

(** What is behind the host once fragment, query and path have been cut off. *)
Definition rest2 : list Z := behind u.(u_query) (behind u.(u_fragment) []).
Definition rest : list Z := behind u.(u_path) rest2.
Definition front : list Z := u.(u_scheme) ++ [0; 47; 47].
Definition creds_cut : list Z := match u.(u_creds) with Some (n, p) => n ++ 0 :: p ++ [0] | None => [] end.
Definition final : list Z := front ++ creds_cut ++ u.(u_host) ++ 0 :: behind u.(u_port) rest.

Abbreviation base := (zlen u.(u_scheme) + 3).
Abbreviation host_at := (base + zlen creds_cut).
Abbreviation path_at := (host_at + zlen u.(u_host) + zlen (opt 58 u.(u_port)) + 1).

Lemma creds_cut_length : zlen (print_creds u.(u_creds)) = zlen creds_cut.
Proof. unfold creds_cut, print_creds. destruct (u_creds u) as [[n p]|]; [|done]. by rewrite !zlen_app, !zlen_cons, !zlen_app, !zlen_cons. Qed.

Lemma port_lacks cs : (forall c, 48 <= c <= 58 -> c ∉ 0 :: cs) -> lacks cs (opt 58 u.(u_port)).
Proof using Hu.
  intros Hcs. apply lacks_opt; [apply Hcs; lia|]. destruct Hu as [_ _ _ Hp _ _ _]. destruct (u_port u) as [w|]; [|done].
  destruct Hp as (_ & Hw & _). eapply Forall_impl; [exact Hw|]. intros c Hc. cbn beta in Hc. apply Hcs. lia.
Qed.

Lemma creds_lacks cs : 58 ∉ 0 :: cs -> 64 ∉ 0 :: cs -> cs ⊆ [47; 63; 35] -> lacks cs (print_creds u.(u_creds)).
Proof using Hu.
  intros H1 H2 Hs. destruct Hu as [_ Hc _ _ _ _ _]. unfold print_creds. destruct (u_creds u) as [[n p]|]; [|constructor].
  destruct Hc as [Hn Hp]. cbn [fst snd] in *. apply lacks_app. split; [eapply lacks_sub; [|exact Hn]; set_solver|].
  constructor; [done|]. apply lacks_app. split; [eapply lacks_sub; [|exact Hp]; set_solver|]. by repeat constructor.
Qed.

Lemma host_lacks cs : 58 ∉ 0 :: cs -> 64 ∉ 0 :: cs -> cs ⊆ [47; 63; 35] -> (forall c, 48 <= c <= 58 -> c ∉ 0 :: cs) ->
  lacks cs (print_creds u.(u_creds) ++ u.(u_host) ++ opt 58 u.(u_port)).
Proof using Hu.
  intros H1 H2 Hs Hp. pose proof Hu as [_ _ [Hh _] _ _ _ _]. apply lacks_app. split; [by apply creds_lacks|].
  apply lacks_app. split; [eapply lacks_sub; [|exact Hh]; set_solver|by apply port_lacks].
Qed.

Lemma digit_not c cs : 48 <= c <= 58 -> Forall (fun x => x < 48 \/ 58 < x) cs -> c ∉ cs.
Proof. intros Hc Hcs Hin. rewrite Forall_forall in Hcs. apply Hcs in Hin. lia. Qed.

Ltac not_in := let H := fresh in intros H; repeat (apply elem_of_cons in H as [H|H]; [lia|]); by apply elem_of_nil in H.
Ltac digits_out := let c := fresh in let Hc := fresh in intros c Hc; apply (digit_not c); [exact Hc|]; repeat constructor; lia.

(** The text up to the path, and up to the query. *)
Definition mid : list Z := print_creds u.(u_creds) ++ u.(u_host) ++ opt 58 u.(u_port).
Definition text1 : list Z := u.(u_scheme) ++ [58; 47; 47] ++ mid ++ opt 47 u.(u_path).

Lemma mid_lacks : lacks [47; 63; 35] mid.
Proof using Hu. apply host_lacks; [not_in|not_in|set_solver|digits_out]. Qed.

Lemma text1_lacks : lacks [63; 35] text1.
Proof using Hu.
  pose proof Hu as [[Hs _] _ _ _ Hp _ _]. apply lacks_app. split; [eapply lacks_sub; [|exact Hs]; set_solver|].
  do 3 (constructor; [not_in|]). apply lacks_app. split; [eapply lacks_sub; [|exact mid_lacks]; set_solver|]. apply lacks_opt; [not_in|done].
Qed.

Lemma print_url_text1 : print_url u ++ [0] = (text1 ++ opt 63 u.(u_query)) ++ opt 35 u.(u_fragment) ++ 0 :: [].
Proof. unfold print_url, text1, mid. by rewrite <- !app_assoc. Qed.

Lemma cut_fragment : find_fragment (print_url u ++ [0]) 0 =
  Some ((text1 ++ opt 63 u.(u_query)) ++ 0 :: behind u.(u_fragment) [],
        match u.(u_fragment) with Some _ => Some (zlen (text1 ++ opt 63 u.(u_query)) + 1) | None => None end).
Proof using Hu.
  pose proof Hu as [_ _ _ _ _ Hq _]. unfold find_fragment. rewrite print_url_text1. apply find_part0; [lia|].
  apply (lacks_strchr [35]); [|set_solver]. apply lacks_app. split; [eapply lacks_sub; [|exact text1_lacks]; set_solver|].
  apply lacks_opt; [not_in|done].
Qed.

Lemma cut_query : find_query ((text1 ++ opt 63 u.(u_query)) ++ 0 :: behind u.(u_fragment) []) 0 =
  Some (text1 ++ 0 :: rest2, match u.(u_query) with Some _ => Some (zlen text1 + 1) | None => None end).
Proof using Hu.
  unfold find_query. rewrite <- app_assoc. apply find_part0; [lia|]. apply (lacks_strchr [63; 35]); [exact text1_lacks|set_solver].
Qed.

Lemma cut_scheme : parse_scheme (text1 ++ 0 :: rest2) 0 = Some (front ++ mid ++ opt 47 u.(u_path) ++ 0 :: rest2, Some base).
Proof using Hu.
  pose proof Hu as [(Hs & Hne & _) _ _ _ _ _ _]. unfold parse_scheme, text1. rewrite <- !app_assoc.
  change ([58; 47; 47] ++ mid ++ opt 47 (u_path u) ++ 0 :: rest2) with (58 :: 47 :: 47 :: mid ++ opt 47 (u_path u) ++ 0 :: rest2).
  pose proof (strchr_stop [] (u_scheme u) 58 (47 :: 47 :: mid ++ opt 47 (u_path u) ++ 0 :: rest2) 58) as E.
  change ([] ++ u_scheme u ++ 58 :: 47 :: 47 :: mid ++ opt 47 (u_path u) ++ 0 :: rest2) with (u_scheme u ++ 58 :: 47 :: 47 :: mid ++ opt 47 (u_path u) ++ 0 :: rest2) in E.
  change (zlen (@nil Z)) with 0 in E. rewrite E; [|eapply lacks_strchr; [exact Hs|set_solver]|by left]. cbn [mbind option_bind]. clear E.
  change (58 =? 58) with true. cbv iota. rewrite Z.add_0_l.
  assert (0 < zlen (u_scheme u)) by (destruct (u_scheme u) as [|x l]; [done|rewrite zlen_cons; pose proof (zlen_nonneg l); lia]).
  rewrite (proj2 (Z.eqb_neq _ 0)) by lia.
  assert (forall x y r, rd (u_scheme u ++ x :: y :: r) (zlen (u_scheme u) + 1) = Some y) as R1.
  { intros x y r. rewrite rd_app_r by lia. by replace (zlen (u_scheme u) + 1 - zlen (u_scheme u)) with 1 by lia. }
  assert (forall x y z r, rd (u_scheme u ++ x :: y :: z :: r) (zlen (u_scheme u) + 2) = Some z) as R2.
  { intros x y z r. rewrite rd_app_r by lia. by replace (zlen (u_scheme u) + 2 - zlen (u_scheme u)) with 2 by lia. }
  rewrite R1. cbn [mbind option_bind]. change (negb (47 =? 47)) with false. cbv iota. rewrite R2. cbn [mbind option_bind]. change ((47 =? 0) || negb (47 =? 47)) with false. cbv iota.
  rewrite wr_middle. cbn [mbind option_bind]. unfold front. by rewrite <- !app_assoc.
Qed.

Lemma front_length : zlen front = base.
Proof. unfold front. rewrite zlen_app. done. Qed.

Lemma mid_first : exists c r, mid = c :: r /\ c <> 0.
Proof using Hu.
  assert (mid <> []) as Hne.
  { pose proof Hu as [_ _ [_ Hh] _ _ _ _]. unfold mid. intros E. apply app_nil in E as [_ E]. apply app_nil in E as [E _]. done. }
  destruct mid as [|c r] eqn:E; [done|]. exists c, r. split; [done|]. pose proof mid_lacks as H. rewrite E in H. apply Forall_cons in H as [H _].
  intros ->. apply H. set_solver.
Qed.

Lemma cut_path : find_path (front ++ mid ++ opt 47 u.(u_path) ++ 0 :: rest2) base =
  Some (front ++ mid ++ 0 :: rest, match u.(u_path) with Some _ => Some (base + zlen mid + 1) | None => None end).
Proof using Hu.
  unfold find_path. rewrite <- front_length. apply find_part; [lia|]. apply (lacks_strchr [47; 63; 35]); [exact mid_lacks|set_solver].
Qed.

Definition with_creds (url : iwn_url) : iwn_url :=
  match u.(u_creds) with
  | Some (n, _) => {| url with username := Some base; host := Some host_at; password := Some (base + zlen n + 1) |}
  | None => url
  end.

Lemma cut_creds url : parse_credentials (front ++ mid ++ 0 :: rest) url base =
  Some ((front ++ creds_cut) ++ u.(u_host) ++ opt 58 u.(u_port) ++ 0 :: rest, with_creds url, true).
Proof using Hu.
  pose proof Hu as [_ Hc [Hh _] _ _ _ _]. unfold parse_credentials, with_creds, creds_cut, mid, print_creds. rewrite <- front_length.
  assert (lacks [64] (u_host u ++ opt 58 (u_port u))) as Hl.
  { apply lacks_app. split; [eapply lacks_sub; [|exact Hh]; set_solver|]. apply port_lacks. digits_out. }
  destruct (u_creds u) as [[n p]|].
  - destruct Hc as [Hn Hp]. cbn [fst snd] in *.
    replace (front ++ ((n ++ 58 :: p ++ [64]) ++ u_host u ++ opt 58 (u_port u)) ++ 0 :: rest)
      with (front ++ (n ++ 58 :: p) ++ 64 :: u_host u ++ opt 58 (u_port u) ++ 0 :: rest) by (by rewrite <- !app_assoc; cbn [app]; rewrite <- !app_assoc).
    rewrite strchr_stop; [|apply (lacks_strchr [64]); [|set_solver]|by left]; cbn [mbind option_bind].
    2: { apply lacks_app. split; [eapply lacks_sub; [|exact Hn]; set_solver|]. constructor; [not_in|]. eapply lacks_sub; [|exact Hp]; set_solver. }
    change (64 =? 64) with true. cbv iota. rewrite zlen_app, zlen_cons. pose proof (zlen_nonneg n). pose proof (zlen_nonneg p).
    rewrite (proj2 (Z.eqb_neq _ _)) by lia.
    replace (zlen front + (zlen n + (1 + zlen p))) with (zlen (front ++ n ++ 58 :: p)) by (rewrite !zlen_app, zlen_cons; lia).
    rewrite (app_assoc front (n ++ 58 :: p) (64 :: _)). rewrite wr_middle. cbn [mbind option_bind].
    replace ((front ++ n ++ 58 :: p) ++ 0 :: u_host u ++ opt 58 (u_port u) ++ 0 :: rest)
      with (front ++ n ++ 58 :: p ++ 0 :: u_host u ++ opt 58 (u_port u) ++ 0 :: rest) by (by rewrite <- !app_assoc).
    rewrite strchr_stop; [|eapply lacks_strchr; [exact Hn|set_solver]|by left]. cbn [mbind option_bind]. change (58 =? 58) with true. cbv iota.
    pose proof (wr_middle (front ++ n) 58 (p ++ 0 :: u_host u ++ opt 58 (u_port u) ++ 0 :: rest) 0) as Ew. rewrite <- !app_assoc, zlen_app in Ew.
    rewrite Ew. cbn [mbind option_bind]. rewrite !zlen_app, !zlen_cons, !zlen_app. change (zlen [0]) with 1.
    assert (front ++ n ++ 0 :: p ++ 0 :: u_host u ++ opt 58 (u_port u) ++ 0 :: rest =
      (front ++ n ++ 0 :: p ++ [0]) ++ u_host u ++ opt 58 (u_port u) ++ 0 :: rest) as -> by (by rewrite <- !app_assoc; cbn [app]; rewrite <- !app_assoc).
    rewrite front_length. cbn [scheme username password host path query fragment port]. feq.
  - cbn [app]. rewrite app_nil_r. rewrite strchr_stop; [|apply (lacks_strchr [64]); [exact Hl|set_solver]|by right]. cbn [mbind option_bind].
    change (0 =? 64) with false. cbv iota. by rewrite <- !app_assoc.
Qed.

Definition port_value : Z := match u.(u_port) with Some w => decimal 0 w | None => 0 end.

Lemma front_creds_length : zlen (front ++ creds_cut) = host_at.
Proof. rewrite zlen_app, front_length. done. Qed.

Lemma mid_length : zlen mid = zlen creds_cut + zlen u.(u_host) + zlen (opt 58 u.(u_port)).
Proof. unfold mid. rewrite !zlen_app, creds_cut_length. lia. Qed.

Lemma digits_first w : digits_ok w -> exists c r, w = c :: r /\ 48 <= c <= 57.
Proof. intros (Hne & Hw & _). destruct w as [|c r]; [done|]. apply Forall_cons in Hw as [Hc _]. eauto. Qed.

Lemma cut_port :
  parse_port ((front ++ creds_cut) ++ u.(u_host) ++ opt 58 u.(u_port) ++ 0 :: rest) host_at
    match u.(u_path) with Some _ => Some (base + zlen mid + 1) | None => None end =
  Some (final, Some port_value).
Proof using Hu.
  pose proof Hu as [_ _ [Hh _] Hp _ _ _]. unfold parse_port, port_value, final. rewrite <- front_creds_length.
  pose proof (lacks_strchr _ 58 _ Hh ltac:(set_solver)) as Hs. pose proof mid_length as Hm. pose proof (zlen_nonneg (u_host u)).
  destruct (u_port u) as [w|] eqn:Ew; cbn [opt app behind] in *.
  2: { rewrite strchr_stop by auto. cbn [mbind option_bind]. change (0 =? 58) with false. cbv iota. by rewrite <- !app_assoc. }
  rewrite strchr_stop by auto. cbn [mbind option_bind]. change (58 =? 58) with true. cbv iota. rewrite zlen_cons in Hm.
  destruct (digits_first w Hp) as (c & r & Ec & Hc). pose proof Hp as (_ & Hw & Hl9).
  set (B := front ++ creds_cut) in *. assert (zlen B = host_at) as HB by apply front_creds_length.
  assert (match match u_path u with Some _ => Some (base + zlen mid + 1) | None => None end with None => true | Some p => zlen B + zlen (u_host u) <? p end = true) as ->.
  { destruct (u_path u); [|done]. apply Z.ltb_lt. pose proof (zlen_nonneg w). lia. }
  replace (B ++ u_host u ++ 58 :: w ++ 0 :: rest) with ((B ++ u_host u) ++ 58 :: w ++ 0 :: rest) by (by rewrite <- app_assoc).
  rewrite <- zlen_app, wr_middle. cbn [mbind option_bind].
  replace ((B ++ u_host u) ++ 0 :: w ++ 0 :: rest) with ((B ++ u_host u ++ [0]) ++ w ++ 0 :: rest) by (by rewrite <- !app_assoc).
  replace (zlen (B ++ u_host u) + 1) with (zlen (B ++ u_host u ++ [0])) by (rewrite !zlen_app; change (zlen [0]) with 1; lia).
  assert (rd ((B ++ u_host u ++ [0]) ++ w ++ 0 :: rest) (zlen (B ++ u_host u ++ [0])) = Some c) as -> by (rewrite Ec; apply rd_middle).
  cbn [mbind option_bind]. rewrite (proj2 (Z.eqb_neq c 0)) by lia.
  assert ((B ++ u_host u ++ [0]) ++ w ++ 0 :: rest = front ++ creds_cut ++ u_host u ++ 0 :: w ++ 0 :: rest) as Eb by (unfold B; by rewrite <- !app_assoc).
  destruct (u_path u) as [pa|].
  - replace (base + zlen mid + 1 - zlen (B ++ u_host u ++ [0]) - 1) with (zlen w) by (rewrite !zlen_app; change (zlen [0]) with 1; lia).
    unfold natoi. replace (Z.to_nat (zlen w)) with (length w) by (unfold zlen; lia). rewrite natoi_digits; [|done|lia|]; [by rewrite Eb|].
    assert (10 ^ zlen w <= 10 ^ 9) by (apply Z.pow_le_mono_r; lia). lia.
  - rewrite atoi_run by done. cbn [mbind option_bind]. by rewrite Eb.
Qed.

(** The pointers of the result. *)
Definition result_url : iwn_url :=
  let p := match u.(u_path) with Some _ => Some (base + zlen mid + 1) | None => None end in
  {| (with_creds {| url_zero with
        fragment := match u.(u_fragment) with Some _ => Some (zlen (text1 ++ opt 63 u.(u_query)) + 1) | None => None end;
        query := match u.(u_query) with Some _ => Some (zlen text1 + 1) | None => None end;
        scheme := Some 0; host := Some base; path := p |}) with port := port_value |}.

Lemma parse_print : iwn_url_parse (print_url u ++ [0]) = Some (final, result_url, 0).
Proof using Hu.
  pose proof Hu as [(Hs & Hne & Hs1) _ [Hh Hh0] _ _ _ _]. unfold iwn_url_parse. rewrite cut_fragment. cbn [mbind option_bind].
  rewrite cut_query. cbn [mbind option_bind]. unfold is_relative.
  assert (exists c0 sc, u_scheme u = c0 :: sc) as (c0 & sc & Esc) by (destruct (u_scheme u); eauto; done).
  assert (rd (text1 ++ 0 :: rest2) 0 = Some c0) as -> by (unfold text1; rewrite Esc; done). cbn [mbind option_bind].
  assert (c0 <> 47) as H47 by (intros ->; apply Hs1; by rewrite Esc). rewrite (proj2 (Z.eqb_neq c0 47) H47). cbn [negb].
  rewrite cut_scheme. cbn [mbind option_bind]. unfold parse_host.
  destruct mid_first as (c & r & Em & Hc).
  assert (rd (front ++ mid ++ opt 47 (u_path u) ++ 0 :: rest2) base = Some c) as -> by (rewrite Em, <- front_length; apply rd_middle).
  cbn [mbind option_bind]. rewrite (proj2 (Z.eqb_neq c 0) Hc). rewrite cut_path. cbn [mbind option_bind].
  rewrite cut_creds. cbn [mbind option_bind negb].
  set (url := with_creds _). assert (forall A (k : Z -> option A), host url ≫= k = k host_at) as ->.
  { intros A k. assert (host url = Some host_at) as ->; [|done]. unfold url, with_creds, creds_cut. destruct (u_creds u) as [[n p]|]; [done|]. cbn [host]. by rewrite zlen_nil, Z.add_0_r. }
  assert (exists h0 hs, u_host u = h0 :: hs) as (h0 & hs & Eh) by (destruct (u_host u); eauto; done).
  assert (h0 <> 0) as Hh1 by (pose proof (lacks_nonzero _ _ Hh) as H; rewrite Eh in H; apply Forall_cons in H as [? _]; done).
  assert (forall t, rd ((front ++ creds_cut) ++ u_host u ++ t) host_at = Some h0) as Rh by (intros t; rewrite Eh, <- front_creds_length; apply rd_middle).
  rewrite Rh. cbn [mbind option_bind]. rewrite (proj2 (Z.eqb_neq h0 0) Hh1).
  assert (parse_port ((front ++ creds_cut) ++ u_host u ++ opt 58 (u_port u) ++ 0 :: rest) host_at (path url) = Some (final, Some port_value)) as ->.
  { rewrite <- cut_port. f_equal. unfold url, with_creds. by destruct (u_creds u) as [[n p]|]. } cbn [mbind option_bind].
  assert (rd final host_at = Some h0) as ->.
  { unfold final. rewrite app_assoc. apply Rh. }
  cbn [mbind option_bind]. rewrite (proj2 (Z.eqb_neq h0 0) Hh1). done.
Qed.

(** The buffer, part by part. *)
Definition cut (o : option (list Z)) : list Z := match o with Some x => x ++ [0] | None => [] end.
Lemma behind_cut o t : behind o t = cut o ++ t.
Proof. destruct o; [|done]. cbn [behind cut]. by rewrite <- app_assoc. Qed.
Lemma cut_length c o : zlen (cut o) = zlen (opt c o).
Proof. destruct o as [x|]; [|done]. cbn [cut opt]. rewrite zlen_app. change (zlen [0]) with 1. rewrite zlen_cons. lia. Qed.

Lemma final_cut : final = front ++ creds_cut ++ u.(u_host) ++ [0] ++ cut u.(u_port) ++ cut u.(u_path) ++ cut u.(u_query) ++ cut u.(u_fragment).
Proof. unfold final, rest, rest2. by rewrite !behind_cut, app_nil_r. Qed.

Lemma text1_length : zlen text1 = base + zlen mid + zlen (cut u.(u_path)).
Proof. unfold text1. rewrite !zlen_app, (cut_length 47). change (zlen [58; 47; 47]) with 3. lia. Qed.

(** An optional part of the result, by what is in front of it in the buffer. *)
Lemma part_opt buf l r o i : buf = l ++ cut o ++ r -> i = zlen l -> all_some (lacks []) o ->
  part buf match o with Some _ => Some i | None => None end = o.
Proof.
  intros -> -> Ho. destruct o as [x|]; [|done]. eapply part_at; [|done|by apply (lacks_nonzero [])]. cbn [cut]. rewrite <- app_assoc. done.
Qed.
End Round.

(** C37. Parsing undoes printing: for a URL with a scheme, a host and any of the credentials, the
    port, the path, the query and the fragment, made of characters that are not separators of the
    part they are in, [iwn_url_parse] of its text succeeds, never reads or writes outside of the
    string, and leaves pointers to exactly those parts, and the port's number. *)
Theorem url_parse_roundtrip (u : url_parts) :
  url_wf u ->
  exists buf url, iwn_url_parse (print_url u ++ [0]) = Some (buf, url, 0) /\ zlen buf = zlen (print_url u) + 1 /\
    part buf url.(scheme) = Some u.(u_scheme) /\ part buf url.(username) = fst <$> u.(u_creds) /\ part buf url.(password) = snd <$> u.(u_creds) /\
    part buf url.(host) = Some u.(u_host) /\ url.(port) = match u.(u_port) with Some w => decimal 0 w | None => 0 end /\
    part buf url.(path) = u.(u_path) /\ part buf url.(query) = u.(u_query) /\ part buf url.(fragment) = u.(u_fragment).
Proof.
  intros Hu. exists (final u), (result_url u). split; [by apply parse_print|].
  pose proof Hu as [(Hs & _) Hc [Hh _] Hp Hpa Hq Hf]. pose proof (final_cut u) as Hcut. pose proof (text1_length u) as Ht. pose proof (mid_length u) as Hm.
  assert (zlen (creds_cut u) = zlen (print_creds (u_creds u))) as Hcl by (symmetry; apply creds_cut_length).
  split.
  { rewrite Hcut. unfold print_url, front. rewrite !zlen_app, !(cut_length 58), Hcl. rewrite <- (cut_length 58 (u_path u)), (cut_length 47 (u_path u)),
      <- (cut_length 58 (u_query u)), (cut_length 63 (u_query u)), <- (cut_length 58 (u_fragment u)), (cut_length 35 (u_fragment u)).
    change (zlen [0; 47; 47]) with 3. change (zlen [58; 47; 47]) with 3. change (zlen [0]) with 1. lia. }
  assert (forall cs w, lacks cs w -> lacks [] w) as Hl by (intros cs w; apply lacks_sub; set_solver).
  unfold result_url, with_creds. cbv zeta. split; [|split; [|split; [|split; [|split; [|split; [|split]]]]]].
  - transitivity (part (final u) (Some 0)); [by destruct (u_creds u) as [[]|]|].
    eapply (part_at _ [] _ ([47; 47] ++ creds_cut u ++ _)); [|done|by eapply lacks_nonzero]. unfold final, front. rewrite <- !app_assoc. done.
  - unfold creds_cut in *. destruct (u_creds u) as [[n p]|] eqn:Ec; [|done]. cbn [username fmap option_fmap option_map fst].
    destruct Hc as [Hn _]. eapply part_at; [|symmetry; apply front_length|by eapply lacks_nonzero]. rewrite Hcut, <- !app_assoc. done.
  - unfold creds_cut in *. destruct (u_creds u) as [[n p]|] eqn:Ec; [|done]. cbn [password fmap option_fmap option_map snd].
    destruct Hc as [_ Hn]. eapply (part_at _ (front u ++ n ++ [0])); [| |by eapply lacks_nonzero].
    + rewrite Hcut, <- !app_assoc. cbn [app]. rewrite <- !app_assoc. done.
    + rewrite !zlen_app, front_length. change (zlen [0]) with 1. lia.
  - transitivity (part (final u) (Some (zlen (front u ++ creds_cut u)))).
    { rewrite front_creds_length. unfold creds_cut in *. destruct (u_creds u) as [[n p]|]; [done|]. cbn [host]. by rewrite zlen_nil, Z.add_0_r. }
    eapply part_at; [|done|by eapply lacks_nonzero]. unfold final. by rewrite <- !app_assoc.
  - by destruct (u_creds u) as [[]|].
  - transitivity (part (final u) match u_path u with Some _ => Some (zlen (u_scheme u) + 3 + zlen (mid u) + 1) | None => None end); [by destruct (u_creds u) as [[]|]|].
    eapply (part_opt _ (front u ++ creds_cut u ++ u_host u ++ [0] ++ cut (u_port u))); [by rewrite Hcut, <- !app_assoc| |by destruct (u_path u); [eapply Hl|]].
    rewrite !zlen_app, front_length, (cut_length 58). change (zlen [0]) with 1. lia.
  - transitivity (part (final u) match u_query u with Some _ => Some (zlen (text1 u) + 1) | None => None end); [by destruct (u_creds u) as [[]|]|].
    eapply (part_opt _ (front u ++ creds_cut u ++ u_host u ++ [0] ++ cut (u_port u) ++ cut (u_path u)));
      [by rewrite Hcut, <- !app_assoc| |by destruct (u_query u); [eapply Hl|]].
    rewrite !zlen_app, front_length, (cut_length 58 (u_port u)). change (zlen [0]) with 1. lia.
  - transitivity (part (final u) match u_fragment u with Some _ => Some (zlen (text1 u ++ opt 63 (u_query u)) + 1) | None => None end); [by destruct (u_creds u) as [[]|]|].
    eapply (part_opt _ (front u ++ creds_cut u ++ u_host u ++ [0] ++ cut (u_port u) ++ cut (u_path u) ++ cut (u_query u)) []); [by rewrite Hcut, app_nil_r, <- !app_assoc| |done].
    rewrite !zlen_app, front_length, (cut_length 58 (u_port u)), (cut_length 63 (u_query u)). change (zlen [0]) with 1. lia.
Qed.

Lemma url_parse_roundtrip_witness :
  exists buf url, iwn_url_parse (bytes_of_string "http://h:80/p?q" ++ [0]) = Some (buf, url, 0) /\ zlen buf = 16 /\
    part buf url.(scheme) = Some (bytes_of_string "http") /\ part buf url.(username) = None /\ part buf url.(password) = None /\
    part buf url.(host) = Some (bytes_of_string "h") /\ url.(port) = 80 /\
    part buf url.(path) = Some (bytes_of_string "p") /\ part buf url.(query) = Some (bytes_of_string "q") /\ part buf url.(fragment) = None.
Proof.
  apply (url_parse_roundtrip (mkParts (bytes_of_string "http") None (bytes_of_string "h") (Some (bytes_of_string "80")) (Some (bytes_of_string "p"))
    (Some (bytes_of_string "q")) None)).
  constructor; cbn [u_scheme u_creds u_host u_port u_path u_query u_fragment all_some]; try done.
  - split; [by apply (bool_decide_eq_true_1 (Forall _ _))|done].
  - split; [by apply (bool_decide_eq_true_1 (Forall _ _))|done].
  - split; [done|]. split; [by apply (bool_decide_eq_true_1 (Forall _ _))|by vm_compute].
  - by apply (bool_decide_eq_true_1 (Forall _ _)).
  - by apply (bool_decide_eq_true_1 (Forall _ _)).
Defined.

(** ** Memory safety *)

(** A buffer of [n + 1] bytes whose last one is a terminator. *)
Definition zterm (n : Z) (buf : list Z) : Prop := 0 <= n /\ zlen buf = n + 1 /\ rd buf n = Some 0.

Lemma zterm_wr n buf i : zterm n buf -> 0 <= i <= n -> exists buf', wr buf i 0 = Some buf' /\ zterm n buf'.
Proof.
  intros (Hn & Hl & Hz) Hi. unfold wr. rewrite (proj2 (Z.ltb_ge i 0)), (proj2 (Z.leb_gt _ _)) by lia. cbn [orb]. eexists. split; [reflexivity|].
  split; [done|]. split; [unfold zlen in *; by rewrite length_insert|]. unfold rd in *. rewrite (proj2 (Z.ltb_ge n 0)) in * by lia.
  destruct (decide (i = n)) as [->|]; [by rewrite list_lookup_insert_eq by (unfold zlen in Hl; lia)|]. by rewrite list_lookup_insert_ne by lia.
Qed.

Lemma zterm_rd n buf i : zterm n buf -> 0 <= i <= n -> exists c, rd buf i = Some c /\ (c <> 0 -> i < n).
Proof.
  intros (Hn & Hl & Hz) Hi. destruct (rd_total buf i) as [c Hc]; [lia|]. exists c. split; [done|]. intros H0.
  destruct (decide (i = n)) as [->|]; [congruence|lia].
Qed.

Lemma zterm_strchr n buf i c : zterm n buf -> 0 <= i <= n -> c <> 0 ->
  exists r, strchr buf i c = Some r /\ all_some (fun p => i <= p < n) r.
Proof.
  intros (Hn & Hl & Hz) Hi Hc. destruct (strchr_at_in (S (length buf)) buf i c) as (r & Er & Hr); [lia| |].
  { exists n. split; [lia|]. split; [done|]. unfold zlen in Hl. lia. }
  exists r. split; [done|]. destruct r as [p|]; [|done]. destruct (Hr p eq_refl) as (H1 & H2 & _). cbn [all_some].
  destruct (decide (p = n)) as [->|]; [congruence|lia].
Qed.

Lemma zterm_find n buf i c : zterm n buf -> 0 <= i <= n -> c <> 0 ->
  exists buf' p, find_and_terminate buf i c = Some (buf', p) /\ zterm n buf' /\ all_some (fun q => i < q <= n) p.
Proof.
  intros Hb Hi Hc. unfold find_and_terminate. destruct (zterm_strchr n buf i c Hb Hi Hc) as (r & -> & Hr). cbn [mbind option_bind].
  destruct r as [p|]; [|by eexists _, None]. cbn [all_some] in Hr. destruct (zterm_wr n buf p Hb) as (buf' & -> & Hb'); [lia|].
  cbn [mbind option_bind]. eexists _, (Some _). split; [done|]. split; [done|]. cbn [all_some]. lia.
Qed.

Lemma zterm_scheme n buf : zterm n buf -> exists buf' p, parse_scheme buf 0 = Some (buf', p) /\ zterm n buf' /\ all_some (fun q => 0 <= q <= n) p.
Proof.
  intros Hb. pose proof Hb as (Hn & _). unfold parse_scheme. destruct (zterm_strchr n buf 0 58 Hb) as (r & -> & Hr); [lia|lia|]. cbn [mbind option_bind].
  destruct r as [s|]; [|by eexists _, None]. cbn [all_some] in Hr. destruct (s =? 0); [by eexists _, None|].
  destruct (zterm_rd n buf (s + 1) Hb) as (c1 & -> & H1); [lia|]. cbn [mbind option_bind].
  destruct (Z.eqb_spec c1 47) as [->|]; cbn [negb]; [|by eexists _, None]. specialize (H1 ltac:(lia)).
  destruct (zterm_rd n buf (s + 2) Hb) as (c2 & -> & H2); [lia|]. cbn [mbind option_bind].
  destruct (Z.eqb_spec c2 0); cbn [orb]; [by eexists _, None|]. specialize (H2 ltac:(lia)). destruct (c2 =? 47); cbn [negb]; [|by eexists _, None].
  destruct (zterm_wr n buf s Hb) as (buf' & -> & Hb'); [lia|]. cbn [mbind option_bind]. eexists _, (Some _). split; [done|]. split; [done|]. cbn [all_some]. lia.
Qed.

Lemma zterm_creds n buf url h : zterm n buf -> 0 <= h <= n -> url.(host) = Some h ->
  exists buf' url' ok, parse_credentials buf url h = Some (buf', url', ok) /\ zterm n buf' /\ url'.(path) = url.(path) /\
    exists h', url'.(host) = Some h' /\ 0 <= h' <= n.
Proof.
  intros Hb Hh Hu. unfold parse_credentials. destruct (zterm_strchr n buf h 64 Hb) as (r & -> & Hr); [lia|lia|]. cbn [mbind option_bind].
  destruct r as [p|]; [|by eexists _, _, _; eauto 10]. cbn [all_some] in Hr. destruct (p =? h); [by eexists _, _, _; eauto 10|].
  destruct (zterm_wr n buf p Hb) as (buf1 & -> & Hb1); [lia|]. cbn [mbind option_bind].
  destruct (zterm_strchr n buf1 h 58 Hb1) as (r & -> & Hr2); [lia|lia|]. cbn [mbind option_bind]. destruct r as [c|].
  - cbn [all_some] in Hr2. destruct (zterm_wr n buf1 c Hb1) as (buf2 & -> & Hb2); [lia|]. cbn [mbind option_bind].
    eexists _, _, _. split; [reflexivity|]. split; [done|]. split; [done|]. exists (p + 1). split; [done|]. lia.
  - eexists _, _, _. split; [reflexivity|]. split; [done|]. split; [done|]. exists (p + 1). split; [done|]. lia.
Qed.

Lemma natoi_in buf m : forall i r, 0 <= i -> i + Z.of_nat m <= zlen buf -> exists v, natoi_loop m buf i r = Some v.
Proof.
  induction m as [|m IH]; intros i r Hi Hm; cbn [natoi_loop]; [by eexists|]. destruct (rd_total buf i) as [c ->]; [lia|].
  cbn [mbind option_bind]. apply IH; lia.
Qed.

Lemma atoi_digits_in n buf fuel : forall i sign r, zterm n buf -> 0 <= i <= n -> n - i < Z.of_nat fuel -> exists v, atoi_digits fuel buf i sign r = Some v.
Proof.
  induction fuel as [|fuel IH]; intros i sign r Hb Hi Hf; [lia|]. cbn [atoi_digits]. destruct (zterm_rd n buf i Hb Hi) as (c & -> & H0).
  cbn [mbind option_bind]. destruct (is_digit c) eqn:Ed; [|by eexists]. assert (c <> 0) as Hc by (intros ->; done). specialize (H0 Hc). apply IH; [done|lia|lia].
Qed.

Lemma atoi_in n buf i : zterm n buf -> 0 <= i <= n -> exists v, atoi buf i = Some v.
Proof.
  intros Hb. unfold atoi. pose proof Hb as (_ & Hl & _). assert (Z.of_nat (length buf) = n + 1) as Hlen by done.
  intros Hi.
  assert (forall fuel i, 0 <= i <= n -> n - i < Z.of_nat fuel -> exists v, atoi_spaces fuel buf i = Some v) as H.
  { induction fuel as [|fuel IH]; intros k Hk Hf; [lia|]. cbn [atoi_spaces]. destruct (zterm_rd n buf k Hb Hk) as (c & -> & H0). cbn [mbind option_bind].
    destruct (is_space c) eqn:Es; [assert (c <> 0) as Hc by (intros ->; done); specialize (H0 Hc); apply IH; lia|].
    destruct (Z.eqb_spec c 45) as [->|]; [specialize (H0 ltac:(lia)); apply (atoi_digits_in n); [done|lia|lia]|].
    destruct (Z.eqb_spec c 43) as [->|]; [specialize (H0 ltac:(lia)); apply (atoi_digits_in n); [done|lia|lia]|].
    apply (atoi_digits_in n); [done|lia|lia]. }
  apply H; lia.
Qed.

Lemma zterm_port n buf h p : zterm n buf -> 0 <= h <= n -> all_some (fun q => 0 <= q <= n) p ->
  exists buf' r, parse_port buf h p = Some (buf', r) /\ zterm n buf'.
Proof.
  intros Hb Hh Hp. unfold parse_port. destruct (zterm_strchr n buf h 58 Hb) as (r & -> & Hr); [lia|lia|]. cbn [mbind option_bind].
  destruct r as [s|]; [|by eauto]. cbn [all_some] in Hr. destruct (match p with None => true | Some p => s <? p end); [|by eauto].
  destruct (zterm_wr n buf s Hb) as (buf1 & -> & Hb1); [lia|]. cbn [mbind option_bind].
  destruct (zterm_rd n buf1 (s + 1) Hb1) as (c & -> & _); [lia|]. cbn [mbind option_bind]. destruct (c =? 0); [by eauto|].
  assert (exists v, match p with Some p => natoi buf1 (s + 1) (p - (s + 1) - 1) | None => atoi buf1 (s + 1) end = Some v) as [v ->]; [|by eauto].
  destruct p as [p|]; [|apply (atoi_in n); [done|lia]]. cbn [all_some] in Hp. pose proof Hb1 as (_ & Hl & _). apply natoi_in; lia.
Qed.

(** [iwn_url_parse] is memory safe on every string: whatever the characters, it reads and
    writes only between the start of the string and its terminator, keeps the terminator, and
    returns. *)
Theorem url_parse_safe (s : list Z) :
  exists buf url rc, iwn_url_parse (s ++ [0]) = Some (buf, url, rc) /\ zterm (zlen s) buf /\ (rc = 0 \/ rc = -1).
Proof.
  assert (zterm (zlen s) (s ++ [0])) as Hb.
  { split; [apply zlen_nonneg|]. split; [by rewrite zlen_app|]. apply rd_middle. }
  pose proof (zlen_nonneg s) as Hn. unfold iwn_url_parse, find_fragment, find_query.
  destruct (zterm_find _ _ 0 35 Hb) as (b1 & f & -> & Hb1 & _); [lia|lia|]. cbn [mbind option_bind].
  destruct (zterm_find _ _ 0 63 Hb1) as (b2 & q & -> & Hb2 & _); [lia|lia|]. cbn [mbind option_bind]. unfold is_relative.
  destruct (zterm_rd _ _ 0 Hb2) as (c & -> & _); [lia|]. cbn [mbind option_bind]. destruct (c =? 47); cbn [negb].
  { unfold find_path. destruct (zterm_find _ _ 0 47 Hb2) as (b3 & p & -> & Hb3 & _); [lia|lia|]. cbn [mbind option_bind]. eauto 10. }
  destruct (zterm_scheme _ _ Hb2) as (b3 & h & -> & Hb3 & Hh). cbn [mbind option_bind]. destruct h as [h|]; [|by eauto 10]. cbn [all_some] in Hh.
  unfold parse_host, find_path. destruct (zterm_rd _ _ h Hb3) as (c1 & -> & _); [lia|]. cbn [mbind option_bind]. destruct (c1 =? 0); [by eauto 10|].
  destruct (zterm_find _ _ h 47 Hb3) as (b4 & p & -> & Hb4 & Hp); [lia|lia|]. cbn [mbind option_bind].
  match goal with |- context [parse_credentials b4 ?url h] => destruct (zterm_creds _ b4 url h Hb4 ltac:(lia) eq_refl) as (b5 & url' & ok & -> & Hb5 & Epath & h' & Eh & Hh') end.
  cbn [mbind option_bind path] in *. destruct ok; cbn [negb]; [|by eauto 10]. rewrite Eh. cbn [mbind option_bind].
  destruct (zterm_rd _ _ h' Hb5) as (c2 & -> & _); [lia|]. cbn [mbind option_bind]. destruct (c2 =? 0); [by eauto 10|].
  destruct (zterm_port _ b5 h' (path url') Hb5 ltac:(lia)) as (b6 & r & -> & Hb6).
  { rewrite Epath. destruct p; [|done]. cbn [all_some] in *. lia. }
  cbn [mbind option_bind]. destruct r as [v|]; [|by eauto 10].
  destruct (zterm_rd _ _ h' Hb6) as (c3 & -> & _); [lia|]. cbn [mbind option_bind]. destruct (c3 =? 0); by eauto 10.
Qed.
