(* ===== verification/Pairs.v ===== *)
(** * Pairs: the key/value chains of [src/src/utils/iwn_pairs.c]

    The nodes live in a heap; a chain has pointers to its first and its last node.  Both kinds of
    chain ([iwn_vals], [iwn_pairs]) share the code shape, so they share the model: [P] is what a
    node carries besides [next]. *)
From S2P Require Import Prelude.

(** ** Chains *)

Abbreviation loc := positive.

Record chain := mkChain { first : option loc; last_ : option loc }.
Definition chain_zero : chain := mkChain None None.

Section Chain.
Context {P : Type}.
Record node := mkNode { n_data : P; n_next : option loc }.
Abbreviation heap := (gmap loc node).

(** [p->next = v] *)
Definition set_next (h : heap) (p : loc) (v : option loc) : option heap :=
  n ← h !! p; Some (<[p := mkNode n.(n_data) v]> h).

(** [iwn_val_add], [iwn_pair_add] *)
Definition chain_add (h : heap) (c : chain) (v : loc) : option (heap * chain) :=
  h ← set_next h v None;
  match c.(last_) with
  | Some l => h ← set_next h l (Some v); Some (h, mkChain c.(first) (Some v))
  | None => Some (h, mkChain (Some v) (Some v))
  end.

(** The traversal of [iwn_pairs_to_array] and [iwn_vals_to_array]: the nodes in order.  The heap is
    finite, so its size bounds the steps. *)
Fixpoint walk (fuel : nat) (h : heap) (p : option loc) : option (list loc) :=
  match p with
  | None => Some []
  | Some p =>
      match fuel with
      | O => None
      | S fuel => n ← h !! p; r ← walk fuel h n.(n_next); Some (p :: r)
      end
  end.
Definition chain_to_array (h : heap) (c : chain) : option (list loc) := walk (size h) h c.(first).

(** The loop of a search. *)
Fixpoint search (fuel : nat) (f : P -> bool) (h : heap) (p : option loc) : option (option loc) :=
  match p with
  | None => Some None
  | Some p =>
      match fuel with
      | O => None
      | S fuel => n ← h !! p; if f n.(n_data) then Some (Some p) else search fuel f h n.(n_next)
      end
  end.

(** ** What a chain stands for *)

Fixpoint seg (h : heap) (p : option loc) (l : list (loc * P)) : Prop :=
  match l with
  | [] => p = None
  | (q, d) :: l => p = Some q /\ exists n, h !! q = Some (mkNode d n) /\ seg h n l
  end.

Definition repr (h : heap) (c : chain) (l : list (loc * P)) : Prop :=
  seg h c.(first) l /\ NoDup l.*1 /\ c.(last_) = last l.*1.

Lemma seg_insert_ne h p l q n : q ∉ l.*1 -> seg h p l -> seg (<[q := n]> h) p l.
Proof.
  revert p. induction l as [|[r d] l IH]; intros p Hq Hs; [done|]. cbn [fmap list_fmap fst] in Hq. apply not_elem_of_cons in Hq as [Hqr Hq].
  destruct Hs as (-> & m & Hm & Hs). split; [done|]. exists m. split; [by rewrite lookup_insert_ne|]. by apply IH.
Qed.

(** The last node of a segment gets a successor. *)
Lemma seg_snoc h p l q d v dv : NoDup (l ++ [(q, d)]).*1 -> v ∉ (l ++ [(q, d)]).*1 ->
  seg h p (l ++ [(q, d)]) -> h !! v = Some (mkNode dv None) ->
  seg (<[q := mkNode d (Some v)]> h) p ((l ++ [(q, d)]) ++ [(v, dv)]).
Proof.
  revert p. induction l as [|[r e] l IH]; intros p Hnd Hv Hs Hh; cbn [app fmap list_fmap fst] in *.
  - destruct Hs as (-> & n & Hn & ->). split; [done|]. exists (Some v). split; [apply lookup_insert_eq|]. split; [done|]. exists None. split; [|done].
    rewrite lookup_insert_ne; [done|]. intros ->. apply Hv. by left.
  - apply NoDup_cons in Hnd as [Hr Hnd]. destruct Hs as (-> & n & Hn & Hs). split; [done|]. exists n. split.
    + rewrite lookup_insert_ne; [done|]. intros ->. apply Hr. rewrite fmap_app. apply elem_of_app. right. by left.
    + apply IH; [done| |done|done]. intros Hin. apply Hv. by right.
Qed.

Lemma chain_add_repr h c l v d n : repr h c l -> h !! v = Some (mkNode d n) -> v ∉ l.*1 ->
  exists h' c', chain_add h c v = Some (h', c') /\ repr h' c' (l ++ [(v, d)]).
Proof.
  intros (Hs & Hnd & Hl) Hv Hin. unfold chain_add, set_next. rewrite Hv. cbn [mbind option_bind n_data]. rewrite Hl.
  assert (NoDup (l ++ [(v, d)]).*1) as Hnd'.
  { rewrite fmap_app. apply NoDup_app. split; [done|]. split; [|by apply NoDup_singleton]. intros x Hx Hx'. apply list_elem_of_singleton in Hx' as ->. done. }
  assert (seg (<[v := mkNode d None]> h) (first c) l) as Hs1 by (by apply seg_insert_ne).
  destruct l as [|[q e] l _] using rev_ind.
  - cbn [fmap list_fmap last]. eexists _, _. split; [reflexivity|]. split; [|done]. split; [done|]. exists None. split; [apply lookup_insert_eq|done].
  - rewrite fmap_app. cbn [fmap list_fmap fst]. rewrite last_snoc.
    assert (v <> q) as Hvq. { intros ->. apply Hin. rewrite fmap_app. apply elem_of_app. right. by left. }
    assert (exists m, h !! q = Some (mkNode e m)) as [m Hq].
    { clear -Hs. revert Hs. generalize (first c). induction l as [|[r x] l IH]; intros p Hs.
      - destruct Hs as (_ & m & Hm & _). eauto.
      - destruct Hs as (_ & m & _ & Hs). by eapply IH. }
    rewrite lookup_insert_ne by done. rewrite Hq. cbn [mbind option_bind n_data]. eexists _, _. split; [reflexivity|]. split; [|split; [done|]].
    + cbn [first]. apply seg_snoc; [done|done|done|]. apply lookup_insert_eq.
    + cbn [last_]. rewrite fmap_app. cbn [fmap list_fmap fst]. by rewrite last_snoc.
Qed.

Lemma seg_dom h p l : seg h p l -> forall q, q ∈ l.*1 -> is_Some (h !! q).
Proof.
  revert p. induction l as [|[r d] l IH]; intros p Hs q Hq; cbn [fmap list_fmap fst] in Hq; [by apply elem_of_nil in Hq|].
  destruct Hs as (_ & n & Hn & Hs). apply elem_of_cons in Hq as [->|Hq]; [by eauto|]. by eapply IH.
Qed.

Lemma repr_size h c l : repr h c l -> (length l <= size h)%nat.
Proof.
  intros (Hs & Hnd & _). rewrite <- size_dom, <- (length_fmap fst l), <- (size_list_to_set (C := gset loc)) by done.
  apply subseteq_size. intros q Hq. apply elem_of_list_to_set in Hq. apply elem_of_dom. by eapply seg_dom.
Qed.

Lemma walk_seg h l : forall fuel p, seg h p l -> (length l <= fuel)%nat -> walk fuel h p = Some l.*1.
Proof.
  induction l as [|[q d] l IH]; intros fuel p Hs Hf; [cbn [seg] in Hs; subst p; by destruct fuel|]. destruct Hs as (-> & n & Hn & Hs).
  destruct fuel as [|fuel]; cbn [length] in Hf; [lia|]. cbn [walk]. rewrite Hn. cbn [mbind option_bind n_next]. rewrite (IH fuel n Hs) by lia. done.
Qed.

Lemma search_seg f h l : forall fuel p, seg h p l -> (length l <= fuel)%nat ->
  search fuel f h p = Some (fst <$> (snd <$> list_find (fun x => f x.2 = true) l)).
Proof.
  induction l as [|[q d] l IH]; intros fuel p Hs Hf; [cbn [seg] in Hs; subst p; by destruct fuel|]. destruct Hs as (-> & n & Hn & Hs).
  destruct fuel as [|fuel]; cbn [length] in Hf; [lia|]. cbn [search list_find]. rewrite Hn. cbn [mbind option_bind n_data n_next snd].
  destruct (f d) eqn:Ef; [by rewrite decide_True|]. rewrite decide_False by congruence. rewrite (IH fuel n Hs) by lia.
  by destruct (list_find _ l) as [[i x]|].
Qed.
End Chain.

(** ** Pairs *)

(** The data of [struct iwn_pair]; the value may be a null pointer. *)
Record iwn_pair := mkPair { p_key : list Z; p_key_len : Z; p_val : option (list Z); p_val_len : Z }.
(** The data of [struct iwn_val]. *)
Record iwn_val := mkVal { v_buf : option (list Z); v_len : Z }.
Abbreviation pairs_heap := (gmap loc (node (P := iwn_pair))).
Abbreviation vals_heap := (gmap loc (node (P := iwn_val))).

Definition IW_ERROR_ALLOC : Z := 1.

Definition iwn_val_add (h : vals_heap) (vals : chain) (v : loc) := chain_add h vals v.
Definition iwn_val_add_new (ok : bool) (h : vals_heap) (vals : chain) (buf : option (list Z)) (len : Z) : option (vals_heap * chain * Z) :=
  if negb ok then Some (h, vals, IW_ERROR_ALLOC)
  else
    let v := fresh (dom h) in
    '(h, vals) ← iwn_val_add (<[v := mkNode (mkVal buf len) None]> h) vals v;
    Some (h, vals, 0).
Definition iwn_pair_add (h : pairs_heap) (pairs : chain) (p : loc) := chain_add h pairs p.
Definition iwn_pairs_to_array (h : pairs_heap) (pairs : chain) := chain_to_array h pairs.
Definition iwn_vals_to_array (h : vals_heap) (vals : chain) := chain_to_array h vals.

(** [strncmp(a, b, n) == 0]: the comparison ends at a terminator. *)
Definition strncmp_eq (a b : list Z) (n : Z) : bool := bool_decide (cstr (take (Z.to_nat n) a) = cstr (take (Z.to_nat n) b)).

Definition pair_matches (key : list Z) (key_len : Z) (p : iwn_pair) : bool :=
  (p.(p_key_len) =? key_len) && strncmp_eq p.(p_key) key key_len.

Definition iwn_pair_find (h : pairs_heap) (pairs : chain) (key : list Z) (key_len : Z) : option (option loc) :=
  if key_len =? 0 then Some None
  else
    let key_len := if key_len <? 0 then zlen (cstr key) else key_len in
    search (size h) (pair_matches key key_len) h pairs.(first).

Definition iwn_pair_find_val (h : pairs_heap) (pairs : chain) (key : list Z) (key_len : Z) : option iwn_val :=
  p ← iwn_pair_find h pairs key key_len;
  match p with
  | Some p => n ← h !! p; Some (mkVal n.(n_data).(p_val) n.(n_data).(p_val_len))
  | None => Some (mkVal None 0)
  end.

(** [ok] tells whether the allocation in the pool succeeds; [strlen] of a null pointer is [None]. *)
Definition iwn_pair_add_pool (ok : bool) (h : pairs_heap) (pairs : chain) (key : list Z) (key_len : Z) (val : option (list Z)) (val_len : Z)
  : option (pairs_heap * chain * Z) :=
  if negb ok then Some (h, pairs, IW_ERROR_ALLOC)
  else
    let key_len := if key_len <? 0 then zlen (cstr key) else key_len in
    val_len ← (if val_len <? 0 then val ← val; Some (zlen (cstr val)) else Some val_len);
    let p := fresh (dom h) in
    '(h, pairs) ← iwn_pair_add (<[p := mkNode (mkPair key key_len val val_len) None]> h) pairs p;
    Some (h, pairs, 0).

Definition iwn_pair_add_pool_all (ok_val ok_key ok : bool) (h : pairs_heap) (pairs : chain) (key : list Z) (key_len : Z) (val : option (list Z)) (val_len : Z)
  : option (pairs_heap * chain * Z) :=
  pv ← (if val_len =? 0 then Some (inr (None, val_len))
        else
          val ← val;
          let val_len := if val_len <? 0 then zlen (cstr val) else val_len in
          Some (if ok_val : bool then inr (Some (take (Z.to_nat val_len) val), val_len) else inl IW_ERROR_ALLOC));
  match pv with
  | inl rc => Some (h, pairs, rc)
  | inr (pval, val_len) =>
      let key_len := if key_len <? 0 then zlen (cstr key) else key_len in
      if negb ok_key then Some (h, pairs, IW_ERROR_ALLOC)
      else iwn_pair_add_pool ok h pairs (take (Z.to_nat key_len) key) key_len pval val_len
  end.

(** ** A chain of pairs is a list with lookup by the first match *)

(** A call of [iwn_pair_add_pool] that allocates. *)
Fixpoint add_all (h : pairs_heap) (c : chain) (kvs : list (list Z * list Z)) : option (pairs_heap * chain) :=
  match kvs with
  | [] => Some (h, c)
  | (k, v) :: kvs => '(h, c, _) ← iwn_pair_add_pool true h c k (zlen k) (Some v) (zlen v); add_all h c kvs
  end.

Definition pair_of (kv : list Z * list Z) : iwn_pair := mkPair kv.1 (zlen kv.1) (Some kv.2) (zlen kv.2).

Lemma add_pool_repr h c l k v : repr h c l -> exists h' c' p,
  iwn_pair_add_pool true h c k (zlen k) (Some v) (zlen v) = Some (h', c', 0) /\ repr h' c' (l ++ [(p, pair_of (k, v))]).
Proof.
  intros Hr. unfold iwn_pair_add_pool. cbn [negb]. pose proof (zlen_nonneg k). pose proof (zlen_nonneg v).
  rewrite (proj2 (Z.ltb_ge (zlen k) 0)), (proj2 (Z.ltb_ge (zlen v) 0)) by lia. cbn [mbind option_bind].
  set (p := fresh (dom h)). assert (h !! p = None) as Hp by (apply not_elem_of_dom, is_fresh).
  assert (p ∉ l.*1) as Hin. { intros Hin. destruct Hr as (Hs & _). destruct (seg_dom _ _ _ Hs p Hin) as [x Hx]. congruence. }
  assert (repr (<[p := mkNode (pair_of (k, v)) None]> h) c l) as Hr'.
  { destruct Hr as (Hs & Hnd & Hl). split; [by apply seg_insert_ne|done]. }
  destruct (chain_add_repr _ c l p (pair_of (k, v)) None Hr' (lookup_insert_eq _ _ _) Hin) as (h' & c' & E & Hrep).
  exists h', c', p. unfold iwn_pair_add. change (mkPair k (zlen k) (Some v) (zlen v)) with (pair_of (k, v)). rewrite E. done.
Qed.

Lemma add_all_repr kvs : forall h c l, repr h c l -> exists h' c' l',
  add_all h c kvs = Some (h', c') /\ repr h' c' l' /\ l'.*2 = l.*2 ++ (pair_of <$> kvs).
Proof.
  induction kvs as [|[k v] kvs IH]; intros h c l Hr; cbn [add_all].
  - exists h, c, l. by rewrite app_nil_r.
  - destruct (add_pool_repr h c l k v Hr) as (h1 & c1 & p & -> & Hr1). cbn [mbind option_bind].
    destruct (IH h1 c1 _ Hr1) as (h2 & c2 & l2 & E & Hr2 & Hl). exists h2, c2, l2. split; [done|]. split; [done|].
    rewrite Hl, fmap_app, <- app_assoc. done.
Qed.

Definition find_kv (kvs : list (list Z * list Z)) (key : list Z) : option (list Z) :=
  snd <$> (snd <$> list_find (fun kv => kv.1 = key) kvs).

Lemma strncmp_nonzero a b : Forall (fun c => c <> 0) a -> Forall (fun c => c <> 0) b -> zlen a = zlen b ->
  strncmp_eq a b (zlen b) = true <-> a = b.
Proof.
  intros Ha Hb Hl. unfold strncmp_eq. rewrite bool_decide_eq_true. unfold zlen in *. rewrite Nat2Z.id, !take_ge by lia. by rewrite !cstr_nonzero.
Qed.

Lemma list_find_fmap_ext {A B} (P : A -> Prop) (Q : B -> Prop) `{forall x, Decision (P x)} `{forall x, Decision (Q x)} (g : A -> B) l :
  (forall x, x ∈ l -> P x <-> Q (g x)) -> (snd <$> list_find Q (g <$> l)) = g <$> (snd <$> list_find P l).
Proof.
  induction l as [|x l IH]; intros HPQ; [done|]. cbn [fmap list_fmap list_find].
  assert (P x <-> Q (g x)) as Hx by (apply HPQ; by left).
  destruct (decide (P x)) as [p|p]; [by rewrite decide_True by tauto|]. rewrite decide_False by tauto.
  assert (forall y, y ∈ l -> P y <-> Q (g y)) as HPQ' by (intros y Hy; apply HPQ; by right). specialize (IH HPQ').
  change (list_fmap A B g l) with (g <$> l) in *.
  destruct (list_find Q (g <$> l)) as [[i y]|], (list_find P l) as [[j z]|]; cbn in *; congruence.
Qed.

(** The pointer-level chain implements a list of pairs: after any sequence of additions
    [iwn_pairs_to_array] gives the pairs in the order they were added, and [iwn_pair_find_val]
    finds the value of the first pair with the key (keys and pairs without NUL bytes), or nothing. *)
Theorem pairs_refine_list (kvs : list (list Z * list Z)) :
  Forall (fun kv => Forall (fun c => c <> 0) kv.1) kvs ->
  exists h c ps, add_all ∅ chain_zero kvs = Some (h, c) /\
    iwn_pairs_to_array h c = Some ps /\ ((fun p => n_data <$> h !! p) <$> ps) = ((fun kv => Some (pair_of kv)) <$> kvs) /\
    forall key, key <> [] -> Forall (fun c => c <> 0) key ->
      iwn_pair_find_val h c key (zlen key) =
      Some (match find_kv kvs key with Some v => mkVal (Some v) (zlen v) | None => mkVal None 0 end).
Proof.
  intros Hkvs. destruct (add_all_repr kvs ∅ chain_zero []) as (h & c & l & E & Hr & Hl).
  { split; [done|]. split; [constructor|done]. }
  cbn [fmap list_fmap app] in Hl. pose proof Hr as (Hs & Hnd & _). pose proof (repr_size h c l Hr) as Hsz.
  assert (forall p d, (p, d) ∈ l -> n_data <$> h !! p = Some d) as Hdata.
  { clear -Hs. revert Hs. generalize (first c). induction l as [|[q e] l IH]; intros r Hs p d Hin; [by apply elem_of_nil in Hin|].
    destruct Hs as (_ & n & Hn & Hs). apply elem_of_cons in Hin as [[= -> ->]|Hin]; [by rewrite Hn|]. by eapply IH. }
  exists h, c, l.*1. split; [done|]. split; [by apply walk_seg|]. split.
  - rewrite <- list_fmap_compose. transitivity (Some <$> l.*2); [|by rewrite Hl, <- list_fmap_compose].
    rewrite <- list_fmap_compose. apply list_fmap_ext. intros i [p d] Hi. cbn. apply Hdata. by eapply list_elem_of_lookup_2.
  - intros key Hne Hkey. pose proof (zlen_nonneg key).
    assert (0 < zlen key) by (destruct key; [done|rewrite zlen_cons; pose proof (zlen_nonneg key); lia]).
    unfold iwn_pair_find_val, iwn_pair_find. rewrite (proj2 (Z.eqb_neq _ 0)), (proj2 (Z.ltb_ge _ 0)) by lia.
    rewrite (search_seg _ h l) by done. cbn [mbind option_bind].
    assert ((snd <$> (snd <$> list_find (fun x => pair_matches key (zlen key) x.2 = true) l)) =
            pair_of <$> (snd <$> list_find (fun kv => kv.1 = key) kvs)) as Hfind.
    { transitivity (snd <$> list_find (fun d => pair_matches key (zlen key) d = true) (l.*2)).
      - symmetry. apply (list_find_fmap_ext (fun x => pair_matches key (zlen key) x.2 = true) (fun d => pair_matches key (zlen key) d = true) snd). done.
      - rewrite Hl. apply list_find_fmap_ext. intros kv Hkv. rewrite Forall_forall in Hkvs. specialize (Hkvs kv Hkv). unfold pair_matches. cbn [pair_of p_key_len p_key].
        rewrite andb_true_iff, Z.eqb_eq. split.
        + intros ->. split; [done|]. by apply strncmp_nonzero.
        + intros [Hlen Hcmp]. by apply strncmp_nonzero in Hcmp. }
    unfold find_kv. destruct (list_find _ l) as [[i [p d]]|] eqn:El; cbn [fmap option_fmap option_map fst snd] in *.
    + apply list_find_Some in El as (Hi & _). apply list_elem_of_lookup_2, Hdata in Hi. destruct (h !! p) as [[d' n]|]; [|done]. injection Hi as ->.
      cbn [mbind option_bind n_data]. destruct (list_find _ kvs) as [[j kv]|]; [|done]. cbn in Hfind |- *. injection Hfind as ->. done.
    + destruct (list_find _ kvs) as [[j kv]|]; [done|]. done.
Qed.

Lemma pairs_refine_list_witness :
  exists h c ps, add_all ∅ chain_zero [([97], [1]); ([98], [2]); ([97], [3])] = Some (h, c) /\
    iwn_pairs_to_array h c = Some ps /\
    ((fun p => n_data <$> h !! p) <$> ps) = ((fun kv => Some (pair_of kv)) <$> [([97], [1]); ([98], [2]); ([97], [3])]) /\
    forall key, key <> [] -> Forall (fun c => c <> 0) key ->
      iwn_pair_find_val h c key (zlen key) =
      Some (match find_kv [([97], [1]); ([98], [2]); ([97], [3])] key with Some v => mkVal (Some v) (zlen v) | None => mkVal None 0 end).
Proof. apply (pairs_refine_list [([97], [1]); ([98], [2]); ([97], [3])]). by repeat constructor. Defined.
