(* ===== verification/HttpParser.v ===== *)
(** * HttpParser: the request scanner of [src/src/http/iwn_http_server.c]

    The tables, the stream of received bytes ([struct stream]), the two coupled automata of
    [struct parser] and the functions that drive them: [_transition], [_meta_trigger],
    [_meta_emit_token] and [_token_parse].  A [char] is its byte; [None] is undefined behaviour:
    an access outside of a table, of a string literal or of the receive buffer, or a [memcpy]
    between overlapping regions. *)
From S2P Require Import Prelude.

(** ** Constants and tables *)

(** [enum token_e] *)
Definition HS_TOK_NONE : Z := 0.
Definition HS_TOK_METHOD : Z := 1.
Definition HS_TOK_TARGET : Z := 2.
Definition HS_TOK_VERSION : Z := 3.
Definition HS_TOK_HEADER_KEY : Z := 4.
Definition HS_TOK_HEADER_VAL : Z := 5.
Definition HS_TOK_CHUNK_BODY : Z := 6.
Definition HS_TOK_BODY : Z := 7.
Definition HS_TOK_BODY_STREAM : Z := 8.
Definition HS_TOK_REQ_END : Z := 9.
Definition HS_TOK_EOF : Z := 10.
Definition HS_TOK_ERROR : Z := 11.

(** [enum char_type_e] *)
Definition HS_SPC : Z := 0.
Definition HS_NL : Z := 1.
Definition HS_CR : Z := 2.
Definition HS_COLN : Z := 3.
Definition HS_TAB : Z := 4.
Definition HS_SCOLN : Z := 5.
Definition HS_DIGIT : Z := 6.
Definition HS_HEX : Z := 7.
Definition HS_ALPHA : Z := 8.
Definition HS_TCHAR : Z := 9.
Definition HS_VCHAR : Z := 10.
Definition HS_ETC : Z := 11.
Definition HS_CHAR_TYPE_LEN : Z := 12.

(** [enum meta_state_e] *)
Definition M_WFK : Z := 0.
Definition M_ANY : Z := 1.
Definition M_MTE : Z := 2.
Definition M_MCL : Z := 3.
Definition M_CLV : Z := 4.
Definition M_MCK : Z := 5.
Definition M_SML : Z := 6.
Definition M_CHK : Z := 7.
Definition M_BIG : Z := 8.
Definition M_ZER : Z := 9.
Definition M_CSZ : Z := 10.
Definition M_CBD : Z := 11.
Definition M_LST : Z := 12.
Definition M_STR : Z := 13.
Definition M_SEN : Z := 14.
Definition M_BDY : Z := 15.
Definition M_END : Z := 16.
Definition M_ERR : Z := 17.

(** [enum meta_type_e] and the events of the body states *)
Definition HS_META_NOT_CONTENT_LEN : Z := 0.
Definition HS_META_NOT_TRANSFER_ENC : Z := 1.
Definition HS_META_END_KEY : Z := 2.
Definition HS_META_END_VALUE : Z := 3.
Definition HS_META_END_HEADERS : Z := 4.
Definition HS_META_LARGE_BODY : Z := 5.
Definition HS_META_TYPE_LEN : Z := 6.
Definition HS_META_NOT_CHUNKED : Z := 0.
Definition HS_META_NON_ZERO : Z := 0.
Definition HS_META_END_CHK_SIZE : Z := 1.
Definition HS_META_END_CHUNK : Z := 2.
Definition HS_META_NEXT : Z := 0.

(** [enum state_e] *)
Definition ST : Z := 0.
Definition MT : Z := 1.
Definition MS : Z := 2.
Definition TR : Z := 3.
Definition TS : Z := 4.
Definition VN : Z := 5.
Definition RR : Z := 6.
Definition RN : Z := 7.
Definition HK : Z := 8.
Definition HS : Z := 9.
Definition HV : Z := 10.
Definition HR : Z := 11.
Definition HE : Z := 12.
Definition ER : Z := 13.
Definition HN : Z := 14.
Definition BD : Z := 15.
Definition CS : Z := 16.
Definition CB : Z := 17.
Definition CE : Z := 18.
Definition CR : Z := 19.
Definition CN : Z := 20.
Definition CD : Z := 21.
Definition C1 : Z := 22.
Definition C2 : Z := 23.
Definition BR : Z := 24.
Definition HS_STATE_LEN : Z := 25.

(** Next state, by state and character type. *)
Definition _transitions : list Z := [
   BR; BR; BR; BR; BR; BR; BR; MT; MT; MT; BR; BR;
   MS; BR; BR; BR; BR; BR; MT; MT; MT; MT; BR; BR;
   BR; BR; BR; BR; BR; BR; TR; TR; TR; TR; TR; BR;
   TS; BR; BR; TR; BR; TR; TR; TR; TR; TR; TR; BR;
   BR; BR; BR; BR; BR; BR; VN; VN; VN; VN; VN; BR;
   BR; BR; RR; BR; BR; BR; VN; VN; VN; VN; VN; BR;
   BR; RN; BR; BR; BR; BR; BR; BR; BR; BR; BR; BR;
   BR; BR; BR; BR; BR; BR; HK; HK; HK; HK; BR; BR;
   BR; BR; BR; HS; BR; BR; HK; HK; HK; HK; BR; BR;
   HS; HS; HS; HV; HS; HV; HV; HV; HV; HV; HV; BR;
   HV; BR; HR; HV; HV; HV; HV; HV; HV; HV; HV; BR;
   BR; HE; BR; BR; BR; BR; BR; BR; BR; BR; BR; BR;
   BR; BR; ER; BR; BR; BR; HK; HK; HK; HK; BR; BR;
   BR; HN; BR; BR; BR; BR; BR; BR; BR; BR; BR; BR;
   BD; BD; BD; BD; BD; BD; BD; BD; BD; BD; BD; BD;
   BD; BD; BD; BD; BD; BD; BD; BD; BD; BD; BD; BD;
   BR; BR; CR; BR; BR; CE; CS; CS; BR; BR; BR; BR;
   CB; CB; CB; CB; CB; CB; CB; CB; CB; CB; CB; CB;
   BR; BR; CR; CE; CE; CE; CE; CE; CE; CE; CE; BR;
   BR; CN; BR; BR; BR; BR; BR; BR; BR; BR; BR; BR;
   CB; CB; CB; CB; CB; CB; CB; CB; CB; CB; CB; CB;
   BR; BR; C1; BR; BR; BR; BR; BR; BR; BR; BR; BR;
   BR; C2; BR; BR; BR; BR; BR; BR; BR; BR; BR; BR;
   BR; BR; BR; BR; BR; BR; CS; CS; BR; BR; BR; BR].

(** Next meta state, by meta state and event. *)
Definition _meta_transitions : list Z := [
   M_WFK; M_WFK; M_WFK; M_ANY; M_END; M_ERR;
   M_MTE; M_MCL; M_WFK; M_ERR; M_END; M_ERR;
   M_MTE; M_WFK; M_MCK; M_ERR; M_ERR; M_ERR;
   M_WFK; M_MCL; M_CLV; M_ERR; M_ERR; M_ERR;
   M_ERR; M_ERR; M_ERR; M_SML; M_ERR; M_ERR;
   M_WFK; M_ERR; M_ERR; M_CHK; M_ERR; M_ERR;
   M_SML; M_SML; M_SML; M_SML; M_BDY; M_BIG;
   M_CHK; M_CHK; M_CHK; M_CHK; M_ZER; M_ERR;
   M_BIG; M_BIG; M_BIG; M_BIG; M_STR; M_ERR;
   M_CSZ; M_LST; M_ERR; M_ERR; M_ERR; M_ERR;
   M_CSZ; M_CBD; M_ERR; M_ERR; M_ERR; M_ERR;
   M_CBD; M_CBD; M_ZER; M_ERR; M_ERR; M_ERR;
   M_LST; M_END; M_END; M_ERR; M_ERR; M_ERR;
   M_SEN; M_ERR; M_ERR; M_ERR; M_ERR; M_ERR;
   M_END; M_ERR; M_ERR; M_ERR; M_ERR; M_ERR;
   M_END; M_ERR; M_ERR; M_ERR; M_ERR; M_ERR;
   M_WFK; M_ERR; M_ERR; M_ERR; M_ERR; M_ERR].

(** Character type of an ASCII character. *)
Definition _ctype : list Z := [
   HS_ETC; HS_ETC; HS_ETC; HS_ETC; HS_ETC; HS_ETC; HS_ETC; HS_ETC;
   HS_ETC; HS_TAB; HS_NL; HS_ETC; HS_ETC; HS_CR; HS_ETC; HS_ETC;
   HS_ETC; HS_ETC; HS_ETC; HS_ETC; HS_ETC; HS_ETC; HS_ETC; HS_ETC;
   HS_ETC; HS_ETC; HS_ETC; HS_ETC; HS_ETC; HS_ETC; HS_ETC; HS_ETC;
   HS_SPC; HS_TCHAR; HS_VCHAR; HS_TCHAR; HS_TCHAR; HS_TCHAR; HS_TCHAR; HS_TCHAR;
   HS_VCHAR; HS_VCHAR; HS_TCHAR; HS_TCHAR; HS_TCHAR; HS_TCHAR; HS_TCHAR; HS_VCHAR;
   HS_DIGIT; HS_DIGIT; HS_DIGIT; HS_DIGIT; HS_DIGIT; HS_DIGIT; HS_DIGIT; HS_DIGIT;
   HS_DIGIT; HS_DIGIT; HS_COLN; HS_SCOLN; HS_VCHAR; HS_VCHAR; HS_VCHAR; HS_VCHAR;
   HS_VCHAR; HS_HEX; HS_HEX; HS_HEX; HS_HEX; HS_HEX; HS_HEX; HS_ALPHA;
   HS_ALPHA; HS_ALPHA; HS_ALPHA; HS_ALPHA; HS_ALPHA; HS_ALPHA; HS_ALPHA; HS_ALPHA;
   HS_ALPHA; HS_ALPHA; HS_ALPHA; HS_ALPHA; HS_ALPHA; HS_ALPHA; HS_ALPHA; HS_ALPHA;
   HS_ALPHA; HS_ALPHA; HS_ALPHA; HS_VCHAR; HS_VCHAR; HS_VCHAR; HS_TCHAR; HS_TCHAR;
   HS_TCHAR; HS_HEX; HS_HEX; HS_HEX; HS_HEX; HS_HEX; HS_HEX; HS_ALPHA;
   HS_ALPHA; HS_ALPHA; HS_ALPHA; HS_ALPHA; HS_ALPHA; HS_ALPHA; HS_ALPHA; HS_ALPHA;
   HS_ALPHA; HS_ALPHA; HS_ALPHA; HS_ALPHA; HS_ALPHA; HS_ALPHA; HS_ALPHA; HS_ALPHA;
   HS_ALPHA; HS_ALPHA; HS_ALPHA; HS_VCHAR; HS_TCHAR; HS_VCHAR; HS_TCHAR; HS_ETC].

(** Token a state starts. *)
Definition _token_start_states : list Z := [
   0; HS_TOK_METHOD; 0; HS_TOK_TARGET; 0; HS_TOK_VERSION; 0; 0; HS_TOK_HEADER_KEY;
   0; HS_TOK_HEADER_VAL; 0; 0; 0; 0; HS_TOK_BODY; 0; HS_TOK_CHUNK_BODY;
   0; 0; 0; 0; 0; 0; 0].

(** ** Data *)

(** [struct token] *)
Record token := mkToken { t_index : Z; t_len : Z; t_type : Z }.
Definition token_zero : token := mkToken 0 0 0.

#[export] Instance token_eq_dec : EqDecision token.
Proof. solve_decision. Defined.

(** [struct stream]; [s_buf] is the block behind [buf], [capacity + 1] bytes long, and
    [s_consumed] the flag [HS_SF_CONSUMED]. *)
Record stream := mkStream {
  s_buf : list Z; s_token : token; s_bytes_total : Z; s_capacity : Z; s_length : Z; s_index : Z;
  s_anchor : Z; s_consumed : bool }.

(** [struct parser] *)
Record parser := mkParser {
  p_content_length : Z; p_body_consumed : Z; p_match_index : Z; p_header_count : Z; p_state : Z; p_meta : Z }.
Definition parser_zero : parser := mkParser 0 0 0 0 0 0.

(** The fields of [struct iwn_http_server_spec] the scanner reads. *)
Record spec := mkSpec {
  request_buf_max_size : Z; request_buf_size : Z; request_token_max_len : Z; request_max_headers_count : Z }.

(** The defaults [iwn_http_server_create] applies to the limits. *)
Definition spec_defaults (s : spec) : spec :=
  mkSpec
    (if s.(request_buf_max_size) <? 1024 * 1024 then 8 * 1024 * 1024 else s.(request_buf_max_size))
    (if s.(request_buf_size) <? 1023 then 1023 else s.(request_buf_size))
    (if s.(request_token_max_len) <? 8191 then 8191 else s.(request_token_max_len))
    (if s.(request_max_headers_count) <? 1 then 127 else s.(request_max_headers_count)).

(** ** The stream *)

Definition _stream_next (s : stream) : stream * option (option Z) :=
  let s := {| s with s_consumed := false |} in
  if s.(s_length) <=? s.(s_index) then (s, Some None) else (s, Some <$> rd s.(s_buf) s.(s_index)).

Definition token_grow (t : token) (n : Z) : token :=
  mkToken t.(t_index) (if t.(t_type) =? 0 then 0 else i32 (t.(t_len) + n)) t.(t_type).

Definition _stream_consume (s : stream) : stream :=
  if s.(s_consumed) then s
  else {| s with s_consumed := true; s_index := s.(s_index) + 1; s_token := token_grow s.(s_token) 1 |}.

Definition _stream_shift (s : stream) : option stream :=
  let t := s.(s_token) in
  if t.(t_index) =? s.(s_anchor) then Some s
  else
    let bytes := s.(s_length) - t.(t_index) in
    buf ← (if 0 <? t.(t_len)
           then if (0 <=? bytes) && (bytes <=? Z.abs (t.(t_index) - s.(s_anchor)))
                then memcpy s.(s_buf) s.(s_anchor) (slice s.(s_buf) t.(t_index) s.(s_length))
                else None
           else Some s.(s_buf));
    Some {| s with s_buf := buf; s_token := mkToken (i32 s.(s_anchor)) t.(t_len) t.(t_type);
                   s_index := s.(s_anchor) + t.(t_len); s_length := s.(s_anchor) + t.(t_len) |}.

Definition _stream_anchor (s : stream) : stream := {| s with s_anchor := s.(s_index) |}.

Definition _stream_begin_token (s : stream) (type : Z) : stream :=
  {| s with s_token := mkToken (i32 s.(s_index)) s.(s_token).(t_len) type |}.

Definition _stream_emit (s : stream) : stream * token := ({| s with s_token := token_zero |}, s.(s_token)).

Definition _stream_can_contain (sp : spec) (s : stream) (size : Z) : bool :=
  size <=? sp.(request_buf_max_size) - s.(s_index) + 1.

Definition _stream_jump (s : stream) (offset : Z) : stream * bool :=
  let s := {| s with s_consumed := true |} in
  if s.(s_length) <? s.(s_index) + offset then (s, false)
  else ({| s with s_index := s.(s_index) + offset; s_token := token_grow s.(s_token) offset |}, true).

Definition _stream_jumpall (s : stream) : stream * Z :=
  let offset := s.(s_length) - s.(s_index) in
  ({| s with s_consumed := true; s_index := s.(s_index) + offset; s_token := token_grow s.(s_token) offset |}, offset).

(** ** The meta automaton *)

Definition _meta_trigger (p : parser) (event : Z) : option parser :=
  to ← rd _meta_transitions (p.(p_meta) * HS_META_TYPE_LEN + event);
  Some {| p with p_meta := to |}.

Definition _meta_emit_token (p : parser) : option (parser * token) :=
  if p.(p_meta) =? M_SEN then
    p' ← _meta_trigger p HS_META_NEXT; Some (p', mkToken 0 0 HS_TOK_CHUNK_BODY)
  else if p.(p_meta) =? M_END then Some (parser_zero, mkToken 0 0 HS_TOK_REQ_END)
  else Some (p, token_zero).

Definition str_transfer_encoding : list Z := bytes_of_string "transfer-encoding".
Definition str_content_length : list Z := bytes_of_string "content-length".
Definition str_chunked : list Z := bytes_of_string "chunked".

Definition lower (c : Z) : Z := if (65 <=? c) && (c <=? 90) then c + 32 else c.

(** The macro [MATCH]: its [m] is the one of the enclosing function and survives a match that is
    past the end of its literal. *)
Definition MATCH (str : list Z) (event : Z) (c m : Z) (p : parser) : option (Z * parser) :=
  m ← (if p.(p_match_index) <? zlen str then rd str p.(p_match_index) else Some m);
  p ← (if lower c =? m then Some p else _meta_trigger p event);
  Some (m, p).

Definition match_next (p : parser) : parser := {| p with p_match_index := i16 (p.(p_match_index) + 1) |}.

(** ** [_transition] *)

(** The effects of leaving a state. *)
Definition leave_state (sp : spec) (s : stream) (p : parser) (from to : Z) : option (stream * parser * token) :=
  if from =? to then Some (s, p, token_zero)
  else
    type ← rd _token_start_states to;
    let s := if type =? HS_TOK_NONE then s else _stream_begin_token s type in
    p ← (if from =? CS then _meta_trigger p HS_META_END_CHK_SIZE else Some p);
    '(s, p, emitted) ←
      (if to =? HK then
         let p := {| p with p_header_count := i16 (p.(p_header_count) + 1) |} in
         Some (s, p, if sp.(request_max_headers_count) <? p.(p_header_count)
                     then mkToken 0 0 HS_TOK_ERROR else token_zero)
       else if to =? HS then
         p ← _meta_trigger p HS_META_END_KEY;
         let '(s, t) := _stream_emit s in Some (s, p, t)
       else Some (s, p, token_zero));
    Some (s, {| p with p_match_index := 0 |}, emitted).

Definition on_header_key (c : Z) (p : parser) : option parser :=
  '(m, p) ← MATCH str_transfer_encoding HS_META_NOT_TRANSFER_ENC c 0 p;
  '(m, p) ← MATCH str_content_length HS_META_NOT_CONTENT_LEN c m p;
  Some (match_next p).

Definition on_header_val (c : Z) (p : parser) : option parser :=
  if p.(p_meta) =? M_MCK then
    '(m, p) ← MATCH str_chunked HS_META_NOT_CHUNKED c 0 p; Some (match_next p)
  else if p.(p_meta) =? M_CLV then
    Some {| p with p_content_length := i64 (i64 (p.(p_content_length) * 10) + (i8 c - 48)) |}
  else Some p.

Definition on_headers_end (sp : spec) (s : stream) (p : parser) (emitted : token) : option (parser * token) :=
  p ← (if (p.(p_meta) =? M_SML) && negb (_stream_can_contain sp s p.(p_content_length))
       then _meta_trigger p HS_META_LARGE_BODY else Some p);
  let emitted := if (p.(p_meta) =? M_BIG) || (p.(p_meta) =? M_CHK)
                 then {| emitted with t_type := HS_TOK_BODY_STREAM |} else emitted in
  p ← _meta_trigger p HS_META_END_HEADERS;
  let p := if (p.(p_content_length) =? 0) && (p.(p_meta) =? M_BDY) then {| p with p_meta := M_END |} else p in
  Some (p, if p.(p_meta) =? M_END then {| emitted with t_type := HS_TOK_BODY |} else emitted).

Definition hex_digit_value (c : Z) : option Z :=
  if (65 <=? c) && (c <=? 70) then Some (c - 55)
  else if (97 <=? c) && (c <=? 102) then Some (c - 87)
  else if (48 <=? c) && (c <=? 57) then Some (c - 48)
  else None.

Definition on_chunk_size (c : Z) (p : parser) : option parser :=
  p ← (if c =? 48 then Some p else _meta_trigger p HS_META_NON_ZERO);
  Some (match hex_digit_value c with
        | Some d => {| p with p_content_length := i64 (i64 (p.(p_content_length) * 16) + d) |}
        | None => p
        end).

Definition on_body (to : Z) (s : stream) (p : parser) (emitted : token) : option (stream * parser * token) :=
  let s := if p.(p_meta) =? M_STR then _stream_begin_token s HS_TOK_CHUNK_BODY else s in
  let body_left := p.(p_content_length) - p.(p_body_consumed) in
  let '(s, jumped) := _stream_jump s (i32 body_left) in
  if jumped then
    let '(s, emitted) := _stream_emit s in
    p ← _meta_trigger p HS_META_NEXT;
    Some (s, {| p with p_state := if to =? CB then CD else p.(p_state); p_content_length := 0; p_body_consumed := 0 |},
          emitted)
  else
    let '(s, n) := _stream_jumpall s in
    let p := {| p with p_body_consumed := p.(p_body_consumed) + n |} in
    if p.(p_meta) =? M_STR then
      let '(s, emitted) := _stream_emit s in
      s ← _stream_shift s; Some (s, p, emitted)
    else Some (s, p, emitted).

(** The [switch (to)] of [_transition]. *)
Definition enter_state (sp : spec) (c to : Z) (s : stream) (p : parser) (emitted : token)
  : option (stream * parser * token) :=
  if (to =? MS) || (to =? TS) then let '(s, t) := _stream_emit s in Some (s, p, t)
  else if (to =? RR) || (to =? HR) then
    p ← _meta_trigger p HS_META_END_VALUE; let '(s, t) := _stream_emit s in Some (s, p, t)
  else if to =? HK then p ← on_header_key c p; Some (s, p, emitted)
  else if to =? HV then p ← on_header_val c p; Some (s, p, emitted)
  else if to =? HN then '(p, emitted) ← on_headers_end sp s p emitted; Some (s, p, emitted)
  else if to =? CS then p ← on_chunk_size c p; Some (s, p, emitted)
  else if (to =? CB) || (to =? BD) then on_body to s p emitted
  else if to =? C2 then p ← _meta_trigger p HS_META_END_CHUNK; Some (s, p, emitted)
  else if to =? BR then Some (s, p, {| emitted with t_type := HS_TOK_ERROR |})
  else Some (s, p, emitted).

Definition _transition (sp : spec) (c from to : Z) (s : stream) (p : parser) : option (stream * parser * token) :=
  let s := if from =? HN then _stream_anchor s else s in
  '(s, p, emitted) ← leave_state sp s p from to;
  enter_state sp c to s p emitted.

(** ** [_token_parse] *)

Definition char_type (c : Z) : option Z := if i8 c <? 0 then Some HS_ETC else rd _ctype c.

Section Parse.
(** [proxied s p] is the answer of [_proxy_check] at the end of the headers: [true] when the
    connection has been handed to a proxy endpoint. *)
Context (sp : spec) (proxied : stream -> parser -> bool).

Inductive step_result := SProxied | SToken (t : token) | SMore.

(** One iteration of the scan loop, on the character [c]. *)
Definition scan_char (c : Z) (s : stream) (p : parser) : option (stream * parser * step_result) :=
  type ← char_type c;
  to ← rd _transitions (p.(p_state) * HS_CHAR_TYPE_LEN + type);
  if (to =? HN) && proxied s p then Some (s, p, SProxied)
  else
    let to := if negb (to =? HN) && (to =? BD) && (p.(p_state) =? HN) && (p.(p_meta) =? M_ZER) then CS else to in
    let from := p.(p_state) in
    '(s, p, emitted) ← _transition sp c from to s {| p with p_state := to |};
    Some (_stream_consume s, p, if emitted.(t_type) =? HS_TOK_NONE then SMore else SToken emitted).

Fixpoint scan_loop (fuel : nat) (s : stream) (p : parser) : option (stream * parser * step_result) :=
  match fuel with
  | O => None
  | S fuel =>
      let '(s, next) := _stream_next s in
      c ← next;
      match c with
      | None => Some (s, p, SMore)
      | Some c =>
          '(s, p, r) ← scan_char c s p;
          match r with SMore => scan_loop fuel s p | _ => Some (s, p, r) end
      end
  end.

(** Every iteration that does not return moves [index] forward. *)
Definition scan_fuel (s : stream) : nat := S (Z.to_nat (s.(s_length) - s.(s_index))).

Definition parse_end (s : stream) (p : parser) : option (stream * parser * token) :=
  s ← (if p.(p_state) =? CB then _stream_shift s else Some s);
  '(p, token) ← _meta_emit_token p;
  let ct := s.(s_token) in
  Some (s, p,
    if negb (ct.(t_type) =? HS_TOK_CHUNK_BODY) && negb (ct.(t_type) =? HS_TOK_BODY)
       && (sp.(request_token_max_len) <? ct.(t_len))
    then {| token with t_type := HS_TOK_ERROR |} else token).

Definition _token_parse (s : stream) (p : parser) : option (stream * parser * token) :=
  '(p, token) ← _meta_emit_token p;
  if negb (token.(t_type) =? HS_TOK_NONE) then Some (s, p, token)
  else
    '(s, p, r) ← scan_loop (scan_fuel s) s p;
    match r with
    | SProxied => Some (s, p, token_zero)
    | SToken t => Some (s, p, t)
    | SMore => parse_end s p
    end.
End Parse.
