(* ===== verification/HttpSafe.v ===== *)
(** * HttpSafe: the request scanner stays inside of its tables and its buffer

    The two automata of [HttpParser.v] are driven by tables that have no row for the error states:
    the scanner is safe because only some combinations of a state and a meta state occur.  This
    file states which ones, shows that every character keeps them (or is answered with an error
    token), and names the situations the code does not defend itself against ([hazard]). *)
From S2P Require Import Prelude HttpParser.

(** ** The joint invariant of the two automata *)

(** The meta states the scanner can be in when it reads a character in a given state. *)
Definition metas_at (state : Z) : list Z :=
  if state <=? VN then [M_WFK]
  else if state <=? RN then [M_ANY]
  else if state =? HK then [M_WFK; M_MTE; M_MCL; M_SML; M_CHK]
  else if state <=? HV then [M_WFK; M_MCK; M_CLV; M_SML; M_CHK]
  else if state <=? ER then [M_ANY; M_SML; M_CHK]
  else if state =? HN then [M_BDY; M_STR; M_ZER]
  else if state =? BD then [M_BDY; M_STR]
  else if state =? CS then [M_ZER; M_CSZ]
  else if state <=? C1 then [M_CBD; M_LST]
  else if state =? C2 then [M_ZER; M_END]
  else [].

(** What a token that ends the scan of a piece of the stream leaves behind, in addition: a request
    that is complete, or a streamed body that is. *)
Definition metas_after (state : Z) : list Z :=
  metas_at state ++ (if state =? HN then [M_END] else if state =? BD then [M_END; M_SEN] else []).

Definition joint (p : parser) : Prop := 0 <= p.(p_state) <= C2 /\ p.(p_meta) ∈ metas_at p.(p_state).
Definition joint_after (p : parser) : Prop := 0 <= p.(p_state) <= C2 /\ p.(p_meta) ∈ metas_after p.(p_state).

#[export] Instance joint_dec p : Decision (joint p).
Proof. unfold joint. apply _. Defined.

(** The token under construction ends at the read position. *)
Definition token_ok (s : stream) : Prop :=
  let t := s.(s_token) in
  (t.(t_type) = 0 -> t.(t_len) = 0) /\
  (t.(t_type) <> 0 -> 0 <= t.(t_index) /\ 0 <= t.(t_len) /\ t.(t_index) + t.(t_len) = s.(s_index)).

Record stream_ok (s : stream) : Prop := {
  so_index : 0 <= s.(s_index) <= s.(s_length);
  so_anchor : 0 <= s.(s_anchor) <= s.(s_index);
  so_buf : s.(s_length) <= zlen s.(s_buf);
  so_int : s.(s_length) < 2 ^ 31;
  so_bytes : bytes_ok s.(s_buf);
  so_token : token_ok s }.

(** A token that lies inside of the first [n] bytes of the buffer. *)
Definition token_in (n : Z) (t : token) : Prop :=
  0 <= t.(t_index) /\ 0 <= t.(t_len) /\ t.(t_index) + t.(t_len) <= n.

(** The states in which the next character belongs to a body. *)
Definition reads_body (p : parser) : bool :=
  (p.(p_state) =? BD) || (p.(p_state) =? CB) || (p.(p_state) =? CN) ||
  ((p.(p_state) =? HN) && negb (p.(p_meta) =? M_ZER)).

(** The situations the scanner does not check: a body length that is negative or does not fit
    [int], a header key that makes [match_index] overflow, and bytes behind the last chunk. *)
Definition hazard (p : parser) : bool :=
  (reads_body p && let left := p.(p_content_length) - p.(p_body_consumed) in (left <? 0) || (2 ^ 31 <=? left))
  || (p.(p_match_index) <? 0) || (32767 <=? p.(p_match_index))
  || ((p.(p_state) =? C2) && (p.(p_meta) =? M_END)).

(** ** Table lookups *)

Definition types_ok : bool := all_bytes (fun c => match char_type c with Some t => (0 <=? t) && (t <? 12) | None => false end).

Lemma char_type_ok c : byte_ok c -> exists t, char_type c = Some t /\ 0 <= t < 12.
Proof.
  intros H. pose proof (all_bytes_spec (fun c => match char_type c with Some t => (0 <=? t) && (t <? 12) | None => false end)
    ltac:(vm_compute; reflexivity) c H) as E. cbv beta in E.
  destruct (char_type c) as [t|]; [|done]. exists t. split; [done|]. lia.
Qed.

(** The edges of [_transitions], errors left out. *)
Definition table_edges : list (Z * Z) :=
  [(ST, MT); (MT, MT); (MT, MS); (MS, TR); (TR, TR); (TR, TS); (TS, VN); (VN, VN); (VN, RR); (RR, RN);
   (RN, HK); (HK, HK); (HK, HS); (HS, HS); (HS, HV); (HV, HV); (HV, HR); (HR, HE); (HE, HK); (HE, ER);
   (ER, HN); (HN, BD); (BD, BD); (CS, CS); (CS, CR); (CS, CE); (CE, CE); (CE, CR); (CR, CN); (CN, CB);
   (CB, CB); (CD, C1); (C1, C2); (C2, CS)].

(** [_token_parse] adds an edge, from the end of the headers into a chunked body. *)
Definition edges : list (Z * Z) := (HN, CS) :: table_edges.

Definition edges_ok : bool :=
  forallb (fun st => forallb (fun ty =>
    match rd _transitions (st * 12 + ty) with
    | Some to => (to =? BR) || bool_decide ((st, to) ∈ table_edges)
    | None => false
    end) (Z.of_nat <$> seq 0 12)) (Z.of_nat <$> seq 0 24).

Lemma transition_edge st ty : 0 <= st <= C2 -> 0 <= ty < 12 ->
  exists to, rd _transitions (st * HS_CHAR_TYPE_LEN + ty) = Some to /\ (to = BR \/ (st, to) ∈ table_edges).
Proof.
  intros Hs Ht. assert (edges_ok = true) as E by (vm_compute; reflexivity).
  unfold edges_ok in E. rewrite forallb_forall in E.
  specialize (E st). rewrite forallb_forall in E.
  specialize (E ltac:(apply list_elem_of_In, list_elem_of_fmap; exists (Z.to_nat st); split; [lia|];
                      apply elem_of_seq; change C2 with 23 in *; lia) ty
                ltac:(apply list_elem_of_In, list_elem_of_fmap; exists (Z.to_nat ty); split; [lia|]; apply elem_of_seq; lia)).
  change HS_CHAR_TYPE_LEN with 12. destruct (rd _transitions (st * 12 + ty)) as [to|]; [|done].
  exists to. split; [done|]. apply orb_true_iff in E as [E|E]; [left; lia|right; by apply bool_decide_eq_true in E].
Qed.

(** Evaluate the closed comparisons and table lookups of a goal. *)
Ltac tbl1 :=
  match goal with
  | |- context [Z.eqb ?a ?b] =>
      let v := eval vm_compute in (Z.eqb a b) in
      match v with true => change (Z.eqb a b) with true | false => change (Z.eqb a b) with false end
  | |- context [rd _meta_transitions ?i] =>
      let v := eval vm_compute in (rd _meta_transitions i) in
      match v with Some ?x => change (rd _meta_transitions i) with (Some x) | None => change (rd _meta_transitions i) with (@None Z) end
  | |- context [rd _token_start_states ?i] =>
      let v := eval vm_compute in (rd _token_start_states i) in
      match v with Some ?x => change (rd _token_start_states i) with (Some x) end
  end.
Ltac tbl_cbn := cbn [mbind option_bind orb andb negb p_state p_meta p_content_length p_body_consumed p_match_index
  p_header_count s_buf s_token s_bytes_total s_capacity s_length s_index s_anchor s_consumed t_index t_len t_type].
Ltac tbl := tbl_cbn; repeat (tbl1; tbl_cbn).

(** Membership in a list of constants. *)
Ltac elem_tac := apply (bool_decide_unpack _); vm_compute; exact I.

(** ** One character *)

(** The type of the token under construction. *)
Definition type_at (p : parser) : Z :=
  if p.(p_state) =? MT then HS_TOK_METHOD
  else if p.(p_state) =? TR then HS_TOK_TARGET
  else if p.(p_state) =? VN then HS_TOK_VERSION
  else if p.(p_state) =? HK then HS_TOK_HEADER_KEY
  else if p.(p_state) =? HV then HS_TOK_HEADER_VAL
  else if p.(p_state) =? CB then HS_TOK_CHUNK_BODY
  else if (p.(p_state) =? BD) && (p.(p_meta) =? M_BDY) then HS_TOK_BODY
  else HS_TOK_NONE.

Definition scan_inv (s : stream) (p : parser) : Prop :=
  stream_ok s /\ joint p /\ s.(s_token).(t_type) = type_at p.

Definition step_post (s : stream) (p : parser) (s' : stream) (p' : parser) (e : token) : Prop :=
  let s' := _stream_consume s' in
  zlen s'.(s_buf) = zlen s.(s_buf) /\ s'.(s_capacity) = s.(s_capacity) /\
  if e.(t_type) =? HS_TOK_NONE then
    scan_inv s' p' /\ s.(s_index) < s'.(s_index) /\ s'.(s_length) = s.(s_length)
  else e.(t_type) = HS_TOK_ERROR \/
    (stream_ok s' /\ s'.(s_token).(t_type) = type_at p' /\ joint_after p' /\ token_in s.(s_length) e).

Lemma match_char_ok str i m : 0 <= i -> exists m', (if i <? zlen str then rd str i else Some m) = Some m'.
Proof.
  intros Hi. destruct (Z.ltb_spec i (zlen str)); [|eauto].
  apply rd_total; lia.
Qed.

(** What scanning a header key or value may do to the parser. *)
Definition match_post (state : Z) (p : parser) (q : parser) : Prop :=
  q.(p_state) = p.(p_state) /\ q.(p_meta) ∈ metas_at state.

Lemma on_header_key_ok c p :
  0 <= p.(p_match_index) -> p.(p_meta) ∈ (M_ANY :: metas_at HK) -> (p.(p_meta) = M_ANY -> p.(p_match_index) = 0) ->
  exists q, on_header_key c p = Some q /\ match_post HK p q.
Proof.
  intros Hi Hm Ha. unfold on_header_key, MATCH. destruct p as [cl bc mi hc st me]. cbn [p_match_index p_meta] in *.
  destruct (match_char_ok str_transfer_encoding mi 0 Hi) as [m1 E1].
  destruct (match_char_ok str_content_length mi m1 Hi) as [m2 E2].
  rewrite E1. cbn [mbind option_bind]. unfold _meta_trigger.
  change (metas_at HK) with [M_WFK; M_MTE; M_MCL; M_SML; M_CHK] in *.
  repeat (apply elem_of_cons in Hm as [Hm|Hm]; [subst me|]); [..|by apply elem_of_nil in Hm].
  all: destruct (Z.eqb_spec (lower c) m1) as [F1|]; tbl; rewrite E2; tbl; destruct (Z.eqb_spec (lower c) m2) as [F2|]; tbl.
  all: eexists; (split; [reflexivity|]); split; [done|]; cbn [p_meta match_next]; try elem_tac.
  specialize (Ha eq_refl). subst mi. vm_compute in E1, E2. congruence.
Qed.

Lemma on_header_val_ok c p :
  0 <= p.(p_match_index) -> p.(p_meta) ∈ metas_at HV -> exists q, on_header_val c p = Some q /\ match_post HV p q.
Proof.
  intros Hi Hm. unfold on_header_val, MATCH. destruct p as [cl bc mi hc st me]. cbn [p_match_index p_meta] in *.
  destruct (match_char_ok str_chunked mi 0 Hi) as [m1 E1].
  rewrite E1. cbn [mbind option_bind]. unfold _meta_trigger.
  change (metas_at HV) with [M_WFK; M_MCK; M_CLV; M_SML; M_CHK] in *.
  repeat (apply elem_of_cons in Hm as [Hm|Hm]; [subst me|]); [..|by apply elem_of_nil in Hm].
  all: tbl; try destruct (lower c =? m1); tbl.
  all: eexists; (split; [reflexivity|]); split; [done|]; cbn [p_meta match_next]; elem_tac.
Qed.

Lemma on_chunk_size_ok c p :
  p.(p_meta) ∈ metas_at CS -> exists q, on_chunk_size c p = Some q /\ match_post CS p q.
Proof.
  intros Hm. unfold on_chunk_size, _meta_trigger. destruct p as [cl bc mi hc st me]. cbn [p_meta] in *.
  change (metas_at CS) with [M_ZER; M_CSZ] in *.
  repeat (apply elem_of_cons in Hm as [Hm|Hm]; [subst me|]); [..|by apply elem_of_nil in Hm].
  all: tbl; destruct (c =? 48); tbl; destruct (hex_digit_value c).
  all: eexists; (split; [reflexivity|]); split; [done|]; cbn [p_meta]; elem_tac.
Qed.

Definition edge_ok (p : parser) (to : Z) : Prop :=
  (p.(p_state), to) ∈ edges /\ (p.(p_state) = HN -> (p.(p_meta) = M_ZER <-> to = CS)).

Lemma hazard_false p : hazard p = false ->
  0 <= p.(p_match_index) < 32767 /\ (reads_body p = true -> 0 <= p.(p_content_length) - p.(p_body_consumed) < 2 ^ 31) /\
  ~ (p.(p_state) = C2 /\ p.(p_meta) = M_END).
Proof.
  unfold hazard. cbv zeta. intros [[[Hb Hm1]%orb_false_iff Hm2]%orb_false_iff Hc]%orb_false_iff.
  split; [lia|]. split; [|intros [E1 E2]; rewrite E1, E2 in Hc; by vm_compute in Hc].
  intros Hr. rewrite Hr in Hb. cbn [andb] in Hb. lia.
Qed.

Ltac int_tac :=
  repeat match goal with
  | |- context [i32 ?x] => rewrite (i32_small x) by lia
  end.

Ltac post_tac :=
  unfold step_post, _stream_consume, token_grow, scan_inv, token_zero; tbl; int_tac;
  repeat match goal with
  | |- _ /\ _ => split
  | |- stream_ok _ => constructor
  | |- joint _ => split
  | |- joint_after _ => split
  | |- token_in _ _ => unfold token_in; tbl_cbn
  | |- token_ok _ => unfold token_ok; tbl
  | |- _ ∈ _ => first [assumption | elem_tac]
  | |- _ -> _ => intro
  | |- _ \/ _ => first [left; reflexivity | right]
  end; tbl_cbn; try first [assumption | lia | reflexivity | (vm_compute; congruence)].

Ltac case_tac :=
  match goal with
  | |- context [_stream_can_contain ?sp ?s ?n] => destruct (_stream_can_contain sp s n)
  | |- context [Z.eqb ?a ?b] => destruct (Z.eqb_spec a b)
  | |- context [Z.ltb ?a ?b] => destruct (Z.ltb_spec a b)
  end.

Ltac done_tac := do 3 eexists; split; [reflexivity|]; post_tac.

Ltac parser_tac L :=
  let q := fresh "q" in let Hq := fresh "Hq" in let Hm := fresh "Hm" in
  destruct L as ([? ? ? ? ? ?] & -> & Hq & Hm);
  [first [by cbn | elem_tac | (cbn; lia)].. | cbn [p_state p_meta] in Hq, Hm; subst; tbl].

Lemma edge_safe sp c s p to :
  scan_inv s p -> s.(s_consumed) = false -> s.(s_index) < s.(s_length) -> hazard p = false -> edge_ok p to ->
  exists s' p' e, _transition sp c p.(p_state) to s {| p with p_state := to |} = Some (s', p', e) /\ step_post s p s' p' e.
Proof.
  intros ([Hx Ha Hb Hl Hby [Ht0 Ht1]] & [Hst Hm] & Hty) Hc Hi (Hmi & Hbl & Hc2)%hazard_false [He Hhn].
  destruct p as [cl bc mi hc st me], s as [buf [ti tl ty] bt cap len ix an cons].
  cbn [p_state p_meta p_match_index p_content_length p_body_consumed
       s_length s_index s_consumed s_token s_buf s_anchor t_type t_len t_index] in *. subst cons.
  unfold edges, table_edges in He.
  repeat (apply elem_of_cons in He as [He|He]; [injection He as -> ->|]); [..|by apply elem_of_nil in He].
  all: match type of Hm with _ ∈ metas_at ?x => let v := eval vm_compute in (metas_at x) in change (metas_at x) with v in Hm end.
  all: repeat (apply elem_of_cons in Hm as [Hm|Hm]; [subst me|]); try (by apply elem_of_nil in Hm).
  all: match type of Hty with _ = ?x => let v := eval vm_compute in x in change x with v in Hty end; subst ty.
  all: unfold _transition, leave_state, enter_state, _meta_trigger, _stream_begin_token, _stream_emit, _stream_anchor; tbl.
  all: try (done_tac; fail).
  all: try (match goal with
    | |- context [on_header_key ?c ?p] => parser_tac (on_header_key_ok c p)
    | |- context [on_header_val ?c ?p] => parser_tac (on_header_val_ok c p)
    | |- context [on_chunk_size ?c ?p] => parser_tac (on_chunk_size_ok c p)
    end; try destruct (_ <? i16 _); done_tac; fail).
  all: try (exfalso; destruct (Hhn eq_refl) as [H1 H2]; discriminate (H1 eq_refl) || discriminate (H2 eq_refl)).
  all: try (specialize (Hbl eq_refl)).
  all: unfold on_headers_end, on_body, _meta_trigger, _stream_jump, _stream_jumpall, _stream_begin_token, _stream_emit,
         _stream_shift, token_grow; tbl.
  all: try (rewrite (i32_small (cl - bc)) by lia).
  all: repeat (case_tac; tbl); try (done_tac; fail).
  all: exfalso; first [by apply Hc2 | (unfold token_zero in *; cbn [t_len] in *; lia)].
Qed.

(** A character that has no edge is answered with an error token. *)
Lemma error_edge sp c s p :
  joint p ->
  exists s' p' e, _transition sp c p.(p_state) BR s {| p with p_state := BR |} = Some (s', p', e) /\
    e.(t_type) = HS_TOK_ERROR /\ s'.(s_buf) = s.(s_buf) /\ s'.(s_capacity) = s.(s_capacity).
Proof.
  intros [Hst Hm]. destruct p as [cl bc mi hc st me]. cbn [p_state p_meta] in *.
  unfold _transition, leave_state.
  rewrite (proj2 (Z.eqb_neq st BR)) by (change BR with 24; change C2 with 23 in *; lia).
  destruct (Z.eqb_spec st CS) as [->|]; [|destruct (Z.eqb_spec st HN)].
  all: unfold enter_state, _meta_trigger; tbl.
  1: change (metas_at CS) with [M_ZER; M_CSZ] in Hm;
    repeat (apply elem_of_cons in Hm as [Hm|Hm]; [subst me|]); try (by apply elem_of_nil in Hm); tbl.
  all: do 3 eexists; (split; [reflexivity|done]).
Qed.

(** ** The scan of the received bytes *)

Lemma scan_char_safe sp proxied c s p :
  byte_ok c -> scan_inv s p -> s.(s_consumed) = false -> s.(s_index) < s.(s_length) -> hazard p = false ->
  exists s' p' r, scan_char sp proxied c s p = Some (s', p', r) /\
    zlen s'.(s_buf) = zlen s.(s_buf) /\ s'.(s_capacity) = s.(s_capacity) /\
    match r with
    | SProxied => s' = s /\ p' = p
    | SToken e => e.(t_type) = HS_TOK_ERROR \/
        (stream_ok s' /\ s'.(s_token).(t_type) = type_at p' /\ joint_after p' /\ token_in s.(s_length) e)
    | SMore => scan_inv s' p' /\ s.(s_index) < s'.(s_index) /\ s'.(s_length) = s.(s_length)
    end.
Proof.
  intros Hc Hinv Hcons Hi Hz. pose proof Hinv as (_ & Hj & _). pose proof Hj as [Hst _].
  destruct (char_type_ok c Hc) as (ty & Ety & Hty).
  destruct (transition_edge _ _ Hst Hty) as (to & Eto & Hto).
  unfold scan_char. rewrite Ety. cbn [mbind option_bind]. rewrite Eto. cbn [mbind option_bind].
  destruct ((to =? HN) && proxied s p) eqn:Epx.
  { do 3 eexists. split; [reflexivity|]. done. }
  destruct Hto as [->|He].
  { tbl. destruct (error_edge sp c s p Hj) as (s' & p' & e & -> & Ety' & Eb & Ec). cbn [mbind option_bind]. rewrite Ety'. tbl.
    do 3 eexists. split; [reflexivity|]. unfold _stream_consume. destruct (s_consumed s'); cbn [s_buf s_capacity]; rewrite Eb; auto. }
  set (to' := if negb (to =? HN) && (to =? BD) && (p_state p =? HN) && (p_meta p =? M_ZER) then CS else to).
  assert (edge_ok p to') as Hedge.
  { unfold to', edge_ok. destruct (Z.eqb_spec (p_state p) HN) as [E|E]; rewrite ?E, ?andb_false_r; cbn [andb]; [|split; [by apply elem_of_cons; right|done]].
    rewrite E in He. unfold table_edges in He.
    repeat (apply elem_of_cons in He as [He|He]; [try discriminate He; injection He as ->|]); [..|by apply elem_of_nil in He].
    all: tbl; destruct (Z.eqb_spec (p_meta p) M_ZER); split; try elem_tac; try done. }
  destruct (edge_safe sp c s p to' Hinv Hcons Hi Hz Hedge) as (s' & p' & e & -> & Eb & Ec & Hpost).
  cbn [mbind option_bind]. do 3 eexists. split; [reflexivity|]. split; [done|]. split; [done|].
  by destruct (t_type e =? HS_TOK_NONE).
Qed.

(** The scan meets no hazard: executable, along the run it talks about. *)
Fixpoint scan_clean (fuel : nat) (sp : spec) (proxied : stream -> parser -> bool) (s : stream) (p : parser) : bool :=
  match fuel with
  | O => true
  | S fuel =>
      let '(s, next) := _stream_next s in
      match next with
      | Some (Some c) =>
          negb (hazard p) &&
          match scan_char sp proxied c s p with
          | Some (s, p, SMore) => scan_clean fuel sp proxied s p
          | _ => true
          end
      | _ => true
      end
  end.

Lemma stream_next_ok s : stream_ok s ->
  let s' := {| s with s_consumed := false |} in
  stream_ok s' /\ (_stream_next s = (s', Some None) /\ s.(s_index) = s.(s_length) \/
    exists c, _stream_next s = (s', Some (Some c)) /\ byte_ok c /\ s.(s_index) < s.(s_length)).
Proof.
  intros Hs. cbv zeta. pose proof Hs as [Hx Ha Hb Hl Hby Ht]. split; [by constructor|].
  unfold _stream_next. cbn [s_length s_index s_buf]. destruct (Z.leb_spec (s_length s) (s_index s)); [left; split; [done|lia]|].
  right. destruct (rd_total (s_buf s) (s_index s)) as [c Ec]; [lia|]. exists c. rewrite Ec.
  split; [done|]. split; [|lia]. unfold rd in Ec. destruct (_ <? 0); [done|]. by eapply Forall_lookup_1.
Qed.

Lemma scan_inv_cons s p : scan_inv s p -> stream_ok s -> scan_inv {| s with s_consumed := false |} p.
Proof. intros ([] & ? & ?) _. split; [by constructor|]. done. Qed.

Lemma scan_loop_safe sp proxied fuel s p :
  scan_inv s p -> s.(s_length) - s.(s_index) < Z.of_nat fuel -> scan_clean fuel sp proxied s p = true ->
  exists s' p' r, scan_loop sp proxied fuel s p = Some (s', p', r) /\
    zlen s'.(s_buf) = zlen s.(s_buf) /\ s'.(s_capacity) = s.(s_capacity) /\
    match r with
    | SProxied => scan_inv s' p'
    | SToken e => e.(t_type) = HS_TOK_ERROR \/
        (stream_ok s' /\ s'.(s_token).(t_type) = type_at p' /\ joint_after p' /\ token_in s.(s_length) e)
    | SMore => scan_inv s' p' /\ s'.(s_index) = s.(s_length) /\ s'.(s_length) = s.(s_length)
    end.
Proof.
  revert s p. induction fuel as [|fuel IH]; intros s p Hinv Hf Hcl.
  { destruct Hinv as ([] & _). lia. }
  cbn [scan_loop scan_clean] in *. pose proof Hinv as (Hs & _).
  destruct (stream_next_ok s Hs) as (Hs' & [[E Hlen]|(c & E & Hc & Hlt)]); rewrite E in *; cbn [mbind option_bind].
  { do 3 eexists. split; [reflexivity|]. cbn. split; [done|]. split; [done|]. split; [by apply scan_inv_cons|]. lia. }
  apply andb_true_iff in Hcl as [Hz Hcl]. apply negb_true_iff in Hz.
  destruct (scan_char_safe sp proxied c _ p Hc (scan_inv_cons _ _ Hinv Hs) eq_refl Hlt Hz) as (s' & p' & r & E' & Eb & Ec & Hr).
  rewrite E' in *. cbn [mbind option_bind s_buf s_capacity s_length s_index] in *. destruct r as [|e|].
  - do 3 eexists. split; [reflexivity|]. destruct Hr as [-> ->]. split; [done|]. split; [done|]. by apply scan_inv_cons.
  - do 3 eexists. split; [reflexivity|]. done.
  - destruct Hr as (Hi' & Hix & Hl'). destruct (IH s' p' Hi') as (s2 & p2 & r2 & -> & Eb2 & Ec2 & Hr2); [lia|done|].
    do 3 eexists. split; [reflexivity|]. split; [congruence|]. split; [congruence|]. by rewrite Hl' in Hr2.
Qed.

(** ** [_token_parse] *)

(** What holds between two calls. *)
Definition parse_inv (s : stream) (p : parser) : Prop :=
  stream_ok s /\ joint_after p /\ s.(s_token).(t_type) = type_at p.

(** The shift of an incomplete chunk to the front of the body area needs disjoint regions. *)
Definition shift_fits (s : stream) : bool :=
  (s.(s_token).(t_index) =? s.(s_anchor)) || (s.(s_length) - s.(s_token).(t_index) <=? s.(s_token).(t_index) - s.(s_anchor)).

(** The call meets none of the unchecked situations. *)
Definition parse_clean (sp : spec) (proxied : stream -> parser -> bool) (s : stream) (p : parser) : bool :=
  (p.(p_meta) =? M_SEN) || (p.(p_meta) =? M_END) ||
  (scan_clean (scan_fuel s) sp proxied s p &&
   match scan_loop sp proxied (scan_fuel s) s p with
   | Some (s', p', SMore) => negb (p'.(p_state) =? CB) || shift_fits s'
   | _ => true
   end).

Lemma joint_after_joint p : joint p -> joint_after p.
Proof. intros [H1 H2]. split; [done|]. unfold metas_after. apply elem_of_app. by left. Qed.

Lemma joint_of_after p : joint_after p -> p.(p_meta) <> M_SEN -> p.(p_meta) <> M_END -> joint p.
Proof.
  intros [H1 H2] Hs He. split; [done|]. unfold metas_after in H2. apply elem_of_app in H2 as [H2|H2]; [done|exfalso].
  destruct (p_state p =? HN); [|destruct (p_state p =? BD)];
    repeat (apply elem_of_cons in H2 as [H2|H2]; [done|]); by apply elem_of_nil in H2.
Qed.

Lemma all_states (f : Z -> bool) :
  forallb f (Z.of_nat <$> seq 0 24) = true -> forall st, 0 <= st <= C2 -> f st = true.
Proof.
  rewrite forallb_forall. intros H st Hst. apply H, list_elem_of_In, list_elem_of_fmap.
  exists (Z.to_nat st). split; [lia|]. apply elem_of_seq. change C2 with 23 in *. lia.
Qed.

Definition mem (x : Z) (l : list Z) : bool := existsb (Z.eqb x) l.
Lemma mem_spec x l : mem x l = true <-> x ∈ l.
Proof.
  unfold mem. rewrite existsb_exists. setoid_rewrite <- list_elem_of_In. split.
  - intros (y & Hy & ->%Z.eqb_eq). done.
  - intros H. exists x. split; [done|]. apply Z.eqb_refl.
Qed.

Lemma sen_state st : 0 <= st <= C2 -> M_SEN ∈ metas_after st -> st = BD.
Proof.
  intros H Hm. pose proof (all_states (fun st => negb (mem M_SEN (metas_after st)) || (st =? BD)) ltac:(vm_compute; reflexivity) st H) as E.
  apply orb_true_iff in E as [E|E]; [by rewrite (proj2 (mem_spec _ _) Hm) in E|lia].
Qed.
Lemma end_state st cl bc mi hc : 0 <= st <= C2 -> M_END ∈ metas_after st -> type_at (mkParser cl bc mi hc st M_END) = HS_TOK_NONE.
Proof.
  intros H Hm. pose proof (all_states (fun st => negb (mem M_END (metas_after st))
    || (type_at (mkParser 0 0 0 0 st M_END) =? HS_TOK_NONE)) ltac:(vm_compute; reflexivity) st H) as E.
  apply orb_true_iff in E as [E|E]; [by rewrite (proj2 (mem_spec _ _) Hm) in E|by apply Z.eqb_eq in E].
Qed.

(** The two emissions that do not read the stream. *)
Lemma meta_emit_ok s p : parse_inv s p ->
  exists p' t, _meta_emit_token p = Some (p', t) /\ parse_inv s p' /\ t.(t_index) = 0 /\ t.(t_len) = 0 /\
    (t.(t_type) = HS_TOK_NONE -> p' = p /\ joint p).
Proof.
  intros (Hs & Hj & Ht). unfold _meta_emit_token. destruct p as [cl bc mi hc st me]. cbn [p_meta] in *.
  destruct (Z.eqb_spec me M_SEN) as [->|H1].
  - unfold _meta_trigger. tbl. do 2 eexists. split; [reflexivity|].
    destruct Hj as [Hst Hm]. cbn [p_state p_meta] in *. pose proof (sen_state st Hst Hm). subst st.
    split; [|done]. split; [done|]. split; [|exact Ht]. split; [done|elem_tac].
  - destruct (Z.eqb_spec me M_END) as [->|H2].
    + do 2 eexists. split; [reflexivity|]. split; [|done]. split; [done|]. split; [split; [done|elem_tac]|].
      rewrite Ht. destruct Hj as [Hst Hm]. by apply end_state.
    + do 2 eexists. split; [reflexivity|]. split; [done|]. split; [done|]. split; [done|]. intros _. split; [done|].
      by apply joint_of_after.
Qed.

Lemma stream_shift_ok s :
  stream_ok s -> s.(s_token).(t_type) <> 0 -> shift_fits s = true ->
  exists s', _stream_shift s = Some s' /\ stream_ok s' /\ zlen s'.(s_buf) = zlen s.(s_buf) /\
    s'.(s_token).(t_type) = s.(s_token).(t_type).
Proof.
  intros [Hx Ha Hb Hl Hby [_ Ht]] Hty Hf. specialize (Ht Hty). unfold _stream_shift, shift_fits in *.
  destruct (Z.eqb_spec (t_index (s_token s)) (s_anchor s)) as [E|E].
  { exists s. split; [done|]. split; [|done]. constructor; done. }
  cbn [orb] in Hf.
  assert (exists buf, (if 0 <? t_len (s_token s)
      then if (0 <=? s_length s - t_index (s_token s)) && (s_length s - t_index (s_token s) <=? Z.abs (t_index (s_token s) - s_anchor s))
           then memcpy (s_buf s) (s_anchor s) (slice (s_buf s) (t_index (s_token s)) (s_length s)) else None
      else Some (s_buf s)) = Some buf /\ zlen buf = zlen (s_buf s) /\ bytes_ok buf) as (buf & -> & Hz & Hby').
  { destruct (Z.ltb_spec 0 (t_len (s_token s))); [|eauto].
    destruct (Z.leb_spec 0 (s_length s - t_index (s_token s))); [|lia].
    destruct (Z.leb_spec (s_length s - t_index (s_token s)) (Z.abs (t_index (s_token s) - s_anchor s))); [|lia]. cbn [andb].
    destruct (memcpy_fits (s_buf s) (s_anchor s) (slice (s_buf s) (t_index (s_token s)) (s_length s))) as [b Em];
      [lia|rewrite slice_length by lia; lia|].
    exists b. split; [done|]. split; [by eapply memcpy_length|]. eauto using memcpy_bytes, slice_bytes. }
  cbn [mbind option_bind]. eexists. split; [reflexivity|]. split; [|done].
  constructor; cbn [s_index s_length s_anchor s_buf]; try done; try lia.
  unfold token_ok. cbn [s_token t_type t_index t_len s_index]. split; [done|]. intros _. rewrite i32_small by lia. lia.
Qed.

Lemma parse_end_ok sp s p :
  scan_inv s p -> negb (p.(p_state) =? CB) || shift_fits s = true ->
  exists s' p' t, parse_end sp s p = Some (s', p', t) /\ zlen s'.(s_buf) = zlen s.(s_buf) /\
    (t.(t_type) = HS_TOK_ERROR \/ parse_inv s' p' /\ token_in 0 t).
Proof.
  intros (Hs & Hj & Ht) Hf. unfold parse_end.
  assert (exists s1, (if p_state p =? CB then _stream_shift s else Some s) = Some s1 /\ stream_ok s1 /\
            zlen (s_buf s1) = zlen (s_buf s) /\ t_type (s_token s1) = t_type (s_token s)) as (s1 & -> & Hs1 & Hz & Ht1).
  { destruct (Z.eqb_spec (p_state p) CB) as [E|E]; [|eauto]. cbn [negb orb] in Hf.
    apply stream_shift_ok; [done| |done]. rewrite Ht. unfold type_at. by rewrite E. }
  cbn [mbind option_bind].
  destruct (meta_emit_ok s1 p) as (p' & t & -> & Hi & Hti & Htl & _).
  { split; [done|]. split; [by apply joint_after_joint|congruence]. }
  cbn [mbind option_bind]. do 3 eexists. split; [reflexivity|]. split; [done|].
  destruct (_ && _); [by left|right]. split; [done|]. unfold token_in. lia.
Qed.

(** C20. The request scanner is memory safe: a call of [_token_parse] whose input meets none of the
    situations [parse_clean] lists (a body length that is negative or does not fit [int], a key
    that overflows [match_index], bytes behind the last chunk, an overlapping shift of a partial
    chunk) looks up both automata inside of their tables, reads and writes inside of the buffer and
    terminates; the token it returns is an error token or lies inside of the received bytes, and
    the invariant between calls is restored. *)
Theorem token_parse_safe sp proxied s p :
  parse_inv s p -> parse_clean sp proxied s p = true ->
  exists s' p' t, _token_parse sp proxied s p = Some (s', p', t) /\ zlen s'.(s_buf) = zlen s.(s_buf) /\
    (t.(t_type) = HS_TOK_ERROR \/ parse_inv s' p' /\ token_in s.(s_length) t).
Proof.
  intros Hinv Hcl. unfold _token_parse.
  pose proof Hinv as (Hs & Hja & Hty). pose proof Hs as [Hx _ _ _ _ _].
  destruct (meta_emit_ok s p Hinv) as (p' & t & E & Hi & Hti & Htl & Hnone). rewrite E. cbn [mbind option_bind].
  destruct (Z.eqb_spec (t_type t) HS_TOK_NONE) as [Et|Et]; cbn [negb].
  2: { do 3 eexists. split; [reflexivity|]. split; [done|]. right. split; [done|]. unfold token_in. lia. }
  destruct (Hnone Et) as [-> Hj].
  unfold parse_clean in Hcl. apply orb_true_iff in Hcl as [Hcl|Hcl].
  { exfalso. unfold _meta_emit_token, _meta_trigger in E. apply orb_true_iff in Hcl as [Hm|Hm]; apply Z.eqb_eq in Hm; rewrite Hm in E.
    - vm_compute in E. by injection E as _ <-.
    - vm_compute in E. by injection E as _ <-. }
  apply andb_true_iff in Hcl as [Hcl Hsh].
  destruct (scan_loop_safe sp proxied (scan_fuel s) s p) as (s1 & p1 & r & El & Hz & _ & Hr);
    [done|unfold scan_fuel; lia|done|].
  rewrite El in *. cbn [mbind option_bind]. destruct r as [|e|].
  - do 3 eexists. split; [reflexivity|]. split; [done|]. right. destruct Hr as (H1 & H2 & H3).
    split; [split; [done|]; split; [by apply joint_after_joint|done]|]. unfold token_in. cbn. lia.
  - do 3 eexists. split; [reflexivity|]. split; [done|]. destruct Hr as [Hr|(H1 & H2 & H3 & H4)]; [by left|right].
    done.
  - destruct Hr as (H1 & H2 & H3). destruct (parse_end_ok sp s1 p1 H1 Hsh) as (s2 & p2 & t2 & E2 & Hz2 & Ht2).
    exists s2, p2, t2. split; [done|]. split; [congruence|]. destruct Ht2 as [Ht2|[Ht2 (? & ? & ?)]]; [by left|right].
    split; [done|]. unfold token_in. lia.
Qed.

(** The receive buffer holding [l], nothing of it read. *)
Definition stream_with (l : list Z) : stream :=
  mkStream (l ++ [0]) token_zero (zlen l) (zlen l) (zlen l) 0 0 false.
Definition default_spec : spec := spec_defaults (mkSpec 0 0 0 0).
Definition crlf_lines (l : list string) : list Z := l ≫= (fun x => bytes_of_string x ++ [13; 10]).
Definition no_proxy (_ : stream) (_ : parser) : bool := false.

Lemma stream_with_ok l : bytes_ok l -> zlen l < 2 ^ 31 -> parse_inv (stream_with l) parser_zero.
Proof.
  intros Hl Hlen. pose proof (zlen_nonneg l). split; [|split; [split; [done|elem_tac]|done]].
  constructor; cbn [stream_with s_index s_length s_anchor s_buf]; try lia; [zlen_lia| |by split].
  apply Forall_app. split; [done|]. apply Forall_singleton. done.
Qed.

Lemma token_parse_safe_witness :
  exists s' p' t,
    _token_parse default_spec no_proxy (stream_with (crlf_lines ["GET / HTTP/1.1"; "Host: h"; ""]%string)) parser_zero = Some (s', p', t) /\
    (t.(t_type) = HS_TOK_ERROR \/ parse_inv s' p' /\ token_in 27 t).
Proof.
  destruct (token_parse_safe default_spec no_proxy (stream_with (crlf_lines ["GET / HTTP/1.1"; "Host: h"; ""]%string)) parser_zero)
    as (s' & p' & t & E & _ & H).
  - apply stream_with_ok; [|vm_compute; reflexivity]. apply (bool_decide_unpack _). vm_compute. exact I.
  - vm_compute. reflexivity.
  - exists s', p', t. split; [exact E|exact H].
Defined.

(** ** The unchecked situations can be reached from the network *)

(** [n] tokens of a buffer, with the scanner's final position. *)
Fixpoint parse_tokens (n : nat) (s : stream) (p : parser) : option (list token * Z * parser) :=
  match n with
  | O => Some ([], s.(s_index), p)
  | S n =>
      '(s, p, t) ← _token_parse default_spec no_proxy s p;
      '(l, i, p) ← parse_tokens n s p; Some (t :: l, i, p)
  end.
Definition parse_lines (n : nat) (l : list string) (body : string) : option (list token * Z * parser) :=
  parse_tokens n (stream_with (crlf_lines l ++ bytes_of_string body)) parser_zero.

Definition tokens_of (r : option (list token * Z * parser)) : option (list token) := option_map (fun x => x.1.1) r.

(** [Content-Length: -5] is read as a number: the body handed to the request handler has the
    length -25, and the scanner goes back 25 bytes. *)
Example negative_content_length :
  exists p, parse_lines 6 ["POST /a HTTP/1.1"; "Content-Length: -5"; ""]%string "hello" =
    Some ([mkToken 0 4 HS_TOK_METHOD; mkToken 5 2 HS_TOK_TARGET; mkToken 8 8 HS_TOK_VERSION;
           mkToken 18 14 HS_TOK_HEADER_KEY; mkToken 34 2 HS_TOK_HEADER_VAL; mkToken 40 (-25) HS_TOK_BODY], 15, p).
Proof. eexists. vm_compute. reflexivity. Qed.

(** A length of [2^31] is truncated to a negative [int]: the read position leaves the buffer. *)
Example huge_content_length :
  exists p, parse_lines 7 ["POST /a HTTP/1.1"; "Content-Length: 2147483648"; ""]%string "hello" =
    Some ([mkToken 0 4 HS_TOK_METHOD; mkToken 5 2 HS_TOK_TARGET; mkToken 8 8 HS_TOK_VERSION;
           mkToken 18 14 HS_TOK_HEADER_KEY; mkToken 34 10 HS_TOK_HEADER_VAL; mkToken 0 0 HS_TOK_BODY_STREAM;
           mkToken 48 (- 2 ^ 31) HS_TOK_CHUNK_BODY], 48 - 2 ^ 31, p).
Proof. eexists. vm_compute. reflexivity. Qed.

(** Bytes behind the last chunk, in the same segment, drive the meta automaton out of its table. *)
Example bytes_after_last_chunk :
  parse_lines 9 ["POST /a HTTP/1.1"; "Transfer-Encoding: chunked"; ""; "5"; "hello"; "0"; ""; "0"]%string "x" = None.
Proof. vm_compute. reflexivity. Qed.

(** A chunk of which more than its size line is long has arrived: the [memcpy] of [_stream_shift]
    has overlapping regions. *)
Example partial_chunk_overlap :
  parse_lines 7 ["POST /a HTTP/1.1"; "Transfer-Encoding: chunked"; ""; "5"]%string "hell" = None.
Proof. vm_compute. reflexivity. Qed.

(** The 32768th character of a header key makes [match_index] negative; the next one reads in front
    of the string literal. *)
Example long_header_key c :
  (p_match_index <$> on_header_key c (mkParser 0 0 32767 1 HK M_WFK)) = Some (-32768) /\
  on_header_key c (mkParser 0 0 (-32768) 1 HK M_WFK) = None.
Proof.
  split; [|reflexivity]. unfold on_header_key, MATCH. cbn [p_match_index].
  change (32767 <? zlen str_transfer_encoding) with false. cbn [mbind option_bind].
  unfold _meta_trigger. destruct (lower c =? 0); tbl; change (32767 <? zlen str_content_length) with false; tbl;
    (destruct (lower c =? 0); tbl; reflexivity).
Qed.

(** A request without header fields is refused. *)
Example no_headers_refused :
  option_map (map t_type) (tokens_of (parse_lines 4 ["GET / HTTP/1.0"; ""]%string "")) =
  Some [HS_TOK_METHOD; HS_TOK_TARGET; HS_TOK_VERSION; HS_TOK_ERROR].
Proof. vm_compute. reflexivity. Qed.

(** An empty header value swallows the next header line, [Content-Length] included; the first
    character of a body is not checked to be a hexadecimal digit; a prefix of a framing header's
    name is taken for the name. *)
Example empty_value_swallows :
  tokens_of (parse_lines 6 ["POST /a HTTP/1.1"; "A:"; "Content-Length: 5"; ""]%string "hello") =
  Some [mkToken 0 4 HS_TOK_METHOD; mkToken 5 2 HS_TOK_TARGET; mkToken 8 8 HS_TOK_VERSION;
        mkToken 18 1 HS_TOK_HEADER_KEY; mkToken 22 17 HS_TOK_HEADER_VAL; mkToken 0 0 HS_TOK_BODY].
Proof. vm_compute. reflexivity. Qed.
Example chunk_size_unchecked :
  option_map (drop 6) (tokens_of (parse_lines 7 ["POST /a HTTP/1.1"; "Transfer-Encoding: chunked"; ""; "x5"; "hello"]%string "")) =
  Some [mkToken 52 5 HS_TOK_CHUNK_BODY].
Proof. vm_compute. reflexivity. Qed.
Example key_prefix_matches :
  option_map (drop 3) (tokens_of (parse_lines 6 ["POST /a HTTP/1.1"; "C: 5"; ""]%string "hello")) =
  Some [mkToken 18 1 HS_TOK_HEADER_KEY; mkToken 21 1 HS_TOK_HEADER_VAL; mkToken 26 5 HS_TOK_BODY].
Proof. vm_compute. reflexivity. Qed.
Example transfer_encoding_ignored :
  option_map (drop 7) (tokens_of (parse_lines 8 ["POST /a HTTP/1.1"; "Content-Length: 5"; "Transfer-Encoding: chunked"; ""]%string "hello")) =
  Some [mkToken 67 5 HS_TOK_BODY].
Proof. vm_compute. reflexivity. Qed.
