(* ===== verification/HttpResponse.v ===== *)
(** * HttpResponse: the session of [src/src/http/iwn_http_server.c], its accessors and its responses

    [struct client] with the fields the request accessors and the response writer use.  The
    string builder ([IWXSTR]) and the memory pools of iowow are lists; allocations succeed.  The
    poller adapter and the application's callbacks are parameters; a callback is a value of type
    [Z] (its address), run by [run_chunk_cb] and [run_completed]. *)
From S2P Require Import Prelude HttpParser.

(** ** Strings *)

Definition strcaseeq (a b : list Z) : bool := bool_decide (map lower a = map lower b).

Definition CRLF : list Z := [13; 10].

(** [%d] and [%X] of a non-negative number. *)
Definition digit_char (d : Z) : Z := if d <? 10 then 48 + d else 55 + d.
Fixpoint print_base (fuel : nat) (base n : Z) (acc : list Z) : list Z :=
  match fuel with
  | O => acc
  | S fuel => if n <? base then digit_char n :: acc
              else print_base fuel base (n / base) (digit_char (n mod base) :: acc)
  end.
Definition print_nat (base n : Z) : list Z := print_base 64 base n [].
Definition print_int (n : Z) : list Z := if n <? 0 then 45 :: print_nat 10 (- n) else print_nat 10 n.

(** ** Data *)

(** The constants [HTTP_SESSION_*] and the session flags. *)
Definition HTTP_SESSION_INIT : Z := 0.
Definition HTTP_SESSION_READ : Z := 1.
Definition HTTP_SESSION_WRITE : Z := 2.
Definition HTTP_SESSION_NOP : Z := 3.

Definition HTTP_KEEP_ALIVE : Z := 1.
Definition HTTP_STREAMED : Z := 2.
Definition HTTP_END_SESSION : Z := 4.
Definition HTTP_AUTOMATIC : Z := 8.
Definition HTTP_CHUNKED_RESPONSE : Z := 16.
Definition HTTP_STREAM_RESPONSE : Z := 32.
Definition HTTP_UPGRADE : Z := 64.
Definition HTTP_HAS_CONTENT_LEN : Z := 128.

(** [struct header] and [struct response]; the list of headers is the linked one, newest first. *)
Record header := mkHeader { h_name : list Z; h_value : list Z }.
Record response := mkResponse {
  r_headers : list header; r_body : option (list Z); r_body_len : Z; r_code : Z }.

(** [struct client] *)
Record client := mkClient {
  c_stream : stream; c_parser : parser; c_tokens : list token; c_tokens_capacity : Z;
  c_state : Z; c_flags : Z; c_chunk_cb : option Z; c_completed : option Z; c_response : response }.

Definition stream_zero : stream := mkStream [] token_zero 0 0 0 0 0 false.

Definition has_flag (cl : client) (f : Z) : bool := negb (Z.land cl.(c_flags) f =? 0).
Definition set_flag (cl : client) (f : Z) : client := {| cl with c_flags := Z.lor cl.(c_flags) f |}.
Definition clear_flag (cl : client) (f : Z) : client := {| cl with c_flags := Z.ldiff cl.(c_flags) f |}.

(** ** Life cycle *)

Definition _stream_free_buffer (cl : client) : client := {| cl with c_stream := stream_zero |}.
Definition _tokens_free_buffer (cl : client) : client := {| cl with c_tokens := []; c_tokens_capacity := 0 |}.

Definition _response_free (cl : client) : client :=
  {| cl with c_response := mkResponse [] None cl.(c_response).(r_body_len) 200 |}.

(** The buffers and the response; the calls of the application's dispose functions in front of this ([_request_data_free]) do not
    touch the session. *)
Definition _client_reset (cl : client) : client := _response_free (_tokens_free_buffer (_stream_free_buffer cl)).

Definition _client_init (cl : client) : client :=
  let cl := _client_reset cl in
  {| cl with c_flags := HTTP_AUTOMATIC; c_parser := parser_zero; c_chunk_cb := None; c_tokens_capacity := 32; c_tokens := [] |}.

(** [_client_accept] zeroes the structure. *)
Definition client_accepted : client :=
  mkClient stream_zero parser_zero [] 0 HTTP_SESSION_INIT 0 None None (mkResponse [] None 0 0).

(** ** Request accessors *)

(** The bytes of a token; [None] when it is not inside of the buffer. *)
Definition token_bytes (s : stream) (t : token) : option (list Z) :=
  if (0 <=? t.(t_index)) && (0 <=? t.(t_len)) && (t.(t_index) + t.(t_len) <=? zlen s.(s_buf))
  then Some (slice s.(s_buf) t.(t_index) (t.(t_index) + t.(t_len))) else None.

(** [Some None] is the zero value. *)
Definition _token_get_string (cl : client) (type : Z) : option (option (list Z)) :=
  match list_find (fun t => t.(t_type) = type) cl.(c_tokens) with
  | Some (_, t) => Some <$> token_bytes cl.(c_stream) t
  | None => Some None
  end.

Definition iwn_http_request_target (cl : client) := _token_get_string cl HS_TOK_TARGET.
Definition iwn_http_request_method (cl : client) := _token_get_string cl HS_TOK_METHOD.
Definition iwn_http_request_body (cl : client) := _token_get_string cl HS_TOK_BODY.

Definition iwn_http_request_target_is (cl : client) (target : list Z) (target_len : Z) : option bool :=
  val ← iwn_http_request_target cl;
  Some (bool_decide (default [] val = arg_len target target_len)).

Fixpoint find_header (s : stream) (ts : list token) (name : list Z) : option (option (list Z)) :=
  match ts with
  | [] => Some None
  | t :: ts =>
      if (t.(t_type) =? HS_TOK_HEADER_KEY) && (t.(t_len) =? zlen name) then
        key ← token_bytes s t;
        if strcaseeq key name then
          match ts with t' :: _ => Some <$> token_bytes s t' | [] => None end
        else find_header s ts name
      else find_header s ts name
  end.
Definition iwn_http_request_header_get (cl : client) (name : list Z) (len : Z) : option (option (list Z)) :=
  find_header cl.(c_stream) cl.(c_tokens) (arg_len name len).

(** The iterator: [None] is an access outside of the tokens. *)
Definition _iteration_headers_assign (cl : client) (iter : Z) : option (option (list Z * list Z) * Z) :=
  t ← (if iter <? 0 then None else cl.(c_tokens) !! Z.to_nat iter);
  if t.(t_type) =? HS_TOK_BODY then Some (None, iter)
  else
    key ← token_bytes cl.(c_stream) t;
    t' ← cl.(c_tokens) !! Z.to_nat (iter + 1);
    val ← token_bytes cl.(c_stream) t';
    Some (Some (key, val), iter + 1).

Definition iwn_http_request_headers_iterate (cl : client) (iter : Z) : option (option (list Z * list Z) * Z) :=
  if iter =? 0 then
    match list_find (fun t => t.(t_type) = HS_TOK_HEADER_KEY) cl.(c_tokens) with
    | Some (i, _) => _iteration_headers_assign cl (Z.of_nat i)
    | None => Some (None, zlen cl.(c_tokens))
    end
  else _iteration_headers_assign cl (iter + 1).

Definition iwn_http_request_is_streamed (cl : client) : bool := has_flag cl HTTP_STREAMED.

(** ** Connection settings *)

Definition iwn_http_connection_set_automatic (cl : client) : client :=
  clear_flag (set_flag cl HTTP_AUTOMATIC) HTTP_KEEP_ALIVE.
Definition iwn_http_connection_set_keep_alive (cl : client) (keep_alive : bool) : client :=
  let cl := clear_flag cl HTTP_AUTOMATIC in
  if keep_alive then set_flag cl HTTP_KEEP_ALIVE else clear_flag cl HTTP_KEEP_ALIVE.
Definition iwn_http_connection_set_upgrade (cl : client) : client :=
  set_flag (clear_flag (clear_flag cl HTTP_AUTOMATIC) HTTP_KEEP_ALIVE) HTTP_UPGRADE.
Definition iwn_http_connection_is_upgrade (cl : client) : bool := has_flag cl HTTP_UPGRADE.

(** ** Response header and body *)

Definition IW_ERROR_INVALID_ARGS : Z := 1.

Definition iwn_http_response_code_get (cl : client) : Z := cl.(c_response).(r_code).
Definition iwn_http_response_code_set (cl : client) (code : Z) : client * Z :=
  if (code <? 0) || (599 <? code) then (cl, IW_ERROR_INVALID_ARGS)
  else ({| cl with c_response := {| cl.(c_response) with r_code := if code =? 0 then 200 else code |} |}, 0).

(** The value of the first header of that name, as the C string it is stored as; empty when there
    is none. *)
Fixpoint get_header (hs : list header) (name : list Z) : option (list Z) :=
  match hs with
  | [] => None
  | h :: hs => if strcaseeq h.(h_name) name then Some (cstr h.(h_value)) else get_header hs name
  end.
Definition iwn_http_response_header_get (cl : client) (name : list Z) : option (list Z) :=
  get_header cl.(c_response).(r_headers) name.

Definition set_headers (cl : client) (hs : list header) : client :=
  {| cl with c_response := {| cl.(c_response) with r_headers := hs |} |}.

Definition iwn_http_response_header_add (cl : client) (name value : list Z) (len : Z) : client :=
  set_headers cl (mkHeader (map lower name) (arg_len value len) :: cl.(c_response).(r_headers)).

(** The value of the first header of that name is replaced. *)
Fixpoint replace_header (hs : list header) (name value : list Z) : option (list header) :=
  match hs with
  | [] => None
  | h :: hs => if strcaseeq h.(h_name) name then Some (mkHeader h.(h_name) value :: hs)
               else cons h <$> replace_header hs name value
  end.
Definition iwn_http_response_header_set (cl : client) (name value : list Z) (len : Z) : client :=
  let value := arg_len value len in
  set_headers cl
    match replace_header cl.(c_response).(r_headers) name value with
    | Some hs => hs
    | None => mkHeader (map lower name) value :: cl.(c_response).(r_headers)
    end.

Definition iwn_http_response_header_i64_set (cl : client) (name : list Z) (value : Z) : client :=
  let buf := print_int value in iwn_http_response_header_set cl name buf (zlen buf).

Definition iwn_http_response_body_clear (cl : client) : client :=
  {| cl with c_response := {| cl.(c_response) with r_body := None |} |}.
Definition iwn_http_response_body_set (cl : client) (body : option (list Z)) (len : Z) : client :=
  match body with
  | None => iwn_http_response_body_clear cl
  | Some buf =>
      if len =? 0 then iwn_http_response_body_clear cl
      else
        let cl := iwn_http_response_body_clear cl in
        {| cl with c_response :=
           {| cl.(c_response) with r_body := Some buf; r_body_len := if len <? 0 then zlen (cstr buf) else len |} |}
  end.

(** ** The head of a response *)

Definition _status_text (code : Z) : option (list Z) :=
  if (code <? 0) || (600 <=? code) then None
  else if code =? 100 then Some (bytes_of_string "Continue")
  else if code =? 101 then Some (bytes_of_string "Switching Protocols")
  else if code =? 200 then Some (bytes_of_string "OK")
  else if code =? 201 then Some (bytes_of_string "Created")
  else if code =? 202 then Some (bytes_of_string "Accepted")
  else if code =? 203 then Some (bytes_of_string "Non-Authoritative Information")
  else if code =? 204 then Some (bytes_of_string "No Content")
  else if code =? 205 then Some (bytes_of_string "Reset Content")
  else if code =? 206 then Some (bytes_of_string "Partial Content")
  else if code =? 300 then Some (bytes_of_string "Multiple Choices")
  else if code =? 301 then Some (bytes_of_string "Moved Permanently")
  else if code =? 302 then Some (bytes_of_string "Found")
  else if code =? 303 then Some (bytes_of_string "See Other")
  else if code =? 304 then Some (bytes_of_string "Not Modified")
  else if code =? 305 then Some (bytes_of_string "Use Proxy")
  else if code =? 307 then Some (bytes_of_string "Temporary Redirect")
  else if code =? 400 then Some (bytes_of_string "Bad Request")
  else if code =? 401 then Some (bytes_of_string "Unauthorized")
  else if code =? 402 then Some (bytes_of_string "Payment Required")
  else if code =? 403 then Some (bytes_of_string "Forbidden")
  else if code =? 404 then Some (bytes_of_string "Not Found")
  else if code =? 405 then Some (bytes_of_string "Method Not Allowed")
  else if code =? 406 then Some (bytes_of_string "Not Acceptable")
  else if code =? 407 then Some (bytes_of_string "Proxy Authentication Required")
  else if code =? 408 then Some (bytes_of_string "Request Timeout")
  else if code =? 409 then Some (bytes_of_string "Conflict")
  else if code =? 410 then Some (bytes_of_string "Gone")
  else if code =? 411 then Some (bytes_of_string "Length Required")
  else if code =? 413 then Some (bytes_of_string "Payload Too Large")
  else if code =? 500 then Some (bytes_of_string "Internal Server Error")
  else if code =? 501 then Some (bytes_of_string "Not Implemented")
  else if code =? 502 then Some (bytes_of_string "Bad Gateway")
  else if code =? 503 then Some (bytes_of_string "Service Unavailable")
  else if code =? 504 then Some (bytes_of_string "Gateway Timeout")
  else Some [].

Definition strncaseeq (buf lit : list Z) : bool := strcaseeq (take (length lit) buf) lit.

(** [HTTP_1_0] is [0]; the comparison of the last character of the version is the C one. *)
Definition _client_autodetect_keep_alive (cl : client) : option client :=
  version ← _token_get_string cl HS_TOK_VERSION;
  match version with
  | None => Some cl
  | Some v =>
      last ← rd v (zlen v - 1);
      val ← iwn_http_request_header_get cl (bytes_of_string "connection") 10;
      let val := default [] val in
      Some (if ((zlen val =? 5) && strncaseeq val (bytes_of_string "close")) || ((zlen val =? 0) && negb (last =? 49))
            then clear_flag cl HTTP_KEEP_ALIVE else set_flag cl HTTP_KEEP_ALIVE)
  end.

Definition print_header (h : header) : list Z := cstr h.(h_name) ++ [58; 32] ++ cstr h.(h_value) ++ CRLF.

Definition _client_response_headers_write (cl : client) : list Z :=
  (cl.(c_response).(r_headers) ≫= print_header) ++
  (if Z.land cl.(c_flags) (Z.lor (Z.lor HTTP_CHUNKED_RESPONSE HTTP_STREAM_RESPONSE) HTTP_HAS_CONTENT_LEN) =? 0
   then bytes_of_string "content-length: " ++ print_int (i32 cl.(c_response).(r_body_len)) ++ CRLF else []) ++
  CRLF.

Definition connection_header (cl : client) : list Z :=
  if has_flag cl HTTP_UPGRADE then bytes_of_string "upgrade"
  else if has_flag cl HTTP_KEEP_ALIVE then bytes_of_string "keep-alive"
  else bytes_of_string "close".

Section Respond.
(** [U] is the outside world: the socket behind the poller adapter and the application. *)
Context {U : Type}.

(** What a session uses of it: [write] of the poller adapter gives the number of bytes taken, or a
    non-positive result, and whether [errno] is [EPIPE] afterwards; [arm] fails with [false]. *)
Record session_ops := mkOps {
  pa_write : U -> list Z -> U * Z * bool;
  pa_pending : U -> bool;
  pa_arm : U -> U * bool;
  server_time : U -> list Z;
  headers_hook : U -> client -> U * client;
  run_chunk_cb : Z -> U -> client -> option (U * client * bool * bool);
  run_completed : Z -> U -> client -> option (U * client * bool) }.
Context (ops : session_ops).

Definition _client_response_headers_write_http (u : U) (cl : client) : option (U * client * list Z) :=
  let cl := if 0 <? zlen (default [] (iwn_http_response_header_get cl (bytes_of_string "content-length")))
            then set_flag cl HTTP_HAS_CONTENT_LEN else cl in
  cl ← (if has_flag cl HTTP_AUTOMATIC then _client_autodetect_keep_alive cl else Some cl);
  let '(u, cl) := ops.(headers_hook) u cl in
  let val := connection_header cl in
  let cl := iwn_http_response_header_set cl (bytes_of_string "connection") val (zlen val) in
  let cl := if cl.(c_response).(r_code) =? 0 then {| cl with c_response := {| cl.(c_response) with r_code := 200 |} |} else cl in
  let code := cl.(c_response).(r_code) in
  text ← _status_text code;
  Some (u, cl,
    bytes_of_string "HTTP/1.1 " ++ print_int code ++ [32] ++ text ++ CRLF ++
    bytes_of_string "date: " ++ ops.(server_time) u ++ CRLF ++ _client_response_headers_write cl).

(** ** Writing *)

(** [_client_response_setbuf] and [_client_response_setbuf2]: the response replaces the stream. *)
Definition _client_response_setbuf (cl : client) (buf : list Z) : client :=
  let cl := {| cl with c_stream := mkStream buf token_zero 0 (zlen buf) (zlen buf) 0 0 false |} in
  _response_free {| cl with c_state := HTTP_SESSION_WRITE |}.

Definition _client_write_bytes (u : U) (cl : client) : option (U * client * bool) :=
  let s := cl.(c_stream) in
  if s.(s_bytes_total) <? s.(s_length) then
    if (s.(s_bytes_total) <? 0) || (zlen s.(s_buf) <? s.(s_length)) then None
    else
      let '(u, bytes, epipe) := ops.(pa_write) u (slice s.(s_buf) s.(s_bytes_total) s.(s_length)) in
      let cl := if 0 <? bytes then {| cl with c_stream := {| s with s_bytes_total := s.(s_bytes_total) + bytes |} |} else cl in
      Some (u, cl, negb epipe)
  else Some (u, cl, true).

(** The loop over the [again] label is bounded by [fuel]. *)
Fixpoint _client_write (fuel : nat) (u : U) (cl : client) : option (U * client) :=
  match fuel with
  | O => None
  | S fuel =>
      '(u, cl, ok) ← _client_write_bytes u cl;
      if negb ok then Some (u, set_flag cl HTTP_END_SESSION)
      else if negb (cl.(c_stream).(s_bytes_total) =? cl.(c_stream).(s_length)) || ops.(pa_pending) u then
        let '(u, ok) := ops.(pa_arm) u in
        Some (u, if ok then cl else set_flag cl HTTP_END_SESSION)
      else if negb (Z.land cl.(c_flags) (Z.lor HTTP_CHUNKED_RESPONSE HTTP_STREAM_RESPONSE) =? 0) then
        let cl := _stream_free_buffer cl in
        match cl.(c_chunk_cb) with
        | None => Some (u, set_flag cl HTTP_END_SESSION)
        | Some cb =>
            '(u, cl, ok, again) ← ops.(run_chunk_cb) cb u cl;
            if negb ok then Some (u, set_flag cl HTTP_END_SESSION)
            else if again : bool then _client_write fuel u cl else Some (u, cl)
        end
      else
        match cl.(c_completed) with
        | Some cb =>
            '(u, cl, ok) ← ops.(run_completed) cb u {| cl with c_completed := None |};
            Some (u, if ok : bool then cl else set_flag cl HTTP_END_SESSION)
        | None =>
            if has_flag cl HTTP_KEEP_ALIVE then Some (u, {| cl with c_state := HTTP_SESSION_INIT |})
            else Some (u, set_flag cl HTTP_END_SESSION)
        end
  end.

(** ** Responses *)

Definition body_bytes (r : response) : option (list Z) :=
  match r.(r_body) with
  | None => Some []
  | Some b => if r.(r_body_len) <=? zlen b then Some (take (Z.to_nat r.(r_body_len)) b) else None
  end.

Definition iwn_http_response_end (fuel : nat) (u : U) (cl : client) : option (U * client) :=
  '(u, cl, head) ← _client_response_headers_write_http u cl;
  body ← body_bytes cl.(c_response);
  _client_write fuel u (_client_response_setbuf cl (head ++ body)).

Definition iwn_http_response_stream_start (fuel : nat) (u : U) (cl : client) (chunk_cb : option Z) : option (U * client) :=
  let cl := {| cl with c_chunk_cb := chunk_cb |} in
  '(u, cl, head) ←
    (if has_flag cl HTTP_STREAM_RESPONSE then Some (u, cl, [])
     else _client_response_headers_write_http u (set_flag cl HTTP_STREAM_RESPONSE));
  _client_write fuel u (_client_response_setbuf cl head).

(** The flag [again] of the chunk functions is passed by reference: the result carries its value. *)
Definition iwn_http_response_stream_write (fuel : nat) (u : U) (cl : client) (buf : list Z) (len : Z)
  (chunk_cb : option Z) (again : option bool) : option (U * client * option bool) :=
  let cl := {| cl with c_chunk_cb := chunk_cb |} in
  let '(cl, again) :=
    match chunk_cb with
    | Some _ => (cl, (fun _ => true) <$> again)
    | None => (clear_flag cl HTTP_STREAM_RESPONSE, again)
    end in
  let cl := _client_response_setbuf cl (arg_len buf len) in
  if default false again then Some (u, cl, again)
  else '(u, cl) ← _client_write fuel u cl; Some (u, cl, again).

Definition iwn_http_response_stream_end (fuel : nat) (u : U) (cl : client) : option (U * client) :=
  '(u, cl, _) ← iwn_http_response_stream_write fuel u cl [] 0 None None; Some (u, cl).

Definition iwn_http_response_chunk_write (fuel : nat) (u : U) (cl : client) (body : list Z) (len : Z)
  (chunk_cb : option Z) (again : option bool) : option (U * client * option bool) :=
  let body := arg_len body len in
  let cl := {| cl with c_chunk_cb := chunk_cb |} in
  let again := match chunk_cb with Some _ => (fun _ => true) <$> again | None => again end in
  '(u, cl, head) ←
    (if has_flag cl HTTP_CHUNKED_RESPONSE then Some (u, cl, [])
     else
       let cl := set_flag cl HTTP_CHUNKED_RESPONSE in
       let cl := iwn_http_response_header_set cl (bytes_of_string "transfer-encoding") (bytes_of_string "chunked") 7 in
       _client_response_headers_write_http u cl);
  let chunk := print_nat 16 (u32 (zlen body)) ++ CRLF ++ body ++ CRLF in
  let cl := _client_response_setbuf cl (head ++ chunk) in
  if default false again then Some (u, cl, again)
  else '(u, cl) ← _client_write fuel u cl; Some (u, cl, again).

Definition iwn_http_response_chunk_end (fuel : nat) (u : U) (cl : client) : option (U * client) :=
  let xstr := bytes_of_string "0" ++ CRLF ++ _client_response_headers_write cl ++ CRLF in
  _client_write fuel u (_client_response_setbuf (clear_flag cl HTTP_CHUNKED_RESPONSE) xstr).

Definition iwn_http_response_write (fuel : nat) (u : U) (cl : client) (status_code : Z) (content_type : option (list Z))
  (body : option (list Z)) (len : Z) : option (U * client * bool) :=
  let '(cl, rc) := iwn_http_response_code_set cl status_code in
  if negb (rc =? 0) then Some (u, cl, false)
  else
    let content_type := default (bytes_of_string "text/plain") content_type in
    let cl := if zlen content_type =? 0 then cl
              else iwn_http_response_header_set cl (bytes_of_string "content-type") content_type (-1) in
    let cl := iwn_http_response_body_set cl body len in
    '(u, cl) ← iwn_http_response_end fuel u cl; Some (u, cl, true).

(** The JSON printers of ejdb2 are parameters: [json] is their output. *)
Definition iwn_http_response_write_jbl (fuel : nat) (u : U) (cl : client) (status_code : Z) (json : list Z)
  : option (U * client * bool) :=
  let cl := iwn_http_response_header_set cl (bytes_of_string "content-type") (bytes_of_string "application/json") 16 in
  let cl := iwn_http_response_body_set cl (Some json) (zlen json) in
  '(u, cl) ← iwn_http_response_end fuel u cl; Some (u, cl, true).

Definition iwn_http_response_by_code (fuel : nat) (u : U) (cl : client) (code : Z) : option (U * client * bool) :=
  text ← _status_text code;
  iwn_http_response_write fuel u cl code (Some (bytes_of_string "text/plain")) (Some text) (-1).

(** [vsnprintf] is a parameter: [text] is its output. *)
Definition iwn_http_response_printf_va (fuel : nat) (u : U) (cl : client) (status_code : Z) (content_type : option (list Z))
  (text : list Z) : option (U * client * bool) :=
  iwn_http_response_write fuel u cl status_code content_type (Some text) (zlen text).

Definition _client_response_error (fuel : nat) (u : U) (cl : client) (code : Z) (text : list Z) : option (U * client * bool) :=
  iwn_http_response_write fuel u cl code (Some (bytes_of_string "text/plain")) (Some text) (-1).
End Respond.
Arguments session_ops : clear implicits.
