(* ===== verification/HttpRead.v ===== *)
(** * HttpRead: receiving a request in [src/src/http/iwn_http_server.c]

    [_client_read_bytes], [_client_read] and the session's event handler, over the scanner of
    [HttpParser.v], and the lemma that scanning the headers depends on the bytes only, not on how
    they arrive. *)
From S2P Require Import Prelude HttpParser HttpSafe HttpResponse.

Section Read.
Context {U : Type}.

(** What a session uses of the outside world to read: [read] of the poller adapter fills at most
    [n] bytes, and gives [inl (-1)] when it would block and no bytes at the end of the stream; the
    handlers are the application's. *)
Record read_ops := mkReadOps {
  pa_read : U -> Z -> U * (Z + list Z);
  request_handler : U -> client -> option (U * client * bool);
  proxied : client -> bool }.

Context (ops : session_ops U) (rops : read_ops) (sp : spec).

(** [realloc]; the new bytes are unspecified, here zero. *)
Definition resize (buf : list Z) (n : Z) : list Z := take (Z.to_nat n) (buf ++ replicate (Z.to_nat (n - zlen buf)) 0).

(** The [do ... while (bytes > 0)] of [_client_read_bytes]. *)
Fixpoint read_loop (fuel : nat) (u : U) (s : stream) : option (U * stream * bool) :=
  match fuel with
  | O => None
  | S fuel =>
      let '(u, r) := rops.(pa_read) u (s.(s_capacity) - s.(s_length)) in
      let bytes := match r with inl e => e | inr d => zlen d end in
      s ← match r with
          | inr d => if 0 <? bytes then
                       buf ← memcpy s.(s_buf) s.(s_length) d;
                       Some {| s with s_buf := buf; s_length := s.(s_length) + bytes; s_bytes_total := s.(s_bytes_total) + bytes |}
                     else Some s
          | inl _ => Some s
          end;
      let next (s : stream) := if 0 <? bytes then read_loop fuel u s else Some (u, s, negb (bytes =? 0)) in
      if s.(s_length) =? s.(s_capacity) then
        if s.(s_capacity) =? sp.(request_buf_max_size) then Some (u, s, negb (bytes =? 0))
        else
          let ncap := Z.min (s.(s_capacity) * 2) sp.(request_buf_max_size) in
          next {| s with s_buf := resize s.(s_buf) (ncap + 1); s_capacity := ncap |}
      else next s
  end.

Definition _client_read_bytes (fuel : nat) (u : U) (s : stream) : option (U * stream * bool) :=
  if s.(s_index) <? s.(s_length) then Some (u, s, true)
  else
    let s := match s.(s_buf) with
             | [] => {| s with s_length := 0; s_capacity := sp.(request_buf_size);
                               s_buf := replicate (Z.to_nat (sp.(request_buf_size) + 1)) 0 |}
             | _ => s
             end in
    read_loop fuel u s.

Definition push_token (cl : client) (t : token) : client :=
  {| cl with c_tokens := cl.(c_tokens) ++ [t];
             c_tokens_capacity := if zlen cl.(c_tokens) =? cl.(c_tokens_capacity) then cl.(c_tokens_capacity) * 2
                                  else cl.(c_tokens_capacity) |}.

Definition parse_next (cl : client) : option (client * token) :=
  '(s, p, t) ← _token_parse sp (fun s p => rops.(proxied) {| cl with c_stream := s; c_parser := p |}) cl.(c_stream) cl.(c_parser);
  let cl := {| cl with c_stream := s; c_parser := p |} in
  Some (if t.(t_type) =? HS_TOK_NONE then cl else push_token cl t, t).

(** The application is called with the session in the state [HTTP_SESSION_NOP]. *)
Definition call_handler (u : U) (cl : client) : option (U * client * bool) :=
  rops.(request_handler) u cl.

(** [buf[token.index + token.len] = '\0'] *)
Definition terminate_body (cl : client) (t : token) : option client :=
  if 0 <? t.(t_len) then
    buf ← wr cl.(c_stream).(s_buf) (t.(t_index) + t.(t_len)) 0;
    Some {| cl with c_stream := {| cl.(c_stream) with s_buf := buf |} |}
  else Some cl.

(** [_client_read]; [again] is true at the label of that name and false inside of the loop. *)
Fixpoint _client_read (fuel : nat) (again : bool) (u : U) (cl : client) : option (U * client) :=
  match fuel with
  | O => None
  | S fuel =>
      '(u, cl, ok) ←
        (if again then
           let cl := {| cl with c_state := HTTP_SESSION_READ |} in
           '(u, s, ok) ← _client_read_bytes fuel u cl.(c_stream);
           Some (u, {| cl with c_stream := s |}, ok)
         else Some (u, cl, true));
      if negb ok then Some (u, set_flag cl HTTP_END_SESSION)
      else
        '(cl, t) ← parse_next cl;
        let loop (u : U) (cl : client) :=
          if negb (t.(t_type) =? HS_TOK_NONE) && (cl.(c_state) =? HTTP_SESSION_READ)
          then _client_read fuel false u cl else Some (u, cl) in
        if t.(t_type) =? HS_TOK_ERROR then
          '(u, cl, _) ← _client_response_error ops fuel u cl 400 (bytes_of_string "Bad request");
          loop u cl
        else if t.(t_type) =? HS_TOK_BODY then
          cl ← terminate_body {| cl with c_state := HTTP_SESSION_NOP |} t;
          '(u, cl, ok) ← call_handler u cl;
          if ok : bool then loop u cl else Some (u, set_flag cl HTTP_END_SESSION)
        else if t.(t_type) =? HS_TOK_BODY_STREAM then
          '(u, cl, ok) ← call_handler u (set_flag {| cl with c_state := HTTP_SESSION_NOP |} HTTP_STREAMED);
          if ok : bool then loop u cl else Some (u, set_flag cl HTTP_END_SESSION)
        else if t.(t_type) =? HS_TOK_CHUNK_BODY then
          let cl := {| cl with c_state := HTTP_SESSION_NOP |} in
          match cl.(c_chunk_cb) with
          | None => Some (u, set_flag cl HTTP_END_SESSION)
          | Some cb =>
              '(u, cl, ok, again) ← ops.(run_chunk_cb) cb u cl;
              if negb ok then Some (u, set_flag cl HTTP_END_SESSION)
              else if again : bool then _client_read fuel true u cl
              else loop u cl
          end
        else loop u cl
  end.

Definition iwn_http_request_chunk_next (fuel : nat) (u : U) (cl : client) (cb : option Z) : option (U * client) :=
  _client_read fuel true u {| cl with c_chunk_cb := cb |}.

(** The last token's bytes. *)
Definition iwn_http_request_chunk_get (cl : client) : option (list Z) :=
  t ← last cl.(c_tokens); token_bytes cl.(c_stream) t.

(** [_client_on_poller_adapter_event] of a session without an injected handler: the answer is [-1] when the session is over. *)
Definition _client_on_poller_adapter_event (fuel : nat) (u : U) (cl : client) : option (U * client * Z) :=
  '(u, cl) ←
    (if cl.(c_state) =? HTTP_SESSION_INIT then
       _client_read fuel true u {| (_client_init cl) with c_state := HTTP_SESSION_READ |}
     else if cl.(c_state) =? HTTP_SESSION_READ then _client_read fuel true u cl
     else if cl.(c_state) =? HTTP_SESSION_WRITE then _client_write ops fuel u cl
     else Some (u, cl));
  Some (u, cl, if has_flag cl HTTP_END_SESSION then -1 else 0).

(** The whole function: the handler that was injected ([iwn_http_inject_poller_events_handler]), if any, gets the event instead. *)
Definition client_event (injected : option (U -> client -> option (U * client * Z))) (fuel : nat) (u : U) (cl : client) : option (U * client * Z) :=
  match injected with Some evh => evh u cl | None => _client_on_poller_adapter_event fuel u cl end.
End Read.
Arguments read_ops : clear implicits.

(** ** Header scanning, independent of the buffer

    As long as the scanner is in the headers, a character changes the read position, the token
    under construction and the parser, and looks at nothing else. *)

Section Frame.
Context (buf : list Z) (bt cap len an : Z).
Definition fr (s : stream) : stream := mkStream buf s.(s_token) bt cap len s.(s_index) an s.(s_consumed).

Lemma leave_state_frame sp s p from to :
  leave_state sp (fr s) p from to =
  match leave_state sp s p from to with Some (s', p', e) => Some (fr s', p', e) | None => None end.
Proof.
  unfold leave_state. destruct (from =? to); [done|].
  destruct (rd _token_start_states to) as [ty|]; cbn [mbind option_bind]; [|done].
  destruct (if from =? CS then _ else _) as [q|]; cbn [mbind option_bind]; [|done].
  destruct (ty =? HS_TOK_NONE), (to =? HK); cbn [mbind option_bind]; try done;
    (destruct (to =? HS); cbn [mbind option_bind]; [|done]);
    (destruct (_meta_trigger q HS_META_END_KEY); done).
Qed.

Lemma enter_state_frame sp c to s p e :
  to <> CB -> to <> BD ->
  enter_state sp c to (fr s) p e =
  match enter_state sp c to s p e with Some (s', p', e') => Some (fr s', p', e') | None => None end.
Proof.
  intros H1 H2. unfold enter_state. apply Z.eqb_neq in H1, H2. rewrite H1, H2. cbn [orb].
  repeat match goal with
  | |- context [if ?b then _ else _] => destruct b; [try done|]
  | |- context [_meta_trigger ?p ?e] => destruct (_meta_trigger p e); done
  | |- context [on_header_key ?p ?e] => destruct (on_header_key p e); done
  | |- context [on_header_val ?p ?e] => destruct (on_header_val p e); done
  | |- context [on_chunk_size ?p ?e] => destruct (on_chunk_size p e); done
  end; try done.
  all: unfold on_headers_end, _stream_can_contain; cbn [s_index fr].
  all: destruct (if _ && _ then _ else _) as [q|]; cbn [mbind option_bind]; [|done].
  all: destruct (_meta_trigger q HS_META_END_HEADERS); done.
Qed.
End Frame.

(** The part of the state the headers use. *)
Record core := mkCore { k_parser : parser; k_token : token; k_index : Z }.
Definition core_of (s : stream) (p : parser) : core := mkCore p s.(s_token) s.(s_index).
Definition bare (k : core) : stream := mkStream [] k.(k_token) 0 0 0 k.(k_index) 0 false.
Definition put (s : stream) (k : core) : stream :=
  {| s with s_token := k.(k_token); s_index := k.(k_index); s_consumed := true |}.

(** One character of the headers; [None] when the scan leaves the path of a well-formed request:
    an error token, a token longer than the limit, or a state that is not a header state. *)
Definition header_state (p : parser) : bool :=
  (0 <=? p.(p_state)) && (p.(p_state) <? HN) && negb (p.(p_meta) =? M_SEN) && negb (p.(p_meta) =? M_END).

Definition hchar (sp : spec) (k : core) (c : Z) : option (core * list token) :=
  if header_state k.(k_parser) then
    '(s, p, r) ← scan_char sp no_proxy c (bare k) k.(k_parser);
    if sp.(request_token_max_len) <? s.(s_token).(t_len) then None
    else match r with
         | SProxied => None
         | SToken t => if t.(t_type) =? HS_TOK_ERROR then None else Some (core_of s p, [t])
         | SMore => Some (core_of s p, [])
         end
  else None.

Fixpoint hrun (sp : spec) (k : core) (w : list Z) : option (core * list token) :=
  match w with
  | [] => Some (k, [])
  | c :: w => '(k, l1) ← hchar sp k c; '(k, l2) ← hrun sp k w; Some (k, l1 ++ l2)
  end.

Lemma hrun_app sp k w1 w2 :
  hrun sp k (w1 ++ w2) = '(k1, l1) ← hrun sp k w1; '(k2, l2) ← hrun sp k1 w2; Some (k2, l1 ++ l2).
Proof.
  revert k. induction w1 as [|c w1 IH]; intros k; cbn [app hrun].
  - cbn [mbind option_bind]. destruct (hrun sp k w2) as [[k2 l2]|]; done.
  - destruct (hchar sp k c) as [[k1 l1]|]; cbn [mbind option_bind]; [|done]. rewrite IH.
    destruct (hrun sp k1 w1) as [[k2 l2]|]; cbn [mbind option_bind]; [|done].
    destruct (hrun sp k2 w2) as [[k3 l3]|]; cbn [mbind option_bind]; [|done]. by rewrite app_assoc.
Qed.

Lemma header_edge st to : st < HN -> to = BR \/ (st, to) ∈ table_edges -> to <> CB /\ to <> BD.
Proof.
  intros Hst [->|H]; [split; vm_compute; congruence|]. unfold table_edges in H.
  repeat (apply elem_of_cons in H as [H|H]; [injection H as E1 E2; subst st to; first [(split; vm_compute; congruence) | by vm_compute in Hst]|]).
  by apply elem_of_nil in H.
Qed.

(** A character of the headers on the real stream. *)
Lemma scan_char_core sp px c s p s' p' r :
  byte_ok c -> 0 <= p.(p_state) < HN -> (forall s p, px s p = false) ->
  scan_char sp no_proxy c (bare (core_of s p)) p = Some (s', p', r) ->
  scan_char sp px c {| s with s_consumed := false |} p = Some (put s (core_of s' p'), p', r).
Proof.
  intros Hc Hst Hpx E. unfold scan_char in *.
  destruct (char_type_ok c Hc) as (ty & Ety & Hty). rewrite Ety in *. cbn [mbind option_bind] in *.
  destruct (transition_edge (p_state p) ty) as (to & Eto & Hto); [change HN with 14 in *; change C2 with 23; lia|done|].
  destruct (header_edge (p_state p) to) as [Hcb Hbd]; [lia|done|].
  rewrite Eto in *. cbn [mbind option_bind] in *. rewrite Hpx. unfold no_proxy in E.
  rewrite !andb_false_r, (proj2 (Z.eqb_neq (p_state p) HN)), ?andb_false_r in * by lia. cbn [andb] in *.
  unfold _transition in *. rewrite (proj2 (Z.eqb_neq (p_state p) HN)) in * by lia.
  change {| s with s_consumed := false |} with
    (fr (s_buf s) (s_bytes_total s) (s_capacity s) (s_length s) (s_anchor s) (bare (core_of s p))).
  rewrite leave_state_frame. destruct (leave_state sp (bare (core_of s p)) _ _ to) as [[[s1 p1] e1]|]; cbn [mbind option_bind] in *; [|done].
  rewrite enter_state_frame by done. destruct (enter_state sp c to s1 p1 e1) as [[[s2 p2] e2]|]; cbn [mbind option_bind] in *; [|done].
  injection E as <- <- <-. by destruct s2 as [? ? ? ? ? ? ? []].
Qed.

(** ** Header scanning on the real stream *)

(** The bytes received and not yet read. *)
Definition unread_bytes (s : stream) : list Z := slice s.(s_buf) s.(s_index) s.(s_length).

Definition buf_ok (s : stream) : Prop :=
  0 <= s.(s_index) <= s.(s_length) /\ s.(s_length) <= zlen s.(s_buf) /\ bytes_ok s.(s_buf).

Lemma unread_cons s c w : buf_ok s -> unread_bytes s = c :: w ->
  rd s.(s_buf) s.(s_index) = Some c /\ s.(s_index) < s.(s_length) /\ byte_ok c /\
  unread_bytes {| s with s_index := s.(s_index) + 1 |} = w.
Proof.
  intros (Hi & Hl & Hb) E. unfold unread_bytes in *. cbn [s_buf s_index s_length].
  assert (s_index s < s_length s).
  { destruct (Z.lt_ge_cases (s_index s) (s_length s)); [done|]. exfalso.
    assert (s_length s = s_index s) as E1 by lia. rewrite E1, slice_empty in E. done. }
  rewrite <- (slice_join _ _ (s_index s + 1)) in E by lia.
  destruct (rd_total (s_buf s) (s_index s)) as [b Eb]; [lia|].
  assert (slice (s_buf s) (s_index s) (s_index s + 1) = [b]) as E1.
  { unfold slice. replace (s_index s + 1 - s_index s) with 1 by lia. unfold rd in Eb.
    destruct (Z.ltb_spec (s_index s) 0); [lia|]. apply (take_S_r _ 0). by rewrite lookup_drop, Nat.add_0_r. }
  rewrite E1 in E. injection E as -> ->. repeat split; try done; by eapply rd_byte.
Qed.

Lemma unread_nil s : buf_ok s -> unread_bytes s = [] -> s.(s_index) = s.(s_length).
Proof.
  intros (Hi & Hl & Hb) E. apply (f_equal zlen) in E. unfold unread_bytes in E.
  rewrite slice_length in E by lia. change (zlen []) with 0 in E. lia.
Qed.

Lemma leave_state_index sp s p from to s' p' e :
  leave_state sp s p from to = Some (s', p', e) -> s'.(s_index) = s.(s_index) /\ s'.(s_consumed) = s.(s_consumed).
Proof.
  unfold leave_state. destruct (from =? to); [by intros [= <- <- <-]|].
  destruct (rd _token_start_states to) as [ty|]; cbn [mbind option_bind]; [|done].
  destruct (if from =? CS then _ else _) as [q|]; cbn [mbind option_bind]; [|done].
  destruct (ty =? HS_TOK_NONE), (to =? HK); cbn [mbind option_bind]; try (by intros [= <- <- <-]);
    (destruct (to =? HS); cbn [mbind option_bind]; [|by intros [= <- <- <-]]);
    (destruct (_meta_trigger q HS_META_END_KEY); [by intros [= <- <- <-]|done]).
Qed.

Lemma enter_state_index sp c to s p e s' p' e' :
  to <> CB -> to <> BD -> enter_state sp c to s p e = Some (s', p', e') ->
  s'.(s_index) = s.(s_index) /\ s'.(s_consumed) = s.(s_consumed).
Proof.
  intros H1 H2. unfold enter_state. apply Z.eqb_neq in H1, H2. rewrite H1, H2. cbn [orb].
  repeat match goal with
  | |- context [if ?b then _ else _] => destruct b; [try (by intros [= <- <- <-])|]
  | |- context [_meta_trigger ?p ?e] => destruct (_meta_trigger p e); [by intros [= <- <- <-]|done]
  | |- context [on_header_key ?p ?e] => destruct (on_header_key p e); [by intros [= <- <- <-]|done]
  | |- context [on_header_val ?p ?e] => destruct (on_header_val p e); [by intros [= <- <- <-]|done]
  | |- context [on_chunk_size ?p ?e] => destruct (on_chunk_size p e); [by intros [= <- <- <-]|done]
  end; try (by intros [= <- <- <-]).
  all: destruct (on_headers_end sp s p e) as [[q t]|]; cbn [mbind option_bind]; [by intros [= <- <- <-]|done].
Qed.

Lemma hchar_inv sp k c k' l : byte_ok c -> hchar sp k c = Some (k', l) ->
  0 <= k.(k_parser).(p_state) < HN /\ k'.(k_index) = k.(k_index) + 1 /\
  k'.(k_token).(t_len) <= sp.(request_token_max_len) /\
  k.(k_parser).(p_meta) <> M_SEN /\ k.(k_parser).(p_meta) <> M_END /\
  exists s r, scan_char sp no_proxy c (bare k) k.(k_parser) = Some (s, k'.(k_parser), r) /\ k' = core_of s k'.(k_parser) /\
    match r with SProxied => False | SToken t => l = [t] /\ t.(t_type) <> HS_TOK_ERROR /\ t.(t_type) <> HS_TOK_NONE | SMore => l = [] end.
Proof.
  intros Hc E. unfold hchar in E. destruct (header_state (k_parser k)) eqn:Eh; [|done].
  destruct (scan_char sp no_proxy c (bare k) (k_parser k)) as [[[s p] r]|] eqn:Es; cbn [mbind option_bind] in E; [|done].
  destruct (Z.ltb_spec (request_token_max_len sp) (t_len (s_token s))); [done|].
  assert (k' = core_of s p /\ match r with SProxied => False | SToken t => l = [t] /\ t_type t <> HS_TOK_ERROR | SMore => l = [] end) as [-> Hr].
  { destruct r as [|t|]; [done| |by injection E as <- <-].
    destruct (Z.eqb_spec (t_type t) HS_TOK_ERROR); [done|]. by injection E as <- <-. }
  unfold header_state in Eh. assert (0 <= p_state (k_parser k) < HN) as Hst by (change HN with 14 in *; lia).
  split; [done|]. cbn [core_of k_index k_token k_parser].
  assert (s_index s = k_index k + 1 /\ (forall t, r = SToken t -> t_type t <> HS_TOK_NONE)) as [Hix Hne].
  { unfold scan_char in Es. destruct (char_type_ok c Hc) as (ty & Ety & Hty). rewrite Ety in *. cbn [mbind option_bind] in *.
    destruct (transition_edge (p_state (k_parser k)) ty) as (to & Eto & Hto); [change HN with 14 in *; change C2 with 23; lia|done|].
    destruct (header_edge (p_state (k_parser k)) to) as [Hcb Hbd]; [lia|done|].
    rewrite Eto in *. cbn [mbind option_bind] in *. unfold no_proxy in Es.
    rewrite !andb_false_r, (proj2 (Z.eqb_neq (p_state (k_parser k)) HN)), ?andb_false_r in * by lia. cbn [andb] in *.
    unfold _transition in *. rewrite (proj2 (Z.eqb_neq (p_state (k_parser k)) HN)) in * by lia.
    destruct (leave_state sp (bare k) _ _ to) as [[[s1 p1] e1]|] eqn:E1; cbn [mbind option_bind] in *; [|done].
    destruct (enter_state sp c to s1 p1 e1) as [[[s2 p2] e2]|] eqn:E2; cbn [mbind option_bind] in *; [|done].
    apply leave_state_index in E1 as [I1 C1]. apply enter_state_index in E2 as [I2 C2]; [|done..].
    injection Es as <- <- <-. unfold _stream_consume. rewrite C2, C1. cbn [bare s_consumed s_index] in *. split; [lia|].
    intros t Ht. destruct (Z.eqb_spec (t_type e2) HS_TOK_NONE); [done|]. by injection Ht as <-. }
  split; [done|]. split; [done|]. split; [|split; [|]].
  - intros E1. rewrite E1 in Eh. by rewrite andb_false_r in Eh.
  - intros E1. rewrite E1 in Eh. by rewrite andb_false_r in Eh.
  - exists s, r. split; [done|]. split; [done|]. destruct r as [|t|]; [done| |done]. destruct Hr. eauto.
Qed.

Lemma hrun_index sp k w k' l : bytes_ok w -> hrun sp k w = Some (k', l) -> k'.(k_index) = k.(k_index) + zlen w.
Proof.
  intros Hb. revert k l. induction Hb as [|c w Hc Hb IH]; intros k l E; cbn [hrun] in E.
  - injection E as <- <-. zlen_lia.
  - destruct (hchar sp k c) as [[k1 l1]|] eqn:E1; cbn [mbind option_bind] in E; [|done].
    destruct (hrun sp k1 w) as [[k2 l2]|] eqn:E2; cbn [mbind option_bind] in E; [|done]. injection E as <- <-.
    apply hchar_inv in E1 as (_ & E1 & _); [|done]. apply IH in E2. zlen_lia.
Qed.

Lemma put_core s p : put s (core_of s p) = {| s with s_consumed := true |}.
Proof. done. Qed.

Section Headers.
Context (sp : spec) (px : stream -> parser -> bool) (Hpx : forall s p, px s p = false).

(** One character, on the real stream. *)
Lemma scan_char_header s p c w k' l :
  buf_ok s -> unread_bytes s = c :: w -> hchar sp (core_of s p) c = Some (k', l) ->
  let s' := put s k' in
  _stream_next s = ({| s with s_consumed := false |}, Some (Some c)) /\ buf_ok s' /\ unread_bytes s' = w /\
  exists r, scan_char sp px c {| s with s_consumed := false |} p = Some (s', k'.(k_parser), r) /\
    match r with SProxied => False | SToken t => l = [t] /\ t.(t_type) <> HS_TOK_ERROR /\ t.(t_type) <> HS_TOK_NONE | SMore => l = [] end.
Proof.
  intros Hok E Hh. destruct (unread_cons s c w Hok E) as (Hrd & Hlt & Hc & Hw).
  apply hchar_inv in Hh as (Hst & Hix & _ & _ & _ & s1 & r & Es & Ek & Hr); [|done].
  cbn [core_of k_parser k_index] in *. cbv zeta. rewrite Ek in *.
  split. { unfold _stream_next. cbn [s_length s_index s_buf]. destruct (Z.leb_spec (s_length s) (s_index s)); [lia|]. by rewrite Hrd. }
  split. { destruct Hok as (H1 & H2 & H3). unfold buf_ok, put. cbn [s_index s_length s_buf core_of k_index] in *. split; [lia|done]. }
  split. { unfold put, unread_bytes in *. cbn [s_buf s_index s_length k_index core_of] in *. by rewrite Hix. }
  exists r. split; [|done]. by eapply scan_char_core.
Qed.

(** The scan loop over header bytes [w] stops at the first token, or goes on with what follows. *)
Lemma scan_loop_header w rest : forall s p fuel k2 tks,
  buf_ok s -> unread_bytes s = w ++ rest -> hrun sp (core_of s p) w = Some (k2, tks) -> (length w < fuel)%nat ->
  match tks with
  | [] => exists s2, (s2 = s /\ w = [] \/ s2 = put s k2) /\ core_of s2 k2.(k_parser) = k2 /\ buf_ok s2 /\ unread_bytes s2 = rest /\
      scan_loop sp px fuel s p = scan_loop sp px (fuel - length w) s2 k2.(k_parser)
  | t :: tks' => exists w1 w2 k1, w = w1 ++ w2 /\ w1 <> [] /\ hrun sp k1 w2 = Some (k2, tks') /\
      t.(t_type) <> HS_TOK_ERROR /\ t.(t_type) <> HS_TOK_NONE /\
      unread_bytes (put s k1) = w2 ++ rest /\ buf_ok (put s k1) /\
      scan_loop sp px fuel s p = Some (put s k1, k1.(k_parser), SToken t)
  end.
Proof.
  induction w as [|c w IH]; intros s p fuel k2 tks Hok E Hrun Hf.
  - cbn [hrun] in Hrun. injection Hrun as <- <-. exists s. cbn [core_of k_parser length]. rewrite Nat.sub_0_r. auto 10.
  - destruct fuel as [|fuel]; [lia|]. cbn [hrun] in Hrun.
    destruct (hchar sp (core_of s p) c) as [[k1 l1]|] eqn:Eh; cbn [mbind option_bind] in Hrun; [|done].
    destruct (hrun sp k1 w) as [[k3 l3]|] eqn:Er; cbn [mbind option_bind] in Hrun; [|done]. injection Hrun as -> <-.
    destruct (scan_char_header s p c (w ++ rest) k1 l1 Hok E Eh) as (Hnext & Hok1 & Hw1 & r & Es & Hr).
    assert (scan_loop sp px (S fuel) s p =
      match r with SMore => scan_loop sp px fuel (put s k1) (k_parser k1) | _ => Some (put s k1, k_parser k1, r) end) as Eloop.
    { cbn [scan_loop]. rewrite Hnext. cbn [mbind option_bind]. rewrite Es. done. }
    destruct r as [|t|]; [done| |].
    + destruct Hr as (-> & Hne & Hnn). cbn [app]. exists [c], w, k1. done.
    + subst l1. cbn [app]. specialize (IH (put s k1) (k_parser k1) fuel k2 l3 Hok1 Hw1).
      destruct k1 as [p1 t1 i1]. specialize (IH Er ltac:(simpl in Hf; lia)).
      destruct l3 as [|t l3].
      * destruct IH as (s2 & Hs2 & Hc2 & Hok2 & Hu2 & E2). exists s2. split; [|by rewrite Eloop].
        right. destruct Hs2 as [[-> ->]| ->]; [|done]. cbn [hrun] in Er. by injection Er as <-.
      * destruct IH as (w1 & w2 & k4 & -> & Hnil & H2 & H3 & H4 & H5 & H6 & E6). exists (c :: w1), w2, k4.
        rewrite Eloop, E6. done.
Qed.

Lemma unread_length s : buf_ok s -> length (unread_bytes s) = Z.to_nat (s.(s_length) - s.(s_index)).
Proof.
  intros (? & ? & ?). assert (zlen (unread_bytes s) = s_length s - s_index s) as E by (apply slice_length; lia).
  unfold zlen in E. lia.
Qed.

Lemma meta_emit_none p : p.(p_meta) <> M_SEN -> p.(p_meta) <> M_END -> _meta_emit_token p = Some (p, token_zero).
Proof. intros H1 H2. unfold _meta_emit_token. apply Z.eqb_neq in H1, H2. by rewrite H1, H2. Qed.

Definition quiet (p : parser) : Prop := p.(p_meta) <> M_SEN /\ p.(p_meta) <> M_END.

Lemma hrun_cons_quiet k c w r : byte_ok c -> hrun sp k (c :: w) = Some r -> quiet k.(k_parser).
Proof.
  intros Hc E. cbn [hrun] in E. destruct (hchar sp k c) as [[k1 l1]|] eqn:Eh; [|done].
  by apply hchar_inv in Eh as (_ & _ & _ & H1 & H2 & _).
Qed.

(** [_token_parse] in the headers, when a token is completed. *)
Lemma token_parse_header s p w rest k2 t tks :
  buf_ok s -> unread_bytes s = w ++ rest -> hrun sp (core_of s p) w = Some (k2, t :: tks) ->
  exists w1 w2 k1, w = w1 ++ w2 /\ w1 <> [] /\ hrun sp k1 w2 = Some (k2, tks) /\
    t.(t_type) <> HS_TOK_ERROR /\ t.(t_type) <> HS_TOK_NONE /\
    unread_bytes (put s k1) = w2 ++ rest /\ buf_ok (put s k1) /\
    _token_parse sp px s p = Some (put s k1, k1.(k_parser), t).
Proof.
  intros Hok E Hrun. destruct w as [|c w]; [done|].
  destruct (unread_cons s c (w ++ rest) Hok E) as (_ & Hlt & Hc & _).
  pose proof (hrun_cons_quiet _ _ _ _ Hc Hrun) as [Q1 Q2]. cbn [core_of k_parser] in *.
  unfold _token_parse. rewrite meta_emit_none by done. cbn [mbind option_bind token_zero t_type]. change (0 =? HS_TOK_NONE) with true. cbn [negb].
  destruct (scan_loop_header (c :: w) rest s p (scan_fuel s) k2 (t :: tks) Hok E Hrun) as (w1 & w2 & k1 & H).
  { unfold scan_fuel. rewrite <- unread_length, E, length_app by done. lia. }
  exists w1, w2, k1. destruct H as (H1 & H2 & H3 & H4 & H5 & H6 & H7 & ->). done.
Qed.

(** [_token_parse] when the header bytes that have arrived complete no token: the scan goes on with
    what follows them. *)
Lemma token_parse_header_more s p w rest k2 :
  buf_ok s -> unread_bytes s = w ++ rest -> quiet p -> hrun sp (core_of s p) w = Some (k2, []) ->
  exists s2, (s2 = s /\ w = [] \/ s2 = put s k2) /\ core_of s2 k2.(k_parser) = k2 /\ buf_ok s2 /\ unread_bytes s2 = rest /\
    _token_parse sp px s p =
    '(s, p, r) ← scan_loop sp px (scan_fuel s2) s2 k2.(k_parser);
    match r with SProxied => Some (s, p, token_zero) | SToken t => Some (s, p, t) | SMore => parse_end sp s p end.
Proof.
  intros Hok E [Q1 Q2] Hrun.
  unfold _token_parse. rewrite meta_emit_none by done. cbn [mbind option_bind token_zero t_type]. change (0 =? HS_TOK_NONE) with true. cbn [negb].
  destruct (scan_loop_header w rest s p (scan_fuel s) k2 [] Hok E Hrun) as (s2 & Hs2 & Hc2 & Hok2 & Hu2 & ->).
  { unfold scan_fuel. rewrite <- unread_length, E, length_app by done. lia. }
  exists s2. split; [done|]. split; [done|]. split; [done|]. split; [done|].
  replace (scan_fuel s - length w)%nat with (scan_fuel s2); [done|].
  unfold scan_fuel. rewrite <- !unread_length, E, Hu2, length_app by done. lia.
Qed.

(** ... and reports the end of the data when nothing follows. *)
Lemma token_parse_header_end s p w k2 :
  buf_ok s -> unread_bytes s = w -> quiet p -> hrun sp (core_of s p) w = Some (k2, []) ->
  quiet k2.(k_parser) -> k2.(k_parser).(p_state) <> CB -> k2.(k_token).(t_len) <= sp.(request_token_max_len) ->
  exists s2, core_of s2 k2.(k_parser) = k2 /\ buf_ok s2 /\ unread_bytes s2 = [] /\ s2.(s_buf) = s.(s_buf) /\
    s2.(s_length) = s.(s_length) /\ s2.(s_capacity) = s.(s_capacity) /\
    _token_parse sp px s p = Some (s2, k2.(k_parser), token_zero).
Proof.
  intros Hok E Hq Hrun [Q3 Q4] Hcb Hlen. rewrite <- (app_nil_r w) in E.
  destruct (token_parse_header_more s p w [] k2 Hok E Hq Hrun) as (s2 & Hs2 & Hc2 & Hok2 & Hu2 & ->).
  exists {| s2 with s_consumed := false |}. split; [done|]. split; [done|]. split; [done|].
  split; [by destruct Hs2 as [[-> _]| ->]|]. split; [by destruct Hs2 as [[-> _]| ->]|]. split; [by destruct Hs2 as [[-> _]| ->]|].
  unfold scan_fuel. cbn [scan_loop]. pose proof (unread_nil s2 Hok2 Hu2). unfold _stream_next. cbn [s_length s_index].
  destruct (Z.leb_spec (s_length s2) (s_index s2)); [|lia]. cbn [mbind option_bind].
  unfold parse_end. rewrite (proj2 (Z.eqb_neq _ _) Hcb). cbn [mbind option_bind].
  rewrite meta_emit_none by done. cbn [mbind option_bind s_token].
  assert (s_token s2 = k_token k2) as Et by (by rewrite <- Hc2).
  rewrite Et. destruct (Z.ltb_spec (request_token_max_len sp) (t_len (k_token k2))); [lia|]. by rewrite andb_false_r.
Qed.
End Headers.
