(* ===== verification/HttpHead.v ===== *)
(** * HttpHead: the scanner on the head of a well-formed request

    What the scanner of [HttpParser.v] makes of the request line and the header fields of a
    request, character by character: the tokens, and what it concludes about the body. *)
From S2P Require Import Prelude HttpParser HttpSafe HttpResponse HttpRead.

(** ** Well-formed requests *)

Record request := mkRequest {
  q_method : list Z; q_target : list Z; q_version : list Z; q_headers : list (list Z * list Z); q_body : list Z }.

Definition print_field (h : list Z * list Z) : list Z := h.1 ++ [58; 32] ++ h.2 ++ CRLF.
Definition print_head (q : request) : list Z :=
  q.(q_method) ++ [32] ++ q.(q_target) ++ [32] ++ q.(q_version) ++ CRLF ++ (q.(q_headers) ≫= print_field) ++ CRLF.
Definition print_request (q : request) : list Z := print_head q ++ q.(q_body).

(** Characters of given types. *)
Definition typed (types : list Z) (c : Z) : Prop := byte_ok c /\ exists t, char_type c = Some t /\ t ∈ types.
#[export] Instance typed_dec types c : Decision (typed types c).
Proof.
  destruct (char_type c) as [t|] eqn:E.
  - destruct (decide (byte_ok c /\ t ∈ types)) as [[H1 H2]|H]; [left; split; eauto|right; intros [H1 (t' & E' & H2)]; simplify_eq; auto].
  - right. intros [_ (t' & E' & _)]. congruence.
Defined.

Definition T_tchar : list Z := [HS_DIGIT; HS_HEX; HS_ALPHA; HS_TCHAR].
Definition T_visible : list Z := [HS_DIGIT; HS_HEX; HS_ALPHA; HS_TCHAR; HS_VCHAR].
Definition T_value : list Z := [HS_COLN; HS_SCOLN; HS_DIGIT; HS_HEX; HS_ALPHA; HS_TCHAR; HS_VCHAR].

(** A non-empty string, with the types of the first and of the other characters. *)
Definition field (first rest : list Z) (w : list Z) : Prop :=
  match w with [] => False | c :: w => typed first c /\ Forall (typed rest) w end.
#[export] Instance field_dec first rest w : Decision (field first rest w).
Proof. destruct w; simpl; apply _. Defined.

Definition method_ok := field [HS_HEX; HS_ALPHA; HS_TCHAR] T_tchar.
Definition target_ok := field T_visible T_value.
Definition version_ok := field T_visible T_visible.
Definition key_ok := field T_tchar T_tchar.
Definition val_ok := field T_value (HS_SPC :: HS_TAB :: T_value).

(** ** Single characters *)

Ltac no_vars a := tryif (match a with context [?v] => is_var v end) then fail else idtac.
Ltac htbl1 :=
  match goal with
  | |- context [Z.eqb ?a ?b] => no_vars a; no_vars b;
      let v := eval vm_compute in (Z.eqb a b) in change (Z.eqb a b) with v
  | |- context [Z.leb ?a ?b] => no_vars a; no_vars b;
      let v := eval vm_compute in (Z.leb a b) in change (Z.leb a b) with v
  | |- context [Z.ltb ?a ?b] => no_vars a; no_vars b;
      let v := eval vm_compute in (Z.ltb a b) in change (Z.ltb a b) with v
  | |- context [rd ?l ?i] => no_vars l; no_vars i;
      let v := eval vm_compute in (rd l i) in change (rd l i) with v
  | |- context [header_state ?p] => unfold header_state
  end.
Ltac hcbn := cbn [bare core_of k_parser k_token k_index fst snd]; tbl_cbn.
Ltac htbl := hcbn; repeat (htbl1; hcbn).

(** Split a character by its type. *)
Ltac by_type H :=
  let Hb := fresh "Hb" in let t := fresh "t" in let Et := fresh "Et" in let Hin := fresh "Hin" in
  destruct H as [Hb (t & Et & Hin)]; cbv [T_tchar T_visible T_value] in Hin;
  repeat (apply elem_of_cons in Hin as [Hin|Hin]; [subst t|]); try (by apply elem_of_nil in Hin).

Ltac hchar_start :=
  unfold hchar, scan_char, bare; hcbn;
  match goal with Et : char_type ?c = Some _ |- _ => rewrite Et end; htbl;
  unfold _transition, no_proxy; htbl; unfold leave_state, _stream_anchor; htbl;
  unfold _meta_trigger, _stream_begin_token, _stream_emit, token_zero; htbl;
  unfold enter_state; htbl; unfold _meta_trigger, _stream_emit; htbl;
  unfold _stream_consume, token_grow, token_zero, core_of; htbl.

Section Chars.
Context (sp : spec).
Abbreviation K st me cl mi hc tok i := (mkCore (mkParser cl 0 mi hc st me) tok i).

(** States that only collect characters. *)
Definition collects (st ty : Z) (types : list Z) : Prop :=
  (st = MT /\ ty = HS_TOK_METHOD /\ types = T_tchar) \/
  (st = TR /\ ty = HS_TOK_TARGET /\ types = T_value) \/
  (st = VN /\ ty = HS_TOK_VERSION /\ types = T_visible).

Lemma collect_char st ty types c cl mi hc ti tl i :
  collects st ty types -> typed types c -> 0 <= tl -> tl + 1 <= sp.(request_token_max_len) -> tl + 1 < 2 ^ 31 ->
  hchar sp (K st M_WFK cl mi hc (mkToken ti tl ty) i) c = Some (K st M_WFK cl mi hc (mkToken ti (tl + 1) ty) (i + 1), []).
Proof.
  intros Hs Hc Htl Hmax Hlt. destruct Hs as [(-> & -> & ->)|[(-> & -> & ->)|(-> & -> & ->)]]; by_type Hc.
  all: hchar_start; rewrite (i32_small (tl + 1)) by lia; destruct (Z.ltb_spec (request_token_max_len sp) (tl + 1)); [lia|]; done.
Qed.

Lemma collect_run st ty types w cl mi hc ti tl i :
  collects st ty types -> Forall (typed types) w -> 0 <= tl -> tl + zlen w <= sp.(request_token_max_len) -> tl + zlen w < 2 ^ 31 ->
  hrun sp (K st M_WFK cl mi hc (mkToken ti tl ty) i) w = Some (K st M_WFK cl mi hc (mkToken ti (tl + zlen w) ty) (i + zlen w), []).
Proof.
  intros Hs Hw. revert tl i. induction Hw as [|c w Hc Hw IH]; intros tl i H1 H2 H3; cbn [hrun].
  - change (zlen (@nil Z)) with 0. rewrite !Z.add_0_r. done.
  - rewrite zlen_cons in *. pose proof (zlen_nonneg w). rewrite (collect_char st ty types) by (done || lia). cbn [mbind option_bind].
    rewrite IH by lia. cbn [mbind option_bind app]. feq.
Qed.

(** The three parts of the request line: the state before, the one that collects, its token, the
    types of its characters, the first ones, the character that ends it and the state after. *)
Definition part (before st ty : Z) (first types : list Z) (fin after me : Z) : Prop :=
  (before = ST /\ st = MT /\ ty = HS_TOK_METHOD /\ first = [HS_HEX; HS_ALPHA; HS_TCHAR] /\ types = T_tchar /\
   fin = 32 /\ after = MS /\ me = M_WFK) \/
  (before = MS /\ st = TR /\ ty = HS_TOK_TARGET /\ first = T_visible /\ types = T_value /\ fin = 32 /\ after = TS /\ me = M_WFK) \/
  (before = TS /\ st = VN /\ ty = HS_TOK_VERSION /\ first = T_visible /\ types = T_visible /\ fin = 13 /\ after = RR /\ me = M_ANY).

Definition small (n : Z) : Prop := 0 <= n < 2 ^ 31.

Lemma part_first before st ty first types fin after me c cl mi hc i :
  part before st ty first types fin after me -> typed first c -> small i -> 1 <= sp.(request_token_max_len) ->
  hchar sp (K before M_WFK cl mi hc token_zero i) c = Some (K st M_WFK cl 0 hc (mkToken i 1 ty) (i + 1), []).
Proof.
  intros Hp Hc [Hi1 Hi2] Hmax.
  destruct Hp as [(-> & -> & -> & -> & -> & -> & -> & ->)|[(-> & -> & -> & -> & -> & -> & -> & ->)|(-> & -> & -> & -> & -> & -> & -> & ->)]].
  all: by_type Hc.
  all: unfold token_zero; hchar_start; change (i32 (0 + 1)) with 1; rewrite (i32_small i) by lia;
    destruct (Z.ltb_spec (request_token_max_len sp) 1); [lia|]; done.
Qed.

Lemma part_last before st ty first types fin after me cl mi hc ti tl i :
  part before st ty first types fin after me -> 0 <= sp.(request_token_max_len) ->
  hchar sp (K st M_WFK cl mi hc (mkToken ti tl ty) i) fin = Some (K after me cl 0 hc token_zero (i + 1), [mkToken ti tl ty]).
Proof.
  intros Hp Hmax.
  destruct Hp as [(-> & -> & -> & -> & -> & -> & -> & ->)|[(-> & -> & -> & -> & -> & -> & -> & ->)|(-> & -> & -> & -> & -> & -> & -> & ->)]].
  1, 2: assert (char_type 32 = Some HS_SPC) as Et by reflexivity.
  3: assert (char_type 13 = Some HS_CR) as Et by reflexivity.
  all: hchar_start; destruct (Z.ltb_spec (request_token_max_len sp) 0); [lia|]; done.
Qed.

Lemma part_collects before st ty first types fin after me : part before st ty first types fin after me -> collects st ty types.
Proof.
  intros [(-> & -> & -> & -> & -> & -> & -> & ->)|[(-> & -> & -> & -> & -> & -> & -> & ->)|(-> & -> & -> & -> & -> & -> & -> & ->)]];
    unfold collects; auto.
Qed.

Lemma part_run before st ty first types fin after me w cl mi hc i :
  part before st ty first types fin after me -> field first types w -> small i ->
  zlen w <= sp.(request_token_max_len) -> zlen w < 2 ^ 31 ->
  hrun sp (K before M_WFK cl mi hc token_zero i) (w ++ [fin]) =
  Some (K after me cl 0 hc token_zero (i + zlen w + 1), [mkToken i (zlen w) ty]).
Proof.
  intros Hp Hw Hi Hmax Hlt. destruct w as [|c w]; [done|]. destruct Hw as [Hc Hw].
  rewrite zlen_cons in *. pose proof (zlen_nonneg w).
  change ((c :: w) ++ [fin]) with ([c] ++ w ++ [fin]). rewrite !hrun_app. cbn [hrun].
  rewrite (part_first before st ty first types fin after me) by (done || lia). cbn [mbind option_bind app].
  rewrite hrun_app, (collect_run st ty types) by first [lia | done | by eapply part_collects].
  cbn [mbind option_bind hrun]. rewrite (part_last before st ty first types fin after me) by (done || lia).
  cbn [mbind option_bind app]. feq.
Qed.

(** Characters that only change the state. *)
Lemma plain_char st c to me cl mi hc i ty :
  char_type c = Some ty -> In (st, ty, to) [(RR, HS_NL, RN); (HR, HS_NL, HE); (HE, HS_CR, ER)] ->
  In me [M_ANY; M_SML] -> 0 <= sp.(request_token_max_len) ->
  hchar sp (K st me cl mi hc token_zero i) c = Some (K to me cl 0 hc token_zero (i + 1), []).
Proof.
  intros Et Hst Hme Hmax.
  repeat destruct Hme as [<-|Hme]; try done.
  all: repeat destruct Hst as [[= <- <- <-]|Hst]; try done.
  all: unfold token_zero; hchar_start; destruct (Z.ltb_spec (request_token_max_len sp) 0); [lia|]; done.
Qed.

Lemma request_line_run q cl mi hc :
  method_ok q.(q_method) -> target_ok q.(q_target) -> version_ok q.(q_version) ->
  zlen q.(q_method) <= sp.(request_token_max_len) -> zlen q.(q_target) <= sp.(request_token_max_len) ->
  zlen q.(q_version) <= sp.(request_token_max_len) ->
  zlen q.(q_method) + zlen q.(q_target) + zlen q.(q_version) + 4 < 2 ^ 31 ->
  let i1 := zlen q.(q_method) + 1 in let i2 := i1 + zlen q.(q_target) + 1 in
  hrun sp (K ST M_WFK cl mi hc token_zero 0) (q.(q_method) ++ [32] ++ q.(q_target) ++ [32] ++ q.(q_version) ++ CRLF) =
  Some (K RN M_ANY cl 0 hc token_zero (i2 + zlen q.(q_version) + 2),
    [mkToken 0 (zlen q.(q_method)) HS_TOK_METHOD; mkToken i1 (zlen q.(q_target)) HS_TOK_TARGET;
     mkToken i2 (zlen q.(q_version)) HS_TOK_VERSION]).
Proof.
  intros Hm Ht Hv Lm Lt Lv Hsum i1 i2.
  pose proof (zlen_nonneg (q_method q)). pose proof (zlen_nonneg (q_target q)). pose proof (zlen_nonneg (q_version q)).
  replace (q_method q ++ [32] ++ q_target q ++ [32] ++ q_version q ++ CRLF)
    with ((q_method q ++ [32]) ++ (q_target q ++ [32]) ++ (q_version q ++ [13]) ++ [10]) by (by rewrite <- !app_assoc).
  rewrite hrun_app, (part_run ST MT HS_TOK_METHOD [HS_HEX; HS_ALPHA; HS_TCHAR] T_tchar 32 MS M_WFK)
    by first [done | lia | (unfold small; lia) | (left; done)]. cbn [mbind option_bind].
  rewrite hrun_app, (part_run MS TR HS_TOK_TARGET T_visible T_value 32 TS M_WFK)
    by first [done | lia | (unfold small; lia) | (right; left; done)]. cbn [mbind option_bind].
  rewrite hrun_app, (part_run TS VN HS_TOK_VERSION T_visible T_visible 13 RR M_ANY)
    by first [done | lia | (unfold small; lia) | (right; right; done)]. cbn [mbind option_bind hrun].
  rewrite (plain_char RR 10 RN M_ANY _ _ _ _ HS_NL) by first [done | (simpl; tauto) | lia]. cbn [mbind option_bind app].
  unfold i2, i1. feq.
Qed.

(** *** Header keys *)

Definition str_content_lengthing : list Z := bytes_of_string "content-lengthing".

(** The meta state after the characters [u] of a key: what they are a prefix of.  The three extra
    characters come from the stale [m] of [MATCH]. *)
Definition key_meta (u : list Z) : Z :=
  if bool_decide (map lower u `prefix_of` str_transfer_encoding) then M_MTE
  else if bool_decide (map lower u `prefix_of` str_content_lengthing) then M_MCL
  else M_WFK.

Lemma prefix_snoc (u S : list Z) c : u ++ [c] `prefix_of` S <-> u `prefix_of` S /\ S !! length u = Some c.
Proof.
  split.
  - intros [k ->]. split; [by exists ([c] ++ k); rewrite <- app_assoc|].
    rewrite <- app_assoc, lookup_app_r by lia. by rewrite Nat.sub_diag.
  - intros [[k ->] H]. rewrite lookup_app_r, Nat.sub_diag in H by lia. destruct k as [|x k]; [done|].
    injection H as ->. exists k. by rewrite <- app_assoc.
Qed.

(** The characters the two matches compare with at position [n]. *)
Definition te_char (n : nat) : Z := default 0 (str_transfer_encoding !! n).
Definition cl_char (n : nat) : Z := default 0 (str_content_lengthing !! n).

Lemma match_chars n :
  (if Z.of_nat n <? zlen str_transfer_encoding then rd str_transfer_encoding (Z.of_nat n) else Some 0) = Some (te_char n) /\
  (if Z.of_nat n <? zlen str_content_length then rd str_content_length (Z.of_nat n) else Some (te_char n)) = Some (cl_char n).
Proof.
  destruct (decide (n < 17)%nat) as [H|H].
  - do 17 (destruct n as [|n]; [done|]). lia.
  - change (zlen str_transfer_encoding) with 17. change (zlen str_content_length) with 14.
    destruct (Z.ltb_spec (Z.of_nat n) 17), (Z.ltb_spec (Z.of_nat n) 14); try lia.
    unfold te_char, cl_char. rewrite !lookup_ge_None_2 by (change (length str_transfer_encoding) with 17%nat;
      change (length str_content_lengthing) with 17%nat; lia). done.
Qed.

Lemma typed_nonzero c : typed T_tchar c -> lower c <> 0.
Proof.
  intros [Hb (t & Et & Hin)] E.
  assert (c = 0) as -> by (unfold lower in E; unfold byte_ok in Hb; destruct (65 <=? c) eqn:?; destruct (c <=? 90) eqn:?; cbn [andb] in E; lia).
  vm_compute in Et. injection Et as <-. by repeat (apply elem_of_cons in Hin as [Hin|Hin]; [done|]); apply elem_of_nil in Hin.
Qed.

Lemma key_meta_snoc u c : u <> [] -> typed T_tchar c ->
  key_meta (u ++ [c]) =
  if key_meta u =? M_MTE then (if lower c =? te_char (length u) then M_MTE else M_WFK)
  else if key_meta u =? M_MCL then (if lower c =? cl_char (length u) then M_MCL else M_WFK)
  else M_WFK.
Proof.
  intros Hu Hc. pose proof (typed_nonzero c Hc) as Hnz. unfold key_meta. rewrite !map_app. cbn [map].
  assert (forall S d, d = default 0 (S !! length u) ->
    bool_decide (map lower u ++ [lower c] `prefix_of` S) = bool_decide (map lower u `prefix_of` S) && (lower c =? d)) as HS.
  { intros S d ->. rewrite (bool_decide_ext _ _ (prefix_snoc _ _ _)), bool_decide_and, length_map. f_equal.
    destruct (S !! length u) as [x|].
    - change (default 0 (Some x)) with x. destruct (Z.eqb_spec (lower c) x) as [->|Hn]; [by apply bool_decide_eq_true|].
      apply bool_decide_eq_false. congruence.
    - change (default 0 (@None Z)) with 0. rewrite (proj2 (Z.eqb_neq _ _) Hnz). by apply bool_decide_eq_false. }
  rewrite (HS str_transfer_encoding _ eq_refl), (HS str_content_lengthing _ eq_refl).
  change (default 0 (str_transfer_encoding !! length u)) with (te_char (length u)).
  change (default 0 (str_content_lengthing !! length u)) with (cl_char (length u)).
  assert (~ (map lower u `prefix_of` str_transfer_encoding /\ map lower u `prefix_of` str_content_lengthing)) as Hex.
  { destruct u as [|x u]; [done|]. intros [[k1 E1] [k2 E2]]. cbn [map] in *.
    apply (f_equal head) in E1, E2. cbn [app head] in E1, E2.
    change (head str_transfer_encoding) with (Some 116) in E1. change (head str_content_lengthing) with (Some 99) in E2. congruence. }
  destruct (bool_decide (map lower u `prefix_of` str_transfer_encoding)) eqn:E1;
    destruct (bool_decide (map lower u `prefix_of` str_content_lengthing)) eqn:E2; cbn [andb].
  - exfalso. apply bool_decide_eq_true in E1, E2. by apply Hex.
  - by destruct (lower c =? te_char (length u)).
  - by destruct (lower c =? cl_char (length u)).
  - done.
Qed.

Lemma key_meta_one c : key_meta [c] = if lower c =? 116 then M_MTE else if lower c =? 99 then M_MCL else M_WFK.
Proof.
  unfold key_meta. cbn [map].
  assert (forall S x, head S = Some x -> bool_decide ([lower c] `prefix_of` S) = (lower c =? x)) as HS.
  { intros S x HS. rewrite (bool_decide_ext _ _ (prefix_snoc [] S (lower c))). destruct S as [|y S]; [done|]. injection HS as ->.
    destruct (Z.eqb_spec (lower c) x) as [->|Hn].
    - apply bool_decide_eq_true. split; [apply prefix_nil|done].
    - apply bool_decide_eq_false. intros [_ E]. cbn in E. congruence. }
  by rewrite (HS str_transfer_encoding 116 eq_refl), (HS str_content_lengthing 99 eq_refl).
Qed.

(** The meta state a header line starts in, and where it stands after the characters [u] of its key. *)
Definition key_state (me : Z) (u : list Z) : Z :=
  if me =? M_SML then M_SML else match u with [] => M_ANY | _ => key_meta u end.

Lemma key_state_cases u : key_meta u = M_MTE \/ key_meta u = M_MCL \/ key_meta u = M_WFK.
Proof. unfold key_meta. repeat case_bool_decide; auto. Qed.

Lemma on_header_key_step me u c cl hc :
  me = M_ANY \/ me = M_SML -> typed T_tchar c -> zlen u < 32767 ->
  on_header_key c (mkParser cl 0 (zlen u) hc HK (key_state me u)) =
  Some (mkParser cl 0 (zlen u + 1) hc HK (key_state me (u ++ [c]))).
Proof.
  intros Hme Hc Hlt. pose proof (zlen_nonneg u). unfold on_header_key, MATCH, match_next. cbn [p_match_index].
  destruct (match_chars (length u)) as [E1 E2]. fold (zlen u) in E1, E2. rewrite E1. cbn [mbind option_bind].
  rewrite <- (i16_small (zlen u + 1)) at 1 by lia.
  destruct Hme as [->| ->]; unfold key_state; htbl.
  2: { unfold _meta_trigger. destruct (lower c =? te_char (length u)); htbl; rewrite E2; htbl;
       destruct (lower c =? cl_char (length u)); htbl; done. }
  destruct u as [|x u].
  { cbn [app length] in *. unfold _meta_trigger. change (te_char 0) with 116. rewrite key_meta_one.
    destruct (Z.eqb_spec (lower c) 116) as [E|E]; htbl; destruct (Z.eqb_spec (lower c) 99) as [F|F]; htbl; try lia; done. }
  change ((x :: u) ++ [c]) with (x :: (u ++ [c])). cbv iota. change (x :: (u ++ [c])) with ((x :: u) ++ [c]).
  rewrite key_meta_snoc by done.
  unfold _meta_trigger. destruct (key_state_cases (x :: u)) as [Ek|[Ek|Ek]]; rewrite Ek; htbl.
  all: destruct (lower c =? te_char (length (x :: u))) eqn:Ete; htbl; rewrite E2; htbl;
    destruct (lower c =? cl_char (length (x :: u))) eqn:Ecl; htbl; done.
Qed.

Lemma key_state_not_err me u : me = M_ANY \/ me = M_SML -> u <> [] ->
  key_state me u = M_SML \/ key_state me u = M_MTE \/ key_state me u = M_MCL \/ key_state me u = M_WFK.
Proof.
  intros [->| ->] Hu; unfold key_state; [|by left]. destruct u as [|x u]; [done|].
  destruct (key_state_cases (x :: u)) as [E|[E|E]]; rewrite E; vm_compute; auto.
Qed.

Lemma key_first st me c cl mi hc i :
  st = RN \/ st = HE -> me = M_ANY \/ me = M_SML -> typed T_tchar c -> small i -> 0 <= hc < 32767 ->
  hc + 1 <= sp.(request_max_headers_count) -> 1 <= sp.(request_token_max_len) ->
  hchar sp (K st me cl mi hc token_zero i) c =
  Some (K HK (key_state me [c]) cl 1 (hc + 1) (mkToken i 1 HS_TOK_HEADER_KEY) (i + 1), []).
Proof.
  intros Hst Hme Hc [Hi1 Hi2] Hhc Hmax Hlen.
  pose proof (on_header_key_step me [] c cl (hc + 1) Hme Hc ltac:(vm_compute; done)) as Hk. change (zlen []) with 0 in Hk.
  assert (key_state me [] = me) as Ek by (by destruct Hme as [->| ->]). rewrite Ek in Hk.
  destruct Hst as [->| ->]; by_type Hc; destruct Hme as [->| ->].
  all: unfold hchar, scan_char, bare; hcbn; rewrite Et; htbl; unfold _transition, no_proxy; htbl;
    unfold leave_state; htbl; unfold _stream_begin_token, token_zero; htbl; unfold enter_state; htbl.
  all: rewrite (i16_small (hc + 1)) by lia; fold HK; change 8 with HK; rewrite Hk; htbl.
  all: destruct (Z.ltb_spec (request_max_headers_count sp) (hc + 1)); [lia|]; htbl.
  all: unfold _stream_consume, token_grow, core_of; htbl; change (i32 (0 + 1)) with 1; rewrite (i32_small i) by lia.
  all: destruct (Z.ltb_spec (request_token_max_len sp) 1); [lia|]; done.
Qed.

Lemma key_char me u c cl hc ti i :
  me = M_ANY \/ me = M_SML -> u <> [] -> typed T_tchar c -> zlen u < 32767 -> zlen u + 1 <= sp.(request_token_max_len) ->
  hchar sp (K HK (key_state me u) cl (zlen u) hc (mkToken ti (zlen u) HS_TOK_HEADER_KEY) i) c =
  Some (K HK (key_state me (u ++ [c])) cl (zlen u + 1) hc (mkToken ti (zlen u + 1) HS_TOK_HEADER_KEY) (i + 1), []).
Proof.
  intros Hme Hu Hc Hlt Hmax. pose proof (zlen_nonneg u).
  pose proof (on_header_key_step me u c cl hc Hme Hc Hlt) as Hk.
  destruct (key_state_not_err me u Hme Hu) as [E|[E|[E|E]]]; rewrite E in *; by_type Hc.
  all: unfold hchar, scan_char, bare; hcbn; rewrite Et; htbl; unfold _transition, no_proxy; htbl;
    unfold leave_state; htbl; unfold enter_state; htbl.
  all: change 8 with HK; rewrite Hk; htbl; unfold _stream_consume, token_grow, core_of, token_zero; htbl; rewrite (i32_small (zlen u + 1)) by lia.
  all: destruct (Z.ltb_spec (request_token_max_len sp) (zlen u + 1)); [lia|]; done.
Qed.

Lemma key_run me w : forall u cl hc ti i,
  me = M_ANY \/ me = M_SML -> u <> [] -> Forall (typed T_tchar) w -> zlen u + zlen w <= 32767 ->
  zlen u + zlen w <= sp.(request_token_max_len) ->
  hrun sp (K HK (key_state me u) cl (zlen u) hc (mkToken ti (zlen u) HS_TOK_HEADER_KEY) i) w =
  Some (K HK (key_state me (u ++ w)) cl (zlen (u ++ w)) hc (mkToken ti (zlen (u ++ w)) HS_TOK_HEADER_KEY) (i + zlen w), []).
Proof.
  induction w as [|c w IH]; intros u cl hc ti i Hme Hu Hw Hlt Hmax; cbn [hrun].
  - change (zlen (@nil Z)) with 0. by rewrite app_nil_r, Z.add_0_r.
  - apply Forall_cons in Hw as [Hc Hw]. rewrite zlen_cons in *. pose proof (zlen_nonneg w).
    rewrite key_char by first [done | lia]. cbn [mbind option_bind].
    assert (zlen u + 1 = zlen (u ++ [c])) as E by zlen_lia. rewrite E.
    rewrite IH; [|done|by destruct u|done|lia|lia]. cbn [mbind option_bind app]. rewrite <- app_assoc. cbn [app]. feq.
Qed.

(** The meta state after the colon, and after the value. *)
Definition colon_meta (me : Z) : Z := if me =? M_MCL then M_CLV else me.
Definition value_meta (me : Z) : Z := if me =? M_WFK then M_ANY else M_SML.

Lemma colon_char me cl mi hc ti tl i :
  In me [M_WFK; M_MCL; M_SML] -> 0 <= sp.(request_token_max_len) ->
  hchar sp (K HK me cl mi hc (mkToken ti tl HS_TOK_HEADER_KEY) i) 58 =
  Some (K HS (colon_meta me) cl 0 hc token_zero (i + 1), [mkToken ti tl HS_TOK_HEADER_KEY]).
Proof.
  intros Hme Hmax. assert (char_type 58 = Some HS_COLN) as Et by done.
  repeat destruct Hme as [<-|Hme]; try done.
  all: hchar_start; destruct (Z.ltb_spec (request_token_max_len sp) 0); [lia|]; done.
Qed.

Lemma space_char me cl mi hc i :
  In me [M_WFK; M_CLV; M_SML] -> 0 <= sp.(request_token_max_len) ->
  hchar sp (K HS me cl mi hc token_zero i) 32 = Some (K HS me cl mi hc token_zero (i + 1), []).
Proof.
  intros Hme Hmax. assert (char_type 32 = Some HS_SPC) as Et by done.
  repeat destruct Hme as [<-|Hme]; try done.
  all: unfold token_zero; hchar_start; destruct (Z.ltb_spec (request_token_max_len sp) 0); [lia|]; done.
Qed.

(** A decimal number, as the code accumulates it. *)
Definition dec_value (acc : Z) (w : list Z) : Z := fold_left (fun a c => a * 10 + (c - 48)) w acc.

(** What a value does to [content_length]. *)
Definition value_cl (me cl : Z) (w : list Z) : Z := if me =? M_CLV then dec_value cl w else cl.

Definition digits := Forall (typed [HS_DIGIT]).

Lemma digit_range c : typed [HS_DIGIT] c -> 48 <= c <= 57.
Proof.
  intros [Hb (t & Et & Hin)]. apply elem_of_cons in Hin as [->|Hin]; [|by apply elem_of_nil in Hin].
  pose proof (all_bytes_spec (fun c => match char_type c with Some t => negb (t =? HS_DIGIT) || ((48 <=? c) && (c <=? 57)) | None => true end)
    ltac:(vm_compute; reflexivity) c Hb) as E. cbv beta in E. rewrite Et in E. change (HS_DIGIT =? HS_DIGIT) with true in E. cbn [negb orb] in E. lia.
Qed.

Lemma dec_value_mono acc w : 0 <= acc -> digits w -> acc <= dec_value acc w.
Proof.
  intros Ha Hw. revert acc Ha. induction Hw as [|c w Hc Hw IH]; intros acc Ha; [done|].
  cbn [dec_value fold_left]. apply digit_range in Hc. etransitivity; [|apply IH; lia]. lia.
Qed.

(** The condition on a value in the meta state [me]. *)
Definition value_fits (me cl : Z) (w : list Z) : Prop :=
  me = M_CLV -> digits w /\ 0 <= cl /\ dec_value cl w < 2 ^ 62.

Lemma on_header_val_step me cl hc c mi :
  In me [M_WFK; M_CLV; M_SML] -> value_fits me cl [c] ->
  on_header_val c (mkParser cl 0 mi hc HV me) = Some (mkParser (value_cl me cl [c]) 0 mi hc HV me).
Proof.
  intros Hme Hf. unfold on_header_val, value_cl. repeat destruct Hme as [<-|Hme]; try done; htbl; try done.
  destruct (Hf eq_refl) as (Hd & Hcl & Hv). apply Forall_cons in Hd as [Hd _]. pose proof (digit_range c Hd).
  cbn [dec_value fold_left] in *. rewrite (swrap_id 8 c) by lia.
  rewrite (i64_small (cl * 10)) by lia. rewrite i64_small by lia. done.
Qed.

Lemma value_fits_cons me cl c w : value_fits me cl (c :: w) ->
  value_fits me cl [c] /\ value_fits me (value_cl me cl [c]) w.
Proof.
  intros Hf. split; intros ->; destruct (Hf eq_refl) as (Hd & Hcl & Hv); apply Forall_cons in Hd as [Hd1 Hd2];
    pose proof (digit_range c Hd1); unfold value_cl; cbn [dec_value fold_left] in *; change (M_CLV =? M_CLV) with true; cbv iota;
    cbn [fold_left].
  - split; [by constructor|]. split; [done|]. pose proof (dec_value_mono (cl * 10 + (c - 48)) w ltac:(lia) Hd2). unfold dec_value in *. lia.
  - split; [done|]. split; [lia|done].
Qed.

Lemma val_first me c cl mi hc i :
  In me [M_WFK; M_CLV; M_SML] -> typed T_value c -> value_fits me cl [c] -> small i -> 1 <= sp.(request_token_max_len) ->
  hchar sp (K HS me cl mi hc token_zero i) c =
  Some (K HV me (value_cl me cl [c]) 0 hc (mkToken i 1 HS_TOK_HEADER_VAL) (i + 1), []).
Proof.
  intros Hme Hc Hf [Hi1 Hi2] Hlen. pose proof (on_header_val_step me cl hc c 0 Hme Hf) as Hv.
  by_type Hc; repeat destruct Hme as [<-|Hme]; try done.
  all: unfold hchar, scan_char, bare; hcbn; rewrite Et; htbl; unfold _transition, no_proxy; htbl;
    unfold leave_state; htbl; unfold _stream_begin_token, token_zero; htbl; unfold enter_state; htbl.
  all: change 10 with HV; rewrite Hv; htbl.
  all: unfold _stream_consume, token_grow, core_of; htbl; change (i32 (0 + 1)) with 1; rewrite (i32_small i) by lia.
  all: destruct (Z.ltb_spec (request_token_max_len sp) 1); [lia|]; done.
Qed.

Lemma val_char me c cl mi hc ti tl i :
  In me [M_WFK; M_CLV; M_SML] -> typed (HS_SPC :: HS_TAB :: T_value) c -> value_fits me cl [c] ->
  0 <= tl -> tl + 1 < 2 ^ 31 -> tl + 1 <= sp.(request_token_max_len) ->
  hchar sp (K HV me cl mi hc (mkToken ti tl HS_TOK_HEADER_VAL) i) c =
  Some (K HV me (value_cl me cl [c]) mi hc (mkToken ti (tl + 1) HS_TOK_HEADER_VAL) (i + 1), []).
Proof.
  intros Hme Hc Hf Htl Hlt Hlen. pose proof (on_header_val_step me cl hc c mi Hme Hf) as Hv.
  by_type Hc; repeat destruct Hme as [<-|Hme]; try done.
  all: unfold hchar, scan_char, bare; hcbn; rewrite Et; htbl; unfold _transition, no_proxy; htbl;
    unfold leave_state; htbl; unfold token_zero; htbl; unfold enter_state; htbl.
  all: change 10 with HV; rewrite Hv; htbl.
  all: unfold _stream_consume, token_grow, core_of; htbl; rewrite (i32_small (tl + 1)) by lia.
  all: destruct (Z.ltb_spec (request_token_max_len sp) (tl + 1)); [lia|]; done.
Qed.

Lemma val_run me w : forall cl mi hc ti tl i,
  In me [M_WFK; M_CLV; M_SML] -> Forall (typed (HS_SPC :: HS_TAB :: T_value)) w -> value_fits me cl w ->
  0 <= tl -> tl + zlen w < 2 ^ 31 -> tl + zlen w <= sp.(request_token_max_len) ->
  hrun sp (K HV me cl mi hc (mkToken ti tl HS_TOK_HEADER_VAL) i) w =
  Some (K HV me (value_cl me cl w) mi hc (mkToken ti (tl + zlen w) HS_TOK_HEADER_VAL) (i + zlen w), []).
Proof.
  induction w as [|c w IH]; intros cl mi hc ti tl i Hme Hw Hf Htl Hlt Hmax; cbn [hrun].
  - change (zlen (@nil Z)) with 0. rewrite !Z.add_0_r. unfold value_cl. cbn [dec_value fold_left]. by destruct (me =? M_CLV).
  - apply Forall_cons in Hw as [Hc Hw]. apply value_fits_cons in Hf as [Hf1 Hf2]. rewrite zlen_cons in *. pose proof (zlen_nonneg w).
    rewrite val_char by first [done | lia]. cbn [mbind option_bind]. rewrite IH by first [done | lia]. cbn [mbind option_bind app].
    unfold value_cl in *. cbn [dec_value fold_left] in *. destruct (me =? M_CLV); feq.
Qed.

Lemma val_last me cl mi hc ti tl i :
  In me [M_WFK; M_CLV; M_SML] -> 0 <= sp.(request_token_max_len) ->
  hchar sp (K HV me cl mi hc (mkToken ti tl HS_TOK_HEADER_VAL) i) 13 =
  Some (K HR (value_meta me) cl 0 hc token_zero (i + 1), [mkToken ti tl HS_TOK_HEADER_VAL]).
Proof.
  intros Hme Hmax. assert (char_type 13 = Some HS_CR) as Et by done.
  repeat destruct Hme as [<-|Hme]; try done.
  all: hchar_start; destruct (Z.ltb_spec (request_token_max_len sp) 0); [lia|]; done.
Qed.

(** *** A header line *)

Definition line_meta (me : Z) (key : list Z) : Z := value_meta (colon_meta (key_state me key)).
Definition line_cl (me cl : Z) (h : list Z * list Z) : Z := value_cl (colon_meta (key_state me h.1)) cl h.2.

(** The key is not the beginning of a name the scanner would take for [Transfer-Encoding]. *)
Definition not_te (key : list Z) : Prop := ~ map lower key `prefix_of` str_transfer_encoding.

Definition line_ok (me cl : Z) (h : list Z * list Z) : Prop :=
  key_ok h.1 /\ val_ok h.2 /\ zlen h.1 <= sp.(request_token_max_len) /\ zlen h.2 <= sp.(request_token_max_len) /\
  zlen h.1 <= 32767 /\ (me = M_ANY -> not_te h.1) /\ value_fits (colon_meta (key_state me h.1)) cl h.2.

Lemma key_state_colon me key : me = M_ANY \/ me = M_SML -> key <> [] -> (me = M_ANY -> not_te key) ->
  In (key_state me key) [M_WFK; M_MCL; M_SML] /\ In (colon_meta (key_state me key)) [M_WFK; M_CLV; M_SML].
Proof.
  intros Hme Hk Hte. destruct Hme as [->| ->]; [|vm_compute; auto].
  specialize (Hte eq_refl). unfold key_state, key_meta, not_te in *. change (M_ANY =? M_SML) with false. cbv iota.
  destruct key as [|x key]; [done|]. rewrite (bool_decide_eq_false_2 _ Hte). case_bool_decide; vm_compute; auto.
Qed.

Lemma line_run st me cl mi hc i h :
  st = RN \/ st = HE -> me = M_ANY \/ me = M_SML -> line_ok me cl h -> 0 <= i -> i + zlen (print_field h) < 2 ^ 31 ->
  0 <= hc < 32767 -> hc + 1 <= sp.(request_max_headers_count) ->
  hrun sp (K st me cl mi hc token_zero i) (print_field h) =
  Some (K HE (line_meta me h.1) (line_cl me cl h) 0 (hc + 1) token_zero (i + zlen (print_field h)),
        [mkToken i (zlen h.1) HS_TOK_HEADER_KEY; mkToken (i + zlen h.1 + 2) (zlen h.2) HS_TOK_HEADER_VAL]).
Proof.
  intros Hst Hme (Hk & Hv & Lk & Lv & Lk' & Hte & Hf) Hi Hlt Hhc Hmax.
  destruct h as [key val]. unfold print_field, line_cl in *. cbn [fst snd] in *.
  destruct key as [|c key]; [done|]. destruct Hk as [Hc Hk]. destruct val as [|d val]; [done|]. destruct Hv as [Hd Hv].
  pose proof (zlen_nonneg key). pose proof (zlen_nonneg val).
  destruct (key_state_colon me (c :: key) Hme ltac:(done) Hte) as [Hks Hcm].
  rewrite !zlen_app, !zlen_cons in Hlt. rewrite !zlen_cons in Lk, Lv, Lk'. change (zlen CRLF) with 2 in Hlt. change (zlen (@nil Z)) with 0 in Hlt.
  replace ((c :: key) ++ [58; 32] ++ (d :: val) ++ CRLF) with ([c] ++ key ++ [58] ++ [32] ++ [d] ++ val ++ [13] ++ [10]) by done.
  rewrite hrun_app. cbn [hrun]. rewrite (key_first st me) by first [done | lia | (unfold small; lia)]. cbn [mbind option_bind].
  rewrite hrun_app. rewrite (key_run me key [c]) by first [done | (change (zlen [c]) with 1; lia)].
  cbn [mbind option_bind app hrun]. rewrite colon_char by first [done | lia]. cbn [mbind option_bind].
  rewrite space_char by first [done | lia]. cbn [mbind option_bind].
  destruct (value_fits_cons _ _ _ _ Hf) as [Hf1 Hf2].
  rewrite val_first by first [done | lia | (unfold small; lia)]. cbn [mbind option_bind].
  rewrite hrun_app, val_run by first [done | lia]. cbn [mbind option_bind hrun].
  rewrite val_last by first [done | lia]. cbn [mbind option_bind].
  rewrite (plain_char HR 10 HE _ _ _ _ _ HS_NL) by
    first [lia | (simpl; tauto) | (unfold value_meta; case_match; simpl; auto)].
  cbn [mbind option_bind app].
  unfold line_meta, value_cl. cbn [dec_value fold_left]. autorewrite with zlen.
  destruct (colon_meta _ =? M_CLV); feq.
Qed.

(** *** All the headers *)

Fixpoint lines_ok (me cl : Z) (hs : list (list Z * list Z)) : Prop :=
  match hs with [] => True | h :: hs => line_ok me cl h /\ lines_ok (line_meta me h.1) (line_cl me cl h) hs end.
Fixpoint lines_meta (me : Z) (hs : list (list Z * list Z)) : Z :=
  match hs with [] => me | h :: hs => lines_meta (line_meta me h.1) hs end.
Fixpoint lines_cl (me cl : Z) (hs : list (list Z * list Z)) : Z :=
  match hs with [] => cl | h :: hs => lines_cl (line_meta me h.1) (line_cl me cl h) hs end.
Fixpoint line_tokens (i : Z) (hs : list (list Z * list Z)) : list token :=
  match hs with
  | [] => []
  | h :: hs => mkToken i (zlen h.1) HS_TOK_HEADER_KEY :: mkToken (i + zlen h.1 + 2) (zlen h.2) HS_TOK_HEADER_VAL ::
               line_tokens (i + zlen (print_field h)) hs
  end.

Lemma line_meta_cases me key : line_meta me key = M_ANY \/ line_meta me key = M_SML.
Proof. unfold line_meta, value_meta. destruct (_ =? M_WFK); auto. Qed.

Lemma lines_meta_cases hs : forall me, me = M_ANY \/ me = M_SML -> lines_meta me hs = M_ANY \/ lines_meta me hs = M_SML.
Proof. induction hs as [|h hs IH]; intros me Hme; [done|]. apply IH, line_meta_cases. Qed.

Lemma lines_run hs : forall me cl mi hc i st,
  (st = RN /\ hs <> [] \/ st = HE) -> me = M_ANY \/ me = M_SML -> lines_ok me cl hs -> 0 <= i ->
  i + zlen (hs ≫= print_field) < 2 ^ 31 -> 0 <= hc -> hc + zlen hs <= 32767 -> hc + zlen hs <= sp.(request_max_headers_count) ->
  exists mi', hrun sp (K st me cl mi hc token_zero i) (hs ≫= print_field) =
  Some (K HE (lines_meta me hs) (lines_cl me cl hs) mi' (hc + zlen hs) token_zero (i + zlen (hs ≫= print_field)), line_tokens i hs).
Proof.
  induction hs as [|h hs IH]; intros me cl mi hc i st Hst Hme Hok Hi Hlt Hhc Hmax1 Hmax2.
  - destruct Hst as [[_ ?]| ->]; [done|]. exists mi. cbn [mbind list_bind hrun lines_meta lines_cl line_tokens].
    change (zlen (@nil (list Z * list Z))) with 0. change (zlen (@nil Z)) with 0. rewrite !Z.add_0_r. done.
  - destruct Hok as [Hh Hok]. csimpl. rewrite zlen_cons in *. pose proof (zlen_nonneg hs). pose proof (zlen_nonneg (hs ≫= print_field)).
    csimpl in Hlt. rewrite zlen_app in Hlt. pose proof (zlen_nonneg (print_field h)).
    rewrite hrun_app, (line_run st) by first [done | lia | (destruct Hst as [[-> _]| ->]; auto)]. cbn [mbind option_bind].
    destruct (IH (line_meta me h.1) (line_cl me cl h) 0 (hc + 1) (i + zlen (print_field h)) HE) as (mi' & E);
      [by right|by apply line_meta_cases|done|lia|lia|lia|lia|lia|].
    exists mi'. change (@mbind list _ _ _ print_field hs) with (hs ≫= print_field). rewrite E. cbn [mbind option_bind lines_meta lines_cl line_tokens app].
    rewrite zlen_app. feq.
Qed.

(** The end of the headers: without a body the request is complete. *)
Lemma end_char_none me cl mi hc i :
  me = M_ANY \/ (me = M_SML /\ cl = 0 /\ i - 1 <= sp.(request_buf_max_size)) -> 0 <= sp.(request_token_max_len) ->
  hchar sp (K ER me cl mi hc token_zero i) 10 = Some (K HN M_END cl 0 hc token_zero (i + 1), [mkToken 0 0 HS_TOK_BODY]).
Proof.
  intros Hme Hmax. assert (char_type 10 = Some HS_NL) as Et by done.
  destruct Hme as [->|(-> & -> & Hb)]; unfold token_zero; hchar_start; unfold on_headers_end, _stream_can_contain; htbl.
  - unfold _meta_trigger; htbl. rewrite ?andb_false_r. htbl. destruct (Z.ltb_spec (request_token_max_len sp) 0); [lia|]. done.
  - destruct (Z.leb_spec 0 (request_buf_max_size sp - i + 1)); [|lia]. unfold _meta_trigger; htbl.
    destruct (Z.ltb_spec (request_token_max_len sp) 0); [lia|]. done.
Qed.

(** With a body that fits the buffer, the body follows. *)
Lemma end_char_body cl mi hc i :
  0 < cl -> cl <= sp.(request_buf_max_size) - i + 1 -> 0 <= sp.(request_token_max_len) ->
  hchar sp (K ER M_SML cl mi hc token_zero i) 10 = Some (K HN M_BDY cl 0 hc token_zero (i + 1), []).
Proof.
  intros Hcl Hfit Hmax. assert (char_type 10 = Some HS_NL) as Et by done.
  unfold token_zero; hchar_start; unfold on_headers_end, _stream_can_contain; htbl.
  destruct (Z.leb_spec cl (request_buf_max_size sp - i + 1)); [|lia]. unfold _meta_trigger; htbl.
  rewrite (proj2 (Z.eqb_neq cl 0)) by lia. htbl. destruct (Z.ltb_spec (request_token_max_len sp) 0); [lia|]. done.
Qed.

(** ** The head of a request *)

Definition head_tokens (q : request) : list token :=
  let i1 := zlen q.(q_method) + 1 in let i2 := i1 + zlen q.(q_target) + 1 in let i3 := i2 + zlen q.(q_version) + 2 in
  mkToken 0 (zlen q.(q_method)) HS_TOK_METHOD :: mkToken i1 (zlen q.(q_target)) HS_TOK_TARGET ::
  mkToken i2 (zlen q.(q_version)) HS_TOK_VERSION :: line_tokens i3 q.(q_headers).

(** A request the scanner accepts: its parts are made of the right characters and within the
    limits, its framing headers announce its body, and it fits the buffer. *)
Record request_ok (q : request) : Prop := {
  ro_method : method_ok q.(q_method) /\ zlen q.(q_method) <= sp.(request_token_max_len);
  ro_target : target_ok q.(q_target) /\ zlen q.(q_target) <= sp.(request_token_max_len);
  ro_version : version_ok q.(q_version) /\ zlen q.(q_version) <= sp.(request_token_max_len);
  ro_headers : q.(q_headers) <> [] /\ lines_ok M_ANY 0 q.(q_headers);
  ro_count : zlen q.(q_headers) <= 32767 /\ zlen q.(q_headers) <= sp.(request_max_headers_count);
  ro_framing : lines_cl M_ANY 0 q.(q_headers) = zlen q.(q_body) /\
               (lines_meta M_ANY q.(q_headers) = M_ANY -> q.(q_body) = []);
  ro_bytes : bytes_ok (print_request q);
  ro_size : zlen (print_request q) <= sp.(request_buf_max_size) /\ zlen (print_request q) < 2 ^ 31 }.

(** The head without its last character. *)
Definition print_init (q : request) : list Z :=
  q.(q_method) ++ [32] ++ q.(q_target) ++ [32] ++ q.(q_version) ++ CRLF ++ (q.(q_headers) ≫= print_field) ++ [13].

Lemma print_head_init q : print_head q = print_init q ++ [10].
Proof. unfold print_head, print_init. by rewrite <- !app_assoc. Qed.

Lemma print_init_run q :
  request_ok q ->
  exists me mi hc, (me = M_ANY /\ q.(q_body) = [] \/ me = M_SML) /\
    hrun sp (mkCore parser_zero token_zero 0) (print_init q) =
    Some (K ER me (zlen q.(q_body)) mi hc token_zero (zlen (print_init q)), head_tokens q).
Proof.
  intros [[Hm Lm] [Ht Lt] [Hv Lv] [Hne Hlines] [Hc1 Hc2] [Hcl Hmeta] _ [Hs1 Hs2]].
  pose proof (zlen_nonneg (q_method q)). pose proof (zlen_nonneg (q_target q)). pose proof (zlen_nonneg (q_version q)).
  pose proof (zlen_nonneg (q_headers q ≫= print_field)). pose proof (zlen_nonneg (q_body q)).
  unfold print_request in *. rewrite print_head_init in *. rewrite !zlen_app in Hs1, Hs2. change (zlen [10]) with 1 in *.
  assert (zlen (print_init q) = zlen (q_method q) + zlen (q_target q) + zlen (q_version q) + 4 + zlen (q_headers q ≫= print_field) + 1) as EL.
  { unfold print_init. rewrite !zlen_app. change (zlen CRLF) with 2. change (zlen [32]) with 1. change (zlen [13]) with 1. lia. }
  assert (hrun sp (mkCore parser_zero token_zero 0) (print_init q) = hrun sp (mkCore parser_zero token_zero 0)
    ((q_method q ++ [32] ++ q_target q ++ [32] ++ q_version q ++ CRLF) ++ (q_headers q ≫= print_field) ++ [13])) as ->
    by (unfold print_init; by rewrite <- !app_assoc).
  exists (lines_meta M_ANY (q_headers q)), 0, (zlen (q_headers q)).
  assert (lines_meta M_ANY (q_headers q) = M_ANY \/ lines_meta M_ANY (q_headers q) = M_SML) as Hcase.
  { apply lines_meta_cases. by left. }
  split. { destruct Hcase as [Hcase|Hcase]; [left; auto|by right]. }
  change parser_zero with (mkParser 0 0 0 0 ST M_WFK).
  rewrite hrun_app, (request_line_run q 0 0 0) by first [done | lia]. cbn [mbind option_bind].
  destruct (lines_run (q_headers q) M_ANY 0 0 0 (zlen (q_method q) + 1 + zlen (q_target q) + 1 + zlen (q_version q) + 2) RN) as (mi & E);
    [by left|by left|done|lia|lia|done|lia|lia|].
  rewrite hrun_app, E. cbn [mbind option_bind]. clear E. rewrite Hcl. cbn [app hrun].
  rewrite (plain_char HE 13 ER _ _ _ _ _ HS_CR) by first [done | lia | (simpl; tauto) | (destruct Hcase as [-> | ->]; simpl; auto)].
  cbn [mbind option_bind app]. unfold head_tokens. rewrite app_nil_r. feq.
Qed.

(** The last character of the head decides about the body. *)
Lemma print_head_run q :
  request_ok q ->
  exists k hc, hrun sp (mkCore parser_zero token_zero 0) (print_init q) = Some (k, head_tokens q) /\ quiet k.(k_parser) /\
    hchar sp k 10 =
    Some (if zlen q.(q_body) =? 0
          then (K HN M_END 0 0 hc token_zero (zlen (print_head q)), [mkToken 0 0 HS_TOK_BODY])
          else (K HN M_BDY (zlen q.(q_body)) 0 hc token_zero (zlen (print_head q)), [])).
Proof.
  intros Hok. destruct (print_init_run q Hok) as (me & mi & hc & Hme & E). exists (K ER me (zlen (q_body q)) mi hc token_zero (zlen (print_init q))), hc.
  pose proof (zlen_nonneg (q_body q)). destruct Hok as [[_ Lm] _ _ _ _ _ _ [Hs1 Hs2]]. pose proof (zlen_nonneg (q_method q)).
  unfold print_request in *. rewrite print_head_init, !zlen_app in *. change (zlen [10]) with 1 in *.
  split; [done|]. split. { destruct Hme as [[-> _]| ->]; split; vm_compute; congruence. }
  destruct (Z.eqb_spec (zlen (q_body q)) 0) as [Eb|Eb].
  - rewrite Eb. apply end_char_none; [|lia]. destruct Hme as [[-> _]| ->]; [by left|right]. lia.
  - destruct Hme as [[_ Hb]| ->]; [by rewrite Hb in Eb|]. apply end_char_body; lia.
Qed.
End Chars.
