(* ===== verification/HttpSession.v ===== *)
(** * HttpSession: a request from the network to the handler

    However the network cuts a well-formed request into deliveries, the session of
    [src/src/http/iwn_http_server.c] calls the request handler once, when the last byte has
    arrived, and the request's accessors then give back the method, the target, the header fields
    and the body the peer sent. *)
From S2P Require Import Prelude HttpParser HttpSafe HttpResponse HttpRead HttpHead.

(** ** The body *)

Section Body.
Context (sp : spec) (px : stream -> parser -> bool).

(** The scanner at byte [m] of a body of [n] bytes that starts at [start]. *)
Definition at_body (start n m : Z) (s : stream) (p : parser) : Prop :=
  s.(s_index) = start + m /\
  exists mi hc,
    (p = mkParser n 0 mi hc HN M_BDY /\ m = 0 /\ s.(s_token) = token_zero) \/
    (p = mkParser n m mi hc BD M_BDY /\ s.(s_token) = mkToken start m HS_TOK_BODY).

Lemma body_char start n m c s p :
  at_body start n m s p -> s.(s_consumed) = false -> 0 <= start -> 0 <= m -> m < n -> start + n < 2 ^ 31 -> byte_ok c -> s.(s_index) < s.(s_length) ->
  exists s', s'.(s_buf) = s.(s_buf) /\ s'.(s_length) = s.(s_length) /\ s'.(s_capacity) = s.(s_capacity) /\ s'.(s_consumed) = true /\
  exists p' r, scan_char sp px c s p = Some (s', p', r) /\
  if s.(s_length) <? start + n
  then r = SMore /\ at_body start n (s.(s_length) - start) s' p' /\ p'.(p_state) = BD
  else r = SToken (mkToken start n HS_TOK_BODY) /\ s'.(s_index) = start + n.
Proof.
  intros (Hix & mi & hc & Hcase) Hcons Hst Hm Hmn Hlt Hc Hil.
  destruct (char_type_ok c Hc) as (ty & Ety & Hty).
  assert (rd _transitions (HN * HS_CHAR_TYPE_LEN + ty) = Some BD /\ rd _transitions (BD * HS_CHAR_TYPE_LEN + ty) = Some BD) as [T1 T2].
  { assert (In ty (map Z.of_nat (seq 0 12))) as Hin.
    { apply in_map_iff. exists (Z.to_nat ty). split; [lia|]. apply in_seq. lia. }
    cbn [seq map] in Hin. repeat destruct Hin as [<-|Hin]; try done. }
  destruct s as [buf tok bt cap len ix an cons]. cbn [s_index s_token s_consumed s_length s_buf s_capacity] in *. subst cons ix.
  destruct Hcase as [(-> & -> & ->)|(-> & ->)]; unfold scan_char; rewrite Ety; cbn [mbind option_bind p_state]; rewrite ?T1, ?T2; htbl;
    unfold _transition; htbl; unfold leave_state, _stream_anchor; htbl; unfold _stream_begin_token, token_zero; htbl; unfold enter_state; htbl;
    unfold on_body, _stream_jump, _stream_jumpall, _stream_emit, _meta_trigger, token_grow; htbl.
  - rewrite Z.add_0_r, Z.sub_0_r, (i32_small n), (i32_small start) by lia.
    destruct (Z.ltb_spec len (start + n)); htbl; unfold _stream_consume; htbl.
    + eexists (mkStream _ _ _ _ _ _ _ _). do 4 (split; [reflexivity|]). do 2 eexists. split; [reflexivity|]. split; [done|]. split; [|done].
      rewrite i32_small by lia. split; [cbn [s_index]; lia|]. exists 0, hc. right. split; [by rewrite Z.add_0_l|]. cbn [s_token]. feq.
    + eexists (mkStream _ _ _ _ _ _ _ _). do 4 (split; [reflexivity|]). do 2 eexists. split; [reflexivity|].
      rewrite Z.add_0_l, i32_small by lia. split; done.
  - rewrite (i32_small (n - m)) by lia. replace (start + m + (n - m)) with (start + n) by lia.
    destruct (Z.ltb_spec len (start + n)); htbl; unfold _stream_consume; htbl.
    + eexists (mkStream _ _ _ _ _ _ _ _). do 4 (split; [reflexivity|]). do 2 eexists. split; [reflexivity|]. split; [done|]. split; [|done].
      rewrite i32_small by lia. split; [cbn [s_index]; lia|]. exists mi, hc. right. split; [feq|]. cbn [s_token]. feq.
    + eexists (mkStream _ _ _ _ _ _ _ _). do 4 (split; [reflexivity|]). do 2 eexists. split; [reflexivity|].
      rewrite i32_small by lia. split; [feq|done].
Qed.

(** The scan of body bytes: to the end of the data, or to the end of the body. *)
Lemma body_scan start n m s p r :
  at_body start n m s p -> buf_ok s -> unread_bytes s = r -> r <> [] -> 0 <= start -> 0 <= m -> m + zlen r <= n -> start + n < 2 ^ 31 ->
  exists s', s'.(s_buf) = s.(s_buf) /\ s'.(s_length) = s.(s_length) /\ s'.(s_capacity) = s.(s_capacity) /\ s'.(s_index) = s.(s_length) /\
  exists p', if m + zlen r <? n
    then scan_loop sp px (scan_fuel s) s p = Some (s', p', SMore) /\ at_body start n (m + zlen r) s' p' /\ p'.(p_state) = BD
    else scan_loop sp px (scan_fuel s) s p = Some (s', p', SToken (mkToken start n HS_TOK_BODY)).
Proof.
  intros Hat Hok Hr Hne Hst Hm Hmn Hlt. pose proof Hat as (Hix & _). pose proof Hok as (Hi1 & Hi2 & Hb).
  assert (zlen r = s_length s - s_index s) as Hz by (rewrite <- Hr; apply slice_length; lia).
  destruct r as [|c r]; [done|]. destruct (unread_cons s c r Hok Hr) as (Hrd & Hil & Hc & _).
  pose proof (zlen_nonneg r). rewrite zlen_cons in *.
  destruct (body_char start n m c {| s with s_consumed := false |} p) as (s' & E1 & E2 & E3 & E4 & p' & res & Es & Hres);
    [done|done|done|done|lia|done|done|done|].
  cbn [s_buf s_length s_capacity] in *.
  assert (scan_loop sp px (scan_fuel s) s p =
    match res with SMore => scan_loop sp px (Z.to_nat (s_length s - s_index s)) s' p' | _ => Some (s', p', res) end) as El.
  { unfold scan_fuel. cbn [scan_loop]. unfold _stream_next. cbn [s_length s_index s_buf].
    destruct (Z.leb_spec (s_length s) (s_index s)); [lia|]. rewrite Hrd. cbn [fmap option_fmap option_map mbind option_bind].
    rewrite Es. cbn [mbind option_bind]. by destruct res. }
  destruct (Z.ltb_spec (s_length s) (start + n)).
  - destruct Hres as (-> & Hat' & Hbd). exists {| s' with s_consumed := false |}. cbn [s_buf s_length s_capacity s_index].
    pose proof Hat' as (Hix' & Hex').
    split; [done|]. split; [done|]. split; [done|]. split; [lia|]. exists p'.
    destruct (Z.ltb_spec (m + (1 + zlen r)) n); [|lia]. split; [|split; [|done]].
    + rewrite El. destruct (Z.to_nat (s_length s - s_index s)) as [|f] eqn:Ef; [lia|]. cbn [scan_loop]. unfold _stream_next. cbn [s_length s_index].
      destruct (Z.leb_spec (s_length s') (s_index s')); [done|lia].
    + replace (m + (1 + zlen r)) with (s_length s - start) by lia. split; [done|]. exact Hex'.
  - destruct Hres as (-> & Hix'). exists s'. split; [done|]. split; [done|]. split; [done|]. split; [lia|]. exists p'.
    destruct (Z.ltb_spec (m + (1 + zlen r)) n); [lia|]. done.
Qed.
End Body.

(** ** Filling the buffer *)

Lemma memcpy_prefix buf off d b : 0 <= off -> memcpy buf off d = Some b -> slice b 0 (off + zlen d) = slice buf 0 off ++ d.
Proof.
  unfold memcpy. intros Ho. destruct (Z.ltb_spec off 0); [done|]. destruct (Z.ltb_spec (zlen buf) (off + zlen d)); [done|].
  intros E. injection E as <-. pose proof (zlen_nonneg d). unfold slice. cbn [drop]. rewrite !Z.sub_0_r, !drop_0. rewrite app_assoc.
  rewrite take_app_length'; [done|]. rewrite length_app, length_take. unfold zlen in *. lia.
Qed.

Lemma resize_length buf n : 0 <= n -> zlen buf <= n -> zlen (resize buf n) = n.
Proof. intros. unfold resize, zlen in *. rewrite length_take, length_app, length_replicate. lia. Qed.
Lemma resize_prefix buf n k : 0 <= k <= zlen buf -> zlen buf <= n -> slice (resize buf n) 0 k = slice buf 0 k.
Proof.
  intros. unfold resize, slice, zlen in *. rewrite !drop_0, !Z.sub_0_r, take_take, Nat.min_l by lia. by rewrite take_app_le by lia.
Qed.
Lemma resize_bytes buf n : bytes_ok buf -> bytes_ok (resize buf n).
Proof. intros. unfold resize. apply Forall_take, Forall_app. split; [done|]. by apply Forall_replicate. Qed.

(** What the bytes behind the poller adapter promise: a read gives some of the bytes that are
    there, in order, and would block when there are none; reading does not change what the
    application keeps in the world ([ns_app]). *)
Class NetSource {U A : Type} (rops : read_ops U) := {
  ns_avail : U -> list Z;
  ns_app : U -> A;
  ns_arrive : U -> list Z -> U;
  ns_arrived u d : ns_avail u = [] -> ns_avail (ns_arrive u d) = d /\ ns_app (ns_arrive u d) = ns_app u;
  ns_block u n : ns_avail u = [] -> exists u', rops.(pa_read) u n = (u', inl (-1)) /\ ns_avail u' = [] /\ ns_app u' = ns_app u;
  ns_data u n : ns_avail u <> [] -> 0 < n ->
    exists u' d, rops.(pa_read) u n = (u', inr d) /\ d <> [] /\ zlen d <= n /\ ns_avail u = d ++ ns_avail u' /\ ns_app u' = ns_app u }.

Section Fill.
Context {U A : Type} (rops : read_ops U) `{!NetSource (A := A) rops} (sp : spec).

(** The receive buffer: room for one more byte, or as large as it gets. *)
Record room (s : stream) : Prop := {
  rm_buf : zlen s.(s_buf) = s.(s_capacity) + 1;
  rm_cap : 0 < s.(s_capacity) <= sp.(request_buf_max_size);
  rm_len : 0 <= s.(s_length) <= s.(s_capacity);
  rm_bytes : bytes_ok s.(s_buf);
  rm_room : s.(s_length) < s.(s_capacity) \/ s.(s_capacity) = sp.(request_buf_max_size) }.

Definition received (s : stream) : list Z := slice s.(s_buf) 0 s.(s_length).
Definition same_scan (s s' : stream) : Prop :=
  s'.(s_index) = s.(s_index) /\ s'.(s_token) = s.(s_token) /\ s'.(s_anchor) = s.(s_anchor).

Lemma read_loop_spec fuel : forall u s,
  room s -> bytes_ok (ns_avail u) -> s.(s_length) + zlen (ns_avail u) <= sp.(request_buf_max_size) -> (length (ns_avail u) < fuel)%nat ->
  exists u' s', read_loop rops sp fuel u s = Some (u', s', true) /\ (ns_avail u' = [] /\ ns_app u' = ns_app u) /\ room s' /\ same_scan s s' /\
    received s' = received s ++ ns_avail u /\ s'.(s_length) = s.(s_length) + zlen (ns_avail u).
Proof.
  induction fuel as [|fuel IH]; intros u s [Rb Rc Rl Ry Rr] Hby Hfit Hf; [lia|]. cbn [read_loop].
  destruct (decide (ns_avail u = [])) as [Ea|Ea].
  - destruct (ns_block u (s_capacity s - s_length s) Ea) as (u' & -> & Ea' & Eapp). cbn [mbind option_bind]. rewrite Ea.
    exists u', s. split.
    { destruct (Z.eqb_spec (s_length s) (s_capacity s)) as [E|E]; [|done].
      destruct (Z.eqb_spec (s_capacity s) (request_buf_max_size sp)); [done|]. lia. }
    split; [done|]. split; [by constructor|]. split; [done|]. rewrite app_nil_r, zlen_nil. split; [done|lia].
  - assert (0 < zlen (ns_avail u)) by (destruct (ns_avail u); [done|rewrite zlen_cons; pose proof (zlen_nonneg l); lia]).
    destruct (ns_data u (s_capacity s - s_length s) Ea) as (u' & d & -> & Hd & Hdn & Eu & Eapp); [lia|].
    assert (0 < zlen d) as Hd0 by (destruct d; [done|rewrite zlen_cons; pose proof (zlen_nonneg d); lia]).
    rewrite Eu in *. apply Forall_app in Hby as [Hby1 Hby2]. rewrite zlen_app, length_app in *. pose proof (zlen_nonneg (ns_avail u')).
    assert (0 < length d)%nat by (unfold zlen in Hd0; lia).
    rewrite (proj2 (Z.ltb_lt 0 (zlen d))) by lia.
    destruct (memcpy_fits (s_buf s) (s_length s) d) as [b Eb]; [lia|lia|]. rewrite Eb. cbn [mbind option_bind s_length s_capacity].
    pose proof (memcpy_length _ _ _ _ Eb) as Zb. pose proof (memcpy_bytes _ _ _ _ Ry Hby1 Eb) as Yb.
    assert (slice b 0 (s_length s + zlen d) = received s ++ d) as Pb by (apply memcpy_prefix; [lia|done]).
    destruct (Z.eqb_spec (s_length s + zlen d) (s_capacity s)) as [E|E].
    + destruct (Z.eqb_spec (s_capacity s) (request_buf_max_size sp)) as [E2|E2].
      * rewrite (proj2 (Z.eqb_neq (zlen d) 0)) by lia. cbn [negb].
        assert (ns_avail u' = []) as Ea' by (destruct (ns_avail u'); [done|rewrite zlen_cons in *; pose proof (zlen_nonneg l); lia]).
        rewrite Ea', app_nil_r, zlen_nil. do 2 eexists. split; [reflexivity|]. split; [done|].
        split; [constructor; cbn [s_buf s_capacity s_length]; first [done | lia | auto]|]. split; [done|]. split; [done|]. cbn [s_length]. lia.
      * destruct (IH u' {| s with s_buf := resize b (Z.min (s_capacity s * 2) (request_buf_max_size sp) + 1);
            s_bytes_total := s_bytes_total s + zlen d; s_capacity := Z.min (s_capacity s * 2) (request_buf_max_size sp);
            s_length := s_length s + zlen d |}) as (u2 & s2 & E3 & [Ea2 Eapp2] & R2 & S2 & P2 & L2).
        { constructor; cbn [s_buf s_capacity s_length]; [rewrite resize_length; lia|lia|lia|by apply resize_bytes|lia]. }
        { done. } { cbn [s_length]. lia. } { lia. }
        exists u2, s2. split; [exact E3|]. split; [split; congruence|]. split; [done|]. split; [done|].
        cbn [s_length received s_buf] in *. unfold received in P2 at 2. cbn [s_buf s_length] in P2. rewrite resize_prefix, Pb in P2 by lia.
        rewrite P2, <- app_assoc. split; [done|]. lia.
    + destruct (IH u' {| s with s_buf := b; s_bytes_total := s_bytes_total s + zlen d; s_length := s_length s + zlen d |})
        as (u2 & s2 & E3 & [Ea2 Eapp2] & R2 & S2 & P2 & L2).
      { constructor; cbn [s_buf s_capacity s_length]; first [done | lia]. }
      { done. } { cbn [s_length]. lia. } { lia. }
      exists u2, s2. split; [exact E3|]. split; [split; congruence|]. split; [done|]. split; [done|].
      unfold received in P2 at 2. cbn [s_buf s_length] in P2, L2. rewrite Pb in P2. rewrite P2, <- app_assoc. split; [done|]. lia.
Qed.

(** The buffer as [_client_read_bytes] finds it: not allocated yet, or in use. *)
Definition fillable (s : stream) : Prop := s = stream_zero \/ room s.

Lemma client_read_bytes_spec fuel u s :
  fillable s -> s.(s_index) = s.(s_length) -> bytes_ok (ns_avail u) -> 0 < sp.(request_buf_size) <= sp.(request_buf_max_size) ->
  s.(s_length) + zlen (ns_avail u) <= sp.(request_buf_max_size) -> (length (ns_avail u) < fuel)%nat ->
  exists u' s', _client_read_bytes rops sp fuel u s = Some (u', s', true) /\ (ns_avail u' = [] /\ ns_app u' = ns_app u) /\ room s' /\ same_scan s s' /\
    received s' = received s ++ ns_avail u /\ s'.(s_length) = s.(s_length) + zlen (ns_avail u).
Proof.
  intros Hs Hix Hby Hsp Hfit Hf. unfold _client_read_bytes. destruct (Z.ltb_spec (s_index s) (s_length s)); [lia|].
  destruct Hs as [->|R].
  - cbn [stream_zero s_buf]. destruct (read_loop_spec fuel u {| stream_zero with s_length := 0; s_capacity := request_buf_size sp;
      s_buf := replicate (Z.to_nat (request_buf_size sp + 1)) 0 |}) as (u' & s' & E & Hres).
    { constructor; cbn [s_buf s_capacity s_length]; [unfold zlen; rewrite length_replicate; lia|lia|lia|by apply Forall_replicate|lia]. }
    { done. } { done. } { done. }
    exists u', s'. split; [exact E|]. exact Hres.
  - destruct s as [buf t bt cap len ix an cons]. cbn [s_buf] in *.
    destruct buf as [|x buf]; [destruct R as [Rb Rc]; cbn [s_buf s_capacity] in *; change (zlen (@nil Z)) with 0 in Rb; lia|].
    by apply read_loop_spec.
Qed.
End Fill.

(** ** The token loop of [_client_read] *)

Section Loop.
Context {U : Type} (ops : session_ops U) (rops : read_ops U) (sp : spec).
Context (Hproxy : forall cl, rops.(proxied) cl = false).

Abbreviation set_scan cl s p := {| cl with c_stream := s; c_parser := p |}.
Abbreviation px cl := (fun s p => rops.(proxied) (set_scan cl s p)).

(** Tokens of the head, which are only recorded. *)
Definition head_type (t : token) : Prop :=
  In t.(t_type) [HS_TOK_METHOD; HS_TOK_TARGET; HS_TOK_VERSION; HS_TOK_HEADER_KEY; HS_TOK_HEADER_VAL].

Lemma loop_token f u cl s p t :
  _token_parse sp (px cl) cl.(c_stream) cl.(c_parser) = Some (s, p, t) -> head_type t -> cl.(c_state) = HTTP_SESSION_READ ->
  _client_read ops rops sp (S f) false u cl = _client_read ops rops sp f false u (push_token (set_scan cl s p) t).
Proof.
  intros E Ht Hst. cbn [_client_read mbind option_bind negb]. unfold parse_next. rewrite E. cbn [mbind option_bind].
  unfold head_type in Ht. repeat destruct Ht as [Ht|Ht]; try done; rewrite <- Ht; htbl; cbn [push_token c_state]; rewrite Hst; done.
Qed.

Lemma loop_none f u cl s p :
  _token_parse sp (px cl) cl.(c_stream) cl.(c_parser) = Some (s, p, token_zero) ->
  _client_read ops rops sp (S f) false u cl = Some (u, set_scan cl s p).
Proof. intros E. cbn [_client_read mbind option_bind negb]. unfold parse_next. rewrite E. done. Qed.

(** What happens to the answer of the handler. *)
Definition handled (r : option (U * client * bool)) : option (U * client) :=
  '(u, cl, ok) ← r; Some (u, if ok : bool then cl else set_flag cl HTTP_END_SESSION).

(** The documented contract of a handler: it leaves the session, which it was given in the state
    [HTTP_SESSION_NOP], in another state than [HTTP_SESSION_READ]. *)
Definition handler_ok : Prop :=
  forall u cl u' cl' ok, cl.(c_state) = HTTP_SESSION_NOP -> rops.(request_handler) u cl = Some (u', cl', ok) ->
    cl'.(c_state) <> HTTP_SESSION_READ.

Lemma loop_body f u cl s p i n :
  handler_ok -> _token_parse sp (px cl) cl.(c_stream) cl.(c_parser) = Some (s, p, mkToken i n HS_TOK_BODY) ->
  0 <= i -> 0 <= n -> i + n < zlen s.(s_buf) ->
  exists buf, zlen buf = zlen s.(s_buf) /\ slice buf 0 (i + n) = slice s.(s_buf) 0 (i + n) /\ (n = 0 -> buf = s.(s_buf)) /\
  _client_read ops rops sp (S f) false u cl =
  handled (rops.(request_handler) u
    {| (push_token (set_scan cl {| s with s_buf := buf |} p) (mkToken i n HS_TOK_BODY)) with c_state := HTTP_SESSION_NOP |}).
Proof.
  intros Hh E Hi Hn Hlt. cbn [_client_read mbind option_bind negb]. unfold parse_next. rewrite E. cbn [mbind option_bind t_type].
  change (HS_TOK_BODY =? HS_TOK_NONE) with false. change (HS_TOK_BODY =? HS_TOK_ERROR) with false. change (HS_TOK_BODY =? HS_TOK_BODY) with true. cbv iota.
  unfold terminate_body. cbn [t_len t_index c_stream push_token].
  assert (exists buf, zlen buf = zlen (s_buf s) /\ slice buf 0 (i + n) = slice (s_buf s) 0 (i + n) /\ (n = 0 -> buf = s_buf s) /\
    (if 0 <? n then buf ← wr (s_buf s) (i + n) 0; Some {| s with s_buf := buf |} else Some s) = Some {| s with s_buf := buf |})
    as (buf & Hz & Hsl & Hn0 & Hwr).
  { destruct (Z.ltb_spec 0 n); [|by exists (s_buf s); destruct s]. unfold wr.
    destruct (Z.ltb_spec (i + n) 0); [lia|]. destruct (Z.leb_spec (zlen (s_buf s)) (i + n)); [lia|]. cbn [orb mbind option_bind].
    eexists. split; [|split; [|split; [|reflexivity]]]; [unfold zlen; by rewrite length_insert| |lia].
    unfold slice. rewrite !drop_0, take_insert_ge by lia. done. }
  exists buf. split; [done|]. split; [done|]. split; [done|].
  assert (forall A (k : client -> option A),
    (if 0 <? n then buf ← wr (s_buf s) (i + n) 0;
       Some {| {| (push_token (set_scan cl s p) (mkToken i n HS_TOK_BODY)) with c_state := HTTP_SESSION_NOP |} with c_stream := {| s with s_buf := buf |} |}
     else Some {| (push_token (set_scan cl s p) (mkToken i n HS_TOK_BODY)) with c_state := HTTP_SESSION_NOP |}) ≫= k =
    k {| (push_token (set_scan cl {| s with s_buf := buf |} p) (mkToken i n HS_TOK_BODY)) with c_state := HTTP_SESSION_NOP |}) as Hk.
  { intros A k. destruct (0 <? n).
    - destruct (wr (s_buf s) (i + n) 0) as [b|]; [|done]. cbn [mbind option_bind] in *. injection Hwr as ->. done.
    - injection Hwr as Hs. cbn [mbind option_bind]. f_equal. unfold push_token. cbn. by rewrite <- Hs. }
  rewrite Hk. clear Hk. unfold call_handler, handled.
  destruct (request_handler rops u _) as [[[u' cl'] ok]|] eqn:Er; cbn [mbind option_bind]; [|done].
  destruct ok; [|done]. apply Hh in Er; [|done]. rewrite (proj2 (Z.eqb_neq _ _) Er). done.
Qed.
End Loop.

(** ** One delivery *)

Section Deliver.
Context {U A : Type} (ops : session_ops U) (rops : read_ops U) `{!NetSource (A := A) rops} (sp : spec).
Context (Hproxy : forall cl, rops.(proxied) cl = false) (Hhandler : handler_ok rops).
Context (Hsize : 0 < sp.(request_buf_size) <= sp.(request_buf_max_size)).
Context (q : request) (Hq : request_ok sp q).

Abbreviation set_scan cl s p := {| cl with c_stream := s; c_parser := p |}.
Abbreviation px cl := (fun s p => rops.(proxied) (set_scan cl s p)).
Abbreviation HL := (zlen (print_head q)).
Abbreviation BL := (zlen q.(q_body)).
Abbreviation k0 := (mkCore parser_zero token_zero 0).

(** The tokens of the head go through the loop one by one. *)
Lemma loop_tokens tks : forall f u cl w rest k2 tks',
  buf_ok cl.(c_stream) -> unread_bytes cl.(c_stream) = w ++ rest ->
  hrun sp (core_of cl.(c_stream) cl.(c_parser)) w = Some (k2, tks ++ tks') -> Forall head_type tks -> cl.(c_state) = HTTP_SESSION_READ ->
  exists cl2 w2, _client_read ops rops sp (length tks + f) false u cl = _client_read ops rops sp f false u cl2 /\
    buf_ok cl2.(c_stream) /\ unread_bytes cl2.(c_stream) = w2 ++ rest /\
    hrun sp (core_of cl2.(c_stream) cl2.(c_parser)) w2 = Some (k2, tks') /\
    cl2.(c_tokens) = cl.(c_tokens) ++ tks /\ cl2.(c_state) = HTTP_SESSION_READ /\
    cl2.(c_stream).(s_buf) = cl.(c_stream).(s_buf) /\ cl2.(c_stream).(s_length) = cl.(c_stream).(s_length) /\
    cl2.(c_stream).(s_capacity) = cl.(c_stream).(s_capacity) /\ (w <> [] -> w2 <> [] \/ tks' = []) /\
    cl2.(c_flags) = cl.(c_flags) /\ cl2.(c_response) = cl.(c_response).
Proof.
  induction tks as [|t tks IH]; intros f u cl w rest k2 tks' Hok Hu Hrun Htt Hst.
  - exists cl, w. rewrite app_nil_r. cbn [app length plus] in *. repeat (split; [done|]). split; [by left|done].
  - apply Forall_cons in Htt as [Ht Htt]. cbn [app] in Hrun.
    destruct (token_parse_header sp (px cl) (fun s p => Hproxy _) _ _ w rest k2 t (tks ++ tks') Hok Hu Hrun)
      as (w1 & w2 & k1 & -> & Hw1 & Hrun1 & _ & _ & Hu1 & Hok1 & Etp).
    cbn [length plus]. rewrite (loop_token ops rops sp _ u cl _ _ t Etp Ht Hst).
    destruct (IH f u (push_token (set_scan cl (put (c_stream cl) k1) (k_parser k1)) t) w2 rest k2 tks')
      as (cl2 & w3 & E & Hok2 & Hu2 & Hrun2 & Htk & Hst2 & Eb & El & Ec & Hw3 & Hfl & Hre); [done|done|by destruct k1|done|done|].
    exists cl2, w3. rewrite E. cbn [push_token c_tokens c_stream put s_buf s_length s_capacity] in *.
    rewrite Htk, <- app_assoc. repeat (split; [done|]). split; [|done].
    intros _. destruct w2 as [|x w2]; [|by apply Hw3]. cbn [hrun] in Hrun1. injection Hrun1 as _ Hnil. symmetry in Hnil. apply app_nil in Hnil as [_ ->]. by right.
Qed.

Lemma line_tokens_types i hs : Forall head_type (line_tokens i hs).
Proof. revert i. induction hs as [|h hs IH]; intros i; cbn [line_tokens]; [constructor|]. constructor; [vm_compute; tauto|]. constructor; [vm_compute; tauto|]. apply IH. Qed.
Lemma head_tokens_types : Forall head_type (head_tokens q).
Proof. unfold head_tokens. do 3 (constructor; [vm_compute; tauto|]). apply line_tokens_types. Qed.

(** The scan of what follows the head, up to the end of the data. *)
Lemma body_parse pxf m s p r :
  at_body HL BL m s p -> buf_ok s -> unread_bytes s = r -> 0 <= m -> m + zlen r <= BL -> m < BL -> HL + BL < 2 ^ 31 ->
  0 <= sp.(request_token_max_len) ->
  exists s', s'.(s_buf) = s.(s_buf) /\ s'.(s_length) = s.(s_length) /\ s'.(s_capacity) = s.(s_capacity) /\ s'.(s_index) = s.(s_length) /\
  exists p',
    ('(s, p, r) ← scan_loop sp pxf (scan_fuel s) s p;
     match r with SProxied => Some (s, p, token_zero) | SToken t => Some (s, p, t) | SMore => parse_end sp s p end) =
    Some (s', p', if m + zlen r <? BL then token_zero else mkToken HL BL HS_TOK_BODY) /\
    (m + zlen r < BL -> at_body HL BL (m + zlen r) s' p').
Proof.
  intros Hat Hok Hr Hm Hmn HmN Hlt Hmax. pose proof (zlen_nonneg (print_head q)).
  assert (forall s p, at_body HL BL (m + zlen r) s p -> parse_end sp s p = Some (s, p, token_zero)) as Hend.
  { intros s1 p1 (_ & mi & hc & [(-> & _ & Et)|(-> & Et)]); unfold parse_end; htbl; cbn [p_meta]; rewrite meta_emit_none by (vm_compute; congruence);
      cbn [mbind option_bind]; rewrite Et; htbl; [|done]. unfold token_zero. cbn [t_len t_type]. htbl.
    destruct (Z.ltb_spec (request_token_max_len sp) 0); [lia|done]. }
  destruct (decide (r = [])) as [->|Hne].
  - rewrite zlen_nil, Z.add_0_r in *. exists {| s with s_consumed := false |}. pose proof (unread_nil s Hok Hr).
    cbn [s_buf s_length s_capacity s_index]. repeat (split; [done|]). exists p.
    rewrite (proj2 (Z.ltb_lt m BL)) by lia. split; [|intros _; destruct Hat as (? & ?); split; done].
    unfold scan_fuel. cbn [scan_loop]. unfold _stream_next. cbn [s_length s_index].
    destruct (Z.leb_spec (s_length s) (s_index s)); [|lia]. cbn [mbind option_bind]. apply Hend. destruct Hat as (? & ?); split; done.
  - destruct (body_scan sp pxf HL BL m s p r Hat Hok Hr Hne) as (s' & E1 & E2 & E3 & E4 & p' & Hres); [lia|done|lia|lia|].
    exists s'. repeat (split; [done|]). exists p'. destruct (Z.ltb_spec (m + zlen r) BL).
    + destruct Hres as (-> & Hat' & _). cbn [mbind option_bind]. rewrite (Hend _ _ Hat'). done.
    + rewrite Hres. cbn [mbind option_bind]. split; [done|]. lia.
Qed.

(** *** The session between deliveries, with the first [k] bytes of the request received *)
Record reading (k : Z) (cl : client) : Prop := {
  rg_state : cl.(c_state) = HTTP_SESSION_READ;
  rg_flags : cl.(c_flags) = HTTP_AUTOMATIC;
  rg_buffer : fillable sp cl.(c_stream);
  rg_index : cl.(c_stream).(s_index) = k /\ cl.(c_stream).(s_length) = k /\ 0 <= k < zlen (print_request q);
  rg_received : received cl.(c_stream) = take (Z.to_nat k) (print_request q);
  rg_scan :
    (k < HL /\ hrun sp k0 (take (Z.to_nat k) (print_request q)) = Some (core_of cl.(c_stream) cl.(c_parser), cl.(c_tokens))) \/
    (HL <= k /\ at_body HL BL (k - HL) cl.(c_stream) cl.(c_parser) /\ cl.(c_tokens) = head_tokens q) }.

(** The session the handler is given. *)
Record parsed (cl : client) : Prop := {
  pd_state : cl.(c_state) = HTTP_SESSION_NOP;
  pd_flags : cl.(c_flags) = HTTP_AUTOMATIC;
  pd_buffer : slice cl.(c_stream).(s_buf) 0 (zlen (print_request q)) = print_request q;
  pd_size : zlen (print_request q) <= zlen cl.(c_stream).(s_buf);
  pd_tokens : cl.(c_tokens) = head_tokens q ++ [if BL =? 0 then mkToken 0 0 HS_TOK_BODY else mkToken HL BL HS_TOK_BODY] }.

Definition sized (fuel : nat) : Prop := (length (print_request q) + length (head_tokens q) + 3 <= fuel)%nat.

Lemma buf_ok_room s : room sp s -> 0 <= s.(s_index) <= s.(s_length) -> buf_ok s.
Proof. intros [] ?. split; [done|]. split; [lia|done]. Qed.

(** After the read, the loop starts on the new bytes. *)
Lemma read_again f u cl u' s' :
  _client_read_bytes rops sp f u cl.(c_stream) = Some (u', s', true) -> cl.(c_state) = HTTP_SESSION_READ ->
  _client_read ops rops sp (S f) true u cl = _client_read ops rops sp (S f) false u' {| cl with c_stream := s' |}.
Proof. intros E Hst. cbn [_client_read c_stream]. rewrite E. cbn [mbind option_bind]. rewrite <- Hst. by destruct cl. Qed.

(** *** The new bytes *)

(** The session after the read of [d]: the first [k] bytes scanned, [k + zlen d] received. *)
Record loaded (k : Z) (d : list Z) (cl : client) : Prop := {
  ld_state : cl.(c_state) = HTTP_SESSION_READ;
  ld_flags : cl.(c_flags) = HTTP_AUTOMATIC;
  ld_room : room sp cl.(c_stream);
  ld_index : cl.(c_stream).(s_index) = k /\ cl.(c_stream).(s_length) = k + zlen d;
  ld_unread : unread_bytes cl.(c_stream) = d;
  ld_received : received cl.(c_stream) = take (Z.to_nat (k + zlen d)) (print_request q) }.

Lemma loaded_buf_ok k d cl : 0 <= k -> loaded k d cl -> buf_ok cl.(c_stream).
Proof. intros Hk [_ _ R [E1 E2] _ _]. apply buf_ok_room; [done|]. pose proof (zlen_nonneg d). lia. Qed.

(** The session's outcome, by whether the request is complete. *)
Definition outcome (k : Z) (d : list Z) (u : U) (res : option (U * client)) : Prop :=
  (k + zlen d < zlen (print_request q) -> exists cl', res = Some (u, cl') /\ reading (k + zlen d) cl') /\
  (k + zlen d = zlen (print_request q) -> exists cl', parsed cl' /\ res = handled (rops.(request_handler) u cl')).

Lemma request_sizes : 0 <= sp.(request_token_max_len) /\ zlen (print_request q) = HL + BL /\ HL + BL < 2 ^ 31 /\
  HL = zlen (print_init q) + 1 /\ 0 <= BL /\ 0 <= HL.
Proof.
  destruct Hq as [[_ Lm] _ _ _ _ _ _ [Hs1 Hs2]]. pose proof (zlen_nonneg (q_method q)). pose proof (zlen_nonneg (q_body q)).
  unfold print_request in *. rewrite print_head_init in *. rewrite !zlen_app in *. change (zlen [10]) with 1 in *.
  pose proof (zlen_nonneg (print_init q)). lia.
Qed.

Lemma room_same s s' : room sp s -> s'.(s_buf) = s.(s_buf) -> s'.(s_length) = s.(s_length) -> s'.(s_capacity) = s.(s_capacity) -> room sp s'.
Proof. intros [] E1 E2 E3. constructor; rewrite ?E1, ?E2, ?E3; done. Qed.

Lemma received_same s s' : s'.(s_buf) = s.(s_buf) -> s'.(s_length) = s.(s_length) -> received s' = received s.
Proof. unfold received. by intros -> ->. Qed.

Lemma token_parse_quiet pxf s p : quiet p ->
  _token_parse sp pxf s p =
  '(s, p, r) ← scan_loop sp pxf (scan_fuel s) s p;
  match r with SProxied => Some (s, p, token_zero) | SToken t => Some (s, p, t) | SMore => parse_end sp s p end.
Proof. intros [Q1 Q2]. unfold _token_parse. rewrite meta_emit_none by done. done. Qed.

(** What a client's buffer looks like once [n] bytes of the request have been received. *)
Definition holds (n : Z) (s : stream) : Prop :=
  room sp s /\ s.(s_length) = n /\ received s = take (Z.to_nat n) (print_request q).

Lemma holds_same n s s' : holds n s -> s'.(s_buf) = s.(s_buf) -> s'.(s_length) = s.(s_length) -> s'.(s_capacity) = s.(s_capacity) -> holds n s'.
Proof.
  intros (R & El & Er) E1 E2 E3. split; [by eapply room_same|]. split; [congruence|]. by rewrite (received_same s s').
Qed.

(** The call of the handler: the whole request has been received. *)
Lemma call_outcome f u cl s p i n :
  holds (zlen (print_request q)) s -> cl.(c_tokens) = head_tokens q -> cl.(c_flags) = HTTP_AUTOMATIC ->
  _token_parse sp (px cl) cl.(c_stream) cl.(c_parser) = Some (s, p, mkToken i n HS_TOK_BODY) ->
  mkToken i n HS_TOK_BODY = (if BL =? 0 then mkToken 0 0 HS_TOK_BODY else mkToken HL BL HS_TOK_BODY) ->
  exists cl', parsed cl' /\ _client_read ops rops sp (S f) false u cl = handled (rops.(request_handler) u cl').
Proof.
  intros (R & El & Er) Htk Hfl Etp Et. destruct request_sizes as (Hmax & Hsz & Hlt & _ & Hbl & Hhl). pose proof R as [Rb Rc Rl _ _].
  assert (0 <= i /\ 0 <= n /\ (i + n = zlen (print_request q) \/ i + n = 0)) as (Hi & Hn & Hin).
  { destruct (Z.eqb_spec BL 0); injection Et as -> ->; lia. }
  destruct (loop_body ops rops sp f u cl s p i n Hhandler Etp Hi Hn) as (buf & Hz & Hsl & Hn0 & ->); [lia|].
  eexists. split; [|reflexivity]. constructor; cbn [c_state c_flags c_stream c_tokens push_token s_buf].
  - done.
  - done.
  - assert (slice (s_buf s) 0 (zlen (print_request q)) = print_request q) as Hall.
    { rewrite <- El. unfold received in Er. rewrite Er. unfold zlen. rewrite Nat2Z.id. by apply take_ge. }
    destruct Hin as [Hin|Hin]; [by rewrite Hin in Hsl; rewrite Hsl|]. by rewrite Hn0 by lia.
  - rewrite Hz. lia.
  - by rewrite Htk, Et.
Qed.

(** The end of the data in the body, or the end of the body. *)
Lemma body_outcome f u k d cl s p m r :
  holds (k + zlen d) s -> at_body HL BL m s p -> buf_ok s -> unread_bytes s = r -> 0 <= m -> m < BL ->
  HL + m + zlen r = k + zlen d -> k + zlen d <= HL + BL ->
  cl.(c_tokens) = head_tokens q -> cl.(c_state) = HTTP_SESSION_READ -> cl.(c_flags) = HTTP_AUTOMATIC ->
  _token_parse sp (px cl) cl.(c_stream) cl.(c_parser) =
    ('(s, p, r) ← scan_loop sp (px cl) (scan_fuel s) s p;
     match r with SProxied => Some (s, p, token_zero) | SToken t => Some (s, p, t) | SMore => parse_end sp s p end) ->
  outcome k d u (_client_read ops rops sp (S f) false u cl).
Proof.
  intros Hh Hat Hok Hr Hm Hmb Hk Hle Htk Hst Hfl Etp. pose proof (zlen_nonneg r). destruct request_sizes as (Hmax & Hsz & Hlt & _ & Hbl & Hhl).
  destruct (body_parse (px cl) m s p r Hat Hok Hr) as (s' & E1 & E2 & E3 & E4 & p' & Ep & Hat'); [lia|lia|lia|lia|lia|].
  rewrite Ep in Etp. pose proof (holds_same _ _ _ Hh E1 E2 E3) as Hh'. pose proof Hh as (_ & El & _). pose proof Hh' as (R' & _ & Er').
  split; intros Hcmp.
  - rewrite (proj2 (Z.ltb_lt (m + zlen r) BL)) in Etp by lia. rewrite (loop_none ops rops sp f u cl s' p' Etp).
    eexists. split; [reflexivity|]. constructor; cbn [c_state c_flags c_stream c_parser c_tokens].
    + done.
    + done.
    + by right.
    + lia.
    + done.
    + right. split; [lia|]. split; [|done]. replace (k + zlen d - HL) with (m + zlen r) by lia. apply Hat'. lia.
  - rewrite (proj2 (Z.ltb_ge (m + zlen r) BL)) in Etp by lia. rewrite Hcmp in Hh'.
    eapply call_outcome; [exact Hh'|done|done|exact Etp|]. by rewrite (proj2 (Z.eqb_neq BL 0)) by lia.
Qed.

Lemma at_body_quiet m s p : at_body HL BL m s p -> quiet p.
Proof. intros (_ & mi & hc & [(-> & _)|(-> & _)]); split; vm_compute; congruence. Qed.

Lemma loaded_holds k d cl : loaded k d cl -> holds (k + zlen d) cl.(c_stream).
Proof. intros [_ _ R [_ E] _ Er]. done. Qed.

(** A delivery that starts in the body. *)
Lemma deliver_in_body f u k d cl :
  loaded k d cl -> HL <= k -> 0 < zlen d -> k + zlen d <= HL + BL -> at_body HL BL (k - HL) cl.(c_stream) cl.(c_parser) -> cl.(c_tokens) = head_tokens q ->
  outcome k d u (_client_read ops rops sp (S f) false u cl).
Proof.
  intros Hl Hk Hd Hle Hat Htk. destruct request_sizes as (_ & _ & _ & _ & _ & Hhl).
  pose proof (loaded_buf_ok k d cl ltac:(lia) Hl) as Hok. pose proof Hl as [Hst Hfl R [E1 E2] Hu Er].
  eapply (body_outcome f u k d cl (c_stream cl) (c_parser cl) (k - HL) d); try done; try lia.
  apply token_parse_quiet. by eapply at_body_quiet.
Qed.

(** A state from which the scan of the head goes on. *)
Definition can_step (k : core) : Prop := exists c r, byte_ok c /\ hchar sp k c = Some r.

Lemma can_step_props k : can_step k -> quiet k.(k_parser) /\ k.(k_parser).(p_state) <> CB.
Proof.
  intros (c & [k' l] & Hc & E). apply hchar_inv in E as (Hst & _ & _ & Q1 & Q2 & _); [|done]. split; [done|].
  intros E. rewrite E in Hst. vm_compute in Hst. destruct Hst. congruence.
Qed.

Lemma hrun_len k w k' l : w <> [] -> bytes_ok w -> hrun sp k w = Some (k', l) -> k'.(k_token).(t_len) <= sp.(request_token_max_len).
Proof.
  intros Hw Hb. revert k l Hw. induction Hb as [|c w Hc Hb IH]; intros k l Hw E; [done|]. cbn [hrun] in E.
  destruct (hchar sp k c) as [[k1 l1]|] eqn:E1; cbn [mbind option_bind] in E; [|done].
  destruct (hrun sp k1 w) as [[k2 l2]|] eqn:E2; cbn [mbind option_bind] in E; [|done]. injection E as <- <-.
  destruct w as [|c' w]; [|by eapply IH]. cbn [hrun] in E2. injection E2 as <- <-.
  by apply hchar_inv in E1 as (_ & _ & ? & _); [|done].
Qed.

(** Splitting a run over the head. *)
Lemma hrun_split k w1 w2 k2 l : hrun sp k (w1 ++ w2) = Some (k2, l) ->
  exists k1 l1 l2, hrun sp k w1 = Some (k1, l1) /\ hrun sp k1 w2 = Some (k2, l2) /\ l = l1 ++ l2.
Proof.
  rewrite hrun_app. destruct (hrun sp k w1) as [[k1 l1]|]; cbn [mbind option_bind]; [|done].
  destruct (hrun sp k1 w2) as [[k3 l2]|] eqn:E; cbn [mbind option_bind]; [|done]. intros E2. injection E2 as <- <-. eauto 10.
Qed.

Lemma request_bytes w1 w2 : print_request q = w1 ++ w2 -> bytes_ok w1 /\ bytes_ok w2.
Proof. intros E. destruct Hq as [_ _ _ _ _ _ Hb _]. rewrite E in Hb. by apply Forall_app in Hb. Qed.

(** The scan of the head up to its last character, which is [10]. *)
Lemma head_scan : exists kE hc,
  hrun sp k0 (print_init q) = Some (kE, head_tokens q) /\ can_step kE /\
  hchar sp kE 10 = Some (if BL =? 0
    then (mkCore (mkParser 0 0 0 hc HN M_END) token_zero HL, [mkToken 0 0 HS_TOK_BODY])
    else (mkCore (mkParser BL 0 0 hc HN M_BDY) token_zero HL, [])).
Proof.
  destruct (print_head_run sp q Hq) as (kE & hc & E1 & _ & E2). exists kE, hc. split; [done|]. split; [|done].
  exists 10. eexists. split; [done|exact E2].
Qed.

(** A delivery that stays inside of the head. *)
Lemma deliver_in_head f u k d d' cl :
  loaded k d cl -> 0 <= k -> d <> [] -> print_init q = take (Z.to_nat k) (print_request q) ++ d ++ d' ->
  hrun sp k0 (take (Z.to_nat k) (print_request q)) = Some (core_of cl.(c_stream) cl.(c_parser), cl.(c_tokens)) ->
  zlen (take (Z.to_nat k) (print_request q)) = k -> (length (head_tokens q) < f)%nat ->
  outcome k d u (_client_read ops rops sp f false u cl).
Proof.
  intros Hl Hk Hd Einit Hrun Htake Hf. pose proof (loaded_buf_ok k d cl Hk Hl) as Hok. pose proof Hl as [Hst Hfl R [E1 E2] Hu Er].
  destruct request_sizes as (Hmax & Hsz & Hlt & HhL & Hbl & Hhl).
  destruct head_scan as (kE & hc & Hall & Hstep & Hlast). rewrite Einit in Hall.
  apply hrun_split in Hall as (k1 & l1 & l2 & F1 & F2 & F3). rewrite Hrun in F1. injection F1 as <- <-.
  apply hrun_split in F2 as (kD & l3 & l4 & F4 & F5 & ->).
  assert (print_request q = (take (Z.to_nat k) (print_request q) ++ d) ++ d' ++ [10] ++ q_body q) as Ereq.
  { unfold print_request at 1. rewrite print_head_init, Einit, <- !app_assoc. done. }
  destruct (request_bytes _ _ Ereq) as [Hb1 Hb2]. apply Forall_app in Hb1 as [_ Hbd]. apply Forall_app in Hb2 as [Hbd' _].
  assert (can_step kD) as HstepD.
  { destruct d' as [|c d']; [by injection F5 as -> _|]. cbn [hrun] in F5. apply Forall_cons in Hbd' as [Hc _].
    destruct (hchar sp kD c) as [r|] eqn:Er'; [|done]. by exists c, r. }
  destruct (can_step_props kD HstepD) as [HqD HcbD].
  pose proof head_tokens_types as Htt. rewrite F3 in Htt. apply Forall_app in Htt as [_ Htt]. apply Forall_app in Htt as [Htt _].
  assert (length (c_tokens cl ++ l3 ++ l4) < f)%nat as Hf' by (by rewrite <- F3). rewrite !length_app in Hf'.
  replace f with (length l3 + S (f - length l3 - 1))%nat by lia.
  rewrite <- (app_nil_r d) in Hu. rewrite <- (app_nil_r l3) in F4.
  destruct (loop_tokens l3 (S (f - length l3 - 1)) u cl d [] kD [] Hok Hu F4 Htt Hst)
    as (cl2 & w2 & -> & Hok2 & Hu2 & Hrun2 & Htk2 & Hst2 & Eb & El & Ec & _ & Hfl2 & _).
  rewrite app_nil_r in F4, Hu2.
  assert (quiet (c_parser cl2)) as Hq2.
  { destruct w2 as [|c w2]; [cbn [hrun] in Hrun2; by injection Hrun2 as <-|].
    destruct (unread_cons _ c w2 Hok2 Hu2) as (_ & _ & Hc & _). by eapply (hrun_cons_quiet sp (core_of (c_stream cl2) (c_parser cl2))). }
  destruct (token_parse_header_end sp (px cl2) (fun s p => Hproxy _) _ _ w2 kD Hok2 Hu2 Hq2 Hrun2 HqD HcbD) as
    (s3 & Ecore & Hok3 & Hu3 & Eb3 & El3 & Ec3 & Etp).
  { by eapply hrun_len. }
  rewrite (loop_none ops rops sp _ u cl2 _ _ Etp). split; intros Hcmp.
  2: { exfalso. rewrite Ereq, !zlen_app, Htake in Hcmp. change (zlen [10]) with 1 in Hcmp. pose proof (zlen_nonneg d'). lia. }
  eexists. split; [reflexivity|].
  assert (holds (k + zlen d) s3) as (R3 & L3 & V3).
  { eapply holds_same; [by apply loaded_holds|congruence..]. }
  assert (take (Z.to_nat (k + zlen d)) (print_request q) = take (Z.to_nat k) (print_request q) ++ d) as Etake.
  { rewrite Ereq at 1. rewrite take_app_length'; [done|]. rewrite <- Htake at 1. unfold zlen. rewrite length_app. lia. }
  constructor; cbn [c_state c_flags c_stream c_parser c_tokens].
  - done.
  - congruence.
  - by right.
  - pose proof (unread_nil s3 Hok3 Hu3). pose proof (zlen_nonneg d). lia.
  - done.
  - left. split.
    + rewrite HhL, Einit, !zlen_app, Htake. pose proof (zlen_nonneg d'). lia.
    + rewrite Etake, hrun_app, Hrun. cbn [mbind option_bind]. rewrite F4. cbn [mbind option_bind]. by rewrite Ecore, Htk2.
Qed.

(** A delivery with the end of the head, and perhaps some of the body. *)
Lemma deliver_head_end f u k d w d2 cl :
  loaded k d cl -> 0 <= k -> d = w ++ [10] ++ d2 -> print_init q = take (Z.to_nat k) (print_request q) ++ w ->
  hrun sp k0 (take (Z.to_nat k) (print_request q)) = Some (core_of cl.(c_stream) cl.(c_parser), cl.(c_tokens)) ->
  zlen (take (Z.to_nat k) (print_request q)) = k -> zlen d2 <= BL -> (length (head_tokens q) < f)%nat ->
  outcome k d u (_client_read ops rops sp f false u cl).
Proof.
  intros Hl Hk Ed Einit Hrun Htake Hd2 Hf. pose proof (loaded_buf_ok k d cl Hk Hl) as Hok. pose proof Hl as [Hst Hfl R [E1 E2] Hu Er].
  destruct request_sizes as (Hmax & Hsz & Hlt & HhL & Hbl & Hhl).
  destruct head_scan as (kE & hc & Hall & Hstep & Hlast). rewrite Einit in Hall.
  apply hrun_split in Hall as (k1 & l1 & l2 & F1 & F2 & F3). rewrite Hrun in F1. injection F1 as <- <-.
  assert (k + zlen w = HL - 1) as Hkw by (rewrite HhL, Einit, zlen_app, Htake; lia).
  assert (zlen d = zlen w + 1 + zlen d2) as Hzd by (rewrite Ed, !zlen_app; change (zlen [10]) with 1; lia).
  pose proof (zlen_nonneg w). pose proof (zlen_nonneg d2).
  pose proof head_tokens_types as Htt. rewrite F3 in Htt. apply Forall_app in Htt as [_ Htt].
  assert (length (c_tokens cl ++ l2) < f)%nat as Hf' by (by rewrite <- F3). rewrite length_app in Hf'.
  replace f with (length l2 + S (f - length l2 - 1))%nat by lia.
  rewrite Ed, app_assoc in Hu.
  destruct (Z.eqb_spec BL 0) as [Eb0|Eb0].
  - assert (hrun sp (core_of (c_stream cl) (c_parser cl)) (w ++ [10]) =
      Some (mkCore (mkParser 0 0 0 hc HN M_END) token_zero HL, l2 ++ [mkToken 0 0 HS_TOK_BODY])) as F4.
    { rewrite hrun_app, F2. cbn [mbind option_bind hrun]. by rewrite Hlast. }
    assert (d2 = []) as -> by (destruct d2; [done|rewrite zlen_cons in *; pose proof (zlen_nonneg d2); lia]).
    destruct (loop_tokens l2 (S (f - length l2 - 1)) u cl (w ++ [10]) [] _ _ Hok Hu F4 Htt Hst)
      as (cl2 & w2 & -> & Hok2 & Hu2 & Hrun2 & Htk2 & Hst2 & Eb & El & Ec & _ & Hfl2 & _).
    destruct (token_parse_header sp (px cl2) (fun s p => Hproxy _) _ _ w2 [] _ _ [] Hok2 Hu2 Hrun2)
      as (w3 & w4 & k3 & _ & _ & _ & _ & _ & _ & _ & Etp).
    rewrite zlen_nil in *. split; intros Hcmp; [lia|].
    eapply call_outcome; [|by rewrite Htk2|congruence|exact Etp|by rewrite Eb0].
    rewrite <- Hcmp. eapply holds_same; [by apply loaded_holds|cbn [put s_buf s_length s_capacity]; congruence..].
  - assert (hrun sp (core_of (c_stream cl) (c_parser cl)) (w ++ [10]) =
      Some (mkCore (mkParser BL 0 0 hc HN M_BDY) token_zero HL, l2 ++ [])) as F4.
    { rewrite hrun_app, F2. cbn [mbind option_bind hrun]. by rewrite Hlast. }
    destruct (loop_tokens l2 (S (f - length l2 - 1)) u cl (w ++ [10]) d2 _ _ Hok Hu F4 Htt Hst)
      as (cl2 & w2 & -> & Hok2 & Hu2 & Hrun2 & Htk2 & Hst2 & Eb & El & Ec & _ & Hfl2 & _).
    assert (quiet (c_parser cl2)) as Hq2.
    { destruct w2 as [|c w2]; [cbn [hrun] in Hrun2; injection Hrun2 as Hp _ _; rewrite Hp; split; vm_compute; congruence|].
      destruct (unread_cons _ c (w2 ++ d2) Hok2 Hu2) as (_ & _ & Hc & _). by eapply (hrun_cons_quiet sp (core_of (c_stream cl2) (c_parser cl2))). }
    destruct (token_parse_header_more sp (px cl2) (fun s p => Hproxy _) _ _ w2 d2 _ Hok2 Hu2 Hq2 Hrun2)
      as (s3 & Hs3 & Ecore & Hok3 & Hu3 & Etp). cbn [k_parser] in *.
    assert (s_buf s3 = s_buf (c_stream cl) /\ s_length s3 = s_length (c_stream cl) /\ s_capacity s3 = s_capacity (c_stream cl)) as (B3 & L3 & C3).
    { destruct Hs3 as [[-> _]| ->]; cbn [put s_buf s_length s_capacity]; done. }
    injection Ecore as Ht3 Hi3.
    eapply (body_outcome _ u k d cl2 s3 (mkParser BL 0 0 hc HN M_BDY) 0 d2).
    + eapply holds_same; [by apply loaded_holds|done..].
    + split; [lia|]. exists 0, hc. left. done.
    + done.
    + done.
    + done.
    + lia.
    + lia.
    + lia.
    + by rewrite Htk2.
    + done.
    + congruence.
    + exact Etp.
Qed.

(** *** One delivery *)

Lemma deliver_one fuel u k cl d rest :
  reading k cl -> ns_avail u = d -> d <> [] -> print_request q = take (Z.to_nat k) (print_request q) ++ d ++ rest -> sized fuel ->
  exists u', ns_avail u' = [] /\ ns_app u' = ns_app u /\ outcome k d u' (_client_read ops rops sp fuel true u cl).
Proof.
  intros [Hst Hfl Hfill [Hix [Hlen Hk]] Hrec Hscan] Ha Hd Hreq Hfuel. unfold sized in Hfuel.
  destruct request_sizes as (Hmax & Hsz & Hlt & HhL & Hbl & Hhl).
  destruct fuel as [|f]; [lia|].
  assert (zlen (take (Z.to_nat k) (print_request q)) = k) as Htake.
  { unfold zlen in *. rewrite length_take. lia. }
  assert (zlen (print_request q) = k + zlen d + zlen rest) as Hzr by (rewrite Hreq at 1; rewrite !zlen_app, Htake; lia).
  destruct (request_bytes _ _ Hreq) as [_ Hb]. apply Forall_app in Hb as [Hbd _].
  assert (0 < zlen d) as Hd0 by (destruct d; [done|rewrite zlen_cons; pose proof (zlen_nonneg d); lia]).
  pose proof (zlen_nonneg rest). destruct Hq as [_ _ _ _ _ _ _ [Hs1 Hs2]].
  destruct (client_read_bytes_spec rops sp f u (c_stream cl)) as (u' & s' & Erd & [Ha' Hap'] & R' & Hsame & Hrec' & Hlen');
    [done|lia|by rewrite Ha|done|rewrite Ha; lia| |].
  { rewrite Ha. unfold zlen in *. lia. }
  exists u'. split; [done|]. split; [done|]. rewrite (read_again f u cl u' s' Erd Hst).
  destruct Hsame as (S1 & S2 & S3). rewrite Ha in *.
  assert (loaded k d {| cl with c_stream := s' |}) as Hl.
  { constructor; cbn [c_state c_flags c_stream].
    - done.
    - done.
    - done.
    - lia.
    - unfold unread_bytes. rewrite S1, Hix. apply (app_inv_head (slice (s_buf s') 0 k)).
      destruct R' as [Rb Rc Rl _ _]. rewrite slice_join by lia. change (slice (s_buf s') 0 (s_length s')) with (received s').
      rewrite Hrec', Hrec. f_equal. transitivity (take (Z.to_nat k) (received s')).
      + rewrite Hrec', Hrec, take_app_le, take_take, Nat.min_id; [done|]. unfold zlen in Htake. lia.
      + unfold received. by rewrite slice_take by lia.
    - rewrite Hrec', Hrec. rewrite Hreq at 2. rewrite app_assoc, take_app_length'; [done|]. rewrite length_app. unfold zlen in *. lia. }
  assert (length (print_request q) + length (head_tokens q) + 3 <= S f)%nat as Hf by done.
  destruct Hscan as [[HkL Hrun]|[HkL [Hat Htk]]].
  - assert (print_init q ++ [10] ++ q_body q = take (Z.to_nat k) (print_request q) ++ d ++ rest) as Hsplit.
    { rewrite <- Hreq. unfold print_request. by rewrite print_head_init, <- app_assoc. }
    assert (exists w, print_init q = take (Z.to_nat k) (print_request q) ++ w) as [w Hw].
    { exists (drop (Z.to_nat k) (print_init q)). rewrite <- (take_drop (Z.to_nat k) (print_init q)) at 1. f_equal.
      unfold print_request. rewrite print_head_init, <- app_assoc, take_app_le; [done|]. unfold zlen in *. lia. }
    rewrite Hw, <- app_assoc in Hsplit. apply app_inv_head in Hsplit.
    apply app_eq_inv in Hsplit as [(d' & -> & Hr)|(d2 & Hd2 & Hr)].
    + eapply (deliver_in_head (S f) u' k d d'); [done|lia|done|done| |done|lia].
      cbn [c_stream c_parser c_tokens]. rewrite Hrun. unfold core_of. by rewrite S1, S2.
    + destruct d2 as [|c d2].
      * rewrite app_nil_r in Hd2. subst w. eapply (deliver_in_head (S f) u' k d []); [done|lia|done|by rewrite app_nil_r| |done|lia].
        cbn [c_stream c_parser c_tokens]. rewrite Hrun. unfold core_of. by rewrite S1, S2.
      * cbn [app] in Hr. injection Hr as <- Hr. eapply (deliver_head_end (S f) u' k d w d2); [done|lia|done|done| |done| |lia].
        -- cbn [c_stream c_parser c_tokens]. rewrite Hrun. unfold core_of. by rewrite S1, S2.
        -- rewrite Hr, zlen_app. lia.
  - eapply deliver_in_body; [done|lia|done|lia| |done]. cbn [c_stream c_parser]. destruct Hat as (A1 & A2).
    split; [congruence|]. rewrite S2. exact A2.
Qed.
(** *** All the deliveries *)

(** The peer's bytes arrive in pieces, and the session's event handler is called for each. *)
Fixpoint arrivals (fuel : nat) (u : U) (cl : client) (ds : list (list Z)) : option (U * client * list Z) :=
  match ds with
  | [] => Some (u, cl, [])
  | d :: ds =>
      '(u, cl, r) ← _client_on_poller_adapter_event ops rops sp fuel (ns_arrive u d) cl;
      '(u, cl, rs) ← arrivals fuel u cl ds;
      Some (u, cl, r :: rs)
  end.

(** The answers of the events: the session goes on until the handler has been called. *)
Definition answered (n : nat) (r : option (U * client)) : option (U * client * list Z) :=
  '(u, cl) ← r; Some (u, cl, replicate n 0 ++ [if has_flag cl HTTP_END_SESSION then -1 else 0]).

Lemma event_reading fuel u cl :
  cl.(c_state) = HTTP_SESSION_READ ->
  _client_on_poller_adapter_event ops rops sp fuel u cl =
  '(u, cl) ← _client_read ops rops sp fuel true u cl; Some (u, cl, if has_flag cl HTTP_END_SESSION then -1 else 0).
Proof. intros Hst. unfold _client_on_poller_adapter_event. rewrite Hst. done. Qed.

Lemma arrivals_reading fuel ds : forall u k cl,
  sized fuel -> reading k cl -> ns_avail u = [] -> Forall (.≠ []) ds -> print_request q = take (Z.to_nat k) (print_request q) ++ concat ds ->
  exists u' cl', ns_avail u' = [] /\ ns_app u' = ns_app u /\ parsed cl' /\
    arrivals fuel u cl ds = answered (length ds - 1) (handled (rops.(request_handler) u' cl')).
Proof.
  induction ds as [|d ds IH]; intros u k cl Hf Hrg Ha Hne Hreq; pose proof Hrg as [Hst _ _ (_ & _ & Hk) _ _].
  { exfalso. rewrite app_nil_r in Hreq. apply (f_equal length) in Hreq. rewrite length_take in Hreq. unfold zlen in Hk. lia. }
  apply Forall_cons in Hne as [Hd Hne]. cbn [concat] in Hreq. destruct (ns_arrived u d Ha) as [Ha1 Hp1].
  destruct (deliver_one fuel (ns_arrive u d) k cl d (concat ds) Hrg Ha1 Hd Hreq Hf) as (u' & Ha' & Hp' & Hmore & Hdone).
  assert (zlen (print_request q) = k + zlen d + zlen (concat ds)) as Hz.
  { rewrite Hreq at 1. rewrite !zlen_app. unfold zlen in *. rewrite length_take. lia. }
  cbn [arrivals length]. rewrite event_reading by done. destruct ds as [|d2 ds].
  - change (zlen (concat [])) with 0 in Hz. destruct Hdone as (cl' & Hp & ->); [lia|].
    exists u', cl'. split; [done|]. split; [congruence|]. split; [done|]. unfold answered. cbn [arrivals length].
    by destruct (handled _) as [[u2 cl2]|].
  - assert (0 < zlen (concat (d2 :: ds))) as Hpos.
    { apply Forall_cons in Hne as [Hd2 _]. cbn [concat]. rewrite zlen_app. destruct d2; [done|]. rewrite zlen_cons.
      pose proof (zlen_nonneg d2). pose proof (zlen_nonneg (concat ds)). lia. }
    destruct Hmore as (cl' & -> & Hrg'); [lia|]. cbn [mbind option_bind]. pose proof Hrg' as [_ Hfl' _ _ _ _].
    destruct (IH u' (k + zlen d) cl' Hf Hrg' Ha' Hne) as (u2 & cl2 & Ha2 & Hp2 & Hpd & E).
    { pose proof (zlen_nonneg d). rewrite Z2Nat.inj_add by lia.
      assert (take (Z.to_nat k + Z.to_nat (zlen d)) (print_request q) = take (Z.to_nat k) (print_request q) ++ d) as ->.
      { rewrite Hreq at 1. rewrite app_assoc, take_app_length'; [done|]. unfold zlen. rewrite length_app, length_take, Nat2Z.id. unfold zlen in *. lia. }
      by rewrite <- app_assoc. }
    exists u2, cl2. split; [done|]. split; [congruence|]. split; [done|]. rewrite E. unfold has_flag. rewrite Hfl'.
    unfold answered. destruct (handled _) as [[u3 cl3]|]; [|done]. cbn [mbind option_bind length Nat.sub replicate app].
    by rewrite Nat.sub_0_r.
Qed.

Lemma arrivals_init fuel ds u cl :
  sized fuel -> cl.(c_state) = HTTP_SESSION_INIT -> ns_avail u = [] -> Forall (.≠ []) ds -> concat ds = print_request q ->
  exists u' cl', ns_avail u' = [] /\ ns_app u' = ns_app u /\ parsed cl' /\
    arrivals fuel u cl ds = answered (length ds - 1) (handled (rops.(request_handler) u' cl')).
Proof.
  intros Hf Hst Ha Hne Hds. set (cl0 := {| (_client_init cl) with c_state := HTTP_SESSION_READ |}).
  destruct request_sizes as (_ & Hsz & _ & HhL & Hbl & _). pose proof (zlen_nonneg (print_init q)).
  assert (reading 0 cl0) as Hrg.
  { constructor; cbn [cl0 _client_init c_state c_flags c_stream c_parser c_tokens]; [done|done|by left| |done|].
    - cbn. lia.
    - left. split; [lia|]. cbn. done. }
  destruct (arrivals_reading fuel ds u 0 cl0 Hf Hrg Ha Hne) as (u' & cl' & H1 & H2 & H3 & H4); [by rewrite Hds|].
  exists u', cl'. split; [done|]. split; [done|]. split; [done|]. rewrite <- H4.
  destruct ds as [|d ds]; [exfalso; apply (f_equal zlen) in Hds; cbn [concat] in Hds; rewrite zlen_nil in Hds; lia|].
  cbn [arrivals]. rewrite (event_reading _ _ cl0) by done. unfold _client_on_poller_adapter_event. rewrite Hst. done.
Qed.
End Deliver.

(** ** What the handler sees *)

Fixpoint find_field (hs : list (list Z * list Z)) (name : list Z) : option (list Z) :=
  match hs with
  | [] => None
  | h :: hs => if strcaseeq h.1 name then Some h.2 else find_field hs name
  end.

(** The accessors of the request give back what the peer sent. *)
Record request_seen (q : request) (cl : client) : Prop := {
  se_method : iwn_http_request_method cl = Some (Some q.(q_method));
  se_target : iwn_http_request_target cl = Some (Some q.(q_target));
  se_version : _token_get_string cl HS_TOK_VERSION = Some (Some q.(q_version));
  se_body : iwn_http_request_body cl = Some (Some q.(q_body));
  se_headers name : iwn_http_request_header_get cl name (zlen name) = Some (find_field q.(q_headers) name);
  se_streamed : iwn_http_request_is_streamed cl = false }.

Lemma strcaseeq_length a b : strcaseeq a b = true -> zlen a = zlen b.
Proof. unfold strcaseeq, zlen. intros E%bool_decide_eq_true. apply (f_equal length) in E. rewrite !length_map in E. lia. Qed.

Lemma find_header_cons s t ts name : find_header s (t :: ts) name =
  if (t.(t_type) =? HS_TOK_HEADER_KEY) && (t.(t_len) =? zlen name) then
    key ← token_bytes s t;
    if strcaseeq key name then match ts with t' :: _ => Some <$> token_bytes s t' | [] => None end
    else find_header s ts name
  else find_header s ts name.
Proof. done. Qed.

Section Seen.
Context (q : request) (cl : client) (Hp : parsed q cl).

(** A token that covers [w] inside of the request. *)
Lemma token_seen l w r ty n : print_request q = l ++ w ++ r -> n = zlen l ->
  token_bytes cl.(c_stream) (mkToken n (zlen w) ty) = Some w.
Proof.
  intros E ->. destruct Hp as [_ _ Hbuf Hsize _]. unfold token_bytes. cbn [t_index t_len].
  pose proof (zlen_nonneg l). pose proof (zlen_nonneg w). pose proof (zlen_nonneg r).
  assert (zlen (print_request q) = zlen l + zlen w + zlen r) as Hz by (rewrite E, !zlen_app; lia).
  destruct (Z.leb_spec 0 (zlen l)); [|lia]. destruct (Z.leb_spec 0 (zlen w)); [|lia].
  destruct (Z.leb_spec (zlen l + zlen w) (zlen (s_buf (c_stream cl)))); [|lia]. cbn [andb]. f_equal.
  transitivity (slice (print_request q) (zlen l) (zlen l + zlen w)); [|rewrite E; apply slice_app].
  rewrite <- Hbuf. unfold slice. rewrite drop_0, skipn_firstn_comm, take_take. f_equal. lia.
Qed.

Lemma find_line_tokens hs : forall l r i tail name,
  print_request q = l ++ (hs ≫= print_field) ++ r -> i = zlen l ->
  find_header cl.(c_stream) (line_tokens i hs ++ tail) name =
  match find_field hs name with Some v => Some (Some v) | None => find_header cl.(c_stream) tail name end.
Proof.
  induction hs as [|[key val] hs IH]; intros l r i tail name E Hi; [done|]. cbn [line_tokens app find_field fst snd].
  csimpl in E. unfold print_field in E at 1. cbn [fst snd] in E.
  assert (token_bytes (c_stream cl) (mkToken i (zlen key) HS_TOK_HEADER_KEY) = Some key) as Ek.
  { eapply token_seen; [|exact Hi]. rewrite E, <- !app_assoc. done. }
  assert (token_bytes (c_stream cl) (mkToken (i + zlen key + 2) (zlen val) HS_TOK_HEADER_VAL) = Some val) as Ev.
  { eapply (token_seen (l ++ key ++ [58; 32])); [rewrite E, <- !app_assoc; done|]. rewrite !zlen_app. change (zlen [58; 32]) with 2. lia. }
  assert (find_header (c_stream cl) (mkToken (i + zlen key + 2) (zlen val) HS_TOK_HEADER_VAL :: line_tokens (i + zlen (print_field (key, val))) hs ++ tail) name =
          match find_field hs name with Some v => Some (Some v) | None => find_header (c_stream cl) tail name end) as Erest.
  { cbn [find_header t_type]. change (HS_TOK_HEADER_VAL =? HS_TOK_HEADER_KEY) with false. cbn [andb].
    apply (IH (l ++ print_field (key, val)) r); [|rewrite zlen_app; lia]. rewrite E. unfold print_field. cbn [fst snd]. by rewrite <- !app_assoc. }
  rewrite find_header_cons. cbn [t_type t_len]. change (HS_TOK_HEADER_KEY =? HS_TOK_HEADER_KEY) with true. cbn [andb].
  destruct (strcaseeq key name) eqn:Es.
  - rewrite (strcaseeq_length _ _ Es), Z.eqb_refl. rewrite <- (strcaseeq_length _ _ Es), Ek. cbn [mbind option_bind]. by rewrite Es, Ev.
  - rewrite Erest. destruct (zlen key =? zlen name); [|done]. rewrite Ek. cbn [mbind option_bind]. by rewrite Es.
Qed.

Lemma line_tokens_not_body i hs : Forall (fun t => t.(t_type) <> HS_TOK_BODY) (line_tokens i hs).
Proof. revert i. induction hs as [|h hs IH]; intros i; cbn [line_tokens]; [constructor|]. by repeat constructor. Qed.

Lemma body_token : exists n, list_find (fun t => t.(t_type) = HS_TOK_BODY) cl.(c_tokens) =
  Some (n, if zlen q.(q_body) =? 0 then mkToken 0 0 HS_TOK_BODY else mkToken (zlen (print_head q)) (zlen q.(q_body)) HS_TOK_BODY).
Proof.
  destruct Hp as [_ _ _ _ ->]. rewrite list_find_app_r.
  - eexists. cbn [list_find]. rewrite decide_True by (by destruct (zlen (q_body q) =? 0)). reflexivity.
  - apply list_find_None. unfold head_tokens. do 3 (constructor; [done|]). apply line_tokens_not_body.
Qed.

Lemma parsed_seen : request_seen q cl.
Proof.
  pose proof Hp as [Hst Hfl Hbuf Hsize Htk].
  pose proof (zlen_nonneg (q_method q)). pose proof (zlen_nonneg (q_target q)). pose proof (zlen_nonneg (q_version q)).
  constructor; unfold iwn_http_request_method, iwn_http_request_target, iwn_http_request_body, iwn_http_request_is_streamed, _token_get_string.
  1, 2, 3: rewrite Htk; unfold head_tokens; cbn [app list_find t_type]; repeat first [rewrite decide_True by done | rewrite decide_False by done]; cbn [fmap option_fmap option_map].
  - erewrite (token_seen []); [done| |done]. unfold print_request, print_head. rewrite <- !app_assoc. cbn [app]. done.
  - cbn. erewrite (token_seen (q_method q ++ [32])); [done| |by rewrite zlen_app]. unfold print_request, print_head. by rewrite <- !app_assoc.
  - cbn. erewrite (token_seen (q_method q ++ [32] ++ q_target q ++ [32])); [done| |rewrite !zlen_app; change (zlen [32]) with 1; lia].
    unfold print_request, print_head. by rewrite <- !app_assoc.
  - destruct body_token as [n ->]. destruct (Z.eqb_spec (zlen (q_body q)) 0) as [E0|E0].
    + assert (q_body q = []) as -> by (by apply nil_length_inv; unfold zlen in E0; lia).
      change (mkToken 0 0 HS_TOK_BODY) with (mkToken 0 (zlen (@nil Z)) HS_TOK_BODY).
      by rewrite (token_seen [] [] (print_request q) HS_TOK_BODY 0) by done.
    + erewrite (token_seen (print_head q) (q_body q) []); [done| |done]. unfold print_request. by rewrite app_nil_r.
  - intros name. unfold iwn_http_request_header_get. rewrite arg_len_all, Htk. unfold head_tokens. cbn [app find_header t_type].
    do 3 (match goal with |- context [?a =? HS_TOK_HEADER_KEY] => change (a =? HS_TOK_HEADER_KEY) with false end; cbn [andb]).
    erewrite (find_line_tokens _ (q_method q ++ [32] ++ q_target q ++ [32] ++ q_version q ++ CRLF) (CRLF ++ q_body q)).
    + destruct (find_field (q_headers q) name); [done|]. cbn [find_header]. by destruct (zlen (q_body q) =? 0).
    + unfold print_request, print_head. by rewrite <- !app_assoc.
    + rewrite !zlen_app. change (zlen [32]) with 1. change (zlen CRLF) with 2. lia.
  - unfold has_flag. by rewrite Hfl.
Qed.
End Seen.

(** ** Well-formed requests *)

Section Wf.
Context (sp : spec).

Definition field_fits (h : list Z * list Z) : Prop :=
  key_ok h.1 /\ val_ok h.2 /\ zlen h.1 <= sp.(request_token_max_len) /\ zlen h.2 <= sp.(request_token_max_len) /\ zlen h.1 <= 32767.

(** A header field the framing of the body does not depend on. *)
Definition plain (h : list Z * list Z) : Prop :=
  not_te h.1 /\ ~ map lower h.1 `prefix_of` str_content_lengthing.

(** How the header fields announce the body. *)
Inductive framing (body : list Z) : list (list Z * list Z) -> Prop :=
  | framing_none hs : Forall plain hs -> body = [] -> framing body hs
  | framing_length hs1 key val hs2 :
      Forall plain hs1 -> map lower key = str_content_length -> digits val -> dec_value 0 val = zlen body ->
      framing body (hs1 ++ (key, val) :: hs2).

Record request_wf (q : request) : Prop := {
  wf_method : method_ok q.(q_method) /\ zlen q.(q_method) <= sp.(request_token_max_len);
  wf_target : target_ok q.(q_target) /\ zlen q.(q_target) <= sp.(request_token_max_len);
  wf_version : version_ok q.(q_version) /\ zlen q.(q_version) <= sp.(request_token_max_len);
  wf_fields : Forall field_fits q.(q_headers);
  wf_count : 1 <= zlen q.(q_headers) <= 32767 /\ zlen q.(q_headers) <= sp.(request_max_headers_count);
  wf_framing : framing q.(q_body) q.(q_headers);
  wf_bytes : bytes_ok (print_request q);
  wf_size : zlen (print_request q) <= sp.(request_buf_max_size) /\ zlen (print_request q) < 2 ^ 31 }.

Lemma plain_line h cl : plain h -> field_fits h -> line_ok sp M_ANY cl h /\ line_meta M_ANY h.1 = M_ANY /\ line_cl M_ANY cl h = cl.
Proof.
  intros [H1 H2] (Hk & Hv & L1 & L2 & L3). unfold line_ok, line_meta, line_cl, value_fits, value_cl.
  assert (key_state M_ANY h.1 = M_WFK) as ->.
  { destruct h as [[|x key] val]; [done|]. unfold key_state, key_meta, not_te in *. cbn [fst] in *. change (M_ANY =? M_SML) with false. cbv iota.
    by rewrite !bool_decide_eq_false_2 by done. }
  split; [|done]. do 5 (split; [done|]). split; [done|]. done.
Qed.

Lemma plain_lines hs : forall cl tl, Forall plain hs -> Forall field_fits hs ->
  (lines_ok sp M_ANY cl tl -> lines_ok sp M_ANY cl (hs ++ tl)) /\ lines_meta M_ANY (hs ++ tl) = lines_meta M_ANY tl /\
  lines_cl M_ANY cl (hs ++ tl) = lines_cl M_ANY cl tl.
Proof.
  induction hs as [|h hs IH]; intros cl tl Hp Hf; [done|]. apply Forall_cons in Hp as [Hh Hp]. apply Forall_cons in Hf as [Hhf Hf].
  destruct (plain_line h cl Hh Hhf) as (E1 & E2 & E3). cbn [app lines_ok lines_meta lines_cl]. rewrite E2, E3.
  destruct (IH cl tl Hp Hf) as (F1 & F2 & F3). split; [|done]. intros Htl. auto.
Qed.

(** Behind the framing header every field is ignored. *)
Lemma settled_lines hs : forall cl, Forall field_fits hs ->
  lines_ok sp M_SML cl hs /\ lines_meta M_SML hs = M_SML /\ lines_cl M_SML cl hs = cl.
Proof.
  induction hs as [|h hs IH]; intros cl Hf; [done|]. apply Forall_cons in Hf as [(Hk & Hv & L1 & L2 & L3) Hf].
  cbn [lines_ok lines_meta lines_cl]. unfold line_ok, line_meta, line_cl, value_fits, value_cl.
  change (key_state M_SML h.1) with M_SML. change (value_meta (colon_meta M_SML)) with M_SML. change (colon_meta M_SML =? M_CLV) with false.
  destruct (IH cl Hf) as (F1 & F2 & F3). split; [|done]. split; [|done]. by do 6 (split; [done|]).
Qed.

Lemma length_key key : map lower key = str_content_length -> key_state M_ANY key = M_MCL /\ not_te key.
Proof.
  intros E. unfold key_state, key_meta, not_te. rewrite E. split; [|by apply (bool_decide_eq_false_1 (str_content_length `prefix_of` str_transfer_encoding))].
  destruct key; [done|]. reflexivity.
Qed.

Lemma request_wf_ok q : request_wf q -> request_ok sp q.
Proof.
  intros [Hm Ht Hv Hf [Hc Hc2] Hfr Hb [Hs1 Hs2]].
  assert (q_headers q <> []) as Hne by (intros E; rewrite E in Hc; change (zlen (@nil (list Z * list Z))) with 0 in Hc; lia).
  assert (lines_ok sp M_ANY 0 (q_headers q) /\ lines_cl M_ANY 0 (q_headers q) = zlen (q_body q) /\
          (lines_meta M_ANY (q_headers q) = M_ANY -> q_body q = [])) as (R1 & R2 & R3).
  { assert (zlen (q_body q) < 2 ^ 31) as Hbl.
    { unfold print_request in Hs2. rewrite zlen_app in Hs2. pose proof (zlen_nonneg (print_head q)). lia. }
    destruct Hfr as [hs Hp ->|hs1 key val hs2 Hp Hkey Hd Hval].
    - destruct (plain_lines hs 0 [] Hp Hf) as (F1 & F2 & F3). rewrite app_nil_r in *. split; [by apply F1|]. done.
    - apply Forall_app in Hf as [Hf1 Hf2]. apply Forall_cons in Hf2 as [(Gk & Gv & L1 & L2 & L3) Hf2]. cbn [fst snd] in *.
      destruct (length_key key Hkey) as [Eks Hnte].
      destruct (settled_lines hs2 (dec_value 0 val) Hf2) as (G1 & G2 & G3).
      destruct (plain_lines hs1 0 ((key, val) :: hs2) Hp Hf1) as (F1 & F2 & F3). rewrite F2, F3.
      cbn [lines_ok lines_cl lines_meta] in *. unfold line_ok, line_meta, line_cl in *. cbn [fst snd] in *. rewrite Eks in *.
      change (value_meta (colon_meta M_MCL)) with M_SML in *. change (colon_meta M_MCL) with M_CLV in *.
      change (value_cl M_CLV 0 val) with (dec_value 0 val) in *. split; [|split; [congruence|]].
      + apply F1. split; [|done]. do 5 (split; [done|]). split; [done|]. intros _. split; [done|]. split; [done|]. rewrite Hval. lia.
      + rewrite G2. done. }
  constructor; try done. lia.
Qed.

Lemma head_tokens_count q : method_ok q.(q_method) -> Forall field_fits q.(q_headers) -> (length (head_tokens q) <= length (print_request q))%nat.
Proof.
  intros Hm Hf. unfold head_tokens, print_request, print_head. cbn [length]. rewrite !length_app. change (length [32]) with 1%nat. change (length CRLF) with 2%nat.
  assert (forall hs i, length (line_tokens i hs) <= length (hs ≫= print_field))%nat as Hl.
  { induction hs as [|h hs IH]; intros i; [done|]. csimpl. cbn [line_tokens length]. specialize (IH (i + zlen (print_field h))).
    assert (4 <= length (print_field h))%nat by (unfold print_field; rewrite !length_app; change (length CRLF) with 2%nat; cbn [length]; lia).
    rewrite length_app. lia. }
  match goal with |- context [line_tokens ?i ?hs] => specialize (Hl hs i) end. lia.
Qed.
End Wf.

(** C1. However the network cuts a well-formed request into deliveries, a session that waits for a
    request answers every event before the last one with 0 and leaves what the application keeps
    untouched; at the last event it calls the request handler exactly once, on a session whose
    accessors give back the method, the target, the version, every header field (by name, case
    ignored) and the body as the peer sent them, and the event's outcome is the handler's. *)
Theorem http_request_delivered {U A} (ops : session_ops U) (rops : read_ops U) `{!NetSource (A := A) rops} (sp : spec) (q : request)
    (fuel : nat) (u : U) (cl : client) (ds : list (list Z)) :
  (forall cl, rops.(proxied) cl = false) -> handler_ok rops -> 0 < sp.(request_buf_size) <= sp.(request_buf_max_size) ->
  request_wf sp q -> (2 * length (print_request q) + 3 <= fuel)%nat ->
  cl.(c_state) = HTTP_SESSION_INIT -> ns_avail u = [] -> Forall (.≠ []) ds -> concat ds = print_request q ->
  exists u' cl', ns_avail u' = [] /\ ns_app u' = ns_app u /\ request_seen q cl' /\
    arrivals ops rops sp fuel u cl ds = answered (length ds - 1) (handled (rops.(request_handler) u' cl')).
Proof.
  intros Hpx Hh Hsz Hwf Hf Hst Ha Hne Hds. pose proof (head_tokens_count sp q (proj1 (wf_method sp q Hwf)) (wf_fields sp q Hwf)).
  destruct (arrivals_init ops rops sp Hpx Hh Hsz q (request_wf_ok sp q Hwf) fuel ds u cl) as (u' & cl' & H1 & H2 & H3 & H4);
    [unfold sized; lia|done..|].
  exists u', cl'. split; [done|]. split; [done|]. split; [|done]. by apply parsed_seen.
Qed.

(** *** A concrete network *)

(** The world of the example: the bytes that are there, and the bodies the application has seen. *)
Record net := mkNet { n_avail : list Z; n_seen : list (option (list Z)) }.

Definition net_read (u : net) (n : Z) : net * (Z + list Z) :=
  match u.(n_avail) with
  | [] => (u, inl (-1))
  | l => (mkNet (drop (Z.to_nat n) l) u.(n_seen), inr (take (Z.to_nat n) l))
  end.
Definition net_handler (u : net) (cl : client) : option (net * client * bool) :=
  body ← iwn_http_request_body cl;
  Some (mkNet u.(n_avail) (u.(n_seen) ++ [body]), {| cl with c_state := HTTP_SESSION_WRITE |}, true).
Definition net_ops : read_ops net := mkReadOps net_read net_handler (fun _ => false).

#[export] Instance net_source : NetSource (A := list (option (list Z))) net_ops.
Proof.
  refine {| ns_avail := n_avail; ns_app := n_seen; ns_arrive u d := mkNet (u.(n_avail) ++ d) u.(n_seen) |}.
  - intros u d E. cbn. by rewrite E.
  - intros u n E. exists u. cbn. unfold net_read. by rewrite E.
  - intros u n E Hn. cbn. unfold net_read. destruct (n_avail u) as [|x l] eqn:El; [done|].
    do 2 eexists. split; [reflexivity|]. split; [by destruct (Z.to_nat n) eqn:En; [lia|]|].
    split; [unfold zlen; rewrite length_take; lia|]. split; [cbn [n_avail]; by rewrite take_drop|done].
Defined.

Definition example_request : request :=
  mkRequest (bytes_of_string "POST") (bytes_of_string "/a") (bytes_of_string "HTTP/1.1")
    [(bytes_of_string "Host", bytes_of_string "x"); (bytes_of_string "Content-Length", bytes_of_string "3")] (bytes_of_string "abc").

Definition example_pieces : list (list Z) :=
  [take 9 (print_request example_request); take 40 (drop 9 (print_request example_request)); drop 49 (print_request example_request)].

Definition no_session_ops : session_ops net :=
  mkOps (fun u _ => (u, 0, true)) (fun _ => false) (fun u => (u, true)) (fun _ => []) (fun u cl => (u, cl))
        (fun _ _ _ => None) (fun _ _ _ => None).

Lemma example_request_wf : request_wf default_spec example_request.
Proof.
  constructor.
  1, 2, 3: split; [by apply (bool_decide_eq_true_1 (field _ _ _))|by vm_compute].
  - constructor; [|constructor; [|constructor]].
    all: split; [by apply (bool_decide_eq_true_1 (field _ _ _))|split; [by apply (bool_decide_eq_true_1 (field _ _ _))|by vm_compute]].
  - by vm_compute.
  - apply (framing_length _ [_] _ _ []); [|done|by apply (bool_decide_eq_true_1 (Forall _ _))|done].
    constructor; [|constructor]. split; [by apply (bool_decide_eq_false_1 (_ `prefix_of` _))|by apply (bool_decide_eq_false_1 (_ `prefix_of` _))].
  - by apply (bool_decide_eq_true_1 (Forall byte_ok _)).
  - by vm_compute.
Qed.

Lemma http_request_delivered_witness :
  exists u' cl', u'.(n_avail) = [] /\ u'.(n_seen) = [] /\ request_seen example_request cl' /\
    arrivals no_session_ops net_ops default_spec 200 (mkNet [] []) client_accepted example_pieces =
    answered 2 (handled (net_handler u' cl')).
Proof.
  refine (http_request_delivered no_session_ops net_ops default_spec example_request 200 (mkNet [] []) client_accepted example_pieces _ _ _ _ _ _ _ _ _).
  - done.
  - intros u cl u' cl' ok _ E. unfold net_ops, net_handler in E. cbn [request_handler] in E.
    destruct (iwn_http_request_body cl); [|done]. injection E as _ <- _. done.
  - by vm_compute.
  - exact example_request_wf.
  - by apply (bool_decide_eq_true_1 (_ <= _)%nat).
  - done.
  - done.
  - by repeat constructor.
  - done.
Defined.
