(* ===== verification/HttpReply.v ===== *)
(** * HttpReply: what a response of [src/src/http/iwn_http_server.c] puts on the wire

    Properties of the response half of the session modelled in [HttpResponse.v]: the header list,
    the text of a response and its delivery through a transport that takes it in pieces, and the
    chunked responses. *)
From S2P Require Import Prelude HttpParser HttpResponse HttpRead HttpHead.

(** ** The header list *)

Lemma lower_lower c : lower (lower c) = lower c.
Proof.
  unfold lower. destruct ((65 <=? c) && (c <=? 90)) eqn:E; [|by rewrite E].
  apply andb_true_iff in E as [E1%Z.leb_le E2%Z.leb_le]. destruct (Z.leb_spec (c + 32) 90); [lia|]. by rewrite andb_false_r.
Qed.

Lemma map_lower_lower l : map lower (map lower l) = map lower l.
Proof. rewrite map_map. apply map_ext. apply lower_lower. Qed.

Lemma strcaseeq_spec a b : strcaseeq a b = true <-> map lower a = map lower b.
Proof. apply bool_decide_eq_true. Qed.
Lemma strcaseeq_refl a : strcaseeq a a = true.
Proof. by apply strcaseeq_spec. Qed.
Lemma strcaseeq_lower_l a b : strcaseeq (map lower a) b = strcaseeq a b.
Proof. unfold strcaseeq. by rewrite map_lower_lower. Qed.

(** A name is absent from the list, or the first header of that name is the one that is replaced. *)
Definition absent (name : list Z) (hs : list header) : Prop := Forall (fun h => strcaseeq h.(h_name) name = false) hs.

Lemma replace_header_cases hs name :
  (absent name hs /\ forall value, replace_header hs name value = None) \/
  (exists l h r, hs = l ++ h :: r /\ absent name l /\ strcaseeq h.(h_name) name = true /\
     forall value, replace_header hs name value = Some (l ++ mkHeader h.(h_name) value :: r)).
Proof.
  unfold absent. induction hs as [|h hs IH]; [by left|]. cbn [replace_header]. destruct (strcaseeq (h_name h) name) eqn:Eh.
  - right. by exists [], h, hs.
  - destruct IH as [(Ha & IH)|(l & h' & r & -> & Ha & Eh' & IH)].
    + left. split; [by constructor|]. intros value. by rewrite IH.
    + right. exists (h :: l), h', r. split; [done|]. split; [by constructor|]. split; [done|]. intros value. by rewrite IH.
Qed.

Lemma get_header_app name l r : get_header (l ++ r) name = match get_header l name with Some v => Some v | None => get_header r name end.
Proof. induction l as [|h l IH]; [done|]. cbn [app get_header]. by destruct (strcaseeq (h_name h) name). Qed.

Lemma get_header_absent name hs : absent name hs -> get_header hs name = None.
Proof. induction 1 as [|h hs Eh _ IH]; [done|]. cbn [get_header]. by rewrite Eh. Qed.

Lemma strcaseeq_trans a b c : strcaseeq a b = true -> strcaseeq a c = strcaseeq b c.
Proof. rewrite strcaseeq_spec. unfold strcaseeq. by intros ->. Qed.

Lemma header_set_cases cl name value len :
  let hs := cl.(c_response).(r_headers) in
  (absent name hs /\
   iwn_http_response_header_set cl name value len = set_headers cl (mkHeader (map lower name) (arg_len value len) :: hs)) \/
  (exists l h r, hs = l ++ h :: r /\ absent name l /\ strcaseeq h.(h_name) name = true /\
     iwn_http_response_header_set cl name value len = set_headers cl (l ++ mkHeader h.(h_name) (arg_len value len) :: r)).
Proof.
  intros hs. unfold iwn_http_response_header_set. destruct (replace_header_cases hs name) as [(Ha & E)|(l & h & r & Eq & Ha & Eh & E)].
  - left. split; [done|]. fold hs. by rewrite E.
  - right. exists l, h, r. do 3 (split; [done|]). fold hs. by rewrite E.
Qed.

Lemma header_set_get cl name value len name' :
  iwn_http_response_header_get (iwn_http_response_header_set cl name value len) name' =
  if strcaseeq name name' then Some (cstr (arg_len value len)) else iwn_http_response_header_get cl name'.
Proof.
  unfold iwn_http_response_header_get.
  destruct (header_set_cases cl name value len) as [(Ha & ->)|(l & h & r & Eq & Ha & Eh & ->)]; cbn [set_headers c_response r_headers].
  - cbn [get_header h_name h_value]. by rewrite strcaseeq_lower_l.
  - rewrite Eq, !get_header_app. cbn [get_header h_name h_value]. rewrite (strcaseeq_trans _ _ name' Eh).
    destruct (strcaseeq name name') eqn:En; [|done].
    assert (get_header l name' = None) as ->; [|done]. apply get_header_absent. eapply Forall_impl; [exact Ha|].
    intros x Hx. apply strcaseeq_spec in En. unfold strcaseeq in *. by rewrite <- En.
Qed.

Lemma header_set_set cl name value len value' len' :
  iwn_http_response_header_set (iwn_http_response_header_set cl name value len) name value' len' =
  iwn_http_response_header_set cl name value' len'.
Proof.
  unfold iwn_http_response_header_set at 1 3.
  destruct (header_set_cases cl name value len) as [(Ha & ->)|(l & h & r & Eq & Ha & Eh & ->)]; cbn [set_headers c_response r_headers].
  - cbn [replace_header h_name]. rewrite strcaseeq_lower_l, strcaseeq_refl.
    destruct (replace_header_cases (r_headers (c_response cl)) name) as [(_ & E)|(l & h & r & Eq & _ & Eh & _)]; [by rewrite E|].
    rewrite Eq in Ha. apply Forall_app in Ha as [_ Ha]. apply Forall_cons in Ha as [Ha _]. congruence.
  - assert (forall v x, replace_header (l ++ mkHeader (h_name h) x :: r) name v = Some (l ++ mkHeader (h_name h) v :: r)) as Hr.
    { intros v x. clear Eq. induction Ha as [|y l Hy _ IH]; cbn [app replace_header h_name]; [by rewrite Eh|]. by rewrite Hy, IH. }
    rewrite Hr, Eq. destruct h as [hn hv]. by rewrite Hr.
Qed.

Lemma absent_filter name hs : absent name hs -> List.filter (fun h => strcaseeq h.(h_name) name) hs = [].
Proof. induction 1 as [|h hs Eh _ IH]; [done|]. cbn [List.filter]. by rewrite Eh. Qed.

(** The header list of a response is a map with case-insensitive keys: after
    [iwn_http_response_header_set] the name gives the (C string) value, every other name what it
    gave before, setting twice is setting the second value, and setting never makes a second
    entry of the same name. *)
Theorem response_headers_map cl name value len :
  let cl' := iwn_http_response_header_set cl name value len in
  (forall name', iwn_http_response_header_get cl' name' =
     if strcaseeq name name' then Some (cstr (arg_len value len)) else iwn_http_response_header_get cl name') /\
  (forall value' len', iwn_http_response_header_set cl' name value' len' =
     iwn_http_response_header_set cl name value' len') /\
  length (List.filter (fun h => strcaseeq h.(h_name) name) cl'.(c_response).(r_headers)) =
    Nat.max 1 (length (List.filter (fun h => strcaseeq h.(h_name) name) cl.(c_response).(r_headers))).
Proof.
  intros cl'. split; [apply header_set_get|]. split; [apply header_set_set|]. unfold cl'.
  destruct (header_set_cases cl name value len) as [(Ha & ->)|(l & h & r & Eq & Ha & Eh & ->)]; cbn [set_headers c_response r_headers].
  - cbn [List.filter h_name]. rewrite strcaseeq_lower_l, strcaseeq_refl. cbn [length].
    by rewrite (absent_filter name (r_headers (c_response cl))).
  - rewrite Eq, !List.filter_app, !length_app. cbn [List.filter h_name]. rewrite Eh. cbn [length]. lia.
Qed.

(** ** Numbers *)

Section Numbers.
Context (base : Z) (dv : Z -> Z) (Hbase : 2 <= base) (Hdv : forall d, 0 <= d < base -> dv (digit_char d) = d).

Definition num_value (acc : Z) (w : list Z) : Z := fold_left (fun a c => a * base + dv c) w acc.

Lemma print_base_value fuel : forall n acc, 0 <= n < base ^ Z.of_nat fuel -> num_value 0 (print_base fuel base n acc) = num_value n acc.
Proof using Hbase Hdv.
  induction fuel as [|fuel IH]; intros n acc Hn.
  { change (base ^ Z.of_nat 0) with 1 in Hn. by replace n with 0 by lia. }
  cbn [print_base]. destruct (Z.ltb_spec n base).
  - cbn [num_value fold_left]. rewrite Hdv by lia. by rewrite Z.mul_0_l.
  - rewrite IH.
    + cbn [num_value fold_left]. rewrite Hdv by (apply Z.mod_pos_bound; lia). by rewrite (Z.mul_comm _ base), <- Z.div_mod by lia.
    + rewrite Nat2Z.inj_succ, Z.pow_succ_r in Hn by lia. split; [apply Z.div_pos; lia|]. apply Z.div_lt_upper_bound; lia.
Qed.

Lemma print_base_all (P : Z -> Prop) fuel : (forall d, 0 <= d < base -> P (digit_char d)) ->
  forall n acc, 0 <= n -> Forall P acc -> Forall P (print_base fuel base n acc).
Proof using Hbase.
  intros HP. induction fuel as [|fuel IH]; intros n acc Hn Ha; [done|]. cbn [print_base]. destruct (Z.ltb_spec n base).
  - constructor; [apply HP; lia|done].
  - apply IH; [apply Z.div_pos; lia|]. constructor; [|done]. apply HP, Z.mod_pos_bound. lia.
Qed.
End Numbers.

Lemma digit_char_dec d : 0 <= d < 10 -> digit_char d - 48 = d.
Proof. unfold digit_char. intros. destruct (Z.ltb_spec d 10); lia. Qed.

Lemma digit_char_hex d : 0 <= d < 16 -> hex_digit_value (digit_char d) = Some d.
Proof.
  intros Hd. assert (In d (map Z.of_nat (seq 0 16))) as Hin.
  { apply in_map_iff. exists (Z.to_nat d). split; [lia|]. apply in_seq. lia. }
  cbn in Hin. repeat destruct Hin as [<-|Hin]; done.
Qed.

Lemma print_dec_value n : 0 <= n < 2 ^ 63 -> dec_value 0 (print_int n) = n.
Proof.
  intros Hn. unfold print_int. destruct (Z.ltb_spec n 0); [lia|]. unfold print_nat.
  apply (print_base_value 10 (fun c => c - 48) ltac:(lia) digit_char_dec 64 n []).
  split; [lia|]. transitivity (2 ^ 63); [lia|]. by vm_compute.
Qed.

(** ** Delivery *)

(** The transport takes the bytes it is given in order, in pieces; a refusal uses up [sk_budget],
    so it does not refuse for ever; writing does not
    change what the application keeps in the world ([sk_app]).  Nothing else is between the session and the peer ([pa_pending]
    is false, arming succeeds). *)
Class NetSink {U A : Type} (ops : session_ops U) := {
  sk_wire : U -> list Z;
  sk_app : U -> A;
  sk_budget : U -> nat;
  sk_write u d : d <> [] -> exists u' n, ops.(pa_write) u d = (u', n, false) /\ sk_app u' = sk_app u /\
    ((n <= 0 /\ sk_wire u' = sk_wire u /\ (sk_budget u' < sk_budget u)%nat) \/
     (0 < n <= zlen d /\ sk_wire u' = sk_wire u ++ take (Z.to_nat n) d /\ (sk_budget u' <= sk_budget u)%nat));
  sk_pending u : ops.(pa_pending) u = false;
  sk_arm u : exists u', ops.(pa_arm) u = (u', true) /\ sk_app u' = sk_app u /\ sk_wire u' = sk_wire u /\ sk_budget u' = sk_budget u }.

Section Deliver.
Context {U A : Type} (ops : session_ops U) (rops : read_ops U) `{!NetSink (A := A) ops} (sp : spec).

Definition plain_response (cl : client) : Prop :=
  Z.land cl.(c_flags) (Z.lor HTTP_CHUNKED_RESPONSE HTTP_STREAM_RESPONSE) = 0 /\ cl.(c_completed) = None.

(** The session while [text] is being sent, [k] bytes of it taken. *)
Record sending (text : list Z) (k : Z) (cl : client) : Prop := {
  sd_state : cl.(c_state) = HTTP_SESSION_WRITE;
  sd_buf : cl.(c_stream).(s_buf) = text;
  sd_length : cl.(c_stream).(s_length) = zlen text;
  sd_done : cl.(c_stream).(s_bytes_total) = k;
  sd_range : 0 <= k <= zlen text }.

(** How a session goes on after a response. *)
Definition finish (cl : client) : client :=
  if has_flag cl HTTP_KEEP_ALIVE then {| cl with c_state := HTTP_SESSION_INIT |} else set_flag cl HTTP_END_SESSION.

(** The session after the response: ready for the next request, or at its end. *)
Definition finished (flags : Z) (cl : client) : Prop :=
  if negb (Z.land flags HTTP_KEEP_ALIVE =? 0) then cl.(c_state) = HTTP_SESSION_INIT /\ cl.(c_flags) = flags
  else has_flag cl HTTP_END_SESSION = true.

Lemma end_flag cl : has_flag (set_flag cl HTTP_END_SESSION) HTTP_END_SESSION = true.
Proof.
  unfold has_flag, set_flag. cbn [c_flags]. apply negb_true_iff, Z.eqb_neq. intros E.
  apply (f_equal (fun x => Z.testbit x 2)) in E. rewrite Z.land_spec, Z.lor_spec, Z.bits_0 in E.
  change (Z.testbit HTTP_END_SESSION 2) with true in E. by rewrite orb_true_r in E.
Qed.

Lemma finish_finished cl : finished cl.(c_flags) (finish cl).
Proof. unfold finished, finish. fold (has_flag cl HTTP_KEEP_ALIVE). destruct (has_flag cl HTTP_KEEP_ALIVE); [done|]. apply end_flag. Qed.

(** The end of the response, once every byte has been taken. *)
Lemma write_end f u cl text :
  sending text (zlen text) cl -> plain_response cl -> _client_write ops (S f) u cl = Some (u, finish cl).
Proof.
  intros [Hst Hb Hl Hd _] [Hpl Hco]. cbn [_client_write]. unfold _client_write_bytes. rewrite Hd, Hl, Z.ltb_irrefl. cbn [mbind option_bind negb].
  rewrite Hd, Hl, Z.eqb_refl, sk_pending, Hpl, Hco. cbn [negb orb Z.eqb]. unfold finish. destruct (has_flag cl HTTP_KEEP_ALIVE); by rewrite ?Hco.
Qed.

Definition taken (cl : client) (k : Z) : client := {| cl with c_stream := {| cl.(c_stream) with s_bytes_total := k |} |}.

(** One call of [write]: the session waits, or goes on as if nothing had been left to send. *)
Lemma write_step f u cl text k :
  sending text k cl -> k < zlen text ->
  exists u' k', k <= k' <= zlen text /\ sk_app u' = sk_app u /\ sk_wire u' = sk_wire u ++ slice text k k' /\
    (Z.to_nat (zlen text - k') + sk_budget u' < Z.to_nat (zlen text - k) + sk_budget u)%nat /\
    sending text k' (taken cl k') /\
    _client_write ops (S f) u cl =
      if k' =? zlen text then _client_write ops (S f) u' (taken cl k') else Some (u', taken cl k').
Proof.
  intros [Hst Hb Hl Hd Hr] Hk.
  assert (zlen (slice text k (zlen text)) = zlen text - k) as Hz by (apply slice_length; lia).
  destruct (sk_write u (slice text k (zlen text))) as (u1 & n & Ew & Hap & Hn).
  { intros E. rewrite E in Hz. change (zlen (@nil Z)) with 0 in Hz. lia. }
  assert (forall k', 0 <= k' <= zlen text -> sending text k' (taken cl k')) as Hs by (intros k' Hk'; by constructor).
  assert (taken cl k = cl) as Hsame by (destruct cl as [[]]; cbn in *; by subst).
  assert (_client_write_bytes ops u cl = Some (u1, if 0 <? n then taken cl (k + n) else cl, true)) as Eb.
  { unfold _client_write_bytes. rewrite Hd, Hl, Hb, (proj2 (Z.ltb_lt k (zlen text)) Hk), (proj2 (Z.ltb_ge k 0)), Z.ltb_irrefl by lia.
    cbn [orb]. rewrite Ew. unfold taken. by rewrite Hl, Hb. }
  destruct (sk_arm u1) as (u2 & Ea & Hap2 & Hw2 & Hb2). destruct Hn as [(Hn & Hw & Hbud)|(Hn & Hw & Hbud)].
  - rewrite (proj2 (Z.ltb_ge 0 n)) in Eb by lia. exists u2, k. split; [lia|]. split; [congruence|]. split; [by rewrite slice_empty, app_nil_r, Hw2|].
    split; [lia|]. split; [by apply Hs|]. rewrite Hsame, (proj2 (Z.eqb_neq k (zlen text))) by lia.
    cbn [_client_write]. rewrite Eb. cbn [mbind option_bind negb]. rewrite Hd, Hl, (proj2 (Z.eqb_neq k (zlen text))) by lia. cbn [negb orb]. by rewrite Ea.
  - rewrite (proj2 (Z.ltb_lt 0 n)) in Eb by lia.
    assert (take (Z.to_nat n) (slice text k (zlen text)) = slice text k (k + n)) as Et by (apply slice_take; lia).
    destruct (Z.eqb_spec (k + n) (zlen text)) as [E|E].
    + exists u1, (k + n). rewrite Hw, Et. split; [lia|]. split; [done|]. split; [done|]. split; [lia|]. split; [apply Hs; lia|].
      rewrite E, Z.eqb_refl. rewrite E in Eb. assert (_client_write_bytes ops u1 (taken cl (zlen text)) = Some (u1, taken cl (zlen text), true)) as Eb2.
      { unfold _client_write_bytes. cbn [taken c_stream s_bytes_total s_length]. by rewrite Hl, Z.ltb_irrefl. }
      cbn [_client_write]. by rewrite Eb, Eb2.
    + exists u2, (k + n). rewrite Hw2, Hw, Et. split; [lia|]. split; [congruence|]. split; [done|]. split; [lia|]. split; [apply Hs; lia|].
      rewrite (proj2 (Z.eqb_neq _ _) E). cbn [_client_write]. rewrite Eb. cbn [mbind option_bind negb taken c_stream s_bytes_total s_length].
      rewrite Hl, (proj2 (Z.eqb_neq _ _) E). cbn [negb orb]. by rewrite Ea.
Qed.

(** The transport becomes writable [n] times. *)
Fixpoint writable (fuel n : nat) (u : U) (cl : client) : option (U * client) :=
  match n with
  | O => Some (u, cl)
  | S n => '(u, cl, _) ← _client_on_poller_adapter_event ops rops sp fuel u cl; writable fuel n u cl
  end.

Lemma event_writing fuel u cl :
  cl.(c_state) = HTTP_SESSION_WRITE ->
  _client_on_poller_adapter_event ops rops sp fuel u cl =
  '(u, cl) ← _client_write ops fuel u cl; Some (u, cl, if has_flag cl HTTP_END_SESSION then -1 else 0).
Proof. intros Hst. unfold _client_on_poller_adapter_event. rewrite Hst. done. Qed.

(** The response goes out piece by piece until only the end of [_client_write] is left to do. *)
Lemma write_reaches f text : forall m u cl k,
  (Z.to_nat (zlen text - k) + sk_budget u <= m)%nat -> sending text k cl ->
  exists n u', ('(u, cl) ← _client_write ops (S f) u cl; writable (S f) n u cl) = _client_write ops (S f) u' (taken cl (zlen text)) /\
    sk_wire u' = sk_wire u ++ slice text k (zlen text) /\ sk_app u' = sk_app u /\ sending text (zlen text) (taken cl (zlen text)).
Proof.
  assert (forall o : option (U * client), ('(u, cl) ← o; writable (S f) 0 u cl) = o) as Hend by (by intros [[]|]).
  induction m as [|m IH]; intros u cl k Hm Hs; pose proof Hs as [Hst Hb Hl Hd Hr].
  all: destruct (Z.eqb_spec k (zlen text)) as [->|Hk].
  1, 3: exists 0%nat, u; assert (taken cl (zlen text) = cl) as -> by (destruct cl as [[]]; cbn in *; by subst); rewrite Hend;
    split; [done|]; split; [by rewrite slice_empty, app_nil_r|done].
  { lia. }
  destruct (write_step f u cl text k Hs) as (u1 & k1 & Hk1 & Hap1 & Hw1 & Hm1 & Hs1 & E1); [lia|]. rewrite E1.
  destruct (Z.eqb_spec k1 (zlen text)) as [->|Hk2].
  - exists 0%nat, u1. by rewrite Hend.
  - destruct (IH u1 _ k1 ltac:(lia) Hs1) as (n & u' & E & Hw & Hap & Hs'). exists (S n), u'. change (taken (taken cl k1)) with (taken cl) in *.
    split; [|split; [|split; [congruence|done]]].
    + cbn [mbind option_bind writable]. rewrite event_writing by done. rewrite <- E. by destruct (_client_write ops (S f) u1 _) as [[u2 cl2]|].
    + rewrite Hw, Hw1, <- app_assoc, slice_join by lia. done.
Qed.

Lemma write_whole f text m u cl k :
  (Z.to_nat (zlen text - k) + sk_budget u <= m)%nat -> sending text k cl -> plain_response cl ->
  exists n u' cl', ('(u, cl) ← _client_write ops (S f) u cl; writable (S f) n u cl) = Some (u', cl') /\
    sk_wire u' = sk_wire u ++ slice text k (zlen text) /\ finished cl.(c_flags) cl'.
Proof.
  intros Hm Hs Hp. destruct (write_reaches f text m u cl k Hm Hs) as (n & u' & E & Hw & _ & Hs').
  exists n, u'. rewrite E, (write_end f u' _ text Hs' Hp). eexists. split; [done|]. split; [done|]. apply (finish_finished (taken cl (zlen text))).
Qed.
End Deliver.

(** ** The text of a response *)

Definition reply_text (code : Z) (reason date : list Z) (fields : list header) (body : list Z) : list Z :=
  bytes_of_string "HTTP/1.1 " ++ print_int code ++ [32] ++ reason ++ CRLF ++ bytes_of_string "date: " ++ date ++ CRLF ++
  (fields ≫= print_header) ++ CRLF ++ body.

Definition content_length_field (n : Z) : header := mkHeader (bytes_of_string "content-length") (print_int n).

(** Whether the session is to be kept after the response: what the application has set, or what
    the request asks for. *)
Definition keeps (cl : client) : option bool :=
  if has_flag cl HTTP_AUTOMATIC then cl1 ← _client_autodetect_keep_alive cl; Some (has_flag cl1 HTTP_KEEP_ALIVE)
  else Some (has_flag cl HTTP_KEEP_ALIVE).

Lemma print_int_nonzero n : 0 <= n -> Forall (fun c => c <> 0) (print_int n).
Proof.
  intros Hn. unfold print_int. destruct (Z.ltb_spec n 0); [lia|]. apply (print_base_all 10 ltac:(lia)); [|lia|constructor].
  intros d Hd. unfold digit_char. destruct (d <? 10); lia.
Qed.

(** Bits of the flags. *)
Lemma land_bits_ldiff a b m : Z.land b m = 0 -> Z.land (Z.ldiff a b) m = Z.land a m.
Proof.
  intros E. apply Z.bits_inj'. intros n Hn. apply (f_equal (fun x => Z.testbit x n)) in E. rewrite Z.land_spec, Z.bits_0 in E.
  rewrite !Z.land_spec, Z.ldiff_spec. destruct (Z.testbit a n), (Z.testbit b n), (Z.testbit m n); done.
Qed.
Lemma land_bits_lor a b m : Z.land b m = 0 -> Z.land (Z.lor a b) m = Z.land a m.
Proof.
  intros E. apply Z.bits_inj'. intros n Hn. apply (f_equal (fun x => Z.testbit x n)) in E. rewrite Z.land_spec, Z.bits_0 in E.
  rewrite !Z.land_spec, Z.lor_spec. destruct (Z.testbit a n), (Z.testbit b n), (Z.testbit m n); done.
Qed.

(** The flags with the decision about the connection. *)
Definition with_keep (fl : Z) (keep : bool) : Z := if keep then Z.lor fl HTTP_KEEP_ALIVE else Z.ldiff fl HTTP_KEEP_ALIVE.

Lemma with_keep_flag fl keep : negb (Z.land (with_keep fl keep) HTTP_KEEP_ALIVE =? 0) = keep.
Proof.
  assert (forall x, Z.land x HTTP_KEEP_ALIVE = if Z.testbit x 0 then 1 else 0) as Hl.
  { intros x. change HTTP_KEEP_ALIVE with (Z.ones 1). rewrite Z.land_ones by lia. change (2 ^ 1) with 2. rewrite Z.bit0_odd, Zmod_odd. done. }
  rewrite Hl. unfold with_keep. destruct keep; rewrite ?Z.lor_spec, ?Z.ldiff_spec; change (Z.testbit HTTP_KEEP_ALIVE 0) with true;
    by rewrite ?orb_true_r, ?andb_false_r.
Qed.

Lemma with_keep_other fl keep m : Z.land HTTP_KEEP_ALIVE m = 0 -> Z.land (with_keep fl keep) m = Z.land fl m.
Proof. intros E. destruct keep; [by apply land_bits_lor|by apply land_bits_ldiff]. Qed.

Lemma with_keep_same fl : with_keep fl (negb (Z.land fl HTTP_KEEP_ALIVE =? 0)) = fl.
Proof.
  apply Z.bits_inj'. intros n Hn. destruct (Z.eqb_spec (Z.land fl HTTP_KEEP_ALIVE) 0) as [E|E]; cbn [negb with_keep].
  - rewrite Z.ldiff_spec. apply (f_equal (fun x => Z.testbit x n)) in E. rewrite Z.land_spec, Z.bits_0 in E.
    destruct (Z.testbit fl n), (Z.testbit HTTP_KEEP_ALIVE n); done.
  - rewrite Z.lor_spec. destruct (Z.eq_dec n 0) as [->|Hn0].
    + destruct (Z.testbit fl 0) eqn:E0; [done|]. exfalso. apply E. change HTTP_KEEP_ALIVE with (Z.ones 1).
      rewrite Z.land_ones by lia. change (2 ^ 1) with 2. rewrite Zmod_odd, <- Z.bit0_odd, E0. done.
    + change HTTP_KEEP_ALIVE with (2 ^ 0). rewrite Z.pow2_bits_false by lia. apply orb_false_r.
Qed.

(** The two flags the decision depends on. *)
Definition same_mode (a b : Z) : Prop := Z.land a HTTP_AUTOMATIC = Z.land b HTTP_AUTOMATIC /\ Z.land a HTTP_KEEP_ALIVE = Z.land b HTTP_KEEP_ALIVE.

(** What [_client_response_headers_write_http] makes of the flags. *)
Lemma settle_flags cl cl0 keep :
  keeps cl = Some keep -> cl0.(c_stream) = cl.(c_stream) -> cl0.(c_tokens) = cl.(c_tokens) -> same_mode cl0.(c_flags) cl.(c_flags) ->
  (if has_flag cl0 HTTP_AUTOMATIC then _client_autodetect_keep_alive cl0 else Some cl0) =
  Some {| cl0 with c_flags := with_keep cl0.(c_flags) keep |}.
Proof.
  intros Hk Es Et [Ef Eg]. unfold keeps, has_flag at 1 in Hk. unfold has_flag at 1. rewrite Ef.
  assert (with_keep (c_flags cl0) (has_flag cl HTTP_KEEP_ALIVE) = c_flags cl0) as Hsame.
  { unfold has_flag. rewrite <- Eg. apply with_keep_same. }
  destruct (negb (Z.land (c_flags cl) HTTP_AUTOMATIC =? 0)).
  2: { injection Hk as <-. rewrite Hsame. by destruct cl0. }
  unfold _client_autodetect_keep_alive, iwn_http_request_header_get, _token_get_string in *. rewrite <- Es, <- Et in Hk.
  destruct (list_find _ (c_tokens cl0)) as [[i t]|]; cbn [mbind option_bind fmap option_fmap option_map] in *.
  2: { injection Hk as <-. rewrite Hsame. by destruct cl0. }
  destruct (token_bytes (c_stream cl0) t) as [v|]; cbn [mbind option_bind fmap option_fmap option_map] in *; [|done].
  destruct (rd v _) as [lst|]; cbn [mbind option_bind] in *; [|done].
  destruct (find_header _ _ _) as [val|]; cbn [mbind option_bind] in *; [|done].
  injection Hk as <-. destruct (_ || _); unfold has_flag, clear_flag, set_flag; cbn [c_flags].
  - change (Z.ldiff (c_flags cl) HTTP_KEEP_ALIVE) with (with_keep (c_flags cl) false). by rewrite with_keep_flag.
  - change (Z.lor (c_flags cl) HTTP_KEEP_ALIVE) with (with_keep (c_flags cl) true). by rewrite with_keep_flag.
Qed.

Lemma keeps_same cl cl0 keep :
  keeps cl = Some keep -> cl0.(c_stream) = cl.(c_stream) -> cl0.(c_tokens) = cl.(c_tokens) -> same_mode cl0.(c_flags) cl.(c_flags) ->
  keeps cl0 = Some keep.
Proof.
  intros Hk Es Et Ef. pose proof (settle_flags cl cl0 keep Hk Es Et Ef) as E. unfold keeps.
  destruct (has_flag cl0 HTTP_AUTOMATIC).
  - rewrite E. cbn [mbind option_bind]. f_equal. apply with_keep_flag.
  - injection E as E. apply (f_equal c_flags) in E. cbn [c_flags] in E. f_equal. unfold has_flag. rewrite E. apply with_keep_flag.
Qed.

Section Reply.
Context {U A : Type} (ops : session_ops U) (rops : read_ops U) `{!NetSink (A := A) ops} (sp : spec).
Context (Hhook : forall u cl, ops.(headers_hook) u cl = (u, cl)).

(** The application has neither asked for an upgrade nor set the length itself. *)
Definition answerable (cl : client) : Prop :=
  has_flag cl HTTP_UPGRADE = false /\ get_header cl.(c_response).(r_headers) (bytes_of_string "content-length") = None.

(** A session that is ready to answer with a plain response: no streaming, no completion callback. *)
Definition ready (cl : client) : Prop :=
  Z.land cl.(c_flags) (Z.lor (Z.lor HTTP_CHUNKED_RESPONSE HTTP_STREAM_RESPONSE) HTTP_HAS_CONTENT_LEN) = 0 /\
  answerable cl /\ cl.(c_completed) = None.

(** The [content-length] field the session adds itself. *)
Definition length_fields (cl : client) : list header :=
  if Z.land cl.(c_flags) (Z.lor (Z.lor HTTP_CHUNKED_RESPONSE HTTP_STREAM_RESPONSE) HTTP_HAS_CONTENT_LEN) =? 0
  then [content_length_field cl.(c_response).(r_body_len)] else [].

Definition connection_value (keep : bool) : list Z := if keep then bytes_of_string "keep-alive" else bytes_of_string "close".

Lemma headers_text_gen u cl keep reason :
  get_header cl.(c_response).(r_headers) (bytes_of_string "content-length") = None -> keeps cl = Some keep ->
  0 < cl.(c_response).(r_code) -> _status_text cl.(c_response).(r_code) = Some reason -> 0 <= cl.(c_response).(r_body_len) < 2 ^ 31 ->
  let cl0 := {| cl with c_flags := with_keep cl.(c_flags) keep |} in
  let conn := connection_header cl0 in
  let cl1 := iwn_http_response_header_set cl0 (bytes_of_string "connection") conn (zlen conn) in
  _client_response_headers_write_http ops u cl =
  Some (u, cl1, reply_text cl.(c_response).(r_code) reason (ops.(server_time) u)
                  (cl1.(c_response).(r_headers) ++ length_fields cl) []).
Proof using Hhook.
  intros Hcl Hk Hcode Hreason Hlen cl0 conn cl1. unfold _client_response_headers_write_http, iwn_http_response_header_get.
  rewrite Hcl. change (0 <? zlen (default [] None)) with false. cbv iota.
  rewrite (settle_flags cl cl keep Hk) by done. cbn [mbind option_bind]. rewrite Hhook.
  fold cl0 conn cl1. change (r_code (c_response cl1)) with (r_code (c_response cl)). rewrite (proj2 (Z.eqb_neq _ _)) by lia.
  change (r_code (c_response cl1)) with (r_code (c_response cl)).
  rewrite Hreason. cbn [mbind option_bind]. f_equal. f_equal. unfold reply_text. do 9 f_equal.
  unfold _client_response_headers_write, length_fields. change (c_flags cl1) with (with_keep cl.(c_flags) keep). rewrite with_keep_other by done.
  rewrite bind_app, <- !app_assoc. f_equal. destruct (_ =? 0); [|done]. change (r_body_len (c_response cl1)) with (r_body_len (c_response cl)).
  rewrite i32_small by lia. unfold content_length_field. csimpl. unfold print_header. cbn [h_name h_value].
  rewrite (cstr_nonzero (print_int _)) by (apply print_int_nonzero; lia). rewrite app_nil_r.
  change (cstr (bytes_of_string "content-length")) with (bytes_of_string "content-length").
  change (bytes_of_string "content-length: ") with (bytes_of_string "content-length" ++ [58; 32]). by rewrite <- !app_assoc.
Qed.

Lemma headers_text u cl keep reason :
  answerable cl -> keeps cl = Some keep -> 0 < cl.(c_response).(r_code) -> _status_text cl.(c_response).(r_code) = Some reason ->
  0 <= cl.(c_response).(r_body_len) < 2 ^ 31 ->
  let conn := connection_value keep in
  let cl1 := iwn_http_response_header_set {| cl with c_flags := with_keep cl.(c_flags) keep |} (bytes_of_string "connection") conn (zlen conn) in
  _client_response_headers_write_http ops u cl =
  Some (u, cl1, reply_text cl.(c_response).(r_code) reason (ops.(server_time) u)
                  (cl1.(c_response).(r_headers) ++ length_fields cl) []).
Proof using Hhook.
  intros (Hup & Hcl) Hk Hcode Hreason Hlen conn cl1. rewrite (headers_text_gen u cl keep reason) by done.
  assert (connection_header {| cl with c_flags := with_keep cl.(c_flags) keep |} = conn) as ->; [|done].
  unfold connection_header, has_flag in *. cbn [c_flags]. rewrite with_keep_other, Hup, with_keep_flag by done. by destruct keep.
Qed.

(** The body as it is on the wire. *)
Lemma body_set_bytes cl body :
  body <> [] \/ cl.(c_response).(r_body_len) = 0 ->
  let cl1 := iwn_http_response_body_set cl (Some body) (zlen body) in
  body_bytes cl1.(c_response) = Some body /\ cl1.(c_response).(r_body_len) = zlen body /\
  cl1 = {| cl with c_response := {| cl.(c_response) with r_body := cl1.(c_response).(r_body); r_body_len := cl1.(c_response).(r_body_len) |} |}.
Proof.
  intros Hb. unfold iwn_http_response_body_set, iwn_http_response_body_clear, body_bytes.
  destruct body as [|c body]; cbn [r_body r_body_len c_response].
  - destruct Hb as [?|Hb]; [done|]. change (zlen (@nil Z)) with 0. by rewrite Z.eqb_refl.
  - assert (0 < zlen (c :: body)) as Hz by (rewrite zlen_cons; pose proof (zlen_nonneg body); lia).
    rewrite (proj2 (Z.eqb_neq _ _)), (proj2 (Z.ltb_ge _ _)) by lia. cbn [c_response r_body r_body_len]. rewrite Z.leb_refl. split; [|done].
    unfold zlen. rewrite Nat2Z.id. by rewrite take_ge.
Qed.

Lemma reply_text_body code reason date fields body : reply_text code reason date fields [] ++ body = reply_text code reason date fields body.
Proof. unfold reply_text. by rewrite <- !app_assoc. Qed.

(** [iwn_http_response_write] on a ready session: the buffer it starts to send. *)
Lemma response_write_text f u cl code ct body keep :
  ready cl -> keeps cl = Some keep -> 0 <= code <= 599 -> ct <> [] -> Forall (fun c => c <> 0) ct ->
  body <> [] \/ cl.(c_response).(r_body_len) = 0 -> zlen body < 2 ^ 31 ->
  exists reason hs cl1,
    let code' := if code =? 0 then 200 else code in
    let text := reply_text code' reason (ops.(server_time) u) (hs ++ [content_length_field (zlen body)]) body in
    _status_text code' = Some reason /\
    (forall n, get_header hs n =
       if strcaseeq (bytes_of_string "connection") n then Some (connection_value keep)
       else if strcaseeq (bytes_of_string "content-type") n then Some ct else get_header cl.(c_response).(r_headers) n) /\
    sending text 0 cl1 /\ plain_response cl1 /\ cl1.(c_flags) = with_keep cl.(c_flags) keep /\
    iwn_http_response_write ops f u cl code (Some ct) (Some body) (zlen body) =
      '(u, cl) ← _client_write ops f u cl1; Some (u, cl, true).
Proof using Hhook.
  intros Hr Hk Hcode Hct Hct0 Hb Hlen. pose proof Hr as (Hfl & (Hup & Hcl) & Hco).
  set (code' := if code =? 0 then 200 else code).
  assert (0 < code' <= 599) as Hcode' by (unfold code'; destruct (Z.eqb_spec code 0); lia).
  assert (exists reason, _status_text code' = Some reason) as [reason Hreason].
  { unfold _status_text. rewrite (proj2 (Z.ltb_ge code' 0)), (proj2 (Z.leb_gt 600 code')) by lia. cbn [orb].
    repeat (destruct (code' =? _); [by eexists|]). by eexists. }
  set (cla := {| cl with c_response := {| cl.(c_response) with r_code := code' |} |}).
  set (clb := iwn_http_response_header_set cla (bytes_of_string "content-type") ct (-1)).
  destruct (body_set_bytes clb body Hb) as (Hbb & Hbl & Hframe). set (clc := iwn_http_response_body_set clb (Some body) (zlen body)) in *.
  assert (forall n, get_header (r_headers (c_response clb)) n =
    if strcaseeq (bytes_of_string "content-type") n then Some ct else get_header (r_headers (c_response cl)) n) as Hget.
  { intros n. unfold clb. etransitivity; [apply header_set_get|]. change (arg_len ct (-1)) with (cstr ct). by rewrite !cstr_nonzero by (rewrite ?cstr_nonzero; done). }
  assert (ready clc) as Hrc.
  { rewrite Hframe. split; [done|]. split; [|done]. split; [done|]. cbn [c_response r_headers]. rewrite Hget. done. }
  assert (keeps clc = Some keep) as Hkc.
  { apply (keeps_same cl); [done|rewrite Hframe; done..]. }
  assert (r_code (c_response clc) = code') as Ecode by (rewrite Hframe; done).
  pose proof (zlen_nonneg body).
  set (cld := iwn_http_response_header_set {| clc with c_flags := with_keep clc.(c_flags) keep |} (bytes_of_string "connection") (connection_value keep)
    (zlen (connection_value keep))).
  exists reason, (r_headers (c_response cld)).
  exists (_client_response_setbuf cld (reply_text code' reason (server_time ops u) (r_headers (c_response cld) ++ [content_length_field (zlen body)]) body)).
  cbv zeta. split; [done|]. split; [|split; [|split; [|split]]].
  - intros n. etransitivity; [apply header_set_get|]. rewrite arg_len_all.
    assert (cstr (connection_value keep) = connection_value keep) as -> by (by destruct keep).
    assert (iwn_http_response_header_get {| clc with c_flags := with_keep clc.(c_flags) keep |} n = get_header (r_headers (c_response clb)) n) as ->
      by (rewrite Hframe; done). by rewrite Hget.
  - by constructor.
  - split; [|exact (proj2 (proj2 Hrc))].
    change (Z.land (with_keep (c_flags clc) keep) (Z.lor HTTP_CHUNKED_RESPONSE HTTP_STREAM_RESPONSE) = 0).
      rewrite with_keep_other by done. assert (c_flags clc = c_flags cl) as -> by (rewrite Hframe; done).
      apply Z.bits_inj'. intros n Hn. apply (f_equal (fun x => Z.testbit x n)) in Hfl. revert Hfl. rewrite !Z.land_spec, !Z.lor_spec, Z.bits_0.
      destruct (Z.testbit (c_flags cl) n), (Z.testbit HTTP_CHUNKED_RESPONSE n), (Z.testbit HTTP_STREAM_RESPONSE n); done.
  - unfold cld. rewrite Hframe. done.
  - unfold iwn_http_response_write, iwn_http_response_code_set. rewrite (proj2 (Z.ltb_ge code 0)), (proj2 (Z.ltb_ge 599 code)) by lia. cbn [orb].
    change (negb (0 =? 0)) with false. cbv iota. fold code' cla. change (default (bytes_of_string "text/plain") (Some ct)) with ct.
    assert (0 < zlen ct) by (destruct ct; [done|rewrite zlen_cons; pose proof (zlen_nonneg ct); lia]).
    rewrite (proj2 (Z.eqb_neq (zlen ct) 0)) by lia. fold clb clc. unfold iwn_http_response_end.
    rewrite (headers_text u clc keep reason (proj1 (proj2 Hrc)) Hkc); [|lia|by rewrite Ecode|lia]. cbn [mbind option_bind]. fold cld.
    assert (body_bytes (c_response cld) = Some body) as -> by (rewrite <- Hbb; done). cbn [mbind option_bind].
    unfold length_fields. rewrite (proj1 Hrc). by rewrite Ecode, Hbl, reply_text_body.
Qed.
End Reply.

(** C2. A response reaches the peer: on a session that is ready to answer,
    [iwn_http_response_write] and as many writable events as the transport needs put exactly one
    response on the wire, whatever the pieces the transport takes: the status line, the date, the
    header fields of the application with [content-type] and [connection] set, a [content-length]
    that is the length of the body in decimal, and the body; the session then waits for the next
    request or is at its end, as the [connection] field says. *)
Theorem http_response_delivered {U A} (ops : session_ops U) (rops : read_ops U) `{!NetSink (A := A) ops} (sp : spec) (f : nat) (u : U)
    (cl : client) (code : Z) (ct body : list Z) (keep : bool) :
  (forall u cl, ops.(headers_hook) u cl = (u, cl)) ->
  ready cl -> keeps cl = Some keep -> 0 <= code <= 599 -> ct <> [] -> Forall (fun c => c <> 0) ct ->
  body <> [] \/ cl.(c_response).(r_body_len) = 0 -> zlen body < 2 ^ 31 ->
  exists n u' cl' reason hs len,
    let code' := if code =? 0 then 200 else code in
    ('(u, cl, _) ← iwn_http_response_write ops (S f) u cl code (Some ct) (Some body) (zlen body); writable ops rops sp (S f) n u cl) =
      Some (u', cl') /\
    sk_wire u' = sk_wire u ++ reply_text code' reason (ops.(server_time) u) (hs ++ [mkHeader (bytes_of_string "content-length") len]) body /\
    _status_text code' = Some reason /\ dec_value 0 len = zlen body /\
    (forall name, get_header hs name =
       if strcaseeq (bytes_of_string "connection") name then Some (connection_value keep)
       else if strcaseeq (bytes_of_string "content-type") name then Some ct else get_header cl.(c_response).(r_headers) name) /\
    (if keep then cl'.(c_state) = HTTP_SESSION_INIT else has_flag cl' HTTP_END_SESSION = true).
Proof.
  intros Hhook Hr Hk Hcode Hct Hct0 Hb Hlen. pose proof (zlen_nonneg body).
  destruct (response_write_text ops Hhook (S f) u cl code ct body keep Hr Hk Hcode Hct Hct0 Hb Hlen)
    as (reason & hs & cl1 & Hreason & Hhs & Hsend & Hplain & Hfl & E).
  destruct (write_whole ops rops sp f _ _ u cl1 0 (le_n _) Hsend Hplain) as (n & u' & cl' & E2 & Hw & Hfin).
  exists n, u', cl', reason, hs, (print_int (zlen body)). cbv zeta. rewrite E. split; [|split; [|split; [|split; [|split]]]].
  - revert E2. by destruct (_client_write ops (S f) u cl1) as [[u2 cl2]|].
  - by rewrite Hw, slice_full.
  - done.
  - apply print_dec_value. lia.
  - done.
  - unfold finished in Hfin. rewrite Hfl, with_keep_flag in Hfin. destruct keep; [by apply Hfin|done].
Qed.

(** *** A concrete transport, which takes at most ten bytes at a time *)

Definition ten_ops : session_ops (list Z) :=
  mkOps (fun u d => (u ++ take 10 d, Z.min 10 (zlen d), false)) (fun _ => false) (fun u => (u, true)) (fun _ => bytes_of_string "now")
        (fun u cl => (u, cl)) (fun _ _ _ => None) (fun _ _ _ => None).
#[export] Instance ten_sink : NetSink (A := unit) ten_ops.
Proof.
  refine {| sk_wire u := u; sk_app _ := tt; sk_budget _ := 0%nat |}.
  - intros u d Hd. do 2 eexists. split; [reflexivity|]. split; [done|]. right.
    assert (0 < zlen d) by (destruct d; [done|rewrite zlen_cons; pose proof (zlen_nonneg d); lia]).
    split; [lia|]. split; [|done]. f_equal. destruct (Z.min_spec 10 (zlen d)) as [[_ ->]|[Hl ->]]; [done|].
    unfold zlen. rewrite Nat2Z.id. rewrite !take_ge; [done|lia|unfold zlen in Hl; lia].
  - done.
  - intros u. by exists u.
Defined.

Definition no_read : read_ops (list Z) := mkReadOps (fun u _ => (u, inl (-1))) (fun _ _ => None) (fun _ => false).

Lemma http_response_delivered_witness :
  exists n u' cl' reason hs len,
    ('(u, cl, _) ← iwn_http_response_write ten_ops 5 [] (_client_init client_accepted) 404 (Some (bytes_of_string "text/plain")) (Some (bytes_of_string "gone")) 4;
     writable ten_ops no_read (mkSpec 0 0 0 0) 5 n u cl) = Some (u', cl') /\
    u' = [] ++ reply_text 404 reason (bytes_of_string "now") (hs ++ [mkHeader (bytes_of_string "content-length") len]) (bytes_of_string "gone") /\
    _status_text 404 = Some reason /\ dec_value 0 len = 4 /\
    (forall name, get_header hs name =
       if strcaseeq (bytes_of_string "connection") name then Some (connection_value false)
       else if strcaseeq (bytes_of_string "content-type") name then Some (bytes_of_string "text/plain") else None) /\
    has_flag cl' HTTP_END_SESSION = true.
Proof.
  refine (http_response_delivered ten_ops no_read (mkSpec 0 0 0 0) 4 [] (_client_init client_accepted) 404 (bytes_of_string "text/plain")
    (bytes_of_string "gone") false _ _ _ _ _ _ _ _).
  - done.
  - done.
  - done.
  - by vm_compute.
  - done.
  - by apply (bool_decide_eq_true_1 (Forall _ _)).
  - by left.
  - by vm_compute.
Defined.

(** The length of an earlier body is still announced when the next response has none. *)
Example stale_content_length :
  (body ← (let cl := _client_init client_accepted in
           let cl := iwn_http_response_body_set cl (Some (bytes_of_string "abc")) 3 in
           let cl := iwn_http_response_body_set cl None 0 in
           Some (_client_response_headers_write cl));
   Some body) = Some (bytes_of_string "content-length: 3" ++ CRLF ++ CRLF).
Proof. reflexivity. Qed.
