(* ===== verification/HttpChunked.v ===== *)
(** * HttpChunked: chunked responses of [src/src/http/iwn_http_server.c]

    An application that answers with [iwn_http_response_chunk_write] from the chunk callback, and
    what a peer that reads the chunked coding of RFC 9112 gets. *)
From S2P Require Import Prelude HttpParser HttpResponse HttpRead HttpHead HttpReply.

(** ** The chunked coding *)

(** A reader of the coding, without extensions and trailers. *)
Fixpoint read_size (w : list Z) (acc : Z) : option (Z * list Z) :=
  match w with
  | [] => None
  | c :: r =>
      if c =? 13 then match r with 10 :: r => Some (acc, r) | _ => None end
      else d ← hex_digit_value c; read_size r (acc * 16 + d)
  end.

Definition skip_crlf (w : list Z) : option (list Z) := match w with 13 :: 10 :: r => Some r | _ => None end.

(** The decoded body and what follows it. *)
Fixpoint dechunk (fuel : nat) (w : list Z) : option (list Z * list Z) :=
  match fuel with
  | O => None
  | S fuel =>
      '(n, r) ← read_size w 0;
      if n =? 0 then r ← skip_crlf r; Some ([], r)
      else if zlen r <? n then None
      else
        r' ← skip_crlf (drop (Z.to_nat n) r);
        '(body, rest) ← dechunk fuel r';
        Some (take (Z.to_nat n) r ++ body, rest)
  end.

Definition chunk_text (body : list Z) : list Z := print_nat 16 (zlen body) ++ CRLF ++ body ++ CRLF.

Definition hex_val (c : Z) : Z := default 0 (hex_digit_value c).

Lemma read_size_digits w : forall acc r,
  Forall (fun c => is_Some (hex_digit_value c)) w -> read_size (w ++ CRLF ++ r) acc = Some (num_value 16 hex_val acc w, r).
Proof.
  induction w as [|c w IH]; intros acc r Hw; [done|]. apply Forall_cons in Hw as [[d Hd] Hw]. cbn [app read_size num_value fold_left].
  assert (c <> 13) as Hc by (intros ->; done). rewrite (proj2 (Z.eqb_neq c 13) Hc), Hd. cbn [mbind option_bind].
  unfold hex_val at 2. rewrite Hd. apply IH. done.
Qed.

Lemma read_size_print n r : 0 <= n < 2 ^ 63 -> read_size (print_nat 16 n ++ CRLF ++ r) 0 = Some (n, r).
Proof.
  intros Hn. unfold print_nat. rewrite read_size_digits.
  - rewrite (print_base_value 16 hex_val ltac:(lia)); [done| |].
    + intros d Hd. unfold hex_val. by rewrite digit_char_hex.
    + split; [lia|]. transitivity (2 ^ 63); [lia|]. by vm_compute.
  - apply (print_base_all 16 ltac:(lia)); [|lia|constructor]. intros d Hd. rewrite digit_char_hex by done. by eexists.
Qed.

Lemma dechunk_chunk fuel body rest :
  body <> [] -> zlen body < 2 ^ 63 ->
  dechunk (S fuel) (chunk_text body ++ rest) = '(b, r) ← dechunk fuel rest; Some (body ++ b, r).
Proof.
  intros Hb Hl. assert (0 < zlen body) by (destruct body; [done|rewrite zlen_cons; pose proof (zlen_nonneg body); lia]).
  cbn [dechunk]. unfold chunk_text. rewrite <- !app_assoc, read_size_print by lia. cbn [mbind option_bind].
  rewrite (proj2 (Z.eqb_neq _ _)) by lia. rewrite !zlen_app. pose proof (zlen_nonneg (CRLF)). pose proof (zlen_nonneg rest).
  rewrite (proj2 (Z.ltb_ge _ _)) by lia. rewrite drop_app_length', take_app_length' by (unfold zlen; lia). done.
Qed.

Lemma dechunk_chunks bodies rest : forall fuel,
  Forall (fun b => b <> [] /\ zlen b < 2 ^ 63) bodies -> (length bodies < fuel)%nat ->
  dechunk fuel ((bodies ≫= chunk_text) ++ [48] ++ CRLF ++ CRLF ++ rest) = Some (concat bodies, rest).
Proof.
  induction bodies as [|b bodies IH]; intros fuel Hb Hf; destruct fuel as [|fuel]; cbn [length] in Hf; try lia; [done|].
  apply Forall_cons in Hb as [[Hb1 Hb2] Hb]. rewrite bind_cons, <- app_assoc, dechunk_chunk, IH by (done || lia). done.
Qed.

(** ** An application beside the transport *)

Section Beside.
Context {V A W : Type} (base : session_ops V) `{!NetSink (A := A) base}.

(** The transport [base] beside what the application keeps. *)
Definition with_app (cb : Z -> V * W -> client -> option (V * W * client * bool * bool)) : session_ops (V * W) :=
  mkOps (fun u d => let '(v, n, e) := base.(pa_write) u.1 d in ((v, u.2), n, e))
        (fun u => base.(pa_pending) u.1)
        (fun u => let '(v, ok) := base.(pa_arm) u.1 in ((v, u.2), ok))
        (fun u => base.(server_time) u.1) (fun u cl => (u, cl)) cb (fun _ _ _ => None).

#[global] Instance with_app_sink cb : NetSink (A := W) (with_app cb).
Proof.
  refine {| sk_wire u := sk_wire (ops := base) u.1; sk_app u := u.2; sk_budget u := sk_budget (ops := base) u.1 |}.
  - intros [v cs] d Hd. destruct (sk_write v d Hd) as (v' & n & E & _ & H). exists (v', cs), n. cbn. by rewrite E.
  - intros u. exact (sk_pending (ops := base) u.1).
  - intros [v cs]. destruct (sk_arm v) as (v' & E & _ & H1 & H2). exists (v', cs). cbn. by rewrite E.
Defined.

(** The callback is not reached by a plain response. *)
Lemma plain_write_cb f u cl text k cb cb' :
  sending text k cl -> plain_response cl -> _client_write (with_app cb) (S f) u cl = _client_write (with_app cb') (S f) u cl.
Proof.
  intros Hs [Hfl Hco]. cbn [_client_write]. unfold _client_write_bytes. cbn [with_app pa_write pa_pending pa_arm].
  destruct (_ <? _); [destruct (_ || _); [done|]|].
  - destruct (pa_write base _ _) as [[v n] e]. cbn [mbind option_bind]. destruct e; [done|]. cbn [negb].
    destruct (0 <? n); cbn [c_flags c_completed c_stream s_bytes_total s_length]; rewrite Hfl; done.
  - cbn [mbind option_bind negb]. by rewrite Hfl.
Qed.
End Beside.

(** ** An application that streams chunks *)

Section App.
Context {V : Type} {A : Type} (base : session_ops V) `{!NetSink (A := A) base} (rops : read_ops (V * list (list Z))) (sp : spec) (F : nat).

Definition no_cb : session_ops (V * list (list Z)) := with_app base (fun _ _ _ => None).

(** The chunk callback: the next chunk with [again], or the end. *)
Definition next_chunk (cb : Z) (u : V * list (list Z)) (cl : client) : option (V * list (list Z) * client * bool * bool) :=
  match u.2 with
  | [] => '(u, cl) ← iwn_http_response_chunk_end no_cb F u cl; Some (u, cl, true, false)
  | b :: cs =>
      '(u, cl, again) ← iwn_http_response_chunk_write no_cb F (u.1, cs) cl b (zlen b) (Some cb) (Some false);
      Some (u, cl, true, default false again)
  end.
Definition app_ops : session_ops (V * list (list Z)) := with_app base next_chunk.

(** The session between two chunks. *)
Record chunking (cb : Z) (text : list Z) (k : Z) (cl : client) : Prop := {
  ck_sending : sending text k cl;
  ck_flags : Z.land cl.(c_flags) (Z.lor HTTP_CHUNKED_RESPONSE HTTP_STREAM_RESPONSE) = HTTP_CHUNKED_RESPONSE;
  ck_cb : cl.(c_chunk_cb) = Some cb;
  ck_completed : cl.(c_completed) = None;
  ck_headers : cl.(c_response).(r_headers) = [] }.

Definition last_text : list Z := [48] ++ CRLF ++ CRLF ++ CRLF.

Lemma chunked_flag fl : Z.land fl (Z.lor HTTP_CHUNKED_RESPONSE HTTP_STREAM_RESPONSE) = HTTP_CHUNKED_RESPONSE ->
  Z.land fl HTTP_CHUNKED_RESPONSE = HTTP_CHUNKED_RESPONSE /\
  Z.land (Z.ldiff fl HTTP_CHUNKED_RESPONSE) (Z.lor HTTP_CHUNKED_RESPONSE HTTP_STREAM_RESPONSE) = 0 /\
  (Z.land fl (Z.lor (Z.lor HTTP_CHUNKED_RESPONSE HTTP_STREAM_RESPONSE) HTTP_HAS_CONTENT_LEN) =? 0) = false.
Proof.
  intros E. assert (forall n, 0 <= n -> Z.testbit fl n && Z.testbit (Z.lor HTTP_CHUNKED_RESPONSE HTTP_STREAM_RESPONSE) n = Z.testbit HTTP_CHUNKED_RESPONSE n) as Hb.
  { intros n Hn. rewrite <- Z.land_spec. by rewrite E. }
  split; [|split].
  - apply Z.bits_inj'. intros n Hn. specialize (Hb n Hn). rewrite Z.lor_spec in Hb. rewrite Z.land_spec.
    destruct (Z.testbit fl n), (Z.testbit HTTP_CHUNKED_RESPONSE n); done.
  - apply Z.bits_inj'. intros n Hn. specialize (Hb n Hn). rewrite Z.lor_spec in Hb. rewrite Z.land_spec, Z.ldiff_spec, Z.lor_spec, Z.bits_0.
    destruct (Z.testbit fl n), (Z.testbit HTTP_CHUNKED_RESPONSE n), (Z.testbit HTTP_STREAM_RESPONSE n); done.
  - apply Z.eqb_neq. intros E0. specialize (Hb 4 ltac:(lia)). apply (f_equal (fun x => Z.testbit x 4)) in E0. rewrite Z.land_spec, Z.bits_0 in E0.
    change (Z.testbit fl 4 && true = true) in Hb; change (Z.testbit fl 4 && true = false) in E0; by destruct (Z.testbit fl 4).
Qed.

(** The callback at the end of a chunk. *)
Lemma chunk_turn g (u : V * list (list Z)) cl text cb :
  chunking cb text (zlen text) cl ->
  match u.2 with
  | [] => exists cl', sending last_text 0 cl' /\ plain_response cl' /\ cl'.(c_flags) = Z.ldiff cl.(c_flags) HTTP_CHUNKED_RESPONSE /\
      _client_write app_ops (S g) u cl = _client_write no_cb F u cl'
  | b :: cs => zlen b < 2 ^ 32 ->
      exists cl', chunking cb (chunk_text b) 0 cl' /\ cl'.(c_flags) = cl.(c_flags) /\
        _client_write app_ops (S g) u cl = _client_write app_ops g (u.1, cs) cl'
  end.
Proof.
  intros [[Hst Hb Hl Hd Hr] Hfl Hcb Hco Hh]. destruct (chunked_flag _ Hfl) as (F1 & F2 & F3).
  assert (_client_write app_ops (S g) u cl =
    '(u, cl, ok, again) ← next_chunk cb u (_stream_free_buffer cl);
    if negb ok then Some (u, set_flag cl HTTP_END_SESSION) else if again : bool then _client_write app_ops g u cl else Some (u, cl)) as ->.
  { cbn [_client_write]. unfold _client_write_bytes. rewrite Hd, Hl, Z.ltb_irrefl. cbn [mbind option_bind negb].
    rewrite Hd, Hl, Z.eqb_refl, (sk_pending (ops := app_ops)), Hfl. change (HTTP_CHUNKED_RESPONSE =? 0) with false. cbn [negb orb].
    cbn [_stream_free_buffer c_chunk_cb]. rewrite Hcb. done. }
  destruct u as [v [|b cs]]; cbn [snd fst]; unfold next_chunk; cbn [snd fst].
  - unfold iwn_http_response_chunk_end.
    assert (_client_response_headers_write (_stream_free_buffer cl) = CRLF) as E.
    { unfold _client_response_headers_write. cbn [_stream_free_buffer c_response c_flags]. by rewrite Hh, F3. }
    rewrite E. change (bytes_of_string "0" ++ CRLF ++ CRLF ++ CRLF) with last_text.
    exists (_client_response_setbuf (clear_flag (_stream_free_buffer cl) HTTP_CHUNKED_RESPONSE) last_text).
    split; [|split; [|split; [|]]]; cycle 3.
    + destruct (_client_write no_cb F _ _) as [[u2 cl2]|]; done.
    + by constructor.
    + split; [exact F2|exact Hco].
    + done.
  - intros Hlen. unfold iwn_http_response_chunk_write. rewrite arg_len_all. cbn [_stream_free_buffer has_flag c_flags].
    unfold has_flag. cbn [c_flags]. rewrite F1. change (negb (HTTP_CHUNKED_RESPONSE =? 0)) with true. cbn [mbind option_bind fmap option_fmap option_map default from_option].
    cbv iota. pose proof (zlen_nonneg b). assert (u32 (zlen b) = zlen b) as -> by (apply Z.mod_small; lia).
    eexists. split; [|split; [|reflexivity]]; [|done]. constructor; try done.
    constructor; try done. split; [lia|apply zlen_nonneg].
Qed.

Definition work (cs : list (list Z)) : nat := length (cs ≫= (fun b => 0 :: chunk_text b)).
Abbreviation wire u := (sk_wire (ops := app_ops) u).
Abbreviation budget u := (sk_budget (ops := app_ops) u).

(** From the end of a chunk to the end of the response, given the same for fewer bytes. *)
Lemma chunks_turn m g v cs cl text cb :
  (forall g u cl text k cb,
     (Z.to_nat (zlen text - k) + budget u + work u.2 < m)%nat -> (length u.2 < g)%nat -> (length u.2 < F)%nat ->
     chunking cb text k cl -> Forall (fun b => zlen b < 2 ^ 32) u.2 ->
     exists n u' cl', ('(u, cl) ← _client_write app_ops g u cl; writable app_ops rops sp F n u cl) = Some (u', cl') /\
       wire u' = wire u ++ slice text k (zlen text) ++ (u.2 ≫= chunk_text) ++ last_text /\
       finished (Z.ldiff cl.(c_flags) HTTP_CHUNKED_RESPONSE) cl') ->
  (budget (v, cs) + work cs <= m)%nat -> (length cs < S g)%nat -> (length cs < F)%nat ->
  chunking cb text (zlen text) cl -> Forall (fun b => zlen b < 2 ^ 32) cs ->
  exists n u' cl', ('(u, cl) ← _client_write app_ops (S g) (v, cs) cl; writable app_ops rops sp F n u cl) = Some (u', cl') /\
    wire u' = wire (v, cs) ++ (cs ≫= chunk_text) ++ last_text /\ finished (Z.ldiff cl.(c_flags) HTTP_CHUNKED_RESPONSE) cl'.
Proof.
  intros IH Hm Hg HF Hck Hcs. pose proof (chunk_turn g (v, cs) cl text cb Hck) as Ht. cbn [snd fst] in Ht. destruct cs as [|b cs].
  - destruct Ht as (cl2 & Hs2 & Hp2 & Hf2 & ->). assert (exists f, F = S f) as [f Ef] by (exists (Nat.pred F); lia).
    rewrite Ef. unfold no_cb. rewrite (plain_write_cb base f (v, []) cl2 last_text 0 _ next_chunk Hs2 Hp2).
    destruct (write_whole app_ops rops sp f last_text _ (v, []) cl2 0 (le_n _) Hs2 Hp2) as (n & u3 & cl3 & E & Hw & Hfin).
    exists n, u3, cl3. split; [exact E|]. split; [by rewrite Hw, slice_full|]. by rewrite Hf2 in Hfin.
  - apply Forall_cons in Hcs as [Hb1 Hcs]. destruct (Ht Hb1) as (cl2 & Hck2 & Hf2 & ->). cbn [length] in *.
    unfold work in Hm. rewrite bind_cons, length_app in Hm. cbn [length] in Hm. fold (work cs) in Hm.
    destruct (IH g (v, cs) cl2 (chunk_text b) 0 cb) as (n & u3 & cl3 & E & Hw & Hfin); cbn [snd]; [|lia|lia|done|done|].
    + unfold zlen. rewrite Z.sub_0_r, Nat2Z.id. change (budget (v, b :: cs)) with (budget (v, cs)) in Hm. lia.
    + exists n, u3, cl3. split; [exact E|]. split; [|by rewrite Hf2 in Hfin].
      rewrite Hw, slice_full, bind_cons, <- !app_assoc. done.
Qed.

Lemma chunks_whole m : forall g u cl text k cb,
  (Z.to_nat (zlen text - k) + budget u + work u.2 < m)%nat -> (length u.2 < g)%nat -> (length u.2 < F)%nat ->
  chunking cb text k cl -> Forall (fun b => zlen b < 2 ^ 32) u.2 ->
  exists n u' cl', ('(u, cl) ← _client_write app_ops g u cl; writable app_ops rops sp F n u cl) = Some (u', cl') /\
    wire u' = wire u ++ slice text k (zlen text) ++ (u.2 ≫= chunk_text) ++ last_text /\
    finished (Z.ldiff cl.(c_flags) HTTP_CHUNKED_RESPONSE) cl'.
Proof.
  induction m as [|m IH]; intros g [v cs] cl text k cb Hm Hg HF Hck Hcs; [lia|]. cbn [snd] in *.
  pose proof Hck as [Hs Hfl Hcb Hco Hh]. pose proof Hs as [Hst Hb Hl Hd Hr]. destruct g as [|g]; [lia|].
  destruct (Z.eqb_spec k (zlen text)) as [->|Hk].
  - rewrite slice_empty. apply (chunks_turn m g v cs cl text cb); [exact IH|lia|done|done|done|done].
  - destruct (write_step app_ops g (v, cs) cl text k Hs) as ([v1 cs1] & k1 & Hk1 & Hap & Hw1 & Hm1 & Hs1 & ->); [lia|].
    cbn in Hap. subst cs1. assert (forall k', sending text k' (taken cl k') -> chunking cb text k' (taken cl k')) as Hck' by (intros k' Hs'; by constructor).
    destruct (Z.eqb_spec k1 (zlen text)) as [->|Hk2].
    + destruct (chunks_turn m g v1 cs (taken cl (zlen text)) text cb IH) as (n & u' & cl' & E & Hw & Hfin); [lia|done|done|by apply Hck'|done|].
      exists n, u', cl'. split; [done|]. split; [|done]. by rewrite Hw, Hw1, <- app_assoc.
    + destruct (IH F (v1, cs) (taken cl k1) text k1 cb) as (n & u' & cl' & E & Hw & Hfin); cbn [snd]; [lia|done|done|by apply Hck'|done|].
      exists (S n), u', cl'. split; [|split; [|done]].
      * cbn [mbind option_bind writable]. rewrite event_writing by done. revert E. by destruct (_client_write app_ops F (v1, cs) _) as [[u2 cl2]|].
      * rewrite Hw, Hw1, <- app_assoc. cbn [snd]. rewrite (app_assoc (slice text k k1)), slice_join by lia. done.
Qed.

Lemma chunks_all g u cl text k cb :
  chunking cb text k cl -> (length u.2 < g)%nat -> (length u.2 < F)%nat -> Forall (fun b => zlen b < 2 ^ 32) u.2 ->
  exists n u' cl', ('(u, cl) ← _client_write app_ops g u cl; writable app_ops rops sp F n u cl) = Some (u', cl') /\
    wire u' = wire u ++ slice text k (zlen text) ++ (u.2 ≫= chunk_text) ++ last_text /\
    finished (Z.ldiff cl.(c_flags) HTTP_CHUNKED_RESPONSE) cl'.
Proof. intros Hck Hg HF Hcs. by eapply (chunks_whole _ g u cl text k cb (Nat.lt_succ_diag_r _)). Qed.
End App.

Lemma keep_after_chunks fl keep cl : finished (Z.ldiff (with_keep fl keep) HTTP_CHUNKED_RESPONSE) cl ->
  if keep then cl.(c_state) = HTTP_SESSION_INIT else has_flag cl HTTP_END_SESSION = true.
Proof.
  unfold finished. rewrite land_bits_ldiff by done. rewrite with_keep_flag. destruct keep; [by intros []|done].
Qed.

(** A session that can start a chunked response. *)
Definition chunk_ready (cl : client) : Prop :=
  Z.land cl.(c_flags) (Z.lor HTTP_CHUNKED_RESPONSE HTTP_STREAM_RESPONSE) = 0 /\ answerable cl /\ cl.(c_completed) = None /\
  0 <= cl.(c_response).(r_body_len) < 2 ^ 31.

Section Start.
Context {V A : Type} (base : session_ops V) `{!NetSink (A := A) base} (F : nat).

(** The first chunk comes with the head of the response. *)
Lemma chunk_start (u : V * list (list Z)) cl b cb keep reason :
  chunk_ready cl -> keeps cl = Some keep -> 0 < cl.(c_response).(r_code) -> _status_text cl.(c_response).(r_code) = Some reason -> zlen b < 2 ^ 32 ->
  exists hs cl',
    (forall n, get_header hs n =
       if strcaseeq (bytes_of_string "connection") n then Some (connection_value keep)
       else if strcaseeq (bytes_of_string "transfer-encoding") n then Some (bytes_of_string "chunked")
       else get_header cl.(c_response).(r_headers) n) /\
    chunking cb (reply_text cl.(c_response).(r_code) reason (base.(server_time) u.1) hs [] ++ chunk_text b) 0 cl' /\
    cl'.(c_flags) = with_keep (Z.lor cl.(c_flags) HTTP_CHUNKED_RESPONSE) keep /\
    iwn_http_response_chunk_write (app_ops base F) F u cl b (zlen b) (Some cb) None =
      '(u, cl) ← _client_write (app_ops base F) F u cl'; Some (u, cl, None).
Proof.
  intros (Hfl & [Hup Hcl] & Hco & Hbl) Hk Hcode Hreason Hlen. pose proof (zlen_nonneg b).
  set (cl2 := iwn_http_response_header_set (set_flag {| cl with c_chunk_cb := Some cb |} HTTP_CHUNKED_RESPONSE)
    (bytes_of_string "transfer-encoding") (bytes_of_string "chunked") 7).
  assert (Z.land (Z.lor (c_flags cl) HTTP_CHUNKED_RESPONSE) (Z.lor HTTP_CHUNKED_RESPONSE HTTP_STREAM_RESPONSE) = HTTP_CHUNKED_RESPONSE) as Hfl2.
  { by rewrite Z.land_lor_distr_l, Hfl. }
  destruct (chunked_flag _ Hfl2) as (_ & _ & Hmask).
  assert (answerable cl2) as Hans.
  { split.
    - unfold has_flag. change (c_flags cl2) with (Z.lor (c_flags cl) HTTP_CHUNKED_RESPONSE). rewrite land_bits_lor by done. exact Hup.
    - etransitivity; [apply header_set_get|]. exact Hcl. }
  assert (keeps cl2 = Some keep) as Hk2.
  { apply (keeps_same cl); [done..|]. change (c_flags cl2) with (Z.lor (c_flags cl) HTTP_CHUNKED_RESPONSE). split; by apply land_bits_lor. }
  set (conn := connection_value keep).
  set (cl3 := iwn_http_response_header_set {| cl2 with c_flags := with_keep cl2.(c_flags) keep |} (bytes_of_string "connection") conn (zlen conn)).
  assert (_client_response_headers_write_http (app_ops base F) u cl2 =
    Some (u, cl3, reply_text cl.(c_response).(r_code) reason (base.(server_time) u.1) cl3.(c_response).(r_headers) [])) as Ehead.
  { rewrite (headers_text (app_ops base F) (fun _ _ => eq_refl) u cl2 keep reason Hans Hk2); [|done..].
    unfold length_fields. change (c_flags cl2) with (Z.lor (c_flags cl) HTTP_CHUNKED_RESPONSE). rewrite Hmask, app_nil_r. done. }
  exists (r_headers (c_response cl3)), (_client_response_setbuf cl3
    (reply_text cl.(c_response).(r_code) reason (base.(server_time) u.1) cl3.(c_response).(r_headers) [] ++ chunk_text b)).
  split; [|split; [|split]].
  - intros n. etransitivity; [apply header_set_get|]. rewrite arg_len_all. replace (cstr conn) with conn by (by unfold conn; destruct keep).
    destruct (strcaseeq (bytes_of_string "connection") n); [done|]. etransitivity; [apply header_set_get|]. done.
  - constructor; try done.
    change (Z.land (with_keep (Z.lor (c_flags cl) HTTP_CHUNKED_RESPONSE) keep) (Z.lor HTTP_CHUNKED_RESPONSE HTTP_STREAM_RESPONSE) = HTTP_CHUNKED_RESPONSE).
    by rewrite with_keep_other.
  - done.
  - unfold iwn_http_response_chunk_write. rewrite arg_len_all. unfold has_flag. cbn [c_flags].
    assert (Z.land (c_flags cl) HTTP_CHUNKED_RESPONSE = 0) as ->.
    { apply Z.bits_inj'. intros n Hn. apply (f_equal (fun x => Z.testbit x n)) in Hfl. rewrite Z.land_spec, Z.lor_spec, Z.bits_0 in Hfl.
      rewrite Z.land_spec, Z.bits_0. by destruct (Z.testbit (c_flags cl) n), (Z.testbit HTTP_CHUNKED_RESPONSE n). }
    change (negb (0 =? 0)) with false. cbv iota. fold cl2. rewrite Ehead. cbn [mbind option_bind].
    assert (u32 (zlen b) = zlen b) as -> by (apply Z.mod_small; lia). done.
Qed.
End Start.

(** C8. A chunked response reaches the peer: an application that hands out non-empty chunks from
    the chunk callback and ends with [iwn_http_response_chunk_end] puts on the wire, whatever the
    pieces the transport takes, a head with [transfer-encoding: chunked] and no length of its own,
    and a body from which the reader of the chunked coding gets the concatenation of the chunks;
    one CR LF is left behind the coded body.  The session then waits for the next request or is at
    its end. *)
Theorem http_chunked_delivered {V A} (base : session_ops V) `{!NetSink (A := A) base} (rops : read_ops (V * list (list Z))) (sp : spec)
    (F : nat) (v : V) (cl : client) (b : list Z) (cs : list (list Z)) (cb : Z) (keep : bool) (reason : list Z) :
  chunk_ready cl -> keeps cl = Some keep -> 0 < cl.(c_response).(r_code) -> _status_text cl.(c_response).(r_code) = Some reason ->
  Forall (fun b => b <> [] /\ zlen b < 2 ^ 32) (b :: cs) -> (length cs < F)%nat ->
  exists n u' cl' hs coded,
    ('(u, cl, _) ← iwn_http_response_chunk_write (app_ops base F) F (v, cs) cl b (zlen b) (Some cb) None;
     writable (app_ops base F) rops sp F n u cl) = Some (u', cl') /\
    sk_wire u'.1 = sk_wire v ++ reply_text cl.(c_response).(r_code) reason (base.(server_time) v) hs [] ++ coded /\
    (forall name, get_header hs name =
       if strcaseeq (bytes_of_string "connection") name then Some (connection_value keep)
       else if strcaseeq (bytes_of_string "transfer-encoding") name then Some (bytes_of_string "chunked")
       else get_header cl.(c_response).(r_headers) name) /\
    dechunk (length cs + 2) coded = Some (concat (b :: cs), CRLF) /\
    (if keep then cl'.(c_state) = HTTP_SESSION_INIT else has_flag cl' HTTP_END_SESSION = true).
Proof.
  intros Hr Hk Hcode Hreason Hcs HF. pose proof Hcs as [[_ Hb2] Hcs2]%Forall_cons.
  destruct (chunk_start base F (v, cs) cl b cb keep reason Hr Hk Hcode Hreason Hb2) as (hs & cl1 & Hhs & Hck & Hfl & ->).
  destruct (chunks_all base rops sp F F (v, cs) cl1 _ 0 cb Hck) as (n & u' & cl' & E & Hw & Hfin); [done|done| |].
  { eapply Forall_impl; [exact Hcs2|]. by intros ? []. }
  exists n, u', cl', hs, (chunk_text b ++ (cs ≫= chunk_text) ++ last_text). split; [|split; [|split; [|split]]].
  - revert E. by destruct (_client_write (app_ops base F) F (v, cs) cl1) as [[u2 cl2]|].
  - cbn [snd] in Hw. rewrite slice_full, <- !app_assoc in Hw. etransitivity; [exact Hw|done].
  - done.
  - change (chunk_text b ++ (cs ≫= chunk_text) ++ last_text) with (chunk_text b ++ (cs ≫= chunk_text) ++ [48] ++ CRLF ++ CRLF ++ CRLF).
    rewrite app_assoc, <- (bind_cons chunk_text b cs). apply dechunk_chunks; [|cbn [length]; lia].
    eapply Forall_impl; [exact Hcs|]. intros x []. split; [done|lia].
  - rewrite Hfl in Hfin. by eapply keep_after_chunks.
Qed.

Lemma http_chunked_delivered_witness :
  exists n u' cl' hs coded,
    ('(u, cl, _) ← iwn_http_response_chunk_write (app_ops ten_ops 4) 4 ([], [bytes_of_string "cd"]) (_client_init client_accepted)
         (bytes_of_string "ab") 2 (Some 1) None;
     writable (app_ops ten_ops 4) (mkReadOps (fun u _ => (u, inl (-1))) (fun _ _ => None) (fun _ => false)) (mkSpec 0 0 0 0) 4 n u cl) = Some (u', cl') /\
    u'.1 = reply_text 200 (bytes_of_string "OK") (bytes_of_string "now") hs [] ++ coded /\
    (forall name, get_header hs name =
       if strcaseeq (bytes_of_string "connection") name then Some (bytes_of_string "close")
       else if strcaseeq (bytes_of_string "transfer-encoding") name then Some (bytes_of_string "chunked") else None) /\
    dechunk 3 coded = Some (bytes_of_string "abcd", CRLF) /\ has_flag cl' HTTP_END_SESSION = true.
Proof.
  refine (http_chunked_delivered ten_ops (mkReadOps (fun u _ => (u, inl (-1))) (fun _ _ => None) (fun _ => false)) (mkSpec 0 0 0 0) 4 []
    (_client_init client_accepted) (bytes_of_string "ab") [bytes_of_string "cd"] 1 false (bytes_of_string "OK") _ _ _ _ _ _).
  - split; [done|]. split; [done|]. split; [done|]. by vm_compute.
  - done.
  - done.
  - done.
  - constructor; [|constructor; [|constructor]]; done.
  - cbn. lia.
Defined.

(** An empty chunk is the end of the body for the peer. *)
Example empty_chunk_ends : dechunk 5 (chunk_text [] ++ chunk_text (bytes_of_string "x") ++ last_text) =
  Some ([], chunk_text (bytes_of_string "x") ++ last_text).
Proof. reflexivity. Qed.
