(* ===== verification/HttpStream.v ===== *)
(** * HttpStream: streamed responses of [src/src/http/iwn_http_server.c]

    An application starts a response with [iwn_http_response_stream_start] and hands out its body piece by piece from the chunk
    callback with [iwn_http_response_stream_write]; the pieces reach the wire in order, whatever the transport takes at a time. *)
From S2P Require Import Prelude HttpParser HttpResponse HttpRead HttpReply HttpChunked.

Section Stream.
Context {V A W : Type} (base : session_ops V) `{!NetSink (A := A) base} (rops : read_ops (V * W)) (sp : spec) (F : nat).

(** What the application does in its callback [cb]: it refuses, or writes a piece and names the callback for the next one; [None] is undefined behaviour. *)
Context (produce : Z -> W -> option (W * option (list Z * option Z))).

Definition silent : session_ops (V * W) := with_app base (fun _ _ _ => None).

Definition next_piece (cb : Z) (u : V * W) (cl : client) : option (V * W * client * bool * bool) :=
  '(w, r) ← produce cb u.2;
  match r with
  | None => Some ((u.1, w), cl, false, false)
  | Some (b, next) =>
      '(u, cl, again) ← iwn_http_response_stream_write silent F (u.1, w) cl b (zlen b) next (Some false);
      Some (u, cl, true, default false again)
  end.
Definition stream_ops : session_ops (V * W) := with_app base next_piece.

(** The pieces an application hands out, from a callback on. *)
Inductive pieces : Z -> W -> list (list Z) -> Prop :=
| pieces_last cb w w' b : produce cb w = Some (w', Some (b, None)) -> pieces cb w [b]
| pieces_more cb w w' b cb' bs : produce cb w = Some (w', Some (b, Some cb')) -> pieces cb' w' bs -> pieces cb w (b :: bs).

Lemma pieces_some cb w bs : pieces cb w bs -> exists b bs', bs = b :: bs'.
Proof. intros []; by eexists _, _. Qed.

(** The session between two pieces. *)
Record streaming (cb : Z) (text : list Z) (k : Z) (cl : client) : Prop := {
  st_sending : sending text k cl;
  st_flags : Z.land cl.(c_flags) (Z.lor HTTP_CHUNKED_RESPONSE HTTP_STREAM_RESPONSE) = HTTP_STREAM_RESPONSE;
  st_cb : cl.(c_chunk_cb) = Some cb;
  st_completed : cl.(c_completed) = None }.

Lemma stream_flag fl : Z.land fl (Z.lor HTTP_CHUNKED_RESPONSE HTTP_STREAM_RESPONSE) = HTTP_STREAM_RESPONSE ->
  Z.land (Z.ldiff fl HTTP_STREAM_RESPONSE) (Z.lor HTTP_CHUNKED_RESPONSE HTTP_STREAM_RESPONSE) = 0.
Proof.
  intros E. apply Z.bits_inj'. intros n Hn. apply (f_equal (fun x => Z.testbit x n)) in E. rewrite Z.land_spec, Z.lor_spec in E.
  rewrite Z.land_spec, Z.ldiff_spec, Z.lor_spec, Z.bits_0. destruct (Z.testbit fl n), (Z.testbit HTTP_CHUNKED_RESPONSE n), (Z.testbit HTTP_STREAM_RESPONSE n); done.
Qed.

(** The callback at the end of a piece. *)
Lemma stream_turn g u cl text cb w' b next : streaming cb text (zlen text) cl -> produce cb u.2 = Some (w', Some (b, next)) ->
  match next with
  | None => exists cl', sending b 0 cl' /\ plain_response cl' /\ cl'.(c_flags) = Z.ldiff cl.(c_flags) HTTP_STREAM_RESPONSE /\
      _client_write stream_ops (S g) u cl = _client_write silent F (u.1, w') cl'
  | Some cb' => exists cl', streaming cb' b 0 cl' /\ cl'.(c_flags) = cl.(c_flags) /\ _client_write stream_ops (S g) u cl = _client_write stream_ops g (u.1, w') cl'
  end.
Proof.
  intros [[Hst Hb Hl Hd Hr] Hfl Hcb Hco] Hp.
  assert (_client_write stream_ops (S g) u cl =
    '(u, cl, ok, again) ← next_piece cb u (_stream_free_buffer cl);
    if negb ok then Some (u, set_flag cl HTTP_END_SESSION) else if again : bool then _client_write stream_ops g u cl else Some (u, cl)) as ->.
  { cbn [_client_write]. unfold _client_write_bytes. rewrite Hd, Hl, Z.ltb_irrefl. cbn [mbind option_bind negb].
    rewrite Hd, Hl, Z.eqb_refl, (sk_pending (ops := stream_ops)), Hfl. change (HTTP_STREAM_RESPONSE =? 0) with false. cbn [negb orb].
    cbn [_stream_free_buffer c_chunk_cb]. rewrite Hcb. done. }
  unfold next_piece. rewrite Hp. cbn [mbind option_bind]. unfold iwn_http_response_stream_write. rewrite arg_len_all. destruct next as [cb'|].
  - cbn [fmap option_fmap option_map default from_option mbind option_bind negb]. eexists. split; [|split; [|reflexivity]]; [|done]. constructor; try done.
    constructor; try done. split; [lia|apply zlen_nonneg].
  - cbn [default from_option]. cbv iota. set (cl0 := _stream_free_buffer cl). exists (_client_response_setbuf (clear_flag {| cl0 with c_chunk_cb := None |} HTTP_STREAM_RESPONSE) b).
    split; [|split; [|split; [|]]]; cycle 3.
    + destruct (_client_write silent F _ _) as [[u2 cl2]|]; done.
    + constructor; try done. split; [lia|apply zlen_nonneg].
    + split; [by apply stream_flag|done].
    + done.
Qed.

Definition left_over (bs : list (list Z)) : nat := length (bs ≫= cons 0).
Abbreviation wire u := (sk_wire (ops := stream_ops) u).
Abbreviation budget u := (sk_budget (ops := stream_ops) u).

(** What the rest of the proof says about the pieces that are left. *)
Definition streams (g : nat) (u : V * W) (cl : client) (text : list Z) (k : Z) (bs : list (list Z)) : Prop :=
  exists n u' cl', ('(u, cl) ← _client_write stream_ops g u cl; writable stream_ops rops sp F n u cl) = Some (u', cl') /\
    wire u' = wire u ++ slice text k (zlen text) ++ concat bs /\ finished (Z.ldiff cl.(c_flags) HTTP_STREAM_RESPONSE) cl'.

Lemma pieces_turn m g v w cl text cb bs :
  (forall g u cl text k cb bs, (Z.to_nat (zlen text - k) + budget u + left_over bs < m)%nat -> (length bs < g)%nat -> (length bs < F)%nat ->
     streaming cb text k cl -> pieces cb u.2 bs -> streams g u cl text k bs) ->
  (budget (v, w) + left_over bs <= m)%nat -> (length bs < S g)%nat -> (length bs < F)%nat ->
  streaming cb text (zlen text) cl -> pieces cb w bs -> streams (S g) (v, w) cl text (zlen text) bs.
Proof.
  intros IH Hm Hg HF Hst Hp. unfold streams. rewrite slice_empty. cbn [app]. destruct Hp as [cb w w' b Hp|cb w w' b cb' bs Hp Hps].
  - destruct (stream_turn g (v, w) cl text cb w' b None Hst Hp) as (cl2 & Hs2 & Hp2 & Hf2 & ->). assert (exists f, F = S f) as [f Ef] by (exists (Nat.pred F); lia).
    rewrite Ef. unfold silent. cbn [fst]. rewrite (plain_write_cb base f (v, w') cl2 b 0 _ next_piece Hs2 Hp2).
    destruct (write_whole stream_ops rops sp f b _ (v, w') cl2 0 (le_n _) Hs2 Hp2) as (n & u3 & cl3 & E & Hw & Hfin).
    exists n, u3, cl3. split; [exact E|]. split; [by rewrite Hw, slice_full; cbn [concat]; rewrite app_nil_r|]. by rewrite Hf2 in Hfin.
  - destruct (stream_turn g (v, w) cl text cb w' b (Some cb') Hst Hp) as (cl2 & Hst2 & Hf2 & ->). cbn [length fst] in *.
    unfold left_over in Hm. rewrite bind_cons, length_app in Hm. cbn [length] in Hm. fold (left_over bs) in Hm.
    destruct (IH g (v, w') cl2 b 0 cb' bs) as (n & u3 & cl3 & E & Hw & Hfin); cbn [snd]; [|lia|lia|done|done|].
    + unfold zlen. rewrite Z.sub_0_r, Nat2Z.id. change (budget (v, w)) with (budget (v, w')) in Hm. lia.
    + exists n, u3, cl3. split; [exact E|]. split; [|by rewrite Hf2 in Hfin]. rewrite Hw, slice_full. done.
Qed.

Lemma pieces_whole m : forall g u cl text k cb bs,
  (Z.to_nat (zlen text - k) + budget u + left_over bs < m)%nat -> (length bs < g)%nat -> (length bs < F)%nat ->
  streaming cb text k cl -> pieces cb u.2 bs -> streams g u cl text k bs.
Proof.
  induction m as [|m IH]; intros g [v w] cl text k cb bs Hm Hg HF Hst Hp; [lia|]. cbn [snd] in *.
  pose proof Hst as [Hs Hfl Hcb Hco]. pose proof Hs as [Hsta Hb Hl Hd Hr]. destruct g as [|g]; [lia|].
  destruct (Z.eqb_spec k (zlen text)) as [->|Hk]; [apply (pieces_turn m g v w cl text cb); [exact IH|lia|done..]|].
  destruct (write_step stream_ops g (v, w) cl text k Hs) as ([v1 w1] & k1 & Hk1 & Hap & Hw1 & Hm1 & Hs1 & E1); [lia|]. unfold streams. rewrite E1.
  cbn in Hap. subst w1. assert (forall k', sending text k' (taken cl k') -> streaming cb text k' (taken cl k')) as Hst' by (intros k' Hs'; by constructor).
  destruct (Z.eqb_spec k1 (zlen text)) as [->|Hk2].
  - destruct (pieces_turn m g v1 w (taken cl (zlen text)) text cb bs IH) as (n & u' & cl' & E & Hw & Hfin); [lia|done|done|by apply Hst'|done|].
    exists n, u', cl'. split; [done|]. split; [|done]. rewrite Hw, Hw1, slice_empty, <- app_assoc. done.
  - destruct (IH F (v1, w) (taken cl k1) text k1 cb bs) as (n & u' & cl' & E & Hw & Hfin); cbn [snd]; [lia|done|done|by apply Hst'|done|].
    exists (S n), u', cl'. split; [|split; [|done]].
    + cbn [mbind option_bind writable]. rewrite event_writing by done. revert E. by destruct (_client_write stream_ops F (v1, w) _) as [[u2 cl2]|].
    + rewrite Hw, Hw1, <- app_assoc. rewrite (app_assoc (slice text k k1)), slice_join by lia. done.
Qed.

Lemma pieces_all g u cl text k cb bs : streaming cb text k cl -> pieces cb u.2 bs -> (length bs < g)%nat -> (length bs < F)%nat -> streams g u cl text k bs.
Proof. intros Hst Hp Hg HF. by eapply (pieces_whole _ g u cl text k cb bs (Nat.lt_succ_diag_r _)). Qed.

(** A session that can start a streamed response. *)
Record stream_ready (cl : client) : Prop := {
  sr_flags : Z.land cl.(c_flags) (Z.lor HTTP_CHUNKED_RESPONSE HTTP_STREAM_RESPONSE) = 0;
  sr_upgrade : has_flag cl HTTP_UPGRADE = false;
  sr_completed : cl.(c_completed) = None }.

Lemma stream_mask fl : Z.land fl HTTP_STREAM_RESPONSE = HTTP_STREAM_RESPONSE -> (Z.land fl (Z.lor (Z.lor HTTP_CHUNKED_RESPONSE HTTP_STREAM_RESPONSE) HTTP_HAS_CONTENT_LEN) =? 0) = false.
Proof.
  intros E. apply Z.eqb_neq. intros E0. apply (f_equal (fun x => Z.testbit x 5)) in E, E0. rewrite Z.land_spec in E, E0. rewrite Z.bits_0 in E0.
  change (Z.testbit fl 5 && true = true) in E. change (Z.testbit fl 5 && true = false) in E0. by rewrite E in E0.
Qed.

(** The head of a streamed response: the application's fields and the decision about the connection, without a length of the session's own. *)
Lemma stream_head u cl cb keep reason :
  stream_ready cl -> keeps cl = Some keep -> 0 < cl.(c_response).(r_code) -> _status_text cl.(c_response).(r_code) = Some reason ->
  exists fl hs cl', Z.land fl (Z.lor HTTP_CHUNKED_RESPONSE HTTP_STREAM_RESPONSE) = HTTP_STREAM_RESPONSE /\
    (forall n, get_header hs n = if strcaseeq (bytes_of_string "connection") n then Some (connection_value keep) else get_header cl.(c_response).(r_headers) n) /\
    iwn_http_response_stream_start stream_ops F u cl (Some cb) = _client_write stream_ops F u cl' /\
    cl'.(c_flags) = with_keep fl keep /\ streaming cb (reply_text cl.(c_response).(r_code) reason (base.(server_time) u.1) hs []) 0 cl'.
Proof.
  intros [Hfl Hup Hco] Hk Hcode Hreason. set (cl1 := set_flag {| cl with c_chunk_cb := Some cb |} HTTP_STREAM_RESPONSE).
  set (cl2 := if 0 <? zlen (default [] (iwn_http_response_header_get cl1 (bytes_of_string "content-length"))) then set_flag cl1 HTTP_HAS_CONTENT_LEN else cl1).
  assert (forall m, Z.land HTTP_STREAM_RESPONSE m = 0 -> Z.land HTTP_HAS_CONTENT_LEN m = 0 -> Z.land cl2.(c_flags) m = Z.land cl.(c_flags) m) as Hm.
  { intros m H1 H2. unfold cl2, cl1. destruct (0 <? _); cbn [set_flag c_flags]; rewrite !land_bits_lor; done. }
  assert (Z.land cl2.(c_flags) (Z.lor HTTP_CHUNKED_RESPONSE HTTP_STREAM_RESPONSE) = HTTP_STREAM_RESPONSE) as Hf2.
  { unfold cl2, cl1. destruct (0 <? _); cbn [set_flag c_flags]; [rewrite land_bits_lor by done|]; by rewrite Z.land_lor_distr_l, Hfl. }
  set (conn := connection_value keep). set (cl3 := iwn_http_response_header_set {| cl2 with c_flags := with_keep cl2.(c_flags) keep |} (bytes_of_string "connection") conn (zlen conn)).
  assert (cl3.(c_response).(r_code) = cl.(c_response).(r_code) /\ c_flags cl3 = with_keep cl2.(c_flags) keep /\ c_chunk_cb cl3 = Some cb /\ c_completed cl3 = None) as (E1 & E2 & E3 & E4) by (unfold cl3, cl2; destruct (0 <? _); done).
  exists (c_flags cl2), cl3.(c_response).(r_headers), (_client_response_setbuf cl3 (reply_text cl.(c_response).(r_code) reason (base.(server_time) u.1) cl3.(c_response).(r_headers) [])).
  split; [done|]. split; [|split; [|split; [exact E2|]]].
  - intros n. unfold cl3. etransitivity; [apply header_set_get|]. rewrite arg_len_all. replace (cstr conn) with conn by (by unfold conn; destruct keep).
    destruct (strcaseeq (bytes_of_string "connection") n); [done|]. unfold cl2. by destruct (0 <? _).
  - unfold iwn_http_response_stream_start. assert (has_flag {| cl with c_chunk_cb := Some cb |} HTTP_STREAM_RESPONSE = false) as ->.
    { unfold has_flag. cbn [c_flags]. apply negb_false_iff, Z.eqb_eq. apply Z.bits_inj'. intros n Hn. apply (f_equal (fun x => Z.testbit x n)) in Hfl. rewrite Z.land_spec, Z.lor_spec, Z.bits_0 in Hfl.
      rewrite Z.land_spec, Z.bits_0. by destruct (Z.testbit (c_flags cl) n), (Z.testbit HTTP_CHUNKED_RESPONSE n), (Z.testbit HTTP_STREAM_RESPONSE n). }
    fold cl1. unfold _client_response_headers_write_http. fold cl2. assert (c_stream cl2 = c_stream cl /\ c_tokens cl2 = c_tokens cl) as [Es Et] by (unfold cl2; by destruct (0 <? _)).
    assert (same_mode (c_flags cl2) (c_flags cl)) as Hsm by (split; by apply Hm). rewrite (settle_flags cl cl2 keep Hk Es Et Hsm).
    cbn [mbind option_bind headers_hook stream_ops with_app]. assert (connection_header {| cl2 with c_flags := with_keep cl2.(c_flags) keep |} = conn) as ->.
    { unfold connection_header, has_flag in *. cbn [c_flags]. rewrite with_keep_other, Hm, Hup, with_keep_flag by done. by destruct keep. }
    fold cl3. rewrite E1, (proj2 (Z.eqb_neq _ _)) by lia. rewrite E1, Hreason. cbn [mbind option_bind server_time]. f_equal. f_equal. unfold reply_text. rewrite app_nil_r. do 8 f_equal.
    unfold _client_response_headers_write. rewrite E2, stream_mask; [done|]. rewrite with_keep_other by done. apply Z.bits_inj'. intros n Hn. apply (f_equal (fun x => Z.testbit x n)) in Hf2.
    rewrite Z.land_spec, Z.lor_spec in Hf2. rewrite Z.land_spec. by destruct (Z.testbit (c_flags cl2) n), (Z.testbit HTTP_CHUNKED_RESPONSE n), (Z.testbit HTTP_STREAM_RESPONSE n).
  - constructor; [|by cbn [_client_response_setbuf _response_free c_flags]; rewrite E2, with_keep_other|done|done]. by constructor.
Qed.

(** A streamed response reaches the peer. *)
Lemma stream_delivered v w cl cb bs keep reason :
  stream_ready cl -> keeps cl = Some keep -> 0 < cl.(c_response).(r_code) -> _status_text cl.(c_response).(r_code) = Some reason -> pieces cb w bs -> (length bs < F)%nat ->
  exists n u' cl' hs,
    ('(u, cl) ← iwn_http_response_stream_start stream_ops F (v, w) cl (Some cb); writable stream_ops rops sp F n u cl) = Some (u', cl') /\
    sk_wire u'.1 = sk_wire v ++ reply_text cl.(c_response).(r_code) reason (base.(server_time) v) hs (concat bs) /\
    (forall n, get_header hs n = if strcaseeq (bytes_of_string "connection") n then Some (connection_value keep) else get_header cl.(c_response).(r_headers) n) /\
    (if keep then cl'.(c_state) = HTTP_SESSION_INIT else has_flag cl' HTTP_END_SESSION = true).
Proof.
  intros Hr Hk Hcode Hreason Hp HF. destruct (stream_head (v, w) cl cb keep reason Hr Hk Hcode Hreason) as (fl & hs & cl1 & Hfl & Hhs & E & Ef & Hst). rewrite E.
  destruct (pieces_all F (v, w) cl1 _ 0 cb bs Hst Hp HF HF) as (n & u' & cl' & E' & Hw & Hfin). exists n, u', cl', hs. split; [done|]. split; [|split; [done|]].
  - rewrite slice_full in Hw. etransitivity; [exact Hw|]. cbn [fst]. unfold reply_text. rewrite !app_nil_r, <- !app_assoc. done.
  - rewrite Ef in Hfin. revert Hfin. unfold finished. rewrite land_bits_ldiff by done. rewrite with_keep_flag. destruct keep; [by intros []|done].
Qed.
End Stream.
