(* ===== verification/WsServer.v ===== *)
(** * WsServer: WebSocket connections of the server, [src/src/ws/iwn_ws_server.c]

    A route made by [iwn_ws_server_route_attach] answers an upgrade request with the handshake of RFC 6455 and then takes the
    events of the connection over: frames are read and written by wslay, complete messages are handed to the application.
    The world of a connection is [conn]: the outside world, the [struct ctx], and the fields of the HTTP session this file
    changes.  The application's callbacks get the world and give it back, so they may call the functions of this file. *)
From S2P Require Import Prelude Base64 Sha1 HttpParser HttpResponse Utf8 Frame Event.
Import SHA1.

Definition WS_MAGIC13 : list Z := bytes_of_string "258EAFA5-E914-47DA-95CA-C5AB0DC85B11".
Definition WS_HANDLE_PING_PONG : Z := 8.

(** [struct msg] without its link; the list [ctx->msgs] is a list. *)
Record msg := mkMsg { msg_buf : list Z; msg_opcode : Z }.

Section WsServer.
(** [N] is the outside world: socket, allocator, clock, application. *)
Context {N : Type}.

(** [struct ctx]: [x_wc] is null until the handshake is complete, [x_error] is [wc->error], [x_shut] whether the transport callbacks have
    shut reading or writing down, [x_locked] the mutex, which is not recursive. *)
Record ctx := mkWsCtx { x_msgs : list msg; x_wc : option ectx; x_error : Z; x_shut : bool * bool; x_locked : bool }.

(** The fields of the HTTP session: [_ws_data] (with the [struct ctx] behind it), [injected_poller_evh] and [on_request_dispose] being the functions of this file,
    and the timeout of the descriptor. *)
Record conn := mkConn { net : N; ws_data : option ctx; injected : bool; disposer : bool; no_timeout : bool }.

(** What the code uses of the outside world. *)
Record ws_ops := mkWsOps {
  nd_read : N -> Z -> N * io (list Z);
  nd_write : N -> list Z -> N * io Z;
  nd_alloc : N -> Z -> N * bool;
  nd_arm : N -> Z -> N * bool;
  nd_nodelay : N -> N * bool;
  nd_remove : N -> N }.

(** [struct iwn_ws_handler_spec]. *)
Record handler_spec := mkHandlerSpec {
  ws_handler : option (conn -> msg -> option (conn * bool));
  on_http_init : option (conn -> client -> option (conn * client * Z));
  on_session_init : option (conn -> option (conn * bool));
  on_session_dispose : option (N -> N);
  ws_flags : Z }.

Context (ops : ws_ops) (spec : handler_spec) (junk : Z).

(** ** The callbacks of wslay

    Their environment: the outside world, [ctx->msgs] and the shutdowns. *)
Definition wenv : Type := N * list msg * (bool * bool).

Definition _wslay_recv_callback (u : wenv) (len : Z) : wenv * list Z * option Z :=
  let '(n, ms, sh) := u in
  let '(n, r) := ops.(nd_read) n len in
  match r with
  | IoAgain => ((n, ms, sh), [], Some WSLAY_ERR_WOULDBLOCK)
  | IoErr => ((n, ms, sh), [], Some WSLAY_ERR_CALLBACK_FAILURE)
  | IoDone [] => ((n, ms, (true, sh.2)), [], None)
  | IoDone l => ((n, ms, sh), l, None)
  end.

Definition _wslay_send_callback (u : wenv) (data : list Z) : wenv * Z * option Z :=
  let '(n, ms, sh) := u in
  let '(n, r) := ops.(nd_write) n data in
  match r with
  | IoAgain => ((n, ms, sh), -1, Some WSLAY_ERR_WOULDBLOCK)
  | IoErr => ((n, ms, sh), -1, Some WSLAY_ERR_CALLBACK_FAILURE)
  | IoDone k => if k =? 0 then ((n, ms, (sh.1, true)), -1, None) else ((n, ms, sh), k, None)
  end.

Definition wants (has_handler : bool) (flags : Z) (arg : on_msg_recv_arg) : bool :=
  has_handler &&
  (((0 <? zlen arg.(a_msg)) && ((arg.(a_opcode) =? WSLAY_TEXT_FRAME) || (arg.(a_opcode) =? WSLAY_BINARY_FRAME)))
   || (negb (Z.land flags WS_HANDLE_PING_PONG =? 0) && ((arg.(a_opcode) =? WSLAY_PING) || (arg.(a_opcode) =? WSLAY_PONG)))).

(** Two allocations, the structure (of 32 bytes) and the buffer; a message that finds no memory is dropped. *)
Definition _wslay_msg_recv_callback (u : wenv) (arg : on_msg_recv_arg) : wenv * list api_call :=
  let '(n, ms, sh) := u in
  if negb (wants (bool_decide (is_Some spec.(ws_handler))) spec.(ws_flags) arg) then (u, [])
  else
    let '(n, ok) := ops.(nd_alloc) n 32 in
    if negb ok then ((n, ms, sh), [])
    else
      let '(n, ok) := ops.(nd_alloc) n (zlen arg.(a_msg) + 1) in
      if negb ok then ((n, ms, sh), [])
      else ((n, ms ++ [mkMsg arg.(a_msg) arg.(a_opcode)], sh), []).

(** The callbacks [_on_response_completed] gives to wslay; wslay's own allocations use the same allocator. *)
Definition callbacks : event_callbacks wenv :=
  mkEv _ _wslay_recv_callback _wslay_send_callback (fun u => u.2)
    (fun u => (u, None))
    (fun u size => let '(n, ms, sh) := u in let '(n, ok) := ops.(nd_alloc) n size in ((n, ms, sh), ok))
    (fun u src _ => (u, src, -1, [], false))
    None None None (Some _wslay_msg_recv_callback).

(** ** Running wslay on a connection *)

Definition lock (x : ctx) : option ctx := if x.(x_locked) then None else Some {| x with x_locked := true |}.
Definition unlock (x : ctx) : ctx := {| x with x_locked := false |}.

(** A call into wslay with [ctx->wc]; [None] when it is null. *)
Definition with_wc {A} (m : CM (est (U:=wenv)) Z A) (c : conn) (x : ctx) : option (conn * ctx * (Z + A)) :=
  wc ← x.(x_wc);
  '(s, r) ← m (mkE ((c.(net), x.(x_msgs), x.(x_shut)), x.(x_error)) wc);
  let '(n, ms, sh) := s.(e_env).1 in
  Some ({| c with net := n |}, mkWsCtx ms (Some s.(e_ctx)) s.(e_env).2 sh x.(x_locked), r).

(** The C functions return an [int] in both cases. *)
Definition int_of (r : Z + Z) : Z := match r with inl e => e | inr v => v end.

Definition set_ctx (c : conn) (x : ctx) : conn := {| c with ws_data := Some x |}.

(** ** Writing messages *)

(** [buf = None] is the null pointer. *)
Definition _ws_server_write (c : conn) (buf : option (list Z)) (buf_len : Z) (opc : Z) : option (conn * bool) :=
  match c.(ws_data) with
  | None => Some (c, false)
  | Some x =>
      let len := if buf_len <? 0 then match buf with Some b => zlen (cstr b) | None => 0 end else buf_len in
      data ← (if len =? 0 then Some [] else b ← buf; if zlen b <? len then None else Some (take (Z.to_nat len) b));
      x ← lock x;
      '(c, x, _) ← (if opc =? WSLAY_CONNECTION_CLOSE
                    then with_wc (emod wslay_event_shutdown_read) c x else Some (c, x, inr tt));
      '(c, x, r) ← with_wc (wslay_event_queue_msg callbacks opc data) c x;
      let c := set_ctx c (unlock x) in
      if negb (int_of r =? 0) then Some (c, false)
      else let '(n, ok) := ops.(nd_arm) c.(net) IWN_POLLOUT in Some ({| c with net := n |}, ok)
  end.

Definition iwn_ws_server_ping (c : conn) (buf : option (list Z)) (len : Z) := _ws_server_write c buf len WSLAY_PING.
Definition iwn_ws_server_write_binary (c : conn) (buf : option (list Z)) (len : Z) := _ws_server_write c buf len WSLAY_BINARY_FRAME.
Definition iwn_ws_server_write (c : conn) (buf : option (list Z)) (len : Z) := _ws_server_write c buf len WSLAY_TEXT_FRAME.

(** [_ws_server_fd_write] with its probe: [registered] is whether the poller has a slot for the descriptor; [ctx.ret] starts as [false]. *)
Definition _ws_server_fd_write (registered : bool) (c : conn) (buf : option (list Z)) (len opc : Z) : option (conn * bool) :=
  if registered then _ws_server_write c buf len opc else Some (c, false).

Definition iwn_ws_server_ping_fd registered c buf len := _ws_server_fd_write registered c buf len WSLAY_PING.
Definition iwn_ws_server_write_binary_fd registered c buf len := _ws_server_fd_write registered c buf len WSLAY_BINARY_FRAME.
Definition iwn_ws_server_write_fd registered c buf len := _ws_server_fd_write registered c buf len WSLAY_TEXT_FRAME.

(** [iwn_ws_server_printf_va]: [vsnprintf] is a parameter, [text] is its output or its failure.  A failure is reported with
    [return IW_ERROR_FAIL], a value that is not zero, from a function that returns [bool]. *)
Definition iwn_ws_server_printf_va (c : conn) (text : option (list Z)) : option (conn * bool) :=
  match text with
  | None => Some (c, true)
  | Some t =>
      if 1024 <=? zlen t then
        let '(n, ok) := ops.(nd_alloc) c.(net) (zlen t + 1) in
        let c := {| c with net := n |} in
        if negb ok then Some (c, false) else iwn_ws_server_write c (Some t) (zlen t)
      else iwn_ws_server_write c (Some t) (zlen t)
  end.

Definition iwn_ws_server_session_close (c : conn) : option conn :=
  match c.(ws_data) with
  | None => Some c
  | Some _ =>
      '(c, ok) ← _ws_server_write c None 0 WSLAY_CONNECTION_CLOSE;
      Some (if ok : bool then c else {| c with net := ops.(nd_remove) c.(net) |})
  end.

(** ** Events *)

(** The part under the mutex: the messages to hand out and [ret]; [fuel] bounds the loops of wslay. *)
Definition locked_part (fuel : nat) (c : conn) (x : ctx) : option (conn * ctx * list msg * Z) :=
  wc ← x.(x_wc);
  '(c, x, r) ← (if wslay_event_want_write wc then with_wc (wslay_event_send callbacks fuel) c x else Some (c, x, inr 0));
  if int_of r <? 0 then Some (c, x, [], 0)
  else
    wc ← x.(x_wc);
    '(c, x, r) ← (if wslay_event_want_read wc then with_wc (wslay_event_recv callbacks fuel) c x else Some (c, x, inr 0));
    if int_of r <? 0 then Some (c, x, [], 0)
    else
      wc ← x.(x_wc);
      let ret := Z.lor (if wslay_event_want_read wc then IWN_POLLIN else 0) (if wslay_event_want_write wc then IWN_POLLOUT else 0) in
      Some (c, {| x with x_msgs := [] |}, x.(x_msgs), ret).

(** The loop over the messages, outside of the mutex; after a refusal the others are only freed. *)
Fixpoint handle_msgs (c : conn) (ms : list msg) (ret : Z) : option (conn * Z) :=
  match ms with
  | [] => Some (c, ret)
  | m :: ms =>
      if ret =? -1 then handle_msgs c ms ret
      else
        h ← spec.(ws_handler);
        '(c, ok) ← h c m;
        handle_msgs c ms (if ok : bool then ret else -1)
  end.

Definition _on_poller_adapter_event (fuel : nat) (c : conn) : option (conn * Z) :=
  x ← c.(ws_data);
  x ← lock x;
  '(c, x, ms, ret) ← locked_part fuel c x;
  '(c, ret) ← handle_msgs (set_ctx c (unlock x)) ms ret;
  Some (c, if ret =? 0 then -1 else ret).

(** ** Life cycle *)

Definition _ctx_destroy (c : conn) : conn :=
  match c.(ws_data) with
  | None => c
  | Some _ => {| c with net := match spec.(on_session_dispose) with Some f => f c.(net) | None => c.(net) end; ws_data := None |}
  end.

(** The previous [on_request_dispose] is [before]. *)
Definition _on_request_dispose (before : option (N -> N)) (c : conn) : option conn :=
  _ ← c.(ws_data);
  let c := match before with Some f => {| c with net := f c.(net) |} | None => c end in
  Some (_ctx_destroy c).

Definition _on_response_completed (c : conn) : option (conn * bool) :=
  match c.(ws_data) with
  | None => Some (c, false)
  | Some x =>
      let '(n, ok) := ops.(nd_alloc) c.(net) 0 in
      let c := {| c with net := n |} in
      if negb ok then Some (c, false)
      else
        let c := set_ctx c (mkWsCtx x.(x_msgs) (Some (wslay_event_context_init true)) 0 x.(x_shut) x.(x_locked)) in
        let '(n, ok) := ops.(nd_nodelay) c.(net) in
        let c := {| c with net := n |} in
        if negb ok then Some (c, false)
        else
          let c := {| c with no_timeout := true; injected := true |} in
          match spec.(on_session_init) with Some f => f c | None => Some (c, true) end
  end.

(** ** The handshake *)

(** The value of [Sec-WebSocket-Accept] with its terminator. *)
Definition accept_value (key : list Z) : option (option (list Z)) :=
  hbuf ← br_sha1 junk [key ++ WS_MAGIC13];
  iwn_base64_encode 40 hbuf base64_VARIANT_ORIGINAL.

(** [session] are the operations of the HTTP session over the world of a connection; [WS_COMPLETED] is the address of
    [_on_response_completed]. *)
Definition WS_COMPLETED : Z := 101.

Definition is_websocket (val : option (list Z)) : bool :=
  (zlen (default [] val) =? 9) && strncaseeq (default [] val) (bytes_of_string "websocket").
Definition is_version_13 (val : option (list Z)) : bool := bool_decide (default [] val = bytes_of_string "13").

Definition _route_handler (session : session_ops conn) (fuel : nat) (c : conn) (cl : client) : option (conn * client * Z) :=
  '(c, cl, rv) ← match spec.(on_http_init) with Some f => f c cl | None => Some (c, cl, 0) end;
  if negb (rv =? 0) then Some (c, cl, rv)
  else
    val ← iwn_http_request_header_get cl (bytes_of_string "upgrade") 7;
    if negb (is_websocket val) then Some (c, cl, 0)
    else
      val ← iwn_http_request_header_get cl (bytes_of_string "sec-websocket-version") 21;
      if negb (is_version_13 val) then Some (c, cl, -1)
      else
        ws_key ← iwn_http_request_header_get cl (bytes_of_string "sec-websocket-key") 17;
        let ws_key := default [] ws_key in
        if zlen ws_key =? 0 then Some (c, cl, -1)
        else
          let cl := iwn_http_response_header_set cl (bytes_of_string "upgrade") (bytes_of_string "websocket") 9 in
          val ← iwn_http_request_header_get cl (bytes_of_string "sec-websocket-protocol") 22;
          let val := default [] val in
          let cl := if zlen val =? 0 then cl
                    else iwn_http_response_header_set cl (bytes_of_string "sec-websocket-protocol") val (zlen val) in
          vbuf ← accept_value ws_key;
          match vbuf with
          | None => Some (c, cl, -1)
          | Some v =>
              let cl := iwn_http_response_header_set cl (bytes_of_string "sec-websocket-accept") v (zlen v) in
              let '(n, ok) := ops.(nd_alloc) c.(net) 0 in
              let c := {| c with net := n |} in
              if negb ok then Some (c, cl, -1)
              else
                let c := {| c with ws_data := Some (mkWsCtx [] None 0 (false, false) false); disposer := true |} in
                let cl := {| cl with c_completed := Some WS_COMPLETED |} in
                let cl := iwn_http_connection_set_upgrade cl in
                '(c, cl, ok) ← iwn_http_response_write session fuel c cl 101 (Some []) None 0;
                if ok : bool then Some (c, cl, 1) else Some (_ctx_destroy c, cl, -1)
          end.
End WsServer.
Arguments conn : clear implicits.
Arguments ws_ops : clear implicits.
Arguments handler_spec : clear implicits.
