(* ===== verification/WsServerProps.v ===== *)
(** * WsServerProps: the handshake of the WebSocket server

    A request that asks for a WebSocket is answered as RFC 6455, section 4.2.2, says, and the connection is then in the hands
    of the event handler of [WsServer.v] with a fresh wslay context. *)
From S2P Require Import Prelude Base64 Sha1 HttpParser HttpResponse HttpRead HttpSession HttpReply Utf8 Frame Event WsServer.
Import SHA1.

(** ** The accept value *)

(** RFC 6455: the base64 text of the SHA-1 digest of the key and the GUID. *)
Definition rfc_accept (key : list Z) : list Z := b64_text base64_VARIANT_ORIGINAL (sha1 (key ++ WS_MAGIC13)).

Lemma digits_range : forall bin, bytes_ok bin -> Forall (fun x => 0 <= x < 64) (b64_digits bin).
Proof.
  apply (three_ind (fun bin => bytes_ok bin -> _)); [constructor|..]; [intros a Hb|intros a b Hb|intros a b c bin IH Hb];
    repeat (apply Forall_cons in Hb as [? Hb]); unfold byte_ok in *; cbn [b64_digits app];
    repeat constructor; try (Z.to_euclidean_division_equations; lia). by apply IH.
Qed.

Lemma b64_text_nonzero variant bin : bytes_ok bin -> Forall (fun c => c <> 0) (b64_text variant bin).
Proof.
  intros Hb. unfold b64_text. apply Forall_app. split; [|by apply Forall_replicate]. apply Forall_map.
  eapply Forall_impl; [by apply digits_range|]. intros x Hx E. cbn beta in *.
  assert (forall us, forallb (fun x => negb (to_char us x =? 0)) (Z.of_nat <$> seq 0 64) = true) as Hc by (intros []; vm_compute; reflexivity).
  specialize (Hc (urlsafe variant)). rewrite forallb_forall in Hc. specialize (Hc x). rewrite E in Hc. discriminate Hc.
  apply list_elem_of_In, list_elem_of_fmap. exists (Z.to_nat x). split; [lia|]. apply elem_of_seq. lia.
Qed.

Lemma accept_value_rfc junk key : bytes_ok key -> accept_value junk key = Some (Some (rfc_accept key ++ [0])).
Proof.
  intros Hk. unfold accept_value. rewrite br_sha1_digest.
  2: { constructor; [|constructor]. apply Forall_app. split; [done|apply bytes_of_string_ok]. }
  cbn [mbind option_bind concat]. rewrite app_nil_r. destruct (sha1_digest (key ++ WS_MAGIC13)) as [Hl Hb].
  apply encode_text; [constructor|done|lia|]. by rewrite Hl.
Qed.

(** The example of RFC 6455, section 1.3. *)
Example rfc_accept_example : accept_value 0 (bytes_of_string "dGhlIHNhbXBsZSBub25jZQ==") = Some (Some (bytes_of_string "s3pPLMBiTxaQ9kYGzzhZRbK+xOo=" ++ [0])).
Proof. vm_compute. reflexivity. Qed.

(** ** The handshake *)

(** The session the handler runs in: writing and arming change only the outside world, whose transport takes what it is given in
    pieces ([wh_wire]) and refuses finitely often ([wh_budget]); [_on_response_completed] is what runs when the response is out; memory is available. *)
Class WsHost {N : Type} (ops : ws_ops N) (spec : handler_spec N) (session : session_ops (conn N)) := {
  wh_wire : N -> list Z;
  wh_budget : N -> nat;
  wh_write c d : d <> [] -> exists n k, session.(pa_write) c d = ({| c with net := n |}, k, false) /\
    ((k <= 0 /\ wh_wire n = wh_wire c.(net) /\ (wh_budget n < wh_budget c.(net))%nat) \/
     (0 < k <= zlen d /\ wh_wire n = wh_wire c.(net) ++ take (Z.to_nat k) d /\ (wh_budget n <= wh_budget c.(net))%nat));
  wh_pending c : session.(pa_pending) c = false;
  wh_arm c : exists n, session.(pa_arm) c = ({| c with net := n |}, true) /\ wh_wire n = wh_wire c.(net) /\ wh_budget n = wh_budget c.(net);
  wh_hook c cl : session.(headers_hook) c cl = (c, cl);
  wh_completed c cl : session.(run_completed) WS_COMPLETED c cl = '(c, ok) ← _on_response_completed ops spec c; Some (c, cl, ok);
  wh_alloc n size : exists n', ops.(nd_alloc) n size = (n', true) /\ wh_wire n' = wh_wire n;
  wh_nodelay n : exists n', ops.(nd_nodelay) n = (n', true) /\ wh_wire n' = wh_wire n }.

#[export] Instance host_sink {N} (ops : ws_ops N) spec session `{!WsHost ops spec session} :
  NetSink (A := option ctx * bool * bool * bool) session.
Proof.
  refine {| sk_wire c := wh_wire c.(net); sk_app c := (c.(ws_data), c.(injected), c.(disposer), c.(no_timeout)); sk_budget c := wh_budget c.(net) |}.
  - intros c d Hd. destruct (wh_write c d Hd) as (n & k & E & Hor). by exists {| c with net := n |}, k.
  - apply wh_pending.
  - intros c. destruct (wh_arm c) as (n & E & E1 & E2). by exists {| c with net := n |}.
Defined.

Section Handshake.
Context {N : Type} (ops : ws_ops N) (spec : handler_spec N) (junk : Z) (session : session_ops (conn N)) (rops : read_ops (conn N)) (sp : HttpParser.spec).
Context `{!WsHost ops spec session}.

(** A request for a WebSocket with key [key] and protocols [proto]. *)
Record upgrade_request (cl : client) (key : list Z) (proto : option (list Z)) : Prop := {
  ur_upgrade : exists v, iwn_http_request_header_get cl (bytes_of_string "upgrade") 7 = Some (Some v) /\ strcaseeq v (bytes_of_string "websocket") = true;
  ur_version : iwn_http_request_header_get cl (bytes_of_string "sec-websocket-version") 21 = Some (Some (bytes_of_string "13"));
  ur_key : iwn_http_request_header_get cl (bytes_of_string "sec-websocket-key") 17 = Some (Some key) /\ key <> [] /\ bytes_ok key;
  ur_proto : iwn_http_request_header_get cl (bytes_of_string "sec-websocket-protocol") 22 = Some proto }.

(** No response has been begun. *)
Record unanswered (cl : client) : Prop := {
  ua_flags : Z.land cl.(c_flags) (Z.lor (Z.lor HTTP_CHUNKED_RESPONSE HTTP_STREAM_RESPONSE) HTTP_HAS_CONTENT_LEN) = 0;
  ua_length : get_header cl.(c_response).(r_headers) (bytes_of_string "content-length") = None;
  ua_body : cl.(c_response).(r_body_len) = 0 }.

(** The client at the time the response is written. *)
Definition answer_fields (cl : client) (key : list Z) (proto : option (list Z)) : client :=
  let cl := iwn_http_response_header_set cl (bytes_of_string "upgrade") (bytes_of_string "websocket") 9 in
  let val := default [] proto in
  let cl := if zlen val =? 0 then cl else iwn_http_response_header_set cl (bytes_of_string "sec-websocket-protocol") val (zlen val) in
  let v := rfc_accept key ++ [0] in
  iwn_http_response_header_set cl (bytes_of_string "sec-websocket-accept") v (zlen v).
Definition answer (cl : client) (key : list Z) (proto : option (list Z)) : client :=
  iwn_http_connection_set_upgrade {| (answer_fields cl key proto) with c_completed := Some WS_COMPLETED |}.

Definition attached (c : conn N) (n : N) : conn N :=
  {| c with net := n; ws_data := Some (mkWsCtx [] None 0 (false, false) false); disposer := true |}.

Lemma websocket_value v : strcaseeq v (bytes_of_string "websocket") = true -> is_websocket (Some v) = true.
Proof.
  intros E. pose proof E as El. apply strcaseeq_spec in El. apply (f_equal length) in El. rewrite !length_map in El.
  unfold is_websocket, strncaseeq. change (default [] (Some v)) with v. unfold zlen. rewrite El. rewrite take_ge by (rewrite El; done). by rewrite E.
Qed.

Lemma route_handler_writes f c cl key proto :
  spec.(on_http_init) = None -> upgrade_request cl key proto ->
  exists n, wh_wire n = wh_wire c.(net) /\
  _route_handler ops spec junk session f c cl =
    '(c, cl, ok) ← iwn_http_response_write session f (attached c n) (answer cl key proto) 101 (Some []) None 0;
    if ok : bool then Some (c, cl, 1) else Some (_ctx_destroy spec c, cl, -1).
Proof.
  intros Hinit [(v & Hv & Hvw) Hver (Hkey & Hkne & Hkb) Hproto]. destruct (wh_alloc c.(net) 0) as (n & En & Hn).
  exists n. split; [done|]. unfold _route_handler. rewrite Hinit. cbn [mbind option_bind Z.eqb negb].
  rewrite Hv. cbn [mbind option_bind]. rewrite websocket_value by done. cbn [negb]. rewrite Hver. cbn [mbind option_bind].
  change (is_version_13 (Some (bytes_of_string "13"))) with true. cbn [negb]. rewrite Hkey. cbn [mbind option_bind]. change (default [] (Some key)) with key.
  assert ((zlen key =? 0) = false) as -> by (destruct key; [done|]; rewrite zlen_cons; pose proof (zlen_nonneg key); apply Z.eqb_neq; lia).
  change (iwn_http_request_header_get (iwn_http_response_header_set cl (bytes_of_string "upgrade") (bytes_of_string "websocket") 9)
    (bytes_of_string "sec-websocket-protocol") 22) with (iwn_http_request_header_get cl (bytes_of_string "sec-websocket-protocol") 22).
  rewrite Hproto. cbn [mbind option_bind]. rewrite accept_value_rfc by done. cbn [mbind option_bind]. rewrite En. cbn [negb]. done.
Qed.
(** The flags of an upgrade. *)
Lemma upgrade_flags cl :
  let cl' := iwn_http_connection_set_upgrade cl in
  has_flag cl' HTTP_AUTOMATIC = false /\ has_flag cl' HTTP_KEEP_ALIVE = false /\ has_flag cl' HTTP_UPGRADE = true /\
  (forall m, Z.land HTTP_AUTOMATIC m = 0 -> Z.land HTTP_KEEP_ALIVE m = 0 -> Z.land HTTP_UPGRADE m = 0 -> Z.land cl'.(c_flags) m = Z.land cl.(c_flags) m).
Proof.
  intros cl'. unfold cl', iwn_http_connection_set_upgrade, set_flag, clear_flag, has_flag. cbn [c_flags].
  assert (forall x m, Z.land (Z.ldiff x m) m = 0) as Hd.
  { intros x m. apply Z.bits_inj'. intros i _. rewrite Z.land_spec, Z.ldiff_spec, Z.bits_0. by destruct (Z.testbit x i), (Z.testbit m i). }
  split_and!.
  - rewrite land_bits_lor, land_bits_ldiff, Hd by done. done.
  - rewrite land_bits_lor, Hd by done. done.
  - apply negb_true_iff, Z.eqb_neq. intros E. apply (f_equal (fun x => Z.testbit x 6)) in E. rewrite Z.land_spec, Z.lor_spec, Z.bits_0 in E.
    change (Z.testbit HTTP_UPGRADE 6) with true in E. by rewrite orb_true_r in E.
  - intros m H1 H2 H3. by rewrite land_bits_lor, !land_bits_ldiff by done.
Qed.

Lemma land_sub x a b : Z.land x (Z.lor a b) = 0 -> Z.land x a = 0.
Proof.
  intros E. apply Z.bits_inj'. intros n Hn. apply (f_equal (fun x => Z.testbit x n)) in E. revert E. rewrite !Z.land_spec, !Z.lor_spec, Z.bits_0.
  by destruct (Z.testbit x n), (Z.testbit a n).
Qed.

(** The fields of the response. *)
Definition switching_fields (cl : client) (key : list Z) (proto : option (list Z)) (hs : list header) : Prop :=
  get_header hs (bytes_of_string "upgrade") = Some (bytes_of_string "websocket") /\
  get_header hs (bytes_of_string "connection") = Some (bytes_of_string "upgrade") /\
  get_header hs (bytes_of_string "sec-websocket-accept") = Some (rfc_accept key) /\
  get_header hs (bytes_of_string "sec-websocket-protocol") =
    (if zlen (default [] proto) =? 0 then get_header cl.(c_response).(r_headers) (bytes_of_string "sec-websocket-protocol")
     else Some (cstr (default [] proto))).

Lemma answer_headers cl key proto name :
  get_header (answer cl key proto).(c_response).(r_headers) name =
    if strcaseeq (bytes_of_string "sec-websocket-accept") name then Some (rfc_accept key)
    else if negb (zlen (default [] proto) =? 0) && strcaseeq (bytes_of_string "sec-websocket-protocol") name then Some (cstr (default [] proto))
    else if strcaseeq (bytes_of_string "upgrade") name then Some (bytes_of_string "websocket") else get_header cl.(c_response).(r_headers) name.
Proof.
  unfold answer, answer_fields. set (cl1 := iwn_http_response_header_set cl _ _ 9). set (v := default [] proto).
  set (cl2 := if zlen v =? 0 then cl1 else _).
  change (iwn_http_response_header_get (iwn_http_response_header_set cl2 (bytes_of_string "sec-websocket-accept") (rfc_accept key ++ [0])
    (zlen (rfc_accept key ++ [0]))) name = if strcaseeq (bytes_of_string "sec-websocket-accept") name then Some (rfc_accept key)
    else if negb (zlen v =? 0) && strcaseeq (bytes_of_string "sec-websocket-protocol") name then Some (cstr v)
    else if strcaseeq (bytes_of_string "upgrade") name then Some (bytes_of_string "websocket") else iwn_http_response_header_get cl name).
  rewrite header_set_get, arg_len_all, cstr_app_0 by (apply b64_text_nonzero, sha1_digest). destruct (strcaseeq _ name); [done|].
  assert (iwn_http_response_header_get cl1 name =
    if strcaseeq (bytes_of_string "upgrade") name then Some (bytes_of_string "websocket") else iwn_http_response_header_get cl name) as E1
    by (unfold cl1; by rewrite header_set_get).
  unfold cl2. destruct (zlen v =? 0); cbn [negb andb]; [done|]. rewrite header_set_get, arg_len_all, E1. done.
Qed.

Lemma switching_text f c cl key proto : unanswered cl ->
  exists hs cl1, switching_fields cl key proto hs /\
    let text := reply_text 101 (bytes_of_string "Switching Protocols") (session.(server_time) c) (hs ++ [content_length_field 0]) [] in
    sending text 0 cl1 /\ cl1.(c_completed) = Some WS_COMPLETED /\
    Z.land cl1.(c_flags) (Z.lor HTTP_CHUNKED_RESPONSE HTTP_STREAM_RESPONSE) = 0 /\ has_flag cl1 HTTP_END_SESSION = has_flag cl HTTP_END_SESSION /\
    iwn_http_response_write session f c (answer cl key proto) 101 (Some []) None 0 =
      '(c, cl) ← _client_write session f c cl1; Some (c, cl, true).
Proof.
  intros [Hfl Hlen Hbody].
  assert (c_flags (answer_fields cl key proto) = c_flags cl /\ r_body_len (c_response (answer_fields cl key proto)) = r_body_len (c_response cl)) as [E0 E1]
    by (unfold answer_fields; by destruct (zlen (default [] proto) =? 0)).
  destruct (upgrade_flags {| (answer_fields cl key proto) with c_completed := Some WS_COMPLETED |}) as (F1 & F2 & F3 & F4).
  fold (answer cl key proto) in F1, F2, F3, F4. cbn [c_flags] in F4. rewrite E0 in F4.
  pose proof (answer_headers cl key proto) as Hh. assert (r_body_len (c_response (answer cl key proto)) = 0) as Hb0 by (rewrite <- Hbody, <- E1; done).
  assert (c_completed (answer cl key proto) = Some WS_COMPLETED) as Hco by done.
  revert F1 F2 F3 F4 Hh Hb0 Hco. generalize (answer cl key proto). intros cl2 F1 F2 F3 F4 Hh Hb0 Hco.
  set (cl3 := {| cl2 with c_response := {| cl2.(c_response) with r_code := 101; r_body := None |} |}).
  assert (keeps cl3 = Some false) as Hk.
  { unfold keeps. change (has_flag cl3 HTTP_AUTOMATIC) with (has_flag cl2 HTTP_AUTOMATIC). rewrite F1. f_equal. exact F2. }
  assert (with_keep (c_flags cl3) false = c_flags cl3) as Hwk.
  { rewrite <- (with_keep_same (c_flags cl3)) at 2. f_equal. symmetry. exact F2. }
  pose proof (headers_text_gen session wh_hook c cl3 false (bytes_of_string "Switching Protocols")) as Ht. cbv zeta in Ht.
  assert (connection_header {| cl3 with c_flags := with_keep (c_flags cl3) false |} = bytes_of_string "upgrade") as Econn.
  { unfold connection_header. change (has_flag {| cl3 with c_flags := with_keep (c_flags cl3) false |} HTTP_UPGRADE)
      with (negb (Z.land (with_keep (c_flags cl3) false) HTTP_UPGRADE =? 0)). rewrite Hwk. change (has_flag cl2 HTTP_UPGRADE) with (negb (Z.land (c_flags cl3) HTTP_UPGRADE =? 0)) in F3.
    by rewrite F3. }
  rewrite Econn in Ht.
  set (cl4 := iwn_http_response_header_set {| cl3 with c_flags := with_keep (c_flags cl3) false |} (bytes_of_string "connection") (bytes_of_string "upgrade")
    (zlen (bytes_of_string "upgrade"))) in *.
  assert (length_fields cl3 = [content_length_field 0]) as El.
  { unfold length_fields. change (c_flags cl3) with (c_flags cl2). rewrite F4, Hfl by done. change (r_body_len (c_response cl3)) with (r_body_len (c_response cl2)). by rewrite Hb0. }
  rewrite El in Ht.
  set (text := reply_text 101 (bytes_of_string "Switching Protocols") (server_time session c) (r_headers (c_response cl4) ++ [content_length_field 0]) []) in *.
  exists (r_headers (c_response cl4)), (_client_response_setbuf cl4 text). cbv zeta. split; [|split; [|split; [|split; [|split]]]].
  - assert (forall name, get_header (r_headers (c_response cl4)) name =
      if strcaseeq (bytes_of_string "connection") name then Some (bytes_of_string "upgrade") else get_header (r_headers (c_response cl2)) name) as Hg
      by (intros name; apply (header_set_get {| cl3 with c_flags := with_keep (c_flags cl3) false |})).
    unfold switching_fields. rewrite !Hg, !Hh. by destruct (zlen (default [] proto) =? 0).
  - by constructor.
  - exact Hco.
  - change (Z.land (with_keep (c_flags cl3) false) (Z.lor HTTP_CHUNKED_RESPONSE HTTP_STREAM_RESPONSE) = 0). rewrite Hwk. change (c_flags cl3) with (c_flags cl2).
    rewrite F4 by done. by apply (land_sub _ _ HTTP_HAS_CONTENT_LEN).
  - change (negb (Z.land (with_keep (c_flags cl3) false) HTTP_END_SESSION =? 0) = has_flag cl HTTP_END_SESSION). rewrite Hwk. change (c_flags cl3) with (c_flags cl2).
    by rewrite F4.
  - unfold iwn_http_response_write, iwn_http_response_code_set. change ((101 <? 0) || (599 <? 101)) with false. cbv iota. change (negb (0 =? 0)) with false. cbv iota.
    change (default (bytes_of_string "text/plain") (Some [])) with (@nil Z). change (zlen (@nil Z) =? 0) with true. cbv iota.
    unfold iwn_http_response_body_set, iwn_http_response_body_clear, iwn_http_response_end.
    match goal with |- context [_client_response_headers_write_http session c ?x] => change x with cl3 end.
    rewrite Ht; [|change (get_header (r_headers (c_response cl3))) with (get_header (r_headers (c_response cl2)));
      rewrite Hh; destruct (zlen (default [] proto) =? 0); exact Hlen|done|done|done|].
    2: { change (r_body_len (c_response cl3)) with (r_body_len (c_response cl2)). rewrite Hb0. lia. }
    cbn [mbind option_bind]. change (body_bytes (c_response cl4)) with (Some (@nil Z)). cbn [mbind option_bind].
    change (r_code (c_response cl3)) with 101. fold text. by rewrite app_nil_r.
Qed.
Lemma completed_injects c : spec.(on_session_init) = None -> c.(ws_data) = Some (mkWsCtx [] None 0 (false, false) false) ->
  exists n, wh_wire n = wh_wire c.(net) /\ _on_response_completed ops spec c =
    Some (mkConn n (Some (mkWsCtx [] (Some (wslay_event_context_init true)) 0 (false, false) false)) true c.(disposer) true, true).
Proof.
  intros Hinit Hx. destruct (wh_alloc c.(net) 0) as (n1 & E1 & W1). destruct (wh_nodelay n1) as (n2 & E2 & W2).
  exists n2. split; [congruence|]. unfold _on_response_completed. rewrite Hx, E1. cbn [negb net]. unfold set_ctx. cbn [net x_msgs x_shut x_locked].
  rewrite E2. cbn [negb]. by rewrite Hinit.
Qed.

(** C3. The WebSocket handshake.  A request with [Upgrade: websocket] (in any case), version 13 and a key is answered with exactly one
    response, whatever the pieces the transport takes: status 101, [upgrade: websocket], [connection: upgrade] and the
    [sec-websocket-accept] of RFC 6455, the base64 text of the SHA-1 digest of the key and the GUID; the protocols of the request are
    echoed.  The connection is then injected into the event handler with a fresh wslay context of a server, without a timeout, and the session goes on. *)
Theorem ws_handshake f c cl key proto :
  spec.(on_http_init) = None -> spec.(on_session_init) = None -> upgrade_request cl key proto -> unanswered cl ->
  exists k c' cl' hs date,
    ('(c, cl, rv) ← _route_handler ops spec junk session (S f) c cl; if rv =? 1 then writable session rops sp (S f) k c cl else None) = Some (c', cl') /\
    wh_wire c'.(net) = wh_wire c.(net) ++ reply_text 101 (bytes_of_string "Switching Protocols") date (hs ++ [content_length_field 0]) [] /\
    switching_fields cl key proto hs /\
    c'.(ws_data) = Some (mkWsCtx [] (Some (wslay_event_context_init true)) 0 (false, false) false) /\
    c'.(injected) = true /\ c'.(disposer) = true /\ c'.(no_timeout) = true /\ has_flag cl' HTTP_END_SESSION = has_flag cl HTTP_END_SESSION.
Proof.
  intros Hi1 Hi2 Hreq Hua. destruct (route_handler_writes (S f) c cl key proto Hi1 Hreq) as (n & Hn & E).
  destruct (switching_text (S f) (attached c n) cl key proto Hua) as (hs & cl1 & Hf & Hs & Hco & Hfl & Hend & Ew). cbv zeta in Hs.
  set (text := reply_text _ _ _ _ _) in Hs.
  destruct (write_reaches session rops sp f text _ (attached c n) cl1 0 (le_n _) Hs) as (k & c1 & Er & Hw & Happ & Hs1). cbn [sk_app sk_wire host_sink] in Hw, Happ.
  injection Happ as A1 A2 A3 A4. destruct (completed_injects c1 Hi2 A1) as (n2 & W2 & E2).
  exists k. do 2 eexists. exists hs, (server_time session (attached c n)). rewrite E, Ew.
  assert (_client_write session (S f) c1 (taken cl1 (zlen text)) =
    Some (mkConn n2 (Some (mkWsCtx [] (Some (wslay_event_context_init true)) 0 (false, false) false)) true (disposer c1) true,
          {| (taken cl1 (zlen text)) with c_completed := None |})) as Elast.
  { destruct Hs1 as [S1 S2 S3 S4 S5]. cbn [_client_write]. unfold _client_write_bytes. rewrite S4, S3, Z.ltb_irrefl. cbn [mbind option_bind negb].
    rewrite S4, S3, Z.eqb_refl, wh_pending. change (c_flags (taken cl1 (zlen text))) with (c_flags cl1). rewrite Hfl. cbn [negb orb Z.eqb].
    change (c_completed (taken cl1 (zlen text))) with (c_completed cl1). rewrite Hco, wh_completed, E2. done. }
  rewrite Elast in Er. split; [|split; [|split; [done|]]].
  - revert Er. destruct (_client_write session (S f) (attached c n) cl1) as [[c2 cl2]|]; [|done]. cbn [mbind option_bind Z.eqb]. intros Er. exact Er.
  - cbn [net]. rewrite W2, Hw, slice_full. change (net (attached c n)) with n. by rewrite Hn.
  - cbn [ws_data injected disposer no_timeout]. rewrite A3. by split_and!.
Qed.
End Handshake.

(** ** A concrete host *)

(** The world is what was written; at most seven bytes are taken at a time. *)
Definition seven_ops : ws_ops (list Z) :=
  mkWsOps (fun n _ => (n, IoAgain)) (fun n _ => (n, IoAgain)) (fun n _ => (n, true)) (fun n _ => (n, true)) (fun n => (n, true)) (fun n => n).
Definition quiet_spec : handler_spec (list Z) := mkHandlerSpec None None None None 0.
Definition seven_session : session_ops (conn (list Z)) :=
  mkOps (fun c d => ({| c with net := c.(net) ++ take 7 d |}, Z.min 7 (zlen d), false)) (fun _ => false) (fun c => (c, true)) (fun _ => bytes_of_string "now")
        (fun c cl => (c, cl)) (fun _ _ _ => None) (fun _ c cl => '(c, ok) ← _on_response_completed seven_ops quiet_spec c; Some (c, cl, ok)).

#[export] Instance seven_host : WsHost seven_ops quiet_spec seven_session.
Proof.
  refine {| wh_wire n := n; wh_budget _ := 0%nat |}.
  - intros c d Hd. do 2 eexists. split; [reflexivity|]. right.
    assert (0 < zlen d) by (destruct d; [done|rewrite zlen_cons; pose proof (zlen_nonneg d); lia]).
    split; [lia|]. split; [|done]. f_equal. destruct (Z.min_spec 7 (zlen d)) as [[_ ->]|[Hl ->]]; [done|].
    unfold zlen. rewrite Nat2Z.id. rewrite !take_ge; [done|lia|unfold zlen in Hl; lia].
  - done.
  - intros c. exists c.(net). by destruct c.
  - done.
  - done.
  - intros n size. by exists n.
  - intros n. by exists n.
Defined.

(** The header fields of the request of RFC 6455, section 1.2, laid out one after the other in the buffer. *)
Fixpoint lay_out (pos : Z) (words : list (Z * list Z)) : list token * list Z :=
  match words with
  | [] => ([], [])
  | (ty, w) :: words => let '(ts, buf) := lay_out (pos + zlen w) words in (mkToken pos (zlen w) ty :: ts, w ++ buf)
  end.
Definition rfc_request : client :=
  let key s := (HS_TOK_HEADER_KEY, bytes_of_string s) in
  let value s := (HS_TOK_HEADER_VAL, bytes_of_string s) in
  let '(ts, buf) := lay_out 0 [key "upgrade"; value "WebSocket"; key "connection"; value "Upgrade";
    key "sec-websocket-key"; value "dGhlIHNhbXBsZSBub25jZQ=="; key "sec-websocket-version"; value "13"] in
  {| client_accepted with c_stream := mkStream buf token_zero 0 (zlen buf) (zlen buf) 0 0 false; c_tokens := ts |}.

Lemma ws_handshake_witness :
  exists k c' cl' hs date,
    ('(c, cl, rv) ← _route_handler seven_ops quiet_spec 0 seven_session 5 (mkConn [] None false false false) rfc_request;
     if rv =? 1 then writable seven_session (mkReadOps (fun u _ => (u, inl (-1))) (fun _ _ => None) (fun _ => false)) (mkSpec 0 0 0 0) 5 k c cl else None) =
      Some (c', cl') /\
    c'.(net) = reply_text 101 (bytes_of_string "Switching Protocols") date (hs ++ [content_length_field 0]) [] /\
    get_header hs (bytes_of_string "sec-websocket-accept") = Some (bytes_of_string "s3pPLMBiTxaQ9kYGzzhZRbK+xOo=") /\ c'.(injected) = true.
Proof.
  destruct (ws_handshake seven_ops quiet_spec 0 seven_session (mkReadOps (fun u _ => (u, inl (-1))) (fun _ _ => None) (fun _ => false)) (mkSpec 0 0 0 0)
    4 (mkConn [] None false false false) rfc_request (bytes_of_string "dGhlIHNhbXBsZSBub25jZQ==") None) as (k & c' & cl' & hs & date & E & W & (_ & _ & Ha & _) & _ & I & _).
  - reflexivity.
  - reflexivity.
  - split; [by exists (bytes_of_string "WebSocket")|reflexivity|split; [reflexivity|split; [done|apply bytes_of_string_ok]]|reflexivity].
  - by split.
  - exists k, c', cl', hs, date. split; [exact E|]. split; [exact W|]. split; [|exact I]. rewrite Ha. vm_compute. reflexivity.
Defined.
