(* ===== verification/WsSession.v ===== *)
(** * WsSession: a WebSocket session of the server

    What [messages_received] and [messages_sent] are for wslay, this file is for the server: the events of an upgraded connection
    hand the messages of the peer to the application's handler and write the answers to its Pings. *)
From S2P Require Import Prelude HttpParser HttpResponse Utf8 Frame Event EventClose EventRecv EventSend WsServer.

(** The outside world of an open connection: bytes arrive ([wn_pending]) and are taken ([wn_sent]) in pieces, and either side blocks
    finitely often; memory is available; the application's handler takes a message ([wn_heard]), wants to go on, and does nothing else. *)
Class WsNet {N : Type} (ops : ws_ops N) (spec : handler_spec N) := {
  wn_pending : N -> list Z; wn_rbudget : N -> nat;
  wn_sent : N -> list Z; wn_wbudget : N -> nat;
  wn_heard : N -> list msg;
  wn_read n k n' r : ops.(nd_read) n k = (n', r) ->
    (r = IoAgain \/ exists l, r = IoDone l /\ l <> []) /\
    wn_sent n' = wn_sent n /\ wn_wbudget n' = wn_wbudget n /\ wn_heard n' = wn_heard n /\ (wn_rbudget n' <= wn_rbudget n)%nat;
  wn_stream n k n' r : ops.(nd_read) n k = (n', r) -> 0 < k ->
    let l := match r with IoDone l => l | _ => [] end in
    wn_pending n = l ++ wn_pending n' /\ zlen l <= k /\ (wn_pending n <> [] -> wn_rbudget n' < wn_rbudget n)%nat;
  wn_write n d n' r : ops.(nd_write) n d = (n', r) ->
    (r = IoAgain /\ wn_sent n' = wn_sent n /\ (d <> [] -> wn_wbudget n' < wn_wbudget n)%nat \/
     exists k, r = IoDone k /\ 0 < k <= zlen d /\ wn_sent n' = wn_sent n ++ take (Z.to_nat k) d /\ (wn_wbudget n' <= wn_wbudget n)%nat) /\
    wn_pending n' = wn_pending n /\ wn_rbudget n' = wn_rbudget n /\ wn_heard n' = wn_heard n;
  wn_alloc n size : exists n', ops.(nd_alloc) n size = (n', true) /\ wn_pending n' = wn_pending n /\ wn_rbudget n' = wn_rbudget n /\
    wn_sent n' = wn_sent n /\ wn_wbudget n' = wn_wbudget n /\ wn_heard n' = wn_heard n;
  wn_handler : exists h, spec.(ws_handler) = Some h /\ forall c m, exists n', h c m = Some ({| c with net := n' |}, true) /\
    wn_heard n' = wn_heard c.(net) ++ [m] /\ wn_pending n' = wn_pending c.(net) /\ wn_rbudget n' = wn_rbudget c.(net) /\
    wn_sent n' = wn_sent c.(net) /\ wn_wbudget n' = wn_wbudget c.(net) }.

Section Session.
Context {N : Type} (ops : ws_ops N) (spec : handler_spec N) `{!WsNet ops spec}.





(** ** The state between two events *)







(** *** The part that sends *)






(** *** The part that receives *)




(** *** One event *)






(** *** A session *)



End Session.

(** ** A concrete connection *)

(** The bytes to come with the sizes of the next reads and writes ([0] blocks), the bytes written and the messages heard. *)
Record wire_world := mkWorld { o_in : list Z; o_reads : list Z; o_out : list Z; o_writes : list Z; o_heard : list msg }.

Definition world_ops : ws_ops wire_world :=
  mkWsOps
    (fun n k => let size := match n.(o_reads) with [] => k | s :: _ => Z.min s k end in
                let l := take (Z.to_nat size) n.(o_in) in
                ({| n with o_in := drop (Z.to_nat size) n.(o_in); o_reads := tail n.(o_reads) |}, match l with [] => IoAgain | _ => IoDone l end))
    (fun n d => let size := match n.(o_writes) with [] => zlen d | s :: _ => Z.min s (zlen d) end in
                ({| n with o_out := n.(o_out) ++ take (Z.to_nat size) d; o_writes := tail n.(o_writes) |}, if 0 <? size then IoDone size else IoAgain))
    (fun n _ => (n, true)) (fun n _ => (n, true)) (fun n => (n, true)) (fun n => n).
Definition world_spec : handler_spec wire_world :=
  mkHandlerSpec (Some (fun c m => Some ({| c with net := {| c.(net) with o_heard := c.(net).(o_heard) ++ [m] |} |}, true))) None None None 0.

#[export] Program Instance world_net : WsNet world_ops world_spec :=
  {| wn_pending := o_in; wn_rbudget n := (length n.(o_reads) + length n.(o_in))%nat; wn_sent := o_out; wn_wbudget n := length n.(o_writes);
     wn_heard := o_heard |}.
Next Obligation.
  intros n k n' r E. injection E as <- <-. cbn. split; [|split_and!; try done].
  - destruct (take _ (o_in n)) as [|b l]; [by left|]. right. by exists (b :: l).
  - rewrite length_drop. destruct (o_reads n); cbn; lia.
Qed.
Next Obligation.
  intros n k n' r E Hk. injection E as <- <-. cbn.
  assert (forall l : list Z, match (match l with [] => IoAgain | _ => IoDone l end) with IoDone l => l | _ => [] end = l) as -> by (by intros []).
  split; [by rewrite take_drop|]. split; [unfold zlen; rewrite length_take; destruct (o_reads n); lia|].
  intros Hne. rewrite length_drop. destruct (o_reads n); cbn; [|lia]. destruct (o_in n); [done|]. cbn. lia.
Qed.
Next Obligation.
  intros n d n' r E. injection E as <- <-. cbn. split; [|done]. pose proof (zlen_nonneg d).
  destruct (Z.ltb_spec 0 (match o_writes n with [] => zlen d | s :: _ => Z.min s (zlen d) end)) as [Hp|Hp].
  - right. eexists. split; [done|]. split_and!; try done; destruct (o_writes n); cbn; lia.
  - left. split_and!; [done| |].
    + replace (Z.to_nat _) with 0%nat by lia. by rewrite app_nil_r.
    + intros Hd. destruct (o_writes n); cbn; [|lia]. destruct d; [done|]. rewrite zlen_cons in Hp. pose proof (zlen_nonneg d). lia.
Qed.
Next Obligation. intros n size. by exists n. Qed.
Next Obligation. eexists. split; [done|]. intros c m. by eexists. Qed.


