(* ===== verification/Proxy.v ===== *)
(** * Proxy: proxied sessions of the HTTP server, [src/src/http/iwn_http_server.c]

    A request handler may hand a session over to another server: the bytes received so far, with extra header fields, and all that
    follows are relayed to it and its answers back.  The two buffers are lists, null pointers [None]; the parts of the handlers that hold
    [proxy->mtx] are functions of their own, because the two sides of a relay run in different workers.
    String buffers and pools are iowow's, not part of this repository. *)
From S2P Require Import Prelude Url.

Definition RC_IO : Z := 1.
Definition RC_EOF : Z := 2.
Definition RC_ALLOC : Z := 3.
Definition RC_INVALID_STATE : Z := 4.
Definition RC_FAIL : Z := 5.
Definition RC_INVALID_VALUE : Z := 6.
Definition RC_UNSUPPORTED : Z := 7.
Definition RC_POLLER : Z := 8.

(** [struct proxy] without its mutex; the strings of [url] point into [px_urlbuf]. *)
Record proxy := mkProxy {
  px_rc : Z; from_endpoint_buf : option (list Z); to_endpoint_buf : option (list Z);
  url_raw : option (list Z); px_headers : list (list Z * list Z); px_host : option (list Z); px_port : Z;
  channel_buf_max_size : Z; timeout_connect_sec : Z; timeout_data_sec : Z;
  px_fd : Z; fd_timeout : Z; connected : bool; disconnected : bool }.

Definition proxy_zero : proxy := mkProxy 0 None None None [] None 0 0 0 0 0 0 false false.

(** The fields of [struct client] the code uses: [k_buf] is the stream up to its [length] ([None] the null pointer), [k_index] the
    position of the scanner, [k_proxied] whether [injected_poller_evh] is [_proxy_client_on_ready]. *)
Record pclient := mkPclient {
  k_fd : Z; k_refs : Z; k_destroyed : bool; k_buf : option (list Z); k_index : Z; k_proxied : bool; px : proxy }.

(** What [_client_accept] makes of a new client, as far as proxying is concerned. *)
Definition pclient_accepted (fd : Z) : pclient := mkPclient fd 1 false None 0 false {| proxy_zero with px_fd := -1; fd_timeout := -1 |}.

Definition set_px (c : pclient) (p : proxy) : pclient := {| c with px := p |}.

(** The outcome of the attempt to connect to one address of the endpoint. *)
Inductive attempt :=
| AFamily | ANtop | ASocket              (* unsupported family, [inet_ntop] or [socket] fails *)
| ANonblock (fd : Z) | ARefused (fd : Z) (* [_fd_make_non_blocking] or [connect] fails *)
| AConnecting (fd : Z).

Section Proxy.
(** The outside world: the two sockets, the poller, the allocator. *)
Context {W : Type}.
Record proxy_ops := mkProxyOps {
  pr_read_endpoint : W -> Z -> W * io (list Z);
  pr_write_endpoint : W -> list Z -> W * io Z;
  pr_read_client : W -> Z -> W * io (list Z);
  pr_write_client : W -> list Z -> W * io Z;
  pr_alloc : W -> W * bool;
  pr_getpeername : W -> W * bool;
  pr_arm : W -> Z -> Z -> W;              (* [iwn_poller_arm_events] *)
  pr_remove : W -> Z -> W;                (* [iwn_poller_remove] *)
  pr_add : W -> Z -> W * bool;            (* [iwn_poller_add] of the endpoint *)
  pr_schedule : W -> W * option Z;        (* [iwn_schedule2] of the timeout *)
  pr_resolve : W -> W * option (list attempt);
  pr_close : W -> Z -> W }.
Context (ops : proxy_ops).

(** ** Life cycle of the client *)

Definition _proxy_destroy (c : pclient) : pclient := set_px c proxy_zero.

(** [_client_destroy]: a client that is destroyed twice is undefined behaviour. *)
Definition _client_destroy (c : pclient) : option pclient :=
  if c.(k_destroyed) then None
  else let c := if c.(k_proxied) then _proxy_destroy c else c in Some {| c with k_destroyed := true |}.
Definition _client_unref (c : pclient) : option pclient :=
  if c.(k_destroyed) then None
  else let c := {| c with k_refs := c.(k_refs) - 1 |} in if c.(k_refs) =? 0 then _client_destroy c else Some c.

Definition _client_on_poller_adapter_dispose (w : W) (c : pclient) : option (W * pclient) :=
  let c := {| c with k_fd := -1 |} in
  let w := if -1 <? c.(px).(px_fd) then ops.(pr_remove) w c.(px).(px_fd) else w in
  c ← _client_unref c; Some (w, c).

(** ** The timeout of the connection *)

Definition _proxy_connect_check_timeout (w : W) (c : pclient) : option (W * pclient) :=
  let c := set_px c {| c.(px) with fd_timeout := -1 |} in
  let w := if negb c.(px).(connected) && (-1 <? c.(px).(px_fd)) then ops.(pr_remove) w c.(px).(px_fd) else w in
  c ← _client_unref c; Some (w, c).

Definition _proxy_connect_check_cancel (c : pclient) : pclient := set_px c {| c.(px) with fd_timeout := -1 |}.

(** The slot of the endpoint is gone. *)
Definition _proxy_endpoint_on_dispose (w : W) (c : pclient) : option (W * pclient) :=
  let c := set_px c {| c.(px) with connected := false; disconnected := true; px_fd := -1 |} in
  let w := if -1 <? c.(k_fd) then ops.(pr_arm) w c.(k_fd) IWN_POLLOUT else w in
  let w := if -1 <? c.(px).(fd_timeout) then ops.(pr_remove) w c.(px).(fd_timeout) else w in
  c ← _client_unref c; Some (w, c).

(** ** Relaying *)

(** The loops over [write] and [read], with the buffer and [rc]; [fuel] bounds the iterations. *)
Fixpoint write_all (write : W -> list Z -> W * io Z) (fuel : nat) (w : W) (buf : list Z) : option (W * list Z * Z) :=
  match buf with
  | [] => Some (w, [], 0)
  | _ =>
      match fuel with
      | O => None
      | S fuel =>
          let '(w, r) := write w buf in
          match r with
          | IoAgain => Some (w, buf, 0)
          | IoErr => Some (w, buf, RC_IO)
          | IoDone k => if k =? 0 then Some (w, buf, RC_EOF) else write_all write fuel w (drop (Z.to_nat k) buf)
          end
      end
  end.

Fixpoint read_all (read : W -> Z -> W * io (list Z)) (fuel : nat) (w : W) (buf : list Z) : option (W * list Z * Z) :=
  match fuel with
  | O => None
  | S fuel =>
      let '(w, r) := read w 1024 in
      match r with
      | IoAgain => Some (w, buf, 0)
      | IoErr => Some (w, buf, RC_IO)
      | IoDone [] => Some (w, buf, RC_EOF)
      | IoDone l =>
          let '(w, ok) := ops.(pr_alloc) w in
          if ok : bool then read_all read fuel w (buf ++ l) else Some (w, buf, RC_ALLOC)
      end
  end.

Definition _proxy_to_endpoint_write_lk (fuel : nat) (w : W) (c : pclient) : option (W * pclient * Z) :=
  buf ← c.(px).(to_endpoint_buf);
  '(w, buf, rc) ← write_all ops.(pr_write_endpoint) fuel w buf;
  Some (w, set_px c {| c.(px) with to_endpoint_buf := Some buf |}, rc).
Definition _proxy_from_endpoint_read_lk (fuel : nat) (w : W) (c : pclient) : option (W * pclient * Z) :=
  buf ← c.(px).(from_endpoint_buf);
  '(w, buf, rc) ← read_all ops.(pr_read_endpoint) fuel w buf;
  Some (w, set_px c {| c.(px) with from_endpoint_buf := Some buf |}, rc).
Definition _proxy_to_client_write_lk (fuel : nat) (w : W) (c : pclient) : option (W * pclient * Z) :=
  buf ← c.(px).(from_endpoint_buf);
  '(w, buf, rc) ← write_all ops.(pr_write_client) fuel w buf;
  Some (w, set_px c {| c.(px) with from_endpoint_buf := Some buf |}, rc).
Definition _proxy_from_client_read_lk (fuel : nat) (w : W) (c : pclient) : option (W * pclient * Z) :=
  buf ← c.(px).(to_endpoint_buf);
  '(w, buf, rc) ← read_all ops.(pr_read_client) fuel w buf;
  Some (w, set_px c {| c.(px) with to_endpoint_buf := Some buf |}, rc).

(** [rc ? -1 : ret] with [uint32_t ret]: both are converted to [uint32_t], and the result to [int64_t]. *)
Definition ret_value (rc ret : Z) : Z := u32 (if rc =? 0 then ret else -1).

Definition has_flag32 (events flag : Z) : bool := negb (Z.land events flag =? 0).
Definition room (max size : Z) : bool := (max =? 0) || (size <? max).

(** The masks at the end of the two handlers, computed under the mutex: what to arm on the other side and [ret]. *)
Definition endpoint_masks (c : pclient) (ret arm : Z) : option (Z * Z) :=
  from ← c.(px).(from_endpoint_buf);
  to ← c.(px).(to_endpoint_buf);
  let arm := if negb (zlen from =? 0) then Z.lor arm IWN_POLLOUT else arm in
  let ret := if room c.(px).(channel_buf_max_size) (zlen from) then Z.lor ret IWN_POLLIN else ret in
  Some (if negb (zlen to =? 0) then (arm, Z.lor ret IWN_POLLOUT) else (Z.lor arm IWN_POLLIN, ret)).

Definition client_masks (c : pclient) (ret : Z) : option (Z * Z) :=
  from ← c.(px).(from_endpoint_buf);
  to ← c.(px).(to_endpoint_buf);
  let arm := if c.(px).(connected) && negb (zlen to =? 0) then IWN_POLLOUT else 0 in
  let ret := if room c.(px).(channel_buf_max_size) (zlen to) then Z.lor ret IWN_POLLIN else ret in
  Some (if negb (zlen from =? 0) then (arm, Z.lor ret IWN_POLLOUT)
        else if c.(px).(disconnected) then (arm, u32 (-1))
        else (Z.lor arm IWN_POLLIN, ret)).

(** Reading and writing of an event, in this order; a failure ends it. *)
Definition relay (rd_lk wr_lk : nat -> W -> pclient -> option (W * pclient * Z)) (fuel : nat) (w : W) (c : pclient) (events : Z)
  : option (W * pclient * Z) :=
  '(w, c, rc) ← (if has_flag32 events IWN_POLLIN then rd_lk fuel w c else Some (w, c, 0));
  if negb (rc =? 0) then Some (w, c, rc)
  else if has_flag32 events IWN_POLLOUT then wr_lk fuel w c else Some (w, c, 0).

Definition _proxy_endpoint_on_ready (fuel : nat) (w : W) (c : pclient) (events : Z) : option (W * pclient * Z) :=
  let '(w, peer) := if c.(px).(connected) then (w, true) else ops.(pr_getpeername) w in
  if negb peer then
    (* [read] of the descriptor [-1] fails *)
    let c := set_px c {| c.(px) with px_fd := -1; px_rc := RC_IO |} in
    let w := if -1 <? c.(px).(fd_timeout) then ops.(pr_remove) w c.(px).(fd_timeout) else w in
    Some (w, c, -1)
  else
    let '(c, arm, ret) := if c.(px).(connected) then (c, 0, IWN_POLLET)
                          else (set_px c {| c.(px) with connected := true |}, IWN_POLLIN, Z.lor IWN_POLLET IWN_POLLOUT) in
    '(w, c, rc) ← relay _proxy_from_endpoint_read_lk _proxy_to_endpoint_write_lk fuel w c events;
    if negb (rc =? 0) then Some (w, c, ret_value rc ret)
    else
      '(arm, ret) ← endpoint_masks c ret arm;
      let w := if negb (arm =? 0) then ops.(pr_arm) w c.(k_fd) arm else w in
      Some (w, c, ret_value 0 ret).

Definition _proxy_client_on_ready (fuel : nat) (w : W) (c : pclient) (events : Z) : option (W * pclient * Z) :=
  '(w, c, rc) ← relay _proxy_from_client_read_lk _proxy_to_client_write_lk fuel w c events;
  if negb (rc =? 0) then Some (w, c, ret_value rc IWN_POLLET)
  else
    '(arm, ret) ← client_masks c IWN_POLLET;
    let w := if negb (arm =? 0) then ops.(pr_arm) w c.(px).(px_fd) arm else w in
    Some (w, c, ret_value 0 ret).

(** ** Starting a relay *)

(** The loop over the addresses: the descriptor or [rc], with the descriptor left open by a failure. *)
Fixpoint connect_loop (w : W) (l : list attempt) : W * (Z * option Z + Z) :=
  match l with
  | [] => (w, inl (RC_FAIL, None))
  | AFamily :: _ => (w, inl (RC_FAIL, None))
  | ANtop :: _ => (w, inl (RC_IO, None))
  | ASocket :: l => connect_loop w l
  | ANonblock fd :: _ => (w, inl (RC_IO, Some fd))
  | ARefused fd :: l => connect_loop (ops.(pr_close) w fd) l
  | AConnecting fd :: _ => (w, inr fd)
  end.

Definition _proxy_endpoint_connect (w : W) (c : pclient) : option (W * pclient * Z) :=
  if -1 <? c.(px).(px_fd) then Some (w, c, RC_INVALID_STATE)
  else
    let '(w, addrs) := ops.(pr_resolve) w in
    match addrs with
    | None => Some (w, c, RC_FAIL)
    | Some l =>
        let '(w, r) := connect_loop w l in
        match r with
        | inl (rc, fd) => Some (match fd with Some fd => ops.(pr_close) w fd | None => w end, c, rc)
        | inr fd =>
            let c := {| c with k_refs := c.(k_refs) + 1 |} in
            let '(w, ok) := ops.(pr_add) w fd in
            if negb ok then c ← _client_unref c; Some (ops.(pr_close) w fd, c, RC_POLLER)
            else
              let c := set_px c {| c.(px) with px_fd := fd |} in
              if c.(px).(timeout_connect_sec) =? 0 then Some (w, c, 0)
              else
                let c := {| c with k_refs := c.(k_refs) + 1 |} in
                let '(w, t) := ops.(pr_schedule) w in
                match t with
                | None => c ← _client_unref c; Some (w, c, 0)
                | Some tfd => Some (w, set_px c {| c.(px) with fd_timeout := tfd |}, 0)
                end
        end
    end.

(** [iwxstr_insert_printf]; a position behind the end is refused, and [%.*s] stops at a zero. *)
Definition insert_at (buf : list Z) (pos : Z) (text : list Z) : list Z :=
  if (pos <? 0) || (zlen buf <? pos) then buf else take (Z.to_nat pos) buf ++ text ++ drop (Z.to_nat pos) buf.
Definition header_line (h : list Z * list Z) : list Z := cstr h.1 ++ [58; 32] ++ cstr h.2 ++ [13; 10].
Definition insert_headers (hs : list (list Z * list Z)) (buf : list Z) (pos : Z) : list Z :=
  fold_left (fun buf h => insert_at buf pos (header_line h)) hs buf.

(** [iwxstr_wrap] takes the buffer of the stream over; the first allocation is [iwxstr_new]. *)
Definition _proxy_init (w : W) (c : pclient) : option (W * pclient * bool) :=
  if bool_decide (c.(px).(url_raw) = None) || negb (c.(px).(px_rc) =? 0)
  then Some (w, set_px c {| c.(px) with px_rc := RC_INVALID_STATE |}, false)
  else
    let c := if c.(px).(channel_buf_max_size) =? 0 then set_px c {| c.(px) with channel_buf_max_size := 1048576 |} else c in
    let fail w c rc := Some (w, _proxy_destroy (set_px c {| c.(px) with px_rc := rc |}), false) in
    let '(w, ok) := ops.(pr_alloc) w in
    if negb ok then fail w c RC_ALLOC
    else
      let c := set_px c {| c.(px) with from_endpoint_buf := Some [] |} in
      let '(w, ok) := ops.(pr_alloc) w in
      if negb ok then fail w c RC_ALLOC
      else
        buf ← c.(k_buf);
        let c := set_px c {| c.(px) with to_endpoint_buf := Some (insert_headers c.(px).(px_headers) buf (c.(k_index) - 1)) |} in
        '(w, c, rc) ← _proxy_endpoint_connect w c;
        if negb (rc =? 0) then
          fail w (set_px {| c with k_buf := c.(px).(to_endpoint_buf) |} {| c.(px) with to_endpoint_buf := None |}) rc
        else Some (w, {| c with k_buf := None; k_proxied := true |}, true).

(** [_proxy_check] with the decision of the application. *)
Definition _proxy_check (handler : option (W -> pclient -> W * pclient * bool)) (w : W) (c : pclient) : option (W * pclient * bool) :=
  match handler with
  | None => Some (w, c, false)
  | Some f =>
      let '(w, c, yes) := f w c in
      if yes && negb (bool_decide (c.(px).(url_raw) = None)) then _proxy_init w c else Some (w, c, false)
  end.

(** ** The application's settings *)

Definition iwn_http_proxy_is_error (c : pclient) : Z := c.(px).(px_rc).
Definition iwn_http_proxy_is_enabled (c : pclient) : bool := negb (bool_decide (c.(px).(url_raw) = None)).
Definition iwn_http_proxy_timeout_connect_set (c : pclient) (sec : Z) : pclient := set_px c {| c.(px) with timeout_connect_sec := sec |}.
Definition iwn_http_proxy_timeout_data_set (c : pclient) (sec : Z) : pclient := set_px c {| c.(px) with timeout_data_sec := sec |}.
Definition iwn_http_proxy_channel_buf_max_size_set (c : pclient) (size : Z) : pclient := set_px c {| c.(px) with channel_buf_max_size := size |}.

(** Three allocations; [iwn_pair_add_pool] appends.  A negative length is not replaced by that of the string: [iwpool_strndup2] gets a size that wraps. *)
Definition iwn_http_proxy_header_set (w : W) (c : pclient) (name value : list Z) (len : Z) : option (W * pclient * bool) :=
  let '(w, ok1) := ops.(pr_alloc) w in
  if negb ok1 then Some (w, c, false)
  else if (len <? 0) || (zlen value <? len) then None
  else
    let '(w, ok2) := ops.(pr_alloc) w in
    if negb ok2 then Some (w, c, false)
    else
      let '(w, ok3) := ops.(pr_alloc) w in
      if negb ok3 then Some (w, c, false)
      else Some (w, set_px c {| c.(px) with px_headers := c.(px).(px_headers) ++ [(cstr name, take (Z.to_nat len) value)] |}, true).

Definition str_at (buf : list Z) (o : option Z) : option (list Z) := off ← o; Some (cstr (drop (Z.to_nat off) buf)).

Definition iwn_http_proxy_url_set (w : W) (c : pclient) (url : list Z) (url_len : Z) : option (W * pclient * bool) :=
  let u := arg_len url url_len in
  if iwn_http_proxy_is_enabled c then Some (w, c, false)
  else
    let fail w c rc := Some (w, set_px c {| c.(px) with px_rc := rc |}, false) in
    let '(w, ok1) := ops.(pr_alloc) w in
    if negb ok1 then fail w c RC_ALLOC
    else
      let '(w, ok2) := ops.(pr_alloc) w in
      if negb ok2 then fail w c RC_ALLOC
      else
        let c := set_px c {| c.(px) with url_raw := Some u |} in
        '(buf, p, rv) ← iwn_url_parse (u ++ [0]);
        let c := set_px c {| c.(px) with px_host := str_at buf p.(host); px_port := p.(port) |} in
        if rv =? -1 then fail w c RC_INVALID_VALUE
        else if negb (bool_decide (default (bytes_of_string "http") (str_at buf p.(scheme)) = bytes_of_string "http")) then fail w c RC_UNSUPPORTED
        else
          let path := default [] (str_at buf p.(path)) in
          if negb (bool_decide (path = [] \/ path = [47])) then fail w c RC_UNSUPPORTED
          else Some (w, if p.(port) =? 0 then set_px c {| c.(px) with px_port := 80 |} else c, true).
End Proxy.
Arguments proxy_ops : clear implicits.
