(* ===== verification/ProxyProps.v ===== *)
(** * ProxyProps: nothing is lost, repeated or reordered between the two sides of a relay *)
From S2P Require Import Prelude Url Proxy.

Section Props.
Context {W : Type} (ops : proxy_ops W).

(** The traffic of the two sockets: what was read and written so far.  A write takes a prefix of what it is given; nothing else is
    traffic. *)
Class RelayNet := {
  got_client : W -> list Z; got_endpoint : W -> list Z; put_client : W -> list Z; put_endpoint : W -> list Z;
  quiet w w' := got_client w' = got_client w /\ got_endpoint w' = got_endpoint w /\ put_client w' = put_client w /\ put_endpoint w' = put_endpoint w;
  rn_read_client w n w' r : ops.(pr_read_client) w n = (w', r) ->
    got_client w' = got_client w ++ match r with IoDone l => l | _ => [] end /\ got_endpoint w' = got_endpoint w /\
    put_client w' = put_client w /\ put_endpoint w' = put_endpoint w;
  rn_read_endpoint w n w' r : ops.(pr_read_endpoint) w n = (w', r) ->
    got_endpoint w' = got_endpoint w ++ match r with IoDone l => l | _ => [] end /\ got_client w' = got_client w /\
    put_client w' = put_client w /\ put_endpoint w' = put_endpoint w;
  rn_write_client w d w' r : ops.(pr_write_client) w d = (w', r) ->
    match r with
    | IoDone k => 0 <= k <= zlen d /\ put_client w' = put_client w ++ take (Z.to_nat k) d
    | _ => put_client w' = put_client w
    end /\ got_client w' = got_client w /\ got_endpoint w' = got_endpoint w /\ put_endpoint w' = put_endpoint w;
  rn_write_endpoint w d w' r : ops.(pr_write_endpoint) w d = (w', r) ->
    match r with
    | IoDone k => 0 <= k <= zlen d /\ put_endpoint w' = put_endpoint w ++ take (Z.to_nat k) d
    | _ => put_endpoint w' = put_endpoint w
    end /\ got_client w' = got_client w /\ got_endpoint w' = got_endpoint w /\ put_client w' = put_client w;
  rn_alloc w w' b : ops.(pr_alloc) w = (w', b) -> b = true /\ quiet w w';
  rn_peer w w' b : ops.(pr_getpeername) w = (w', b) -> quiet w w';
  rn_arm w fd ev : quiet w (ops.(pr_arm) w fd ev);
  rn_remove w fd : quiet w (ops.(pr_remove) w fd) }.
Context `{RelayNet}.

(** ** The steps of a relay

    The two handlers run in different workers; they share the buffers only under the mutex.  So a step is a part of a handler that holds the mutex, or a whole handler,
    or one of the callbacks of the poller and the scheduler. *)
Inductive relay_step : W * pclient -> W * pclient -> Prop :=
| rs_from_client fuel w c w' c' rc : _proxy_from_client_read_lk ops fuel w c = Some (w', c', rc) -> relay_step (w, c) (w', c')
| rs_to_client fuel w c w' c' rc : _proxy_to_client_write_lk ops fuel w c = Some (w', c', rc) -> relay_step (w, c) (w', c')
| rs_from_endpoint fuel w c w' c' rc : _proxy_from_endpoint_read_lk ops fuel w c = Some (w', c', rc) -> relay_step (w, c) (w', c')
| rs_to_endpoint fuel w c w' c' rc : _proxy_to_endpoint_write_lk ops fuel w c = Some (w', c', rc) -> relay_step (w, c) (w', c')
| rs_client fuel w c ev w' c' ret : _proxy_client_on_ready ops fuel w c ev = Some (w', c', ret) -> relay_step (w, c) (w', c')
| rs_endpoint fuel w c ev w' c' ret : _proxy_endpoint_on_ready ops fuel w c ev = Some (w', c', ret) -> relay_step (w, c) (w', c')
| rs_endpoint_dispose w c w' c' : _proxy_endpoint_on_dispose ops w c = Some (w', c') -> relay_step (w, c) (w', c')
| rs_client_dispose w c w' c' : _client_on_poller_adapter_dispose ops w c = Some (w', c') -> relay_step (w, c) (w', c')
| rs_timeout w c w' c' : _proxy_connect_check_timeout ops w c = Some (w', c') -> relay_step (w, c) (w', c')
| rs_cancel w c : relay_step (w, c) (w, _proxy_connect_check_cancel c).

(** The buffers hold exactly what is on its way; [req] is what the relay started with. *)
Definition relayed (req : list Z) (s : W * pclient) : Prop :=
  s.2.(k_destroyed) = true \/
  exists from to, s.2.(px).(from_endpoint_buf) = Some from /\ s.2.(px).(to_endpoint_buf) = Some to /\
    put_endpoint s.1 ++ to = req ++ got_client s.1 /\ put_client s.1 ++ from = got_endpoint s.1.

Lemma calm_trans w1 w2 w3 : quiet w1 w2 -> quiet w2 w3 -> quiet w1 w3.
Proof. unfold quiet. intuition congruence. Qed.
Lemma calm_refl w : quiet w w.
Proof. by unfold quiet. Qed.

Lemma write_all_client fuel : forall w buf w' buf' rc, write_all ops.(pr_write_client) fuel w buf = Some (w', buf', rc) ->
  put_client w' ++ buf' = put_client w ++ buf /\ got_client w' = got_client w /\ got_endpoint w' = got_endpoint w /\ put_endpoint w' = put_endpoint w.
Proof.
  induction fuel as [|fuel IH]; intros w buf w' buf' rc E; (destruct buf as [|b buf]; [by injection E as <- <- <-|]); [done|].
  cbn [write_all] in E. destruct (pr_write_client ops w (b :: buf)) as [w1 r] eqn:Ew. apply rn_write_client in Ew as (H1 & H2 & H3 & H4).
  destruct r as [| |k]; [by injection E as <- <- <-; rewrite H1|by injection E as <- <- <-; rewrite H1|].
  destruct H1 as [Hk H1]. destruct (Z.eqb_spec k 0) as [->|Hne]; [injection E as <- <- <-; by rewrite H1, app_nil_r|].
  destruct (IH _ _ _ _ _ E) as (G1 & G2 & G3 & G4). rewrite G1, H1, <- app_assoc, take_drop. split_and!; congruence.
Qed.
Lemma write_all_endpoint fuel : forall w buf w' buf' rc, write_all ops.(pr_write_endpoint) fuel w buf = Some (w', buf', rc) ->
  put_endpoint w' ++ buf' = put_endpoint w ++ buf /\ got_client w' = got_client w /\ got_endpoint w' = got_endpoint w /\ put_client w' = put_client w.
Proof.
  induction fuel as [|fuel IH]; intros w buf w' buf' rc E; (destruct buf as [|b buf]; [by injection E as <- <- <-|]); [done|].
  cbn [write_all] in E. destruct (pr_write_endpoint ops w (b :: buf)) as [w1 r] eqn:Ew. apply rn_write_endpoint in Ew as (H1 & H2 & H3 & H4).
  destruct r as [| |k]; [by injection E as <- <- <-; rewrite H1|by injection E as <- <- <-; rewrite H1|].
  destruct H1 as [Hk H1]. destruct (Z.eqb_spec k 0) as [->|Hne]; [injection E as <- <- <-; by rewrite H1, app_nil_r|].
  destruct (IH _ _ _ _ _ E) as (G1 & G2 & G3 & G4). rewrite G1, H1, <- app_assoc, take_drop. split_and!; congruence.
Qed.

Lemma alloc_fine w w' b : ops.(pr_alloc) w = (w', b) -> b = true /\ got_client w' = got_client w /\ got_endpoint w' = got_endpoint w /\
  put_client w' = put_client w /\ put_endpoint w' = put_endpoint w.
Proof. intros E%rn_alloc. exact E. Qed.

Lemma read_all_client fuel : forall w buf w' buf' rc, read_all ops ops.(pr_read_client) fuel w buf = Some (w', buf', rc) ->
  exists l, buf' = buf ++ l /\ got_client w' = got_client w ++ l /\ got_endpoint w' = got_endpoint w /\ put_client w' = put_client w /\
    put_endpoint w' = put_endpoint w.
Proof.
  induction fuel as [|fuel IH]; intros w buf w' buf' rc E; [done|]. cbn [read_all] in E.
  destruct (pr_read_client ops w 1024) as [w1 r] eqn:Er. apply rn_read_client in Er as (H1 & H2 & H3 & H4).
  destruct r as [| |[|x l]]; try (by injection E as <- <- <-; exists []; rewrite app_nil_r in H1; rewrite !app_nil_r).
  destruct (pr_alloc ops w1) as [w2 ok] eqn:Ea. apply alloc_fine in Ea as (-> & A1 & A2 & A3 & A4).
  destruct (IH _ _ _ _ _ E) as (l' & -> & G1 & G2 & G3 & G4). exists ((x :: l) ++ l'). rewrite !app_assoc.
  split_and!; [done|congruence..].
Qed.
Lemma read_all_endpoint fuel : forall w buf w' buf' rc, read_all ops ops.(pr_read_endpoint) fuel w buf = Some (w', buf', rc) ->
  exists l, buf' = buf ++ l /\ got_endpoint w' = got_endpoint w ++ l /\ got_client w' = got_client w /\ put_client w' = put_client w /\
    put_endpoint w' = put_endpoint w.
Proof.
  induction fuel as [|fuel IH]; intros w buf w' buf' rc E; [done|]. cbn [read_all] in E.
  destruct (pr_read_endpoint ops w 1024) as [w1 r] eqn:Er. apply rn_read_endpoint in Er as (H1 & H2 & H3 & H4).
  destruct r as [| |[|x l]]; try (by injection E as <- <- <-; exists []; rewrite app_nil_r in H1; rewrite !app_nil_r).
  destruct (pr_alloc ops w1) as [w2 ok] eqn:Ea. apply alloc_fine in Ea as (-> & A1 & A2 & A3 & A4).
  destruct (IH _ _ _ _ _ E) as (l' & -> & G1 & G2 & G3 & G4). exists ((x :: l) ++ l'). rewrite !app_assoc.
  split_and!; [done|congruence..].
Qed.

(** ** Each step keeps the invariant *)
Context (req : list Z).

Definition keeps (lk : nat -> W -> pclient -> option (W * pclient * Z)) : Prop :=
  forall fuel w c w' c' rc, lk fuel w c = Some (w', c', rc) -> relayed req (w, c) -> relayed req (w', c').

(** What does not touch the buffers and is no traffic. *)
Definition same_bufs (c c' : pclient) : Prop :=
  c'.(k_destroyed) = c.(k_destroyed) /\ c'.(px).(from_endpoint_buf) = c.(px).(from_endpoint_buf) /\
  c'.(px).(to_endpoint_buf) = c.(px).(to_endpoint_buf).
Lemma relayed_frame w c w' c' : quiet w w' -> same_bufs c c' -> relayed req (w, c) -> relayed req (w', c').
Proof.
  intros (Q1 & Q2 & Q3 & Q4) (B1 & B2 & B3) [Hd|(f & t & Hf & Ht & P1 & P2)]; [left; cbn in *; congruence|].
  right. exists f, t. cbn in *. by rewrite B2, B3, Q1, Q2, Q3, Q4.
Qed.

Lemma keeps_to_endpoint : keeps (_proxy_to_endpoint_write_lk ops).
Proof.
  intros fuel w c w' c' rc E R. unfold _proxy_to_endpoint_write_lk in E.
  destruct (to_endpoint_buf (px c)) as [buf|] eqn:Eb; [|done]. cbn in E.
  destruct (write_all _ fuel w buf) as [[[w1 buf'] rc']|] eqn:Ew; [|done]. injection E as <- <- <-.
  apply write_all_endpoint in Ew as (H1 & H2 & H3 & H4).
  destruct R as [Hd|(f & t & Hf & Ht & P1 & P2)]; [by left|]. right. exists f, buf'. cbn in *. split_and!; congruence.
Qed.
Lemma keeps_to_client : keeps (_proxy_to_client_write_lk ops).
Proof.
  intros fuel w c w' c' rc E R. unfold _proxy_to_client_write_lk in E.
  destruct (from_endpoint_buf (px c)) as [buf|] eqn:Eb; [|done]. cbn in E.
  destruct (write_all _ fuel w buf) as [[[w1 buf'] rc']|] eqn:Ew; [|done]. injection E as <- <- <-.
  apply write_all_client in Ew as (H1 & H2 & H3 & H4).
  destruct R as [Hd|(f & t & Hf & Ht & P1 & P2)]; [by left|]. right. exists buf', t. cbn in *. split_and!; congruence.
Qed.
Lemma keeps_from_client : keeps (_proxy_from_client_read_lk ops).
Proof.
  intros fuel w c w' c' rc E R. unfold _proxy_from_client_read_lk in E.
  destruct (to_endpoint_buf (px c)) as [buf|] eqn:Eb; [|done]. cbn in E.
  destruct (read_all _ _ fuel w buf) as [[[w1 buf'] rc']|] eqn:Ew; [|done]. injection E as <- <- <-.
  apply read_all_client in Ew as (l & -> & H1 & H2 & H3 & H4).
  destruct R as [Hd|(f & t & Hf & Ht & P1 & P2)]; [by left|]. right. exists f, (buf ++ l). cbn in *.
  replace t with buf in P1 by congruence. rewrite H1, H4, !app_assoc, P1. split_and!; congruence.
Qed.
Lemma keeps_from_endpoint : keeps (_proxy_from_endpoint_read_lk ops).
Proof.
  intros fuel w c w' c' rc E R. unfold _proxy_from_endpoint_read_lk in E.
  destruct (from_endpoint_buf (px c)) as [buf|] eqn:Eb; [|done]. cbn in E.
  destruct (read_all _ _ fuel w buf) as [[[w1 buf'] rc']|] eqn:Ew; [|done]. injection E as <- <- <-.
  apply read_all_endpoint in Ew as (l & -> & H1 & H2 & H3 & H4).
  destruct R as [Hd|(f & t & Hf & Ht & P1 & P2)]; [by left|]. right. exists (buf ++ l), t. cbn in *.
  replace f with buf in P2 by congruence. rewrite H1, H3, !app_assoc, P2. split_and!; congruence.
Qed.

Lemma keeps_relay rd wr events : keeps rd -> keeps wr -> keeps (fun fuel w c => relay rd wr fuel w c events).
Proof.
  intros Hr Hw fuel w c w' c' rc E R. unfold relay in E.
  destruct (if has_flag32 events IWN_POLLIN then rd fuel w c else Some (w, c, 0)) as [[[w1 c1] rc1]|] eqn:E1; [|done]. cbn in E.
  assert (R1 : relayed req (w1, c1)) by (destruct (has_flag32 events IWN_POLLIN); [by eapply Hr|by injection E1 as <- <- <-]).
  destruct (negb (rc1 =? 0)); [by injection E as <- <- <-|]. destruct (has_flag32 events IWN_POLLOUT); [by eapply Hw|by injection E as <- <- <-].
Qed.

Lemma relayed_unref w c c' : _client_unref c = Some c' -> relayed req (w, c) -> relayed req (w, c').
Proof.
  unfold _client_unref, _client_destroy. intros E R. destruct (k_destroyed c) eqn:Ed; [done|]. cbn -[Z.sub] in E.
  destruct (k_refs c - 1 =? 0).
  - injection E as <-. left. by destruct (k_proxied c).
  - injection E as <-. eapply relayed_frame; [apply calm_refl| |exact R]. done.
Qed.
Lemma quiet_if (b : bool) w w' : quiet w w' -> quiet w (if b then w' else w).
Proof. destruct b; [done|]. intros _. apply calm_refl. Qed.

Lemma step_client fuel w c ev w' c' ret : _proxy_client_on_ready ops fuel w c ev = Some (w', c', ret) -> relayed req (w, c) -> relayed req (w', c').
Proof.
  intros E R. unfold _proxy_client_on_ready in E. destruct (relay _ _ fuel w c ev) as [[[w1 c1] rc1]|] eqn:E1; [|done].
  apply (keeps_relay _ _ ev keeps_from_client keeps_to_client) in E1. specialize (E1 R).
  cbn [mbind option_bind] in E. destruct (negb (rc1 =? 0)); [by injection E as <- <- <-|].
  destruct (client_masks c1 IWN_POLLET) as [[arm r]|]; [|done]. injection E as <- <- <-.
  eapply relayed_frame; [apply quiet_if, rn_arm|done|exact E1].
Qed.
Lemma step_endpoint fuel w c ev w' c' ret : _proxy_endpoint_on_ready ops fuel w c ev = Some (w', c', ret) -> relayed req (w, c) -> relayed req (w', c').
Proof.
  intros E R. unfold _proxy_endpoint_on_ready in E.
  destruct (if connected (px c) then (w, true) else pr_getpeername ops w) as [w0 peer] eqn:E0.
  assert (Q : quiet w w0) by (destruct (connected (px c)); [injection E0 as <- <-; apply calm_refl|by eapply rn_peer]).
  destruct peer; cbn [negb] in E.
  - destruct (if connected (px c) then (c, 0, IWN_POLLET) else _) as [[c0 arm0] ret0] eqn:Ec.
    assert (R0 : relayed req (w0, c0)).
    { eapply relayed_frame; [exact Q| |exact R]. destruct (connected (px c)); by injection Ec as <- <- <-. }
    destruct (relay _ _ fuel w0 c0 ev) as [[[w1 c1] rc1]|] eqn:E1; [|done].
    apply (keeps_relay _ _ ev keeps_from_endpoint keeps_to_endpoint) in E1. specialize (E1 R0).
    cbn [mbind option_bind] in E. destruct (negb (rc1 =? 0)); [by injection E as <- <- <-|].
    destruct (endpoint_masks c1 ret0 arm0) as [[arm r]|]; [|done]. injection E as <- <- <-.
    eapply relayed_frame; [apply quiet_if, rn_arm|done|exact E1].
  - injection E as <- <- <-. eapply relayed_frame; [eapply calm_trans; [exact Q|apply quiet_if, rn_remove]| |exact R]. done.
Qed.

(** A callback that only sets flags, tells the poller and drops a reference. *)
Lemma step_unref w c w1 c1 w' c' : (c2 ← _client_unref c1; Some (w1, c2)) = Some (w', c') -> quiet w w1 -> same_bufs c c1 ->
  relayed req (w, c) -> relayed req (w', c').
Proof.
  intros E Q B R. destruct (_client_unref c1) as [c2|] eqn:Eu; [|done]. injection E as <- <-.
  eapply relayed_unref; [exact Eu|]. by eapply relayed_frame.
Qed.

Lemma relay_step_keeps s s' : relay_step s s' -> relayed req s -> relayed req s'.
Proof.
  intros [fuel w c w' c' rc E|fuel w c w' c' rc E|fuel w c w' c' rc E|fuel w c w' c' rc E|fuel w c ev w' c' ret E|fuel w c ev w' c' ret E
         |w c w' c' E|w c w' c' E|w c w' c' E|w c] R.
  - by eapply keeps_from_client.
  - by eapply keeps_to_client.
  - by eapply keeps_from_endpoint.
  - by eapply keeps_to_endpoint.
  - by eapply step_client.
  - by eapply step_endpoint.
  - eapply step_unref; [exact E| | |exact R]; [|done]. eapply calm_trans; apply quiet_if; [apply rn_arm|apply rn_remove].
  - eapply step_unref; [exact E| | |exact R]; [|done]. apply quiet_if, rn_remove.
  - eapply step_unref; [exact E| | |exact R]; [|done]. apply quiet_if, rn_remove.
  - eapply relayed_frame; [apply calm_refl| |exact R]. done.
Qed.

(** ** The request the relay starts with *)

Lemma insert_at_inside buf pos text : 0 <= pos <= zlen buf -> insert_at buf pos text = take (Z.to_nat pos) buf ++ text ++ drop (Z.to_nat pos) buf.
Proof. intros Hp. unfold insert_at. by rewrite (proj2 (Z.ltb_ge pos 0)), (proj2 (Z.ltb_ge (zlen buf) pos)) by lia. Qed.

(** Each field goes in front of the one before. *)
Definition with_headers (hs : list (list Z * list Z)) (buf : list Z) (pos : Z) : list Z :=
  take (Z.to_nat pos) buf ++ concat (map header_line (rev hs)) ++ drop (Z.to_nat pos) buf.
Lemma insert_headers_at hs : forall buf pos, 0 <= pos <= zlen buf -> insert_headers hs buf pos = with_headers hs buf pos.
Proof.
  unfold with_headers. induction hs as [|h hs IH]; intros buf pos Hp; cbn -[header_line].
  - by rewrite take_drop.
  - unfold insert_headers in IH. rewrite insert_at_inside by done.
    assert (Hl : length (take (Z.to_nat pos) buf) = Z.to_nat pos) by (unfold zlen in Hp; rewrite length_take; lia).
    rewrite IH by (unfold zlen in *; rewrite !length_app, Hl; lia).
    rewrite take_app_length', drop_app_length' by done. rewrite map_app, concat_app, <- !app_assoc. cbn -[header_line].
    by rewrite <- ?app_assoc, ?app_nil_r.
Qed.

(** What [_proxy_init] leaves in the buffers when it succeeds. *)
Lemma endpoint_connect_bufs w c w' c' rc : _proxy_endpoint_connect ops w c = Some (w', c', rc) -> rc = 0 ->
  c.(k_destroyed) = false -> 0 < c.(k_refs) -> same_bufs c c'.
Proof.
  unfold _proxy_endpoint_connect. intros E -> Hd Hr. destruct (-1 <? px_fd (px c)); [done|].
  destruct (pr_resolve ops w) as [w1 [l|]]; [|done]. destruct (connect_loop ops w1 l) as [w2 [[rc fd]|fd]] eqn:El.
  - injection E as _ <- ->. done.
  - destruct (pr_add ops w2 fd) as [w3 ok]. destruct ok; cbn [negb] in E; [|by destruct (_client_unref _)].
    cbn -[Z.add] in E. destruct (timeout_connect_sec (px c) =? 0); [by injection E as <- <-|].
    destruct (pr_schedule ops w3) as [w4 [tfd|]]; [by injection E as <- <-|].
    unfold _client_unref in E. cbn -[Z.add Z.sub] in E. rewrite Hd in E.
    destruct (Z.eqb_spec (k_refs c + 1 + 1 - 1) 0); [lia|]. by injection E as <- <-.
Qed.

Lemma init_bufs w c buf w' c' : _proxy_init ops w c = Some (w', c', true) -> c.(k_buf) = Some buf -> c.(k_destroyed) = false -> 0 < c.(k_refs) ->
  0 < c.(k_index) <= zlen buf ->
  from_endpoint_buf (px c') = Some [] /\ to_endpoint_buf (px c') = Some (with_headers c.(px).(px_headers) buf (c.(k_index) - 1)).
Proof.
  unfold _proxy_init. intros E Hb Hd Hr Hi. destruct (_ || _); [done|].
  set (c1 := if channel_buf_max_size (px c) =? 0 then _ else c) in E.
  assert (H1 : k_buf c1 = Some buf /\ k_destroyed c1 = false /\ 0 < k_refs c1 /\ k_index c1 = k_index c /\ px_headers (px c1) = px_headers (px c))
    by (unfold c1; by destruct (channel_buf_max_size (px c) =? 0)).
  clearbody c1. destruct H1 as (H1 & H2 & H3 & H4 & H5).
  destruct (pr_alloc ops w) as [w1 [|]]; [|done]. cbn [negb] in E. destruct (pr_alloc ops w1) as [w2 [|]]; [|done]. cbn [negb] in E.
  cbn [k_buf set_px] in E. rewrite H1 in E. cbn [mbind option_bind] in E.
  destruct (_proxy_endpoint_connect ops w2 _) as [[[w3 c3] rc]|] eqn:Ec; [|done]. cbn [mbind option_bind] in E.
  destruct (Z.eqb_spec rc 0) as [->|]; [|done]. cbn [negb] in E. injection E as <- <-.
  apply endpoint_connect_bufs in Ec as (_ & F1 & F2); [|done..]. cbn [px set_px] in *. rewrite F1, F2. cbn -[insert_headers].
  by rewrite insert_headers_at, H4, H5 by lia.
Qed.

Lemma relay_steps_keep s s' : rtc relay_step s s' -> relayed req s -> relayed req s'.
Proof. induction 1 as [|s1 s2 s3 E _ IH]; [done|]. intros R. by eapply IH, relay_step_keeps. Qed.

(** ** A client that takes what it is given *)

Lemma write_all_done fuel : (forall w d, d <> [] -> exists w' k, ops.(pr_write_client) w d = (w', IoDone k) /\ 0 < k) ->
  forall w buf, (length buf <= fuel)%nat -> exists w', write_all ops.(pr_write_client) fuel w buf = Some (w', [], 0).
Proof.
  intros Hacc. induction fuel as [|fuel IH]; intros w [|b buf] Hl; cbn [length] in Hl; try lia; [by exists w..|].
  cbn [write_all]. destruct (Hacc w (b :: buf)) as (w1 & k & E & Hk); [done|]. rewrite E.
  destruct (Z.eqb_spec k 0); [lia|]. destruct (IH w1 (drop (Z.to_nat k) (b :: buf))) as [w2 E2]; [rewrite length_drop; cbn [length]; lia|].
  by exists w2.
Qed.
End Props.
Arguments got_client {W ops _} w.
Arguments got_endpoint {W ops _} w.
Arguments put_client {W ops _} w.
Arguments put_endpoint {W ops _} w.
Arguments relay_step {W} ops.

Section Theorems.
Context {W : Type} (ops : proxy_ops W) `{!RelayNet ops}.

(** C7. A relay neither loses nor repeats nor reorders a byte, in either direction, whatever the interleaving of the two event handlers,
    of the parts of them that hold the mutex, and of the callbacks of the poller and of the connection timeout.  A session whose
    [_proxy_init] succeeds starts to relay with the request received so far and the extra header fields in it, the last one first, in
    front of the blank line.  From then on, until the client is freed: what was written to the endpoint and what waits for it is that
    request followed by all that was read from the client; what was written to the client and what waits for it is all that was read
    from the endpoint. *)
Theorem relay_fifo w c buf w0 c0 w' c' :
  c.(k_buf) = Some buf -> c.(k_destroyed) = false -> 0 < c.(k_refs) -> 0 < c.(k_index) <= zlen buf ->
  _proxy_init ops w c = Some (w0, c0, true) ->
  got_client w0 = [] -> got_endpoint w0 = [] -> put_client w0 = [] -> put_endpoint w0 = [] ->
  rtc (relay_step ops) (w0, c0) (w', c') -> c'.(k_destroyed) = false ->
  exists from to, c'.(px).(from_endpoint_buf) = Some from /\ c'.(px).(to_endpoint_buf) = Some to /\
    put_endpoint w' ++ to = with_headers c.(px).(px_headers) buf (c.(k_index) - 1) ++ got_client w' /\
    put_client w' ++ from = got_endpoint w'.
Proof.
  intros Hb Hd Hr Hi E G1 G2 P1 P2 Hs Hd'. destruct (init_bufs ops w c buf w0 c0 E Hb Hd Hr Hi) as [F T].
  eapply relay_steps_keep in Hs as [Hx|Hx]; [cbn in Hx; congruence|exact Hx|].
  right. exists [], (with_headers (px_headers (px c)) buf (k_index c - 1)). cbn.
  rewrite G1, G2, P1, P2, !app_nil_r. done.
Qed.

(** Once the endpoint is gone, a client that takes at least a byte of each write gets everything: one event that says it is writable empties the
    buffer, so that exactly what was read from the endpoint has been written to the client.  The value that is to end the session
    is [4294967295] and not [-1], because [ret] is unsigned. *)
Theorem relay_flushed w c from to fuel :
  (forall w d, d <> [] -> exists w' k, ops.(pr_write_client) w d = (w', IoDone k) /\ 0 < k) ->
  c.(px).(from_endpoint_buf) = Some from -> c.(px).(to_endpoint_buf) = Some to -> c.(px).(disconnected) = true -> c.(px).(connected) = false ->
  put_client w ++ from = got_endpoint w -> (length from <= fuel)%nat ->
  exists w' c', _proxy_client_on_ready ops fuel w c IWN_POLLOUT = Some (w', c', 4294967295) /\
    put_client w' = got_endpoint w /\ c'.(px).(from_endpoint_buf) = Some [] /\ c'.(px).(to_endpoint_buf) = Some to.
Proof.
  intros Hacc Hf Ht Hdis Hcon HP2 Hl. destruct (write_all_done ops fuel Hacc w from Hl) as [w' E].
  unfold _proxy_client_on_ready, relay. replace (has_flag32 IWN_POLLOUT IWN_POLLIN) with false by done.
  replace (has_flag32 IWN_POLLOUT IWN_POLLOUT) with true by done. cbn [mbind option_bind negb Z.eqb].
  unfold _proxy_to_client_write_lk. rewrite Hf. cbn [mbind option_bind]. rewrite E. cbn [mbind option_bind negb Z.eqb].
  unfold client_masks. cbn [px set_px from_endpoint_buf to_endpoint_buf connected disconnected]. rewrite Ht, Hdis, Hcon.
  cbn -[ret_value u32]. eexists _, _. split; [reflexivity|]. apply (write_all_client ops) in E as (E & _).
  rewrite app_nil_r in E. split_and!; [exact (eq_trans E HP2)|done|done].
Qed.
End Theorems.

(** ** A network of two peers

    The client and the endpoint have parts of streams to send, at most 1024 bytes each; they take three bytes of each write. *)
Record duplex := mkDuplex { cl_in : list (list Z); ep_in : list (list Z); cl_got : list Z; ep_got : list Z; cl_put : list Z; ep_put : list Z }.
Definition duplex_ops : proxy_ops duplex := mkProxyOps
  (fun w _ => match w.(ep_in) with [] => (w, IoAgain) | l :: r => (mkDuplex w.(cl_in) r w.(cl_got) (w.(ep_got) ++ l) w.(cl_put) w.(ep_put), IoDone l) end)
  (fun w d => (mkDuplex w.(cl_in) w.(ep_in) w.(cl_got) w.(ep_got) w.(cl_put) (w.(ep_put) ++ take 3 d), IoDone (Z.min 3 (zlen d))))
  (fun w _ => match w.(cl_in) with [] => (w, IoAgain) | l :: r => (mkDuplex r w.(ep_in) (w.(cl_got) ++ l) w.(ep_got) w.(cl_put) w.(ep_put), IoDone l) end)
  (fun w d => (mkDuplex w.(cl_in) w.(ep_in) w.(cl_got) w.(ep_got) (w.(cl_put) ++ take 3 d) w.(ep_put), IoDone (Z.min 3 (zlen d))))
  (fun w => (w, true)) (fun w => (w, true)) (fun w _ _ => w) (fun w _ => w) (fun w _ => (w, true)) (fun w => (w, Some 9))
  (fun w => (w, Some [ASocket; AConnecting 7])) (fun w _ => w).

Lemma take_min3 (d : list Z) : take (Z.to_nat (Z.min 3 (zlen d))) d = take 3 d.
Proof. unfold zlen. destruct d as [|a [|b [|c d]]]; try done. cbn [length]. by replace (Z.to_nat _) with 3%nat by lia. Qed.
#[export] Instance duplex_net : RelayNet duplex_ops.
Proof.
  refine {| got_client := cl_got; got_endpoint := ep_got; put_client := cl_put; put_endpoint := ep_put |}.
  - intros w n w' r E. cbn in E. destruct (cl_in w); injection E as <- <-; cbn; by rewrite ?app_nil_r.
  - intros w n w' r E. cbn in E. destruct (ep_in w); injection E as <- <-; cbn; by rewrite ?app_nil_r.
  - intros w d w' r [= <- <-]. rewrite take_min3. pose proof (zlen_nonneg d). split_and!; try done; lia.
  - intros w d w' r [= <- <-]. rewrite take_min3. pose proof (zlen_nonneg d). split_and!; try done; lia.
  - by intros w w' b [= <- <-].
  - by intros w w' b [= <- <-].
  - done.
  - done.
Defined.

Definition duplex0 : duplex := mkDuplex [[65; 66]] [[80; 81; 82; 83]; [84]] [] [] [] [].
Definition duplex_client : pclient :=
  mkPclient 5 1 false (Some [71; 13; 10; 13; 10]) 4 false
    (mkProxy 0 None None (Some [104]) [([97], [98]); ([99], [100])] (Some [104]) 80 0 3 0 (-1) (-1) false false).

Definition duplex1 : duplex * pclient * bool :=
  Eval vm_compute in default (duplex0, duplex_client, false) (_proxy_init duplex_ops duplex0 duplex_client).
Definition duplex2 : duplex * pclient * Z :=
  Eval vm_compute in default (duplex0, duplex_client, 0) (_proxy_client_on_ready duplex_ops 100 duplex1.1.1 duplex1.1.2 IWN_POLLIN).
Definition duplex3 : duplex * pclient * Z :=
  Eval vm_compute in default (duplex0, duplex_client, 0) (_proxy_endpoint_on_ready duplex_ops 100 duplex2.1.1 duplex2.1.2 5).

(** The header fields go in, the request and two more bytes go to the endpoint, and its answer is read. *)
Lemma relay_fifo_witness : ep_put duplex3.1.1 = [71; 13; 10; 99; 58; 32; 100; 13; 10; 97; 58; 32; 98; 13; 10; 13; 10; 65; 66] /\
  exists from to, duplex3.1.2.(px).(from_endpoint_buf) = Some from /\ duplex3.1.2.(px).(to_endpoint_buf) = Some to /\
    put_endpoint duplex3.1.1 ++ to = with_headers (px_headers (px duplex_client)) [71; 13; 10; 13; 10] 3 ++ got_client duplex3.1.1 /\
    put_client duplex3.1.1 ++ from = got_endpoint duplex3.1.1.
Proof.
  split; [vm_compute; reflexivity|].
  apply (relay_fifo duplex_ops duplex0 duplex_client [71; 13; 10; 13; 10] duplex1.1.1 duplex1.1.2 duplex3.1.1 duplex3.1.2); try (vm_compute; done).
  apply (rtc_l _ _ duplex2.1); [|apply rtc_once].
  - refine (rs_client duplex_ops 100 _ _ IWN_POLLIN _ _ duplex2.2 _). vm_compute. reflexivity.
  - refine (rs_endpoint duplex_ops 100 _ _ 5 _ _ duplex3.2 _). vm_compute. reflexivity.
Defined.

(** The endpoint has closed and four bytes wait for the client. *)
Definition closed_duplex : duplex := mkDuplex [] [] [] [80; 81; 82; 83; 84] [80] [].
Definition closed_client : pclient :=
  set_px duplex_client (mkProxy 0 (Some [81; 82; 83; 84]) (Some []) None [] None 80 0 3 0 (-1) (-1) false true).

Lemma relay_flushed_witness : exists w' c',
  _proxy_client_on_ready duplex_ops 4 closed_duplex closed_client IWN_POLLOUT = Some (w', c', 4294967295) /\
  put_client w' = got_endpoint closed_duplex /\ c'.(px).(from_endpoint_buf) = Some [] /\ c'.(px).(to_endpoint_buf) = Some [].
Proof.
  apply (relay_flushed duplex_ops closed_duplex closed_client [81; 82; 83; 84] []); try done.
  intros w [|b d] Hd; [done|]. eexists _, _. split; [reflexivity|]. pose proof (zlen_nonneg d). unfold zlen in *. cbn [length]. lia.
Defined.
