(* ===== verification/WsClient.v ===== *)
(** * WsClient: the WebSocket client, [src/src/ws/iwn_ws_client.c]

    A client connects to a server, sends the request of the handshake, checks the answer, and then exchanges messages through wslay.
    When the connection is lost it tries to connect again; at its end [on_dispose] is called.
    The outside world is [N]; a client is in the hands of the poller or of the scheduler, whose calls are the functions
    [_on_poller_adapter_event], [_on_poller_adapter_dispose], [_ws_reconnect] and [_ws_reconnect_cancel].
    The mutex, which is recursive, is left out: it guards the event handler and the functions that write; [_ws_reconnect] runs without it. *)
From S2P Require Import Prelude Base64 Sha1 Url Proxy HttpParser HttpResponse Utf8 Frame Event WsServer.
Import SHA1.

Definition _STATE_HANDSHAKE_SEND : Z := 1.
Definition _STATE_HANDSHAKE_RECV : Z := 2.
Definition WS_CONNECT_ASYNC : Z := 4.
Definition WS_ERROR_PEER_CONNECT : Z := 203002.
Definition WS_ERROR_HANDSHAKE : Z := 203003.
Definition WS_ERROR_HANDSHAKE_CLIENT_KEY : Z := 203004.
Definition WS_ERROR_CHANNEL_CLOSED : Z := 203005.
Definition WS_ERROR : Z := 203006.
Definition RC_INVALID_ARGS : Z := 9.

Definition _wslayrc (err : Z) : Z :=
  if err =? 0 then 0
  else if err =? WSLAY_ERR_NO_MORE_MSG then WS_ERROR_CHANNEL_CLOSED
  else if err =? WSLAY_ERR_INVALID_ARGUMENT then RC_INVALID_ARGS
  else if err =? WSLAY_ERR_NOMEM then RC_ALLOC
  else WS_ERROR.

(** ** Strings *)

(** [strstr] and [iwn_strcasestr] on texts without their terminators: the position of the first occurrence. *)
Fixpoint strstr (h n : list Z) : option Z :=
  if bool_decide (take (length n) h = n) then Some 0
  else match h with [] => None | _ :: h => i ← strstr h n; Some (i + 1) end.
Fixpoint iwn_strcasestr (h n : list Z) : option Z :=
  match h with
  | [] => None
  | _ :: h' => if strncaseeq h n then Some 0 else i ← iwn_strcasestr h' n; Some (i + 1)
  end.

Section WsClient.
Context {N : Type}.

(** [struct iwn_ws_client] without [ctx], [spec] and the mutex: [w_pa] is whether [pa] is set, [w_error] and [w_shut] belong to [wsl];
    [w_destroyed] is whether the memory has been freed. *)
Record iwn_ws_client := mkWs {
  cn : N; w_pa : bool; w_host : option (list Z); w_path : list Z; w_query : option (list Z); w_port : Z; w_secure : bool;
  w_wsl : option ectx; w_error : Z; w_shut : bool * bool; output : list Z; input : list Z; w_fd : Z; w_state : Z;
  reconnect_attempt : Z; close_cas : bool; dispose_cas : bool; client_key : list Z; w_destroyed : bool }.

Record client_ops := mkClientOps {
  cd_read : N -> Z -> N * io (list Z);
  cd_write : N -> list Z -> N * io Z;
  cd_alloc : N -> Z -> N * bool;
  cd_arm : N -> N * bool;
  cd_nodelay : N -> N * bool;
  cd_random : N -> N * option (list Z);     (* 16 bytes of /dev/urandom *)
  cd_rand_u32 : N -> N * Z;                 (* [iwu_rand_u32] *)
  cd_resolve : N -> N * option (list attempt);
  cd_nonblock : N -> N * bool;              (* [_fd_make_non_blocking] behind a blocking connect *)
  cd_add : N -> bool -> N * bool;           (* one of the two poller adapters *)
  cd_schedule : N -> N * bool;              (* [iwn_schedule] *)
  cd_remove : N -> Z -> N;                  (* [iwn_poller_remove] *)
  cd_close : N -> Z -> N;
  cd_blank : Z -> bool }.                   (* [iwchars_is_blank] *)

(** [struct iwn_ws_client_spec]; [on_message] tells which functions of wslay the application calls through those of this file. *)
Record client_spec := mkClientSpec {
  cs_url : option (list Z); cs_poller : bool;
  on_message : option (N -> list Z -> Z -> N * list api_call);
  on_dispose : option (iwn_ws_client -> option iwn_ws_client);
  on_connected : option (iwn_ws_client -> option iwn_ws_client);
  on_handshake : option (N -> N * option (list Z));
  cs_flags : Z; reconnect_attempts_num : Z }.

Context (ops : client_ops) (spec : client_spec) (junk : Z).

(** ** The callbacks of wslay *)

Definition cenv : Type := N * (bool * bool).

Definition _wslay_event_recv_callback (u : cenv) (len : Z) : cenv * list Z * option Z :=
  let '(n, r) := ops.(cd_read) u.1 len in
  match r with
  | IoAgain => ((n, u.2), [], Some WSLAY_ERR_WOULDBLOCK)
  | IoErr => ((n, u.2), [], Some WSLAY_ERR_CALLBACK_FAILURE)
  | IoDone [] => ((n, (true, u.2.2)), [], None)
  | IoDone l => ((n, u.2), l, None)
  end.

Definition _wslay_event_send_callback (u : cenv) (data : list Z) : cenv * Z * option Z :=
  let '(n, r) := ops.(cd_write) u.1 data in
  match r with
  | IoAgain => ((n, u.2), -1, Some WSLAY_ERR_WOULDBLOCK)
  | IoErr => ((n, u.2), -1, Some WSLAY_ERR_CALLBACK_FAILURE)
  | IoDone k => if k =? 0 then ((n, (u.2.1, true)), -1, None) else ((n, u.2), k, None)
  end.

Definition _wslay_event_on_msg_recv_callback (u : cenv) (arg : on_msg_recv_arg) : cenv * list api_call :=
  match spec.(on_message) with
  | Some f => if wants true spec.(cs_flags) arg then let '(n, calls) := f u.1 arg.(a_msg) arg.(a_opcode) in ((n, u.2), calls) else (u, [])
  | None => (u, [])
  end.

(** wslay asks for four bytes, so the loop makes one turn. *)
Definition _wslay_genmask_callback (u : cenv) : cenv * option (list Z) :=
  let '(n, rn) := ops.(cd_rand_u32) u.1 in
  ((n, u.2), Some [u8 rn; u8 (Z.shiftr rn 8); u8 (Z.shiftr rn 16); u8 (Z.shiftr rn 24)]).

Definition client_callbacks : event_callbacks cenv :=
  mkEv _ _wslay_event_recv_callback _wslay_event_send_callback (fun u => u.2) _wslay_genmask_callback
    (fun u size => let '(n, ok) := ops.(cd_alloc) u.1 size in ((n, u.2), ok))
    (fun u src _ => (u, src, -1, [], false))
    None None None (Some _wslay_event_on_msg_recv_callback).

(** A call into wslay with [ws->wsl]; [None] when it is null. *)
Definition with_wsl {A} (m : CM (est (U := cenv)) Z A) (ws : iwn_ws_client) : option (iwn_ws_client * (Z + A)) :=
  wsl ← ws.(w_wsl);
  '(s, r) ← m (mkE ((ws.(cn), ws.(w_shut)), ws.(w_error)) wsl);
  Some ({| ws with cn := s.(e_env).1.1; w_shut := s.(e_env).1.2; w_error := s.(e_env).2; w_wsl := Some s.(e_ctx) |}, r).

(** ** The handshake *)

Definition _handshake_write_client_key_b64 (ws : iwn_ws_client) : option (iwn_ws_client * Z) :=
  let '(n, r) := ops.(cd_random) ws.(cn) in
  let ws := {| ws with cn := n |} in
  match r with
  | None => Some (ws, RC_IO)
  | Some buf =>
      v ← iwn_base64_encode 32 buf base64_VARIANT_ORIGINAL;
      match v with
      | None => Some (ws, RC_FAIL)
      | Some text => Some ({| ws with client_key := cstr text |}, 0)
      end
  end.

Definition request_text (path : list Z) (query : option (list Z)) (host : list Z) (port : Z) (er key : list Z) : list Z :=
  bytes_of_string "GET " ++ path ++ match query with Some q => 63 :: q | None => [] end ++ bytes_of_string " HTTP/1.1" ++ [13; 10] ++
  bytes_of_string "Host: " ++ host ++ [58] ++ print_int port ++ [13; 10] ++
  bytes_of_string "Upgrade: websocket" ++ [13; 10] ++ bytes_of_string "Connection: Upgrade" ++ [13; 10] ++ er ++
  bytes_of_string "Sec-Websocket-Key: " ++ key ++ [13; 10] ++ bytes_of_string "Sec-Websocket-Version: 13" ++ [13; 10; 13; 10].

Definition _handshake_output_fill (ws : iwn_ws_client) : option (iwn_ws_client * Z) :=
  '(ws, rc) ← _handshake_write_client_key_b64 {| ws with output := [] |};
  if negb (rc =? 0) then Some (ws, rc)
  else
    let '(n, er) := match spec.(on_handshake) with Some f => f ws.(cn) | None => (ws.(cn), None) end in
    host ← ws.(w_host);
    let '(n, ok) := ops.(cd_alloc) n 0 in
    let ws := {| ws with cn := n |} in
    if negb ok then Some (ws, RC_ALLOC)
    else Some ({| ws with output := request_text ws.(w_path) ws.(w_query) host ws.(w_port) (default [] er) ws.(client_key) |}, 0).

(** [accept_key] is the text from there on; the value is computed as by the server. *)
Definition _handshake_validate_accept_key (key accept_key : list Z) (accept_key_len : Z) : option bool :=
  vbuf ← accept_value junk key;
  match vbuf with
  | None => Some false
  | Some v =>
      if negb (accept_key_len =? zlen v - 1) then Some false
      else Some (bool_decide (take (Z.to_nat accept_key_len) v = take (Z.to_nat accept_key_len) accept_key))
  end.

Fixpoint skip_blanks (p : list Z) : list Z :=
  match p with
  | [] => []
  | c :: p' => if ops.(cd_blank) c then skip_blanks p' else p
  end.

(** The check of a complete response. *)
Definition accepts (key text : list Z) : option bool :=
  match iwn_strcasestr text (bytes_of_string "sec-websocket-accept:") with
  | None => Some false
  | Some i =>
      let p := skip_blanks (drop (Z.to_nat (i + 21)) text) in
      match strstr p [13; 10] with
      | None => Some false
      | Some len => _handshake_validate_accept_key key p len
      end
  end.

(** How the loops of [_on_handshake_event] end: all written, the socket blocks, [rc], end of the stream. *)
Inductive hs_end := HsDone | HsAgain | HsFail (rc : Z) | HsClosed.

Fixpoint hs_write (fuel : nat) (n : N) (out : list Z) : option (N * list Z * hs_end) :=
  match out with
  | [] => Some (n, [], HsDone)
  | _ =>
      match fuel with
      | O => None
      | S fuel =>
          let '(n, r) := ops.(cd_write) n out in
          match r with
          | IoAgain => Some (n, out, HsAgain)
          | IoErr => Some (n, out, HsFail RC_IO)
          | IoDone k => if k =? 0 then Some (n, out, HsClosed) else hs_write fuel n (drop (Z.to_nat k) out)
          end
      end
  end.

Definition has_state (ws : iwn_ws_client) (bit : Z) : bool := negb (Z.land ws.(w_state) bit =? 0).
Definition set_state (ws : iwn_ws_client) (bit : Z) : iwn_ws_client := {| ws with w_state := Z.lor ws.(w_state) bit |}.

(** The body of the loop over what was read; bytes behind the response are dropped. *)
Definition hs_take (ws : iwn_ws_client) (l : list Z) : option (iwn_ws_client * option Z) :=
  if has_state ws _STATE_HANDSHAKE_RECV then Some (ws, None)
  else
    let '(n, ok) := ops.(cd_alloc) ws.(cn) 0 in
    let ws := {| ws with cn := n |} in
    if negb ok then Some (ws, Some RC_ALLOC)
    else
      let ws := {| ws with input := ws.(input) ++ l |} in
      if 1048576 <? zlen ws.(input) then Some (ws, Some WS_ERROR_HANDSHAKE)
      else
        let text := cstr ws.(input) in
        match strstr text [13; 10; 13; 10] with
        | None => Some (ws, None)
        | Some _ =>
            let ws := set_state ws _STATE_HANDSHAKE_RECV in
            ok ← accepts ws.(client_key) text;
            if negb ok then Some (ws, Some WS_ERROR_HANDSHAKE_CLIENT_KEY)
            else
              let '(n, ok) := ops.(cd_nodelay) ws.(cn) in
              Some ({| ws with cn := n |}, if ok : bool then None else Some RC_IO)
        end.

Fixpoint hs_read (fuel : nat) (ws : iwn_ws_client) : option (iwn_ws_client * hs_end) :=
  match fuel with
  | O => None
  | S fuel =>
      let '(n, r) := ops.(cd_read) ws.(cn) 1024 in
      let ws := {| ws with cn := n |} in
      match r with
      | IoAgain => Some (ws, HsAgain)
      | IoErr => Some (ws, HsFail RC_IO)
      | IoDone [] => Some (ws, HsClosed)
      | IoDone l => '(ws, e) ← hs_take ws l; match e with Some rc => Some (ws, HsFail rc) | None => hs_read fuel ws end
      end
  end.

(** The label [finish]: [rc] and [ret]. *)
Definition hs_finish (ws : iwn_ws_client) (rc ret : Z) : option (iwn_ws_client * Z) :=
  if negb (rc =? 0) then Some (ws, -1)
  else if has_state ws _STATE_HANDSHAKE_RECV
       then ws ← match spec.(on_connected) with Some f => f ws | None => Some ws end; Some (ws, ret)
       else Some (ws, ret).

Definition _on_handshake_event (fuel : nat) (ws : iwn_ws_client) : option (iwn_ws_client * Z) :=
  if negb (has_state ws _STATE_HANDSHAKE_SEND) then
    '(ws, rc) ← (if zlen ws.(output) =? 0 then _handshake_output_fill ws else Some (ws, 0));
    if negb (rc =? 0) then hs_finish ws rc IWN_POLLOUT
    else
      '(n, out, e) ← hs_write fuel ws.(cn) ws.(output);
      let ws := {| ws with cn := n; output := out |} in
      match e with
      | HsDone => hs_finish (set_state ws _STATE_HANDSHAKE_SEND) 0 IWN_POLLOUT
      | HsAgain => hs_finish ws 0 IWN_POLLOUT
      | HsFail rc => hs_finish ws rc IWN_POLLOUT
      | HsClosed => hs_finish ws 0 (-1)
      end
  else if negb (has_state ws _STATE_HANDSHAKE_RECV) then
    '(ws, e) ← hs_read fuel ws;
    match e with
    | HsFail rc => hs_finish ws rc IWN_POLLIN
    | HsClosed => hs_finish ws 0 (-1)
    | _ => hs_finish ws 0 IWN_POLLIN
    end
  else hs_finish ws 0 0.

(** ** Events *)

(** What follows a complete handshake: [ret] is what the handshake has asked for. *)
Definition exchange (fuel : nat) (ws : iwn_ws_client) (ret : Z) : option (iwn_ws_client * Z) :=
  wsl ← ws.(w_wsl);
  '(ws, r) ← (if wslay_event_want_write wsl then with_wsl (wslay_event_send client_callbacks fuel) ws else Some (ws, inr 0));
  if int_of r <? 0 then Some (ws, ret)
  else
    wsl ← ws.(w_wsl);
    '(ws, r) ← (if wslay_event_want_read wsl then with_wsl (wslay_event_recv client_callbacks fuel) ws else Some (ws, inr 0));
    if int_of r <? 0 then Some (ws, ret)
    else
      wsl ← ws.(w_wsl);
      let ret := if wslay_event_want_read wsl then Z.lor ret IWN_POLLIN else ret in
      Some (ws, if wslay_event_want_write wsl then Z.lor ret IWN_POLLOUT else ret).

Definition _on_poller_adapter_event_client (fuel : nat) (ws : iwn_ws_client) : option (iwn_ws_client * Z) :=
  if ws.(w_destroyed) then None
  else
    let ws := {| ws with w_pa := true |} in
    '(ws, ret) ← (if negb (has_state ws _STATE_HANDSHAKE_RECV) then
                    '(ws, ret) ← _on_handshake_event fuel ws;
                    if (ret =? -1) || negb (has_state ws _STATE_HANDSHAKE_RECV) then Some (ws, ret) else exchange fuel ws ret
                  else exchange fuel ws 0);
    Some (ws, if ret =? 0 then -1 else ret).

(** ** Connecting *)

(** The loop over the addresses; a blocking socket is not made non-blocking here. *)
Fixpoint dial (async : bool) (n : N) (l : list attempt) : N * (Z * option Z + Z) :=
  match l with
  | [] => (n, inl (WS_ERROR_PEER_CONNECT, None))
  | AFamily :: _ => (n, inl (WS_ERROR_PEER_CONNECT, None))
  | ANtop :: _ => (n, inl (RC_IO, None))
  | ASocket :: l => dial async n l
  | ANonblock fd :: l => if async then (n, inl (RC_IO, Some fd)) else (n, inr fd)
  | ARefused fd :: l => dial async (ops.(cd_close) n fd) l
  | AConnecting fd :: _ => (n, inr fd)
  end.

(** [_connect]: the world, [*out_fd] and [rc]. *)
Definition _connect (n : N) (async : bool) : N * Z * Z :=
  let '(n, addrs) := ops.(cd_resolve) n in
  match addrs with
  | None => (n, 0, WS_ERROR_PEER_CONNECT)
  | Some l =>
      let '(n, r) := dial async n l in
      match r with
      | inl (rc, fd) => (match fd with Some fd => ops.(cd_close) n fd | None => n end, 0, rc)
      | inr fd =>
          if async then (n, fd, 0)
          else let '(n, ok) := ops.(cd_nonblock) n in (n, fd, if ok : bool then 0 else RC_IO)
      end
  end.

Definition ws_async : bool := negb (Z.land spec.(cs_flags) WS_CONNECT_ASYNC =? 0).

Definition set_cn (ws : iwn_ws_client) (n : N) : iwn_ws_client := {| ws with cn := n |}.
(** The fields [_ws_connect] resets. *)
Definition connect_reset (ws : iwn_ws_client) : iwn_ws_client := {| ws with w_state := 0; output := []; input := []; w_wsl := None |}.
Definition set_wsl (ws : iwn_ws_client) : iwn_ws_client :=
  {| ws with w_wsl := Some (wslay_event_context_init false); w_error := 0; w_shut := (false, false) |}.
Definition connect_fail (ws : iwn_ws_client) : iwn_ws_client :=
  if -1 <? ws.(w_fd) then set_cn ws (ops.(cd_close) ws.(cn) ws.(w_fd)) else ws.

(** Behind [_connect]: the context of wslay and the adapter. *)
Definition connect_attach (ws : iwn_ws_client) : iwn_ws_client * Z :=
  let '(n, ok) := ops.(cd_alloc) ws.(cn) 0 in
  if negb ok then (connect_fail (set_cn ws n), _wslayrc WSLAY_ERR_NOMEM)
  else
    let ws := set_wsl (set_cn ws n) in
    let '(n, ok) := ops.(cd_add) ws.(cn) ws.(w_secure) in
    if negb ok then (connect_fail (set_cn ws n), RC_POLLER) else (set_cn ws n, 0).

Definition _ws_connect (ws : iwn_ws_client) : option (iwn_ws_client * Z) :=
  let ws := connect_reset ws in
  _ ← ws.(w_host);
  let '(n, fd, rc) := _connect ws.(cn) ws_async in
  let ws := {| ws with cn := n; w_fd := fd |} in
  Some (if negb (rc =? 0) then (connect_fail ws, rc) else connect_attach ws).

(** ** The end of a connection *)

Definition _ws_dispose (ws : iwn_ws_client) : option iwn_ws_client :=
  if ws.(dispose_cas) then Some ws
  else
    let ws := {| ws with dispose_cas := true |} in
    match spec.(on_dispose) with Some f => f ws | None => Some ws end.

Definition iwn_ws_client_is_can_destroy (ws : iwn_ws_client) : bool := ws.(dispose_cas).
Definition iwn_ws_client_destroy (ws : iwn_ws_client) : option (iwn_ws_client * bool) :=
  if ws.(w_destroyed) then None
  else if ws.(dispose_cas) then Some ({| ws with w_destroyed := true |}, true) else Some (ws, false).

Definition _on_poller_adapter_dispose_client (ws : iwn_ws_client) : option iwn_ws_client :=
  if ws.(w_destroyed) then None
  else
    let ws := {| ws with w_pa := false |} in
    if ws.(close_cas)
       || match ws.(w_wsl) with None => true | Some wsl => wslay_event_get_close_received wsl || wslay_event_get_close_sent wsl end
       || (spec.(reconnect_attempts_num) <=? ws.(reconnect_attempt))
    then _ws_dispose ws
    else
      let '(n, ok) := ops.(cd_schedule) ws.(cn) in
      let ws := {| ws with cn := n |} in
      if ok : bool then Some ws else _ws_dispose ws.

Definition _ws_reconnect (ws : iwn_ws_client) : option iwn_ws_client :=
  if ws.(w_destroyed) then None
  else
    let attempt := ws.(reconnect_attempt) in
    let ws := {| ws with reconnect_attempt := u8 (attempt + 1) |} in
    if attempt <? spec.(reconnect_attempts_num) then
      '(ws, rc) ← _ws_connect ws;
      if rc =? 0 then Some {| ws with reconnect_attempt := 0 |} else _on_poller_adapter_dispose_client ws
    else _on_poller_adapter_dispose_client ws.

Definition _ws_reconnect_cancel (ws : iwn_ws_client) : option iwn_ws_client :=
  if ws.(w_destroyed) then None else _ws_dispose ws.

(** ** The application's functions *)

Definition _write (ws : iwn_ws_client) (buf : option (list Z)) (buf_len : Z) (opc : Z) : option (iwn_ws_client * bool) :=
  if ws.(w_destroyed) then None
  else
    match buf with
    | None => Some (ws, false)
    | Some b =>
        if buf_len =? 0 then Some (ws, true)
        else if zlen b <? buf_len then None
        else
          '(ws, r) ← with_wsl (wslay_event_queue_msg client_callbacks opc (take (Z.to_nat buf_len) b)) ws;
          if negb (int_of r =? 0) then Some (ws, false)
          else if ws.(w_pa) then let '(n, ok) := ops.(cd_arm) ws.(cn) in Some ({| ws with cn := n |}, ok) else Some (ws, false)
    end.

(** [_write_fd] with its probe. *)
Definition _write_fd (registered : bool) (ws : iwn_ws_client) (buf : option (list Z)) (buf_len opc : Z) : option (iwn_ws_client * bool) :=
  if registered then _write ws buf buf_len opc else Some (ws, false).

Definition iwn_ws_client_write_text ws buf len := _write ws buf len WSLAY_TEXT_FRAME.
Definition iwn_ws_client_write_text_fd registered ws buf len := _write_fd registered ws buf len WSLAY_TEXT_FRAME.
Definition iwn_ws_client_write_binary ws buf len := _write ws buf len WSLAY_BINARY_FRAME.
Definition iwn_ws_client_write_binary_fd registered ws buf len := _write_fd registered ws buf len WSLAY_BINARY_FRAME.
Definition iwn_ws_client_ping ws buf len := _write ws buf len WSLAY_PING.
Definition iwn_ws_client_ping_fd registered ws buf len := _write_fd registered ws buf len WSLAY_PING.

Definition iwn_ws_client_close (ws : iwn_ws_client) : option iwn_ws_client :=
  if ws.(w_destroyed) then None
  else if ws.(close_cas) then Some ws
  else Some {| ws with close_cas := true; cn := ops.(cd_remove) ws.(cn) ws.(w_fd) |}.
Definition iwn_ws_client_close_by_fd (registered : bool) (ws : iwn_ws_client) : option iwn_ws_client :=
  if registered then iwn_ws_client_close ws else Some ws.

Definition iwn_ws_client_send_close (ws : iwn_ws_client) : option (iwn_ws_client * bool) :=
  if ws.(w_destroyed) then None
  else '(ws, r) ← with_wsl (wslay_event_queue_close client_callbacks 0 []) ws; Some (ws, int_of r =? 0).
Definition iwn_ws_client_send_close_by_fd (registered : bool) (ws : iwn_ws_client) : option iwn_ws_client :=
  if registered then '(ws, _) ← iwn_ws_client_send_close ws; Some ws else Some ws.

Definition iwn_ws_client_fd_get (ws : iwn_ws_client) : Z := ws.(w_fd).

(** [iwn_ws_client_open]: an error, or the client.  [out_ws] is written at the end without a check. *)
Definition iwn_ws_client_open (n : N) (out_ws : bool) : option (N * (Z + iwn_ws_client)) :=
  match spec.(cs_url), spec.(on_message) with
  | Some url, Some _ =>
      if negb spec.(cs_poller) then Some (n, inl RC_INVALID_ARGS)
      else
        let '(n, ok) := ops.(cd_alloc) n 0 in
        if negb ok then Some (n, inl RC_ALLOC)
        else
          let '(n, ok) := ops.(cd_alloc) n 0 in
          if negb ok then Some (n, inl RC_ALLOC)
          else
            let '(n, ok) := ops.(cd_alloc) n 0 in
            if negb ok then Some (n, inl RC_ALLOC)
            else
              let '(n, ok) := ops.(cd_alloc) n (zlen url + 1) in
              if negb ok then Some (n, inl RC_ALLOC)
              else
                '(buf, p, rv) ← iwn_url_parse (url ++ [0]);
                if rv =? -1 then Some (n, inl RC_INVALID_VALUE)
                else
                  let '(n, ok) := ops.(cd_alloc) n 0 in
                  if negb ok then Some (n, inl RC_ALLOC)
                  else
                    let secure := bool_decide (str_at buf p.(scheme) = Some (bytes_of_string "wss")) in
                    let port := if p.(port) <? 1 then (if secure then 443 else 80) else p.(port) in
                    '(ws, rc) ← _ws_connect (mkWs n false (str_at buf p.(host)) (47 :: default [] (str_at buf p.(path))) (str_at buf p.(query))
                                               port secure None 0 (false, false) [] [] (-1) 0 0 false false [] false);
                    if negb (rc =? 0) then Some (ws.(cn), inl rc)
                    else if out_ws then Some (ws.(cn), inr ws) else None
  | _, _ => Some (n, inl RC_INVALID_ARGS)
  end.
End WsClient.
Arguments iwn_ws_client : clear implicits.
Arguments client_ops : clear implicits.
Arguments client_spec : clear implicits.
