(* ===== verification/WsClientProps.v ===== *)
(** * WsClientProps: who holds a WebSocket client, and when its handshake succeeds *)
From S2P Require Import Prelude Base64 Sha1 Url Proxy HttpParser HttpResponse HttpRead HttpSession HttpReply Utf8 Frame Event EventRecv EventEnv WsServer WsServerProps WsClient.
Import SHA1.

(** ** The life of a client

    The poller holds a client by a slot, the scheduler by a task; [oh_disposed] counts the calls of [on_dispose].  Only the
    registration of an adapter makes a slot, only [iwn_schedule] makes a task. *)
Section Owner.
Context {N : Type} (ops : client_ops N) (spec : client_spec N) (junk : Z).

Class OwnerHost := {
  oh_slots : N -> nat; oh_tasks : N -> nat; oh_disposed : N -> nat;
  calm n n' := oh_slots n' = oh_slots n /\ oh_tasks n' = oh_tasks n /\ oh_disposed n' = oh_disposed n;
  oh_read n k : calm n (ops.(cd_read) n k).1;
  oh_write n d : calm n (ops.(cd_write) n d).1;
  oh_alloc n k : calm n (ops.(cd_alloc) n k).1;
  oh_arm n : calm n (ops.(cd_arm) n).1;
  oh_nodelay n : calm n (ops.(cd_nodelay) n).1;
  oh_random n : calm n (ops.(cd_random) n).1;
  oh_rand_u32 n : calm n (ops.(cd_rand_u32) n).1;
  oh_resolve n : calm n (ops.(cd_resolve) n).1;
  oh_nonblock n : calm n (ops.(cd_nonblock) n).1;
  oh_remove n fd : calm n (ops.(cd_remove) n fd);
  oh_close n fd : calm n (ops.(cd_close) n fd);
  oh_add n secure n' ok : ops.(cd_add) n secure = (n', ok) ->
    oh_slots n' = ((if ok : bool then 1 else 0) + oh_slots n)%nat /\ oh_tasks n' = oh_tasks n /\ oh_disposed n' = oh_disposed n;
  oh_schedule n n' ok : ops.(cd_schedule) n = (n', ok) ->
    oh_slots n' = oh_slots n /\ oh_tasks n' = ((if ok : bool then 1 else 0) + oh_tasks n)%nat /\ oh_disposed n' = oh_disposed n;
  oh_message f n m opc : spec.(on_message) = Some f -> calm n (f n m opc).1;
  oh_handshake f n : spec.(on_handshake) = Some f -> calm n (f n).1;
  oh_connected f ws ws' : spec.(on_connected) = Some f -> f ws = Some ws' ->
    calm ws.(cn) ws'.(cn) /\ ws'.(dispose_cas) = ws.(dispose_cas) /\ ws'.(w_destroyed) = ws.(w_destroyed);
  oh_dispose ws : exists f, spec.(on_dispose) = Some f /\ forall ws', f ws = Some ws' ->
    oh_slots ws'.(cn) = oh_slots ws.(cn) /\ oh_tasks ws'.(cn) = oh_tasks ws.(cn) /\ oh_disposed ws'.(cn) = S (oh_disposed ws.(cn)) /\
    ws'.(dispose_cas) = ws.(dispose_cas) }.
Context `{OwnerHost}.

Lemma calm_refl' n : calm n n.
Proof. by unfold calm. Qed.
Lemma calm_trans' n1 n2 n3 : calm n1 n2 -> calm n2 n3 -> calm n1 n3.
Proof. unfold calm. intuition congruence. Qed.

(** Nothing happens that concerns the life of the client. *)
Definition same_life (ws ws' : iwn_ws_client N) : Prop :=
  calm ws.(cn) ws'.(cn) /\ ws'.(dispose_cas) = ws.(dispose_cas) /\ ws'.(w_destroyed) = ws.(w_destroyed).
Lemma life_refl ws : same_life ws ws.
Proof. repeat split. Qed.
Lemma life_trans ws1 ws2 ws3 : same_life ws1 ws2 -> same_life ws2 ws3 -> same_life ws1 ws3.
Proof. unfold same_life. intros (C1 & D1 & F1) (C2 & D2 & F2). split_and!; [by eapply calm_trans'|congruence..]. Qed.

(** *** wslay *)

Lemma client_kept n : env_kept (client_callbacks ops spec) (fun u => calm n u.1).
Proof.
  split; cbn; try done.
  - intros u k u' l e E Hu. unfold _wslay_event_recv_callback in E. pose proof (oh_read u.1 k) as Hr. destruct (cd_read ops u.1 k) as [n' r].
    assert (calm n n') by (by eapply calm_trans'). destruct r as [| |[|x r]]; by injection E as <- _ _.
  - intros u d u' k e E Hu. unfold _wslay_event_send_callback in E. pose proof (oh_write u.1 d) as Hr. destruct (cd_write ops u.1 d) as [n' r].
    assert (calm n n') by (by eapply calm_trans'). destruct r as [| |r]; [by injection E as <- _ _..|]. destruct (r =? 0); by injection E as <- _ _.
  - intros u u' k E Hu. unfold _wslay_genmask_callback in E. pose proof (oh_rand_u32 u.1) as Hr. destruct (cd_rand_u32 ops u.1) as [n' r].
    injection E as <- _. by eapply calm_trans'.
  - intros u k u' ok E Hu. pose proof (oh_alloc u.1 k) as Hr. destruct (cd_alloc ops u.1 k) as [n' r]. injection E as <- _. by eapply calm_trans'.
  - intros u src k u' src' r d eof [= <- _ _ _ _]. done.
  - intros f u a u' l [= <-] E Hu. unfold _wslay_event_on_msg_recv_callback in E. destruct (on_message spec) as [g|] eqn:Eg; [|by injection E as <- _].
    destruct (wants _ _ _); [|by injection E as <- _]. pose proof (oh_message g u.1 (a_msg a) (a_opcode a) Eg) as Hm.
    destruct (g u.1 (a_msg a) (a_opcode a)) as [n' calls]. injection E as <- _. by eapply calm_trans'.
Qed.

Lemma with_wsl_life {A} (m : CM (est (U := cenv)) Z A) ws ws' r :
  (forall P, env_kept (client_callbacks ops spec) P -> guards P m) -> with_wsl m ws = Some (ws', r) -> same_life ws ws'.
Proof.
  intros Hm E. unfold with_wsl in E. destruct (w_wsl ws) as [wsl|]; [|done]. cbn [mbind option_bind] in E.
  destruct (m _) as [[s r']|] eqn:Em; [|done]. injection E as <- _. split; [|done].
  exact (Hm _ (client_kept (cn ws)) (mkE ((cn ws, w_shut ws), w_error ws) wsl) (calm_refl' _) _ _ Em).
Qed.

(** *** The handshake and the events *)

Lemma life_cn ws n : calm ws.(cn) n -> same_life ws {| ws with cn := n |}.
Proof. done. Qed.

Lemma key_life ws ws' rc : _handshake_write_client_key_b64 ops ws = Some (ws', rc) -> same_life ws ws'.
Proof.
  unfold _handshake_write_client_key_b64. intros E. pose proof (oh_random (cn ws)) as Hr. destruct (cd_random ops (cn ws)) as [n [buf|]]; [|by injection E as <- _].
  destruct (iwn_base64_encode _ _ _) as [[text|]|]; [by injection E as <- _..|done].
Qed.
Lemma fill_life ws ws' rc : _handshake_output_fill ops spec ws = Some (ws', rc) -> same_life ws ws'.
Proof.
  unfold _handshake_output_fill. intros E. destruct (_handshake_write_client_key_b64 ops _) as [[ws1 rc1]|] eqn:Ek; [|done]. apply key_life in Ek.
  cbn [mbind option_bind] in E. destruct (negb (rc1 =? 0)); [by injection E as <- _|].
  destruct (match on_handshake spec with Some f => f (cn ws1) | None => (cn ws1, None) end) as [n er] eqn:Eh.
  assert (calm (cn ws1) n) as Hn by (destruct (on_handshake spec) as [f|] eqn:Ef; [pose proof (oh_handshake f (cn ws1) Ef) as Hf; by rewrite Eh in Hf|by injection Eh as <- _]).
  destruct (w_host ws1) as [host|]; [|done]. cbn [mbind option_bind] in E. pose proof (oh_alloc n 0) as Ha. destruct (cd_alloc ops n 0) as [n1 ok].
  assert (same_life ws {| ws1 with cn := n1 |}) as Hl by (eapply (life_trans ws ws1); [exact Ek|]; apply life_cn; by eapply calm_trans').
  destruct ok; by injection E as <- _.
Qed.

Lemma hs_write_calm fuel : forall n out n' out' e, hs_write ops fuel n out = Some (n', out', e) -> calm n n'.
Proof.
  induction fuel as [|fuel IH]; intros n [|x out] n' out' e E; cbn [hs_write] in E; try (by injection E as <- _ _); try done.
  pose proof (oh_write n (x :: out)) as Hw. destruct (cd_write ops n (x :: out)) as [n1 [| |k]]; [by injection E as <- _ _..|].
  destruct (k =? 0); [by injection E as <- _ _|]. eapply calm_trans'; [exact Hw|by eapply IH].
Qed.

Lemma hs_take_life ws l ws' e : hs_take ops junk ws l = Some (ws', e) -> same_life ws ws'.
Proof.
  unfold hs_take. intros E. destruct (has_state ws _STATE_HANDSHAKE_RECV); [by injection E as <- _|].
  pose proof (oh_alloc (cn ws) 0) as Ha. destruct (cd_alloc ops (cn ws) 0) as [n [|]]; [|by injection E as <- _]. cbn [negb input] in E.
  destruct (1048576 <? _); [by injection E as <- _|]. destruct (strstr _ _); [|by injection E as <- _].
  destruct (accepts _ _ _ _) as [[|]|]; [|by injection E as <- _|done]. cbn [mbind option_bind negb set_state cn] in E.
  pose proof (oh_nodelay n) as Hn. destruct (cd_nodelay ops n) as [n1 ok]. injection E as <- _. split; [|done]. by eapply calm_trans'.
Qed.
Lemma hs_read_life fuel : forall ws ws' e, hs_read ops junk fuel ws = Some (ws', e) -> same_life ws ws'.
Proof.
  induction fuel as [|fuel IH]; intros ws ws' e E; [done|]. cbn [hs_read] in E. pose proof (oh_read (cn ws) 1024) as Hr.
  destruct (cd_read ops (cn ws) 1024) as [n [| |[|x l]]]; [by injection E as <- _..|].
  destruct (hs_take ops junk _ _) as [[ws1 e1]|] eqn:Et; [|done]. apply hs_take_life in Et.
  assert (same_life ws ws1) as La by (eapply life_trans; [by apply life_cn|exact Et]).
  cbn [mbind option_bind] in E. destruct e1 as [rc|]; [by injection E as <- _|]. eapply life_trans; [exact La|by eapply IH].
Qed.

Lemma hs_finish_life ws rc ret ws' r : hs_finish spec ws rc ret = Some (ws', r) -> same_life ws ws'.
Proof.
  unfold hs_finish. intros E. destruct (negb _); [injection E as <- _; apply life_refl|]. destruct (has_state ws _); [|injection E as <- _; apply life_refl].
  destruct (on_connected spec) as [f|] eqn:Ef; [|injection E as <- _; apply life_refl].
  destruct (f ws) as [ws1|] eqn:E1; [|done]. injection E as <- _. by eapply oh_connected.
Qed.

Lemma handshake_life fuel ws ws' ret : _on_handshake_event ops spec junk fuel ws = Some (ws', ret) -> same_life ws ws'.
Proof.
  unfold _on_handshake_event. intros E. destruct (negb (has_state ws _STATE_HANDSHAKE_SEND)); [|destruct (negb (has_state ws _STATE_HANDSHAKE_RECV))].
  - destruct (if zlen (output ws) =? 0 then _handshake_output_fill ops spec ws else Some (ws, 0)) as [[ws1 rc]|] eqn:E1; [|done].
    assert (same_life ws ws1) as La by (destruct (zlen (output ws) =? 0); [by apply fill_life in E1|injection E1 as <- _; apply life_refl]).
    cbn [mbind option_bind] in E. destruct (negb (rc =? 0)); [eapply life_trans; [exact La|by eapply hs_finish_life]|].
    destruct (hs_write ops fuel (cn ws1) (output ws1)) as [[[n out] e]|] eqn:Ew; [|done]. apply hs_write_calm in Ew. cbn [mbind option_bind] in E.
    destruct e; apply hs_finish_life in E; by (eapply life_trans; [exact La|]; eapply life_trans; [|exact E]).
  - destruct (hs_read ops junk fuel ws) as [[ws1 e]|] eqn:Er; [|done]. apply hs_read_life in Er. cbn [mbind option_bind] in E.
    destruct e; apply hs_finish_life in E; by eapply life_trans.
  - by apply hs_finish_life in E.
Qed.

Lemma exchange_life fuel ws ret ws' r : exchange ops spec fuel ws ret = Some (ws', r) -> same_life ws ws'.
Proof.
  unfold exchange. intros E. destruct (w_wsl ws) as [wsl|]; [|done]. cbn [mbind option_bind] in E.
  destruct (if wslay_event_want_write wsl then _ else _) as [[ws1 r1]|] eqn:E1; [|done].
  assert (same_life ws ws1) as La by (destruct (wslay_event_want_write wsl); [by eapply with_wsl_life; [intros; by apply guards_send|exact E1]|injection E1 as <- _; apply life_refl]).
  cbn [mbind option_bind] in E. destruct (int_of r1 <? 0); [by injection E as <- _|]. destruct (w_wsl ws1) as [wsl1|]; [|done]. cbn [mbind option_bind] in E.
  destruct (if wslay_event_want_read wsl1 then _ else _) as [[ws2 r2]|] eqn:E2; [|done].
  assert (same_life ws1 ws2) as Lb by (destruct (wslay_event_want_read wsl1); [by eapply with_wsl_life; [intros; by apply guards_recv|exact E2]|injection E2 as <- _; apply life_refl]).
  cbn [mbind option_bind] in E. destruct (int_of r2 <? 0); [injection E as <- _; by eapply life_trans|].
  destruct (w_wsl ws2); [|done]. injection E as <- _. by eapply life_trans.
Qed.

Lemma event_life fuel ws ws' ret : _on_poller_adapter_event_client ops spec junk fuel ws = Some (ws', ret) -> same_life ws ws'.
Proof.
  unfold _on_poller_adapter_event_client. intros E. destruct (w_destroyed ws) eqn:Ed; [done|].
  match type of E with context [_on_handshake_event ops spec junk fuel ?w] => set (ws1 := w) in E end.
  assert (same_life ws ws1) as La by (unfold same_life, ws1; cbn; rewrite Ed; split; [apply calm_refl'|done]). clearbody ws1.
  match type of E with mbind _ ?x = _ => destruct x as [[ws2 r2]|] eqn:E2; [|done] end. injection E as <- _.
  eapply life_trans; [exact La|]. destruct (has_state ws1 _STATE_HANDSHAKE_RECV); cbn [negb] in E2; [exact (exchange_life _ _ _ _ _ E2)|].
  destruct (_on_handshake_event ops spec junk fuel ws1) as [[ws3 r3]|] eqn:E3; [|done]. apply handshake_life in E3. cbn [mbind option_bind] in E2.
  destruct (_ || _); [by injection E2 as <- _|]. eapply life_trans; [exact E3|exact (exchange_life _ _ _ _ _ E2)].
Qed.

(** *** Connecting *)

Lemma dial_calm async l : forall n n' r, dial ops async n l = (n', r) -> calm n n'.
Proof.
  induction l as [|a l IH]; intros n n' r E; [injection E as <- _; apply calm_refl'|].
  destruct a; cbn [dial] in E; try (injection E as <- _; apply calm_refl').
  - by eapply IH.
  - destruct async; injection E as <- _; apply calm_refl'.
  - eapply calm_trans'; [apply oh_close|by eapply IH].
Qed.
Lemma connect_calm n async n' fd rc : _connect ops n async = (n', fd, rc) -> calm n n'.
Proof.
  unfold _connect. intros E. pose proof (oh_resolve n) as Hr. destruct (cd_resolve ops n) as [n1 [l|]]; [|by injection E as <- _ _].
  destruct (dial ops async n1 l) as [n2 r] eqn:Ed. apply dial_calm in Ed. assert (calm n n2) as C2 by (by eapply calm_trans').
  destruct r as [[rc' [fd'|]]|fd'].
  - injection E as <- _ _. eapply calm_trans'; [exact C2|apply oh_close].
  - by injection E as <- _ _.
  - destruct async; [by injection E as <- _ _|]. pose proof (oh_nonblock n2) as Hb. destruct (cd_nonblock ops n2) as [n3 ok].
    injection E as <- _ _. by eapply calm_trans'.
Qed.

(** A successful connection is one more slot; a failed one changes nothing. *)
Definition connects (ws ws' : iwn_ws_client N) (rc : Z) : Prop :=
  oh_slots ws'.(cn) = ((if Z.eqb rc 0 then 1 else 0) + oh_slots ws.(cn))%nat /\ oh_tasks ws'.(cn) = oh_tasks ws.(cn) /\
  oh_disposed ws'.(cn) = oh_disposed ws.(cn) /\ ws'.(dispose_cas) = ws.(dispose_cas) /\ ws'.(w_destroyed) = ws.(w_destroyed).

Lemma fail_life ws : same_life ws (connect_fail ops ws).
Proof. unfold connect_fail. destruct (-1 <? _); [|apply life_refl]. apply life_cn, oh_close. Qed.
Lemma failed_connects ws ws1 rc : rc <> 0 -> same_life ws ws1 -> connects ws (connect_fail ops ws1) rc.
Proof.
  intros Hrc Hl. destruct (life_trans _ _ _ Hl (fail_life ws1)) as ((A1 & A2 & A3) & A4 & A5). unfold connects. rewrite A1, A2, A3, A4, A5.
  by destruct (Z.eqb_spec rc 0).
Qed.
Lemma attach_life ws : connects ws (connect_attach ops ws).1 (connect_attach ops ws).2.
Proof.
  unfold connect_attach. pose proof (oh_alloc (cn ws) 0) as Ha. destruct (cd_alloc ops (cn ws) 0) as [n [|]]; cbn [negb]; [|by apply failed_connects].
  change (cn (set_wsl (set_cn ws n))) with n. change (w_secure (set_wsl (set_cn ws n))) with (w_secure ws).
  destruct (cd_add ops n (w_secure ws)) as [n1 ok] eqn:Ed. apply oh_add in Ed as (A1 & A2 & A3). destruct Ha as (B1 & B2 & B3). cbn [fst] in *.
  destruct ok; cbn [negb fst snd].
  - unfold connects. cbn [set_cn set_wsl cn dispose_cas w_destroyed]. change (0 =? 0) with true. cbv iota. rewrite A1, A2, A3, B1, B2, B3. done.
  - apply failed_connects; [done|]. split; [|done]. unfold calm. cbn [set_cn cn]. by rewrite A1, A2, A3, B1, B2, B3.
Qed.
Lemma connect_life ws ws' rc : _ws_connect ops spec ws = Some (ws', rc) -> connects ws ws' rc.
Proof.
  unfold _ws_connect. intros E. assert (same_life ws (connect_reset ws)) as La by (split; [apply calm_refl'|done]). destruct (w_host _); [|done].
  cbn [mbind option_bind] in E. change (cn (connect_reset ws)) with (cn ws) in E.
  destruct (_connect ops (cn ws) _) as [[n1 fd] rc1] eqn:Ec. apply connect_calm in Ec as C1.
  match type of E with context [connect_attach ops ?w] => set (ws1 := w) in E; assert (same_life ws ws1) as Lb by done; clearbody ws1 end.
  destruct (Z.eqb_spec rc1 0) as [->|Hrc]; cbn [negb] in E.
  - pose proof (attach_life ws1) as Hat. injection E as E. rewrite E in Hat. cbn [fst snd] in Hat. destruct Lb as ((B1 & B2 & B3) & B4 & B5).
    unfold connects in *. by rewrite <- B1, <- B2, <- B3, <- B4, <- B5.
  - injection E as <- <-. by apply failed_connects.
Qed.

(** *** Who holds the client *)

(** Exactly one of: a slot of the poller, a task of the scheduler, or it is disposed of; [on_dispose] has been called in the last case only, once; only then can
    the memory have been freed. *)
Definition owned (ws : iwn_ws_client N) : Prop :=
  (oh_slots ws.(cn) + oh_tasks ws.(cn) + Nat.b2n ws.(dispose_cas) = 1)%nat /\ oh_disposed ws.(cn) = Nat.b2n ws.(dispose_cas) /\
  (ws.(w_destroyed) = true -> ws.(dispose_cas) = true).
(** Nobody holds it, for the time of a callback. *)
Definition unheld (ws : iwn_ws_client N) : Prop :=
  (oh_slots ws.(cn) + oh_tasks ws.(cn) = 0)%nat /\ ws.(dispose_cas) = false /\ oh_disposed ws.(cn) = 0%nat /\ ws.(w_destroyed) = false.

Lemma same_life_owned ws ws' : same_life ws ws' -> owned ws -> owned ws'.
Proof. unfold owned. intros ((-> & -> & ->) & -> & ->). done. Qed.

Lemma dispose_owned ws ws' : _ws_dispose spec ws = Some ws' -> unheld ws -> owned ws'.
Proof.
  intros E (U1 & U2 & U3 & U4). unfold _ws_dispose in E. rewrite U2 in E.
  match type of E with context [match on_dispose spec with Some f => f ?w | None => _ end] => destruct (oh_dispose w) as (f & Ef & Hf) end.
  rewrite Ef in E. destruct (Hf _ E) as (D1 & D2 & D3 & D4). cbn [cn dispose_cas] in *. unfold owned. rewrite D1, D2, D3, D4, U3. cbn. split_and!; [lia|done|done].
Qed.
Lemma gone_owned ws ws' : _on_poller_adapter_dispose_client ops spec ws = Some ws' -> unheld ws -> owned ws'.
Proof.
  intros E U. pose proof U as (U1 & U2 & U3 & U4). unfold _on_poller_adapter_dispose_client in E. rewrite U4 in E.
  match type of E with context [_ws_dispose spec ?w] => set (ws1 := w) in E end.
  destruct (_ || _ || _).
  - eapply dispose_owned; [exact E|]. done.
  - change (cn ws1) with (cn ws) in E. destruct (cd_schedule ops (cn ws)) as [n ok] eqn:Es. apply oh_schedule in Es as (S1 & S2 & S3). destruct ok.
    + injection E as <-. unfold owned. cbn [cn dispose_cas w_destroyed]. rewrite S1, S2, S3, U2, U3. split_and!; [cbn; lia|done|done].
    + eapply dispose_owned; [exact E|]. unfold unheld. cbn [cn dispose_cas w_destroyed]. rewrite S1, S2, S3. done.
Qed.
Lemma reconnect_owned ws ws' : _ws_reconnect ops spec ws = Some ws' -> unheld ws -> owned ws'.
Proof.
  intros E (U1 & U2 & U3 & U4). unfold _ws_reconnect in E. rewrite U4 in E. cbv zeta in E. destruct (_ <? _).
  - match type of E with context [_ws_connect ops spec ?w] => set (ws1 := w) in E end.
    destruct (_ws_connect ops spec ws1) as [[ws2 rc]|] eqn:Ec; [|done]. apply connect_life in Ec as (C1 & C2 & C3 & C4 & C5). cbn [mbind option_bind] in E.
    unfold ws1 in *. cbn [cn dispose_cas w_destroyed] in *. destruct (Z.eqb_spec rc 0) as [Erc|Erc].
    + injection E as <-. unfold owned. cbn [cn dispose_cas w_destroyed]. rewrite C1, C2, C3, C4, C5, U2, U3. split_and!; [cbn; lia|done|done].
    + eapply gone_owned; [exact E|]. unfold unheld. rewrite C1, C2, C3, C4, C5. done.
  - eapply gone_owned; [exact E|]. done.
Qed.

(** *** The steps

    The poller calls a client that has a slot, and gives the slot up when it disposes of it; the scheduler runs or cancels a task once;
    the application may call its functions at any time.  A call is one step.  For [_ws_reconnect], which holds no mutex, this means that the
    slot it registers is not used before its last statement, the reset of the counter. *)
Definition takes_slot (n n' : N) : Prop := oh_slots n = S (oh_slots n') /\ oh_tasks n' = oh_tasks n /\ oh_disposed n' = oh_disposed n.
Definition takes_task (n n' : N) : Prop := oh_tasks n = S (oh_tasks n') /\ oh_slots n' = oh_slots n /\ oh_disposed n' = oh_disposed n.

Inductive client_step : iwn_ws_client N -> iwn_ws_client N -> Prop :=
| ct_event fuel ws ws' ret : (0 < oh_slots ws.(cn))%nat -> _on_poller_adapter_event_client ops spec junk fuel ws = Some (ws', ret) -> client_step ws ws'
| ct_gone ws n ws' : takes_slot ws.(cn) n -> _on_poller_adapter_dispose_client ops spec {| ws with cn := n |} = Some ws' -> client_step ws ws'
| ct_fire ws n ws' : takes_task ws.(cn) n -> _ws_reconnect ops spec {| ws with cn := n |} = Some ws' -> client_step ws ws'
| ct_cancel ws n ws' : takes_task ws.(cn) n -> _ws_reconnect_cancel spec {| ws with cn := n |} = Some ws' -> client_step ws ws'
| ct_write ws buf len opc ws' ok : _write ops spec ws buf len opc = Some (ws', ok) -> client_step ws ws'
| ct_send_close ws ws' ok : iwn_ws_client_send_close ops spec ws = Some (ws', ok) -> client_step ws ws'
| ct_close ws ws' : iwn_ws_client_close ops ws = Some ws' -> client_step ws ws'
| ct_destroy ws ws' ok : iwn_ws_client_destroy ws = Some (ws', ok) -> client_step ws ws'.

Lemma write_life ws buf len opc ws' ok : _write ops spec ws buf len opc = Some (ws', ok) -> same_life ws ws'.
Proof.
  unfold _write. intros E. destruct (w_destroyed ws) eqn:Ed; [done|]. destruct buf as [b|]; [|injection E as <- _; apply life_refl].
  destruct (len =? 0); [injection E as <- _; apply life_refl|]. destruct (zlen b <? len); [done|].
  destruct (with_wsl _ ws) as [[ws1 r]|] eqn:Ew; [|done]. apply with_wsl_life in Ew; [|intros; by apply guards_queue_msg].
  cbn [mbind option_bind] in E. destruct (negb _); [by injection E as <- _|]. destruct (w_pa ws1); [|by injection E as <- _].
  pose proof (oh_arm (cn ws1)) as Ha. destruct (cd_arm ops (cn ws1)) as [n ok1]. injection E as <- _. eapply life_trans; [exact Ew|]. by apply life_cn.
Qed.
Lemma send_close_life ws ws' ok : iwn_ws_client_send_close ops spec ws = Some (ws', ok) -> same_life ws ws'.
Proof.
  unfold iwn_ws_client_send_close. intros E. destruct (w_destroyed ws) eqn:Ed; [done|]. destruct (with_wsl _ ws) as [[ws1 r]|] eqn:Ew; [|done].
  apply with_wsl_life in Ew; [|intros; by apply guards_queue_close]. by injection E as <- _.
Qed.

(** A step that takes the slot or the task away leaves nobody behind; a freed client has neither. *)
Lemma slot_taken ws n : takes_slot ws.(cn) n -> owned ws -> unheld {| ws with cn := n |}.
Proof.
  intros (T1 & T2 & T3) (O1 & O2 & O3). unfold unheld. cbn [cn dispose_cas w_destroyed]. destruct (dispose_cas ws); cbn in *; [lia|].
  split_and!; [lia|done|congruence|]. destruct (w_destroyed ws); [|done]. by specialize (O3 eq_refl).
Qed.
Lemma task_taken ws n : takes_task ws.(cn) n -> owned ws -> unheld {| ws with cn := n |}.
Proof.
  intros (T1 & T2 & T3) (O1 & O2 & O3). unfold unheld. cbn [cn dispose_cas w_destroyed]. destruct (dispose_cas ws); cbn in *; [lia|].
  split_and!; [lia|done|congruence|]. destruct (w_destroyed ws); [|done]. by specialize (O3 eq_refl).
Qed.

Lemma client_step_owned ws ws' : client_step ws ws' -> owned ws -> owned ws'.
Proof.
  intros [fuel ws1 ws2 ret _ E|ws1 n ws2 T E|ws1 n ws2 T E|ws1 n ws2 T E|ws1 buf len opc ws2 ok E|ws1 ws2 ok E|ws1 ws2 E|ws1 ws2 ok E] O.
  - eapply same_life_owned; [by eapply event_life|done].
  - eapply gone_owned; [exact E|by apply slot_taken].
  - eapply reconnect_owned; [exact E|by apply task_taken].
  - pose proof (task_taken _ _ T O) as U. unfold _ws_reconnect_cancel in E. destruct (w_destroyed _); [done|]. by eapply dispose_owned.
  - eapply same_life_owned; [by eapply write_life|done].
  - eapply same_life_owned; [by eapply send_close_life|done].
  - unfold iwn_ws_client_close in E. destruct (w_destroyed ws1) eqn:Ed; [done|]. destruct (close_cas ws1); injection E as <-; [done|].
    eapply same_life_owned; [|exact O]. split; [apply oh_remove|done].
  - unfold iwn_ws_client_destroy in E. destruct (w_destroyed ws1) eqn:Ed; [done|]. destruct (dispose_cas ws1) eqn:Ec; injection E as <- _; [|done].
    destruct O as (O1 & O2 & O3). unfold owned. cbn [cn dispose_cas w_destroyed]. rewrite Ec in *. done.
Qed.

Ltac next_alloc C :=
  match goal with
  | E : context [cd_alloc ops ?m ?k] |- _ =>
      let Ha := fresh "Ha" in
      pose proof (oh_alloc m k) as Ha; destruct (cd_alloc ops m k) as [? [|]]; cbn [negb] in E; [|done];
      apply (calm_trans' _ _ _ C) in Ha; cbn [fst] in Ha; clear C; rename Ha into C
  end.
Lemma open_owned n n' ws : iwn_ws_client_open ops spec n true = Some (n', inr ws) ->
  oh_slots n = 0%nat -> oh_tasks n = 0%nat -> oh_disposed n = 0%nat -> owned ws.
Proof.
  unfold iwn_ws_client_open. intros E S0 T0 D0. destruct (cs_url spec) as [url|]; [|done]. destruct (on_message spec) as [om|]; [|done].
  destruct (negb (cs_poller spec)); [done|]. pose proof (calm_refl' n) as C.
  do 4 next_alloc C. destruct (iwn_url_parse _) as [[[buf p] rv]|]; [|done]. cbn [mbind option_bind] in E. destruct (rv =? -1); [done|]. next_alloc C.
  destruct (_ws_connect ops spec _) as [[ws1 rc]|] eqn:Ec; [|done]. apply connect_life in Ec as (A1 & A2 & A3 & A4 & A5). cbn [mbind option_bind] in E.
  destruct (Z.eqb_spec rc 0); [|done]. injection E as _ <-. destruct C as (C1 & C2 & C3). cbn [cn dispose_cas w_destroyed] in *.
  unfold owned. rewrite A1, A2, A3, A4, A5, C1, C2, C3, S0, T0, D0. done.
Qed.

(** C6. The life of a WebSocket client.  From a successful [iwn_ws_client_open] on, whatever the order of events, lost connections, reconnections,
    cancelled tasks and calls of the application: at every moment exactly one of these holds: the poller has one slot for the
    client, the scheduler has one task for it, or it is disposed of; [on_dispose] has been called once in the last case and never before; and when
    the memory has been freed neither the poller nor the scheduler can call the client again. *)
Theorem ws_client_owner n n' ws ws' :
  iwn_ws_client_open ops spec n true = Some (n', inr ws) -> oh_slots n = 0%nat -> oh_tasks n = 0%nat -> oh_disposed n = 0%nat ->
  rtc client_step ws ws' ->
  (oh_slots (cn ws') + oh_tasks (cn ws') + Nat.b2n (dispose_cas ws'))%nat = 1%nat /\ oh_disposed (cn ws') = Nat.b2n (dispose_cas ws') /\
  (w_destroyed ws' = true -> oh_slots ws'.(cn) = 0%nat /\ oh_tasks ws'.(cn) = 0%nat).
Proof.
  intros E S0 T0 D0 Hs. assert (owned ws') as (O1 & O2 & O3).
  { pose proof (open_owned _ _ _ E S0 T0 D0) as O. clear E. induction Hs as [|ws1 ws2 ws3 Hst _ IH]; [done|]. by eapply IH, client_step_owned. }
  split; [done|]. split; [done|]. intros Hd. rewrite (O3 Hd) in O1. cbn in O1. lia.
Qed.
End Owner.

(** *** Reconnecting *)
Section Reconnect.
Context {N : Type} (ops : client_ops N) (spec : client_spec N).

(** A reconnection that finds no server disposes of the client at once, however many attempts are left: [_ws_connect] has set [wsl] to null by then. *)
Lemma failed_reconnect_disposes ws n : w_destroyed ws = false -> w_host ws <> None -> ops.(cd_resolve) ws.(cn) = (n, None) -> spec.(on_dispose) = None ->
  reconnect_attempt ws < spec.(reconnect_attempts_num) ->
  exists ws', _ws_reconnect ops spec ws = Some ws' /\ ws'.(dispose_cas) = true /\ ws'.(w_fd) = 0 /\ ws'.(cn) = ops.(cd_close) n 0.
Proof.
  destruct ws as [n0 pa host path query port secure wsl error sh out inp fd st att cc dc key de]. cbn [cn w_host w_destroyed reconnect_attempt].
  intros -> Hh Hr Hod Ha. destruct host as [host|]; [|done]. unfold _ws_reconnect. cbn [w_destroyed reconnect_attempt]. rewrite (proj2 (Z.ltb_lt _ _)) by done.
  unfold _ws_connect, connect_reset, _connect. cbn [w_host cn mbind option_bind]. rewrite Hr. cbn [negb Z.eqb WS_ERROR_PEER_CONNECT].
  unfold connect_fail, set_cn. cbn. rewrite orb_true_r. unfold _ws_dispose. cbn. rewrite Hod. destruct dc; eexists; by split.
Qed.

(** [iwn_ws_client_close] does not reach a client that waits for its next attempt: the task connects it again. *)
Lemma closed_client_reconnects ws ws' : iwn_ws_client_close ops ws = Some ws' -> close_cas ws = false ->
  close_cas ws' = true /\ cn ws' = ops.(cd_remove) ws.(cn) ws.(w_fd) /\
  (forall ws2, _ws_connect ops spec {| ws' with reconnect_attempt := u8 (reconnect_attempt ws' + 1) |} = Some (ws2, 0) ->
    reconnect_attempt ws < spec.(reconnect_attempts_num) -> w_destroyed ws = false ->
    _ws_reconnect ops spec ws' = Some {| ws2 with reconnect_attempt := 0 |}).
Proof.
  destruct ws as [n0 pa host path query port secure wsl error sh out inp fd st att cc dc key de]. cbn [close_cas]. intros E ->.
  unfold iwn_ws_client_close in E. cbn in E. destruct de; [done|]. injection E as <-. split; [done|]. split; [done|].
  intros ws2 E2 Ha _. unfold _ws_reconnect. cbn [w_destroyed reconnect_attempt] in *. rewrite (proj2 (Z.ltb_lt _ _)) by done. rewrite E2. done.
Qed.
End Reconnect.

(** ** A concrete host *)

(** The counters; connections and tasks always succeed, nothing can be read or written. *)
Record counts := mkCounts { n_slots : nat; n_tasks : nat; n_disposed : nat }.
Definition count_ops : client_ops counts :=
  mkClientOps (fun n _ => (n, IoAgain)) (fun n _ => (n, IoAgain)) (fun n _ => (n, true)) (fun n => (n, true)) (fun n => (n, true))
    (fun n => (n, None)) (fun n => (n, 0)) (fun n => (n, Some [AConnecting 7])) (fun n => (n, true))
    (fun n _ => ({| n with n_slots := S n.(n_slots) |}, true)) (fun n => ({| n with n_tasks := S n.(n_tasks) |}, true))
    (fun n _ => n) (fun n _ => n) (fun c => c =? 32).
Definition count_spec : client_spec counts :=
  mkClientSpec (Some (bytes_of_string "ws://h/p")) true (Some (fun n _ _ => (n, [])))
    (Some (fun ws => Some {| ws with cn := {| ws.(cn) with n_disposed := S ws.(cn).(n_disposed) |}; w_destroyed := true |})) None None 0 2.

#[export] Instance count_host : OwnerHost count_ops count_spec.
Proof.
  refine {| oh_slots := n_slots; oh_tasks := n_tasks; oh_disposed := n_disposed |}; try (by repeat split).
  - by intros n secure n' ok [= <- <-].
  - by intros n n' ok [= <- <-].
  - by intros f n m opc [= <-].
  - intros ws. eexists. split; [reflexivity|]. intros ws' [= <-]. done.
Defined.

Definition opened : iwn_ws_client counts :=
  Eval vm_compute in match iwn_ws_client_open count_ops count_spec (mkCounts 0 0 0) true with Some (_, inr ws) => ws
                     | _ => mkWs (mkCounts 0 0 0) false None [] None 0 false None 0 (false, false) [] [] 0 0 0 false false [] false end.
Definition lost : iwn_ws_client counts := Eval vm_compute in default opened (_on_poller_adapter_dispose_client count_ops count_spec (set_cn opened (mkCounts 0 0 0))).
Definition regained : iwn_ws_client counts := Eval vm_compute in default opened (_ws_reconnect count_ops count_spec (set_cn lost (mkCounts 0 0 0))).
Definition closed : iwn_ws_client counts := Eval vm_compute in default opened (iwn_ws_client_close count_ops regained).
Definition disposed : iwn_ws_client counts := Eval vm_compute in default opened (_on_poller_adapter_dispose_client count_ops count_spec (set_cn closed (mkCounts 0 0 0))).

(** A connection is lost, made again and closed; the application frees the client in [on_dispose]. *)
Lemma ws_client_owner_witness : n_tasks (cn lost) = 1%nat /\ n_slots (cn regained) = 1%nat /\ w_destroyed disposed = true /\
  n_disposed (cn disposed) = 1%nat /\ n_slots (cn disposed) = 0%nat /\ n_tasks (cn disposed) = 0%nat.
Proof.
  split; [done|]. split; [done|]. split; [done|].
  destruct (ws_client_owner count_ops count_spec 0 (mkCounts 0 0 0) (mkCounts 1 0 0) opened disposed) as (_ & H1 & H2).
  - vm_compute. reflexivity.
  - done.
  - done.
  - done.
  - apply (rtc_l _ _ lost); [refine (ct_gone count_ops count_spec 0 opened (mkCounts 0 0 0) lost _ _); [done|vm_compute; reflexivity]|].
    apply (rtc_l _ _ regained); [refine (ct_fire count_ops count_spec 0 lost (mkCounts 0 0 0) regained _ _); [done|vm_compute; reflexivity]|].
    apply (rtc_l _ _ closed); [refine (ct_close count_ops count_spec 0 regained closed _); vm_compute; reflexivity|].
    apply rtc_once. refine (ct_gone count_ops count_spec 0 closed (mkCounts 0 0 0) disposed _ _); [done|vm_compute; reflexivity].
  - split; [exact H1|]. exact (H2 eq_refl).
Defined.
