(* ===== verification/WsClientShake.v ===== *)
(** * WsClientShake: the handshake of the WebSocket client

    The client sends its request and takes the answer of the server for good exactly if it carries the accept value of its own key. *)
From S2P Require Import Prelude Base64 Sha1 Url Proxy HttpParser HttpResponse HttpRead HttpSession HttpReply Utf8 Frame Event EventRecv WsServer WsServerProps WsSession WsClient.
Import SHA1.

(** ** Searching *)

Lemma strstr_first n : forall h i, (i <= length h)%nat -> take (length n) (drop i h) = n -> (forall j, (j < i)%nat -> take (length n) (drop j h) <> n) ->
  strstr h n = Some (Z.of_nat i).
Proof.
  induction h as [|c h IH]; intros i Hi Hn Hf.
  - cbn in Hi. replace i with 0%nat in * by lia. cbn [strstr]. by rewrite bool_decide_eq_true_2.
  - destruct i as [|i]; cbn [strstr].
    + rewrite bool_decide_eq_true_2; [done|exact Hn].
    + rewrite bool_decide_eq_false_2 by (apply (Hf 0%nat); lia). rewrite (IH i); [cbn; f_equal; lia|cbn in Hi; lia|exact Hn|].
      intros j Hj. apply (Hf (S j)). lia.
Qed.
Lemma strstr_none n : forall h, (forall j, (j <= length h)%nat -> take (length n) (drop j h) <> n) -> strstr h n = None.
Proof.
  induction h as [|c h IH]; intros Hf; cbn [strstr]; (rewrite bool_decide_eq_false_2 by (apply (Hf 0%nat); lia)); [done|].
  rewrite IH; [done|]. intros j Hj. apply (Hf (S j)). cbn. lia.
Qed.
Lemma casestr_first n : forall h i, (i < length h)%nat -> strncaseeq (drop i h) n = true -> (forall j, (j < i)%nat -> strncaseeq (drop j h) n = false) ->
  iwn_strcasestr h n = Some (Z.of_nat i).
Proof.
  induction h as [|c h IH]; intros i Hi Hn Hf; [cbn in Hi; lia|]. destruct i as [|i]; cbn [iwn_strcasestr].
  - cbn [drop] in Hn. by rewrite Hn.
  - pose proof (Hf 0%nat ltac:(lia)) as H0. cbn [drop] in H0. rewrite H0. rewrite (IH i); [cbn; f_equal; lia|cbn in Hi; lia|exact Hn|]. intros j Hj. apply (Hf (S j)). lia.
Qed.

Section Shake.
Context {N : Type} (ops : client_ops N) (spec : client_spec N) (junk : Z).

Definition CRLF2 : list Z := [13; 10; 13; 10].
Definition accept_name : list Z := bytes_of_string "sec-websocket-accept".

(** A response of a server: the first mention of the field is the field itself, and the response ends with the first blank line. *)
Record response (resp value : list Z) : Prop := mkResponse {
  rp_field : exists pre name blanks post, resp = pre ++ (name ++ [58]) ++ blanks ++ value ++ [13; 10] ++ post /\ map lower name = accept_name /\
    (forall i, (i < length pre)%nat -> strncaseeq (drop i resp) (accept_name ++ [58]) = false) /\ Forall (fun c => ops.(cd_blank) c = true) blanks;
  rp_value : Forall (fun c => c <> 13) value /\ (forall c, head value = Some c -> ops.(cd_blank) c = false) /\ ops.(cd_blank) 13 = false;
  rp_end : exists body, resp = body ++ CRLF2 /\ forall i, (i < length body)%nat -> take 4 (drop i resp) <> CRLF2;
  rp_text : Forall (fun c => c <> 0) resp /\ zlen resp <= 1048576 }.

(** *** The check of a complete response *)

Lemma skip_all blanks rest : Forall (fun c => ops.(cd_blank) c = true) blanks -> (forall c, head rest = Some c -> ops.(cd_blank) c = false) ->
  skip_blanks ops (blanks ++ rest) = rest.
Proof.
  intros Hb Hr. induction Hb as [|c blanks Hc _ IH]; cbn [app skip_blanks].
  - destruct rest as [|c rest]; [done|]. cbn. by rewrite (Hr c eq_refl).
  - by rewrite Hc.
Qed.

Lemma accepts_response resp value key : bytes_ok key -> response resp value -> accepts ops junk key resp = Some (bool_decide (value = rfc_accept key)).
Proof.
  intros Hk [(pre & name & blanks & post & Er & Hn & Hf & Hb) (Hv & Hh & H13) _ _].
  assert (length name = 20%nat) as Hl by (rewrite <- (length_map lower), Hn; done).
  unfold accepts. rewrite (casestr_first (bytes_of_string "sec-websocket-accept:") resp (length pre)).
  - assert (drop (Z.to_nat (Z.of_nat (length pre) + 21)) resp = blanks ++ value ++ [13; 10] ++ post) as ->.
    { replace (Z.to_nat _) with (length (pre ++ name ++ [58])) by (rewrite !length_app; cbn; lia). rewrite Er, (app_assoc pre (name ++ [58])). by rewrite drop_app_length. }
    rewrite skip_all; [|done|intros c; destruct value; cbn; [congruence|apply Hh]].
    rewrite (strstr_first [13; 10] _ (length value)).
    + unfold _handshake_validate_accept_key. rewrite (accept_value_rfc junk key Hk). cbn [mbind option_bind]. rewrite zlen_app. change (zlen [0]) with 1.
      destruct (Z.eqb_spec (Z.of_nat (length value)) (zlen (rfc_accept key) + 1 - 1)) as [Ez|Ez]; cbn [negb].
      * assert (length value = length (rfc_accept key)) as Hlen by (unfold zlen in Ez; lia). rewrite Nat2Z.id. rewrite take_app_length.
        rewrite Hlen, take_app_length. f_equal. apply bool_decide_ext. by split.
      * f_equal. symmetry. apply bool_decide_eq_false_2. intros ->. unfold zlen in Ez. lia.
    + rewrite length_app. lia.
    + by rewrite drop_app_length.
    + intros j Hj E. rewrite drop_app_le in E by lia. destruct (drop j value) as [|c l] eqn:Ed; [apply (f_equal length) in Ed; rewrite length_drop in Ed; cbn in Ed; lia|].
      cbn in E. injection E as -> _. rewrite Forall_forall in Hv. apply (Hv 13); [|done]. rewrite <- (take_drop j value), Ed. apply elem_of_app. right. by left.
  - rewrite Er, !length_app. cbn. lia.
  - rewrite Er, drop_app_length. unfold strncaseeq. change (length (bytes_of_string "sec-websocket-accept:")) with 21%nat.
    rewrite take_app_length' by (rewrite length_app; cbn; lia). apply strcaseeq_spec. rewrite map_app, Hn. done.
  - exact Hf.
Qed.

(** An incomplete response. *)
Lemma strstr_prefix resp value inp rest : response resp value -> resp = inp ++ rest -> rest <> [] -> strstr inp CRLF2 = None.
Proof.
  intros [_ _ (body & Eb & Hf) _] E Hne. apply strstr_none. intros j _ Ej. change (length CRLF2) with 4%nat in Ej.
  assert (j + 4 <= length inp)%nat as Hj by (apply (f_equal length) in Ej; rewrite length_take, length_drop in Ej; change (length CRLF2) with 4%nat in Ej; lia).
  apply (Hf j).
  - apply (f_equal length) in Eb. rewrite E, !length_app in Eb. destruct rest; [done|]. change (length CRLF2) with 4%nat in Eb. cbn [length] in Eb. lia.
  - rewrite E, drop_app_le, take_app_le by (rewrite ?length_drop; lia). exact Ej.
Qed.
Lemma strstr_response resp value : response resp value -> exists i, strstr resp CRLF2 = Some i.
Proof.
  intros [_ _ (body & Eb & Hf) _]. eexists. apply (strstr_first CRLF2 resp (length body)); [rewrite Eb, length_app; lia| |exact Hf].
  by rewrite Eb, drop_app_length.
Qed.

(** ** The network

    Bytes arrive ([sn_pending]) and are taken ([sn_sent]) in pieces, and either side blocks finitely often; memory and random bytes are available;
    [sn_connected] counts the calls of [on_connected], which does nothing else. *)
Class ShakeNet := {
  sn_pending : N -> list Z; sn_rbudget : N -> nat; sn_sent : N -> list Z; sn_wbudget : N -> nat; sn_connected : N -> nat; sn_random : list Z;
  sn_out n := (sn_sent n, sn_wbudget n, sn_connected n);
  sn_all n := (sn_pending n, sn_rbudget n, sn_out n);
  sn_read n n' r : ops.(cd_read) n 1024 = (n', r) -> exists l, (r = IoAgain /\ l = [] \/ r = IoDone l /\ l <> []) /\
    sn_pending n = l ++ sn_pending n' /\ (sn_pending n <> [] -> sn_rbudget n' < sn_rbudget n)%nat /\ sn_out n' = sn_out n;
  sn_write n d n' r : ops.(cd_write) n d = (n', r) -> d <> [] ->
    (r = IoAgain /\ sn_sent n' = sn_sent n /\ (sn_wbudget n' < sn_wbudget n)%nat \/
     exists k, r = IoDone k /\ 0 < k <= zlen d /\ sn_sent n' = sn_sent n ++ take (Z.to_nat k) d /\ (sn_wbudget n' <= sn_wbudget n)%nat) /\
    sn_pending n' = sn_pending n /\ sn_rbudget n' = sn_rbudget n /\ sn_connected n' = sn_connected n;
  sn_alloc n k : exists n', ops.(cd_alloc) n k = (n', true) /\ sn_all n' = sn_all n;
  sn_nodelay n : exists n', ops.(cd_nodelay) n = (n', true) /\ sn_all n' = sn_all n;
  sn_urandom n : exists n', ops.(cd_random) n = (n', Some sn_random) /\ sn_all n' = sn_all n;
  sn_random_ok : bytes_ok sn_random /\ zlen sn_random = 16;
  sn_handshake : spec.(on_handshake) = None;
  sn_on_connected : exists f, spec.(on_connected) = Some f /\ forall ws, exists n', f ws = Some {| ws with cn := n' |} /\
    (sn_pending n', sn_rbudget n', sn_sent n', sn_wbudget n') = (sn_pending ws.(cn), sn_rbudget ws.(cn), sn_sent ws.(cn), sn_wbudget ws.(cn)) /\
    sn_connected n' = S (sn_connected ws.(cn)) }.
Context {HN : ShakeNet} (base : iwn_ws_client N).

(** The client [base] in the middle of its handshake. *)
Definition snap (n : N) (out inp : list Z) (st : Z) (key : list Z) : iwn_ws_client N :=
  mkWs n base.(w_pa) base.(w_host) base.(w_path) base.(w_query) base.(w_port) base.(w_secure) base.(w_wsl) base.(w_error) base.(w_shut) out inp base.(w_fd) st
    base.(reconnect_attempt) base.(close_cas) base.(dispose_cas) key base.(w_destroyed).

(** *** Sending *)

Lemma hs_write_spec fuel : forall n out, (length out <= fuel)%nat ->
  exists n' out' e w, hs_write ops fuel n out = Some (n', out', e) /\ out = w ++ out' /\ sn_sent n' = sn_sent n ++ w /\
    sn_pending n' = sn_pending n /\ sn_rbudget n' = sn_rbudget n /\ sn_connected n' = sn_connected n /\
    (e = HsDone /\ out' = [] /\ (sn_wbudget n' <= sn_wbudget n)%nat \/ e = HsAgain /\ out' <> [] /\ (sn_wbudget n' < sn_wbudget n)%nat).
Proof.
  assert (forall n fuel, exists n' out' e w, hs_write ops fuel n [] = Some (n', out', e) /\ [] = w ++ out' /\ sn_sent n' = sn_sent n ++ w /\
    sn_pending n' = sn_pending n /\ sn_rbudget n' = sn_rbudget n /\ sn_connected n' = sn_connected n /\
    (e = HsDone /\ out' = [] /\ (sn_wbudget n' <= sn_wbudget n)%nat \/ e = HsAgain /\ out' <> [] /\ (sn_wbudget n' < sn_wbudget n)%nat)) as Hnil.
  { intros n f. exists n, [], HsDone, []. rewrite !app_nil_r. split; [by destruct f|]. do 5 (split; [done|]). left. split_and!; done || lia. }
  induction fuel as [|fuel IH]; intros n [|x out] Hl; cbn [length] in Hl; try lia; try apply Hnil.
  cbn [hs_write]. destruct (cd_write ops n (x :: out)) as [n1 r] eqn:Ew. destruct (sn_write _ _ _ _ Ew) as (Hr & P1 & P2 & P3); [done|].
  destruct Hr as [(-> & S1 & B1)|(k & -> & Hk & S1 & B1)].
  - exists n1, (x :: out), HsAgain, []. rewrite !app_nil_r. split_and!; try done. right. by split_and!.
  - rewrite (proj2 (Z.eqb_neq k 0)) by lia. destruct (IH n1 (drop (Z.to_nat k) (x :: out))) as (n2 & out' & e & w & E & Ho & Q1 & Q2 & Q3 & Q4 & Q5).
    { rewrite length_drop. cbn [length]. lia. }
    exists n2, out', e, (take (Z.to_nat k) (x :: out) ++ w). split; [exact E|]. rewrite <- app_assoc, <- Ho, take_drop, Q1, S1, app_assoc.
    split_and!; [done|done|congruence|congruence|congruence|]. destruct Q5 as [(-> & -> & B2)|(-> & O2 & B2)]; [left|right]; split_and!; try done; lia.
Qed.

(** *** Receiving *)

Lemma hs_take_part resp value n inp l key : response resp value -> resp = inp ++ l ++ sn_pending n -> sn_pending n <> [] ->
  exists n', hs_take ops junk (snap n [] inp 1 key) l = Some (snap n' [] (inp ++ l) 1 key, None) /\ sn_all n' = sn_all n.
Proof.
  intros Hr E Hne. destruct (sn_alloc n 0) as (n' & Ea & A). exists n'. split; [|done].
  unfold hs_take. change (has_state (snap n [] inp 1 key) _STATE_HANDSHAKE_RECV) with false. cbv iota.
  change (cn (snap n [] inp 1 key)) with n. rewrite Ea. cbn [negb]. cbn [input snap].
  pose proof (rp_text _ _ Hr) as [H0 Hmax]. rewrite E, !zlen_app in Hmax. pose proof (zlen_nonneg (sn_pending n)).
  rewrite zlen_app. rewrite (proj2 (Z.ltb_ge 1048576 (zlen inp + zlen l))) by lia. rewrite cstr_nonzero.
  2: { rewrite E, app_assoc in H0. by apply Forall_app in H0 as [H0 _]. }
  change [13; 10; 13; 10] with CRLF2. rewrite (strstr_prefix resp value (inp ++ l) (sn_pending n)); [done|done|by rewrite <- app_assoc|done].
Qed.
Lemma hs_take_last resp value n inp l key : bytes_ok key -> response resp value -> resp = inp ++ l ->
  exists n', hs_take ops junk (snap n [] inp 1 key) l =
    Some (snap n' [] resp 3 key, if bool_decide (value = rfc_accept key) then None else Some WS_ERROR_HANDSHAKE_CLIENT_KEY) /\ sn_all n' = sn_all n.
Proof.
  intros Hk Hr E. destruct (sn_alloc n 0) as (n1 & Ea & A1). destruct (sn_nodelay n1) as (n2 & En & A2).
  unfold hs_take. change (has_state (snap n [] inp 1 key) _STATE_HANDSHAKE_RECV) with false. cbv iota.
  change (cn (snap n [] inp 1 key)) with n. rewrite Ea. cbn [negb]. cbn [input snap]. rewrite <- E.
  pose proof (rp_text _ _ Hr) as [H0 Hmax]. rewrite (proj2 (Z.ltb_ge 1048576 (zlen resp))) by lia. rewrite cstr_nonzero by done.
  change [13; 10; 13; 10] with CRLF2. destruct (strstr_response _ _ Hr) as [i ->]. unfold set_state. cbn [client_key snap]. rewrite (accepts_response _ _ _ Hk Hr). cbn [mbind option_bind].
  destruct (bool_decide (value = rfc_accept key)); cbn [negb].
  - cbn [cn]. rewrite En. exists n2. split; [done|congruence].
  - exists n1. by split.
Qed.

Lemma read_shape n n' r : ops.(cd_read) n 1024 = (n', r) -> sn_out n' = sn_out n /\
  (r = IoAgain /\ sn_pending n' = sn_pending n /\ (sn_pending n <> [] -> sn_rbudget n' < sn_rbudget n)%nat \/
   exists x l, r = IoDone (x :: l) /\ sn_pending n = (x :: l) ++ sn_pending n' /\ (sn_rbudget n' < sn_rbudget n)%nat).
Proof.
  intros E. destruct (sn_read _ _ _ E) as (l & [[-> ->]|[-> Hl]] & P & B & O); (split; [exact O|]); [by left|]. right.
  destruct l as [|x l]; [done|]. exists x, l. split_and!; [done|done|]. apply B. by rewrite P.
Qed.
(** Nothing more comes: the loop ends. *)
Lemma hs_read_idle fuel n resp key : sn_pending n = [] ->
  exists n', hs_read ops junk (S fuel) (snap n [] resp 3 key) = Some (snap n' [] resp 3 key, HsAgain) /\ sn_out n' = sn_out n.
Proof.
  intros P. cbn [hs_read]. change (cn (snap n [] resp 3 key)) with n. destruct (cd_read ops n 1024) as [n' r] eqn:E.
  destruct (read_shape _ _ _ E) as (O & [(-> & _)|(x & l & -> & P' & _)]); [by exists n'|]. by rewrite P in P'.
Qed.

(** What an event makes of the client when the response has not been taken yet. *)
Definition heard (resp value key : list Z) (n : N) (r : iwn_ws_client N * hs_end) : Prop :=
  (exists n' inp, r = (snap n' [] inp 1 key, HsAgain) /\ resp = inp ++ sn_pending n' /\ sn_pending n' <> [] /\ sn_out n' = sn_out n /\ (sn_rbudget n' < sn_rbudget n)%nat) \/
  (exists n', r = (snap n' [] resp 3 key, if bool_decide (value = rfc_accept key) then HsAgain else HsFail WS_ERROR_HANDSHAKE_CLIENT_KEY) /\ sn_out n' = sn_out n).

Lemma hs_read_spec resp value key : bytes_ok key -> response resp value -> forall fuel n inp, (sn_rbudget n < fuel)%nat ->
  resp = inp ++ sn_pending n -> sn_pending n <> [] ->
  exists r, hs_read ops junk fuel (snap n [] inp 1 key) = Some r /\ heard resp value key n r.
Proof.
  intros Hk Hr. induction fuel as [|fuel IH]; intros n inp Hf E Hne; [lia|]. cbn [hs_read]. change (cn (snap n [] inp 1 key)) with n.
  destruct (cd_read ops n 1024) as [n1 r] eqn:Er. destruct (read_shape _ _ _ Er) as (O & [(-> & P & B)|(x & l & -> & P & B)]).
  - eexists. split; [reflexivity|]. left. exists n1, inp. split; [done|]. rewrite P. auto.
  - match goal with |- context [hs_take ops junk ?w (x :: l)] => change w with (snap n1 [] inp 1 key) end. rewrite P in E.
    destruct (decide (sn_pending n1 = [])) as [Ep|Ep].
    + rewrite Ep, app_nil_r in E. destruct (hs_take_last resp value n1 inp (x :: l) key Hk Hr E) as (n2 & Et & A). rewrite Et. cbn [mbind option_bind].
      unfold sn_all in A. injection A as A1 A2 A3 A4 A5.
      assert (sn_out n2 = sn_out n) as O2 by (rewrite <- O; unfold sn_out; congruence).
      destruct (bool_decide (value = rfc_accept key)) eqn:Ev.
      * destruct fuel as [|fuel]; [lia|]. destruct (hs_read_idle fuel n2 resp key) as (n3 & E3 & O3); [congruence|]. rewrite E3.
        eexists. split; [reflexivity|]. right. exists n3. rewrite Ev. split; [done|congruence].
      * eexists. split; [reflexivity|]. right. exists n2. by rewrite Ev.
    + destruct (hs_take_part resp value n1 inp (x :: l) key Hr E Ep) as (n2 & Et & A). rewrite Et. cbn [mbind option_bind].
      unfold sn_all in A. injection A as A1 A2 A3 A4 A5.
      destruct (IH n2 (inp ++ x :: l)) as (r & E3 & Hh); [lia|by rewrite A1, <- app_assoc|congruence|]. exists r. split; [exact E3|].
      assert (sn_out n2 = sn_out n) as O2 by (rewrite <- O; unfold sn_out; congruence). unfold heard in *. rewrite O2, A2 in Hh.
      destruct Hh as [(n' & i' & H1 & H2 & H3 & H4 & H5)|Hh]; [left|by right]. exists n', i'. split_and!; try done. lia.
Qed.

(** ** The events of a handshake *)

Fixpoint handshake (k fuel : nat) (ws : iwn_ws_client N) : option (iwn_ws_client N * Z) :=
  match k with
  | O => None
  | S k =>
      '(ws, ret) ← _on_handshake_event ops spec junk fuel ws;
      if (ret =? -1) || has_state ws _STATE_HANDSHAKE_RECV then Some (ws, ret) else handshake k fuel ws
  end.

(** The end of a handshake. *)
Definition verdict (value key : list Z) (n : N) (r : iwn_ws_client N * Z) : Prop :=
  exists n' resp, r.1 = snap n' [] resp 3 key /\ sn_sent n' = sn_sent n /\
    if bool_decide (value = rfc_accept key) then r.2 = IWN_POLLIN /\ sn_connected n' = S (sn_connected n) else r.2 = -1 /\ sn_connected n' = sn_connected n.

Lemma verdict_step resp value key fuel n n' inp : has_state (snap n [] inp 1 key) _STATE_HANDSHAKE_SEND = true ->
  hs_read ops junk fuel (snap n [] inp 1 key) =
    Some (snap n' [] resp 3 key, if bool_decide (value = rfc_accept key) then HsAgain else HsFail WS_ERROR_HANDSHAKE_CLIENT_KEY) -> sn_out n' = sn_out n ->
  exists r, handshake 1 fuel (snap n [] inp 1 key) = Some r /\ verdict value key n r.
Proof.
  intros _ Er O. injection O as O1 O2 O3. cbn [handshake]. unfold _on_handshake_event. change (negb (has_state (snap n [] inp 1 key) _STATE_HANDSHAKE_SEND)) with false. cbv iota.
  change (negb (has_state (snap n [] inp 1 key) _STATE_HANDSHAKE_RECV)) with true. cbv iota. rewrite Er. cbn [mbind option_bind].
  unfold verdict, hs_finish. change (has_state (snap n' [] resp 3 key) _STATE_HANDSHAKE_RECV) with true. destruct (bool_decide (value = rfc_accept key)).
  - change (negb (0 =? 0)) with false. cbv iota. destruct sn_on_connected as (f & -> & Hf). destruct (Hf (snap n' [] resp 3 key)) as (n2 & -> & A & B).
    cbn [cn snap] in A, B. injection A as A1 A2 A3 A4. cbn [mbind option_bind]. change (IWN_POLLIN =? -1) with false. cbn [orb].
    match goal with |- context [has_state ?w _STATE_HANDSHAKE_RECV] => change w with (snap n2 [] resp 3 key) end.
    change (has_state (snap n2 [] resp 3 key) _STATE_HANDSHAKE_RECV) with true. cbv iota. eexists. split; [reflexivity|]. exists n2, resp. cbn [fst snd].
    split_and!; [done|congruence|done|congruence].
  - change (negb (WS_ERROR_HANDSHAKE_CLIENT_KEY =? 0)) with true. cbv iota. cbn [mbind option_bind]. change (-1 =? -1) with true. cbn [orb].
    eexists. split; [reflexivity|]. exists n', resp. cbn [fst snd]. split_and!; congruence.
Qed.

Lemma recv_phase resp value key fuel : bytes_ok key -> response resp value -> forall m n inp, (sn_rbudget n <= m)%nat -> (m < fuel)%nat ->
  resp = inp ++ sn_pending n -> sn_pending n <> [] ->
  exists k r, (k <= S m)%nat /\ handshake k fuel (snap n [] inp 1 key) = Some r /\ verdict value key n r.
Proof.
  intros Hk Hr. induction m as [|m IH]; intros n inp Hm Hf E Hne;
    (destruct (hs_read_spec resp value key Hk Hr fuel n inp ltac:(lia) E Hne) as (r & Er & Hh);
     destruct Hh as [(n' & i' & -> & Q2 & Q3 & Q4 & Q5)|(n' & -> & Q2)]); try lia.
  - destruct (verdict_step resp value key fuel n n' inp eq_refl Er Q2) as (r & E1 & V). exists 1%nat, r. split; [lia|done].
  - destruct (IH n' i' ltac:(lia) ltac:(lia) Q2 Q3) as (k & r & Lk & Ek & V). exists (S k), r. split; [lia|]. split.
    + cbn [handshake]. unfold _on_handshake_event. change (negb (has_state (snap n [] inp 1 key) _STATE_HANDSHAKE_SEND)) with false. cbv iota.
      change (negb (has_state (snap n [] inp 1 key) _STATE_HANDSHAKE_RECV)) with true. cbv iota. rewrite Er. cbn [mbind option_bind].
      unfold hs_finish. change (has_state (snap n' [] i' 1 key) _STATE_HANDSHAKE_RECV) with false. exact Ek.
    + injection Q4 as O1 O2 O3. unfold verdict in *. by rewrite <- O1, <- O3.
  - destruct (verdict_step resp value key fuel n n' inp eq_refl Er Q2) as (r & E1 & V). exists 1%nat, r. split; [lia|done].
Qed.

(** The request goes out. *)
Lemma send_phase fuel key : forall m n out, (sn_wbudget n <= m)%nat -> out <> [] -> (length out <= fuel)%nat ->
  exists j n', (j <= m)%nat /\ (forall k, handshake (S j + k) fuel (snap n out [] 0 key) = handshake k fuel (snap n' [] [] 1 key)) /\
    sn_sent n' = sn_sent n ++ out /\ sn_pending n' = sn_pending n /\ sn_rbudget n' = sn_rbudget n /\ sn_connected n' = sn_connected n.
Proof.
  assert (forall n out n' out' e, out <> [] -> hs_write ops fuel n out = Some (n', out', e) ->
    _on_handshake_event ops spec junk fuel (snap n out [] 0 key) = match e with
      | HsDone => Some (snap n' out' [] 1 key, IWN_POLLOUT) | HsAgain => Some (snap n' out' [] 0 key, IWN_POLLOUT)
      | _ => _on_handshake_event ops spec junk fuel (snap n out [] 0 key) end) as Hev.
  { intros n out n' out' e Hne E. destruct e; try done; unfold _on_handshake_event; change (negb (has_state (snap n out [] 0 key) _STATE_HANDSHAKE_SEND)) with true; cbv iota;
      change (output (snap n out [] 0 key)) with out; (destruct (Z.eqb_spec (zlen out) 0); [by destruct out|]); cbn [mbind option_bind]; change (negb (0 =? 0)) with false; cbv iota;
      change (cn (snap n out [] 0 key)) with n; change (output (snap n out [] 0 key)) with out; rewrite E; reflexivity. }
  induction m as [|m IH]; intros n out Hm Hne Hl; destruct (hs_write_spec fuel n out Hl) as (n' & out' & e & w & Ew & -> & S1 & P1 & P2 & P3 & Hor);
    pose proof (Hev _ _ _ _ _ Hne Ew) as He; destruct Hor as [(-> & -> & B)|(-> & O & B)]; try lia.
  1, 2: rewrite app_nil_r in *; exists 0%nat, n'; split; [lia|]; split; [|by split_and!]; intros k; change (1 + k)%nat with (S k); cbn [handshake]; rewrite He; reflexivity.
  destruct (IH n' out' ltac:(lia) O) as (j & n2 & Lj & Ej & S2 & Q1 & Q2 & Q3); [rewrite length_app in Hl; lia|]. exists (S j), n2. split; [lia|]. split.
  - intros k. change (S (S j) + k)%nat with (S (S j + k)). cbn [handshake]. rewrite He. cbn [mbind option_bind]. exact (Ej k).
  - rewrite S2, S1, <- app_assoc. split_and!; congruence.
Qed.

(** *** The whole handshake *)

Definition drawn_key : list Z := b64_text base64_VARIANT_ORIGINAL sn_random.

Lemma key_spec n key : exists n', _handshake_write_client_key_b64 ops (snap n [] [] 0 key) = Some (snap n' [] [] 0 drawn_key, 0) /\ sn_all n' = sn_all n.
Proof.
  destruct (sn_urandom n) as (n1 & E1 & A1). destruct sn_random_ok as [Hb Hl]. exists n1. split; [|done].
  unfold _handshake_write_client_key_b64. change (cn (snap n [] [] 0 key)) with n. rewrite E1. rewrite encode_text; [|constructor|done|lia|by rewrite Hl].
  cbn [mbind option_bind]. rewrite cstr_app_0 by (by apply b64_text_nonzero). reflexivity.
Qed.
Lemma fill_spec n key : exists n', forall host, base.(w_host) = Some host ->
  _handshake_output_fill ops spec (snap n [] [] 0 key) =
    Some (snap n' (request_text base.(w_path) base.(w_query) host base.(w_port) [] drawn_key) [] 0 drawn_key, 0) /\ sn_all n' = sn_all n.
Proof.
  destruct (key_spec n key) as (n1 & E1 & A1). destruct (sn_alloc n1 0) as (n2 & E2 & A2).
  exists n2. intros host Hh. split; [|congruence]. unfold _handshake_output_fill.
  match goal with |- context [_handshake_write_client_key_b64 ops ?w] => change w with (snap n [] [] 0 key) end. rewrite E1.
  cbn [mbind option_bind]. change (negb (0 =? 0)) with false. cbv iota. rewrite sn_handshake.
  change (w_host (snap n1 [] [] 0 drawn_key)) with (w_host base). rewrite Hh. cbn [mbind option_bind].
  change (cn (snap n1 [] [] 0 drawn_key)) with n1. rewrite E2. unfold snap. rewrite Hh. reflexivity.
Qed.
End Shake.
Arguments sn_pending {N ops spec _} n.
Arguments sn_rbudget {N ops spec _} n.
Arguments sn_sent {N ops spec _} n.
Arguments sn_wbudget {N ops spec _} n.
Arguments sn_connected {N ops spec _} n.

Lemma b64_text_ok variant bin : bytes_ok bin -> bytes_ok (b64_text variant bin).
Proof.
  intros Hb. unfold b64_text. apply Forall_app. split; [|by apply Forall_replicate]. apply Forall_map.
  eapply Forall_impl; [by apply digits_range|]. intros x Hx. cbn beta in *.
  assert (forall us, forallb (fun x => (0 <=? to_char us x) && (to_char us x <? 256)) (Z.of_nat <$> seq 0 64) = true) as Hc by (intros []; vm_compute; reflexivity).
  specialize (Hc (urlsafe variant)). rewrite forallb_forall in Hc. specialize (Hc x). unfold byte_ok.
  assert (In x (Z.of_nat <$> seq 0 64)) as Hi by (apply list_elem_of_In, list_elem_of_fmap; exists (Z.to_nat x); split; [lia|]; apply elem_of_seq; lia).
  specialize (Hc Hi). lia.
Qed.

(** C5. The handshake of the client.  Whatever the pieces in which the network takes the request and delivers the response: finitely many
    events write exactly one request, with a key of 16 random bytes in base64, and read the response.  The client takes the connection for
    established, calling [on_connected] once, exactly if the first accept field of the response is the value RFC 6455 asks for: the base64 text of the
    SHA-1 digest of its own key and the GUID, which is what the handler of the server answers.  Any other value ends the connection. *)
Theorem ws_client_handshake {N} (ops : client_ops N) (spec : client_spec N) (junk : Z) `{!ShakeNet ops spec} ws host resp value fuel :
  w_state ws = 0 -> output ws = [] -> input ws = [] -> w_host ws = Some host -> sn_pending (cn ws) = resp -> response ops resp value ->
  (length (request_text (w_path ws) (w_query ws) host (w_port ws) [] (drawn_key ops spec)) <= fuel)%nat -> (sn_rbudget (cn ws) < fuel)%nat ->
  let key := drawn_key ops spec in
  exists k ws' ret, (k <= sn_wbudget (cn ws) + sn_rbudget (cn ws) + 2)%nat /\ handshake ops spec junk k fuel ws = Some (ws', ret) /\
    client_key ws' = key /\ w_wsl ws' = w_wsl ws /\
    sn_sent (cn ws') = sn_sent (cn ws) ++ request_text (w_path ws) (w_query ws) host (w_port ws) [] key /\
    if bool_decide (value = rfc_accept key)
    then ret = IWN_POLLIN /\ has_state ws' _STATE_HANDSHAKE_RECV = true /\ sn_connected (cn ws') = S (sn_connected (cn ws))
    else ret = -1 /\ sn_connected (cn ws') = sn_connected (cn ws).
Proof.
  intros Hst Hout Hin Hh Hp Hr Hf1 Hf2 key. set (req := request_text _ _ _ _ _ _) in *.
  assert (ws = snap ws (cn ws) [] [] 0 (client_key ws)) as Ews by (destruct ws; cbn in *; by subst).
  destruct (fill_spec ops spec ws (cn ws) (client_key ws)) as (n1 & Hfill). destruct (Hfill host Hh) as [Efill A]. clear Hfill. injection A as A1 A2 A3 A4 A5.
  assert (forall k, handshake ops spec junk (S k) fuel ws = handshake ops spec junk (S k) fuel (snap ws n1 req [] 0 key)) as Estart.
  { intros k. rewrite Ews at 1. cbn [handshake]. f_equal. unfold _on_handshake_event.
    change (negb (has_state (snap ws (cn ws) [] [] 0 (client_key ws)) _STATE_HANDSHAKE_SEND)) with true.
    change (negb (has_state (snap ws n1 req [] 0 key) _STATE_HANDSHAKE_SEND)) with true. cbv iota.
    change (output (snap ws (cn ws) [] [] 0 (client_key ws))) with (@nil Z). change (zlen (@nil Z) =? 0) with true. cbv iota. rewrite Efill.
    change (output (snap ws n1 req [] 0 key)) with req. reflexivity. }
  destruct (send_phase ops spec junk ws fuel key (sn_wbudget n1) n1 req (le_n _) ltac:(done) Hf1) as (j & n2 & Lj & Ej & S2 & P2 & B2 & C2).
  destruct (recv_phase ops spec junk ws resp value key fuel) with (m := sn_rbudget n2) (n := n2) (inp := @nil Z) as (k & r & Lk & Ek & V).
  - apply b64_text_ok, sn_random_ok.
  - done.
  - lia.
  - rewrite B2, A2. done.
  - by rewrite P2, A1.
  - rewrite P2, A1, Hp. destruct Hr as [_ _ (body & -> & _) _]. by destruct body.
  - exists (S j + k)%nat, r.1, r.2. split; [lia|]. split; [change (S j + k)%nat with (S (j + k)); rewrite Estart; change (S (j + k)) with (S j + k)%nat; rewrite (Ej k), Ek; by destruct r|].
    destruct V as (n3 & resp' & -> & S3 & V). cbn [client_key w_wsl snap cn]. split; [done|]. split; [done|]. split; [rewrite S3, S2, A3; done|].
    rewrite C2, A5 in V. destruct (bool_decide (value = rfc_accept key)); [|done]. destruct V as [V1 V2]. by split_and!.
Qed.

(** ** A concrete network *)

(** The transport of [world_ops]; the calls of [on_connected] are counted as messages heard. *)
Definition shake_ops : client_ops wire_world :=
  mkClientOps world_ops.(nd_read) world_ops.(nd_write) (fun n _ => (n, true)) (fun n => (n, true)) (fun n => (n, true))
    (fun n => (n, Some (bytes_of_string "the sample nonce"))) (fun n => (n, 0)) (fun n => (n, Some [AConnecting 7])) (fun n => (n, true))
    (fun n _ => (n, true)) (fun n => (n, true)) (fun n _ => n) (fun n _ => n) (fun c => (c =? 32) || (c =? 9)).
Definition shake_spec : client_spec wire_world :=
  mkClientSpec None true None None (Some (fun ws => Some {| ws with cn := {| ws.(cn) with o_heard := ws.(cn).(o_heard) ++ [mkMsg [] 0] |} |})) None 0 0.

#[export] Instance shake_net : ShakeNet shake_ops shake_spec.
Proof.
  refine {| sn_pending := o_in; sn_rbudget := wn_rbudget; sn_sent := o_out; sn_wbudget := wn_wbudget; sn_connected n := length n.(o_heard);
            sn_random := bytes_of_string "the sample nonce" |}.
  - intros n n' r E. destruct (wn_read _ _ _ _ E) as (Hr & R1 & R2 & R3 & R4). destruct (wn_stream _ _ _ _ E ltac:(lia)) as (S1 & _ & S2). cbv zeta in S1.
    cbn [wn_sent wn_heard wn_pending world_net] in *. destruct Hr as [->|(l & -> & Hl)].
    + exists []. split; [by left|]. split; [done|]. split; [exact S2|]. by rewrite R1, R2, R3.
    + exists l. split; [by right|]. split; [done|]. split; [exact S2|]. by rewrite R1, R2, R3.
  - intros n d n' r E Hd. destruct (wn_write _ _ _ _ E) as (Hr & P1 & P2 & P3). cbn [wn_sent wn_heard wn_pending world_net] in *.
    split; [|split_and!; [done|done|by rewrite P3]]. destruct Hr as [(-> & S1 & B)|Hr]; [left|by right]. split_and!; auto.
  - intros n k. by exists n.
  - intros n. by exists n.
  - intros n. by exists n.
  - split; [apply bytes_of_string_ok|done].
  - done.
  - eexists. split; [reflexivity|]. intros ws. eexists. split; [reflexivity|]. split; [done|]. cbn. rewrite length_app. cbn. lia.
Defined.

Definition text_line (s : string) : list Z := bytes_of_string s ++ [13; 10].
(** The response of RFC 6455, section 1.2. *)
Definition rfc_response : list Z :=
  text_line "HTTP/1.1 101 Switching Protocols" ++ text_line "Upgrade: websocket" ++ text_line "Connection: Upgrade" ++
  text_line "Sec-WebSocket-Accept: s3pPLMBiTxaQ9kYGzzhZRbK+xOo=" ++ [13; 10].

(** Decidable forms of the two conditions on positions. *)
Lemma below_check (n : nat) (P : nat -> Prop) `{forall i, Decision (P i)} : forallb (fun i => bool_decide (P i)) (seq 0 n) = true -> forall i, (i < n)%nat -> P i.
Proof. intros E i Hi. rewrite forallb_forall in E. apply (bool_decide_eq_true_1 (P i)), E, in_seq. lia. Qed.

Lemma rfc_response_ok : response shake_ops rfc_response (bytes_of_string "s3pPLMBiTxaQ9kYGzzhZRbK+xOo=").
Proof.
  split.
  - exists (take 75 rfc_response), (bytes_of_string "Sec-WebSocket-Accept"), [32], [13; 10]. split; [vm_compute; reflexivity|]. split; [vm_compute; reflexivity|].
    split; [|by repeat constructor]. apply (below_check _ (fun i => strncaseeq (drop i rfc_response) (accept_name ++ [58]) = false)). vm_compute. reflexivity.
  - split; [repeat constructor; discriminate|]. split; [|done]. intros c [= <-]. done.
  - exists (take 125 rfc_response). split; [vm_compute; reflexivity|].
    apply (below_check _ (fun i => take 4 (drop i rfc_response) <> CRLF2)). vm_compute. reflexivity.
  - split; [repeat constructor; discriminate|]. vm_compute. discriminate.
Qed.

Definition shake_client (world : wire_world) : iwn_ws_client wire_world :=
  mkWs world false (Some (bytes_of_string "h")) [47] None 80 false (Some (wslay_event_context_init false)) 0 (false, false) [] [] 7 0 0 false false [] false.

Lemma ws_client_handshake_witness :
  exists k ws' ret, (k <= 300)%nat /\ handshake shake_ops shake_spec 0 k 300 (shake_client (mkWorld rfc_response [3; 0; 100] [] [2; 0] [])) = Some (ws', ret) /\
    client_key ws' = bytes_of_string "dGhlIHNhbXBsZSBub25jZQ==" /\ ret = IWN_POLLIN /\ length (o_heard (cn ws')) = 1%nat.
Proof.
  destruct (ws_client_handshake shake_ops shake_spec 0 (shake_client (mkWorld rfc_response [3; 0; 100] [] [2; 0] [])) (bytes_of_string "h") rfc_response
    (bytes_of_string "s3pPLMBiTxaQ9kYGzzhZRbK+xOo=") 300) as (k & ws' & ret & Hk & E & H1 & _ & _ & H2); try reflexivity.
  - apply rfc_response_ok.
  - vm_compute. lia.
  - vm_compute. lia.
  - exists k, ws', ret. split; [etrans; [exact Hk|vm_compute; lia]|]. split; [exact E|]. split; [rewrite H1; vm_compute; reflexivity|].
    rewrite bool_decide_eq_true_2 in H2 by (vm_compute; reflexivity). destruct H2 as (-> & _ & H2). split; [done|exact H2].
Defined.

(** Frames that arrive with the response are lost: they are read by the loop of the handshake and never reach wslay. *)
Example early_frame_lost :
  match handshake shake_ops shake_spec 0 3 300 (shake_client (mkWorld (rfc_response ++ [129; 1; 65]) [] [] [] [])) with
  | Some (ws, ret) => ret = IWN_POLLIN /\ has_state ws _STATE_HANDSHAKE_RECV = true /\ o_in (cn ws) = [] /\ w_wsl ws = Some (wslay_event_context_init false)
  | None => False
  end.
Proof. vm_compute. auto. Qed.
