(* ===== verification/WfRoute.v ===== *)
(** * WfRoute: the route tree and the route iterator of [src/src/http/iwn_wf.c]

    Routes are nodes of a heap, linked by [parent], [child] and [next] pointers as in [struct
    route]; a context has a pointer to its root route.  The first part models registration
    ([iwn_wf_route], [_route_import], [_route_attach]), the second part the iterator that scrolls
    over the routes that match a request ([_route_iter_next] and the functions below it).  The
    regular expression engine is not part of the repository: [re_create] and [re_match] are
    parameters. *)
From S2P Require Import Prelude.

(** ** Arrays, strings *)

(** Element [i] of an array; [None] outside of it. *)
Definition aget {A} (l : list A) (i : Z) : option A := if i <? 0 then None else l !! Z.to_nat i.
Definition aset {A} (l : list A) (i : Z) (v : A) : option (list A) :=
  if (i <? 0) || (zlen l <=? i) then None else Some (<[Z.to_nat i := v]> l).

(** [strncmp(a, b, n) == 0] for two buffers from the pointers on; [None] is a read outside. *)
Fixpoint strncmp_same (a b : list Z) (n : Z) : option bool :=
  if n <=? 0 then Some true
  else match a, b with
       | x :: a, y :: b => if x =? y then (if x =? 0 then Some true else strncmp_same a b (n - 1)) else Some false
       | _, _ => None
       end.

(** The bytes of a buffer from a pointer on; the pointer may be one past the end. *)
Definition from_ptr (buf : list Z) (p : Z) : option (list Z) :=
  if (p <? 0) || (zlen buf <? p) then None else Some (drop (Z.to_nat p) buf).

(** ** Constants *)

Definition IWN_WF_GET : Z := 0x01.
Definition IWN_WF_PUT : Z := 0x02.
Definition IWN_WF_POST : Z := 0x04.
Definition IWN_WF_DELETE : Z := 0x08.
Definition IWN_WF_HEAD : Z := 0x10.
Definition IWN_WF_OPTIONS : Z := 0x20.
Definition IWN_WF_PATCH : Z := 0x40.
Definition IWN_WF_METHODS_ALL : Z := 0x7f.
Definition IWN_WF_MATCH_PREFIX : Z := 0x100.
Definition IWN_WF_FORM_MULTIPART : Z := 0x200.
Definition IWN_WF_FORM_URL_ENCODED : Z := 0x400.
Definition IWN_WF_FORM_ALL : Z := 0x600.
Definition ROUTE_MATCHING_STACK_SIZE : Z := 127.

(** ** Errors *)

Inductive wf_error :=
| IW_ERROR_INVALID_ARGS
| IW_ERROR_ALLOC
| IW_ERROR_ASSERTION
| WF_ERROR_INVALID_FORM_DATA
| WF_ERROR_UNSUPPORTED_HTTP_METHOD
| WF_ERROR_REGEXP_INVALID
| WF_ERROR_MAX_NESTED_ROUTES
| WF_ERROR_PARENT_ROUTE_FROM_DIFFERENT_CONTEXT.

#[export] Instance wf_error_eq_dec : EqDecision wf_error.
Proof. solve_decision. Defined.

Abbreviation rloc := positive.
Abbreviation cid := positive.

Section Routes.
Context {re : Type} (re_create : list Z -> option re) (re_match : re -> list Z -> list (Z * Z)).

(** [struct iwn_wf_route], the part of a route the application gives; the handler and its user
    data are a number. *)
Record wf_route := mkWfRoute {
  b_ctx : option cid; b_parent : option rloc; b_pattern : option (list Z); b_flags : Z; b_handler : option Z }.

(** [struct route]; [rt_pattern] is the zero terminated string the pointer [pattern] is at. *)
Record route := mkRoute {
  rt_base : wf_route; rt_parent : option rloc; rt_child : option rloc; rt_next : option rloc;
  rt_pattern : option (list Z); rt_re : option re; rt_pattern_len : Z }.

Abbreviation rheap := (gmap rloc route).

(** The routes of all contexts and the root pointer of every context. *)
Record wfs := mkWfs { w_routes : rheap; w_roots : gmap cid (option rloc) }.

(** ** Registration *)

Definition put_child (r : route) (c : option rloc) : route := {| r with rt_child := c |}.
Definition put_next (r : route) (n : option rloc) : route := {| r with rt_next := n |}.

(** The loop of [_route_attach]: the last sibling gets [route] as its successor. *)
Fixpoint attach_last (fuel : nat) (h : rheap) (r route : rloc) : option rheap :=
  match fuel with
  | O => None
  | S fuel =>
      n ← h !! r;
      match n.(rt_next) with
      | None => Some (<[r := put_next n (Some route)]> h)
      | Some r => attach_last fuel h r route
      end
  end.

Definition _route_attach (h : rheap) (parent route : rloc) : option rheap :=
  n ← h !! route;
  let h := <[route := {| (put_child (put_next n None) None) with rt_parent := Some parent |}]> h in
  p ← h !! parent;
  match p.(rt_child) with
  | Some r => attach_last (size h) h r route
  | None => Some (<[parent := put_child p (Some route)]> h)
  end.

(** [_route_init]: [*pattern == '^'] selects the regular expression. *)
Definition _route_init (r : route) : route + wf_error :=
  let pattern := r.(rt_pattern) in
  let len := match pattern with Some p => zlen (cstr p) | None => 0 end in
  let r := {| r with rt_pattern_len := i32 len |} in
  if len =? 0 then inl {| r with rt_pattern := None |}
  else match pattern with
       | Some (c :: p) =>
           if c =? 94 then
             match re_create (cstr p) with
             | Some x => inl {| r with rt_pattern := Some p; rt_re := Some x |}
             | None => inr WF_ERROR_REGEXP_INVALID
             end
           else inl r
       | _ => inl r
       end.

(** The number of routes from [p] up to the top. *)
Fixpoint ancestors (fuel : nat) (h : rheap) (p : option rloc) : option Z :=
  match p with
  | None => Some 0
  | Some p =>
      match fuel with
      | O => None
      | S fuel => r ← h !! p; n ← ancestors fuel h r.(rt_parent); Some (n + 1)
      end
  end.

(** The copy of the specification: a route without a method is for GET, strings are copied. *)
Definition import_base (spec : wf_route) (c : cid) : wf_route :=
  {| spec with b_ctx := Some c;
     b_flags := if Z.land spec.(b_flags) IWN_WF_METHODS_ALL =? 0 then Z.lor spec.(b_flags) IWN_WF_GET else spec.(b_flags);
     b_pattern := (fun p => cstr p ++ [0]) <$> spec.(b_pattern) |}.

(** The end of [_route_import]: a route without a parent goes below the root, or becomes it. *)
Definition route_link (l : rloc) (w : wfs) (c : cid) (r : route) : option (wfs * (rloc + wf_error)) :=
  root ← w.(w_roots) !! c;
  let r := match r.(rt_parent), root with
           | None, Some t => {| r with rt_parent := Some t; rt_base := {| r.(rt_base) with b_parent := Some t |} |}
           | _, _ => r
           end in
  let h := <[l := r]> w.(w_routes) in
  match r.(rt_parent) with
  | Some p => h ← _route_attach h p l; Some (mkWfs h w.(w_roots), inl l)
  | None => Some (mkWfs h (<[c := Some l]> w.(w_roots)), inl l)
  end.

(** [_route_import]; [l] is the block [iwpool_calloc] returns, [ok] says that the allocations
    succeed.  A failed import leaves the tree as it was (the block goes back with the pool). *)
Definition _route_import (ok : bool) (l : rloc) (w : wfs) (spec : wf_route) (c : cid) : option (wfs * (rloc + wf_error)) :=
  n ← ancestors (size w.(w_routes)) w.(w_routes) spec.(b_parent);
  if bool_decide (is_Some spec.(b_parent)) && (ROUTE_MATCHING_STACK_SIZE - 1 <=? n) then Some (w, inr WF_ERROR_MAX_NESTED_ROUTES)
  else
    pctx ← match spec.(b_parent) with Some p => r ← w.(w_routes) !! p; Some (r.(rt_base).(b_ctx)) | None => Some (Some c) end;
    if negb (bool_decide (pctx = Some c)) then Some (w, inr WF_ERROR_PARENT_ROUTE_FROM_DIFFERENT_CONTEXT)
    else if negb ok then Some (w, inr IW_ERROR_ALLOC)
    else
      let base := import_base spec c in
      match _route_init (mkRoute base base.(b_parent) None None base.(b_pattern) None 0) with
      | inr e => Some (w, inr e)
      | inl r => route_link l w c r
      end.

(** The context of the first ancestor that has one. *)
Fixpoint find_ctx (fuel : nat) (h : rheap) (p : option rloc) : option (option cid) :=
  match p with
  | None => Some None
  | Some p =>
      match fuel with
      | O => None
      | S fuel => r ← h !! p; match r.(rt_base).(b_ctx) with Some c => Some (Some c) | None => find_ctx fuel h r.(rt_base).(b_parent) end
      end
  end.

Definition iwn_wf_route (ok : bool) (l : rloc) (w : wfs) (spec : wf_route) : option (wfs * (rloc + wf_error)) :=
  w ← match spec.(b_parent) with
      | Some p =>
          r ← w.(w_routes) !! p;
          let b := {| r.(rt_base) with b_flags := Z.lor r.(rt_base).(b_flags) IWN_WF_MATCH_PREFIX |} in
          Some {| w with w_routes := <[p := {| r with rt_base := b |}]> w.(w_routes) |}
      | None => Some w
      end;
  ctx ← match spec.(b_ctx) with Some c => Some (Some c) | None => find_ctx (size w.(w_routes)) w.(w_routes) spec.(b_parent) end;
  match ctx with
  | None => Some (w, inr IW_ERROR_INVALID_ARGS)
  | Some c => _route_import ok l w spec c
  end.

(** [iwn_wf_create]: a context [c] with its root route; the context is given back on failure. *)
Definition iwn_wf_create (ok : bool) (c : cid) (l : rloc) (w : wfs) (root_route_spec : option wf_route) : option (wfs * (rloc + wf_error)) :=
  let spec := default (mkWfRoute None None None 0 None) root_route_spec in
  '(w', res) ← _route_import ok l {| w with w_roots := <[c := None]> w.(w_roots) |} spec c;
  Some (match res with inl _ => w' | inr _ => w end, res).

(** ** The iterator *)

Record submatch := mkSubmatch { sm_route : rloc; sm_input : Z; sm_sp : Z; sm_ep : Z }.

(** [struct route_iter] *)
Record route_iter := mkIter { it_cnt : Z; it_prev_sibling_mlen : Z; it_stack : list (option rloc); it_mlen : list Z }.

(** The part of [struct request] and [struct iwn_wf_req] routing works on.  [q_path] is the buffer
    of the path, pointers into it are offsets; [q_path_len] is the length before decoding. *)
Record request := mkRequest {
  q_ctx : cid; q_flags : Z; q_path : list Z; q_path_len : Z; q_path_unmatched : Z; q_path_matched : Z;
  q_submatches : list submatch; q_it : route_iter }.

Definition set_it (q : request) (it : route_iter) : request := {| q with q_it := it |}.

(** What a route matches at [pu]: the length of the matched section, [-1] for a route without a
    pattern, [0] for no match; with the submatches of a regular expression. *)
Definition route_mlen (q : request) (l : rloc) (r : route) (pu : Z) : option (Z * list submatch) :=
  let unmatched_len := u64 (q.(q_path_len) - pu) in
  let prefix := negb (Z.land r.(rt_base).(b_flags) IWN_WF_MATCH_PREFIX =? 0) in
  if Z.land q.(q_flags) r.(rt_base).(b_flags) =? 0 then Some (0, [])
  else match r.(rt_re) with
       | Some x =>
           input ← from_ptr q.(q_path) pu;
           match re_match x (cstr input) with
           | [] => Some (0, [])
           | (s, e) :: subs =>
               let len := i32 (e - s) in
               if prefix || (unmatched_len =? u64 len)
               then Some (len, (fun se => mkSubmatch l pu (pu + se.1) (pu + se.2)) <$> subs)
               else Some (0, [])
           end
       | None =>
           match r.(rt_pattern) with
           | Some p =>
               if prefix || (unmatched_len =? u64 r.(rt_pattern_len)) then
                 input ← from_ptr q.(q_path) pu;
                 same ← strncmp_same input p (u64 r.(rt_pattern_len));
                 Some (if (same : bool) then r.(rt_pattern_len) else 0, [])
               else Some (0, [])
           | None => Some (-1, [])
           end
       end.

Definition pos_part (m : Z) : Z := if 0 <? m then m else 0.

Definition _route_do_match_next (h : rheap) (pos : Z) (q : request) : option (request * bool) :=
  let it := q.(q_it) in
  r ← aget it.(it_stack) pos;
  let pu := q.(q_path_unmatched) - it.(it_prev_sibling_mlen) in
  let q := {| q with q_path_matched := pu |} in
  match r with
  | None => Some ({| q with q_path_unmatched := pu; q_it := {| it with it_prev_sibling_mlen := 0 |} |}, false)
  | Some l =>
      r ← h !! l;
      '(mlen, subs) ← route_mlen q l r pu;
      let q := {| q with q_submatches := q.(q_submatches) ++ subs |} in
      let q := if mlen =? 0 then q
               else {| q with q_path_unmatched := pu + pos_part mlen; q_it := {| it with it_prev_sibling_mlen := pos_part mlen |} |} in
      ml ← aset q.(q_it).(it_mlen) pos mlen;
      Some (set_it q {| q.(q_it) with it_mlen := ml |}, negb (mlen =? 0))
  end.

Definition _route_iter_init (w : wfs) (q : request) : option request :=
  root ← w.(w_roots) !! q.(q_ctx);
  stack ← aset (replicate (Z.to_nat ROUTE_MATCHING_STACK_SIZE) None) 0 root;
  mlen ← aset (replicate (Z.to_nat ROUTE_MATCHING_STACK_SIZE) 0) 0 (-1);
  Some {| q with q_path_unmatched := 0; q_path_matched := 0; q_it := mkIter 1 0 stack mlen |}.

(** The result is the route the iterator is at now. *)
Definition _route_iter_pop_then_next (h : rheap) (q : request) : option (request * option rloc) :=
  let it := q.(q_it) in
  let cnt := it.(it_cnt) - 1 in
  let it := {| it with it_cnt := cnt |} in
  if 0 <? cnt then
    r ← aget it.(it_stack) (cnt - 1);
    l ← r;
    m ← aget it.(it_mlen) (cnt - 1);
    r ← h !! l;
    stack ← aset it.(it_stack) (cnt - 1) r.(rt_next);
    '(q, _) ← _route_do_match_next h (cnt - 1) (set_it q {| it with it_prev_sibling_mlen := pos_part m; it_stack := stack |});
    Some (q, r.(rt_next))
  else Some (set_it q {| it with it_prev_sibling_mlen := 0 |}, None).

Definition _route_iter_current (w : wfs) (q : request) : option (option rloc) :=
  let it := q.(q_it) in
  if 0 <? it.(it_cnt) then
    root ← w.(w_roots) !! q.(q_ctx);
    r ← aget it.(it_stack) (it.(it_cnt) - 1);
    m ← aget it.(it_mlen) (it.(it_cnt) - 1);
    Some (if bool_decide (is_Some r) && negb (bool_decide (r = root)) && negb (m =? 0) then r else None)
  else Some None.

(** One turn of the loop of [_route_iter_next]; the flag says that the new route matches. *)
Definition iter_turn (h : rheap) (q : request) : option (request * option rloc * bool) :=
  let it := q.(q_it) in
  let top := it.(it_cnt) - 1 in
  p ← aget it.(it_stack) top;
  match p with
  | None =>
      '(q, r) ← _route_iter_pop_then_next h q;
      match r with
      | None => Some (q, r, false)
      | Some _ => m ← aget q.(q_it).(it_mlen) (q.(q_it).(it_cnt) - 1); Some (q, r, negb (m =? 0))
      end
  | Some l =>
      p ← h !! l;
      m ← aget it.(it_mlen) top;
      match p.(rt_child) with
      | Some c =>
          if m =? 0 then
            stack ← aset it.(it_stack) top p.(rt_next);
            '(q, m) ← _route_do_match_next h top (set_it q {| it with it_stack := stack |});
            Some (q, p.(rt_next), m)
          else
            stack ← aset it.(it_stack) it.(it_cnt) (Some c);
            '(q, m) ← _route_do_match_next h it.(it_cnt)
                        (set_it q {| it with it_prev_sibling_mlen := 0; it_stack := stack; it_cnt := it.(it_cnt) + 1 |});
            Some (q, Some c, m)
      | None =>
          stack ← aset it.(it_stack) top p.(rt_next);
          '(q, m) ← _route_do_match_next h top (set_it q {| it with it_stack := stack |});
          Some (q, p.(rt_next), m)
      end
  end.

Fixpoint _route_iter_next (fuel : nat) (h : rheap) (q : request) : option (request * option rloc) :=
  if 0 <? q.(q_it).(it_cnt) then
    match fuel with
    | O => None
    | S fuel =>
        '(q, r, m) ← iter_turn h q;
        match r with
        | Some l =>
            if (m : bool) then
              n ← h !! l;
              if bool_decide (is_Some n.(rt_base).(b_handler)) then Some (q, Some l) else _route_iter_next fuel h q
            else _route_iter_next fuel h q
        | None => _route_iter_next fuel h q
        end
    end
  else Some (q, None).

End Routes.
