(* ===== verification/WfIter.v ===== *)
(** * WfIter: the route iterator visits the matching routes depth first

    The heap of routes is read as a forest ([sibs]); [dfs] is the reference traversal: a route is
    matched where the section matched by its parent ends, its children are tried only when it
    matches, siblings are tried at the same place.  The iterator of [iwn_wf.c], a loop over an
    explicit stack that moves one pointer into the path back and forth, is shown to make the same
    visits. *)
From S2P Require Import Prelude WfRoute.

(** ** Arrays *)

Lemma aget_middle {A} (l : list A) x r i : i = zlen l -> aget (l ++ x :: r) i = Some x.
Proof.
  intros ->. unfold aget, zlen. rewrite (proj2 (Z.ltb_ge _ 0)) by lia. rewrite Nat2Z.id.
  rewrite lookup_app_r by lia. by rewrite Nat.sub_diag.
Qed.

Lemma aset_middle {A} (l : list A) x r v i : i = zlen l -> aset (l ++ x :: r) i v = Some (l ++ v :: r).
Proof.
  intros ->. unfold aset. rewrite zlen_app, zlen_cons. pose proof (zlen_nonneg l). pose proof (zlen_nonneg r).
  rewrite (proj2 (Z.ltb_ge _ 0)), (proj2 (Z.leb_gt _ _)) by lia. cbn [orb]. f_equal. unfold zlen. rewrite Nat2Z.id.
  rewrite insert_app_r_alt by lia. by rewrite Nat.sub_diag.
Qed.

(** ** Forests *)

Inductive tree := Node (l : rloc) (kids : list tree).

Fixpoint tsize (t : tree) : nat := match t with Node _ kids => S (sum_list_with tsize kids) end.

Record visit := mkVisit { v_route : rloc; v_matched : Z; v_unmatched : Z; v_submatches : list submatch }.

Section Dfs.
(** What a route matches at a place, and whether it has a handler. *)
Context (mf : rloc -> Z -> Z * list submatch) (has_handler : rloc -> bool).

Definition visits_of (l : rloc) (base after : Z) (sm : list submatch) : list visit :=
  if has_handler l then [mkVisit l base after sm] else [].

Fixpoint dfs (base : Z) (sm : list submatch) (t : tree) {struct t} : list visit * list submatch :=
  match t with
  | Node l kids =>
      let '(m, subs) := mf l base in
      let sm := sm ++ subs in
      if m =? 0 then ([], sm)
      else
        let after := base + pos_part m in
        let '(vs, sm') :=
          (fix go (sm : list submatch) (ts : list tree) : list visit * list submatch :=
             match ts with
             | [] => ([], sm)
             | t :: ts => let '(v1, sm) := dfs after sm t in let '(v2, sm) := go sm ts in (v1 ++ v2, sm)
             end) sm kids in
        (visits_of l base after sm ++ vs, sm')
  end.

Fixpoint dfs_all (base : Z) (sm : list submatch) (ts : list tree) : list visit * list submatch :=
  match ts with
  | [] => ([], sm)
  | t :: ts => let '(v1, sm) := dfs base sm t in let '(v2, sm) := dfs_all base sm ts in (v1 ++ v2, sm)
  end.

Lemma dfs_node base sm l kids :
  dfs base sm (Node l kids) =
  let '(m, subs) := mf l base in
  if m =? 0 then ([], sm ++ subs)
  else let '(vs, sm') := dfs_all (base + pos_part m) (sm ++ subs) kids in
       (visits_of l base (base + pos_part m) (sm ++ subs) ++ vs, sm').
Proof.
  cbn [dfs]. destruct (mf l base) as [m subs]. destruct (m =? 0); [done|]. generalize (sm ++ subs) as s. intros s.
  match goal with |- (let '(_, _) := ?f s kids in _) = _ => assert (forall ts s, f s ts = dfs_all (base + pos_part m) s ts) as E end.
  { induction ts as [|t ts IH]; intros s'; [done|]. cbn [dfs_all]. destruct (dfs _ s' t) as [v1 s1]. by rewrite IH. }
  by rewrite E.
Qed.
End Dfs.

Section Iter.
Context {re : Type} (re_match : re -> list Z -> list (Z * Z)).
Abbreviation rheap := (gmap rloc (@route re)).
Implicit Types (h : rheap) (q : request) (ts : list tree) (p par : option rloc) (d base : Z).

(** The chain of siblings at [p], with their descendants, [d] levels below the top. *)
Inductive sibs h : Z -> option rloc -> option rloc -> list tree -> Prop :=
| sibs_nil d par : sibs h d par None []
| sibs_cons d par l r kids ts :
    h !! l = Some r -> r.(rt_parent) = par -> 0 <= d < ROUTE_MATCHING_STACK_SIZE ->
    sibs h (d + 1) (Some l) r.(rt_child) kids -> sibs h d par r.(rt_next) ts -> sibs h d par (Some l) (Node l kids :: ts).

(** ** Matching one route *)

(** The section of the path [w] (from [base] on) that a route matches. *)
Definition match_spec (flags : Z) (path : list Z) (path_len : Z) (l : rloc) (r : @route re) base : Z * list submatch :=
  let w := drop (Z.to_nat base) path in
  let exact n := negb (Z.land r.(rt_base).(b_flags) IWN_WF_MATCH_PREFIX =? 0) || (path_len - base =? n) in
  if Z.land flags r.(rt_base).(b_flags) =? 0 then (0, [])
  else match r.(rt_re), r.(rt_pattern) with
       | Some x, _ =>
           match re_match x w with
           | (s, e) :: subs => if exact (e - s) then (e - s, (fun se => mkSubmatch l base (base + se.1) (base + se.2)) <$> subs) else (0, [])
           | [] => (0, [])
           end
       | None, Some p => let p := cstr p in (if exact (zlen p) && bool_decide (p `prefix_of` w) then zlen p else 0, [])
       | None, None => (-1, [])
       end.

(** What registration leaves in a route: a pattern is a non-empty C string. *)
Definition route_ok (r : @route re) : Prop :=
  match r.(rt_re), r.(rt_pattern) with
  | None, Some p => exists w, p = w ++ [0] /\ Forall (fun c => c <> 0) w /\ r.(rt_pattern_len) = zlen w /\ 0 < zlen w < 2 ^ 31
  | _, _ => True
  end.

(** A match of the regular expression engine lies inside of its input. *)
Definition re_ok : Prop := forall x w s e subs, re_match x w = (s, e) :: subs -> 0 <= s <= e /\ e <= zlen w.

Lemma strncmp_prefix w : forall rest k, Forall (fun c => c <> 0) w -> Forall (fun c => c <> 0) rest ->
  strncmp_same (rest ++ 0 :: k) (w ++ [0]) (zlen w) = Some (bool_decide (w `prefix_of` rest)).
Proof.
  induction w as [|c w IH]; intros rest k Hw Hr.
  { change (zlen (@nil Z)) with 0. rewrite bool_decide_true by (apply prefix_nil). destruct rest; reflexivity. }
  apply Forall_cons in Hw as [Hc Hw]. pose proof (zlen_nonneg w). rewrite zlen_cons. cbn [app].
  destruct rest as [|x rest]; cbn [app strncmp_same].
  - rewrite (proj2 (Z.leb_gt _ _)) by lia. rewrite (proj2 (Z.eqb_neq 0 c)) by lia.
    rewrite bool_decide_false; [done|]. apply prefix_nil_not.
  - apply Forall_cons in Hr as [Hx Hr]. rewrite (proj2 (Z.leb_gt _ _)) by lia. destruct (Z.eqb_spec x c) as [->|Hxc].
    + rewrite (proj2 (Z.eqb_neq c 0) Hc). replace (1 + zlen w - 1) with (zlen w) by lia. rewrite IH by done. f_equal.
      apply bool_decide_ext. split; [by apply prefix_cons|by intros ?%prefix_cons_inv_2].
    + rewrite bool_decide_false; [done|]. by intros ?%prefix_cons_inv_1.
Qed.

(** A request whose path is the C string [path], [path_len] bytes long before decoding. *)
Record on_path (flags : Z) (path : list Z) (path_len : Z) q : Prop := {
  on_flags : q.(q_flags) = flags;
  on_buf : exists k, q.(q_path) = path ++ 0 :: k;
  on_nonzero : Forall (fun c => c <> 0) path;
  on_len : q.(q_path_len) = path_len /\ zlen path <= path_len < 2 ^ 31 }.

Context (flags : Z) (path : list Z) (path_len : Z).
Abbreviation spec_at := (match_spec flags path path_len).

Lemma route_mlen_spec q l r base : re_ok -> route_ok r -> on_path flags path path_len q -> 0 <= base <= zlen path ->
  route_mlen re_match q l r base = Some (spec_at l r base).
Proof.
  intros Hre Hr [<- [k Hk] Hz [<- Hl]] Hb. unfold route_mlen, match_spec, from_ptr. rewrite Hk, zlen_app, zlen_cons. pose proof (zlen_nonneg k).
  rewrite (proj2 (Z.ltb_ge base 0)), (proj2 (Z.ltb_ge _ base)) by lia. cbn [orb]. rewrite (uwrap_id 64 (q_path_len q - base)) by lia.
  destruct (Z.land (q_flags q) (b_flags (rt_base r)) =? 0); [done|].
  assert (Z.to_nat base <= length path)%nat as Hn by (unfold zlen in *; lia). rewrite drop_app_le by done.
  assert (Forall (fun c => c <> 0) (drop (Z.to_nat base) path)) as Hd by (by apply Forall_drop).
  unfold route_ok in Hr. destruct (rt_re r) as [x|].
  - cbn [mbind option_bind]. rewrite cstr_app_0 by done. destruct (re_match x (drop (Z.to_nat base) path)) as [|[s e] subs] eqn:Em; [done|].
    apply Hre in Em. assert (zlen (drop (Z.to_nat base) path) <= zlen path) by (unfold zlen; rewrite length_drop; lia).
    rewrite i32_small by lia. rewrite uwrap_id by lia. by destruct (_ || _).
  - destruct (rt_pattern r) as [pt|]; [|done]. destruct Hr as (w & -> & Hw & Hlen & Hwl). rewrite Hlen, (uwrap_id 64 (zlen w)), cstr_app_0 by (done || lia).
    destruct (_ || _); cbn [andb]; [|done]. cbn [mbind option_bind]. rewrite strncmp_prefix by done. cbn [mbind option_bind]. by destruct (bool_decide _).
Qed.

(** A match does not go past the end of the path. *)
Lemma spec_in_path l r base m subs : re_ok -> 0 <= base <= zlen path -> spec_at l r base = (m, subs) -> 0 <= base + pos_part m <= zlen path.
Proof.
  intros Hre Hb. unfold match_spec.
  assert (zlen (drop (Z.to_nat base) path) = zlen path - base) as Hd by (unfold zlen in *; rewrite length_drop; lia).
  assert (0 <= base + pos_part 0 <= zlen path) as H0 by (change (pos_part 0) with 0; lia).
  destruct (_ =? 0); [by intros [= <- <-]|]. destruct (rt_re r) as [x|].
  - destruct (re_match x _) as [|[s e] t] eqn:Em; [by intros [= <- <-]|]. apply Hre in Em.
    destruct (_ || _); intros [= <- <-]; [|done]. unfold pos_part. destruct (Z.ltb_spec 0 (e - s)); lia.
  - destruct (rt_pattern r) as [pt|]; [|by intros [= <- <-]]. destruct (_ && _) eqn:E; intros [= <- <-]; [|done].
    apply andb_true_iff in E as [_ E%bool_decide_eq_true_1%prefix_length]. pose proof (zlen_nonneg (cstr pt)).
    unfold pos_part. destruct (Z.ltb_spec 0 (zlen (cstr pt))); unfold zlen in *; lia.
Qed.
(** ** The traversal *)

Context h (Hre : re_ok) (Hroutes : forall l r, h !! l = Some r -> route_ok r).

Definition mf (l : rloc) base : Z * list submatch := match h !! l with Some r => spec_at l r base | None => (0, []) end.
Definition has_handler (l : rloc) : bool := match h !! l with Some r => bool_decide (is_Some r.(rt_base).(b_handler)) | None => false end.

(** The iterator is at [p], [d] levels deep, below the stack [P] of ancestors with the matched
    lengths [M], at the place [base] of the path. *)
Record at_place d p base (P : list (option rloc)) (M : list Z) (sm : list submatch) q : Prop := {
  ap_path : on_path flags path path_len q;
  ap_cnt : q.(q_it).(it_cnt) = d + 1;
  ap_base : q.(q_path_unmatched) - q.(q_it).(it_prev_sibling_mlen) = base;
  ap_in : 0 <= base <= zlen path;
  ap_depth : zlen P = d /\ zlen M = d;
  ap_stack : exists S, q.(q_it).(it_stack) = P ++ p :: S /\ d + 1 + zlen S = ROUTE_MATCHING_STACK_SIZE;
  ap_mlen : exists x N, q.(q_it).(it_mlen) = M ++ x :: N /\ d + 1 + zlen N = ROUTE_MATCHING_STACK_SIZE;
  ap_sm : q.(q_submatches) = sm }.

(** [q'] is [q] after the route at the top of its stack was matched with length [m]. *)
Definition matched q (m : Z) (subs : list submatch) d (M : list Z) q' : Prop :=
  q'.(q_path_matched) = q.(q_path_unmatched) - q.(q_it).(it_prev_sibling_mlen) /\
  (m <> 0 -> q'.(q_path_unmatched) = q'.(q_path_matched) + pos_part m /\ q'.(q_it).(it_prev_sibling_mlen) = pos_part m) /\
  exists N, q'.(q_it).(it_mlen) = M ++ m :: N /\ d + 1 + zlen N = ROUTE_MATCHING_STACK_SIZE.

Lemma do_match_route d l r base P M sm q m subs : h !! l = Some r -> at_place d (Some l) base P M sm q -> spec_at l r base = (m, subs) ->
  exists q', _route_do_match_next re_match h d q = Some (q', negb (m =? 0)) /\ at_place d (Some l) base P M (sm ++ subs) q' /\ matched q m subs d M q'.
Proof.
  intros Hl [Hp Hc Hb Hin [HP HM] (S & HS & HSl) (x & N & HN & HNl) Hsm] Hm. unfold _route_do_match_next. rewrite HS, aget_middle by done.
  cbn [mbind option_bind]. rewrite Hl. cbn [mbind option_bind]. rewrite Hb.
  rewrite (route_mlen_spec _ l r base) by (by eauto || by destruct Hp). rewrite Hm. cbn [mbind option_bind].
  destruct (Z.eqb_spec m 0) as [->|Hm0]; cbn [negb q_it it_mlen]; rewrite HN, aset_middle by done; cbn [mbind option_bind]; eexists; (split; [reflexivity|]).
  - split; [|split; [done|split; [done|exists N; done]]]. split; cbn [q_it it_cnt it_prev_sibling_mlen it_stack it_mlen q_path_unmatched q_submatches set_it]; eauto.
    + by destruct Hp. + congruence.
  - split; [|split; [done|split; [done|exists N; done]]]. split; cbn [q_it it_cnt it_prev_sibling_mlen it_stack it_mlen q_path_unmatched q_submatches set_it]; eauto.
    + by destruct Hp. + lia. + congruence.
Qed.

Lemma do_match_none d base P M sm q : at_place d None base P M sm q ->
  exists q', _route_do_match_next re_match h d q = Some (q', false) /\ at_place d None base P M sm q' /\ q'.(q_path_unmatched) = base /\ q'.(q_it).(it_prev_sibling_mlen) = 0.
Proof.
  intros [Hp Hc Hb Hin [HP HM] (S & HS & HSl) (x & N & HN & HNl) Hsm]. unfold _route_do_match_next. rewrite HS, aget_middle by done.
  cbn [mbind option_bind]. eexists. split; [reflexivity|]. cbn [q_path_unmatched q_it it_prev_sibling_mlen].
  split; [|split; [done|done]]. split; cbn [q_it it_cnt it_prev_sibling_mlen it_stack it_mlen q_path_unmatched q_submatches]; eauto.
  - by destruct Hp. - lia.
Qed.

Lemma do_match_matched d p base P M sm q q' b : at_place d p base P M sm q -> _route_do_match_next re_match h d q = Some (q', b) -> p = None -> q'.(q_path_matched) = base.
Proof.
  intros [_ _ Hb _ [HP _] (S & HS & _) _ _] E ->. unfold _route_do_match_next in E. rewrite HS, aget_middle in E by done. cbn [mbind option_bind] in E. by injection E as <- <-.
Qed.

(** Turns of the loop, and the visits they make. *)
Definition emit q (r : option rloc) (m : bool) : list visit :=
  match r with
  | Some l => if m && has_handler l then [mkVisit l q.(q_path_matched) q.(q_path_unmatched) q.(q_submatches)] else []
  | None => []
  end.

Inductive turns : nat -> request -> list visit -> request -> Prop :=
| turns_0 q : turns 0 q [] q
| turns_S n q q1 r m vs q2 : 0 < q.(q_it).(it_cnt) -> iter_turn re_match h q = Some (q1, r, m) -> (forall l, r = Some l -> is_Some (h !! l)) -> turns n q1 vs q2 ->
    turns (S n) q (emit q1 r m ++ vs) q2.

Lemma turns_app n1 q vs1 q1 n2 vs2 q2 : turns n1 q vs1 q1 -> turns n2 q1 vs2 q2 -> turns (n1 + n2) q (vs1 ++ vs2) q2.
Proof. induction 1 as [|n q q1 r m vs q' Hc Ht Hl _ IH]; [done|]. intros H2. cbn [Nat.add]. rewrite <- app_assoc. econstructor; eauto. Qed.

Ltac place := cbn [q_it it_cnt it_prev_sibling_mlen it_stack it_mlen q_path_unmatched q_submatches set_it].

(** The three moves of a turn: on to the sibling, down to the child, back to the parent's sibling. *)
Lemma turn_next d l r base P M sm q m N : h !! l = Some r -> at_place d (Some l) base P M sm q ->
  q.(q_it).(it_mlen) = M ++ m :: N -> m = 0 \/ r.(rt_child) = None ->
  exists q0, at_place d r.(rt_next) base P M sm q0 /\
    forall q' b, _route_do_match_next re_match h d q0 = Some (q', b) -> iter_turn re_match h q = Some (q', r.(rt_next), b).
Proof.
  intros Hl [Hp Hc Hb Hin [HP HM] (S & HS & HSl) (x & N' & HN & HNl) Hsm] Hm Hcase. rewrite HN in Hm. apply app_inj_1 in Hm as [_ [= -> ->]]; [|done]. exists (set_it q (mkIter (d + 1) q.(q_it).(it_prev_sibling_mlen) (P ++ r.(rt_next) :: S) (M ++ m :: N))). split.
  - split; place; eauto. by destruct Hp.
  - intros q' b Hd. unfold iter_turn. rewrite Hc. replace (d + 1 - 1) with d by lia. rewrite HS, aget_middle by done. cbn [mbind option_bind]. rewrite Hl.
    cbn [mbind option_bind]. rewrite HN, aget_middle by done. cbn [mbind option_bind]. rewrite aset_middle by done. cbn [mbind option_bind].
    destruct Hcase as [->| ->]; [|by rewrite Hd]. destruct (rt_child r); cbn [Z.eqb]; by rewrite Hd.
Qed.

Lemma turn_child d l r c base P M sm q m N : h !! l = Some r -> at_place d (Some l) base P M sm q -> d + 1 < ROUTE_MATCHING_STACK_SIZE ->
  q.(q_it).(it_mlen) = M ++ m :: N -> m <> 0 -> r.(rt_child) = Some c -> q.(q_path_unmatched) = base + pos_part m -> base + pos_part m <= zlen path ->
  exists q0, at_place (d + 1) (Some c) (base + pos_part m) (P ++ [Some l]) (M ++ [m]) sm q0 /\
    forall q' b, _route_do_match_next re_match h (d + 1) q0 = Some (q', b) -> iter_turn re_match h q = Some (q', Some c, b).
Proof.
  intros Hl [Hp Hc Hb Hin [HP HM] (S & HS & HSl) (x & N' & HN & HNl) Hsm] Hd Hm Hm0 Hch Hpu Hle.
  destruct S as [|s0 S]; [change (zlen (@nil (option rloc))) with 0 in HSl; lia|]. rewrite zlen_cons in HSl.
  rewrite HN in Hm. apply app_inj_1 in Hm as [_ [= -> <-]]; [|done].
  destruct N' as [|n0 N']; [change (zlen (@nil Z)) with 0 in HNl; lia|]. rewrite zlen_cons in HNl.
  exists (set_it q (mkIter (d + 1 + 1) 0 ((P ++ [Some l]) ++ Some c :: S) (M ++ m :: n0 :: N'))). split.
  - assert (0 <= pos_part m) by (unfold pos_part; destruct (Z.ltb_spec 0 m); lia). split; place; eauto; try lia.
    + by destruct Hp.
    + rewrite !zlen_app. change (zlen [Some l]) with 1. change (zlen [m]) with 1. lia.
    + exists S. split; [done|lia].
    + exists n0, N'. rewrite <- app_assoc. split; [done|lia].
  - intros q' b Hdm. unfold iter_turn. rewrite Hc. replace (d + 1 - 1) with d by lia. rewrite HS, aget_middle by done. cbn [mbind option_bind]. rewrite Hl.
    cbn [mbind option_bind]. rewrite HN, aget_middle by done. cbn [mbind option_bind]. rewrite Hch, (proj2 (Z.eqb_neq m 0) Hm0).
    rewrite (cons_middle (Some l) P), app_assoc. rewrite aset_middle by (rewrite zlen_app; change (zlen [Some l]) with 1; lia).
    cbn [mbind option_bind]. by rewrite Hdm.
Qed.

Lemma turn_pop d l r base P M sm q m : h !! l = Some r -> 0 <= d -> 0 <= base -> at_place (d + 1) None (base + pos_part m) (P ++ [Some l]) (M ++ [m]) sm q ->
  q.(q_path_unmatched) = base + pos_part m ->
  exists q0, at_place d r.(rt_next) base P M sm q0 /\
    forall q' b x N, _route_do_match_next re_match h d q0 = Some (q', b) ->
      (is_Some r.(rt_next) -> q'.(q_it).(it_mlen) = M ++ x :: N /\ q'.(q_it).(it_cnt) = d + 1 /\ b = negb (x =? 0)) -> (r.(rt_next) = None -> b = false) ->
      iter_turn re_match h q = Some (q', r.(rt_next), b).
Proof.
  intros Hl Hd Hb0 [Hp Hc Hb Hin [HP HM] (S & HS & HSl) (y & N' & HN & HNl) Hsm] Hpu. rewrite zlen_app in HP. rewrite zlen_app in HM. change (zlen [Some l]) with 1 in HP. change (zlen [m]) with 1 in HM.
  assert (0 <= pos_part m) by (unfold pos_part; destruct (Z.ltb_spec 0 m); lia). rewrite <- app_assoc in HS. rewrite <- app_assoc in HN. cbn [app] in HS, HN.
  exists (set_it q (mkIter (d + 1) (pos_part m) (P ++ r.(rt_next) :: None :: S) (M ++ m :: y :: N'))). split.
  - split; place; eauto; try lia.
    + by destruct Hp.
    + exists (None :: S). rewrite zlen_cons. split; [done|lia].
    + exists m, (y :: N'). rewrite zlen_cons. split; [done|lia].
  - intros q' b x N Hdm Hsome Hnone. unfold iter_turn. rewrite Hc. replace (d + 1 + 1 - 1) with (d + 1) by lia. rewrite HS.
    rewrite (cons_middle (Some l) P), app_assoc, aget_middle by (rewrite zlen_app; change (zlen [Some l]) with 1; lia). cbn [mbind option_bind].
    unfold _route_iter_pop_then_next. rewrite Hc. replace (d + 1 + 1 - 1) with (d + 1) by lia. rewrite (proj2 (Z.ltb_lt 0 (d + 1))) by lia.
    cbn [it_stack it_mlen it_cnt]. rewrite HS, HN. replace (d + 1 - 1) with d by lia. rewrite aget_middle by lia. cbn [mbind option_bind]. rewrite aget_middle by lia.
    cbn [mbind option_bind]. rewrite Hl. cbn [mbind option_bind]. rewrite aset_middle by lia. cbn [mbind option_bind]. rewrite Hdm. cbn [mbind option_bind].
    destruct (rt_next r) as [n|]; [|by rewrite Hnone]. destruct (Hsome ltac:(eauto)) as (E1 & E2 & ->). rewrite E1, E2. replace (d + 1 - 1) with d by lia.
    rewrite aget_middle by lia. done.
Qed.

(** What a turn reports about the route it went to. *)
Definition reported d p (M : list Z) q (b : bool) : Prop :=
  (is_Some p -> exists x N, q.(q_it).(it_mlen) = M ++ x :: N /\ q.(q_it).(it_cnt) = d + 1 /\ b = negb (x =? 0)) /\ (p = None -> b = false) /\ (forall l, p = Some l -> is_Some (h !! l)).

(** From [q], about to match the siblings [ts] at [p], the iterator visits them and everything
    below them, in at most two turns for every route, and ends behind them at the same place. *)
Definition visits_all d p base P M sm ts q : Prop :=
  exists q1 b n vs q2, _route_do_match_next re_match h d q = Some (q1, b) /\ reported d p M q1 b /\ turns n q1 vs q2 /\
    (emit q1 p b ++ vs, q2.(q_submatches)) = dfs_all mf has_handler base sm ts /\ (n <= 2 * sum_list_with tsize ts)%nat /\
    at_place d None base P M q2.(q_submatches) q2 /\ q2.(q_path_unmatched) = base /\ q2.(q_it).(it_prev_sibling_mlen) = 0.

Lemma visits_nil d base P M sm q : at_place d None base P M sm q -> visits_all d None base P M sm [] q.
Proof.
  intros Hq. destruct (do_match_none _ _ _ _ _ _ Hq) as (q' & E & Hq' & Hu & Hps). exists q', false, 0%nat, [], q'. pose proof (ap_sm _ _ _ _ _ _ _ Hq') as Hsm'.
  split; [done|]. split; [split; [by intros []|done]|]. split; [constructor|]. rewrite Hsm'. split; [done|]. split; [cbn; lia|]. by split.
Qed.

(** The first sibling and what is below it, then the others. *)
Lemma visits_cons d l next base P M sm q q1 m N kids ts n1 vs1 q3 q0 :
  is_Some (h !! l) ->
  _route_do_match_next re_match h d q = Some (q1, negb (m =? 0)) -> q1.(q_it).(it_mlen) = M ++ m :: N -> q1.(q_it).(it_cnt) = d + 1 ->
  turns n1 q1 vs1 q3 -> 0 < q3.(q_it).(it_cnt) -> (n1 < 2 * tsize (Node l kids))%nat ->
  (emit q1 (Some l) (negb (m =? 0)) ++ vs1, q3.(q_submatches)) = dfs mf has_handler base sm (Node l kids) ->
  (forall q' b, _route_do_match_next re_match h d q0 = Some (q', b) -> reported d next M q' b -> iter_turn re_match h q3 = Some (q', next, b)) ->
  visits_all d next base P M q3.(q_submatches) ts q0 -> visits_all d (Some l) base P M sm (Node l kids :: ts) q.
Proof.
  intros Hl E1 HN Hc T1 Hc3 Hn1 Hv1 Ht (q2 & b & n & vs & q4 & E2 & Hb & T2 & Hv2 & Hn2 & Ha & Hu & Hps).
  exists q1, (negb (m =? 0)), (n1 + S n)%nat, (vs1 ++ emit q2 next b ++ vs), q4. split; [done|].
  split; [split; [by eauto|split; [done|by intros ? [= <-]]]|]. split; [eapply turns_app; [done|econstructor; [done|by apply Ht|apply Hb|done]]|]. cbn [dfs_all]. rewrite <- Hv1, <- Hv2. split; [by rewrite <- !app_assoc|].
  split; [cbn [sum_list_with]; lia|]. by split.
Qed.

Lemma traverse d par p ts : sibs h d par p ts -> forall base P M sm q, 0 <= d -> at_place d p base P M sm q -> visits_all d p base P M sm ts q.
Proof.
  induction 1 as [d par|d par l r kids ts Hl _ Hd Hkids IHk _ IHs]; intros base P M sm q H0 Hq; [by apply visits_nil|].
  destruct (spec_at l r base) as [m subs] eqn:Em. destruct (do_match_route _ _ _ _ _ _ _ _ _ _ Hl Hq Em) as (q1 & E1 & Hq1 & Hpm & Hm & N & HN & HNl).
  assert (0 <= base + pos_part m <= zlen path) as Hin by (eapply spec_in_path; [done|apply (ap_in _ _ _ _ _ _ _ Hq)|done]).
  pose proof (ap_sm _ _ _ _ _ _ _ Hq1) as Hsm. pose proof (ap_cnt _ _ _ _ _ _ _ Hq1) as Hc1. rewrite (ap_base _ _ _ _ _ _ _ Hq) in Hpm.
  assert (dfs mf has_handler base sm (Node l kids) = if m =? 0 then ([], sm ++ subs) else
    let '(vs, sm') := dfs_all mf has_handler (base + pos_part m) (sm ++ subs) kids in
    (emit q1 (Some l) (negb (m =? 0)) ++ vs, sm')) as Edfs.
  { rewrite dfs_node. unfold mf at 1. rewrite Hl, Em. destruct (Z.eqb_spec m 0) as [->|Hm0]; [done|]. destruct (Hm Hm0) as [Hu _].
    unfold emit, visits_of. rewrite Hu, Hpm, Hsm. done. }
  destruct (decide (m = 0 \/ r.(rt_child) = None)) as [Hcase|Hcase].
  - destruct (turn_next _ _ _ _ _ _ _ _ _ _ Hl Hq1 HN Hcase) as (q0 & Hq0 & Ht).
    eapply (visits_cons d l _ base P M sm q q1 m N kids ts 0 [] q1 q0); [done|done|done|done|constructor|lia|cbn [tsize]; lia| |by auto|rewrite Hsm; by apply IHs].
    rewrite Edfs, Hsm, app_nil_r. destruct (Z.eqb_spec m 0) as [->|]; [done|]. destruct Hcase as [?|Hch]; [done|]. rewrite Hch in Hkids. inversion Hkids; subst kids. cbn [dfs_all]. by rewrite app_nil_r.
  - destruct (rt_child r) as [c|] eqn:Hc; [|by destruct Hcase; right]. assert (m <> 0) as Hm0 by (intros ->; apply Hcase; by left). destruct (Hm Hm0) as [Hu Hps].
    assert (d + 1 < ROUTE_MATCHING_STACK_SIZE) by (inversion Hkids; lia).
    destruct (turn_child _ _ _ _ _ _ _ _ _ _ _ Hl Hq1 ltac:(done) HN Hm0 Hc) as (q0 & Hq0 & Ht); [by rewrite Hu, Hpm|lia|].
    destruct (IHk _ _ _ _ _ ltac:(lia) Hq0) as (q2 & b & n & vs & q3 & E2 & Hb & T2 & Hv2 & Hn2 & Ha & Hu3 & Hps3).
    destruct (turn_pop _ _ _ _ _ _ _ _ _ Hl H0 (proj1 (ap_in _ _ _ _ _ _ _ Hq)) Ha Hu3) as (q5 & Hq5 & Ht5).
    eapply (visits_cons d l _ base P M sm q q1 m N kids ts (S n) (emit q2 (Some c) b ++ vs) q3 q5); [done|done|done|done|econstructor; [lia|by apply Ht|apply Hb|done]| | | | |by apply IHs].
    + rewrite (ap_cnt _ _ _ _ _ _ _ Ha). lia.
    + cbn [tsize]. lia.
    + rewrite Edfs, <- Hv2, (proj2 (Z.eqb_neq m 0) Hm0). done.
    + intros q' b' Hd' (Hr1 & Hr2 & _). destruct (rt_next r) as [nx|] eqn:Hn; [destruct (Hr1 ltac:(eauto)) as (x & N' & Hx); by eapply Ht5|].
      eapply (Ht5 q' b' 0 []); [done|by intros []|done].
Qed.

(** ** The whole iteration *)

(** All routes the iterator gives, with the state of the request at each. *)
Fixpoint iter_all (n fuel : nat) q : option (list visit * request) :=
  match n with
  | O => None
  | S n =>
      '(q, r) ← _route_iter_next re_match fuel h q;
      match r with
      | None => Some ([], q)
      | Some l => '(vs, q') ← iter_all n fuel q; Some (mkVisit l q.(q_path_matched) q.(q_path_unmatched) q.(q_submatches) :: vs, q')
      end
  end.

Lemma iter_all_S n fuel q : iter_all (S n) fuel q =
  '(q, r) ← _route_iter_next re_match fuel h q;
  match r with
  | None => Some ([], q)
  | Some l => '(vs, q') ← iter_all n fuel q; Some (mkVisit l q.(q_path_matched) q.(q_path_unmatched) q.(q_submatches) :: vs, q')
  end.
Proof. reflexivity. Qed.

(** One call of [_route_iter_next] makes the first of the visits [vs], or finds none. *)
Definition next_gives (n fuel : nat) q (vs : list visit) q' : Prop :=
  match vs with
  | [] => _route_iter_next re_match fuel h q = Some (q', None)
  | v :: vs' => exists q1 n1, _route_iter_next re_match fuel h q = Some (q1, Some v.(v_route)) /\
      v = mkVisit v.(v_route) q1.(q_path_matched) q1.(q_path_unmatched) q1.(q_submatches) /\ turns n1 q1 vs' q' /\ (n1 <= n)%nat
  end.

Lemma next_of_turns n q vs q' : turns n q vs q' -> q'.(q_it).(it_cnt) <= 0 -> forall fuel, (n <= fuel)%nat -> next_gives n fuel q vs q'.
Proof.
  induction 1 as [q|n q q1 r m vs q2 Hc Ht Hl Htn IH]; intros Hend fuel Hf.
  { destruct fuel; cbn [next_gives _route_iter_next]; by rewrite (proj2 (Z.ltb_ge 0 _)). }
  destruct fuel as [|fuel]; [lia|]. specialize (IH Hend fuel ltac:(lia)).
  assert (_route_iter_next re_match (S fuel) h q = _route_iter_next re_match fuel h q1 -> next_gives (S n) (S fuel) q vs q2) as Hgo.
  { intros E. unfold next_gives in *. rewrite E. destruct vs as [|v vs]; [done|]. destruct IH as (q3 & n3 & E3 & Hv & T & Hn).
    exists q3, n3. split; [done|]. split; [done|]. split; [done|lia]. }
  cbn [_route_iter_next] in Hgo. rewrite (proj2 (Z.ltb_lt 0 _) Hc), Ht in Hgo. cbn [mbind option_bind] in Hgo.
  destruct r as [l|]; [|by apply Hgo]. destruct (Hl l eq_refl) as [x Hx]. destruct m; [|by apply Hgo]. rewrite Hx in Hgo. cbn [mbind option_bind] in Hgo.
  cbn [emit andb]. unfold has_handler. rewrite Hx. destruct (bool_decide _) eqn:Eb; [|by apply Hgo]. cbn [app next_gives _route_iter_next v_route].
  rewrite (proj2 (Z.ltb_lt 0 _) Hc), Ht. cbn [mbind option_bind]. rewrite Hx. cbn [mbind option_bind]. rewrite Eb. exists q1, n. split; [done|]. split; [done|]. split; [done|lia].
Qed.

Lemma iter_all_turns vs : forall n q q' fuel, turns n q vs q' -> q'.(q_it).(it_cnt) <= 0 -> (n <= fuel)%nat ->
  iter_all (S (length vs)) fuel q = Some (vs, q').
Proof.
  induction vs as [|v vs IH]; intros n q q' fuel T Hend Hf; pose proof (next_of_turns _ _ _ _ T Hend fuel Hf) as Hn; cbn [length]; rewrite iter_all_S.
  - by rewrite Hn.
  - destruct Hn as (q1 & n1 & -> & Hv & T1 & Hn1). cbn [mbind option_bind]. rewrite (IH n1 q1 q' fuel T1 Hend) by lia. cbn [mbind option_bind]. by rewrite <- Hv.
Qed.

(** The iterator starts at the root, which counts as matched without a section of the path. *)
Lemma root_turns w q q0 root r kids : _route_iter_init w q = Some q0 -> w.(w_routes) = h -> w.(w_roots) !! q.(q_ctx) = Some (Some root) ->
  h !! root = Some r -> r.(rt_next) = None -> sibs h 1 (Some root) r.(rt_child) kids -> on_path flags path path_len q ->
  exists n vs q', turns n q0 vs q' /\ q'.(q_it).(it_cnt) = 0 /\ (n <= 2 * sum_list_with tsize kids + 3)%nat /\
    (vs, q'.(q_submatches)) = dfs_all mf has_handler 0 q.(q_submatches) kids /\ q'.(q_path_matched) = 0 /\ q'.(q_path_unmatched) = 0.
Proof.
  intros Ei Hw Hroot Hr Hnext Hk Hp. unfold _route_iter_init in Ei. rewrite Hroot in Ei. cbn [mbind option_bind] in Ei.
  assert (forall A (x : A), replicate (Z.to_nat ROUTE_MATCHING_STACK_SIZE) x = [] ++ x :: replicate 126 x) as Erep by done. rewrite !Erep in Ei.
  rewrite !aset_middle in Ei by done. cbn [mbind option_bind app] in Ei. injection Ei as <-.
  match goal with |- context [turns _ ?x _ _] => set (q0 := x) end. pose proof (zlen_nonneg path).
  assert (at_place 0 (Some root) 0 [] [] q.(q_submatches) q0) as H0.
  { split; try done. - by destruct Hp. - exists (replicate 126 None). done. - exists (-1), (replicate 126 0). done. }
  assert (exists n vs q1, turns n q0 vs q1 /\ at_place 0 None 0 [] [] q1.(q_submatches) q1 /\ (n <= 2 * sum_list_with tsize kids + 2)%nat /\
    (vs, q1.(q_submatches)) = dfs_all mf has_handler 0 q.(q_submatches) kids /\ q1.(q_path_matched) = 0 /\ q1.(q_path_unmatched) = 0) as (n & vs & q1 & T & Ha & Hn & Hv & Hpm & Hpu).
  { destruct (rt_child r) as [c|] eqn:Hc.
    - destruct (turn_child 0 root r c 0 [] [] _ q0 (-1) (replicate 126 0) Hr H0) as (q2 & Hq2 & Ht); [done|done|done|done|done|done|].
      destruct (traverse _ _ _ _ Hk _ _ _ _ _ ltac:(done) Hq2) as (q3 & b & n & vs & q4 & E3 & Hb & T & Hv & Hn & Ha & Hu & Hps).
      destruct (turn_pop 0 root r 0 [] [] _ q4 (-1) Hr ltac:(done) ltac:(done) Ha Hu) as (q5 & Hq5 & Ht5). rewrite Hnext in Hq5, Ht5.
      destruct (do_match_none _ _ _ _ _ _ Hq5) as (q6 & E6 & Hq6 & Hu6 & Hps6). pose proof (ap_sm _ _ _ _ _ _ _ Hq6) as Hsm6.
      exists (S (n + 1)), (emit q3 (Some c) b ++ vs ++ []), q6. split; [|split; [by rewrite Hsm6|split; [lia|split; [by rewrite Hsm6, app_nil_r|split; [exact (do_match_matched _ _ _ _ _ _ _ _ _ Hq5 E6 eq_refl)|done]]]]].
      econstructor; [done|by apply Ht|apply Hb|]. eapply turns_app; [done|]. apply (turns_S 0 q4 q6 None false [] q6); [|by apply (Ht5 q6 false 0 []); [|intros []|]|done|constructor].
      rewrite (ap_cnt _ _ _ _ _ _ _ Ha). lia.
    - inversion Hk; subst kids. destruct (turn_next 0 root r 0 [] [] _ q0 (-1) (replicate 126 0) Hr H0) as (q2 & Hq2 & Ht); [done|by right|]. rewrite Hnext in Hq2, Ht.
      destruct (do_match_none _ _ _ _ _ _ Hq2) as (q6 & E6 & Hq6 & Hu6 & Hps6). pose proof (ap_sm _ _ _ _ _ _ _ Hq6) as Hsm6.
      exists 1%nat, [], q6. split; [|split; [by rewrite Hsm6|split; [lia|split; [by rewrite Hsm6|split; [exact (do_match_matched _ _ _ _ _ _ _ _ _ Hq2 E6 eq_refl)|done]]]]]. apply (turns_S 0 q0 q6 None false [] q6); [done|by apply Ht|done|constructor]. }
  destruct Ha as [_ Hc1 _ _ _ (S & HS & _) _ _]. cbn [app] in HS.
  set (qe := set_it q1 (mkIter 0 0 q1.(q_it).(it_stack) q1.(q_it).(it_mlen))). exists (n + 1)%nat, (vs ++ []), qe. split; [|split; [done|split; [lia|split; [by rewrite app_nil_r|done]]]].
  eapply turns_app; [done|]. apply (turns_S 0 q1 qe None false [] qe); [rewrite Hc1; lia| |done|constructor].
  unfold qe, iter_turn, _route_iter_pop_then_next. rewrite Hc1, HS. done.
Qed.

End Iter.

(** The routes of context [c] are the forest [kids] below the route [root]. *)
Record forest {re} (w : @wfs re) (c : cid) (root : rloc) (kids : list tree) : Prop := {
  fo_root : w.(w_roots) !! c = Some (Some root);
  fo_kids : exists r, w.(w_routes) !! root = Some r /\ r.(rt_next) = None /\ sibs w.(w_routes) 1 (Some root) r.(rt_child) kids;
  fo_routes : forall l r, w.(w_routes) !! l = Some r -> route_ok r }.
