(* ===== verification/WfTree.v ===== *)
(** * WfTree: registering routes builds the forest the iterator walks

    The pointers [_route_attach] writes keep the routes of every context a tree of bounded depth,
    in which a new route is the last child of its parent. *)
From S2P Require Import Prelude WfRoute WfIter.

(** ** Forests as values *)

Fixpoint locs (t : tree) : list rloc := match t with Node l kids => l :: (kids ≫= locs) end.

(** [new] becomes the last child of [p]. *)
Fixpoint add_child (p new : rloc) (t : tree) : tree :=
  match t with
  | Node l kids => Node l (if decide (l = p) then kids ++ [Node new []] else add_child p new <$> kids)
  end.

(** [p] is [k] levels below the top of a forest. *)
Inductive tdepth : list tree -> rloc -> Z -> Prop :=
| tdepth_here l kids ts : tdepth (Node l kids :: ts) l 0
| tdepth_down l kids ts p k : tdepth kids p k -> tdepth (Node l kids :: ts) p (k + 1)
| tdepth_next t ts p k : tdepth ts p k -> tdepth (t :: ts) p k.

Section Tree.
Context {re : Type}.
Abbreviation rheap := (gmap rloc (@route re)).
Implicit Types (h : rheap) (ts : list tree) (par : option rloc) (d : Z).

Definition links (r : @route re) := (r.(rt_parent), r.(rt_child), r.(rt_next)).

(** A chain of siblings depends on the links of its routes only. *)
Lemma sibs_same h h' d par p ts : sibs h d par p ts -> (forall l, l ∈ ts ≫= locs -> links <$> h' !! l = links <$> h !! l) -> sibs h' d par p ts.
Proof.
  induction 1 as [d par|d par l r kids ts Hl Hpar Hd _ IHk _ IHs]; intros Hsame; [constructor|]. rewrite bind_cons in Hsame. cbn [locs] in Hsame.
  assert (links <$> h' !! l = Some (links r)) as E by (rewrite Hsame by set_solver; by rewrite Hl).
  destruct (h' !! l) as [r'|] eqn:Hl'; [|done]. cbn [fmap option_fmap option_map] in E. injection E as E1 E2 E3.
  econstructor; [done|congruence|done|rewrite E2; apply IHk|rewrite E3; apply IHs]; intros x Hx; apply Hsame; set_solver.
Qed.

Lemma sibs_dom h d par p ts l : sibs h d par p ts -> l ∈ ts ≫= locs -> is_Some (h !! l).
Proof.
  induction 1 as [d par|d par l' r kids ts Hl Hpar Hd _ IHk _ IHs]; intros Hin; [by apply elem_of_nil in Hin|]. rewrite bind_cons in Hin. cbn [locs] in Hin.
  apply elem_of_app in Hin as [Hin|Hin]; [|by apply IHs]. apply elem_of_cons in Hin as [->|Hin]; [by eauto|by apply IHk].
Qed.

Lemma add_child_absent h d par q ts p new : sibs h d par q ts -> p ∉ ts ≫= locs -> add_child p new <$> ts = ts.
Proof.
  induction 1 as [d par|d par l' r kids ts Hl Hpar Hd _ IHk _ IHs]; intros Hin; [done|]. rewrite bind_cons in Hin. cbn [locs] in Hin.
  cbn [fmap list_fmap add_child]. fold (add_child p new <$> ts). rewrite decide_False by set_solver. rewrite IHk by set_solver. f_equal. apply IHs. set_solver.
Qed.

(** A forest without repetitions is no larger than the heap. *)
Lemma locs_size h d par p ts : sibs h d par p ts -> NoDup (ts ≫= locs) -> (length (ts ≫= locs) <= size h)%nat.
Proof.
  intros Hs Hnd. rewrite <- size_dom, <- (size_list_to_set (C := gset rloc)) by done.
  apply subseteq_size. intros q Hq. apply elem_of_list_to_set in Hq. apply elem_of_dom. by eapply sibs_dom.
Qed.

(** ** The depth of a route *)

Lemma ancestors_mono h fuel : forall fuel' p n, ancestors fuel h p = Some n -> (fuel <= fuel')%nat -> ancestors fuel' h p = Some n.
Proof.
  induction fuel as [|fuel IH]; intros fuel' p n E Hf; destruct p as [p|]; try (by destruct fuel'); try done.
  destruct fuel' as [|fuel']; [lia|]. cbn [ancestors] in *. destruct (h !! p) as [r|]; [|done]. cbn [mbind option_bind] in *.
  destruct (ancestors fuel h (rt_parent r)) as [k|] eqn:Ek; [|done]. rewrite (IH fuel' _ k) by (done || lia). done.
Qed.

Lemma ancestors_in h d par q ts p : sibs h d par q ts -> p ∈ ts ≫= locs -> 0 <= d -> ancestors (Z.to_nat d) h par = Some d ->
  exists k, d <= k < d + zlen (ts ≫= locs) /\ k < ROUTE_MATCHING_STACK_SIZE /\ ancestors (Z.to_nat (k + 1)) h (Some p) = Some (k + 1) /\ tdepth ts p (k - d).
Proof.
  intros Hs. revert p. induction Hs as [d par|d par l r kids ts Hl Hpar Hd _ IHk _ IHs]; intros p Hin H0 Hd0; [by apply elem_of_nil in Hin|].
  assert (ancestors (Z.to_nat (d + 1)) h (Some l) = Some (d + 1)) as Hl1.
  { replace (Z.to_nat (d + 1)) with (S (Z.to_nat d)) by lia. cbn [ancestors]. rewrite Hl. cbn [mbind option_bind]. by rewrite Hpar, Hd0. }
  rewrite bind_cons in Hin |- *. cbn [locs] in Hin |- *. rewrite zlen_app, zlen_cons. pose proof (zlen_nonneg (kids ≫= locs)). pose proof (zlen_nonneg (ts ≫= locs)).
  apply elem_of_app in Hin as [Hin|Hin]; [|destruct (IHs p Hin H0 Hd0) as (k & Hk & Hk' & E & Hdep); exists k; split; [lia|split; [done|split; [done|by constructor]]]].
  apply elem_of_cons in Hin as [->|Hin]; [exists d; split; [lia|split; [lia|split; [done|rewrite Z.sub_diag; constructor]]]|].
  destruct (IHk p Hin ltac:(lia) Hl1) as (k & Hk & Hk' & E & Hdep). exists k. split; [lia|]. split; [done|]. split; [done|]. replace (k - d) with (k - (d + 1) + 1) by lia. by constructor.
Qed.
(** ** Attaching *)

(** The route with other links. *)
Definition relinked (r r' : @route re) : Prop :=
  r'.(rt_base) = r.(rt_base) /\ r'.(rt_parent) = r.(rt_parent) /\ r'.(rt_pattern) = r.(rt_pattern) /\ r'.(rt_re) = r.(rt_re) /\ r'.(rt_pattern_len) = r.(rt_pattern_len).

(** [h'] is [h] except for the links of routes in [L]. *)
Definition relinks (L : list rloc) h h' : Prop :=
  (forall x, x ∉ L -> h' !! x = h !! x) /\
  (forall x r', h' !! x = Some r' -> exists r, h !! x = Some r /\ relinked r r') /\ (forall x, is_Some (h !! x) -> is_Some (h' !! x)).

Lemma relinks_insert x r r' h L : h !! x = Some r -> relinked r r' -> x ∈ L -> relinks L h (<[x := r']> h).
Proof.
  intros Hx Hr Hin. split; [|split].
  - intros y Hy. apply lookup_insert_ne. by intros ->.
  - intros y s. destruct (decide (y = x)) as [->|Hne]; [rewrite lookup_insert_eq; intros [= <-]; eauto|rewrite lookup_insert_ne by done; intros ->; exists s; by split].
  - intros y [s Hs]. destruct (decide (y = x)) as [->|Hne]; [rewrite lookup_insert_eq; eauto|rewrite lookup_insert_ne by done; eauto].
Qed.

Lemma relinks_weaken L L' h h' : L ⊆ L' -> relinks L h h' -> relinks L' h h'.
Proof. intros HL [H1 H2]. split; [|done]. intros x Hx. apply H1. set_solver. Qed.

Lemma sibs_length ts : (length ts <= length (ts ≫= locs))%nat.
Proof. induction ts as [|[l kids] ts IH]; [done|]. rewrite bind_cons, length_app. cbn [length locs]. lia. Qed.

(** A leaf that nothing points to. *)
Definition leaf h (new : rloc) par : Prop := exists r, h !! new = Some r /\ links r = (par, None, None).

Lemma sibs_leaf h d par new : leaf h new par -> 0 <= d < ROUTE_MATCHING_STACK_SIZE -> sibs h d par (Some new) [Node new []].
Proof. intros (r & Hr & [= <- Hc Hn]) Hd. econstructor; [done|done|done|rewrite Hc; constructor|rewrite Hn; constructor]. Qed.

(** Below, [h'] differs from [h] outside of what a chain is made of. *)
Lemma sibs_relinks h h' d par p ts L : sibs h d par p ts -> relinks L h h' -> (forall x, x ∈ ts ≫= locs -> x ∉ L) -> sibs h' d par p ts.
Proof. intros Hs [HL _] Hd. eapply sibs_same; [done|]. intros l Hl. by rewrite HL by (by apply Hd). Qed.

Lemma attach_last_sibs h d par c ts new fuel : sibs h d par (Some c) ts -> NoDup (ts ≫= locs) -> new ∉ ts ≫= locs -> leaf h new par ->
  (length ts <= fuel)%nat ->
  exists h', attach_last fuel h c new = Some h' /\ sibs h' d par (Some c) (ts ++ [Node new []]) /\ relinks (ts ≫= locs) h h'.
Proof.
  intros Hs. remember (Some c) as p eqn:Ep. revert c Ep fuel. induction Hs as [d par|d par l r kids ts Hl Hpar Hd Hk _ Hs IHs]; intros c [= <-] fuel Hnd Hnew Hleaf Hf.
  rewrite bind_cons in Hnd, Hnew |- *. cbn [locs] in Hnd, Hnew |- *. apply NoDup_app in Hnd as (Hnd1 & Hdis & Hnd2). apply NoDup_cons in Hnd1 as [Hlk Hndk].
  assert (new <> l) as Hnl by set_solver. cbn [length] in Hf. destruct fuel as [|fuel]; [lia|]. cbn [attach_last]. rewrite Hl. cbn [mbind option_bind].
  destruct (rt_next r) as [c|] eqn:Hn.
  - destruct (IHs c eq_refl fuel) as (h' & E & Hs' & Hr); [done|set_solver|done|lia|]. exists h'. split; [done|]. split; [|eapply relinks_weaken; [|done]; set_solver].
    cbn [app]. eapply (sibs_cons h' d par l r); [|done|done| |by rewrite Hn].
    + rewrite (proj1 Hr); [done|set_solver].
    + eapply sibs_relinks; [done|done|set_solver].
  - inversion Hs; subst ts. eexists. split; [reflexivity|]. assert (relinks [l] h (<[l:=put_next r (Some new)]> h)) as Hr by (eapply relinks_insert; [done|done|set_solver]).
    split; [|eapply relinks_weaken; [|done]; set_solver]. cbn [app]. eapply (sibs_cons _ d par l (put_next r (Some new))); [apply lookup_insert_eq|done|done| |].
    + cbn [put_next rt_child]. eapply sibs_relinks; [done|done|set_solver].
    + cbn [put_next rt_next]. apply sibs_leaf; [|done]. destruct Hleaf as (rn & Hrn & Hlk'). exists rn. split; [by rewrite lookup_insert_ne|done].
Qed.

(** The part of [_route_attach] behind the initialisation of the new route. *)
Definition attach_core h (parent route : rloc) : option rheap :=
  p ← h !! parent;
  match p.(rt_child) with
  | Some r => attach_last (size h) h r route
  | None => Some (<[parent := put_child p (Some route)]> h)
  end.

Lemma attach_sibs h d par q ts p new n : sibs h d par q ts -> NoDup (ts ≫= locs) -> p ∈ ts ≫= locs -> new ∉ ts ≫= locs -> leaf h new (Some p) ->
  0 <= d -> ancestors (Z.to_nat d) h par = Some d -> ancestors (Z.to_nat n) h (Some p) = Some n -> n < ROUTE_MATCHING_STACK_SIZE ->
  exists h', attach_core h p new = Some h' /\ sibs h' d par q (add_child p new <$> ts) /\ relinks (ts ≫= locs) h h'.
Proof.
  intros Hs. induction Hs as [d par|d par l r kids ts Hl Hpar Hd Hk IHk Hs IHs]; intros Hnd Hp Hnew Hleaf H0 Hd0 Hn Hlt; [by apply elem_of_nil in Hp|].
  pose proof (locs_size _ _ _ _ _ (sibs_cons _ _ _ _ _ _ _ Hl Hpar Hd Hk Hs) Hnd) as Hsize.
  rewrite bind_cons in Hnd, Hp, Hnew, Hsize |- *. cbn [locs] in Hnd, Hp, Hnew, Hsize |- *. pose proof Hnd as Hnd0. apply NoDup_app in Hnd as (Hnd1 & Hdis & Hnd2). apply NoDup_cons in Hnd1 as [Hlk Hndk].
  assert (ancestors (Z.to_nat (d + 1)) h (Some l) = Some (d + 1)) as Hl1.
  { replace (Z.to_nat (d + 1)) with (S (Z.to_nat d)) by lia. cbn [ancestors]. rewrite Hl. cbn [mbind option_bind]. by rewrite Hpar, Hd0. }
  cbn [fmap list_fmap add_child]. fold (add_child p new <$> ts). fold (add_child p new <$> kids). destruct (decide (l = p)) as [->|Hlp].
  - rewrite (add_child_absent h d par r.(rt_next) ts p new) by (done || set_solver).
    assert (n = d + 1) as ->. { pose proof (ancestors_mono _ _ (Nat.max (Z.to_nat n) (Z.to_nat (d + 1))) _ _ Hn ltac:(lia)) as A1.
      pose proof (ancestors_mono _ _ (Nat.max (Z.to_nat n) (Z.to_nat (d + 1))) _ _ Hl1 ltac:(lia)) as A2. congruence. }
    unfold attach_core. rewrite Hl. cbn [mbind option_bind]. destruct (rt_child r) as [c|] eqn:Hc.
    + destruct (attach_last_sibs _ _ _ _ _ new (size h) Hk) as (h' & E & Hs' & Hr); [done|set_solver|done| |].
      { pose proof (sibs_length kids). rewrite length_app in Hsize. cbn [length] in Hsize. lia. }
      exists h'. split; [done|]. split; [|eapply relinks_weaken; [|done]; set_solver]. eapply (sibs_cons h' d par p r); [|done|done|by rewrite Hc|].
      * rewrite (proj1 Hr); [done|done].
      * eapply sibs_relinks; [done|done|set_solver].
    + inversion Hk; subst kids. eexists. split; [reflexivity|]. assert (relinks [p] h (<[p:=put_child r (Some new)]> h)) as Hr by (eapply relinks_insert; [done|done|set_solver]).
      split; [|eapply relinks_weaken; [|done]; set_solver]. eapply (sibs_cons _ d par p (put_child r (Some new))); [apply lookup_insert_eq|done|done| |].
      * cbn [put_child rt_child app]. apply sibs_leaf; [|lia]. destruct Hleaf as (rn & Hrn & Hlk'). exists rn. split; [rewrite lookup_insert_ne; [done|set_solver]|done].
      * cbn [put_child rt_next]. eapply sibs_relinks; [done|done|set_solver].
  - destruct (decide (p ∈ kids ≫= locs)) as [Hin|Hnin].
    + rewrite (add_child_absent h d par r.(rt_next) ts p new) by (done || set_solver).
      destruct IHk as (h' & E & Hs' & Hr); [done|done|set_solver|done|lia|done|done|done|]. exists h'. split; [done|]. split; [|eapply relinks_weaken; [|done]; set_solver].
      eapply (sibs_cons h' d par l r); [rewrite (proj1 Hr); [done|done]|done|done|done|]. eapply sibs_relinks; [done|done|set_solver].
    + rewrite (add_child_absent h (d + 1) (Some l) r.(rt_child) kids p new) by done.
      destruct IHs as (h' & E & Hs' & Hr); [done|set_solver|set_solver|done|lia|done|done|done|]. exists h'. split; [done|]. split; [|eapply relinks_weaken; [|done]; set_solver].
      eapply (sibs_cons h' d par l r); [rewrite (proj1 Hr); [done|set_solver]|done|done| |done]. eapply sibs_relinks; [done|done|set_solver].
Qed.

Lemma ancestors_same h h' fuel : forall p n, ancestors fuel h p = Some n ->
  (forall x, is_Some (h !! x) -> rt_parent <$> h' !! x = rt_parent <$> h !! x) -> ancestors fuel h' p = Some n.
Proof.
  induction fuel as [|fuel IH]; intros p n E Hs; destruct p as [p|]; try done. cbn [ancestors] in *. destruct (h !! p) as [r|] eqn:Hp; [|done].
  specialize (Hs p ltac:(eauto)) as Hp'. rewrite Hp in Hp'. destruct (h' !! p) as [r'|]; [|done]. cbn [fmap option_fmap option_map] in Hp'. injection Hp' as Hp'.
  cbn [mbind option_bind] in *. rewrite Hp'. destruct (ancestors fuel h (rt_parent r)) as [k|] eqn:Ek; [|done]. by rewrite (IH _ _ Ek Hs).
Qed.

Lemma add_child_locs h d par q ts p new : sibs h d par q ts -> NoDup (ts ≫= locs) -> p ∈ ts ≫= locs ->
  (add_child p new <$> ts) ≫= locs ≡ₚ new :: (ts ≫= locs).
Proof.
  intros Hs. induction Hs as [d par|d par l r kids ts Hl Hpar Hd Hk IHk Hs IHs]; intros Hnd Hp; [by apply elem_of_nil in Hp|].
  rewrite bind_cons in Hnd, Hp |- *. cbn [locs] in Hnd, Hp |- *. apply NoDup_app in Hnd as (Hnd1 & Hdis & Hnd2). apply NoDup_cons in Hnd1 as [Hlk Hndk].
  cbn [fmap list_fmap add_child]. fold (add_child p new <$> ts). fold (add_child p new <$> kids). rewrite bind_cons. cbn [locs].
  destruct (decide (l = p)) as [->|Hlp].
  - rewrite (add_child_absent h d par r.(rt_next) ts p new) by (done || set_solver). rewrite bind_app. cbn [mbind list_bind locs app]. fold (kids ≫= locs) (ts ≫= locs).
    cbn [app]. rewrite <- app_assoc. cbn [app]. rewrite <- Permutation_middle. apply perm_swap.
  - destruct (decide (p ∈ kids ≫= locs)) as [Hin|Hnin].
    + rewrite (add_child_absent h d par r.(rt_next) ts p new) by (done || set_solver). rewrite IHk by done. cbn [app]. apply perm_swap.
    + rewrite (add_child_absent h (d + 1) (Some l) r.(rt_child) kids p new) by done. rewrite IHs by (done || set_solver). cbn [app]. rewrite <- Permutation_middle. apply perm_swap.
Qed.

End Tree.

(** ** The invariant of the contexts *)

Section Registration.
Context {re : Type} (re_create : list Z -> option re).
Abbreviation rheap := (gmap rloc (@route re)).
Implicit Types (h : rheap) (w : @wfs re) (F : gmap cid tree).

(** The contexts and their routes are the trees [F]. *)
Record wf_inv w F : Prop := {
  inv_tree : forall c t, F !! c = Some t -> exists root kids, t = Node root kids /\ w.(w_roots) !! c = Some (Some root) /\
    sibs w.(w_routes) 0 None (Some root) [t] /\ NoDup (locs t) /\
    (forall l, l ∈ locs t -> exists r, w.(w_routes) !! l = Some r /\ r.(rt_base).(b_ctx) = Some c);
  inv_roots : forall c, is_Some (w.(w_roots) !! c) -> is_Some (F !! c);
  inv_route : forall l r, w.(w_routes) !! l = Some r -> route_ok r /\ exists c t, F !! c = Some t /\ l ∈ locs t }.

Lemma locs_single (t : tree) : [t] ≫= locs = locs t.
Proof. cbn [mbind list_bind]. apply app_nil_r. Qed.

(** Trees of different contexts share no routes. *)
Lemma inv_disjoint w F c c' t t' l : wf_inv w F -> F !! c = Some t -> F !! c' = Some t' -> l ∈ locs t -> l ∈ locs t' -> c = c'.
Proof.
  intros Hi Hc Hc' Hl Hl'. destruct (inv_tree _ _ Hi _ _ Hc) as (? & ? & _ & _ & _ & _ & H1). destruct (inv_tree _ _ Hi _ _ Hc') as (? & ? & _ & _ & _ & _ & H2).
  destruct (H1 l Hl) as (r & Hr & E). destruct (H2 l Hl') as (r' & Hr' & E'). congruence.
Qed.

Lemma inv_forest w F c root kids : wf_inv w F -> F !! c = Some (Node root kids) -> forest w c root kids.
Proof.
  intros Hi Hc. destruct (inv_tree _ _ Hi _ _ Hc) as (root' & kids' & [= <- <-] & Hr & Hs & _). inversion Hs as [|? ? ? r ? ? Hl _ _ Hk Hn]; subst. split; [done| |by intros l r' [? _]%(inv_route _ _ Hi)].
  exists r. split; [done|]. split; [by inversion Hn|done].
Qed.

(** A route that keeps its links, its context and its pattern. *)
Definition same_shape (r r' : @route re) : Prop :=
  links r' = links r /\ r'.(rt_base).(b_ctx) = r.(rt_base).(b_ctx) /\ r'.(rt_pattern) = r.(rt_pattern) /\ r'.(rt_re) = r.(rt_re) /\ r'.(rt_pattern_len) = r.(rt_pattern_len).

Lemma inv_update w F l r r' : wf_inv w F -> w.(w_routes) !! l = Some r -> same_shape r r' -> wf_inv {| w with w_routes := <[l := r']> w.(w_routes) |} F.
Proof.
  intros Hi Hl (Hlk & Hctx & Hp & Hre & Hpl). split; cbn [w_routes w_roots].
  - intros c t Hc. destruct (inv_tree _ _ Hi _ _ Hc) as (root & kids & -> & Hr & Hs & Hnd & Hin). exists root, kids. split; [done|]. split; [done|]. split; [|split; [done|]].
    + eapply sibs_same; [done|]. intros x Hx. destruct (decide (x = l)) as [->|Hne]; [by rewrite lookup_insert_eq, Hl; cbn; rewrite Hlk|by rewrite lookup_insert_ne].
    + intros x Hx. destruct (Hin x Hx) as (rx & Hrx & Hcx). destruct (decide (x = l)) as [->|Hne]; [exists r'; rewrite lookup_insert_eq; split; [done|congruence]|].
      exists rx. by rewrite lookup_insert_ne.
  - apply (inv_roots _ _ Hi).
  - intros x rx Hx. destruct (decide (x = l)) as [->|Hne]; [|rewrite lookup_insert_ne in Hx by done; by apply (inv_route _ _ Hi)].
    rewrite lookup_insert_eq in Hx. injection Hx as <-. destruct (inv_route _ _ Hi _ _ Hl) as [Hok Hin]. split; [|done].
    unfold route_ok in *. by rewrite Hre, Hp, Hpl.
Qed.

(** The number of routes above and including [p], as [_route_import] counts them. *)
Lemma inv_ancestors w F p r : wf_inv w F -> w.(w_routes) !! p = Some r ->
  exists c t k, F !! c = Some t /\ p ∈ locs t /\ r.(rt_base).(b_ctx) = Some c /\ tdepth [t] p k /\ 0 <= k /\
    ancestors (Z.to_nat (k + 1)) w.(w_routes) (Some p) = Some (k + 1) /\ ancestors (size w.(w_routes)) w.(w_routes) (Some p) = Some (k + 1).
Proof.
  intros Hi Hp. destruct (inv_route _ _ Hi _ _ Hp) as (_ & c & t & Hc & Hin). destruct (inv_tree _ _ Hi _ _ Hc) as (root & kids & Et & _ & Hs & Hnd & Hctx).
  destruct (ancestors_in _ _ _ _ _ p Hs) as (k & Hk & _ & E & Hd); [by rewrite locs_single|done|done|]. rewrite locs_single in Hk. rewrite Z.sub_0_r in Hd.
  pose proof (locs_size _ _ _ _ _ Hs ltac:(by rewrite locs_single)) as Hsz. rewrite locs_single in Hsz.
  exists c, t, k. split; [done|]. split; [done|]. split; [destruct (Hctx p Hin) as (r' & Hr' & E'); congruence|]. split; [done|]. split; [lia|]. split; [done|].
  eapply ancestors_mono; [done|]. unfold zlen in *. lia.
Qed.

Lemma inv_attach w F c t p l r n : wf_inv w F -> w.(w_routes) !! l = None -> F !! c = Some t -> p ∈ locs t ->
  ancestors (Z.to_nat n) w.(w_routes) (Some p) = Some n -> n < ROUTE_MATCHING_STACK_SIZE ->
  r.(rt_base).(b_ctx) = Some c -> route_ok r ->
  exists h', _route_attach (<[l := r]> w.(w_routes)) p l = Some h' /\ wf_inv (mkWfs h' w.(w_roots)) (<[c := add_child p l t]> F).
Proof.
  intros Hi Hl Hc Hp Hn Hlt Hctx Hok. destruct (inv_tree _ _ Hi _ _ Hc) as (root & kids & Et & Hr & Hs & Hnd & Hin).
  assert (forall c' t', F !! c' = Some t' -> l ∉ locs t') as Hlt'.
  { intros c' t' Hc' Hx. destruct (inv_tree _ _ Hi _ _ Hc') as (? & ? & _ & _ & _ & _ & H'). destruct (H' l Hx) as (? & ? & _). congruence. }
  unfold _route_attach. rewrite lookup_insert_eq. cbn [mbind option_bind]. rewrite insert_insert_eq. set (r' := {| (put_child (put_next r None) None) with rt_parent := Some p |}).
  set (h1 := <[l := r']> w.(w_routes)). fold (attach_core h1 p l).
  assert (forall x, x <> l -> h1 !! x = w.(w_routes) !! x) as Hne by (intros x Hx; by apply lookup_insert_ne).
  destruct (attach_sibs h1 0 None (Some root) [t] p l n) as (h' & E & Hs' & Hrel & Hrl & Hdom).
  - eapply sibs_same; [done|]. intros x Hx. rewrite locs_single in Hx. rewrite Hne; [done|]. intros ->. by apply (Hlt' c t).
  - by rewrite locs_single. - by rewrite locs_single. - rewrite locs_single. by apply (Hlt' c t).
  - exists r'. split; [apply lookup_insert_eq|done]. - done. - done.
  - eapply ancestors_same; [done|]. intros x [rx Hx]. rewrite Hne; [done|]. congruence.
  - done.
  - rewrite locs_single in Hrel. cbn [fmap list_fmap] in Hs'. exists h'. split; [done|]. split; cbn [w_routes w_roots].
    + intros c' t' Hc'. destruct (decide (c' = c)) as [->|Hcc].
      * rewrite lookup_insert_eq in Hc'. injection Hc' as <-. pose proof (add_child_locs _ _ _ _ _ p l Hs) as Hperm. rewrite !locs_single in Hperm. cbn [fmap list_fmap] in Hperm.
        rewrite locs_single in Hperm. specialize (Hperm Hnd Hp). subst t. eexists root, _. split; [reflexivity|]. split; [done|]. split; [done|]. split.
        { rewrite Hperm. apply NoDup_cons. split; [by apply (Hlt' c)|done]. }
        intros x Hx. rewrite Hperm in Hx. assert (is_Some (h1 !! x)) as Hx1.
        { apply elem_of_cons in Hx as [->|Hx]; [unfold h1; rewrite lookup_insert_eq; eauto|]. destruct (Hin x Hx) as (rx & Hrx & _). rewrite Hne; [eauto|]. congruence. }
        destruct (Hdom x Hx1) as [rx' Hrx']. exists rx'. split; [done|]. destruct (Hrl x rx' Hrx') as (rx & Hrx & -> & _).
        apply elem_of_cons in Hx as [->|Hx]; [unfold h1 in Hrx; rewrite lookup_insert_eq in Hrx; by injection Hrx as <-|].
        destruct (Hin x Hx) as (ry & Hry & Hcy). rewrite Hne in Hrx by congruence. congruence.
      * rewrite lookup_insert_ne in Hc' by done. destruct (inv_tree _ _ Hi _ _ Hc') as (root' & kids' & -> & Hr' & Hs2 & Hnd' & Hin').
        assert (forall x, x ∈ locs (Node root' kids') -> h' !! x = w.(w_routes) !! x) as Hsame.
        { intros x Hx. rewrite Hrel, Hne; [done|intros ->; by eapply Hlt'|]. intros Hx'. apply Hcc. by eapply inv_disjoint. }
        exists root', kids'. split; [done|]. split; [done|]. split; [|split; [done|]].
        { eapply sibs_same; [done|]. intros x Hx. rewrite locs_single in Hx. by rewrite Hsame. }
        intros x Hx. destruct (Hin' x Hx) as (rx & Hrx & Hcx). exists rx. by rewrite Hsame.
    + intros c' Hc'. destruct (decide (c' = c)) as [->|Hcc]; [rewrite lookup_insert_eq; eauto|rewrite lookup_insert_ne by done; by apply (inv_roots _ _ Hi)].
    + intros x rx' Hx. destruct (Hrl x rx' Hx) as (rx & Hrx & Hb & Hpa & Hpt & Hre & Hpl). pose proof (add_child_locs _ _ _ _ _ p l Hs) as Hperm.
      rewrite !locs_single in Hperm. cbn [fmap list_fmap] in Hperm. rewrite locs_single in Hperm. specialize (Hperm Hnd Hp).
      assert (route_ok rx -> route_ok rx') as Hok' by (unfold route_ok; by rewrite Hre, Hpt, Hpl). destruct (decide (x = l)) as [->|Hxl].
      * unfold h1 in Hrx. rewrite lookup_insert_eq in Hrx. injection Hrx as <-. split; [by apply Hok'|]. exists c, (add_child p l t). split; [apply lookup_insert_eq|]. rewrite Hperm. set_solver.
      * rewrite Hne in Hrx by done. destruct (inv_route _ _ Hi _ _ Hrx) as (Hokx & c' & t' & Hc' & Hx'). split; [by apply Hok'|].
        destruct (decide (c' = c)) as [->|Hcc]; [|exists c', t'; by rewrite lookup_insert_ne]. exists c, (add_child p l t). split; [apply lookup_insert_eq|]. rewrite Hperm. rewrite Hc in Hc'. injection Hc' as <-. set_solver.
Qed.

(** ** Importing *)

Definition pattern_compiles (pattern : option (list Z)) : bool :=
  match cstr <$> pattern with Some (c :: p) => if c =? 94 then bool_decide (is_Some (re_create p)) else true | _ => true end.

Lemma cstr_no_zero l : Forall (fun c => c <> 0) (cstr l).
Proof. induction l as [|c l IH]; [constructor|]. cbn [cstr]. destruct (Z.eqb_spec c 0); [constructor|by constructor]. Qed.

Lemma route_init_spec base par p0 : zlen (cstr (default [] p0)) < 2 ^ 31 ->
  let res := _route_init re_create (mkRoute base par None None ((fun p => cstr p ++ [0]) <$> p0) None 0) in
  if pattern_compiles p0 then exists r, res = inl r /\ r.(rt_base) = base /\ links r = (par, None, None) /\ route_ok r
  else res = inr WF_ERROR_REGEXP_INVALID.
Proof.
  intros Hlen. unfold _route_init, pattern_compiles. destruct p0 as [p|]; cbn [fmap option_fmap option_map rt_pattern]; [|cbn [Z.eqb]; eexists; by split_and!].
  change (zlen (cstr p) < 2 ^ 31) in Hlen. pose proof (cstr_no_zero p) as Hz. rewrite cstr_app_0 by done. pose proof (zlen_nonneg (cstr p)). destruct (Z.eqb_spec (zlen (cstr p)) 0) as [E|E].
  { destruct (cstr p) as [|x l]; [|rewrite zlen_cons in E; pose proof (zlen_nonneg l); lia]. eexists. by split_and!. }
  rewrite i32_small by lia. destruct (cstr p) as [|x l] eqn:Ep; [done|]. cbn [app]. apply Forall_cons in Hz as Hz'. destruct Hz' as [Hx Hl].
  destruct (Z.eqb_spec x 94) as [->|Hx94].
  - rewrite cstr_app_0 by done. destruct (re_create l) as [e|]; [rewrite bool_decide_true by eauto|by rewrite bool_decide_false by (by intros [])]. eexists. by split_and!.
  - eexists. split; [reflexivity|]. split; [done|]. split; [done|]. unfold route_ok. cbn [rt_re rt_pattern rt_pattern_len]. exists (x :: l). split; [done|]. split; [done|]. split; [done|lia].
Qed.

(** Giving a new route to its parent is the same as adding it wherever the parent is. *)
Lemma add_child_everywhere w F c t p l : wf_inv w F -> F !! c = Some t -> p ∈ locs t -> add_child p l <$> F = <[c := add_child p l t]> F.
Proof.
  intros Hi Hc Hp. apply map_eq. intros c'. rewrite lookup_fmap. destruct (decide (c' = c)) as [->|Hcc]; [by rewrite Hc, lookup_insert_eq|].
  rewrite lookup_insert_ne by done. destruct (F !! c') as [t'|] eqn:Hc'; [|done]. cbn [fmap option_fmap option_map]. f_equal.
  destruct (inv_tree _ _ Hi _ _ Hc') as (? & ? & _ & _ & Hs & _). pose proof (add_child_absent _ _ _ _ _ p l Hs) as E. cbn [fmap list_fmap] in E.
  rewrite locs_single in E. assert (p ∉ locs t') as Hn by (intros Hp'; apply Hcc; by eapply inv_disjoint). by specialize (E Hn) as [=].
Qed.

Definition top (t : tree) : rloc := match t with Node l _ => l end.

(** What registration of [l] with [parent] in context [c] does to the trees. *)
Definition grow F (c : cid) (parent : option rloc) (l : rloc) : gmap cid tree :=
  match parent with
  | Some p => add_child p l <$> F
  | None => alter (fun t => add_child (top t) l t) c F
  end.

(** The answer of a registration below a route at depth [k] of context [c']. *)
Definition answer (ok : bool) (l : rloc) (c : cid) (pattern : option (list Z)) (parent : option (cid * Z)) : rloc + wf_error :=
  let deep := match parent with Some (_, k) => ROUTE_MATCHING_STACK_SIZE - 2 <=? k | None => false end in
  let foreign := match parent with Some (c', _) => negb (bool_decide (c' = c)) | None => false end in
  if deep then inr WF_ERROR_MAX_NESTED_ROUTES
  else if foreign then inr WF_ERROR_PARENT_ROUTE_FROM_DIFFERENT_CONTEXT
  else if negb ok then inr IW_ERROR_ALLOC
  else if negb (pattern_compiles pattern) then inr WF_ERROR_REGEXP_INVALID else inl l.

(** The place of the parent a registration names. *)
Definition parent_at F (parent : option rloc) (at_ : option (cid * Z)) : Prop :=
  match parent, at_ with
  | Some p, Some (c, k) => exists t, F !! c = Some t /\ p ∈ locs t /\ tdepth [t] p k
  | None, None => True
  | _, _ => False
  end.

Definition small_pattern (spec : wf_route) : Prop := zlen (cstr (default [] spec.(b_pattern))) < 2 ^ 31.

Lemma alter_as_insert (f : tree -> tree) c F t : F !! c = Some t -> alter f c F = <[c := f t]> F.
Proof.
  intros Hc. apply map_eq. intros i. destruct (decide (i = c)) as [->|Hne]; [by rewrite lookup_alter_eq, lookup_insert_eq, Hc|].
  by rewrite lookup_alter_ne, lookup_insert_ne.
Qed.

Lemma link_inv l w F c t par r : wf_inv w F -> w.(w_routes) !! l = None -> F !! c = Some t ->
  links r = (par, None, None) -> r.(rt_base).(b_ctx) = Some c -> route_ok r ->
  (forall p, par = Some p -> exists n, p ∈ locs t /\ ancestors (Z.to_nat n) w.(w_routes) (Some p) = Some n /\ n < ROUTE_MATCHING_STACK_SIZE) ->
  exists w', route_link l w c r = Some (w', inl l) /\ wf_inv w' (grow F c par l).
Proof.
  intros Hi Hl Hc [= Hp Hch Hnx] Hctx Hok Hpar. destruct (inv_tree _ _ Hi _ _ Hc) as (root & kids & Et & Hroot & Hs & _).
  unfold route_link, grow. rewrite Hroot, Hp. cbn [mbind option_bind]. destruct par as [p|].
  - rewrite Hp. destruct (Hpar p eq_refl) as (n & Hpt & Hn & Hlt). destruct (inv_attach _ _ _ _ p l r n Hi Hl Hc) as (h' & E & Hi'); [done..|].
    rewrite E. cbn [mbind option_bind]. eexists. split; [reflexivity|]. by rewrite (add_child_everywhere w F c t p l).
  - cbn [rt_parent]. subst t. inversion Hs as [|? ? ? rr ? ? Hrr Hpr _ _ _]; subst.
    match goal with |- context [<[l := ?x]> (w_routes w)] => set (r1 := x) end.
    destruct (inv_attach w F c (Node root kids) root l r1 1 Hi Hl Hc) as (h' & E & Hi'); [cbn [locs]; set_solver| |done|done|done|].
    { change (Z.to_nat 1) with 1%nat. cbn [ancestors]. rewrite Hrr. cbn [mbind option_bind]. by rewrite Hpr. }
    rewrite E. cbn [mbind option_bind]. eexists. split; [reflexivity|]. by rewrite (alter_as_insert _ _ _ _ Hc).
Qed.

Lemma import_inv ok l w F (spec : wf_route) c t : wf_inv w F -> w.(w_routes) !! l = None -> small_pattern spec -> F !! c = Some t ->
  (forall p, spec.(b_parent) = Some p -> is_Some (w.(w_routes) !! p)) ->
  exists w' at_, let res := answer ok l c spec.(b_pattern) at_ in
    _route_import re_create ok l w spec c = Some (w', res) /\ parent_at F spec.(b_parent) at_ /\
    wf_inv w' (match res with inl _ => grow F c spec.(b_parent) l | inr _ => F end).
Proof.
  intros Hi Hl Hsmall Hc Hpar.
  pose proof (route_init_spec (import_base spec c) spec.(b_parent) spec.(b_pattern) Hsmall) as Hinit. cbv zeta in Hinit.
  unfold _route_import. cbv zeta. change (b_pattern (import_base spec c)) with ((fun p => cstr p ++ [0]) <$> spec.(b_pattern)).
  change (b_parent (import_base spec c)) with (b_parent spec).
  destruct (b_parent spec) as [p|] eqn:Ep.
  - destruct (Hpar p eq_refl) as [rp Hp]. destruct (inv_ancestors _ _ _ _ Hi Hp) as (c' & t' & k & Hc' & Hpt & Hpc & Hd & Hk & A1 & A2).
    assert (parent_at F (Some p) (Some (c', k))) as Hat by (exists t'; by split_and!).
    rewrite A2. cbn [mbind option_bind]. rewrite bool_decide_true by eauto. cbn [andb]. rewrite Hp. cbn [mbind option_bind].
    replace (ROUTE_MATCHING_STACK_SIZE - 1 <=? k + 1) with (ROUTE_MATCHING_STACK_SIZE - 2 <=? k) by (apply eq_bool_prop_intro; rewrite !Is_true_true, !Z.leb_le; lia).
    unfold answer. destruct (Z.leb_spec (ROUTE_MATCHING_STACK_SIZE - 2) k) as [Hdeep|Hdeep]; [exists w, (Some (c', k)); rewrite (proj2 (Z.leb_le _ _)) by done; by split_and!|].
    rewrite Hpc. replace (bool_decide (Some c' = Some c)) with (bool_decide (c' = c)) by (apply bool_decide_ext; split; congruence).
    assert (forall k', k' = k -> (ROUTE_MATCHING_STACK_SIZE - 2 <=? k') = false) as Ek by (intros k' ->; by apply Z.leb_gt).
    destruct (bool_decide (c' = c)) eqn:Ecc; cbn [negb]; [|exists w, (Some (c', k)); rewrite Ek, Ecc by done; by split_and!].
    destruct ok; cbn [negb]; [|exists w, (Some (c', k)); rewrite Ek, Ecc by done; by split_and!]. apply bool_decide_eq_true_1 in Ecc as ->. rewrite Hc in Hc'. injection Hc' as <-.
    destruct (pattern_compiles (b_pattern spec)) eqn:Epc; [|rewrite Hinit; exists w, (Some (c, k)); rewrite Ek, bool_decide_true by done; by split_and!].
    destruct Hinit as (r & -> & Hb & Hlk & Hok). destruct (link_inv l w F c t (Some p) r Hi Hl Hc Hlk) as (w' & E & Hi'); [by rewrite Hb|done| |].
    { intros ? [= <-]. exists (k + 1). split; [done|]. split; [done|lia]. }
    exists w', (Some (c, k)). rewrite Ek, bool_decide_true by done. rewrite E. cbn [negb]. by split_and!.
  - assert (ancestors (size w.(w_routes)) w.(w_routes) None = Some 0) as -> by (by destruct (size _)). cbn [mbind option_bind]. rewrite bool_decide_false by (by intros []). cbn [andb].
    rewrite bool_decide_true by done. cbn [negb]. unfold answer. destruct ok; cbn [negb]; [|exists w, None; by split_and!].
    destruct (pattern_compiles (b_pattern spec)) eqn:Epc; [|rewrite Hinit; exists w, None; by split_and!].
    destruct Hinit as (r & -> & Hb & Hlk & Hok). destruct (link_inv l w F c t None r Hi Hl Hc Hlk) as (w' & E & Hi'); [by rewrite Hb|done|done|].
    exists w', None. by split_and!.
Qed.

(** ** Scripts of registrations *)

Inductive reg_call :=
| Create (ok : bool) (c : cid) (l : rloc) (spec : option wf_route)
| Route (ok : bool) (l : rloc) (spec : wf_route).

Definition call w (x : reg_call) : option (@wfs re * (rloc + wf_error)) :=
  match x with
  | Create ok c l spec => iwn_wf_create re_create ok c l w spec
  | Route ok l spec => iwn_wf_route re_create ok l w spec
  end.

Definition root_spec (spec : option wf_route) : wf_route := default (mkWfRoute None None None 0 None) spec.

(** Blocks of memory are new; pointers the application passes are the ones it was given. *)
Definition legal w (x : reg_call) : Prop :=
  match x with
  | Create _ c l spec => w.(w_roots) !! c = None /\ w.(w_routes) !! l = None /\ small_pattern (root_spec spec) /\ (root_spec spec).(b_parent) = None
  | Route _ l spec => w.(w_routes) !! l = None /\ small_pattern spec /\ (forall p, spec.(b_parent) = Some p -> is_Some (w.(w_routes) !! p)) /\
      (forall c, spec.(b_ctx) = Some c -> is_Some (w.(w_roots) !! c))
  end.

Definition trees_after F (x : reg_call) (res : rloc + wf_error) : gmap cid tree :=
  match res, x with
  | inr _, _ => F
  | inl _, Create _ c l _ => <[c := Node l []]> F
  | inl _, Route _ l spec => grow F (default 1%positive spec.(b_ctx)) spec.(b_parent) l
  end.

Definition expected F (x : reg_call) (res : rloc + wf_error) : Prop :=
  match x with
  | Create ok c l spec => res = answer ok l c (root_spec spec).(b_pattern) None
  | Route ok l spec =>
      if decide (spec.(b_parent) = None /\ spec.(b_ctx) = None) then res = inr IW_ERROR_INVALID_ARGS
      else exists at_ c, parent_at F spec.(b_parent) at_ /\ (spec.(b_ctx) = Some c \/ spec.(b_ctx) = None /\ fst <$> at_ = Some c) /\
        res = answer ok l c spec.(b_pattern) at_
  end.

Lemma create_inv w F ok c l spec : wf_inv w F -> legal w (Create ok c l spec) ->
  exists w' res, call w (Create ok c l spec) = Some (w', res) /\ expected F (Create ok c l spec) res /\ wf_inv w' (trees_after F (Create ok c l spec) res).
Proof.
  intros Hi (Hc & Hl & Hsmall & Hpar). cbn [call expected]. unfold iwn_wf_create. fold (root_spec spec). set (sp := root_spec spec) in *.
  pose proof (route_init_spec (import_base sp c) sp.(b_parent) sp.(b_pattern) Hsmall) as Hinit. cbv zeta in Hinit.
  unfold _route_import. cbv zeta. change (b_pattern (import_base sp c)) with ((fun p => cstr p ++ [0]) <$> sp.(b_pattern)).
  change (b_parent (import_base sp c)) with (b_parent sp). cbn [w_routes]. rewrite Hpar in Hinit |- *.
  assert (ancestors (size w.(w_routes)) w.(w_routes) None = Some 0) as -> by (by destruct (size _)). cbn [mbind option_bind].
  rewrite bool_decide_false by (by intros []). cbn [andb mbind option_bind]. rewrite bool_decide_true by done. cbn [negb]. unfold answer.
  destruct ok; cbn [negb]; [|exists w, (inr IW_ERROR_ALLOC); by split_and!].
  destruct (pattern_compiles (b_pattern sp)) eqn:Epc; cbn [negb]; [|rewrite Hinit; exists w, (inr WF_ERROR_REGEXP_INVALID); by split_and!].
  destruct Hinit as (r & -> & Hb & [= Hlp Hlc Hln] & Hok). unfold route_link. cbn [w_roots w_routes]. rewrite lookup_insert_eq. cbn [mbind option_bind]. rewrite Hlp. cbn [mbind option_bind].
  rewrite insert_insert_eq. eexists _, (inl l). split; [rewrite Hlp; reflexivity|]. split; [done|]. cbn [trees_after].
  assert (forall c' t', F !! c' = Some t' -> l ∉ locs t') as Hlt'.
  { intros c' t' Hc' Hx. destruct (inv_tree _ _ Hi _ _ Hc') as (? & ? & _ & _ & _ & _ & H'). destruct (H' l Hx) as (? & ? & _). congruence. }
  split; cbn [w_routes w_roots].
  - intros c' t'. destruct (decide (c' = c)) as [->|Hcc].
    + rewrite !lookup_insert_eq. intros [= <-]. exists l, []. split; [done|]. split; [done|]. split; [|split; [apply NoDup_singleton|]].
      * apply sibs_leaf; [|done]. exists r. split; [apply lookup_insert_eq|]. unfold links. by rewrite Hlp, Hlc, Hln.
      * intros x Hx. cbn [locs mbind list_bind] in Hx. apply list_elem_of_singleton in Hx as ->. exists r. split; [apply lookup_insert_eq|by rewrite Hb].
    + rewrite !lookup_insert_ne by done. intros Hc'. destruct (inv_tree _ _ Hi _ _ Hc') as (root & kids & -> & Hr & Hs & Hnd & Hin).
      assert (forall x, x ∈ locs (Node root kids) -> <[l := r]> w.(w_routes) !! x = w.(w_routes) !! x) as Hsame by (intros x Hx; apply lookup_insert_ne; intros ->; by eapply Hlt').
      exists root, kids. split; [done|]. split; [done|]. split; [|split; [done|]].
      * eapply sibs_same; [done|]. intros x Hx. rewrite locs_single in Hx. by rewrite Hsame.
      * intros x Hx. rewrite Hsame by done. by apply Hin.
  - intros c' Hc'. destruct (decide (c' = c)) as [->|Hcc]; [rewrite lookup_insert_eq; eauto|]. rewrite lookup_insert_ne in Hc' by done. rewrite lookup_insert_ne by done. by apply (inv_roots _ _ Hi).
  - intros x rx Hx. destruct (decide (x = l)) as [->|Hxl].
    + rewrite lookup_insert_eq in Hx. injection Hx as <-. split; [done|]. exists c, (Node l []). split; [apply lookup_insert_eq|]. cbn [locs]. by left.
    + rewrite lookup_insert_ne in Hx by done. destruct (inv_route _ _ Hi _ _ Hx) as (Hokx & c' & t' & Hc' & Hx'). split; [done|]. exists c', t'. split; [|done].
      rewrite lookup_insert_ne; [done|]. intros ->. destruct (inv_tree _ _ Hi _ _ Hc') as (? & ? & _ & Hr' & _). congruence.
Qed.

Lemma route_inv w F ok l spec : wf_inv w F -> legal w (Route ok l spec) ->
  exists w' res, call w (Route ok l spec) = Some (w', res) /\ expected F (Route ok l spec) res /\ wf_inv w' (trees_after F (Route ok l spec) res).
Proof.
  intros Hi (Hl & Hsmall & Hpar & Hctx). cbn [call expected]. unfold iwn_wf_route. destruct (b_parent spec) as [p|] eqn:Ep.
  - destruct (Hpar p eq_refl) as [rp Hp]. rewrite Hp. cbn [mbind option_bind]. destruct (inv_ancestors _ _ _ _ Hi Hp) as (c' & t' & k & Hc' & Hpt & Hpc & _).
    set (rp' := {| rp with rt_base := {| rp.(rt_base) with b_flags := Z.lor rp.(rt_base).(b_flags) IWN_WF_MATCH_PREFIX |} |}).
    pose proof (inv_update w F p rp rp' Hi Hp ltac:(by split_and!)) as Hi1. set (w1 := {| w with w_routes := <[p := rp']> w.(w_routes) |}) in *. cbn [w_routes].
    assert (exists c t, F !! c = Some t /\ (match spec.(b_ctx) with Some c => Some (Some c) | None => find_ctx (size w1.(w_routes)) w1.(w_routes) (Some p) end) = Some (Some c) /\
      (spec.(b_ctx) = Some c \/ spec.(b_ctx) = None /\ c = c')) as (c & t & Hc & -> & Hcase).
    { destruct (b_ctx spec) as [c|]; [destruct (inv_roots _ _ Hi c (Hctx c eq_refl)) as [t Ht]; exists c, t; split; [done|]; split; [done|by left]|].
      exists c', t'. split; [done|]. split; [|by right]. cbn [w1 w_routes]. destruct (size _) as [|n] eqn:Es; [apply map_size_empty_iff in Es; by apply insert_non_empty in Es|].
      cbn [find_ctx]. rewrite lookup_insert_eq. cbn [mbind option_bind rt_base b_ctx]. unfold rp'. cbn [rt_base b_ctx]. by rewrite Hpc. }
    cbn [mbind option_bind]. destruct (import_inv ok l w1 F spec c t Hi1) as (w' & at_ & E & Hat & Hi'); [|done|done| |].
    + cbn [w1 w_routes]. rewrite lookup_insert_ne; [done|]. congruence.
    + intros x Hx. rewrite Ep in Hx. injection Hx as <-. cbn [w1 w_routes]. rewrite lookup_insert_eq. eauto.
    + eexists w', _. split; [exact E|]. rewrite decide_False by (by intros []). split; [exists at_, c; rewrite Ep in Hat; split; [done|split; [|done]]|].
      * destruct Hcase as [?|[? ->]]; [by left|]. right. split; [done|]. destruct at_ as [[c2 k2]|]; [|done]. destruct Hat as (t2 & Hc2 & Hp2 & _). cbn. f_equal. exact (inv_disjoint w F c2 c' t2 t' p Hi Hc2 Hc' Hp2 Hpt).
      * cbn [trees_after]. destruct (answer _ _ _ _ _) as [l'|]; [|done]. rewrite Ep in Hi'. cbn [grow] in Hi'. unfold trees_after. by rewrite Ep.
  - cbn [mbind option_bind]. destruct (b_ctx spec) as [c|] eqn:Ec.
    + cbn [mbind option_bind]. destruct (inv_roots _ _ Hi c (Hctx c eq_refl)) as [t Ht].
      destruct (import_inv ok l w F spec c t Hi Hl Hsmall Ht) as (w' & at_ & E & Hat & Hi'); [intros ? ?; congruence|]. rewrite Ep in Hat, Hi'.
      eexists w', _. split; [exact E|]. rewrite decide_False by (by intros [_ [=]]). split; [exists at_, c; split; [done|split; [by left|done]]|]. unfold trees_after. destruct (answer _ _ _ _ _); [by rewrite Ep, Ec|done].
    + assert (find_ctx (size w.(w_routes)) w.(w_routes) None = Some None) as -> by (by destruct (size _)). cbn [mbind option_bind].
      eexists _, _. split; [reflexivity|]. by rewrite decide_True by done.
Qed.

(** The states registration can lead to, with the trees they stand for. *)
Inductive registered : @wfs re -> gmap cid tree -> Prop :=
| reg_none : registered (mkWfs ∅ ∅) ∅
| reg_step w F x w' res : registered w F -> legal w x -> call w x = Some (w', res) -> registered w' (trees_after F x res).

Lemma call_inv w F x : wf_inv w F -> legal w x -> exists w' res, call w x = Some (w', res) /\ expected F x res /\ wf_inv w' (trees_after F x res).
Proof. destruct x; [apply create_inv|apply route_inv]. Qed.

Lemma registered_inv w F : registered w F -> wf_inv w F.
Proof.
  induction 1 as [|w F x w' res _ IH Hx E].
  - split; cbn [w_routes w_roots]; intros *; rewrite ?lookup_empty; done || by intros [].
  - destruct (call_inv w F x IH Hx) as (w2 & res2 & E2 & _ & Hi). congruence.
Qed.
End Registration.

(** C22. Registering routes keeps every context a tree: from the state without contexts, any legal
    call of [iwn_wf_create] or [iwn_wf_route] returns (no invalid pointer is followed, the loops over
    parents and siblings end), answers with the route or with the error its arguments call for, and
    leads to pointers that stand for the trees in which the new route is the last child of its parent
    (of the root when it names none), no deeper than the stack of the iterator. *)
Theorem registration_forest {re} (re_create : list Z -> option re) w F x :
  registered re_create w F -> legal w x ->
  exists w' res, call re_create w x = Some (w', res) /\ expected re_create F x res /\ wf_inv w F /\ wf_inv w' (trees_after F x res).
Proof.
  intros Hr Hx. pose proof (registered_inv _ _ _ Hr) as Hi. destruct (call_inv re_create w F x Hi Hx) as (w' & res & E & He & Hi'). by exists w', res.
Qed.

(** C23. The route iterator is a depth first search: over the routes of a context that registration
    built, [_route_iter_init] and repeated calls of [_route_iter_next] return, never leave the stack
    of the iterator or the buffer of the path, and give exactly the routes of the reference traversal
    [dfs_all], in its order, with [path_matched], [path_unmatched] and the submatches of the request
    as that traversal has them; a call takes at most two turns of the loop for every route. *)
Theorem route_iter_dfs {re} (re_create : list Z -> option re) (re_match : re -> list Z -> list (Z * Z)) w F c root kids q flags path path_len :
  re_ok re_match -> registered re_create w F -> F !! c = Some (Node root kids) -> q.(q_ctx) = c -> on_path flags path path_len q ->
  let '(vs, sm) := dfs_all (mf re_match flags path path_len w.(w_routes)) (has_handler w.(w_routes)) 0 q.(q_submatches) kids in
  exists q0 q', _route_iter_init w q = Some q0 /\
    iter_all re_match w.(w_routes) (S (length vs)) (2 * sum_list_with tsize kids + 3) q0 = Some (vs, q') /\ q'.(q_submatches) = sm.
Proof.
  intros Hre Hreg HF Hq Hp. pose proof (registered_inv _ _ _ Hreg) as Hi. destruct (inv_forest _ _ _ _ _ Hi HF) as [Hroot (r & Hr & Hnx & Hk) Hok].
  assert (exists q0, _route_iter_init w q = Some q0) as [q0 E0] by (unfold _route_iter_init; rewrite Hq, Hroot; cbn; eauto).
  destruct (root_turns re_match flags path path_len w.(w_routes) Hre Hok w q q0 root r kids E0 eq_refl) as (n & vs & q' & T & Hc & Hn & Hv & _); [by rewrite Hq|done..|].
  rewrite <- Hv. exists q0, q'. split; [done|]. split; [|done]. eapply iter_all_turns; [done|lia|lia].
Qed.

(** ** Examples *)

(** A small site: [/a] with a child [/b], and a regular expression that here stands for itself. *)
Definition site_spec (parent : option rloc) (pattern : string) (h : Z) : wf_route := mkWfRoute (Some 1%positive) parent (Some (bytes_of_string pattern)) 0 (Some h).
Definition lit_match (x w : list Z) : list (Z * Z) := if bool_decide (x `prefix_of` w) then [(0, zlen x)] else [].
Abbreviation lit_create := (fun p : list Z => Some p).

Definition site_calls : list reg_call :=
  [Create true 1 10 None; Route true 11 (site_spec None "/a" 1); Route true 12 (site_spec (Some 11%positive) "/b" 2); Route true 13 (site_spec None "^/a" 3)].

Definition legalb (w : @wfs (list Z)) (x : reg_call) : bool :=
  match x with
  | Create _ c l spec => bool_decide (w.(w_roots) !! c = None) && negb (bool_decide (is_Some (w.(w_routes) !! l))) &&
      (zlen (cstr (default [] (root_spec spec).(b_pattern))) <? 2 ^ 31) && bool_decide ((root_spec spec).(b_parent) = None)
  | Route _ l spec => negb (bool_decide (is_Some (w.(w_routes) !! l))) && (zlen (cstr (default [] spec.(b_pattern))) <? 2 ^ 31) &&
      match spec.(b_parent) with Some p => bool_decide (is_Some (w.(w_routes) !! p)) | None => true end &&
      match spec.(b_ctx) with Some c => bool_decide (is_Some (w.(w_roots) !! c)) | None => true end
  end.

Lemma legalb_legal w x : legalb w x = true -> legal w x.
Proof.
  assert (forall A (o : option A), ~ is_Some o -> o = None) as Hno by (intros A [a|] H; [destruct H; eauto|done]).
  destruct x as [ok c l spec|ok l spec]; cbn [legalb legal]; unfold small_pattern.
  - rewrite !andb_true_iff, negb_true_iff, Z.ltb_lt, !bool_decide_eq_true, bool_decide_eq_false. intros [[[? ?%Hno] ?] ?]. done.
  - rewrite !andb_true_iff, negb_true_iff, Z.ltb_lt, bool_decide_eq_false. intros [[[?%Hno ?] Hp] Hc]. split; [done|]. split; [done|]. split.
    + intros p Ep. rewrite Ep in Hp. by apply bool_decide_eq_true_1 in Hp.
    + intros c Ec. rewrite Ec in Hc. by apply bool_decide_eq_true_1 in Hc.
Qed.

Fixpoint run_calls (w : @wfs (list Z)) (F : gmap cid tree) (xs : list reg_call) : option (@wfs (list Z) * gmap cid tree) :=
  match xs with
  | [] => Some (w, F)
  | x :: xs => if legalb w x then '(w', res) ← call lit_create w x; run_calls w' (trees_after F x res) xs else None
  end.

Lemma run_registered xs : forall w F w' F', registered lit_create w F -> run_calls w F xs = Some (w', F') -> registered lit_create w' F'.
Proof.
  induction xs as [|x xs IH]; intros w F w' F' Hr; cbn [run_calls]; [by intros [= <- <-]|]. destruct (legalb w x) eqn:Hx; [|done].
  destruct (call lit_create w x) as [[w1 res]|] eqn:E; [|done]. cbn [mbind option_bind]. apply IH. eapply reg_step; [done|by apply legalb_legal|done].
Qed.

Definition site : @wfs (list Z) * gmap cid tree := default (mkWfs ∅ ∅, ∅) (run_calls (mkWfs ∅ ∅) ∅ site_calls).

Lemma site_registered : registered lit_create site.1 site.2.
Proof. eapply (run_registered site_calls); [constructor|]. by vm_compute. Qed.

Lemma registration_forest_witness :
  exists w' res, call lit_create site.1 (Route true 14 (site_spec (Some 12%positive) "/c" 4)) = Some (w', res) /\
    expected lit_create site.2 (Route true 14 (site_spec (Some 12%positive) "/c" 4)) res /\ wf_inv site.1 site.2 /\
    wf_inv w' (trees_after site.2 (Route true 14 (site_spec (Some 12%positive) "/c" 4)) res).
Proof. apply (registration_forest lit_create site.1 site.2); [apply site_registered|apply legalb_legal; by vm_compute]. Defined.

Definition site_request : request := mkRequest 1 IWN_WF_GET (bytes_of_string "/a/b" ++ [0]) 4 0 0 [] (mkIter 0 0 [] []).

Lemma route_iter_dfs_witness :
  exists q0 q', _route_iter_init site.1 site_request = Some q0 /\
    iter_all lit_match site.1.(w_routes) 3 9 q0 = Some ([mkVisit 11 0 2 []; mkVisit 12 2 4 []], q') /\ q'.(q_submatches) = [].
Proof.
  refine (route_iter_dfs lit_create lit_match site.1 site.2 1%positive 10%positive [Node 11 [Node 12 []]; Node 13 []] site_request IWN_WF_GET (bytes_of_string "/a/b") 4 _ _ _ _ _).
  - intros x w s e subs. unfold lit_match. destruct (bool_decide_reflect (x `prefix_of` w)) as [Hp%prefix_length|]; [|done]. intros [= <- <- <-].
    pose proof (zlen_nonneg x). unfold zlen in *. lia.
  - apply site_registered.
  - by vm_compute.
  - done.
  - split; [done|by exists []|by apply (bool_decide_eq_true_1 (Forall _ _))|done].
Defined.
