(* ===== verification/WfQuery.v ===== *)
(** * WfQuery: queries and url-encoded forms ([_request_parse_query_inplace] of [src/src/http/iwn_wf.c])

    The text is cut and decoded in place: the pairs hold pointers into the same buffer, so the
    model keeps the buffer and offsets.  Allocations from the pool of the request succeed. *)
From S2P Require Import Prelude Codec WfRoute.

(** ** Model *)

(** A pair added by [iwn_pair_add_pool]; the value pointer is [None] for the literal [""]. *)
Record qpair := mkQpair { k_ptr : Z; k_len : Z; v_ptr : option Z; v_len : Z }.

Definition strlen_at (buf : list Z) (p : Z) : option Z := r ← strchr buf p 0; i ← r; Some (i - p).

(** [iwn_url_decode_inplace] of the string at [p]. *)
Definition url_decode_at (buf : list Z) (p : Z) : option (list Z) :=
  s ← from_ptr buf p; s ← iwn_url_decode_inplace s; Some (take (Z.to_nat p) buf ++ s).

(** [iwn_url_decode_inplace(key); iwn_pair_add_pool(pool, pairs, key, -1, "", 0)] *)
Definition add_key (buf : list Z) (key : Z) (acc : list qpair) : option (list Z * list qpair) :=
  buf ← url_decode_at buf key; n ← strlen_at buf key; Some (buf, acc ++ [mkQpair key n None 0]).

(** The same with the value at [val]. *)
Definition add_key_val (buf : list Z) (key val : Z) (acc : list qpair) : option (list Z * list qpair) :=
  buf ← url_decode_at buf key; buf ← url_decode_at buf val;
  n ← strlen_at buf key; m ← strlen_at buf val; Some (buf, acc ++ [mkQpair key n (Some val) m]).

(** Behind the loop: what is left is a pair, unless it is an empty key. *)
Definition query_end (buf : list Z) (key val : Z) (state : bool) (acc : list qpair) : option (list Z * list qpair) :=
  if state then add_key_val buf key val acc
  else c ← rd buf key; if c =? 0 then Some (buf, acc) else add_key buf key acc.

Fixpoint query_loop (fuel : nat) (buf : list Z) (p ep key val : Z) (state : bool) (acc : list qpair) : option (list Z * list qpair) :=
  if p <? ep then
    match fuel with
    | O => None
    | S fuel =>
        c ← rd buf p;
        if state then
          if c =? 38 then
            buf ← wr buf p 0; '(buf, acc) ← add_key_val buf key val acc;
            query_loop fuel buf (p + 1) ep (p + 1) val false acc
          else query_loop fuel buf (p + 1) ep key val state acc
        else if c =? 61 then
          buf ← wr buf p 0; query_loop fuel buf (p + 1) ep key (p + 1) true acc
        else if c =? 38 then
          buf ← wr buf p 0; '(buf, acc) ← add_key buf key acc;
          query_loop fuel buf (p + 1) ep (p + 1) val false acc
        else query_loop fuel buf (p + 1) ep key val state acc
    end
  else query_end buf key val state acc.

(** The text is the [len] bytes at [p] of [buf]; [acc] are the pairs the chain has already. *)
Definition _request_parse_query_inplace (buf : list Z) (p : option Z) (len : Z) (acc : list qpair) : option (list Z * list qpair) :=
  match p with
  | None => Some (buf, acc)
  | Some p => if len =? 0 then Some (buf, acc) else query_loop (Z.to_nat len) buf p (p + len) p 0 false acc
  end.

(** ** Reference *)

(** A key with a value or without one, and its text. *)
Abbreviation kv := (list Z * option (list Z))%type.
Definition print_kv (x : kv) : list Z := pct_encode x.1 ++ match x.2 with Some v => 61 :: pct_encode v | None => [] end.
Fixpoint print_query (l : list kv) : list Z :=
  match l with [] => [] | [x] => print_kv x | x :: l => print_kv x ++ 38 :: print_query l end.

Definition text_ok (w : list Z) : Prop := bytes_ok w /\ Forall (fun c => c <> 0) w.
Definition kv_ok (x : kv) : Prop := text_ok x.1 /\ match x.2 with Some v => text_ok v | None => x.1 <> [] end.

(** The C string at [p] is [w]. *)
Definition str_at (buf : list Z) (p : Z) (w : list Z) : Prop := exists l r, buf = l ++ w ++ 0 :: r /\ zlen l = p.
Definition kv_at (buf : list Z) (q : qpair) (x : kv) : Prop :=
  str_at buf q.(k_ptr) x.1 /\ q.(k_len) = zlen x.1 /\
  match x.2 with
  | Some v => exists vp, q.(v_ptr) = Some vp /\ str_at buf vp v /\ q.(v_len) = zlen v
  | None => q.(v_ptr) = None /\ q.(v_len) = 0
  end.

(** ** Lemmas *)

Lemma str_at_app l r p w : str_at l p w -> str_at (l ++ r) p w.
Proof. intros (a & b & -> & Hp). exists a, (b ++ r). split; [|done]. by rewrite <- !app_assoc. Qed.

Lemma kv_at_app l r q x : kv_at l q x -> kv_at (l ++ r) q x.
Proof.
  intros (Hk & Hl & Hv). split; [by apply str_at_app|]. split; [done|]. destruct x.2; [|done]. destruct Hv as (vp & E & Hs & Hn). exists vp. split; [done|]. split; [by apply str_at_app|done].
Qed.

Lemma strlen_app l w r : Forall (fun c => c <> 0) w -> strlen_at (l ++ w ++ 0 :: r) (zlen l) = Some (zlen w).
Proof.
  intros Hw. unfold strlen_at. rewrite strchr_stop; [|by eapply Forall_impl; [exact Hw|]|by left]. cbn [Z.eqb mbind option_bind]. f_equal. lia.
Qed.

Lemma decode_at_app l w r : bytes_ok w -> exists g, url_decode_at (l ++ pct_encode w ++ 0 :: r) (zlen l) = Some (l ++ w ++ 0 :: g ++ r) /\
  zlen w + zlen g = zlen (pct_encode w).
Proof.
  intros Hw. unfold url_decode_at, from_ptr, iwn_url_decode_inplace. pose proof (zlen_nonneg l). rewrite zlen_app. pose proof (zlen_nonneg (pct_encode w ++ 0 :: r)).
  rewrite (proj2 (Z.ltb_ge _ 0)), (proj2 (Z.ltb_ge _ (zlen l))) by lia. cbn [orb mbind option_bind]. replace (Z.to_nat (zlen l)) with (length l) by (unfold zlen; lia). rewrite drop_app_length, take_app_length.
  pose proof (pct_encode_longer w).
  destruct (decode_loop_spec (length (pct_encode w ++ 0 :: r)) w [] [] r Hw) as (g & E & Hg); [rewrite length_app; lia|].
  exists g. change (zlen []) with 0 in E, Hg. cbn [app] in E. change (0 + 0) with 0 in E. rewrite E. split; [done|lia].
Qed.

Lemma pct_plain w : bytes_ok w -> Forall (fun c => c <> 61 /\ c <> 38 /\ c <> 0) (pct_encode w).
Proof.
  intros Hw. unfold pct_encode. induction Hw as [|c w Hc _ IH]; csimpl; [constructor|]. apply Forall_app. split; [|done].
  assert (forallb (fun c => negb (c =? 61) && negb (c =? 38) && negb (c =? 0)) (pct escape_seq c) = true) as E.
  { revert c Hc. apply (all_bytes_spec (fun c => forallb (fun c => negb (c =? 61) && negb (c =? 38) && negb (c =? 0)) (pct escape_seq c))). by vm_compute. }
  rewrite forallb_forall in E. apply Forall_forall. intros x Hx%list_elem_of_In. apply E in Hx. rewrite !andb_true_iff, !negb_true_iff, !Z.eqb_neq in Hx. tauto.
Qed.

(** The loop passes over characters that mean nothing in its state. *)
Lemma query_skip w : forall fuel l r ep key val (state : bool) acc,
  Forall (fun c => (state = true \/ c <> 61) /\ c <> 38) w -> zlen l + zlen w <= ep ->
  query_loop (length w + fuel) (l ++ w ++ r) (zlen l) ep key val state acc = query_loop fuel (l ++ w ++ r) (zlen l + zlen w) ep key val state acc.
Proof.
  induction w as [|c w IH]; intros fuel l r ep key val state acc Hw Hep.
  { change (zlen (@nil Z)) with 0. by rewrite Z.add_0_r. }
  apply Forall_cons in Hw as [[Hs Hc] Hw]. rewrite zlen_cons in Hep. pose proof (zlen_nonneg w). cbn [length Nat.add query_loop app].
  rewrite (proj2 (Z.ltb_lt _ _)) by lia. rewrite rd_middle. cbn [mbind option_bind]. rewrite (proj2 (Z.eqb_neq c 38) Hc).
  specialize (IH fuel (l ++ [c]) r ep key val state acc Hw). rewrite zlen_app in IH. change (zlen [c]) with 1 in IH. rewrite <- app_assoc in IH. cbn [app] in IH.
  rewrite zlen_cons, Z.add_assoc. destruct state; [apply IH; lia|]. destruct Hs as [?|Hs]; [done|]. rewrite (proj2 (Z.eqb_neq c 61) Hs). apply IH. lia.
Qed.

(** A pair when the loop has passed over it: [=] has become a terminator. *)
Definition has_val (x : kv) : bool := match x.2 with Some _ => true | None => false end.
Definition cut_kv (x : kv) : list Z := pct_encode x.1 ++ match x.2 with Some v => 0 :: pct_encode v | None => [] end.
Definition val_ptr (l : list Z) (x : kv) : Z := match x.2 with Some _ => zlen l + zlen (pct_encode x.1) + 1 | None => 0 end.

Lemma cut_kv_length x : zlen (cut_kv x) = zlen (print_kv x).
Proof. unfold cut_kv, print_kv. rewrite !zlen_app. by destruct x.2; rewrite ?zlen_cons. Qed.

Lemma plain_skip (state : bool) w : bytes_ok w -> Forall (fun c => (state = true \/ c <> 61) /\ c <> 38) (pct_encode w).
Proof. intros Hw. eapply Forall_impl; [by apply pct_plain|]. intros c (? & ? & _). split; [by right|done]. Qed.

Lemma query_pair x fuel l r ep acc : kv_ok x -> zlen l + zlen (print_kv x) <= ep ->
  query_loop (length (print_kv x) + fuel) (l ++ print_kv x ++ r) (zlen l) ep (zlen l) 0 false acc =
  query_loop fuel (l ++ cut_kv x ++ r) (zlen l + zlen (print_kv x)) ep (zlen l) (val_ptr l x) (has_val x) acc.
Proof.
  destruct x as [k [v|]]; intros [[Hk _] Hv] Hep; unfold print_kv, cut_kv, val_ptr, has_val in *; cbn [fst snd] in *; rewrite ?zlen_app, ?zlen_cons in Hep.
  - destruct Hv as [Hv _]. pose proof (zlen_nonneg (pct_encode v)). rewrite length_app. cbn [length]. rewrite <- Nat.add_assoc. rewrite <- !app_assoc. cbn [app].
    rewrite query_skip by (by apply plain_skip || lia). cbn [Nat.add query_loop]. rewrite (proj2 (Z.ltb_lt _ _)) by lia.
    rewrite (app_assoc l), <- zlen_app, rd_middle. cbn [mbind option_bind Z.eqb]. rewrite wr_middle. cbn [mbind option_bind Pos.eqb].
    pose proof (query_skip (pct_encode v) fuel ((l ++ pct_encode k) ++ [0]) r ep (zlen l) (zlen (l ++ pct_encode k) + 1) true acc) as E.
    rewrite (zlen_app (l ++ pct_encode k) [0]) in E. change (zlen [0]) with 1 in E. rewrite <- (app_assoc (l ++ pct_encode k) [0]) in E. cbn [app] in E.
    rewrite E by (by apply plain_skip || (rewrite zlen_app; lia)). rewrite <- (app_assoc l). cbn [app]. rewrite !zlen_app, zlen_cons. feq.
  - rewrite !app_nil_r. apply query_skip; [by apply plain_skip|]. change (zlen (@nil Z)) with 0 in Hep. lia.
Qed.

Lemma kv_added x l r acc : kv_ok x -> exists m q,
  (if has_val x then add_key_val (l ++ cut_kv x ++ 0 :: r) (zlen l) (val_ptr l x) acc else add_key (l ++ cut_kv x ++ 0 :: r) (zlen l) acc) =
    Some ((l ++ m) ++ r, acc ++ [q]) /\ kv_at (l ++ m) q x /\ zlen m = zlen (print_kv x) + 1.
Proof.
  destruct x as [k [v|]]; intros [[Hk Hk0] Hv]; unfold print_kv, cut_kv, val_ptr, has_val; cbn [fst snd] in *.
  - destruct Hv as [Hv Hv0]. unfold add_key_val. rewrite <- app_assoc. cbn [app].
    destruct (decode_at_app l k (pct_encode v ++ 0 :: r) Hk) as (g & -> & Hg). cbn [mbind option_bind].
    assert (zlen l + zlen (pct_encode k) + 1 = zlen (l ++ k ++ 0 :: g)) as -> by (rewrite !zlen_app, zlen_cons; lia).
    replace (l ++ k ++ 0 :: g ++ pct_encode v ++ 0 :: r) with ((l ++ k ++ 0 :: g) ++ pct_encode v ++ 0 :: r) by (by rewrite <- !app_assoc).
    destruct (decode_at_app (l ++ k ++ 0 :: g) v r Hv) as (g2 & -> & Hg2). cbn [mbind option_bind].
    assert (strlen_at ((l ++ k ++ 0 :: g) ++ v ++ 0 :: g2 ++ r) (zlen l) = Some (zlen k)) as ->.
    { rewrite <- !app_assoc. cbn [app]. by rewrite strlen_app. }
    cbn [mbind option_bind]. rewrite strlen_app by done. cbn [mbind option_bind].
    exists (k ++ 0 :: g ++ v ++ 0 :: g2), (mkQpair (zlen l) (zlen k) (Some (zlen (l ++ k ++ 0 :: g))) (zlen v)). split; [repeat (f_equal; try (by rewrite <- !app_assoc; cbn [app]; rewrite <- !app_assoc))|].
    split; [|rewrite !zlen_app, !zlen_cons, !zlen_app, !zlen_cons; lia]. split; [by exists l, (g ++ v ++ 0 :: g2)|]. split; [done|]. cbn [snd]. eexists. split; [reflexivity|]. split; [|done].
    exists (l ++ k ++ 0 :: g), g2. split; [by rewrite <- !app_assoc|done].
  - rewrite !app_nil_r. unfold add_key. destruct (decode_at_app l k r Hk) as (g & -> & Hg). cbn [mbind option_bind]. rewrite strlen_app by done. cbn [mbind option_bind].
    exists (k ++ 0 :: g), (mkQpair (zlen l) (zlen k) None 0). split; [by rewrite <- !app_assoc|]. split; [|rewrite !zlen_app, !zlen_cons; lia].
    split; [by exists l, g|]. done.
Qed.

(** Outside of a value the pointer to the value does not matter. *)
Lemma query_val fuel : forall buf p ep key val val' acc,
  query_loop fuel buf p ep key val false acc = query_loop fuel buf p ep key val' false acc.
Proof.
  induction fuel as [|fuel IH]; intros buf p ep key val val' acc; cbn [query_loop]; [done|]. destruct (p <? ep); [|done].
  destruct (rd buf p) as [c|]; [|done]. cbn [mbind option_bind]. destruct (c =? 61); [done|]. destruct (c =? 38); [|by apply IH].
  destruct (wr buf p 0) as [b|]; [|done]. cbn [mbind option_bind]. destruct (add_key b key acc) as [[b2 acc2]|]; [|done]. cbn [mbind option_bind]. by apply IH.
Qed.

Lemma query_loop_spec xs : forall fuel l r acc, xs <> [] -> Forall kv_ok xs -> (length (print_query xs) <= fuel)%nat ->
  exists m qs, query_loop fuel (l ++ print_query xs ++ 0 :: r) (zlen l) (zlen l + zlen (print_query xs)) (zlen l) 0 false acc = Some ((l ++ m) ++ r, acc ++ qs) /\
    Forall2 (kv_at (l ++ m)) qs xs /\ zlen m = zlen (print_query xs) + 1.
Proof.
  induction xs as [|x xs IH]; intros fuel l r acc Hne Hok Hf; [done|]. apply Forall_cons in Hok as [Hx Hok]. destruct xs as [|y xs].
  - cbn [print_query] in *. destruct (kv_added x l r acc Hx) as (m & q & E & Hq & Hm). exists m, [q]. split; [|split; [constructor; [done|constructor]|done]].
    replace fuel with (length (print_kv x) + (fuel - length (print_kv x)))%nat by lia. rewrite query_pair by (done || lia).
    assert (forall F, query_loop F (l ++ cut_kv x ++ 0 :: r) (zlen l + zlen (print_kv x)) (zlen l + zlen (print_kv x)) (zlen l) (val_ptr l x) (has_val x) acc =
      query_end (l ++ cut_kv x ++ 0 :: r) (zlen l) (val_ptr l x) (has_val x) acc) as -> by (intros F; destruct F; cbn [query_loop]; by rewrite Z.ltb_irrefl).
    unfold query_end. rewrite <- E. destruct (has_val x) eqn:Ev; [done|]. destruct x as [k [v|]]; [done|]. destruct Hx as [[Hk _] Hk1]. unfold cut_kv in *. cbn [fst snd] in *.
    destruct k as [|c k]; [done|]. apply Forall_cons in Hk as [Hc _]. destruct (piece_head _ _ (piece_pct c Hc)) as (z & w & Ez & Hz). unfold pct_encode in *. csimpl. rewrite Ez. cbn [app]. rewrite rd_middle. cbn [mbind option_bind].
    by rewrite (proj2 (Z.eqb_neq z 0) Hz).
  - change (print_query (x :: y :: xs)) with (print_kv x ++ 38 :: print_query (y :: xs)) in *. set (t := print_query (y :: xs)) in *.
    rewrite length_app in Hf. cbn [length] in Hf. rewrite zlen_app, zlen_cons. pose proof (zlen_nonneg t).
    replace fuel with (length (print_kv x) + S (fuel - length (print_kv x) - 1))%nat by lia. rewrite <- app_assoc. cbn [app]. rewrite query_pair by (done || lia).
    cbn [query_loop]. rewrite (proj2 (Z.ltb_lt _ _)) by lia.
    replace (zlen l + zlen (print_kv x)) with (zlen (l ++ cut_kv x)) by (rewrite zlen_app, cut_kv_length; lia).
    rewrite (app_assoc l), rd_middle. cbn [mbind option_bind Z.eqb Pos.eqb]. rewrite wr_middle. cbn [mbind option_bind]. rewrite <- app_assoc. cbn [app].
    destruct (kv_added x l (t ++ 0 :: r) acc Hx) as (m & q & E & Hq & Hm).
    assert (zlen (l ++ cut_kv x) + 1 = zlen (l ++ m)) as Hp by (rewrite !zlen_app, cut_kv_length; lia).
    destruct (IH (fuel - length (print_kv x) - 1)%nat (l ++ m) r (acc ++ [q])) as (m2 & qs & E2 & Hqs & Hm2); [done|done|lia|].
    exists (m ++ m2), (q :: qs).
    assert (query_loop (fuel - length (print_kv x) - 1) ((l ++ m) ++ t ++ 0 :: r) (zlen (l ++ cut_kv x) + 1) (zlen l + (zlen (print_kv x) + (1 + zlen t))) (zlen (l ++ cut_kv x) + 1) (val_ptr l x) false (acc ++ [q])
      = Some ((l ++ m ++ m2) ++ r, acc ++ q :: qs)) as E3.
    { rewrite Hp. replace (zlen l + (zlen (print_kv x) + (1 + zlen t))) with (zlen (l ++ m) + zlen t) by (rewrite zlen_app; lia).
      rewrite (query_val _ _ _ _ _ _ 0). rewrite E2. by rewrite <- !app_assoc. }
    split; [|split; [constructor; [rewrite app_assoc; by apply kv_at_app|by rewrite app_assoc]|rewrite zlen_app; lia]].
    destruct (has_val x) eqn:Ev; rewrite E; cbn [mbind option_bind]; exact E3.
Qed.

Lemma print_query_pos xs : xs <> [] -> Forall kv_ok xs -> 0 < zlen (print_query xs).
Proof.
  intros Hne Hok. destruct xs as [|x xs]; [done|]. pose proof (zlen_nonneg (print_query (x :: xs))) as H0. destruct (Z.eq_dec (zlen (print_query (x :: xs))) 0) as [E|E]; [|lia]. exfalso.
  destruct xs as [|y xs]; cbn [print_query] in E; [|rewrite zlen_app, zlen_cons in E; pose proof (zlen_nonneg (print_kv x)); pose proof (zlen_nonneg (print_query (y :: xs))); cbn [print_query] in *; lia].
  apply Forall_cons in Hok as [[[Hk _] Hv] _]. destruct x as [k [v|]]; unfold print_kv in E; cbn [fst snd] in *; rewrite zlen_app, ?zlen_cons in E.
  - pose proof (zlen_nonneg (pct_encode k)). pose proof (zlen_nonneg (pct_encode v)). lia.
  - destruct k as [|c k]; [done|]. pose proof (pct_encode_longer (c :: k)) as Hl. cbn [length] in Hl. change (zlen (@nil Z)) with 0 in E. unfold zlen in E. lia.
Qed.

Lemma query_reads (xs : list (list Z * option (list Z))) (l r : list Z) (acc : list qpair) :
  Forall kv_ok xs ->
  exists m qs, _request_parse_query_inplace (l ++ print_query xs ++ 0 :: r) (Some (zlen l)) (zlen (print_query xs)) acc = Some ((l ++ m) ++ r, acc ++ qs) /\
    Forall2 (kv_at (l ++ m)) qs xs /\ zlen m = zlen (print_query xs) + 1.
Proof.
  intros Hok. destruct xs as [|x xs].
  { exists [0], []. split; [|by split]. unfold _request_parse_query_inplace. cbn. by rewrite app_nil_r, <- app_assoc. }
  unfold _request_parse_query_inplace. pose proof (print_query_pos (x :: xs) ltac:(done) Hok). rewrite (proj2 (Z.eqb_neq (zlen (print_query (x :: xs))) 0)) by lia.
  apply query_loop_spec; [done|done|]. unfold zlen. lia.
Qed.

(** A query or a url-encoded form is read back as it was written: whatever the buffer it is
    in, [_request_parse_query_inplace] of the text of a list of keys with and without values adds
    exactly these pairs in their order, each key and value a zero terminated string in the same
    buffer, with its length; the bytes in front of the text and behind its terminator stay as they
    are. *)
Theorem query_roundtrip (xs : list (list Z * option (list Z))) (l r : list Z) (acc : list qpair) :
  Forall kv_ok xs ->
  exists m qs, _request_parse_query_inplace (l ++ print_query xs ++ 0 :: r) (Some (zlen l)) (zlen (print_query xs)) acc = Some ((l ++ m) ++ r, acc ++ qs) /\
    Forall2 (kv_at (l ++ m)) qs xs /\ zlen m = zlen (print_query xs) + 1.
Proof. apply query_reads. Qed.

Lemma query_roundtrip_witness :
  exists m qs, _request_parse_query_inplace (bytes_of_string "/p?" ++ bytes_of_string "a%20b=1&c&d=" ++ [0; 7]) (Some 3) 12 [] = Some ((bytes_of_string "/p?" ++ m) ++ [7], [] ++ qs) /\
    Forall2 (kv_at (bytes_of_string "/p?" ++ m)) qs [(bytes_of_string "a b", Some (bytes_of_string "1")); (bytes_of_string "c", None); (bytes_of_string "d", Some [])] /\
    zlen m = 13.
Proof.
  refine (query_roundtrip [(bytes_of_string "a b", Some (bytes_of_string "1")); (bytes_of_string "c", None); (bytes_of_string "d", Some [])]
    (bytes_of_string "/p?") [7] [] _).
  assert (forall w, bool_decide (bytes_ok w) && bool_decide (Forall (fun c => c <> 0) w) = true -> text_ok w) as Hw
    by (intros w [H1 H2]%andb_true_iff; split; [by apply bool_decide_eq_true_1 in H1|by apply bool_decide_eq_true_1 in H2]).
  repeat (apply Forall_cons; split; [split; [by apply Hw|by apply Hw || done]|]). constructor.
Defined.

(** A lone [%] in front of a separator takes the terminator for a digit: decoding the key of
    [a%=bcd] goes on into the value, which is then [d]. *)
Example percent_swallows_separator :
  ('(buf, qs) ← _request_parse_query_inplace (bytes_of_string "a%=bcd" ++ [0]) (Some 0) 6 [];
   Some (List.map (fun q => match q.(v_ptr) with Some p => slice buf p (p + q.(v_len)) | None => [] end) qs)) = Some [bytes_of_string "d"].
Proof. by vm_compute. Qed.
