(* ===== verification/WfHeader.v ===== *)
(** * WfHeader: header parameters and multipart forms of [src/src/http/iwn_wf.c]

    Everything works in place on one buffer: pointers are offsets into it, [None] of the outer
    option is an access outside of it.  An inner [None] is the null pointer the code returns when it
    refuses its input. *)
From S2P Require Import Prelude Codec WfRoute HttpParser.

(** ** Character classes *)

Definition _c_is_ctl (c : Z) : bool := (0 <=? c) && (c <=? 31).
(** [; , : = ? / \ DQUOTE @ ( ) < > [ ]] *)
Definition _c_is_tspecial (c : Z) : bool :=
  bool_decide (c ∈ [59; 44; 58; 61; 63; 47; 92; 34; 64; 40; 41; 60; 62; 91; 93]).
Definition _c_is_space (c : Z) : bool := (c =? 32) || (c =? 9).
Definition _c_is_token (c : Z) (is_value : bool) : bool :=
  if is_value && (_c_is_space c || (c =? 44)) then true else negb (_c_is_ctl c || _c_is_tspecial c).
Definition _c_is_lsep (c : Z) : bool := (c =? 13) || (c =? 10).

(** [strncasecmp(a, b, n) == 0] *)
Fixpoint strncasecmp_same (a b : list Z) (n : Z) : option bool :=
  if n <=? 0 then Some true
  else match a, b with
       | x :: a, y :: b => if lower x =? lower y then (if x =? 0 then Some true else strncasecmp_same a b (n - 1)) else Some false
       | _, _ => None
       end.
Definition strncasecmp_at (buf : list Z) (p : Z) (lit : string) (n : Z) : option bool :=
  s ← from_ptr buf p; strncasecmp_same s (bytes_of_string lit ++ [0]) n.
Definition strncmp_at (buf : list Z) (p : Z) (s2 : list Z) (n : Z) : option bool :=
  s ← from_ptr buf p; strncmp_same s s2 n.

(** ** Parameters *)

(** The fields of [struct iwn_pair] a parameter fills: key and value, pointer and length. *)
Record param := mkParam { pk : Z; pk_len : Z; pv : option Z; pv_len : Z }.

(** [_header_parse_skip_name]: the position of the colon behind a name. *)
Fixpoint skip_name_loop (fuel : nat) (buf : list Z) (sp rp ep : Z) : option (option Z) :=
  if rp <? ep then
    match fuel with
    | O => None
    | S fuel =>
        c ← rd buf rp;
        if c =? 58 then Some (if sp <? rp then Some rp else None)
        else if negb (_c_is_token c false) then Some None
        else skip_name_loop fuel buf sp (rp + 1) ep
    end
  else Some (Some rp).
Definition _header_parse_skip_name (buf : list Z) (rp ep : Z) : option (option Z) := skip_name_loop (Z.to_nat (ep - rp)) buf rp rp ep.

(** The local variables of [_header_parse_next_parameter2]. *)
Record pst := mkPst {
  s_rp : Z; s_quote : bool; s_key : bool; s_expect_eq : bool; s_escaped : bool; s_ks : Z; s_ke : Z; s_vs : option Z; s_ve : option Z }.

(** A turn of its loop either goes on, leaves the loop, or returns 0. *)
Inductive turn := Go (s : pst) | Break (s : pst) | Refuse.

Definition key_turn (header_value : bool) (c : Z) (s : pst) : turn :=
  let rp := s.(s_rp) in
  let to_value := {| s with s_key := false; s_vs := Some (rp + 1); s_rp := rp + 1 |} in
  let no_value := {| s with s_vs := Some rp; s_ve := Some rp |} in
  let skip := {| s with s_ks := s.(s_ks) + 1; s_ke := s.(s_ks) + 1; s_rp := rp + 1 |} in
  let take := {| s with s_rp := rp + 1; s_ke := rp + 1 |} in
  if header_value then
    if c =? 61 then Go to_value
    else if _c_is_space c then Go (if s.(s_ke) =? s.(s_ks) then skip else {| s with s_rp := rp + 1 |})
    else if c =? 59 then Break {| no_value with s_rp := rp + 1 |}
    else if _c_is_lsep c then Break no_value
    else if ((c =? 47) && negb (s.(s_ke) =? s.(s_ks))) || _c_is_token c false then Go take
    else Refuse
  else
    if c =? 61 then Go to_value
    else if _c_is_space c then Go (if s.(s_ke) =? s.(s_ks) then skip else {| s with s_expect_eq := true; s_rp := rp + 1 |})
    else if negb s.(s_expect_eq) && (c =? 59) then Break {| no_value with s_rp := rp + 1 |}
    else if negb s.(s_expect_eq) && _c_is_token c false then Go take
    else Refuse.

(** [before] is the character in front of the current one, which only a quoted value looks at. *)
Definition val_turn (before : option Z) (c : Z) (s : pst) : option turn :=
  let rp := s.(s_rp) in
  let next := {| s with s_rp := rp + 1 |} in
  if s.(s_quote) then
    b ← before;
    if b =? 92 then Some (Go {| next with s_escaped := true |})
    else if c =? 34 then Some (Break {| next with s_ve := Some rp |})
    else if _c_is_lsep c then Some Refuse
    else Some (Go next)
  else if (c =? 34) && bool_decide (s.(s_vs) = Some rp) then Some (Go {| next with s_quote := true; s_vs := Some (rp + 1); s_ve := Some (rp + 1) |})
  else if (c =? 59) || _c_is_space c then Some (Break {| next with s_ve := Some rp |})
  else if _c_is_lsep c then Some (Break {| s with s_ve := Some rp |})
  else if _c_is_token c true then Some (Go {| next with s_ve := Some (rp + 1) |})
  else Some Refuse.

Fixpoint param_loop (fuel : nat) (header_value : bool) (buf : list Z) (ep : Z) (s : pst) : option (option pst) :=
  if s.(s_rp) <? ep then
    match fuel with
    | O => None
    | S fuel =>
        c ← rd buf s.(s_rp);
        t ← (if s.(s_key) then Some (key_turn header_value c s) else val_turn (rd buf (s.(s_rp) - 1)) c s);
        match t with
        | Go s => param_loop fuel header_value buf ep s
        | Break s => Some (Some s)
        | Refuse => Some None
        end
    end
  else Some (Some s).

(** [iwn_unescape_backslashes_inplace] of the [len] bytes at [p]. *)
Definition unescape_at (buf : list Z) (p len : Z) : option (list Z * Z) :=
  s ← from_ptr buf p; '(s, n) ← iwn_unescape_backslashes_inplace s len; Some (take (Z.to_nat p) buf ++ s, n).

Definition pst_start (rp : Z) : pst := mkPst rp false true false false rp rp None None.

(** The result is the buffer and, unless 0 is returned, the new position with the parameter. *)
Definition _header_parse_next_parameter2 (header_value : bool) (buf : list Z) (rp ep : Z) : option (list Z * option (Z * param)) :=
  if ep <=? rp then Some (buf, None)
  else
    c ← rd buf rp;
    if _c_is_lsep c then Some (buf, None)
    else
      r ← param_loop (Z.to_nat (ep - rp)) header_value buf ep (pst_start rp);
      match r with
      | Some s =>
          match s.(s_ve), s.(s_vs) with
          | Some ve, Some vs =>
              if s.(s_escaped) then
                '(buf, n) ← unescape_at buf vs (ve - vs);
                Some (buf, Some (s.(s_rp), mkParam s.(s_ks) (s.(s_ke) - s.(s_ks)) (Some vs) n))
              else Some (buf, Some (s.(s_rp), mkParam s.(s_ks) (s.(s_ke) - s.(s_ks)) (Some vs) (ve - vs)))
          | _, _ => Some (buf, None)
          end
      | None => Some (buf, None)
      end.

Definition _header_parse_next_parameter (buf : list Z) (rp ep : Z) : option (list Z * option (Z * param)) :=
  c ← rd buf rp;
  let header_value := c =? 58 in
  _header_parse_next_parameter2 header_value buf (if header_value then rp + 1 else rp) ep.

(** [iwn_wf_header_val_part_find]: the first part with the name; [start] is where the value starts. *)
Fixpoint part_find_loop (fuel : nat) (buf : list Z) (start rp ep : Z) (name : list Z) : option (list Z * option param) :=
  match fuel with
  | O => None
  | S fuel =>
      '(buf, r) ← _header_parse_next_parameter2 (rp =? start) buf rp ep;
      match r with
      | None => Some (buf, None)
      | Some (rp, kv) =>
          same ← (if kv.(pk_len) =? zlen (cstr name) then strncmp_at buf kv.(pk) (cstr name ++ [0]) (zlen (cstr name)) else Some false);
          if (same : bool) then Some (buf, Some kv) else part_find_loop fuel buf start rp ep name
      end
  end.
Definition iwn_wf_header_val_part_find (buf : list Z) (ptr end_ : Z) (name : list Z) : option (list Z * option param) :=
  part_find_loop (S (Z.to_nat (end_ - ptr))) buf ptr ptr end_ name.

(** ** Multipart forms *)

(** [struct iwn_val]: a pointer and a length. *)
Abbreviation mval := (option Z * Z)%type.
Definition mval_zero : mval := (None, 0).

(** The local variables that collect the headers of a part. *)
Record mst := mkMst { m_name : mval; m_file : mval; m_disp : mval; m_ctype : mval }.
Definition mst_zero : mst := mkMst mval_zero mval_zero mval_zero mval_zero.

(** A part of the form as it is added to the chain: the name, the data and the extra pairs. *)
Record part := mkPart { pa_name : Z * Z; pa_data : Z * Z; pa_file : option mval; pa_ctype : option mval }.

(** The bytes at [p] are [w]; compared from left to right up to the first difference. *)
Fixpoint bytes_at (buf : list Z) (p : Z) (w : list Z) : option bool :=
  match w with
  | [] => Some true
  | x :: w => c ← rd buf p; if c =? x then bytes_at buf (p + 1) w else Some false
  end.

(** [!(ep - rp < 2 || rp[0] != CR || rp[1] != LF)] *)
Definition crlf_at (buf : list Z) (rp ep : Z) : option bool := if ep - rp <? 2 then Some false else bytes_at buf rp [13; 10].

Definition key_is (buf : list Z) (kv : param) (lit : string) : option bool :=
  let n := zlen (bytes_of_string lit) in
  if kv.(pk_len) =? n then strncasecmp_at buf kv.(pk) lit n else Some false.

(** The loop over the parameters of [content-disposition]. *)
Fixpoint disp_loop (fuel : nat) (buf : list Z) (rp ep : Z) (first : bool) (st : mst) : option (list Z * Z * mst) :=
  match fuel with
  | O => None
  | S fuel =>
      '(buf, r) ← _header_parse_next_parameter buf rp ep;
      match r with
      | None => Some (buf, rp, st)
      | Some (pp, kv) =>
          st ← (if first then Some {| st with m_disp := (Some kv.(pk), kv.(pk_len)) |}
                else match kv.(pv) with
                     | None => Some st
                     | Some _ =>
                         n ← key_is buf kv "name";
                         if (n : bool) then Some {| st with m_name := (kv.(pv), kv.(pv_len)) |}
                         else f ← key_is buf kv "filename";
                              Some (if (f : bool) then {| st with m_file := (kv.(pv), kv.(pv_len)) |} else st)
                     end);
          disp_loop fuel buf pp ep false st
      end
  end.

(** The loop over the parameters of [content-type]; the value goes up to the last of them. *)
Fixpoint ctype_loop (fuel : nat) (buf : list Z) (rp ep : Z) (first : bool) (st : mst) : option (list Z * Z * mst) :=
  match fuel with
  | O => None
  | S fuel =>
      '(buf, r) ← _header_parse_next_parameter buf rp ep;
      match r with
      | None => Some (buf, rp, if first then st else {| st with m_ctype := (st.(m_ctype).1, rp - default 0 st.(m_ctype).1) |})
      | Some (pp, kv) => ctype_loop fuel buf pp ep false (if first then {| st with m_ctype := (Some kv.(pk), kv.(pk_len)) |} else st)
      end
  end.

(** The loop over the headers of a part; it leaves at the empty line behind them. *)
Fixpoint headers_loop (fuel : nat) (buf : list Z) (rp ep : Z) (st : mst) : option (list Z * option (Z * mst)) :=
  match fuel with
  | O => None
  | S fuel =>
      nl ← crlf_at buf rp ep;
      if negb nl then Some (buf, None)
      else
        let hs := rp + 2 in
        he ← _header_parse_skip_name buf hs ep;
        match he with
        | None => Some (buf, Some (hs, st))
        | Some he =>
            cdis ← (if he - hs =? 19 then strncasecmp_at buf hs "content-disposition" 19 else Some false);
            if (cdis : bool) then '(buf, rp, st) ← disp_loop (S (Z.to_nat (ep - he))) buf he ep true st; headers_loop fuel buf rp ep st
            else
              ctype ← (if he - hs =? 12 then strncasecmp_at buf hs "content-type" 12 else Some false);
              if (ctype : bool) then '(buf, rp, st) ← ctype_loop (S (Z.to_nat (ep - he))) buf he ep true st; headers_loop fuel buf rp ep st
              else headers_loop fuel buf he ep st
        end
  end.

(** The search for the delimiter behind the data; the result is where it starts. *)
Fixpoint data_loop (fuel : nat) (buf boundary : list Z) (boundary_len rp ep : Z) : option (option Z) :=
  if boundary_len + 6 <=? ep - rp then
    match fuel with
    | O => None
    | S fuel =>
        d ← bytes_at buf rp [13; 10; 45; 45];
        b ← (if (d : bool) then if boundary_len =? 0 then Some true else strncmp_at buf (rp + 4) boundary boundary_len else Some false);
        if (b : bool) then
          let rp' := rp + boundary_len + 4 in
          e1 ← bytes_at buf rp' [13; 10];
          e2 ← (if (e1 : bool) then Some true else bytes_at buf rp' [45; 45]);
          if (e2 : bool) then Some (Some rp) else data_loop fuel buf boundary boundary_len (rp' + 1) ep
        else data_loop fuel buf boundary boundary_len (rp + 1) ep
    end
  else Some None.

(** What follows the headers: checks, the data, the new part. *)
Definition part_end (buf boundary : list Z) (boundary_len rp ep : Z) (st : mst) (parts : list part) : option (list part * option Z) :=
  match st.(m_disp), st.(m_name) with
  | (Some dp, dlen), (Some np, nlen) =>
      if dlen =? 0 then Some (parts, None)
      else
        fd ← strncasecmp_at buf dp "form-data" dlen;
        nl ← (if (fd : bool) then crlf_at buf rp ep else Some false);
        if negb nl then Some (parts, None)
        else
          r ← data_loop (Z.to_nat (ep - rp)) buf boundary boundary_len (rp + 2) ep;
          match r with
          | None => Some (parts, None)
          | Some e =>
              let p := mkPart (np, nlen) (rp + 2, e - (rp + 2))
                         (if st.(m_file).2 =? 0 then None else Some st.(m_file)) (if st.(m_ctype).2 =? 0 then None else Some st.(m_ctype)) in
              Some (parts ++ [p], Some (e + 2))
          end
  | _, _ => Some (parts, None)
  end.

(** The result: the buffer, the parts, the next position unless 0 is returned, and [*eof]. *)
Definition _multipart_parse_next (buf boundary : list Z) (boundary_len rp ep : Z) (parts : list part)
    : option (list Z * list part * option Z * bool) :=
  if ep <=? rp then Some (buf, parts, None, true)
  else if ep <? rp + 2 + boundary_len + 2 then Some (buf, parts, None, false)
  else
    d ← bytes_at buf rp [45; 45];
    same ← (if (d : bool) then if 0 <? boundary_len then strncmp_at buf (rp + 2) boundary boundary_len else Some true else Some false);
    if negb same then Some (buf, parts, None, false)
    else
      let rp := rp + 2 + boundary_len in
      last ← bytes_at buf rp [45; 45];
      if (last : bool) then Some (buf, parts, None, true)
      else
        '(buf, h) ← headers_loop (Z.to_nat (ep - rp)) buf rp ep mst_zero;
        match h with
        | None => Some (buf, parts, None, false)
        | Some (rp, st) => '(parts, next) ← part_end buf boundary boundary_len rp ep st parts; Some (buf, parts, next, false)
        end.

(** [_request_form_multipart_parse] over the body at [cp]; [true] when the form was read to its end. *)
Fixpoint multipart_loop (fuel : nat) (buf boundary : list Z) (boundary_len cp ep : Z) (parts : list part) : option (list Z * list part * bool) :=
  match fuel with
  | O => None
  | S fuel =>
      '(buf, parts, next, eof) ← _multipart_parse_next buf boundary boundary_len cp ep parts;
      match next with
      | Some cp => multipart_loop fuel buf boundary boundary_len cp ep parts
      | None => Some (buf, parts, eof)
      end
  end.
Definition _request_form_multipart_parse (buf boundary : list Z) (boundary_len cp ep : Z) : option (list Z * list part * bool) :=
  multipart_loop (S (Z.to_nat (ep - cp))) buf boundary boundary_len cp ep [].

Definition demo_form : list Z :=
  bytes_of_string "--X" ++ [13; 10] ++ bytes_of_string "Content-Disposition: form-data; name=" ++ [34] ++ bytes_of_string "a" ++ [34; 13; 10; 13; 10] ++ bytes_of_string "hello" ++ [13; 10]
  ++ bytes_of_string "--X" ++ [13; 10] ++ bytes_of_string "content-disposition: form-data; name=" ++ [34] ++ bytes_of_string "b" ++ [92; 34] ++ bytes_of_string "c" ++ [34] ++ bytes_of_string "; filename=" ++ [34] ++ bytes_of_string "f.txt" ++ [34; 13; 10]
  ++ bytes_of_string "Content-Type: text/plain" ++ [13; 10; 13; 10] ++ bytes_of_string "data" ++ [13; 10]
  ++ bytes_of_string "--X--".

Definition view (buf : list Z) (v : Z * Z) : list Z := slice buf v.1 (v.1 + v.2).
Definition view_opt (buf : list Z) (v : option mval) : option (list Z) := match v with Some (Some p, n) => Some (view buf (p, n)) | _ => None end.
Definition view_part (buf : list Z) (p : part) := (view buf p.(pa_name), view buf p.(pa_data), view_opt buf p.(pa_file), view_opt buf p.(pa_ctype)).

Example demo_form_parses :
  ('(buf, ps, eof) ← _request_form_multipart_parse (demo_form ++ [0]) (bytes_of_string "X" ++ [0]) 1 0 (zlen demo_form);
   Some (List.map (view_part buf) ps, eof)) =
  Some ([(bytes_of_string "a", bytes_of_string "hello", None, None);
         ([98; 34; 99], bytes_of_string "data", Some (bytes_of_string "f.txt"), Some (bytes_of_string "text/plain"))], true).
Proof. by vm_compute. Qed.
