(* ===== verification/WfHeaderSafe.v ===== *)
(** * WfHeaderSafe: parsing header parameters and multipart forms is memory safe

    Whatever the bytes of the input, the parsers of [WfHeader] stay inside of the buffer, write only
    inside of the input, make progress and return. *)
From S2P Require Import Prelude Codec WfRoute HttpParser WfHeader.

(** [buf'] is [buf] outside of the range from [a] to [b]. *)
Definition same_out (a b : Z) (buf buf' : list Z) : Prop :=
  zlen buf' = zlen buf /\ forall i, i < a \/ b <= i -> rd buf' i = rd buf i.

#[export] Instance same_out_refl a b : Reflexive (same_out a b).
Proof. intros x. by split. Qed.
#[export] Instance same_out_trans a b : Transitive (same_out a b).
Proof. intros x y z [H1 H2] [H3 H4]. split; [congruence|]. intros i Hi. rewrite H4, H2 by done. done. Qed.

Lemma same_out_wider a b a' b' x y : same_out a b x y -> a' <= a -> b <= b' -> same_out a' b' x y.
Proof. intros [H1 H2] Ha Hb. split; [done|]. intros i Hi. apply H2. lia. Qed.

Lemma rd_insert buf i v j : 0 <= i < zlen buf -> rd (<[Z.to_nat i := v]> buf) j = if j =? i then Some v else rd buf j.
Proof.
  intros Hi. unfold rd. destruct (Z.ltb_spec j 0); [destruct (Z.eqb_spec j i); [lia|done]|]. destruct (Z.eqb_spec j i) as [->|Hne].
  - apply list_lookup_insert_eq. unfold zlen in Hi. lia.
  - apply list_lookup_insert_ne. lia.
Qed.

Lemma wr_same_out buf i v a b : a <= i < b -> 0 <= i < zlen buf -> exists buf', wr buf i v = Some buf' /\ same_out a b buf buf'.
Proof.
  intros Hi Hr. unfold wr. rewrite (proj2 (Z.ltb_ge _ 0)), (proj2 (Z.leb_gt _ _)) by lia. cbn [orb]. eexists. split; [reflexivity|]. split.
  - unfold zlen. by rewrite length_insert.
  - intros j Hj. rewrite rd_insert by done. by rewrite (proj2 (Z.eqb_neq j i)) by lia.
Qed.

(** ** Comparisons *)

Lemma from_ptr_some buf p : 0 <= p <= zlen buf -> from_ptr buf p = Some (drop (Z.to_nat p) buf).
Proof. intros Hp. unfold from_ptr. rewrite (proj2 (Z.ltb_ge _ 0)), (proj2 (Z.ltb_ge _ p)) by lia. done. Qed.

Lemma zlen_drop (buf : list Z) p : 0 <= p <= zlen buf -> zlen (drop (Z.to_nat p) buf) = zlen buf - p.
Proof. unfold zlen. rewrite length_drop. lia. Qed.

Lemma strncmp_total a : forall b n, n <= zlen a -> n <= zlen b -> exists r, strncmp_same a b n = Some r.
Proof.
  induction a as [|x a IH]; intros b n Ha Hb; cbn [strncmp_same]; [change (zlen (@nil Z)) with 0 in Ha; rewrite (proj2 (Z.leb_le n 0)) by lia; eauto|].
  destruct (Z.leb_spec n 0); [eauto|]. rewrite zlen_cons in Ha. destruct b as [|y b]; [change (zlen (@nil Z)) with 0 in Hb; lia|]. rewrite zlen_cons in Hb.
  destruct (x =? y); [|eauto]. destruct (x =? 0); [eauto|]. apply IH; lia.
Qed.

Lemma strncasecmp_total a : forall w n, n <= zlen a -> exists r, strncasecmp_same a (w ++ [0]) n = Some r.
Proof.
  induction a as [|x a IH]; intros w n Ha; cbn [strncasecmp_same]; [change (zlen (@nil Z)) with 0 in Ha; rewrite (proj2 (Z.leb_le n 0)) by lia; eauto|].
  destruct (Z.leb_spec n 0); [eauto|]. rewrite zlen_cons in Ha. destruct w as [|y w]; cbn [app].
  - destruct (Z.eqb_spec (lower x) (lower 0)) as [E|]; [|eauto]. destruct (Z.eqb_spec x 0) as [|Hx]; [eauto|]. exfalso. unfold lower in E. cbn in E.
    destruct ((65 <=? x) && (x <=? 90)) eqn:Ex; [apply andb_true_iff in Ex as [?%Z.leb_le _]|]; lia.
  - destruct (lower x =? lower y); [|eauto]. destruct (x =? 0); [eauto|]. apply IH. lia.
Qed.

Lemma strncasecmp_at_total buf p lit n : 0 <= p -> 0 <= n -> p + n <= zlen buf -> exists r, strncasecmp_at buf p lit n = Some r.
Proof. intros Hp Hn Hle. unfold strncasecmp_at. rewrite from_ptr_some by lia. cbn [mbind option_bind]. apply strncasecmp_total. rewrite zlen_drop by lia. lia. Qed.

Lemma strncmp_at_total buf p s n : 0 <= p -> 0 <= n -> p + n <= zlen buf -> n <= zlen s -> exists r, strncmp_at buf p s n = Some r.
Proof. intros Hp Hn Hle Hs. unfold strncmp_at. rewrite from_ptr_some by lia. cbn [mbind option_bind]. apply strncmp_total; [|done]. rewrite zlen_drop by lia. lia. Qed.

Lemma bytes_at_total buf w : forall p, 0 <= p -> p + zlen w <= zlen buf -> exists r, bytes_at buf p w = Some r.
Proof.
  induction w as [|x w IH]; intros p Hp Hw; cbn [bytes_at]; [eauto|]. rewrite zlen_cons in Hw. pose proof (zlen_nonneg w).
  destruct (rd_total buf p) as [c ->]; [lia|]. cbn [mbind option_bind]. destruct (c =? x); [apply IH; lia|eauto].
Qed.

Lemma crlf_at_total buf rp ep : 0 <= rp -> ep <= zlen buf -> exists r, crlf_at buf rp ep = Some r /\ (r = true -> rp + 2 <= ep).
Proof.
  intros Hr He. unfold crlf_at. destruct (Z.ltb_spec (ep - rp) 2); [exists false; by split|].
  destruct (bytes_at_total buf [13; 10] rp) as [r Er]; [done|change (zlen [13; 10]) with 2; lia|]. exists r. split; [done|lia].
Qed.

(** ** Unescaping *)

Lemma unescape_safe fuel : forall buf rp wp len, 0 <= wp <= rp -> len <= zlen buf -> (Z.to_nat (len - rp) <= fuel)%nat -> wp <= len ->
  exists buf' n, unescape_loop fuel buf rp wp len = Some (buf', n) /\ same_out wp len buf buf' /\ wp <= n <= Z.max wp len.
Proof.
  induction fuel as [|fuel IH]; intros buf rp wp len Hw Hl Hf Hwl; cbn [unescape_loop].
  - destruct (Z.leb_spec len rp); [|lia]. exists buf, wp. split; [done|]. split; [reflexivity|lia].
  - assert (exists buf' n, Some (buf, wp) = Some (buf', n) /\ same_out wp len buf buf' /\ wp <= n <= Z.max wp len) as Hstop by (exists buf, wp; split; [done|split; [reflexivity|lia]]).
    destruct (Z.leb_spec len rp) as [|Hlt]; [done|]. destruct (rd_total buf rp) as [c ->]; [lia|]. cbn [mbind option_bind]. destruct (c =? 0); [done|].
    assert (forall v k, rp < k -> exists buf' n, (b ← wr buf wp v; unescape_loop fuel b k (wp + 1) len) = Some (buf', n) /\ same_out wp len buf buf' /\ wp <= n <= Z.max wp len) as Hgo.
    { intros v k Hk. destruct (wr_same_out buf wp v wp len) as (b & -> & Hb); [lia|lia|]. cbn [mbind option_bind].
      destruct (IH b k (wp + 1) len) as (buf' & n & E & Hs & Hn); [lia|by rewrite (proj1 Hb)|lia|lia|]. exists buf', n. split; [done|]. split; [|lia].
      etransitivity; [done|]. eapply same_out_wider; [done|lia|lia]. }
    destruct (c =? 92); [|apply Hgo; lia]. destruct (Z.leb_spec len (rp + 1)); [done|]. destruct (rd_total buf (rp + 1)) as [c' ->]; [lia|]. cbn [mbind option_bind].
    destruct (c' =? 0); [done|]. apply Hgo. lia.
Qed.

Lemma rd_take_drop buf p i (s : list Z) : 0 <= p <= zlen buf -> rd (take (Z.to_nat p) buf ++ s) i = if i <? p then rd buf i else rd s (i - p).
Proof.
  intros Hp. assert (zlen (take (Z.to_nat p) buf) = p) as Ht by (unfold zlen in *; rewrite length_take; lia). destruct (Z.ltb_spec i p) as [Hi|Hi].
  - rewrite rd_app_l by lia. unfold rd. destruct (Z.ltb_spec i 0); [done|]. apply lookup_take_lt. lia.
  - rewrite rd_app_r by lia. by rewrite Ht.
Qed.

Lemma rd_drop buf p i : 0 <= p -> 0 <= i -> rd (drop (Z.to_nat p) buf) i = rd buf (i + p).
Proof. intros Hp Hi. unfold rd. rewrite (proj2 (Z.ltb_ge i 0)), (proj2 (Z.ltb_ge (i + p) 0)) by lia. rewrite lookup_drop. f_equal. lia. Qed.

Lemma unescape_at_safe buf p len : 0 <= p -> 0 <= len -> p + len <= zlen buf ->
  exists buf' n, unescape_at buf p len = Some (buf', n) /\ same_out p (p + len) buf buf' /\ 0 <= n <= len.
Proof.
  intros Hp Hl Hle. unfold unescape_at. rewrite from_ptr_some by lia. cbn [mbind option_bind]. unfold iwn_unescape_backslashes_inplace.
  destruct (unescape_safe (Z.to_nat len) (drop (Z.to_nat p) buf) 0 0 len) as (s & n & -> & [Hs1 Hs2] & Hn); [lia|rewrite zlen_drop; lia|lia|lia|].
  cbn [mbind option_bind]. eexists _, n. split; [reflexivity|]. split; [|lia]. rewrite zlen_drop in Hs1 by lia. split.
  - rewrite zlen_app, Hs1. assert (zlen (take (Z.to_nat p) buf) = p) as -> by (unfold zlen in *; rewrite length_take; lia). lia.
  - intros i Hi. rewrite rd_take_drop by lia. destruct (Z.ltb_spec i p); [done|]. rewrite Hs2 by lia. rewrite rd_drop by lia. f_equal. lia.
Qed.

(** ** Parameters *)

(** The pointers of the loop are between its start and the current position. *)
Definition key_ok (start : Z) (s : pst) : Prop := start <= s.(s_ks) <= s.(s_ke) /\ s.(s_ke) <= s.(s_rp).
Definition val_ok (start : Z) (s : pst) : Prop :=
  exists v, s.(s_vs) = Some v /\ start <= v <= s.(s_rp) /\ match s.(s_ve) with Some e => v <= e <= s.(s_rp) | None => True end.

(** The loop runs in the key, with nothing of the value set, or in the value. *)
Definition running (start : Z) (s : pst) : Prop :=
  key_ok start s /\ if s.(s_key) then s.(s_vs) = None /\ s.(s_ve) = None /\ s.(s_quote) = false else start < s.(s_rp) /\ val_ok start s.
Definition stopped (start : Z) (s : pst) : Prop := key_ok start s /\ (s.(s_ve) = None \/ val_ok start s).

Definition turn_ok (start : Z) (c : Z) (s : pst) (t : turn) : Prop :=
  match t with
  | Go s' => running start s' /\ s'.(s_rp) = s.(s_rp) + 1
  | Break s' => stopped start s' /\ s.(s_rp) <= s'.(s_rp) <= s.(s_rp) + 1 /\ (_c_is_lsep c = false -> s'.(s_rp) = s.(s_rp) + 1)
  | Refuse => True
  end.

Lemma key_turn_ok start hv c s : running start s -> s.(s_key) = true -> turn_ok start c s (key_turn hv c s).
Proof.
  intros [[Hk1 Hk2] Hs] Hkey. rewrite Hkey in Hs. destruct Hs as (Hvs & Hve & Hq). destruct s as [rp q k eq es ks ke vs ve]. cbn [s_rp s_key s_vs s_ve s_quote s_ks s_ke] in *. subst.
  assert (running start (mkPst (rp + 1) false false eq es ks ke (Some (rp + 1)) None)) as Hto.
  { split; [split; cbn; lia|]. split; [cbn; lia|]. exists (rp + 1). cbn. split; [done|]. split; [lia|done]. }
  assert (forall r, rp <= r -> stopped start (mkPst r false true eq es ks ke (Some rp) (Some rp))) as Hno.
  { intros r Hr. split; [split; cbn; lia|]. right. exists rp. cbn. split; [done|lia]. }
  assert (forall b, running start (mkPst (rp + 1) false true b es ks ke None None)) as Hgo by (intros b; split; [split; cbn; lia|done]).
  assert (running start (mkPst (rp + 1) false true eq es ks (rp + 1) None None)) as Htk by (split; [split; cbn; lia|done]).
  assert (ke = ks -> running start (mkPst (rp + 1) false true eq es (ks + 1) (ks + 1) None None)) as Hsk by (intros ->; split; [split; cbn; lia|done]).
  unfold key_turn. cbn [s_rp s_key s_vs s_ve s_quote s_ks s_ke s_expect_eq s_escaped].
  destruct hv; (destruct (c =? 61); [by split|]); (destruct (_c_is_space c); [destruct (Z.eqb_spec ke ks); by split; [auto|]|]).
  - destruct (c =? 59); [split; [by apply Hno; lia|cbn; lia]|]. destruct (_c_is_lsep c) eqn:El; [split; [apply Hno; lia|cbn; rewrite El; split; [lia|done]]|].
    destruct (_ || _); [by split|done].
  - destruct (_ && (c =? 59)); [split; [by apply Hno; lia|cbn; lia]|]. destruct (_ && _); [by split|done].
Qed.

Lemma val_turn_ok start buf c s : running start s -> s.(s_key) = false -> 0 <= start -> s.(s_rp) < zlen buf ->
  exists t, val_turn (rd buf (s.(s_rp) - 1)) c s = Some t /\ turn_ok start c s t.
Proof.
  intros [[Hk1 Hk2] Hs] Hkey H0 Hlt. rewrite Hkey in Hs. destruct Hs as (Hm & v & Hv & Hvr & Hve). destruct s as [rp q k eq es ks ke vs ve]. cbn [s_rp s_key s_vs s_ve s_quote s_ks s_ke] in *. subst.
  destruct (rd_total buf (rp - 1)) as [b Eb]; [lia|]. unfold val_turn. cbn [s_rp s_key s_vs s_ve s_quote s_ks s_ke s_expect_eq s_escaped]. rewrite Eb.
  assert (forall q es ve', match ve' with Some e => v <= e <= rp + 1 | None => True end -> running start (mkPst (rp + 1) q false eq es ks ke (Some v) ve')) as Hgo.
  { intros q' es' ve' He. split; [split; cbn; lia|]. split; [cbn; lia|]. exists v. cbn. split; [done|]. split; [lia|done]. }
  assert (forall q r, rp <= r -> stopped start (mkPst r q false eq es ks ke (Some v) (Some rp))) as Hbr.
  { intros q' r Hr. split; [split; cbn; lia|]. right. exists v. cbn. split; [done|lia]. }
  assert (match ve with Some e => v <= e <= rp + 1 | None => True end) as Hve' by (destruct ve; [lia|done]).
  destruct q; cbn [mbind option_bind].
  - destruct (b =? 92); [eexists; split; [reflexivity|split; [by apply Hgo|done]]|]. destruct (c =? 34); [eexists; split; [reflexivity|split; [apply Hbr; lia|cbn; lia]]|].
    destruct (_c_is_lsep c); [by eexists|]. eexists. split; [reflexivity|]. split; [by apply Hgo|done].
  - destruct ((c =? 34) && _); [eexists; split; [reflexivity|]; split; [|done]; split; [split; cbn; lia|]; split; [cbn; lia|]; exists (rp + 1); cbn; split; [done|lia]|].
    destruct ((c =? 59) || _c_is_space c); [eexists; split; [reflexivity|split; [apply Hbr; lia|cbn; lia]]|].
    destruct (_c_is_lsep c) eqn:El; [eexists; split; [reflexivity|split; [apply Hbr; lia|cbn; rewrite El; split; [lia|done]]]|].
    destruct (_c_is_token c true); [|by eexists]. eexists. split; [reflexivity|]. split; [apply Hgo; lia|done].
Qed.

Lemma param_loop_safe hv start buf ep fuel : forall s, running start s -> 0 <= start -> s.(s_rp) <= ep -> ep <= zlen buf -> (Z.to_nat (ep - s.(s_rp)) <= fuel)%nat ->
  exists r, param_loop fuel hv buf ep s = Some r /\ forall s', r = Some s' -> stopped start s' /\ s.(s_rp) <= s'.(s_rp) <= ep.
Proof.
  induction fuel as [|fuel IH]; intros s Hs H0 Hep Hb Hf; cbn [param_loop].
  - destruct (Z.ltb_spec (s_rp s) ep); [lia|]. eexists. split; [reflexivity|]. intros ? [= <-]. split; [|lia]. destruct Hs as [Hk Hs]. split; [done|]. destruct (s_key s); [left; tauto|right; tauto].
  - destruct (Z.ltb_spec (s_rp s) ep) as [Hlt|].
    2: { eexists. split; [reflexivity|]. intros ? [= <-]. split; [|lia]. destruct Hs as [Hk Hs]. split; [done|]. destruct (s_key s); [left; tauto|right; tauto]. }
    assert (0 <= s.(s_rp)) by (destruct Hs as [[? ?] _]; lia). destruct (rd_total buf s.(s_rp)) as [c Ec]; [lia|]. rewrite Ec. cbn [mbind option_bind].
    assert (exists t, (if s.(s_key) then Some (key_turn hv c s) else val_turn (rd buf (s.(s_rp) - 1)) c s) = Some t /\ turn_ok start c s t) as (t & -> & Ht).
    { destruct (s_key s) eqn:Ek; [eexists; split; [reflexivity|by apply key_turn_ok]|]. apply val_turn_ok; [done|done|done|lia]. }
    cbn [mbind option_bind]. destruct t as [s'|s'|]; cbn [turn_ok] in Ht.
    + destruct Ht as [Hr' Hrp]. destruct (IH s') as (r & E & Hr); [done|done|lia|done|lia|]. exists r. split; [done|]. intros s2 E2. destruct (Hr s2 E2). split; [done|lia].
    + eexists. split; [reflexivity|]. intros ? [= <-]. destruct Ht as (Hl & Hrp & _). split; [done|lia].
    + eexists. split; [reflexivity|]. done.
Qed.

(** The parameter lies inside of the input and the position advances. *)
Definition param_in (a b : Z) (kv : param) : Prop :=
  a <= kv.(pk) /\ 0 <= kv.(pk_len) /\ kv.(pk) + kv.(pk_len) <= b /\ exists v, kv.(pv) = Some v /\ a <= v /\ 0 <= kv.(pv_len) /\ v + kv.(pv_len) <= b.

Lemma next_parameter2_safe hv buf rp ep : 0 <= rp -> ep <= zlen buf ->
  exists buf' r, _header_parse_next_parameter2 hv buf rp ep = Some (buf', r) /\ same_out rp ep buf buf' /\
    forall rp' kv, r = Some (rp', kv) -> rp < rp' <= ep /\ param_in rp rp' kv.
Proof.
  intros H0 Hb. unfold _header_parse_next_parameter2. destruct (Z.leb_spec ep rp) as [|Hlt]; [by exists buf, None|].
  destruct (rd_total buf rp) as [c Ec]; [lia|]. rewrite Ec. cbn [mbind option_bind]. destruct (_c_is_lsep c) eqn:El; [by exists buf, None|].
  assert (running rp (pst_start rp)) as Hrun by (split; [split; cbn; lia|done]).
  assert (exists r, param_loop (Z.to_nat (ep - rp)) hv buf ep (pst_start rp) = Some r /\ forall s, r = Some s -> stopped rp s /\ rp < s.(s_rp) <= ep) as (r & -> & Hr).
  { destruct (Z.to_nat (ep - rp)) as [|n] eqn:En; [lia|]. cbn [param_loop pst_start s_rp s_key]. rewrite (proj2 (Z.ltb_lt _ _)) by lia. rewrite Ec. cbn [mbind option_bind].
    pose proof (key_turn_ok rp hv c _ Hrun eq_refl) as Ht. fold (pst_start rp). destruct (key_turn hv c (pst_start rp)) as [s'|s'|]; cbn [turn_ok] in Ht.
    - destruct Ht as [Hr' Hrp]. cbn [pst_start s_rp] in Hrp. destruct (param_loop_safe hv rp buf ep n s') as (r & E & Hr); [done|done|lia|done|lia|]. exists r. split; [done|]. intros s2 E2. destruct (Hr s2 E2). split; [done|lia].
    - eexists. split; [reflexivity|]. intros ? [= <-]. destruct Ht as (Hl & _ & Hrp). specialize (Hrp El). cbn [pst_start s_rp] in Hrp. split; [done|lia].
    - by eexists. }
  cbn [mbind option_bind]. destruct r as [s|]; [|by exists buf, None]. destruct (Hr s eq_refl) as [[[Hk1 Hk2] Hv] Hrp]. destruct (s_ve s) as [ve|] eqn:Eve; [|by exists buf, None].
  destruct Hv as [?|(v & Hvs & Hvr & Hve)]; [done|]. rewrite Eve in Hve. rewrite Hvs. destruct (s_escaped s).
  - destruct (unescape_at_safe buf v (ve - v)) as (buf' & n & -> & Hso & Hn); [lia|lia|lia|]. cbn [mbind option_bind]. eexists _, _. split; [reflexivity|].
    split; [eapply same_out_wider; [done|lia|lia]|]. intros rp' kv [= <- <-]. split; [done|]. split; cbn; [lia|]. split; [lia|]. split; [lia|]. exists v. split; [done|]. lia.
  - eexists _, _. split; [reflexivity|]. split; [reflexivity|]. intros rp' kv [= <- <-]. split; [done|]. split; cbn; [lia|]. split; [lia|]. split; [lia|]. exists v. split; [done|]. lia.
Qed.

Lemma next_parameter_safe buf rp ep : 0 <= rp <= ep -> ep < zlen buf ->
  exists buf' r, _header_parse_next_parameter buf rp ep = Some (buf', r) /\ same_out rp ep buf buf' /\
    forall rp' kv, r = Some (rp', kv) -> rp < rp' <= ep /\ param_in rp rp' kv.
Proof.
  intros H0 Hb. unfold _header_parse_next_parameter. destruct (rd_total buf rp) as [c ->]; [lia|]. cbn [mbind option_bind].
  destruct (next_parameter2_safe (c =? 58) buf (if c =? 58 then rp + 1 else rp) ep) as (buf' & r & -> & Hs & Hr); [destruct (c =? 58); lia|lia|].
  exists buf', r. split; [done|]. assert (rp <= if c =? 58 then rp + 1 else rp) by (destruct (c =? 58); lia). split; [eapply same_out_wider; [done|lia|lia]|].
  intros rp' kv E. destruct (Hr rp' kv E) as [Hp (H1 & H2 & H3 & v & Hv & H4)]. split; [lia|]. split; [lia|]. split; [done|]. split; [done|]. exists v. split; [done|lia].
Qed.

(** ** Finding a part of a header value *)

Lemma part_find_safe buf start rp ep name : forall fuel, 0 <= rp <= ep -> ep <= zlen buf -> (Z.to_nat (ep - rp) < fuel)%nat ->
  exists buf' r, part_find_loop fuel buf start rp ep name = Some (buf', r) /\ same_out rp ep buf buf' /\ forall kv, r = Some kv -> param_in rp ep kv.
Proof.
  intros fuel. revert buf rp. induction fuel as [|fuel IH]; intros buf rp Hrp Hb Hf; [lia|]. cbn [part_find_loop].
  destruct (next_parameter2_safe (rp =? start) buf rp ep) as (b1 & r & -> & Hs & Hr); [lia|done|]. cbn [mbind option_bind]. destruct r as [[rp' kv]|]; [|by exists b1, None].
  destruct (Hr rp' kv eq_refl) as [Hp (H1 & H2 & H3 & v & Hv & H4 & H5 & H6)]. pose proof (proj1 Hs) as Hlen.
  assert (exists same, (if kv.(pk_len) =? zlen (cstr name) then strncmp_at b1 kv.(pk) (cstr name ++ [0]) (zlen (cstr name)) else Some false) = Some same) as [same ->].
  { destruct (Z.eqb_spec kv.(pk_len) (zlen (cstr name))) as [E|]; [|eauto]. apply strncmp_at_total; [lia|lia|lia|rewrite zlen_app; change (zlen [0]) with 1; lia]. }
  cbn [mbind option_bind]. destruct same.
  - exists b1, (Some kv). split; [done|]. split; [done|]. intros ? [= <-]. split; [lia|]. split; [lia|]. split; [lia|]. exists v. split; [done|lia].
  - destruct (IH b1 rp') as (b2 & r2 & -> & Hs2 & Hr2); [lia|lia|lia|]. exists b2, r2. split; [done|]. split; [etransitivity; [done|eapply same_out_wider; [done|lia|lia]]|].
    intros kv2 E2. destruct (Hr2 kv2 E2) as (K1 & K2 & K3 & v2 & Kv & K4). split; [lia|]. split; [done|]. split; [done|]. exists v2. split; [done|lia].
Qed.

(** ** Forms *)

Definition mval_in (a b : Z) (v : mval) : Prop := match v with (Some p, n) => a <= p /\ 0 <= n /\ p + n <= b | (None, n) => n = 0 end.
Definition mst_in (a b : Z) (st : mst) : Prop := mval_in a b st.(m_name) /\ mval_in a b st.(m_file) /\ mval_in a b st.(m_disp) /\ mval_in a b st.(m_ctype).

Lemma key_is_total buf kv lit a b : 0 <= a -> b <= zlen buf -> param_in a b kv -> exists r, key_is buf kv lit = Some r.
Proof.
  intros Ha Hb (H1 & H2 & H3 & _). unfold key_is. destruct (Z.eqb_spec kv.(pk_len) (zlen (bytes_of_string lit))) as [E|]; [|eauto].
  apply strncasecmp_at_total; lia.
Qed.

Lemma disp_loop_safe a ep fuel : forall buf rp first st, 0 <= a <= rp -> rp <= ep -> ep < zlen buf -> mst_in a ep st -> (Z.to_nat (ep - rp) < fuel)%nat ->
  exists buf' rp' st', disp_loop fuel buf rp ep first st = Some (buf', rp', st') /\ same_out rp ep buf buf' /\ rp <= rp' <= ep /\ mst_in a ep st'.
Proof.
  induction fuel as [|fuel IH]; intros buf rp first st Ha Hrp Hb Hst Hf; [lia|]. cbn [disp_loop].
  destruct (next_parameter_safe buf rp ep) as (b1 & r & -> & Hs & Hr); [lia|done|]. cbn [mbind option_bind]. destruct r as [[pp kv]|].
  2: { exists b1, rp, st. split; [done|]. split; [done|]. split; [lia|done]. }
  destruct (Hr pp kv eq_refl) as [Hp Hkv]. pose proof Hkv as (H1 & H2 & H3 & v & Hv & H4 & H5 & H6). pose proof (proj1 Hs) as Hlen. destruct Hst as (Hn & Hfi & Hd & Hc).
  assert (mval_in a ep (kv.(pv), kv.(pv_len))) as Hval by (rewrite Hv; cbn; lia).
  match goal with |- context [mbind _ ?x] => assert (exists st1, x = Some st1 /\ mst_in a ep st1) as (st1 & -> & Hst1) end.
  { destruct first; [eexists; split; [reflexivity|]; split; [done|]; split; [done|]; split; [cbn; lia|done]|]. rewrite Hv.
    destruct (key_is_total b1 kv "name" rp pp) as [n ->]; [lia|lia|done|]. cbn [mbind option_bind]. destruct n; [eexists; split; [reflexivity|]; rewrite <- Hv; by split_and!|].
    destruct (key_is_total b1 kv "filename" rp pp) as [f ->]; [lia|lia|done|]. cbn [mbind option_bind]. destruct f; (eexists; split; [reflexivity|]); rewrite <- ?Hv; by split. }
  cbn [mbind option_bind]. destruct (IH b1 pp false st1) as (b2 & rp2 & st2 & -> & Hs2 & Hrp2 & Hst2); [lia|lia|lia|done|lia|].
  exists b2, rp2, st2. split; [done|]. split; [etransitivity; [done|eapply same_out_wider; [done|lia|lia]]|]. split; [lia|done].
Qed.

Lemma ctype_loop_safe a ep fuel : forall buf rp first st, 0 <= a <= rp -> rp <= ep -> ep < zlen buf -> mst_in a ep st ->
  (first = false -> exists p, st.(m_ctype).1 = Some p /\ a <= p <= rp) -> (Z.to_nat (ep - rp) < fuel)%nat ->
  exists buf' rp' st', ctype_loop fuel buf rp ep first st = Some (buf', rp', st') /\ same_out rp ep buf buf' /\ rp <= rp' <= ep /\ mst_in a ep st'.
Proof.
  induction fuel as [|fuel IH]; intros buf rp first st Ha Hrp Hb Hst Hfirst Hf; [lia|]. cbn [ctype_loop].
  destruct (next_parameter_safe buf rp ep) as (b1 & r & -> & Hs & Hr); [lia|done|]. cbn [mbind option_bind]. destruct r as [[pp kv]|].
  2: { eexists b1, rp, _. split; [reflexivity|]. split; [done|]. split; [lia|]. destruct first; [done|]. destruct (Hfirst eq_refl) as (p & Ep & Hp). destruct Hst as (Hn & Hfi & Hd & Hc).
       split; [done|]. split; [done|]. split; [done|]. cbn [m_ctype]. rewrite Ep. cbn. lia. }
  destruct (Hr pp kv eq_refl) as [Hp (H1 & H2 & H3 & _)]. pose proof (proj1 Hs) as Hlen.
  destruct (IH b1 pp false (if first then {| st with m_ctype := (Some kv.(pk), kv.(pk_len)) |} else st)) as (b2 & rp2 & st2 & -> & Hs2 & Hrp2 & Hst2); [lia|lia|lia| | |lia|].
  - destruct first; [|done]. destruct Hst as (Hn & Hfi & Hd & Hc). split; [done|]. split; [done|]. split; [done|]. cbn. lia.
  - intros _. destruct first; [exists kv.(pk); split; [done|lia]|]. destruct (Hfirst eq_refl) as (p & Ep & Hpp). exists p. split; [done|lia].
  - exists b2, rp2, st2. split; [done|]. split; [etransitivity; [done|eapply same_out_wider; [done|lia|lia]]|]. split; [lia|done].
Qed.

Lemma skip_name_safe buf sp ep fuel : forall rp, 0 <= sp <= rp -> rp <= ep -> ep <= zlen buf -> (Z.to_nat (ep - rp) <= fuel)%nat ->
  exists r, skip_name_loop fuel buf sp rp ep = Some r /\ forall he, r = Some he -> rp <= he <= ep.
Proof.
  induction fuel as [|fuel IH]; intros rp Hsp Hrp Hb Hf; cbn [skip_name_loop].
  - destruct (Z.ltb_spec rp ep); [lia|]. eexists. split; [reflexivity|]. intros he [= <-]. lia.
  - destruct (Z.ltb_spec rp ep) as [Hlt|]; [|eexists; split; [reflexivity|]; intros he [= <-]; lia]. destruct (rd_total buf rp) as [c ->]; [lia|]. cbn [mbind option_bind].
    destruct (c =? 58); [eexists; split; [reflexivity|]; destruct (sp <? rp); [intros he [= <-]; lia|done]|]. destruct (negb _); [by eexists|].
    destruct (IH (rp + 1)) as (r & E & Hr); [lia|lia|done|lia|]. exists r. split; [done|]. intros he Eh. specialize (Hr he Eh). lia.
Qed.

Lemma headers_loop_safe a ep fuel : forall buf rp st, 0 <= a <= rp -> rp <= ep -> ep < zlen buf -> mst_in a ep st -> (Z.to_nat (ep - rp) <= fuel)%nat -> (0 < fuel)%nat ->
  exists buf' r, headers_loop fuel buf rp ep st = Some (buf', r) /\ same_out rp ep buf buf' /\ forall rp' st', r = Some (rp', st') -> rp <= rp' <= ep /\ mst_in a ep st'.
Proof.
  induction fuel as [|fuel IH]; intros buf rp st Ha Hrp Hb Hst Hf Hf0; [lia|]. cbn [headers_loop].
  destruct (crlf_at_total buf rp ep) as (nl & -> & Hnl); [lia|lia|]. cbn [mbind option_bind]. destruct nl; cbn [negb]; [specialize (Hnl eq_refl)|by exists buf, None].
  unfold _header_parse_skip_name. destruct (skip_name_safe buf (rp + 2) ep (Z.to_nat (ep - (rp + 2))) (rp + 2)) as (he & -> & Hhe); [lia|lia|lia|lia|]. cbn [mbind option_bind].
  destruct he as [he|]; [specialize (Hhe he eq_refl)|exists buf, (Some (rp + 2, st)); split; [done|]; split; [reflexivity|]; intros ? ? [= <- <-]; split; [lia|done]].
  assert (exists cdis, (if he - (rp + 2) =? 19 then strncasecmp_at buf (rp + 2) "content-disposition" 19 else Some false) = Some cdis) as [cdis ->].
  { destruct (Z.eqb_spec (he - (rp + 2)) 19); [apply strncasecmp_at_total; lia|eauto]. }
  assert (exists ct, (if he - (rp + 2) =? 12 then strncasecmp_at buf (rp + 2) "content-type" 12 else Some false) = Some ct) as [ct ->].
  { destruct (Z.eqb_spec (he - (rp + 2)) 12); [apply strncasecmp_at_total; lia|eauto]. }
  assert (forall b1 rp1 st1, same_out he ep buf b1 -> he <= rp1 <= ep -> mst_in a ep st1 ->
    exists buf' r, headers_loop fuel b1 rp1 ep st1 = Some (buf', r) /\ same_out rp ep buf buf' /\ forall rp' st', r = Some (rp', st') -> rp <= rp' <= ep /\ mst_in a ep st') as Hgo.
  { intros b1 rp1 st1 Hs1 Hrp1 Hst1. pose proof (proj1 Hs1) as Hlen. destruct (IH b1 rp1 st1) as (b2 & r & E & Hs2 & Hr); [lia|lia|lia|done|lia|lia|].
    exists b2, r. split; [done|]. split; [etransitivity; (eapply same_out_wider; [done|lia|lia])|]. intros rp' st' Er. destruct (Hr rp' st' Er). split; [lia|done]. }
  cbn [mbind option_bind]. destruct cdis; [|destruct ct].
  - destruct (disp_loop_safe a ep (S (Z.to_nat (ep - he))) buf he true st) as (b1 & rp1 & st1 & -> & Hs1 & Hrp1 & Hst1); [lia|lia|lia|done|lia|]. cbn [mbind option_bind]. by apply Hgo.
  - destruct (ctype_loop_safe a ep (S (Z.to_nat (ep - he))) buf he true st) as (b1 & rp1 & st1 & -> & Hs1 & Hrp1 & Hst1); [lia|lia|lia|done|done|lia|]. cbn [mbind option_bind]. by apply Hgo.
  - apply Hgo; [reflexivity|lia|done].
Qed.

Section Form.
Context (b : list Z).
Abbreviation boundary := (b ++ [0]).
Abbreviation blen := (zlen b).

Lemma data_loop_safe buf ep fuel : forall rp, 0 <= rp -> ep <= zlen buf -> (Z.to_nat (ep - rp) <= fuel)%nat ->
  exists r, data_loop fuel buf boundary blen rp ep = Some r /\ forall e, r = Some e -> rp <= e /\ e + blen + 6 <= ep.
Proof.
  pose proof (zlen_nonneg b) as Hbl. induction fuel as [|fuel IH]; intros rp H0 Hb Hf; cbn [data_loop].
  - destruct (Z.leb_spec (blen + 6) (ep - rp)); [lia|]. by eexists.
  - destruct (Z.leb_spec (blen + 6) (ep - rp)) as [Hle|]; [|by eexists].
    destruct (bytes_at_total buf [13; 10; 45; 45] rp) as [d ->]; [done|change (zlen [13; 10; 45; 45]) with 4; lia|]. cbn [mbind option_bind].
    assert (exists s, (if d then if blen =? 0 then Some true else strncmp_at buf (rp + 4) boundary blen else Some false) = Some s) as [s ->].
    { destruct d; [|eauto]. destruct (blen =? 0); [eauto|]. apply strncmp_at_total; [lia|lia|lia|rewrite zlen_app; change (zlen [0]) with 1; lia]. }
    cbn [mbind option_bind]. destruct s.
    + destruct (bytes_at_total buf [13; 10] (rp + blen + 4)) as [e1 ->]; [lia|change (zlen [13; 10]) with 2; lia|]. cbn [mbind option_bind].
      destruct (bytes_at_total buf [45; 45] (rp + blen + 4)) as [e2 ->]; [lia|change (zlen [45; 45]) with 2; lia|].
      destruct e1, e2; cbn [mbind option_bind]; try (eexists; split; [reflexivity|]; intros e [= <-]; lia).
      destruct (IH (rp + blen + 4 + 1)) as (r & E & Hr); [lia|done|lia|]. exists r. split; [done|]. intros e Ee. specialize (Hr e Ee). lia.
    + destruct (IH (rp + 1)) as (r & E & Hr); [lia|done|lia|]. exists r. split; [done|]. intros e Ee. specialize (Hr e Ee). lia.
Qed.

Definition part_in (lo hi : Z) (p : part) : Prop :=
  mval_in lo hi (Some p.(pa_name).1, p.(pa_name).2) /\ mval_in lo hi (Some p.(pa_data).1, p.(pa_data).2) /\
  (forall v, p.(pa_file) = Some v -> mval_in lo hi v) /\ (forall v, p.(pa_ctype) = Some v -> mval_in lo hi v).

Lemma part_end_safe a buf rp ep st parts : 0 <= a <= rp -> rp <= ep -> ep <= zlen buf -> mst_in a ep st -> Forall (part_in a ep) parts ->
  exists parts' next, part_end buf boundary blen rp ep st parts = Some (parts', next) /\ Forall (part_in a ep) parts' /\ forall cp, next = Some cp -> rp < cp <= ep.
Proof.
  intros Ha Hrp Hb (Hn & Hfi & Hd & Hc) Hparts. unfold part_end. destruct (m_disp st) as [[dp|] dlen]; [|by exists parts, None]. destruct (m_name st) as [[np|] nlen]; [|by exists parts, None].
  cbn in Hd. destruct (dlen =? 0); [by exists parts, None|]. destruct (strncasecmp_at_total buf dp "form-data" dlen) as [fd ->]; [lia|lia|lia|]. cbn [mbind option_bind].
  destruct (crlf_at_total buf rp ep) as (nl & -> & Hnl); [lia|done|]. destruct fd; cbn [mbind option_bind negb]; [|by exists parts, None]. destruct nl; cbn [negb]; [specialize (Hnl eq_refl)|by exists parts, None].
  destruct (data_loop_safe buf ep (Z.to_nat (ep - rp)) (rp + 2)) as (r & -> & Hr); [lia|done|lia|]. cbn [mbind option_bind]. destruct r as [e|]; [specialize (Hr e eq_refl)|by exists parts, None].
  eexists _, _. split; [reflexivity|]. pose proof (zlen_nonneg b). split; [|intros cp [= <-]; lia]. apply Forall_app. split; [done|]. constructor; [|constructor].
  split; [done|]. split; [cbn; lia|]. cbn [pa_file pa_ctype]. split; intros v; [destruct (_ =? 0); [done|by intros [= <-]]|destruct (_ =? 0); [done|by intros [= <-]]].
Qed.

Lemma parse_next_safe a buf rp ep parts : 0 <= a <= rp -> ep < zlen buf -> Forall (part_in a ep) parts ->
  exists buf' parts' next eof, _multipart_parse_next buf boundary blen rp ep parts = Some (buf', parts', next, eof) /\ same_out a ep buf buf' /\
    Forall (part_in a ep) parts' /\ forall cp, next = Some cp -> rp < cp <= ep.
Proof.
  intros Ha Hb Hparts. unfold _multipart_parse_next. pose proof (zlen_nonneg b) as Hbl. destruct (Z.leb_spec ep rp) as [|Hlt]; [by exists buf, parts, None, true|].
  destruct (Z.ltb_spec ep (rp + 2 + blen + 2)) as [|Hbe]; [by exists buf, parts, None, false|].
  destruct (bytes_at_total buf [45; 45] rp) as [d ->]; [lia|change (zlen [45; 45]) with 2; lia|]. cbn [mbind option_bind].
  assert (exists s, (if d then if 0 <? blen then strncmp_at buf (rp + 2) boundary blen else Some true else Some false) = Some s) as [s ->].
  { destruct d; [|eauto]. destruct (0 <? blen); [|eauto]. apply strncmp_at_total; [lia|lia|lia|rewrite zlen_app; change (zlen [0]) with 1; lia]. }
  cbn [mbind option_bind]. destruct s; cbn [negb]; [|by exists buf, parts, None, false].
  destruct (bytes_at_total buf [45; 45] (rp + 2 + blen)) as [l ->]; [lia|change (zlen [45; 45]) with 2; lia|]. cbn [mbind option_bind]. destruct l; [by exists buf, parts, None, true|].
  destruct (headers_loop_safe a ep (Z.to_nat (ep - (rp + 2 + blen))) buf (rp + 2 + blen) mst_zero) as (b1 & h & -> & Hs & Hh); [lia|lia|done|by split_and!|lia|lia|].
  cbn [mbind option_bind]. assert (same_out a ep buf b1) as Hs' by (eapply same_out_wider; [done|lia|lia]). destruct h as [[rp1 st]|]; [|by exists b1, parts, None, false].
  destruct (Hh rp1 st eq_refl) as [Hrp1 Hst]. destruct (part_end_safe a b1 rp1 ep st parts) as (ps & next & -> & Hps & Hnext); [lia|lia|rewrite (proj1 Hs); lia|done|done|].
  cbn [mbind option_bind]. exists b1, ps, next, false. split; [done|]. split; [done|]. split; [done|]. intros cp E. specialize (Hnext cp E). lia.
Qed.

Lemma multipart_loop_safe a ep fuel : forall buf cp parts, 0 <= a <= cp -> ep < zlen buf -> Forall (part_in a ep) parts -> (Z.to_nat (ep - cp) < fuel)%nat ->
  exists buf' parts' eof, multipart_loop fuel buf boundary blen cp ep parts = Some (buf', parts', eof) /\ same_out a ep buf buf' /\ Forall (part_in a ep) parts'.
Proof.
  induction fuel as [|fuel IH]; intros buf cp parts Ha Hb Hparts Hf; [lia|]. cbn [multipart_loop].
  destruct (parse_next_safe a buf cp ep parts Ha Hb Hparts) as (b1 & ps & next & eof & -> & Hs & Hps & Hnext). cbn [mbind option_bind]. destruct next as [cp'|].
  - specialize (Hnext cp' eq_refl). destruct (IH b1 cp' ps) as (b2 & ps2 & eof2 & -> & Hs2 & Hps2); [lia|rewrite (proj1 Hs); lia|done|lia|].
    exists b2, ps2, eof2. split; [done|]. split; [by etransitivity|done].
  - exists b1, ps, eof. by split.
Qed.
End Form.

(** C30. Parsing a multipart form is safe on every body: whatever the bytes between [cp] and [ep] and
    whatever the boundary, [_request_form_multipart_parse] reads only inside of the buffer (which has
    a byte at [ep], the terminator of the body), writes only between [cp] and [ep], returns, and every
    pointer and length of the parts it adds lies inside of the body. *)
Theorem multipart_safe (buf b : list Z) (cp ep : Z) :
  0 <= cp -> ep < zlen buf ->
  exists buf' parts eof, _request_form_multipart_parse buf (b ++ [0]) (zlen b) cp ep = Some (buf', parts, eof) /\
    same_out cp ep buf buf' /\ Forall (part_in cp ep) parts.
Proof. intros Hc Hb. apply multipart_loop_safe; [lia|done|constructor|lia]. Qed.

Lemma multipart_safe_witness :
  exists buf' parts eof, _request_form_multipart_parse (bytes_of_string "--X?\: x" ++ [0]) (bytes_of_string "X" ++ [0]) 1 0 8 = Some (buf', parts, eof) /\
    same_out 0 8 (bytes_of_string "--X?\: x" ++ [0]) buf' /\ Forall (part_in 0 8) parts.
Proof. apply (multipart_safe (bytes_of_string "--X?\: x" ++ [0]) (bytes_of_string "X") 0 8); by vm_compute. Defined.

(** Looking for a part of a header value (the session cookie of a request, say) is safe on every
    value: [iwn_wf_header_val_part_find] stays inside of the value, returns, and what it finds lies
    inside of it. *)
Theorem header_part_find_safe (buf : list Z) (ptr end_ : Z) (name : list Z) :
  0 <= ptr <= end_ -> end_ <= zlen buf ->
  exists buf' r, iwn_wf_header_val_part_find buf ptr end_ name = Some (buf', r) /\ same_out ptr end_ buf buf' /\
    forall kv, r = Some kv -> param_in ptr end_ kv.
Proof. intros Hp Hb. apply part_find_safe; [done|done|lia]. Qed.

Lemma header_part_find_safe_witness :
  exists buf' r, iwn_wf_header_val_part_find (bytes_of_string "x=1; sessionid=abc") 0 18 (bytes_of_string "sessionid") = Some (buf', r) /\
    same_out 0 18 (bytes_of_string "x=1; sessionid=abc") buf' /\ forall kv, r = Some kv -> param_in 0 18 kv.
Proof. apply (header_part_find_safe (bytes_of_string "x=1; sessionid=abc") 0 18 (bytes_of_string "sessionid")); by vm_compute. Defined.
