(* ===== verification/WfMultipart.v ===== *)
(** * WfMultipart: a multipart form is read back as it was written *)
From S2P Require Import Prelude Codec WfRoute HttpParser WfHeader WfHeaderSafe.

(** The characters of a quoted string, and the string with its quotes escaped. *)
Definition quotable (c : Z) : Prop := c <> 0 /\ c <> 92 /\ c <> 13 /\ c <> 10.
Abbreviation esc := (bs_escape (fun c => c =? 34)).

(** ** Runs of the parameter loop *)

Section Runs.
Context (hv : bool).

Lemma loop_go l c r ep s s' fuel : s.(s_rp) = zlen l -> s.(s_rp) < ep ->
  (if s.(s_key) then Some (key_turn hv c s) else val_turn (rd (l ++ c :: r) (s.(s_rp) - 1)) c s) = Some (Go s') ->
  param_loop (S fuel) hv (l ++ c :: r) ep s = param_loop fuel hv (l ++ c :: r) ep s'.
Proof. intros Hl Hlt Ht. cbn [param_loop]. rewrite (proj2 (Z.ltb_lt _ _)) by done. rewrite Hl at 1. rewrite rd_middle. cbn [mbind option_bind]. by rewrite Ht. Qed.

Lemma loop_break l c r ep s s' fuel : s.(s_rp) = zlen l -> s.(s_rp) < ep ->
  (if s.(s_key) then Some (key_turn hv c s) else val_turn (rd (l ++ c :: r) (s.(s_rp) - 1)) c s) = Some (Break s') ->
  param_loop (S fuel) hv (l ++ c :: r) ep s = Some (Some s').
Proof. intros Hl Hlt Ht. cbn [param_loop]. rewrite (proj2 (Z.ltb_lt _ _)) by done. rewrite Hl at 1. rewrite rd_middle. cbn [mbind option_bind]. by rewrite Ht. Qed.

Lemma token_plain c : _c_is_token c false = true -> (c =? 61) = false /\ _c_is_space c = false /\ (c =? 59) = false /\ _c_is_lsep c = false \/ c = 32.
Proof.
  unfold _c_is_token. cbn [andb]. rewrite negb_true_iff, orb_false_iff. intros [Hc Ht]. unfold _c_is_tspecial in Ht. apply bool_decide_eq_false_1 in Ht.
  unfold _c_is_ctl in Hc. destruct (Z.eqb_spec c 32) as [->|H32]; [by right|left].
  assert (c <> 61 /\ c <> 59) as [H1 H2] by (split; intros ->; apply Ht; set_solver).
  assert (~ (0 <= c <= 31)) as Hn by (intros [? ?]; rewrite (proj2 (Z.leb_le 0 c)), (proj2 (Z.leb_le c 31)) in Hc by lia; done).
  unfold _c_is_space, _c_is_lsep. rewrite (proj2 (Z.eqb_neq c 61)), (proj2 (Z.eqb_neq c 59)), (proj2 (Z.eqb_neq c 32)), (proj2 (Z.eqb_neq c 9)), (proj2 (Z.eqb_neq c 13)), (proj2 (Z.eqb_neq c 10)) by lia.
  by split_and!.
Qed.

(** A word of the key: token characters without spaces; a slash not in front. *)
Definition key_char (c : Z) : bool := _c_is_token c false && negb (c =? 32).

Lemma run_key w : forall l r ep fuel q es ks vs ve, Forall (fun c => key_char c = true \/ hv = true /\ c = 47 /\ ks < zlen l) w -> ks <= zlen l -> zlen l + zlen w <= ep ->
  param_loop (length w + fuel) hv (l ++ w ++ r) ep (mkPst (zlen l) q true false es ks (zlen l) vs ve) =
  param_loop fuel hv (l ++ w ++ r) ep (mkPst (zlen l + zlen w) q true false es ks (zlen l + zlen w) vs ve).
Proof.
  induction w as [|c w IH]; intros l r ep fuel q es ks vs ve Hw Hks Hep.
  { change (zlen (@nil Z)) with 0. by rewrite Z.add_0_r. }
  apply Forall_cons in Hw as [Hc Hw]. rewrite zlen_cons in Hep. pose proof (zlen_nonneg w). cbn [length Nat.add app].
  rewrite (loop_go l c (w ++ r) ep _ (mkPst (zlen l + 1) q true false es ks (zlen l + 1) vs ve)); [|done|cbn [s_rp]; lia|].
  - specialize (IH (l ++ [c]) r ep fuel q es ks vs ve). rewrite zlen_app in IH. change (zlen [c]) with 1 in IH. rewrite <- app_assoc in IH. cbn [app] in IH.
    rewrite IH; [|eapply Forall_impl; [exact Hw|]; intros x [Hx|(Hx & Hx2 & Hx3)]; [by left|right; split; [done|split; [done|lia]]]|lia|lia].
    rewrite zlen_cons. replace (zlen l + 1 + zlen w) with (zlen l + (1 + zlen w)) by lia. done.
  - cbn [s_key]. f_equal. unfold key_turn. cbn [s_rp s_key s_vs s_ve s_quote s_ks s_ke s_expect_eq s_escaped negb andb]. destruct Hc as [Hc|(-> & -> & Hks')].
    + unfold key_char in Hc. apply andb_true_iff in Hc as [Ht Hn%negb_true_iff%Z.eqb_neq]. destruct (token_plain c Ht) as [(-> & -> & -> & ->)|?]; [|done].
      rewrite Ht, orb_true_r. by destruct hv.
    + cbn [Z.eqb Pos.eqb _c_is_space _c_is_lsep orb andb]. rewrite (proj2 (Z.eqb_neq _ _)) by lia. done.
Qed.

Lemma run_quoted w : forall l p r ep fuel eq es ks ke vs ve, Forall quotable w -> p <> 92 -> zlen l + 1 + zlen (esc w) <= ep ->
  param_loop (length (esc w) + fuel) hv (l ++ p :: esc w ++ r) ep (mkPst (zlen l + 1) true false eq es ks ke vs ve) =
  param_loop fuel hv (l ++ p :: esc w ++ r) ep (mkPst (zlen l + 1 + zlen (esc w)) true false eq (es || bool_decide (34 ∈ w)) ks ke vs ve).
Proof.
  induction w as [|c w IH]; intros l p r ep fuel eq es ks ke vs ve Hw Hp Hep.
  { unfold bs_escape. cbn [mbind list_bind length Nat.add app]. change (zlen (@nil Z)) with 0. rewrite bool_decide_false by (apply not_elem_of_nil). by rewrite orb_false_r, Z.add_0_r. }
  apply Forall_cons in Hw as [(Hc0 & Hc1 & Hc2 & Hc3) Hw].
  assert (esc (c :: w) = bs_piece (fun c => c =? 34) c ++ esc w) as E by (unfold bs_escape; by csimpl). rewrite E in Hep |- *. unfold bs_piece in Hep |- *. rewrite (proj2 (Z.eqb_neq c 92) Hc1) in Hep |- *. cbn [orb] in Hep |- *.
  pose proof (zlen_nonneg (esc w)). assert (forall k x y, rd ((k ++ [x]) ++ y) (zlen k + 1 - 1) = Some x) as Hb by (intros k x y; rewrite <- app_assoc; replace (zlen k + 1 - 1) with (zlen k) by lia; apply rd_middle).
  assert (forall k (x : Z), zlen k + 1 = zlen (k ++ [x])) as Hsn by (intros k x; by rewrite zlen_app).
  destruct (Z.eqb_spec c 34) as [->|Hc34]; cbn [app length Nat.add] in Hep |- *; rewrite !zlen_cons in Hep |- *; rewrite (cons_middle p l), app_assoc.
  - rewrite bool_decide_true, orb_true_r by set_solver.
    rewrite (loop_go (l ++ [p]) 92 _ ep _ (mkPst (zlen l + 1 + 1) true false eq es ks ke vs ve)); [|apply Hsn|cbn [s_rp]; lia|].
    2: { cbn [s_key s_rp]. rewrite Hb. unfold val_turn. cbn [s_quote mbind option_bind]. by rewrite (proj2 (Z.eqb_neq p 92) Hp). }
    rewrite (cons_middle 92 (l ++ [p])), app_assoc, (Hsn l p).
    rewrite (loop_go ((l ++ [p]) ++ [92]) 34 _ ep _ (mkPst (zlen (l ++ [p]) + 1 + 1) true false eq true ks ke vs ve)); [|cbn [s_rp]; apply Hsn|cbn [s_rp]; rewrite <- Hsn; lia|].
    2: { cbn [s_key s_rp]. rewrite Hb. done. }
    rewrite (Hsn (l ++ [p]) 92), IH by (done || (rewrite <- !Hsn; lia)). rewrite orb_true_l. do 2 f_equal. rewrite <- !Hsn. lia.
  - rewrite (loop_go (l ++ [p]) c _ ep _ (mkPst (zlen l + 1 + 1) true false eq es ks ke vs ve)); [|apply Hsn|cbn [s_rp]; lia|].
    2: { cbn [s_key s_rp]. rewrite Hb. unfold val_turn. cbn [s_quote s_rp mbind option_bind]. rewrite (proj2 (Z.eqb_neq p 92) Hp), (proj2 (Z.eqb_neq c 34) Hc34).
         unfold _c_is_lsep. by rewrite (proj2 (Z.eqb_neq c 13)), (proj2 (Z.eqb_neq c 10)) by done. }
    rewrite (Hsn l p), IH by (done || (rewrite <- !Hsn; lia)).
    assert (bool_decide (34 ∈ c :: w) = bool_decide (34 ∈ w)) as -> by (apply bool_decide_ext; set_solver). do 2 f_equal. rewrite <- !Hsn. lia.
Qed.
End Runs.

(** ** One parameter *)

Lemma fuel_split a b n : a + Z.of_nat n <= b -> exists k, Z.to_nat (b - a) = (n + k)%nat.
Proof. intros H. exists (Z.to_nat (b - a) - n)%nat. lia. Qed.

(** The value of a header up to a semicolon or to the end of the line. *)
Lemma param_first l w x r ep : w <> [] -> Forall (fun c => key_char c = true \/ c = 47) w -> head w <> Some 47 -> x = 59 \/ x = 13 -> zlen l + 2 + zlen w < ep ->
  let buf := l ++ [58; 32] ++ w ++ x :: r in
  _header_parse_next_parameter buf (zlen l) ep =
    Some (buf, Some (zlen l + 2 + zlen w + (if x =? 59 then 1 else 0), mkParam (zlen l + 2) (zlen w) (Some (zlen l + 2 + zlen w)) 0)).
Proof.
  intros Hne Hw Hh Hx Hep buf. unfold _header_parse_next_parameter. assert (rd buf (zlen l) = Some 58) as -> by apply rd_middle. cbn [mbind option_bind Z.eqb Pos.eqb].
  unfold _header_parse_next_parameter2. pose proof (zlen_nonneg w). rewrite (proj2 (Z.leb_gt _ _)) by lia.
  assert (buf = (l ++ [58]) ++ 32 :: w ++ x :: r) as E1 by (unfold buf; by rewrite <- app_assoc). assert (zlen l + 1 = zlen (l ++ [58])) as H1 by (by rewrite zlen_app).
  assert (rd buf (zlen l + 1) = Some 32) as -> by (rewrite E1, H1; apply rd_middle). cbn [mbind option_bind _c_is_lsep Z.eqb Pos.eqb orb].
  destruct w as [|c w]; [done|]. apply Forall_cons in Hw as [Hc Hw]. assert (key_char c = true) as Hc' by (destruct Hc as [?| ->]; [done|by destruct Hh]). rewrite !zlen_cons in Hep |- *. pose proof (zlen_nonneg w).
  destruct (fuel_split (zlen l + 1) ep (1 + (1 + (length w + 1)))) as (k & ->); [unfold zlen in *; lia|].
  rewrite E1 at 1. rewrite H1. unfold pst_start. change (1 + (1 + (length w + 1)) + k)%nat with (S (S ((length w + 1) + k))).
  rewrite (loop_go true (l ++ [58]) 32 _ ep _ (mkPst (zlen (l ++ [58]) + 1) false true false false (zlen (l ++ [58]) + 1) (zlen (l ++ [58]) + 1) None None)); [|done|cbn [s_rp]; lia|].
  2: { cbn [s_key key_turn _c_is_space Z.eqb Pos.eqb orb s_ke s_ks s_rp]. rewrite Z.eqb_refl. done. }
  assert (zlen (l ++ [58]) + 1 = zlen (l ++ [58; 32])) as H2 by (rewrite !zlen_app; change (zlen [58; 32]) with 2; change (zlen [58]) with 1; lia). rewrite H2.
  replace ((l ++ [58]) ++ 32 :: (c :: w) ++ x :: r) with ((l ++ [58; 32]) ++ [c] ++ w ++ x :: r) by (by rewrite <- !app_assoc).
  change (S (length w + 1 + k)) with (length [c] + (length w + 1 + k))%nat.
  rewrite run_key; [|constructor; [by left|constructor]|lia|change (zlen [c]) with 1; lia]. change (zlen [c]) with 1.
  assert (zlen (l ++ [58; 32]) + 1 = zlen ((l ++ [58; 32]) ++ [c])) as H3 by (rewrite (zlen_app _ [c]); done). rewrite H3, (app_assoc (l ++ [58; 32]) [c]), <- Nat.add_assoc.
  rewrite run_key; [| |lia|lia].
  2: { eapply Forall_impl; [exact Hw|]. intros y [Hy| ->]; [by left|]. right. split; [done|]. split; [done|]. lia. }
  set (l3 := (l ++ [58; 32]) ++ [c]) in *. assert (zlen l3 + zlen w = zlen (l3 ++ w)) as H4 by (by rewrite zlen_app). rewrite H4, (app_assoc l3).
  assert (zlen (l3 ++ w) = zlen l + 2 + (1 + zlen w)) as H5 by (unfold l3; rewrite !zlen_app; change (zlen [58; 32]) with 2; change (zlen [c]) with 1; lia).
  rewrite (loop_break true (l3 ++ w) x r ep _ (mkPst (zlen (l3 ++ w) + (if x =? 59 then 1 else 0)) false true false false (zlen (l ++ [58; 32])) (zlen (l3 ++ w)) (Some (zlen (l3 ++ w))) (Some (zlen (l3 ++ w))))); [|done|cbn [s_rp]; lia|].
  2: { cbn [s_key]. f_equal. destruct Hx as [-> | ->]; cbn; [done|by rewrite Z.add_0_r]. }
  cbn [mbind option_bind s_ve s_vs s_escaped s_rp s_ks s_ke]. rewrite H5, <- H2, <- H1. feq.
Qed.

(** Between two parameters. *)
Lemma param_semicolon l r ep : zlen l < ep ->
  _header_parse_next_parameter (l ++ 59 :: r) (zlen l) ep = Some (l ++ 59 :: r, Some (zlen l + 1, mkParam (zlen l) 0 (Some (zlen l)) 0)).
Proof.
  intros Hep. unfold _header_parse_next_parameter. rewrite rd_middle. cbn [mbind option_bind Z.eqb Pos.eqb]. unfold _header_parse_next_parameter2. rewrite (proj2 (Z.leb_gt _ _)), rd_middle by lia.
  cbn [mbind option_bind _c_is_lsep Z.eqb Pos.eqb orb]. destruct (Z.to_nat (ep - zlen l)) as [|n] eqn:En; [lia|]. rewrite (loop_break false l 59 r ep (pst_start (zlen l)) (mkPst (zlen l + 1) false true false false (zlen l) (zlen l) (Some (zlen l)) (Some (zlen l)))) by (done || cbn; lia).
  cbn. by rewrite Z.sub_diag.
Qed.

(** At the end of the line. *)
Lemma param_line_end l r ep : _header_parse_next_parameter (l ++ 13 :: r) (zlen l) ep = Some (l ++ 13 :: r, None).
Proof. unfold _header_parse_next_parameter. rewrite rd_middle. cbn [mbind option_bind Z.eqb Pos.eqb]. unfold _header_parse_next_parameter2. destruct (ep <=? zlen l); [done|]. by rewrite rd_middle. Qed.

(** A quoted string without quotes is written as it is. *)
Lemma esc_plain w : Forall quotable w -> 34 ∉ w -> esc w = w.
Proof.
  intros Hw Hn. induction Hw as [|c w (_ & Hc & _) _ IH]; [done|]. unfold bs_escape in *. csimpl. rewrite IH by set_solver. unfold bs_piece.
  rewrite (proj2 (Z.eqb_neq c 92) Hc), (proj2 (Z.eqb_neq c 34)) by set_solver. done.
Qed.

(** The character in front of the closing quote is not a backslash. *)
Lemma esc_last w : forall l p r, Forall quotable w -> p <> 92 -> exists x, rd (l ++ p :: esc w ++ r) (zlen l + zlen (esc w)) = Some x /\ x <> 92.
Proof.
  induction w as [|c w IH]; intros l p r Hw Hp.
  { unfold bs_escape. cbn [mbind list_bind app]. change (zlen (@nil Z)) with 0. rewrite Z.add_0_r, rd_middle. eauto. }
  apply Forall_cons in Hw as [(_ & Hc & _) Hw]. assert (esc (c :: w) = bs_piece (fun c => c =? 34) c ++ esc w) as -> by (unfold bs_escape; by csimpl). unfold bs_piece.
  rewrite (proj2 (Z.eqb_neq c 92) Hc). cbn [orb]. destruct (Z.eqb_spec c 34) as [->|]; cbn [app]; rewrite !zlen_cons.
  - destruct (IH (l ++ [p; 92]) 34 r Hw ltac:(done)) as (x & E & Hx). exists x. split; [|done]. rewrite <- E, <- app_assoc, zlen_app. change (zlen [p; 92]) with 2. cbn [app]. f_equal. lia.
  - destruct (IH (l ++ [p]) c r Hw Hc) as (x & E & Hx). exists x. split; [|done]. rewrite <- E, <- app_assoc, zlen_app. change (zlen [p]) with 1. cbn [app]. f_equal. lia.
Qed.

(** A key and its quoted value, from the first character of the key on. *)
Lemma loop_quoted hv l key w r ep k : Forall (fun c => key_char c = true) key -> Forall quotable w -> zlen l + zlen key + 2 + zlen (esc w) < ep ->
  let v := zlen l + zlen key + 2 in
  param_loop (length key + (1 + (1 + (length (esc w) + 1))) + k) hv (l ++ key ++ [61; 34] ++ esc w ++ 34 :: r) ep (mkPst (zlen l) false true false false (zlen l) (zlen l) None None) =
  Some (Some (mkPst (v + zlen (esc w) + 1) true false false (bool_decide (34 ∈ w)) (zlen l) (zlen l + zlen key) (Some v) (Some (v + zlen (esc w))))).
Proof.
  intros Hkey Hw Hep v. pose proof (zlen_nonneg key). pose proof (zlen_nonneg (esc w)). rewrite <- Nat.add_assoc.
  rewrite run_key; [|eapply Forall_impl; [exact Hkey|]; by left|lia|lia].
  assert (zlen l + zlen key = zlen (l ++ key)) as H2 by (by rewrite zlen_app). rewrite H2, (app_assoc l). set (l2 := l ++ key) in *. cbn [app].
  change (1 + (1 + (length (esc w) + 1)) + k)%nat with (S (S (length (esc w) + 1 + k))).
  rewrite (loop_go hv l2 61 _ ep _ (mkPst (zlen l2 + 1) false false false false (zlen l) (zlen l2) (Some (zlen l2 + 1)) None)); [|done|cbn [s_rp]; lia|by destruct hv].
  assert (zlen l2 + 1 = zlen (l2 ++ [61])) as H3 by (by rewrite zlen_app). rewrite H3, (cons_middle 61 l2), (app_assoc l2 [61]). set (l3 := l2 ++ [61]) in *.
  rewrite (loop_go hv l3 34 _ ep _ (mkPst (zlen l3 + 1) true false false false (zlen l) (zlen l2) (Some (zlen l3 + 1)) (Some (zlen l3 + 1)))); [|done|cbn [s_rp]; lia|].
  2: { cbn [s_key s_rp]. unfold val_turn. cbn [s_quote s_vs s_rp]. rewrite bool_decide_true by done. done. }
  rewrite <- Nat.add_assoc. rewrite run_quoted by (done || lia). assert (v = zlen l3 + 1) as Ev by lia. rewrite <- Ev. cbn [orb].
  assert (v + zlen (esc w) = zlen (l3 ++ 34 :: esc w)) as H5 by (rewrite zlen_app, zlen_cons; lia).
  change (1 + k)%nat with (S k). replace (l3 ++ 34 :: esc w ++ 34 :: r) with ((l3 ++ 34 :: esc w) ++ 34 :: r) by (by rewrite <- app_assoc).
  apply loop_break; [by rewrite H5|cbn [s_rp]; lia|]. cbn [s_key s_rp]. destruct (esc_last w l3 34 (34 :: r) Hw ltac:(done)) as (x & Ex & Hx). rewrite <- app_assoc. cbn [app].
  replace (v + zlen (esc w) - 1) with (zlen l3 + zlen (esc w)) by lia. rewrite Ex. unfold val_turn. cbn [s_quote s_rp mbind option_bind]. by rewrite (proj2 (Z.eqb_neq x 92) Hx).
Qed.

(** The quotes of the value are unescaped in place. *)
Lemma value_quoted l w r : Forall quotable w -> exists g, zlen w + zlen g = zlen (esc w) /\
  (if bool_decide (34 ∈ w) then unescape_at (l ++ esc w ++ 34 :: r) (zlen l) (zlen (esc w)) else Some (l ++ esc w ++ 34 :: r, zlen (esc w))) = Some (l ++ w ++ g ++ 34 :: r, zlen w).
Proof.
  intros Hw. destruct (bool_decide (34 ∈ w)) eqn:Eb.
  - unfold unescape_at. rewrite from_ptr_some by (rewrite !zlen_app, !zlen_cons; pose proof (zlen_nonneg r); pose proof (zlen_nonneg l); pose proof (zlen_nonneg (esc w)); lia). cbn [mbind option_bind].
    assert (Z.to_nat (zlen l) = length l) as -> by (unfold zlen; lia). rewrite drop_app_length, take_app_length. unfold iwn_unescape_backslashes_inplace.
    destruct (unescape_loop_spec (fun c => c =? 34) (Z.to_nat (zlen (esc w))) w [] [] (34 :: r) (zlen (esc w))) as (g & E & Hg).
    + eapply Forall_impl; [exact Hw|]. by intros c (? & _).
    + unfold zlen. rewrite Nat2Z.id. clear. unfold bs_escape. induction w as [|c w IH]; csimpl; [done|]. rewrite length_app. unfold bs_piece at 1. destruct (_ || _); cbn [length]; lia.
    + done.
    + change (zlen []) with 0 in E, Hg. cbn [app] in E. change (0 + 0) with 0 in E. rewrite Z.add_0_l in E. rewrite E. cbn [mbind option_bind]. exists g. split; [lia|done].
  - apply bool_decide_eq_false_1 in Eb. rewrite (esc_plain w Hw Eb) in *. exists []. split; [change (zlen (@nil Z)) with 0; lia|done].
Qed.

(** What is done at the end of the loop. *)
Lemma quoted_end l key w r : Forall quotable w -> exists g, zlen w + zlen g = zlen (esc w) /\ forall (p ks kl : Z), let v := zlen l + zlen key + 2 in
  (if bool_decide (34 ∈ w) then '(buf, n) ← unescape_at (l ++ key ++ [61; 34] ++ esc w ++ 34 :: r) v (v + zlen (esc w) - v); Some (buf, Some (p, mkParam ks kl (Some v) n))
   else Some (l ++ key ++ [61; 34] ++ esc w ++ 34 :: r, Some (p, mkParam ks kl (Some v) (v + zlen (esc w) - v)))) =
  Some (l ++ key ++ [61; 34] ++ w ++ g ++ 34 :: r, Some (p, mkParam ks kl (Some v) (zlen w))).
Proof.
  intros Hw. destruct (value_quoted (l ++ key ++ [61; 34]) w r Hw) as (g & Hg & E). exists g. split; [done|]. intros p ks kl v.
  replace (v + zlen (esc w) - v) with (zlen (esc w)) by lia. assert (zlen (l ++ key ++ [61; 34]) = v) as Ev by (rewrite !zlen_app; change (zlen [61; 34]) with 2; unfold v; lia).
  rewrite <- !app_assoc, Ev in E. destruct (bool_decide (34 ∈ w)); [by rewrite E|]. apply (inj Some), pair_equal_spec in E as [-> ->]. done.
Qed.

(** The first parameter of a value. *)
Lemma first_quoted hv l key w r ep : key <> [] -> Forall (fun c => key_char c = true) key -> Forall quotable w -> zlen l + zlen key + 2 + zlen (esc w) < ep ->
  exists g, zlen w + zlen g = zlen (esc w) /\
  _header_parse_next_parameter2 hv (l ++ key ++ [61; 34] ++ esc w ++ 34 :: r) (zlen l) ep =
    Some (l ++ key ++ [61; 34] ++ w ++ g ++ 34 :: r,
          Some (zlen l + zlen key + 2 + zlen (esc w) + 1, mkParam (zlen l) (zlen key) (Some (zlen l + zlen key + 2)) (zlen w))).
Proof.
  intros Hne Hkey Hw Hep. destruct (quoted_end l key w r Hw) as (g & Hg & E). exists g. split; [done|]. unfold _header_parse_next_parameter2.
  pose proof (zlen_nonneg key). pose proof (zlen_nonneg (esc w)). rewrite (proj2 (Z.leb_gt _ _)) by lia. destruct key as [|c key]; [done|]. cbn [app] in E |- *. rewrite rd_middle. cbn [mbind option_bind].
  assert (_c_is_lsep c = false) as ->. { apply Forall_cons in Hkey as [[Ht Hn%negb_true_iff%Z.eqb_neq]%andb_true_iff _]. by destruct (token_plain c Ht) as [(_ & _ & _ & ?)|?]. }
  destruct (fuel_split (zlen l) ep (length (c :: key) + (1 + (1 + (length (esc w) + 1))))) as (k & ->); [unfold zlen in *; cbn [length] in *; lia|].
  unfold pst_start. pose proof (loop_quoted hv l (c :: key) w r ep k Hkey Hw Hep) as El. cbn [app] in El. rewrite El. cbn [mbind option_bind s_ve s_vs s_escaped s_rp s_ks s_ke].
  replace (zlen l + zlen (c :: key) - zlen l) with (zlen (c :: key)) by lia. apply E.
Qed.

(** A parameter with a quoted value, behind a space. *)
Lemma param_quoted l key w r ep : key <> [] -> Forall (fun c => key_char c = true) key -> Forall quotable w ->
  zlen l + 1 + zlen key + 2 + zlen (esc w) < ep ->
  exists g, zlen w + zlen g = zlen (esc w) /\
  _header_parse_next_parameter (l ++ 32 :: key ++ [61; 34] ++ esc w ++ 34 :: r) (zlen l) ep =
    Some (l ++ 32 :: key ++ [61; 34] ++ w ++ g ++ 34 :: r,
          Some (zlen l + 1 + zlen key + 2 + zlen (esc w) + 1, mkParam (zlen l + 1) (zlen key) (Some (zlen l + 1 + zlen key + 2)) (zlen w))).
Proof.
  intros Hne Hkey Hw Hep. destruct (quoted_end (l ++ [32]) key w r Hw) as (g & Hg & E). exists g. split; [done|]. unfold _header_parse_next_parameter. rewrite rd_middle. cbn [mbind option_bind Z.eqb Pos.eqb]. unfold _header_parse_next_parameter2.
  pose proof (zlen_nonneg key). pose proof (zlen_nonneg (esc w)). rewrite (proj2 (Z.leb_gt _ _)), rd_middle by lia. cbn [mbind option_bind _c_is_lsep Z.eqb Pos.eqb orb].
  destruct (fuel_split (zlen l) ep (1 + (length key + (1 + (1 + (length (esc w) + 1)))))) as (k & ->); [unfold zlen in *; lia|].
  change (1 + (length key + (1 + (1 + (length (esc w) + 1)))) + k)%nat with (S (length key + (1 + (1 + (length (esc w) + 1))) + k)).
  unfold pst_start. rewrite (loop_go false l 32 _ ep _ (mkPst (zlen l + 1) false true false false (zlen l + 1) (zlen l + 1) None None)); [|done|cbn [s_rp]; lia|].
  2: { cbn [s_key key_turn _c_is_space Z.eqb Pos.eqb orb s_ke s_ks s_rp]. rewrite Z.eqb_refl. done. }
  assert (zlen l + 1 = zlen (l ++ [32])) as H1 by (by rewrite zlen_app). rewrite !(cons_middle 32 l), !(app_assoc l [32]), H1. rewrite H1 in Hep.
  rewrite loop_quoted by (done || lia). cbn [mbind option_bind s_ve s_vs s_escaped s_rp s_ks s_ke]. replace (zlen (l ++ [32]) + zlen key - zlen (l ++ [32])) with (zlen key) by lia. apply E.
Qed.

(** ** Comparisons with words *)

Lemma strncasecmp_word w1 : forall w2 r, map lower w1 = map lower w2 -> Forall (fun c => c <> 0) w1 -> strncasecmp_same (w1 ++ r) (w2 ++ [0]) (zlen w1) = Some true.
Proof.
  induction w1 as [|x w1 IH]; intros [|y w2] r E Hn; cbn [map] in E; try done.
  { destruct r; reflexivity. }
  injection E as E1 E2. apply Forall_cons in Hn as [Hx Hn]. rewrite zlen_cons. pose proof (zlen_nonneg w1). cbn [app strncasecmp_same]. rewrite (proj2 (Z.leb_gt _ _)) by lia.
  rewrite (proj2 (Z.eqb_eq _ _) E1), (proj2 (Z.eqb_neq x 0) Hx). replace (1 + zlen w1 - 1) with (zlen w1) by lia. by apply IH.
Qed.

Lemma strncasecmp_at_word l w r lit n : map lower w = map lower (bytes_of_string lit) -> Forall (fun c => c <> 0) w -> n = zlen w ->
  strncasecmp_at (l ++ w ++ r) (zlen l) lit n = Some true.
Proof.
  intros E Hn ->. unfold strncasecmp_at. rewrite from_ptr_some by (rewrite zlen_app; pose proof (zlen_nonneg l); pose proof (zlen_nonneg (w ++ r)); lia). cbn [mbind option_bind].
  unfold zlen at 1. rewrite Nat2Z.id, drop_app_length. by apply strncasecmp_word.
Qed.

Lemma bytes_at_prefix w : forall l s, zlen w <= zlen s -> bytes_at (l ++ s) (zlen l) w = Some (bool_decide (w `prefix_of` s)).
Proof.
  induction w as [|x w IH]; intros l s Hs; cbn [bytes_at]; [by rewrite bool_decide_true by apply prefix_nil|]. rewrite zlen_cons in Hs. pose proof (zlen_nonneg w).
  destruct s as [|y s]; [change (zlen (@nil Z)) with 0 in Hs; lia|]. rewrite zlen_cons in Hs. rewrite rd_middle. cbn [mbind option_bind]. destruct (Z.eqb_spec y x) as [->|Hne].
  - rewrite (cons_middle x l), app_assoc. replace (zlen l + 1) with (zlen (l ++ [x])) by (by rewrite zlen_app). rewrite IH by lia. f_equal. apply bool_decide_ext.
    split; [by apply prefix_cons|by intros ?%prefix_cons_inv_2].
  - f_equal. rewrite bool_decide_false; [done|]. by intros ?%prefix_cons_inv_1.
Qed.

Lemma strncmp_word b : forall s, Forall (fun c => c <> 0) b -> zlen b <= zlen s -> strncmp_same s (b ++ [0]) (zlen b) = Some (bool_decide (b `prefix_of` s)).
Proof.
  induction b as [|y b IH]; intros s Hb Hs; [rewrite bool_decide_true by apply prefix_nil; by destruct s|]. apply Forall_cons in Hb as [Hy Hb]. rewrite zlen_cons in Hs |- *. pose proof (zlen_nonneg b).
  destruct s as [|x s]; [change (zlen (@nil Z)) with 0 in Hs; lia|]. rewrite zlen_cons in Hs. cbn [app strncmp_same]. rewrite (proj2 (Z.leb_gt _ _)) by lia. destruct (Z.eqb_spec x y) as [->|Hne].
  - rewrite (proj2 (Z.eqb_neq y 0) Hy). replace (1 + zlen b - 1) with (zlen b) by lia. rewrite IH by (done || lia). f_equal. apply bool_decide_ext. split; [by apply prefix_cons|by intros ?%prefix_cons_inv_2].
  - rewrite bool_decide_false; [done|]. intros ?%prefix_cons_inv_1. congruence.
Qed.

Lemma strncmp_at_word l s b : Forall (fun c => c <> 0) b -> zlen b <= zlen s -> strncmp_at (l ++ s) (zlen l) (b ++ [0]) (zlen b) = Some (bool_decide (b `prefix_of` s)).
Proof.
  intros Hb Hs. unfold strncmp_at. rewrite from_ptr_some by (rewrite zlen_app; pose proof (zlen_nonneg l); pose proof (zlen_nonneg s); lia). cbn [mbind option_bind].
  unfold zlen at 1. rewrite Nat2Z.id, drop_app_length. by apply strncmp_word.
Qed.

Lemma crlf_here l r ep : zlen l + 2 <= ep -> crlf_at (l ++ 13 :: 10 :: r) (zlen l) ep = Some true.
Proof.
  intros H. unfold crlf_at. rewrite (proj2 (Z.ltb_ge _ _)) by lia. rewrite bytes_at_prefix by (rewrite !zlen_cons; change (zlen []) with 0; pose proof (zlen_nonneg r); lia).
  rewrite bool_decide_true; [done|]. by exists r.
Qed.

(** ** Names of headers *)

Lemma skip_name_word w : forall l r ep sp fuel, Forall (fun c => key_char c = true) w -> sp < zlen l + zlen w -> zlen l + zlen w < ep -> (length w < fuel)%nat ->
  skip_name_loop fuel (l ++ w ++ 58 :: r) sp (zlen l) ep = Some (Some (zlen l + zlen w)).
Proof.
  induction w as [|c w IH]; intros l r ep sp fuel Hw Hsp Hep Hf; (destruct fuel as [|fuel]; [lia|]); cbn [skip_name_loop].
  - change (zlen (@nil Z)) with 0 in *. rewrite (proj2 (Z.ltb_lt _ _)) by lia. cbn [app]. rewrite rd_middle. cbn [mbind option_bind Z.eqb Pos.eqb]. rewrite (proj2 (Z.ltb_lt sp _)) by lia. by rewrite Z.add_0_r.
  - apply Forall_cons in Hw as [Hc Hw]. rewrite zlen_cons in Hsp, Hep |- *. cbn [length] in Hf. pose proof (zlen_nonneg w). rewrite (proj2 (Z.ltb_lt (zlen l) _)) by lia. cbn [app]. rewrite rd_middle.
    cbn [mbind option_bind]. unfold key_char in Hc. apply andb_true_iff in Hc as [Hc _]. assert (c <> 58) as H58 by (intros ->; by vm_compute in Hc). rewrite (proj2 (Z.eqb_neq c 58) H58), Hc. cbn [negb].
    specialize (IH (l ++ [c]) r ep sp fuel Hw). rewrite <- app_assoc, zlen_app in IH. change (zlen [c]) with 1 in IH. cbn [app] in IH. rewrite IH by lia. do 2 f_equal. lia.
Qed.

Lemma skip_name_none l r ep : zlen l < ep -> _header_parse_skip_name (l ++ 13 :: r) (zlen l) ep = Some None.
Proof.
  intros H. unfold _header_parse_skip_name. destruct (Z.to_nat (ep - zlen l)) as [|n] eqn:E; [lia|]. cbn [skip_name_loop]. rewrite (proj2 (Z.ltb_lt _ _)) by done. by rewrite rd_middle.
Qed.

(** A word, a value in the buffer. *)
Definition val_at (buf : list Z) (v : mval) (w : list Z) : Prop := exists a z, v = (Some (zlen a), zlen w) /\ buf = a ++ w ++ z.

Lemma val_at_app buf r v w : val_at buf v w -> val_at (buf ++ r) v w.
Proof. intros (a & z & -> & ->). exists a, (z ++ r). split; [done|]. by rewrite <- !app_assoc. Qed.

(** ** The headers of a part *)

Abbreviation word := bytes_of_string.

Definition quoted_param (key : string) (w : list Z) : list Z := 32 :: word key ++ [61; 34] ++ esc w ++ [34].
Definition disp_text (n : list Z) (fo : option (list Z)) : list Z :=
  word ": form-data;" ++ quoted_param "name" n ++ match fo with Some f => 59 :: quoted_param "filename" f | None => [] end.

Lemma key_is_word l w r kv lit : kv.(pk) = zlen l -> kv.(pk_len) = zlen w -> map lower w = map lower (word lit) -> Forall (fun c => c <> 0) w -> key_is (l ++ w ++ r) kv lit = Some true.
Proof.
  intros Hp Hl E Hn. unfold key_is. rewrite Hl, Hp. assert (zlen w = zlen (word lit)) as Hlen by (unfold zlen; by rewrite <- (length_map lower w), E, length_map).
  rewrite <- Hlen, Z.eqb_refl. by apply strncasecmp_at_word.
Qed.

Lemma key_is_other buf kv lit : kv.(pk_len) <> zlen (word lit) -> key_is buf kv lit = Some false.
Proof. intros H. unfold key_is. by rewrite (proj2 (Z.eqb_neq _ _)). Qed.

(** A parameter of [content-disposition]. *)
Definition disp_param (buf : list Z) (first : bool) (kv : param) (st : mst) : option mst :=
  if first then Some {| st with m_disp := (Some kv.(pk), kv.(pk_len)) |}
  else match kv.(pv) with
       | None => Some st
       | Some _ =>
           n ← key_is buf kv "name";
           if (n : bool) then Some {| st with m_name := (kv.(pv), kv.(pv_len)) |}
           else f ← key_is buf kv "filename"; Some (if (f : bool) then {| st with m_file := (kv.(pv), kv.(pv_len)) |} else st)
       end.

Lemma disp_loop_some fuel buf rp ep first st buf' pp kv st' : _header_parse_next_parameter buf rp ep = Some (buf', Some (pp, kv)) -> disp_param buf' first kv st = Some st' ->
  disp_loop (S fuel) buf rp ep first st = disp_loop fuel buf' pp ep false st'.
Proof. intros E1 E2. cbn [disp_loop]. rewrite E1. cbn [mbind option_bind]. fold (disp_param buf' first kv st). by rewrite E2. Qed.

(** Reading a quoted parameter of [content-disposition]. *)
Lemma disp_quoted l key w r ep st fuel : key = "name"%string \/ key = "filename"%string -> Forall quotable w -> zlen l + zlen (quoted_param key w) <= ep ->
  exists m v, zlen m = zlen (quoted_param key w) /\ val_at (l ++ m) v w /\
  disp_loop (S fuel) (l ++ quoted_param key w ++ r) (zlen l) ep false st =
  disp_loop fuel ((l ++ m) ++ r) (zlen (l ++ m)) ep false (if bool_decide (key = "name"%string) then {| st with m_name := v |} else {| st with m_file := v |}).
Proof.
  intros Hkey Hw Hep. assert (word key <> [] /\ Forall (fun c => key_char c = true) (word key) /\ Forall (fun c => c <> 0) (word key)) as (Hk1 & Hk2 & Hk3).
  { destruct Hkey as [-> | ->]; (split; [done|]; split; [by apply (bool_decide_eq_true_1 (Forall _ _))|by apply (bool_decide_eq_true_1 (Forall _ _))]). }
  unfold quoted_param in Hep |- *. rewrite zlen_cons, !zlen_app in Hep. change (zlen [61; 34]) with 2 in Hep. change (zlen [34]) with 1 in Hep.
  destruct (param_quoted l (word key) w r ep Hk1 Hk2 Hw) as (g & Hg & E); [lia|].
  exists (32 :: word key ++ [61; 34] ++ w ++ g ++ [34]), (Some (zlen l + 1 + zlen (word key) + 2), zlen w).
  assert (zlen (32 :: word key ++ [61; 34] ++ w ++ g ++ [34]) = 1 + zlen (word key) + 2 + zlen (esc w) + 1) as Hm.
  { rewrite zlen_cons, !zlen_app. change (zlen [61; 34]) with 2. change (zlen [34]) with 1. lia. }
  split; [rewrite Hm, zlen_cons, !zlen_app; change (zlen [61; 34]) with 2; change (zlen [34]) with 1; lia|]. split.
  { exists (l ++ 32 :: word key ++ [61; 34]), (g ++ [34]). split; [|by rewrite <- !app_assoc; cbn [app]; rewrite <- app_assoc]. rewrite zlen_app, zlen_cons, zlen_app. change (zlen [61; 34]) with 2. feq. }
  cbn [disp_loop]. replace (l ++ (32 :: word key ++ [61; 34] ++ esc w ++ [34]) ++ r) with (l ++ 32 :: word key ++ [61; 34] ++ esc w ++ 34 :: r) by (cbn [app]; rewrite <- !app_assoc; cbn [app]; by rewrite <- app_assoc).
  rewrite E. cbn [mbind option_bind pv pv_len].
  assert (l ++ 32 :: word key ++ [61; 34] ++ w ++ g ++ 34 :: r = (l ++ 32 :: word key ++ [61; 34] ++ w ++ g ++ [34]) ++ r) as Eb by (rewrite <- app_assoc; cbn [app]; rewrite <- !app_assoc; cbn [app]; by rewrite <- !app_assoc).
  assert (forall lit, word key = word lit -> key_is (l ++ 32 :: word key ++ [61; 34] ++ w ++ g ++ 34 :: r) (mkParam (zlen l + 1) (zlen (word key)) (Some (zlen l + 1 + zlen (word key) + 2)) (zlen w)) lit = Some true) as His.
  { intros lit El. rewrite (cons_middle 32 l), app_assoc. apply key_is_word; [by rewrite zlen_app|done|by rewrite El|done]. }
  assert (zlen l + 1 + zlen (word key) + 2 + zlen (esc w) + 1 = zlen (l ++ 32 :: word key ++ [61; 34] ++ w ++ g ++ [34])) as Hp by (rewrite zlen_app, Hm; lia).
  destruct Hkey as [-> | ->].
  - rewrite (His "name"%string eq_refl). cbn [mbind option_bind]. rewrite Eb, Hp, bool_decide_true by done. done.
  - rewrite (key_is_other _ _ "name") by done. cbn [mbind option_bind]. rewrite (His "filename"%string eq_refl). cbn [mbind option_bind]. rewrite Eb, Hp, bool_decide_false by done. done.
Qed.

Lemma disp_loop_end l r ep first st fuel : disp_loop (S fuel) (l ++ 13 :: r) (zlen l) ep first st = Some (l ++ 13 :: r, zlen l, st).
Proof. cbn [disp_loop]. by rewrite param_line_end. Qed.

Definition opt_at (buf : list Z) (v : mval) (wo : option (list Z)) : Prop := match wo with Some w => val_at buf v w | None => v.2 = 0 end.

Lemma opt_at_app buf r v w : opt_at buf v w -> opt_at (buf ++ r) v w.
Proof. destruct w; [apply val_at_app|done]. Qed.

Lemma disp_loop_reads l n fo r ep st fuel : Forall quotable n -> Forall quotable (default [] fo) -> zlen l + zlen (disp_text n fo) < ep -> (6 <= fuel)%nat -> st.(m_file).2 = 0 ->
  exists m st', disp_loop fuel (l ++ disp_text n fo ++ 13 :: r) (zlen l) ep true st = Some ((l ++ m) ++ 13 :: r, zlen (l ++ m), st') /\ zlen m = zlen (disp_text n fo) /\
    val_at (l ++ m) st'.(m_disp) (word "form-data") /\ val_at (l ++ m) st'.(m_name) n /\ opt_at (l ++ m) st'.(m_file) fo /\ st'.(m_ctype) = st.(m_ctype).
Proof.
  intros Hn Hf Hep Hfuel Hst. unfold disp_text in Hep |- *. rewrite !zlen_app in Hep. change (zlen (word ": form-data;")) with 12 in Hep.
  pose proof (zlen_nonneg (quoted_param "name" n)). pose proof (zlen_nonneg (match fo with Some f => 59 :: quoted_param "filename" f | None => [] end)).
  destruct fuel as [|[|[|[|[|fuel]]]]]; try lia. rewrite <- !app_assoc. set (F := match fo with Some f => 59 :: quoted_param "filename" f | None => [] end) in *.
  set (l1 := l ++ word ": form-data;"). assert (zlen l1 = zlen l + 12) as Hl1 by (unfold l1; by rewrite zlen_app).
  set (st1 := {| st with m_disp := (Some (zlen l + 2), 9) |}).
  assert (disp_loop (S (S (S (S (S fuel))))) (l ++ word ": form-data;" ++ quoted_param "name" n ++ F ++ 13 :: r) (zlen l) ep true st =
    disp_loop (S (S (S (S fuel)))) (l1 ++ quoted_param "name" n ++ F ++ 13 :: r) (zlen l1) ep false st1) as ->.
  { pose proof (param_first l (word "form-data") 59 (quoted_param "name" n ++ F ++ 13 :: r) ep) as E. cbv zeta in E. change (zlen (word "form-data")) with 9 in E.
    change (l ++ word ": form-data;" ++ quoted_param "name" n ++ F ++ 13 :: r) with (l ++ [58; 32] ++ word "form-data" ++ 59 :: quoted_param "name" n ++ F ++ 13 :: r).
    erewrite disp_loop_some; [|apply E; [done| |done|by left|lia]|reflexivity]. 2: { eapply Forall_impl; [by apply (bool_decide_eq_true_1 (Forall (fun c => key_char c = true) (word "form-data")))|]. by left. }
    cbn [Z.eqb Pos.eqb pk pk_len]. rewrite Hl1. replace (zlen l + 2 + 9 + 1) with (zlen l + 12) by lia. unfold l1, st1. by rewrite <- app_assoc. }
  assert (val_at l1 (Some (zlen l + 2), 9) (word "form-data")) as Hd.
  { exists (l ++ [58; 32]), [59]. split; [by rewrite zlen_app|unfold l1; by rewrite <- app_assoc]. }
  destruct (disp_quoted l1 "name" n (F ++ 13 :: r) ep st1 (S (S (S fuel)))) as (m1 & v1 & Hm1 & Hv1 & E1); [by left|done|lia|]. rewrite E1. cbn [bool_decide]. rewrite bool_decide_true by done.
  destruct fo as [f|]; unfold F in *; cbn [app].
  - set (l2 := l1 ++ m1) in *. assert (zlen l2 = zlen l1 + zlen m1) as Hl2 by (unfold l2; by rewrite zlen_app). rewrite zlen_cons in Hep.
    assert (forall st, disp_loop (S (S (S fuel))) (l2 ++ 59 :: quoted_param "filename" f ++ 13 :: r) (zlen l2) ep false st =
      disp_loop (S (S fuel)) ((l2 ++ [59]) ++ quoted_param "filename" f ++ 13 :: r) (zlen (l2 ++ [59])) ep false st) as ->.
    { intros st2. erewrite disp_loop_some; [|apply param_semicolon; pose proof (zlen_nonneg (quoted_param "filename" f)); lia|unfold disp_param; cbn [pv]; rewrite !key_is_other by done; reflexivity].
      rewrite <- app_assoc. cbn [app]. by rewrite zlen_app. }
    match goal with |- context [disp_loop (S (S fuel)) _ _ _ _ ?s] => set (st2 := s) end.
    destruct (disp_quoted (l2 ++ [59]) "filename" f (13 :: r) ep st2 (S fuel)) as (m2 & v2 & Hm2 & Hv2 & E2); [by right|done|rewrite zlen_app; change (zlen [59]) with 1; lia|].
    rewrite E2, bool_decide_false by done. rewrite disp_loop_end.
    exists (word ": form-data;" ++ m1 ++ 59 :: m2), {| st2 with m_file := v2 |}. assert (((l2 ++ [59]) ++ m2) = l ++ word ": form-data;" ++ m1 ++ 59 :: m2) as Eb by (unfold l2, l1; by rewrite <- !app_assoc).
    rewrite <- Eb. split; [done|]. split; [rewrite !zlen_app, !zlen_cons, Hm1, Hm2; change (zlen (word ": form-data;")) with 12; lia|].
    cbn [m_disp m_name m_file m_ctype]. split; [do 2 apply val_at_app; unfold l2; apply val_at_app; exact Hd|]. split; [do 2 apply val_at_app; exact Hv1|]. split; [exact Hv2|done].
  - cbn [app] in *. rewrite disp_loop_end. exists (word ": form-data;" ++ m1 ++ []), {| st1 with m_name := v1 |}. assert (l1 ++ m1 = l ++ word ": form-data;" ++ m1 ++ []) as Eb by (unfold l1; by rewrite app_nil_r, <- !app_assoc).
    rewrite <- Eb. split; [done|]. split; [rewrite !zlen_app, Hm1; done|]. cbn [m_disp m_name m_file m_ctype]. split; [by apply val_at_app|]. by split.
Qed.

Definition type_ok (t : list Z) : Prop := t <> [] /\ Forall (fun c => key_char c = true \/ c = 47) t /\ head t <> Some 47.

Lemma ctype_loop_reads l t r ep st fuel : type_ok t -> zlen l + 2 + zlen t < ep ->
  ctype_loop (S (S fuel)) (l ++ [58; 32] ++ t ++ 13 :: r) (zlen l) ep true st =
  Some (l ++ [58; 32] ++ t ++ 13 :: r, zlen l + 2 + zlen t, {| st with m_ctype := (Some (zlen l + 2), zlen t) |}).
Proof.
  intros (Ht & Ht1 & Ht2) Hep. pose proof (param_first l t 13 r ep Ht Ht1 Ht2 (or_intror eq_refl) Hep) as E. cbv zeta in E. cbn [Z.eqb Pos.eqb] in E. rewrite Z.add_0_r in E.
  set (buf := l ++ [58; 32] ++ t ++ 13 :: r) in *. assert (_header_parse_next_parameter buf (zlen l + 2 + zlen t) ep = Some (buf, None)) as E2.
  { assert (buf = (l ++ [58; 32] ++ t) ++ 13 :: r) as -> by (unfold buf; by rewrite <- !app_assoc). replace (zlen l + 2 + zlen t) with (zlen (l ++ [58; 32] ++ t)) by (rewrite !zlen_app; change (zlen [58; 32]) with 2; lia). apply param_line_end. }
  assert (forall f st, ctype_loop (S f) buf (zlen l) ep true st = ctype_loop f buf (zlen l + 2 + zlen t) ep false {| st with m_ctype := (Some (zlen l + 2), zlen t) |}) as -> by (intros f s; cbn [ctype_loop]; by rewrite E).
  cbn [ctype_loop]. rewrite E2. cbn [mbind option_bind m_ctype fst default from_option id]. do 3 f_equal. f_equal. lia.
Qed.

(** One header line of a part: the loop finds its name. *)
Lemma header_name l w r ep : w <> [] -> Forall (fun c => key_char c = true) w -> zlen l + 2 + zlen w < ep ->
  crlf_at (l ++ [13; 10] ++ w ++ 58 :: r) (zlen l) ep = Some true /\
  _header_parse_skip_name (l ++ [13; 10] ++ w ++ 58 :: r) (zlen l + 2) ep = Some (Some (zlen l + 2 + zlen w)).
Proof.
  intros Hne Hw Hep. pose proof (zlen_nonneg w). split; [cbn [app]; apply crlf_here; lia|]. assert (zlen l + 2 = zlen (l ++ [13; 10])) as -> by (by rewrite zlen_app). rewrite app_assoc.
  unfold _header_parse_skip_name. assert (0 < zlen w) by (destruct w; [done|rewrite zlen_cons; pose proof (zlen_nonneg w); lia]). rewrite zlen_app in *. change (zlen [13; 10]) with 2 in *.
  pose proof (skip_name_word w (l ++ [13; 10]) r ep (zlen l + 2) (Z.to_nat (ep - (zlen l + 2))) Hw) as E. rewrite zlen_app in E. change (zlen [13; 10]) with 2 in E. apply E; [lia|lia|]. unfold zlen in *. lia.
Qed.

Lemma header_disp l r ep st fuel : zlen l + 21 < ep ->
  headers_loop (S fuel) (l ++ [13; 10] ++ word "Content-Disposition" ++ 58 :: r) (zlen l) ep st =
  '(buf, rp, st) ← disp_loop (S (Z.to_nat (ep - (zlen l + 21)))) (l ++ [13; 10] ++ word "Content-Disposition" ++ 58 :: r) (zlen l + 21) ep true st; headers_loop fuel buf rp ep st.
Proof.
  intros Hep. destruct (header_name l (word "Content-Disposition") r ep) as [E1 E2]; [done|by apply (bool_decide_eq_true_1 (Forall _ _))|change (zlen (word "Content-Disposition")) with 19; lia|].
  change (zlen (word "Content-Disposition")) with 19 in E2. cbn [headers_loop]. rewrite E1. cbn [mbind option_bind negb]. rewrite E2. cbn [mbind option_bind].
  replace (zlen l + 2 + 19 - (zlen l + 2)) with 19 by lia. cbn [Z.eqb Pos.eqb].
  assert (strncasecmp_at (l ++ [13; 10] ++ word "Content-Disposition" ++ 58 :: r) (zlen l + 2) "content-disposition" 19 = Some true) as ->.
  { rewrite app_assoc. assert (zlen l + 2 = zlen (l ++ [13; 10])) as -> by (by rewrite zlen_app). apply strncasecmp_at_word; [done|by apply (bool_decide_eq_true_1 (Forall _ _))|done]. }
  cbn [mbind option_bind]. replace (zlen l + 2 + 19) with (zlen l + 21) by lia. done.
Qed.

Lemma header_ctype l t r ep st fuel : type_ok t -> zlen l + 16 + zlen t < ep ->
  headers_loop (S fuel) (l ++ [13; 10] ++ word "Content-Type" ++ [58; 32] ++ t ++ 13 :: r) (zlen l) ep st =
  headers_loop fuel (l ++ [13; 10] ++ word "Content-Type" ++ [58; 32] ++ t ++ 13 :: r) (zlen l + 16 + zlen t) ep {| st with m_ctype := (Some (zlen l + 16), zlen t) |}.
Proof.
  intros Ht Hep. pose proof (zlen_nonneg t). destruct (header_name l (word "Content-Type") (32 :: t ++ 13 :: r) ep) as [E1 E2]; [done|by apply (bool_decide_eq_true_1 (Forall _ _))|change (zlen (word "Content-Type")) with 12; lia|].
  change (zlen (word "Content-Type")) with 12 in E2. cbn [headers_loop]. cbn [app] in E1, E2 |- *. rewrite E1. cbn [mbind option_bind negb]. rewrite E2. cbn [mbind option_bind].
  replace (zlen l + 2 + 12 - (zlen l + 2)) with 12 by lia. cbn [Z.eqb Pos.eqb mbind option_bind].
  assert (strncasecmp_at (l ++ 13 :: 10 :: word "Content-Type" ++ 58 :: 32 :: t ++ 13 :: r) (zlen l + 2) "content-type" 12 = Some true) as ->.
  { change (13 :: 10 :: word "Content-Type" ++ 58 :: 32 :: t ++ 13 :: r) with ([13; 10] ++ word "Content-Type" ++ 58 :: 32 :: t ++ 13 :: r).
    rewrite app_assoc. assert (zlen l + 2 = zlen (l ++ [13; 10])) as -> by (by rewrite zlen_app). apply strncasecmp_at_word; [done|by apply (bool_decide_eq_true_1 (Forall _ _))|done]. }
  cbn [mbind option_bind]. destruct (Z.to_nat (ep - (zlen l + 2 + 12))) as [|k] eqn:Ek; [lia|].
  pose proof (ctype_loop_reads (l ++ 13 :: 10 :: word "Content-Type") t r ep st k Ht) as E. rewrite zlen_app in E. change (zlen (13 :: 10 :: word "Content-Type")) with 14 in E.
  rewrite <- app_assoc in E. cbn [app] in E. replace (zlen l + 2 + 12) with (zlen l + 14) by lia. rewrite E by lia. cbn [mbind option_bind].
  replace (zlen l + 14 + 2) with (zlen l + 16) by lia. done.
Qed.

Lemma headers_end l r ep st fuel : zlen l + 2 < ep -> headers_loop (S fuel) (l ++ [13; 10] ++ 13 :: r) (zlen l) ep st = Some (l ++ [13; 10] ++ 13 :: r, Some (zlen l + 2, st)).
Proof.
  intros Hep. cbn [headers_loop app]. rewrite crlf_here by lia. cbn [mbind option_bind negb]. pose proof (skip_name_none (l ++ [13; 10]) r ep) as E. rewrite zlen_app in E. change (zlen [13; 10]) with 2 in E.
  rewrite <- app_assoc in E. cbn [app] in E. by rewrite E by lia.
Qed.

Definition type_text (t : option (list Z)) : list Z := match t with Some t => [13; 10] ++ word "Content-Type" ++ [58; 32] ++ t | None => [] end.
Definition headers_text (n : list Z) (fo t : option (list Z)) : list Z := [13; 10] ++ word "Content-Disposition" ++ disp_text n fo ++ type_text t ++ [13; 10].

Lemma headers_read l n fo t r ep fuel : Forall quotable n -> Forall quotable (default [] fo) -> (forall x, t = Some x -> type_ok x) -> zlen l + zlen (headers_text n fo t) < ep -> (3 <= fuel)%nat ->
  exists m st, headers_loop fuel (l ++ headers_text n fo t ++ 13 :: r) (zlen l) ep mst_zero = Some ((l ++ m) ++ 13 :: r, Some (zlen (l ++ m), st)) /\ zlen m = zlen (headers_text n fo t) /\
    val_at (l ++ m) st.(m_disp) (word "form-data") /\ val_at (l ++ m) st.(m_name) n /\ opt_at (l ++ m) st.(m_file) fo /\ opt_at (l ++ m) st.(m_ctype) t.
Proof.
  intros Hn Hf Ht Hep Hfuel. unfold headers_text in Hep |- *. rewrite !zlen_app in Hep |- *. change (zlen [13; 10]) with 2 in Hep |- *. change (zlen (word "Content-Disposition")) with 19 in Hep |- *.
  pose proof (zlen_nonneg (disp_text n fo)). pose proof (zlen_nonneg (type_text t)). destruct fuel as [|[|[|fuel]]]; try lia.
  set (l1 := l ++ [13; 10] ++ word "Content-Disposition"). assert (zlen l1 = zlen l + 21) as Hl1 by (unfold l1; by rewrite zlen_app).
  assert (exists r', disp_text n fo ++ type_text t ++ [13; 10] ++ 13 :: r = 58 :: r') as [r' Er] by (unfold disp_text; cbn; by eexists).
  rewrite <- !app_assoc. rewrite Er, header_disp, <- Er by lia.
  assert (exists x rest, type_text t ++ [13; 10] ++ 13 :: r = 13 :: rest) as (_ & rest & Erest) by (destruct t; unfold type_text; cbn; by eexists 0, _).
  assert (15 <= zlen (disp_text n fo)) as Hdl.
  { unfold disp_text, quoted_param. rewrite !zlen_app, !zlen_cons, !zlen_app. change (zlen (word ": form-data;")) with 12. change (zlen (word "name")) with 4.
    pose proof (zlen_nonneg ([61; 34] ++ esc n ++ [34])). rewrite !zlen_app in *. pose proof (zlen_nonneg match fo with Some f => 59 :: quoted_param "filename" f | None => [] end). unfold quoted_param in *. lia. }
  destruct (disp_loop_reads l1 n fo rest ep mst_zero (S (Z.to_nat (ep - (zlen l + 21)))) Hn Hf) as (m & st & E & Hm & Hd & Hna & Hfi & Hct); [lia|lia|done|].
  replace (l ++ [13; 10] ++ word "Content-Disposition" ++ disp_text n fo ++ type_text t ++ [13; 10] ++ 13 :: r) with (l1 ++ disp_text n fo ++ 13 :: rest) by (unfold l1; rewrite <- Erest, <- !app_assoc; done).
  rewrite Hl1 in E. rewrite E. cbn [mbind option_bind]. rewrite <- Erest. set (l2 := l1 ++ m) in *. assert (zlen l2 = zlen l1 + zlen m) as Hl2 by (unfold l2; by rewrite zlen_app).
  destruct t as [t|]; unfold type_text in *.
  - rewrite !zlen_app in Hep, H0. change (zlen [13; 10]) with 2 in Hep, H0. change (zlen (word "Content-Type")) with 12 in Hep, H0. change (zlen [58; 32]) with 2 in Hep, H0.
    rewrite <- !app_assoc. pose proof (header_ctype l2 t (10 :: 13 :: r) ep st (S fuel) (Ht t eq_refl)) as E2. change ([13; 10] ++ 13 :: r) with (13 :: 10 :: 13 :: r). rewrite E2 by lia.
    set (l3 := l2 ++ [13; 10] ++ word "Content-Type" ++ [58; 32] ++ t). assert (zlen l3 = zlen l2 + 16 + zlen t) as Hl3.
    { unfold l3. rewrite !zlen_app. change (zlen [13; 10]) with 2. change (zlen (word "Content-Type")) with 12. change (zlen [58; 32]) with 2. lia. }
    replace (l2 ++ [13; 10] ++ word "Content-Type" ++ [58; 32] ++ t ++ 13 :: 10 :: 13 :: r) with (l3 ++ [13; 10] ++ 13 :: r) by (unfold l3; by rewrite <- !app_assoc).
    rewrite <- Hl3, headers_end by lia. exists ([13; 10] ++ word "Content-Disposition" ++ m ++ ([13; 10] ++ word "Content-Type" ++ [58; 32] ++ t) ++ [13; 10]), {| st with m_ctype := (Some (zlen l2 + 16), zlen t) |}.
    assert (l ++ [13; 10] ++ word "Content-Disposition" ++ m ++ ([13; 10] ++ word "Content-Type" ++ [58; 32] ++ t) ++ [13; 10] = l3 ++ [13; 10]) as Eb by (unfold l3, l2, l1; by rewrite <- !app_assoc).
    rewrite Eb. split; [rewrite <- app_assoc, zlen_app; done|]. split; [rewrite !zlen_app, Hm; done|].
    cbn [m_disp m_name m_file m_ctype]. assert (l3 ++ [13; 10] = l2 ++ ([13; 10] ++ word "Content-Type" ++ [58; 32] ++ t) ++ [13; 10]) as Eb2 by (unfold l3; by rewrite <- !app_assoc).
    rewrite Eb2. split; [by apply val_at_app|]. split; [by apply val_at_app|]. split; [by apply opt_at_app|]. cbn [opt_at].
    exists (l2 ++ [13; 10] ++ word "Content-Type" ++ [58; 32]), [13; 10]. split; [rewrite !zlen_app; change (zlen [13; 10]) with 2; change (zlen (word "Content-Type")) with 12; change (zlen [58; 32]) with 2; feq|by rewrite <- !app_assoc].
  - cbn [app] in Hep |- *. change (zlen (@nil Z)) with 0 in Hep. change (l2 ++ 13 :: 10 :: 13 :: r) with (l2 ++ [13; 10] ++ 13 :: r). rewrite headers_end by lia.
    exists ([13; 10] ++ word "Content-Disposition" ++ m ++ [13; 10]), st. assert (l ++ [13; 10] ++ word "Content-Disposition" ++ m ++ [13; 10] = l2 ++ [13; 10]) as Eb by (unfold l2, l1; by rewrite <- !app_assoc).
    cbn [app] in Eb |- *. rewrite Eb. split; [rewrite <- app_assoc, zlen_app; done|]. split; [rewrite !zlen_cons, !zlen_app, Hm; change (zlen (word "Content-Disposition")) with 19; change (zlen [13; 10]) with 2; change (zlen (@nil Z)) with 0; lia|].
    split; [by apply val_at_app|]. split; [by apply val_at_app|]. split; [by apply opt_at_app|]. cbn [opt_at]. by rewrite Hct.
Qed.

(** ** The data of a part *)

Section Parts.
Context (b : list Z) (Hb0 : Forall (fun c => c <> 0) b) (Hb13 : 13 ∉ b).
Abbreviation boundary := (b ++ [0]).
Abbreviation blen := (zlen b).
Definition delim : list Z := [13; 10; 45; 45] ++ b.

(** The data must not contain the delimiter. *)
Definition data_ok (data : list Z) : Prop := forall a z, data <> a ++ delim ++ z.

(** In front of the delimiter the search does not stop. *)
Lemma delim_not_before c data s : data_ok (c :: data) -> ~ delim `prefix_of` (c :: data) ++ delim ++ s.
Proof.
  intros Hd [k E]. destruct (le_lt_dec (length delim) (length (c :: data))) as [Hle|Hlt].
  - assert (take (length delim) ((c :: data) ++ delim ++ s) = delim) as E2 by (rewrite E; by rewrite take_app_length).
    rewrite take_app_le in E2 by done. apply (Hd [] (drop (length delim) (c :: data))). cbn [app]. rewrite <- E2 at 1. by rewrite take_drop.
  - assert ((delim ++ k) !! length (c :: data) = Some 13) as E2.
    { rewrite <- E. rewrite lookup_app_r by lia. by rewrite Nat.sub_diag. }
    rewrite lookup_app_l in E2 by done. cbn [length delim] in E2. unfold delim in E2. cbn [app] in E2.
    destruct data as [|? [|? [|? data]]]; cbn [length lookup list_lookup] in E2; try done. apply Hb13. by eapply list_elem_of_lookup_2.
Qed.

Lemma data_loop_finds t s ep : t = [13; 10] \/ t = [45; 45] -> forall data l fuel, data_ok data -> zlen l + zlen data + blen + 6 <= ep -> ep <= zlen (l ++ data ++ delim ++ t ++ s) -> (length data < fuel)%nat ->
  data_loop fuel (l ++ data ++ delim ++ t ++ s) boundary blen (zlen l) ep = Some (Some (zlen l + zlen data)).
Proof.
  intros Ht. pose proof (zlen_nonneg b) as Hbl. assert (zlen t = 2) as Htl by (by destruct Ht as [-> | ->]). assert (zlen delim = 4 + blen) as Hdl by (unfold delim; by rewrite zlen_app).
  assert (forall l s2, zlen delim <= zlen s2 -> forall F : bool -> option (option Z),
    (d ← bytes_at (l ++ s2) (zlen l) [13; 10; 45; 45];
     e ← (if (d : bool) then if blen =? 0 then Some true else strncmp_at (l ++ s2) (zlen l + 4) boundary blen else Some false); F e) = F (bool_decide (delim `prefix_of` s2))) as Htest.
  { intros l s2 Hs F. rewrite bytes_at_prefix by (change (zlen [13; 10; 45; 45]) with 4; lia). cbn [mbind option_bind]. destruct (bool_decide_reflect ([13; 10; 45; 45] `prefix_of` s2)) as [[s3 ->]|Hn].
    - rewrite zlen_app in Hs. change (zlen [13; 10; 45; 45]) with 4 in Hs. assert (bool_decide (delim `prefix_of` [13; 10; 45; 45] ++ s3) = bool_decide (b `prefix_of` s3)) as Ed.
      { apply bool_decide_ext. unfold delim. split; [by intros ?%prefix_app_inv|by apply prefix_app]. }
      rewrite Ed. destruct (Z.eqb_spec blen 0) as [E0|]; [assert (b = []) as -> by (destruct b; [done|rewrite zlen_cons in E0; pose proof (zlen_nonneg l0); lia]); by rewrite bool_decide_true by apply prefix_nil|].
      rewrite app_assoc. assert (zlen l + 4 = zlen (l ++ [13; 10; 45; 45])) as -> by (by rewrite zlen_app). rewrite strncmp_at_word by (done || lia). done.
    - cbn [mbind option_bind]. rewrite bool_decide_false; [done|]. intros [k E]. apply Hn. exists (b ++ k). rewrite E. unfold delim. by rewrite <- app_assoc. }
  induction data as [|c data IH]; intros l fuel Hd Hep Hbuf Hf; (destruct fuel as [|fuel]; [lia|]); cbn [data_loop].
  - change (zlen (@nil Z)) with 0 in *. rewrite (proj2 (Z.leb_le _ _)) by lia. cbn [app] in *. rewrite Htest by (rewrite zlen_app; pose proof (zlen_nonneg (t ++ s)); lia).
    rewrite bool_decide_true by (by apply prefix_app_r). replace (zlen l + blen + 4) with (zlen (l ++ delim)) by (rewrite zlen_app; lia). rewrite app_assoc.
    rewrite !bytes_at_prefix by (rewrite zlen_app; pose proof (zlen_nonneg s); change (zlen [13; 10]) with 2; change (zlen [45; 45]) with 2; lia). rewrite Z.add_0_r.
    destruct Ht as [-> | ->]; [rewrite (bool_decide_true ([13; 10] `prefix_of` _)) by (by apply prefix_app_r); done|].
    rewrite (bool_decide_false ([13; 10] `prefix_of` _)) by (by intros ?%prefix_cons_inv_1). cbn [mbind option_bind]. rewrite bool_decide_true by (by apply prefix_app_r). done.
  - rewrite zlen_cons in Hep |- *. cbn [length] in Hf. pose proof (zlen_nonneg data). rewrite (proj2 (Z.leb_le _ _)) by lia. rewrite Htest by (rewrite !zlen_app; pose proof (zlen_nonneg s); pose proof (zlen_nonneg (c :: data)); lia).
    rewrite bool_decide_false by (by apply delim_not_before). specialize (IH (l ++ [c]) fuel). rewrite <- app_assoc, zlen_app in IH. change (zlen [c]) with 1 in IH. cbn [app] in IH |- *.
    rewrite IH; [do 2 f_equal; lia| |lia|done|lia]. intros a z E. apply (Hd (c :: a) z). by rewrite E.
Qed.

(** ** Forms *)

Record fpart := mkFpart { f_name : list Z; f_file : option (list Z); f_type : option (list Z); f_data : list Z }.

Record fpart_ok (p : fpart) : Prop := {
  fp_name : Forall quotable p.(f_name);
  fp_file : forall f, p.(f_file) = Some f -> f <> [] /\ Forall quotable f;
  fp_type : forall t, p.(f_type) = Some t -> type_ok t;
  fp_data : data_ok p.(f_data) }.

(** Behind the boundary: headers, an empty line, the data. *)
Definition part_text (p : fpart) : list Z := headers_text p.(f_name) p.(f_file) p.(f_type) ++ [13; 10] ++ p.(f_data).
Fixpoint form_text (ps : list fpart) : list Z :=
  match ps with
  | [] => [45; 45] ++ b ++ [45; 45]
  | p :: ps => [45; 45] ++ b ++ part_text p ++ [13; 10] ++ form_text ps
  end.

(** What the parser added for a part. *)
Definition pair_at (buf : list Z) (v : Z * Z) (w : list Z) : Prop := val_at buf (Some v.1, v.2) w.
Definition part_at (buf : list Z) (q : part) (p : fpart) : Prop :=
  pair_at buf q.(pa_name) p.(f_name) /\ pair_at buf q.(pa_data) p.(f_data) /\
  match p.(f_file) with Some f => exists v, q.(pa_file) = Some v /\ val_at buf v f | None => q.(pa_file) = None end /\
  match p.(f_type) with Some t => exists v, q.(pa_ctype) = Some v /\ val_at buf v t | None => q.(pa_ctype) = None end.

Lemma part_at_app buf r q p : part_at buf q p -> part_at (buf ++ r) q p.
Proof.
  intros (H1 & H2 & H3 & H4). split; [by apply val_at_app|]. split; [by apply val_at_app|]. split.
  - destruct p.(f_file); [|done]. destruct H3 as (v & E & Hv). exists v. split; [done|by apply val_at_app].
  - destruct p.(f_type); [|done]. destruct H4 as (v & E & Hv). exists v. split; [done|by apply val_at_app].
Qed.
Lemma part_end_reads l data t s ep st parts p : t = [13; 10] \/ t = [45; 45] -> data_ok data ->
  val_at l st.(m_disp) (word "form-data") -> val_at l st.(m_name) p.(f_name) -> opt_at l st.(m_file) p.(f_file) -> opt_at l st.(m_ctype) p.(f_type) -> data = p.(f_data) -> fpart_ok p ->
  zlen l + 2 + zlen data + blen + 6 <= ep -> ep <= zlen (l ++ [13; 10] ++ data ++ delim ++ t ++ s) ->
  exists q, part_end (l ++ [13; 10] ++ data ++ delim ++ t ++ s) boundary blen (zlen l) ep st parts = Some (parts ++ [q], Some (zlen l + 2 + zlen data + 2)) /\
    part_at (l ++ [13; 10] ++ data) q p.
Proof.
  intros Ht Hd (a1 & z1 & E1 & Ed) (a2 & z2 & E2 & En) Hfi Hty -> Hp Hep Hbuf. unfold part_end. rewrite E1, E2. change (zlen (word "form-data")) with 9. cbn [Z.eqb].
  set (data := p.(f_data)) in *. set (buf := l ++ [13; 10] ++ data ++ delim ++ t ++ s) in *.
  assert (strncasecmp_at buf (zlen a1) "form-data" 9 = Some true) as ->.
  { unfold buf. rewrite Ed. rewrite <- !app_assoc. apply strncasecmp_at_word; [done|by apply (bool_decide_eq_true_1 (Forall _ _))|done]. }
  pose proof (zlen_nonneg data). pose proof (zlen_nonneg b). cbn [mbind option_bind]. assert (crlf_at buf (zlen l) ep = Some true) as -> by (unfold buf; cbn [app]; apply crlf_here; lia). cbn [mbind option_bind negb].
  pose proof (data_loop_finds t s ep Ht data (l ++ [13; 10]) (Z.to_nat (ep - zlen l)) Hd) as E. rewrite zlen_app in E. change (zlen [13; 10]) with 2 in E. rewrite <- app_assoc in E. fold buf in E.
  rewrite E; [|lia|done|unfold zlen in *; lia]. cbn [mbind option_bind]. eexists. split; [reflexivity|].
  split; [exists a2, (z2 ++ [13; 10] ++ data); cbn; split; [done|]; rewrite En; by rewrite <- !app_assoc|].
  split.
  { exists (l ++ [13; 10]), []. cbn [pa_data fst snd]. fold data. rewrite app_nil_r, <- app_assoc. split; [|done]. rewrite zlen_app. change (zlen [13; 10]) with 2. f_equal. lia. }
  cbn [pa_file pa_ctype]. destruct Hp as [_ Hpf Hpt _].
  assert (forall (w : list Z), w <> [] -> zlen w <> 0) as Hz by (intros [|c w] Hw; [done|]; rewrite zlen_cons; pose proof (zlen_nonneg w); lia). split.
  - destruct (f_file p) as [f|]; cbn [opt_at] in Hfi; [|by rewrite Hfi]. destruct (Hpf f eq_refl) as [Hf _]. exists st.(m_file). split; [|by apply val_at_app]. destruct Hfi as (? & ? & -> & _). cbn [snd]. by rewrite (proj2 (Z.eqb_neq _ _)) by (by apply Hz).
  - destruct (f_type p) as [f|]; cbn [opt_at] in Hty; [|by rewrite Hty]. destruct (Hpt f eq_refl) as [Hf _]. exists st.(m_ctype). split; [|by apply val_at_app]. destruct Hty as (? & ? & -> & _). cbn [snd]. by rewrite (proj2 (Z.eqb_neq _ _)) by (by apply Hz).
Qed.

Lemma parse_next_part l p t s ep parts : fpart_ok p -> t = [13; 10] \/ t = [45; 45] -> zlen l + (2 + blen) + zlen (part_text p) + blen + 6 <= ep ->
  ep <= zlen (l ++ [45; 45] ++ b ++ part_text p ++ delim ++ t ++ s) ->
  exists m q, _multipart_parse_next (l ++ [45; 45] ++ b ++ part_text p ++ delim ++ t ++ s) boundary blen (zlen l) ep parts =
      Some ((l ++ m) ++ [45; 45] ++ b ++ t ++ s, parts ++ [q], Some (zlen (l ++ m)), false) /\ part_at (l ++ m) q p /\ zlen m = 2 + blen + zlen (part_text p) + 2.
Proof.
  intros Hp Ht Hep Hbuf. unfold part_text in *. set (hd := headers_text p.(f_name) p.(f_file) p.(f_type)) in *. set (data := p.(f_data)) in *.
  rewrite !zlen_app in Hep. change (zlen [13; 10]) with 2 in Hep. pose proof (zlen_nonneg b). pose proof (zlen_nonneg data). pose proof (zlen_nonneg hd). pose proof (zlen_nonneg l).
  assert (43 <= zlen hd) as Hhd.
  { unfold hd, headers_text, disp_text. rewrite !zlen_app. change (zlen [13; 10]) with 2. change (zlen (word "Content-Disposition")) with 19. change (zlen (word ": form-data;")) with 12.
    unfold quoted_param at 1. rewrite zlen_cons, !zlen_app. change (zlen (word "name")) with 4. change (zlen [61; 34]) with 2. change (zlen [34]) with 1. pose proof (zlen_nonneg (esc (f_name p))).
    pose proof (zlen_nonneg match f_file p with Some f => 59 :: quoted_param "filename" f | None => [] end). pose proof (zlen_nonneg (type_text (f_type p))). lia. }
  unfold _multipart_parse_next. rewrite (proj2 (Z.leb_gt _ _)), (proj2 (Z.ltb_ge _ _)) by lia. rewrite bytes_at_prefix by (rewrite zlen_app; change (zlen [45; 45]) with 2; pose proof (zlen_nonneg (b ++ (hd ++ [13; 10] ++ data) ++ delim ++ t ++ s)); lia).
  rewrite bool_decide_true by (by apply prefix_app_r). cbn [mbind option_bind]. set (l0 := l ++ [45; 45]). assert (zlen l0 = zlen l + 2) as Hl0 by (unfold l0; by rewrite zlen_app).
  rewrite (app_assoc l [45; 45]). fold l0. rewrite <- Hl0.
  assert ((if 0 <? blen then strncmp_at (l0 ++ b ++ (hd ++ [13; 10] ++ data) ++ delim ++ t ++ s) (zlen l0) boundary blen else Some true) = Some true) as ->.
  { destruct (0 <? blen); [|done]. rewrite strncmp_at_word by (done || rewrite zlen_app; pose proof (zlen_nonneg ((hd ++ [13; 10] ++ data) ++ delim ++ t ++ s)); lia). by rewrite bool_decide_true by (by apply prefix_app_r). }
  cbn [mbind option_bind negb]. rewrite (app_assoc l0 b). set (l1 := l0 ++ b). assert (zlen l1 = zlen l0 + blen) as Hl1 by (unfold l1; by rewrite zlen_app). rewrite <- Hl1.
  assert (exists h', hd = [13; 10] ++ h') as [h' Eh] by (unfold hd, headers_text; by eexists).
  rewrite bytes_at_prefix by (rewrite zlen_app, (zlen_app hd); change (zlen [45; 45]) with 2; pose proof (zlen_nonneg (delim ++ t ++ s)); pose proof (zlen_nonneg ([13; 10] ++ data)); lia).
  rewrite bool_decide_false by (rewrite Eh; by intros ?%prefix_cons_inv_1). cbn [mbind option_bind].
  assert (ep <= zlen l1 + zlen hd + 2 + zlen data + zlen (delim ++ t ++ s)) as Hbuf1.
  { revert Hbuf. rewrite !zlen_app. change (zlen [45; 45]) with 2. change (zlen [13; 10]) with 2. unfold l1, l0. rewrite !zlen_app. change (zlen [45; 45]) with 2. lia. }
  rewrite <- !app_assoc. destruct (headers_read l1 p.(f_name) p.(f_file) p.(f_type) (10 :: data ++ delim ++ t ++ s) ep (Z.to_nat (ep - zlen l1))) as (m & st & E & Hm & Hd & Hn & Hf & Hty).
  - apply Hp. - destruct (f_file p) as [f|] eqn:Ef; [by apply (fp_file p Hp)|constructor]. - apply Hp. - fold hd. lia. - lia.
  - fold hd in E, Hm. change ([13; 10] ++ data ++ delim ++ t ++ s) with (13 :: 10 :: data ++ delim ++ t ++ s). rewrite E. cbn [mbind option_bind].
    destruct (part_end_reads (l1 ++ m) data t s ep st parts p Ht) as (q & E2 & Hq); [apply Hp|done|done|done|done|done|done| | |].
    + rewrite zlen_app. lia.
    + rewrite zlen_app, (zlen_app l1), (zlen_app [13; 10]), (zlen_app data). change (zlen [13; 10]) with 2. lia.
    + change ((l1 ++ m) ++ 13 :: 10 :: data ++ delim ++ t ++ s) with ((l1 ++ m) ++ [13; 10] ++ data ++ delim ++ t ++ s). rewrite E2. cbn [mbind option_bind].
      exists ([45; 45] ++ b ++ m ++ [13; 10] ++ data ++ [13; 10]), q. assert (l ++ [45; 45] ++ b ++ m ++ [13; 10] ++ data ++ [13; 10] = (l1 ++ m) ++ [13; 10] ++ data ++ [13; 10]) as Eb by (unfold l1, l0; by rewrite <- !app_assoc).
      rewrite Eb. split; [|split].
      * unfold delim. rewrite <- !app_assoc. cbn [app]. rewrite !zlen_app, !zlen_cons, !zlen_app. change (zlen [13; 10]) with 2. feq.
      * rewrite (app_assoc (l1 ++ m)), app_assoc. rewrite <- (app_assoc (l1 ++ m)). by apply part_at_app.
      * rewrite !zlen_app, Hm. change (zlen [13; 10]) with 2. change (zlen [45; 45]) with 2. lia.
Qed.

Lemma form_text_head ps : exists t s, form_text ps = [45; 45] ++ b ++ t ++ s /\ (t = [13; 10] \/ t = [45; 45]).
Proof. destruct ps as [|p ps]; [exists [45; 45], []; split; [done|by right]|]. unfold form_text, part_text, headers_text. eexists [13; 10], _. split; [by rewrite <- !app_assoc|by left]. Qed.

Lemma form_text_min ps : 4 + blen <= zlen (form_text ps).
Proof. destruct (form_text_head ps) as (t & s & -> & Ht). rewrite !zlen_app. change (zlen [45; 45]) with 2. pose proof (zlen_nonneg s). assert (zlen t = 2) by (by destruct Ht as [-> | ->]). lia. Qed.

Lemma form_reads ps : forall l r ep parts fuel, Forall fpart_ok ps -> ep = zlen l + zlen (form_text ps) -> (length ps < fuel)%nat ->
  exists m qs, multipart_loop fuel (l ++ form_text ps ++ r) boundary blen (zlen l) ep parts = Some ((l ++ m) ++ r, parts ++ qs, true) /\
    Forall2 (part_at (l ++ m)) qs ps /\ zlen m = zlen (form_text ps).
Proof.
  pose proof (zlen_nonneg b) as Hbl. induction ps as [|p ps IH]; intros l r ep parts fuel Hok Hep Hf; (destruct fuel as [|fuel]; [lia|]); cbn [multipart_loop]; pose proof (zlen_nonneg l) as Hll.
  - cbn [form_text] in Hep |- *. rewrite !zlen_app in Hep. change (zlen [45; 45]) with 2 in Hep. exists ([45; 45] ++ b ++ [45; 45]), []. split; [|by split]. rewrite <- !app_assoc.
    unfold _multipart_parse_next. rewrite (proj2 (Z.leb_gt _ _)), (proj2 (Z.ltb_ge _ _)) by lia. rewrite bytes_at_prefix by (rewrite zlen_app; change (zlen [45; 45]) with 2; pose proof (zlen_nonneg (b ++ [45; 45] ++ r)); lia).
    rewrite bool_decide_true by (by apply prefix_app_r). cbn [mbind option_bind]. rewrite (app_assoc l [45; 45]). assert (zlen l + 2 = zlen (l ++ [45; 45])) as -> by (by rewrite zlen_app).
    assert ((if 0 <? blen then strncmp_at ((l ++ [45; 45]) ++ b ++ [45; 45] ++ r) (zlen (l ++ [45; 45])) boundary blen else Some true) = Some true) as ->.
    { destruct (0 <? blen); [|done]. rewrite strncmp_at_word by (done || rewrite zlen_app; pose proof (zlen_nonneg ([45; 45] ++ r)); lia). by rewrite bool_decide_true by (by apply prefix_app_r). }
    cbn [mbind option_bind negb]. rewrite (app_assoc _ b), <- zlen_app. rewrite bytes_at_prefix by (rewrite zlen_app; change (zlen [45; 45]) with 2; pose proof (zlen_nonneg r); lia).
    rewrite bool_decide_true by (by apply prefix_app_r). cbn [mbind option_bind]. rewrite app_nil_r, <- !app_assoc. done.
  - apply Forall_cons in Hok as [Hp Hok]. cbn [length] in Hf. cbn [form_text] in Hep |- *. destruct (form_text_head ps) as (t & s & Eft & Ht). pose proof (form_text_min ps) as Hmin.
    rewrite !zlen_app in Hep. change (zlen [45; 45]) with 2 in Hep. change (zlen [13; 10]) with 2 in Hep.
    assert (l ++ ([45; 45] ++ b ++ part_text p ++ [13; 10] ++ form_text ps) ++ r = l ++ [45; 45] ++ b ++ part_text p ++ delim ++ t ++ (s ++ r)) as Eb.
    { rewrite Eft. unfold delim. by rewrite <- !app_assoc. }
    destruct (parse_next_part l p t (s ++ r) ep parts Hp Ht) as (m & q & E & Hq & Hm); [lia| |].
    { rewrite <- Eb, !zlen_app. change (zlen [45; 45]) with 2. change (zlen [13; 10]) with 2. pose proof (zlen_nonneg r). lia. }
    rewrite Eb, E. cbn [mbind option_bind]. assert ([45; 45] ++ b ++ t ++ s ++ r = form_text ps ++ r) as Eb2 by (rewrite Eft; by rewrite <- !app_assoc). rewrite Eb2.
    destruct (IH (l ++ m) r ep (parts ++ [q]) fuel Hok) as (m2 & qs & E2 & Hqs & Hm2); [rewrite zlen_app; lia|lia|]. exists (m ++ m2), (q :: qs). rewrite E2. split; [by rewrite <- !app_assoc|].
    rewrite app_assoc. split; [constructor; [by apply part_at_app|done]|]. rewrite !zlen_app. change (zlen [45; 45]) with 2. change (zlen [13; 10]) with 2. lia.
Qed.
End Parts.

Lemma form_text_parts b ps : (length ps <= length (form_text b ps))%nat.
Proof. induction ps as [|p ps IH]; [cbn; lia|]. cbn [form_text]. rewrite !length_app. cbn [length]. lia. Qed.

(** C24. A multipart form is read back as it was written: for a boundary without NUL and CR and parts
    with a name, and optionally a file name and a content type, whose data does not contain the
    delimiter, [_request_form_multipart_parse] of the text of the form, wherever it is in the buffer,
    adds exactly these parts in their order, each pointer and length giving the name and the file name
    (quotes unescaped in place), the type and the bytes of the data, and reports the end of the form;
    the bytes around the form stay as they are. *)
Theorem multipart_roundtrip (b : list Z) (ps : list fpart) (l r : list Z) :
  Forall (fun c => c <> 0) b -> 13 ∉ b -> Forall (fpart_ok b) ps ->
  exists m qs, _request_form_multipart_parse (l ++ form_text b ps ++ r) (b ++ [0]) (zlen b) (zlen l) (zlen l + zlen (form_text b ps)) = Some ((l ++ m) ++ r, qs, true) /\
    Forall2 (part_at (l ++ m)) qs ps /\ zlen m = zlen (form_text b ps).
Proof.
  intros Hb0 Hb13 Hok. pose proof (form_text_parts b ps) as Hlen. unfold _request_form_multipart_parse.
  destruct (form_reads b Hb0 Hb13 ps l r (zlen l + zlen (form_text b ps)) [] (S (Z.to_nat (zlen l + zlen (form_text b ps) - zlen l)))) as (m & qs & E & Hqs & Hm); [done|done| |].
  - replace (zlen l + zlen (form_text b ps) - zlen l) with (zlen (form_text b ps)) by lia. unfold zlen. lia.
  - exists m, qs. by split.
Qed.

Lemma no_cr_data_ok b data : 13 ∉ data -> data_ok b data.
Proof. intros Hn a z ->. apply Hn. unfold delim. set_solver. Qed.

Definition demo_parts : list fpart :=
  [mkFpart (word "a") None None (word "hello"); mkFpart [98; 34; 99] (Some (word "f.txt")) (Some (word "text/plain")) (word "data")].

Lemma multipart_roundtrip_witness :
  exists m qs, _request_form_multipart_parse (word "POST" ++ form_text (word "X") demo_parts ++ [0]) (word "X" ++ [0]) 1 4 (4 + zlen (form_text (word "X") demo_parts)) = Some ((word "POST" ++ m) ++ [0], qs, true) /\
    Forall2 (part_at (word "POST" ++ m)) qs demo_parts /\ zlen m = zlen (form_text (word "X") demo_parts).
Proof.
  refine (multipart_roundtrip (word "X") demo_parts (word "POST") [0] _ _ _); [by apply (bool_decide_eq_true_1 (Forall _ _))|by apply (bool_decide_eq_true_1 (~ _))|].
  assert (forall w, bool_decide (Forall (fun c => c <> 0) w /\ Forall (fun c => c <> 92) w /\ Forall (fun c => c <> 13) w /\ Forall (fun c => c <> 10) w) = true -> Forall quotable w) as Hq.
  { intros w (H1 & H2 & H3 & H4)%bool_decide_eq_true_1. rewrite Forall_forall in H1, H2, H3, H4 |- *. intros c Hc. split; [by apply H1|]. split; [by apply H2|]. split; [by apply H3|by apply H4]. }
  constructor; [|constructor; [|constructor]].
  - split; [by apply Hq|done|done|]. apply no_cr_data_ok. by apply (bool_decide_eq_true_1 (~ _)).
  - split; [by apply Hq|intros f [= <-]; split; [done|by apply Hq]| |apply no_cr_data_ok; by apply (bool_decide_eq_true_1 (~ _))].
    intros t [= <-]. split; [done|]. split; [|done]. by apply (bool_decide_eq_true_1 (Forall (fun c => key_char c = true \/ c = 47) _)).
Defined.

(** A part with any other header makes the parser give up on the form. *)
Example other_header_refused :
  ('(_, ps, eof) ← _request_form_multipart_parse
     (word "--X" ++ [13; 10] ++ word "Content-Disposition: form-data; name=a" ++ [13; 10] ++ word "Content-Transfer-Encoding: binary" ++ [13; 10; 13; 10] ++ word "1" ++ [13; 10] ++ word "--X--" ++ [0])
     (word "X" ++ [0]) 1 0 90;
   Some (length ps, eof)) = Some (0%nat, false).
Proof. by vm_compute. Qed.

(** A quoted value that ends with an escaped backslash is not closed by its quote. *)
Example escaped_backslash_unclosed :
  ('(_, r) ← _header_parse_next_parameter2 false (word "a=" ++ [34; 120; 92; 92; 34] ++ word "; b=1") 0 12; Some (match r with Some (_, kv) => kv.(pv_len) | None => -1 end)) = Some 0.
Proof. by vm_compute. Qed.
