(* ===== verification/WfSession.v ===== *)
(** * WfSession: sessions of the web framework

    The session functions of [src/src/http/iwn_wf.c] over the interface of a session store, and the
    in-memory store of [src/src/http/iwn_wf_sst_inmem.c].  The hash map of the iowow library is not
    part of the repository: [HMap] states what the code uses of it.  Keys, values and session ids are
    C strings without their terminators.  The outcomes of allocations are arguments, except for the copy a
    store's [get] returns, which succeeds. *)
From S2P Require Import Prelude.

Abbreviation str := (list Z).

(** ** Hash maps with string keys *)

Class HMap (M : Type -> Type) := {
  hm_empty {V} : M V;
  hm_get {V} : M V -> str -> option V;
  hm_put {V} : M V -> str -> V -> M V;
  hm_remove {V} : M V -> str -> M V;
  hm_clear {V} : M V -> M V;
  hm_count {V} : M V -> Z }.

(** The behaviour the header of the library documents. *)
Class HMapLaws M `{!HMap M} : Prop := {
  get_empty {V} k : hm_get (hm_empty (V := V)) k = None;
  get_put {V} (m : M V) k v k' : hm_get (hm_put m k v) k' = if decide (k = k') then Some v else hm_get m k';
  get_remove {V} (m : M V) k k' : hm_get (hm_remove m k) k' = if decide (k = k') then None else hm_get m k';
  get_clear {V} (m : M V) k : hm_get (hm_clear m) k = None;
  count_zero {V} (m : M V) : hm_count m = 0 <-> forall k, hm_get m k = None }.

(** ** The interface of a session store

    [struct iwn_wf_session_store]: the state of the store is threaded through the function
    pointers; [None] is a crash of the store. *)
Record store_ops (S : Type) := mkStore {
  so_get : S -> str -> str -> option (option str);
  so_put : S -> str -> str -> str -> option (S * bool);
  so_del : S -> str -> str -> option S;
  so_clear : S -> str -> option S }.
Arguments so_get {S}. Arguments so_put {S}. Arguments so_del {S}. Arguments so_clear {S}.

Definition upd (f : str -> str -> option str) (sid key : str) (v : option str) : str -> str -> option str :=
  fun s k => if decide (s = sid /\ k = key) then v else f s k.

(** What a store promises to the session functions: it keeps a value for every session and key.  Of
    [clear] only that it leaves the other sessions alone. *)
Class Store {S} (ops : store_ops S) := {
  so_inv : S -> Prop;
  so_view : S -> str -> str -> option str;
  so_get_ok s sid k : so_inv s -> ops.(so_get) s sid k = Some (so_view s sid k);
  so_put_ok s sid k v : so_inv s -> exists s' ok, ops.(so_put) s sid k v = Some (s', ok) /\ so_inv s' /\
    forall a c, so_view s' a c = (if (ok : bool) then upd (so_view s) sid k (Some v) else so_view s) a c;
  so_del_ok s sid k : so_inv s -> exists s', ops.(so_del) s sid k = Some s' /\ so_inv s' /\ forall a c, so_view s' a c = upd (so_view s) sid k None a c;
  so_clear_ok s sid : so_inv s -> exists s', ops.(so_clear) s sid = Some s' /\ so_inv s' /\ forall a c, a <> sid -> so_view s' a c = so_view s a c }.

(** ** The in-memory store *)

Section Inmem.
Context {M : Type -> Type} `{!HMap M}.

(** [struct impl]: the map of sessions holds pointers to maps, which live in [i_maps]. *)
Record impl := mkImpl { i_sidmap : M positive; i_maps : gmap positive (M str) }.

Definition sst_inmem_create : impl := mkImpl hm_empty ∅.

(** Outcomes of the allocations of [_put], in the order of the code; the environment decides. *)
Record allocs := mkAllocs { al_map : bool; al_sid : bool; al_sidmap : bool; al_key : bool; al_val : bool; al_put : bool }.

(** The second half of [_put]: key and value go into the map at [l]. *)
Definition put_pair (al : allocs) (i : impl) (l : positive) (key val : str) : option (impl * bool) :=
  m ← i.(i_maps) !! l;
  if al.(al_key) && al.(al_val) && al.(al_put) then Some (mkImpl i.(i_sidmap) (<[l := hm_put m key val]> i.(i_maps)), true)
  else Some (i, false).

Definition _put (al : allocs) (i : impl) (sid key val : str) : option (impl * bool) :=
  match hm_get i.(i_sidmap) sid with
  | Some l => put_pair al i l key val
  | None =>
      if negb al.(al_map) then Some (i, false)
      else
        let l := fresh (dom i.(i_maps)) in
        let i := mkImpl i.(i_sidmap) (<[l := hm_empty]> i.(i_maps)) in
        if negb (al.(al_sid) && al.(al_sidmap)) then Some (i, false)
        else put_pair al (mkImpl (hm_put i.(i_sidmap) sid l) i.(i_maps)) l key val
  end.

Definition _del (i : impl) (sid key : str) : option impl :=
  match hm_get i.(i_sidmap) sid with
  | None => Some i
  | Some l =>
      m ← i.(i_maps) !! l;
      let m := hm_remove m key in
      if hm_count m =? 0 then Some (mkImpl (hm_remove i.(i_sidmap) sid) (delete l i.(i_maps)))
      else Some (mkImpl i.(i_sidmap) (<[l := m]> i.(i_maps)))
  end.

Definition _get (i : impl) (sid key : str) : option (option str) :=
  match hm_get i.(i_sidmap) sid with
  | None => Some None
  | Some l => m ← i.(i_maps) !! l; Some (hm_get m key)
  end.

Definition _clear (i : impl) (sid : str) : option impl :=
  match hm_get i.(i_sidmap) sid with
  | None => Some i
  | Some l => m ← i.(i_maps) !! l; Some (mkImpl i.(i_sidmap) (<[l := hm_remove m sid]> i.(i_maps)))
  end.

(** [sst->user_data] is cleared, and the store that was there is freed; a second call frees nothing. *)
Definition _dispose (user_data : option impl) : option impl * option impl :=
  match user_data with Some i => (None, Some i) | None => (None, None) end.

Definition inmem_ops (al : impl -> allocs) : store_ops impl :=
  mkStore impl _get (fun i sid k v => _put (al i) i sid k v) _del _clear.

(** *** The store keeps its promise *)

Context `{!HMapLaws M}.

Record inmem_inv (i : impl) : Prop := {
  im_live : forall sid l, hm_get i.(i_sidmap) sid = Some l -> is_Some (i.(i_maps) !! l);
  im_inj : forall sid sid' l, hm_get i.(i_sidmap) sid = Some l -> hm_get i.(i_sidmap) sid' = Some l -> sid = sid' }.

Definition inmem_view (i : impl) (sid key : str) : option str :=
  l ← hm_get i.(i_sidmap) sid; m ← i.(i_maps) !! l; hm_get m key.

(** Writing another map of a session. *)
Lemma inmem_write i sid l m m' : inmem_inv i -> hm_get i.(i_sidmap) sid = Some l -> i.(i_maps) !! l = Some m ->
  let i' := mkImpl i.(i_sidmap) (<[l := m']> i.(i_maps)) in
  inmem_inv i' /\ forall a c, inmem_view i' a c = if decide (a = sid) then hm_get m' c else inmem_view i a c.
Proof.
  intros [Hl Hi] Hs Hm. cbv zeta. split.
  - split; cbn [i_sidmap i_maps]; [|done]. intros a la Ha. destruct (decide (la = l)) as [->|]; [rewrite lookup_insert_eq; eauto|rewrite lookup_insert_ne by done; eauto].
  - intros a c. unfold inmem_view. cbn [i_sidmap i_maps]. destruct (decide (a = sid)) as [->|Hne]; [rewrite Hs; cbn [mbind option_bind]; by rewrite lookup_insert_eq|].
    destruct (hm_get (i_sidmap i) a) as [la|] eqn:Ea; [|done]. cbn [mbind option_bind]. rewrite lookup_insert_ne; [done|]. intros ->. apply Hne. by eapply Hi.
Qed.

(** A new, empty session. *)
Lemma inmem_new i sid : inmem_inv i -> hm_get i.(i_sidmap) sid = None ->
  let l := fresh (dom i.(i_maps)) in
  let i1 := mkImpl i.(i_sidmap) (<[l := hm_empty]> i.(i_maps)) in
  let i2 := mkImpl (hm_put i.(i_sidmap) sid l) (<[l := hm_empty]> i.(i_maps)) in
  (inmem_inv i1 /\ forall a c, inmem_view i1 a c = inmem_view i a c) /\
  (inmem_inv i2 /\ hm_get i2.(i_sidmap) sid = Some l /\ i2.(i_maps) !! l = Some hm_empty /\ forall a c, inmem_view i2 a c = inmem_view i a c).
Proof.
  intros [Hl Hi] Hs. cbv zeta. set (l := fresh (dom (i_maps i))). assert (i_maps i !! l = None) as Hf by (apply not_elem_of_dom, is_fresh).
  assert (forall a la, hm_get (i_sidmap i) a = Some la -> la <> l) as Hne by (intros a la Ha ->; destruct (Hl _ _ Ha) as [? ?]; congruence).
  split; (split; [split|]); cbn [i_sidmap i_maps].
  - intros a la Ha. rewrite lookup_insert_ne; [by eapply Hl|]. intros E. by eapply Hne.
  - done.
  - intros a c. unfold inmem_view. cbn [i_sidmap i_maps]. destruct (hm_get (i_sidmap i) a) as [la|] eqn:Ea; [|done]. cbn [mbind option_bind]. rewrite lookup_insert_ne; [done|]. intros E. by eapply Hne.
  - intros a la. rewrite get_put. destruct (decide (sid = a)); [intros [= <-]; rewrite lookup_insert_eq; eauto|]. intros Ha. rewrite lookup_insert_ne; [by eapply Hl|]. intros E. by eapply Hne.
  - intros a a' la. rewrite !get_put. destruct (decide (sid = a)), (decide (sid = a')); subst; try done.
    + intros [= <-] Ha. by destruct (Hne _ _ Ha). + intros Ha [= <-]. by destruct (Hne _ _ Ha). + apply Hi.
  - split; [rewrite get_put; by rewrite decide_True by done|]. split; [apply lookup_insert_eq|]. intros a c. unfold inmem_view. cbn [i_sidmap i_maps]. rewrite get_put.
    destruct (decide (sid = a)) as [<-|]; [rewrite Hs; cbn [mbind option_bind]; rewrite lookup_insert_eq; cbn [mbind option_bind]; by rewrite get_empty|].
    destruct (hm_get (i_sidmap i) a) as [la|] eqn:Ea; [|done]. cbn [mbind option_bind]. rewrite lookup_insert_ne; [done|]. intros E. by eapply Hne.
Qed.

Lemma put_pair_ok al i sid l key val : inmem_inv i -> hm_get i.(i_sidmap) sid = Some l ->
  exists i' ok, put_pair al i l key val = Some (i', ok) /\ inmem_inv i' /\
    forall a c, inmem_view i' a c = (if (ok : bool) then upd (inmem_view i) sid key (Some val) else inmem_view i) a c.
Proof.
  intros Hi Hs. destruct (im_live _ Hi _ _ Hs) as [m Hm]. unfold put_pair. rewrite Hm. cbn [mbind option_bind]. destruct (_ && _); [|by exists i, false].
  destruct (inmem_write i sid l m (hm_put m key val) Hi Hs Hm) as [Hi' Hv]. eexists _, true. split; [reflexivity|]. split; [done|].
  intros a c. rewrite Hv. unfold upd. destruct (decide (a = sid)) as [->|Hne]; [|by rewrite decide_False by (by intros [? _])].
  rewrite get_put. destruct (decide (key = c)) as [<-|Hk]; [by rewrite decide_True by done|]. rewrite decide_False by (by intros [_ ?]). unfold inmem_view. rewrite Hs. cbn [mbind option_bind]. by rewrite Hm.
Qed.

Lemma put_ok al i sid key val : inmem_inv i ->
  exists i' ok, _put al i sid key val = Some (i', ok) /\ inmem_inv i' /\
    forall a c, inmem_view i' a c = (if (ok : bool) then upd (inmem_view i) sid key (Some val) else inmem_view i) a c.
Proof.
  intros Hi. unfold _put. destruct (hm_get (i_sidmap i) sid) as [l|] eqn:Hs; [by apply put_pair_ok|]. destruct (negb (al_map al)); [by exists i, false|].
  destruct (inmem_new i sid Hi Hs) as [[Hi1 Hv1] (Hi2 & Hs2 & _ & Hv2)]. cbv zeta. destruct (negb _); [by eexists _, false|]. cbn [i_sidmap i_maps].
  destruct (put_pair_ok al _ sid _ key val Hi2 Hs2) as (i' & ok & E & Hi' & Hv'). exists i', ok. split; [done|]. split; [done|]. intros a c. rewrite Hv'. destruct ok; [|by rewrite Hv2].
  unfold upd. by destruct (decide _).
Qed.

Lemma del_ok i sid key : inmem_inv i -> exists i', _del i sid key = Some i' /\ inmem_inv i' /\ forall a c, inmem_view i' a c = upd (inmem_view i) sid key None a c.
Proof.
  intros Hi. unfold _del, upd. destruct (hm_get (i_sidmap i) sid) as [l|] eqn:Hs.
  2: { exists i. split; [done|]. split; [done|]. intros a c. destruct (decide _) as [[-> _]|]; [|done]. unfold inmem_view. by rewrite Hs. }
  destruct (im_live _ Hi _ _ Hs) as [m Hm]. rewrite Hm. cbn [mbind option_bind].
  assert (forall c, (if decide (sid = sid /\ c = key) then None else inmem_view i sid c) = hm_get (hm_remove m key) c) as Hrm.
  { intros c. rewrite get_remove. destruct (decide (key = c)) as [<-|Hk]; [by rewrite decide_True|]. rewrite decide_False by (by intros [_ ?]). unfold inmem_view. rewrite Hs. cbn [mbind option_bind]. by rewrite Hm. }
  destruct (Z.eqb_spec (hm_count (hm_remove m key)) 0) as [E|_].
  - rewrite count_zero in E. eexists. split; [reflexivity|]. destruct Hi as [Hl Hi]. split; [split; cbn [i_sidmap i_maps]|].
    + intros a la. rewrite get_remove. destruct (decide (sid = a)); [done|]. intros Ha. rewrite lookup_delete_ne; [by eapply Hl|]. intros <-. by apply n, (Hi _ _ l).
    + intros a a' la. rewrite !get_remove. destruct (decide (sid = a)), (decide (sid = a')); try done. apply Hi.
    + intros a c. unfold inmem_view at 1. cbn [i_sidmap i_maps]. rewrite get_remove. destruct (decide (sid = a)) as [<-|Hne]; [cbn [mbind option_bind]; by rewrite Hrm, E|].
      rewrite decide_False by (intros [? _]; congruence). unfold inmem_view. destruct (hm_get (i_sidmap i) a) as [la|] eqn:Ea; [|done]. cbn [mbind option_bind]. rewrite lookup_delete_ne; [done|]. intros <-. by apply Hne, (Hi _ _ l).
  - destruct (inmem_write i sid l m (hm_remove m key) Hi Hs Hm) as [Hi' Hv]. eexists. split; [reflexivity|]. split; [done|]. intros a c. rewrite Hv. destruct (decide (a = sid)) as [->|Hne]; [by rewrite Hrm|].
    by rewrite decide_False by (by intros [? _]).
Qed.

Lemma clear_ok i sid : inmem_inv i -> exists i', _clear i sid = Some i' /\ inmem_inv i' /\
  forall a c, inmem_view i' a c = if decide (a = sid /\ c = sid) then None else inmem_view i a c.
Proof.
  intros Hi. unfold _clear. destruct (hm_get (i_sidmap i) sid) as [l|] eqn:Hs.
  2: { exists i. split; [done|]. split; [done|]. intros a c. destruct (decide _) as [[-> _]|]; [|done]. unfold inmem_view. by rewrite Hs. }
  destruct (im_live _ Hi _ _ Hs) as [m Hm]. rewrite Hm. cbn [mbind option_bind]. destruct (inmem_write i sid l m (hm_remove m sid) Hi Hs Hm) as [Hi' Hv]. eexists. split; [reflexivity|]. split; [done|].
  intros a c. rewrite Hv. destruct (decide (a = sid)) as [->|Hne]; [|by rewrite decide_False by (by intros [? _])]. rewrite get_remove. destruct (decide (sid = c)) as [<-|Hk]; [by rewrite decide_True|].
  rewrite decide_False by (intros [_ ?]; congruence). unfold inmem_view. rewrite Hs. cbn [mbind option_bind]. by rewrite Hm.
Qed.

#[export] Program Instance inmem_store (al : impl -> allocs) : Store (inmem_ops al) := {| so_inv := inmem_inv; so_view := inmem_view |}.
Next Obligation.
  intros al i sid k Hi. cbn. unfold _get, inmem_view. destruct (hm_get (i_sidmap i) sid) as [l|] eqn:Hs; [|done]. destruct (im_live _ Hi _ _ Hs) as [m Hm]. cbn [mbind option_bind]. by rewrite Hm.
Qed.
Next Obligation. intros al i sid k v Hi. by apply put_ok. Qed.
Next Obligation. intros al i sid k Hi. by apply del_ok. Qed.
Next Obligation.
  intros al i sid Hi. destruct (clear_ok i sid Hi) as (i' & E & Hi' & Hv). exists i'. split; [done|]. split; [done|]. intros a c Ha. rewrite Hv. by rewrite decide_False by (by intros [? _]).
Qed.

(** *** The store as a function of sessions and keys *)

Inductive store_op := SGet (sid key : str) | SPut (sid key val : str) (al : allocs) | SDel (sid key : str) | SClear (sid : str).
Inductive store_ans := SVal (v : option str) | SRc (ok : bool) | SDone.

Definition store_call (i : impl) (o : store_op) : option (impl * store_ans) :=
  match o with
  | SGet sid key => v ← _get i sid key; Some (i, SVal v)
  | SPut sid key val al => '(i, ok) ← _put al i sid key val; Some (i, SRc ok)
  | SDel sid key => i ← _del i sid key; Some (i, SDone)
  | SClear sid => i ← _clear i sid; Some (i, SDone)
  end.

Fixpoint store_run (i : impl) (os : list store_op) : option (impl * list store_ans) :=
  match os with
  | [] => Some (i, [])
  | o :: os => '(i, a) ← store_call i o; '(i, l) ← store_run i os; Some (i, a :: l)
  end.

Definition al_all (al : allocs) : bool := al.(al_map) && al.(al_sid) && al.(al_sidmap) && al.(al_key) && al.(al_val) && al.(al_put).

(** A put that reports success has stored the value, one that reports failure has changed nothing, and it
    reports success when memory suffices.  Clearing a session adds nothing and touches no other session; that it does not remove all
    of the session's data is shown by [clear_keeps_data]. *)
Inductive store_spec (f : str -> str -> option str) : store_op -> store_ans -> (str -> str -> option str) -> Prop :=
| ss_get sid k : store_spec f (SGet sid k) (SVal (f sid k)) f
| ss_put sid k v al f' : (forall a c, f' a c = upd f sid k (Some v) a c) -> store_spec f (SPut sid k v al) (SRc true) f'
| ss_put_fail sid k v al f' : al_all al = false -> (forall a c, f' a c = f a c) -> store_spec f (SPut sid k v al) (SRc false) f'
| ss_del sid k f' : (forall a c, f' a c = upd f sid k None a c) -> store_spec f (SDel sid k) SDone f'
| ss_clear sid f' : (forall a c, f' a c = f a c \/ a = sid /\ f' a c = None) -> store_spec f (SClear sid) SDone f'.

Inductive store_trace : (str -> str -> option str) -> list store_op -> list store_ans -> (str -> str -> option str) -> Prop :=
| st_nil f : store_trace f [] [] f
| st_cons f o a f1 os l f2 : store_spec f o a f1 -> store_trace f1 os l f2 -> store_trace f (o :: os) (a :: l) f2.

Lemma put_pair_all al i l key val i' : al_all al = true -> put_pair al i l key val = Some (i', false) -> False.
Proof.
  unfold al_all, put_pair. rewrite !andb_true_iff. intros [[[[[_ _] _] ->] ->] ->]. by destruct (i_maps i !! l).
Qed.

Lemma put_all al i sid key val i' : _put al i sid key val = Some (i', false) -> al_all al = false.
Proof.
  destruct (al_all al) eqn:Ea; [|done]. unfold _put. destruct (hm_get (i_sidmap i) sid) as [l|]; [by intros ?%put_pair_all|]. pose proof Ea as Ea'. unfold al_all in Ea'. rewrite !andb_true_iff in Ea'.
  destruct Ea' as [[[[[-> ->] ->] _] _] _]. cbv zeta. cbn [negb andb]. by intros ?%put_pair_all.
Qed.

Lemma store_call_spec i o : inmem_inv i -> exists i' a, store_call i o = Some (i', a) /\ inmem_inv i' /\ store_spec (inmem_view i) o a (inmem_view i').
Proof.
  intros Hi. destruct o as [sid key|sid key val al|sid key|sid]; cbn [store_call].
  - pose proof (so_get_ok (ops := inmem_ops (fun _ => mkAllocs true true true true true true)) i sid key Hi) as E. cbn [so_get inmem_ops so_view inmem_store] in E. rewrite E. cbn [mbind option_bind]. eexists _, _. split; [done|]. split; [done|constructor].
  - destruct (put_ok al i sid key val Hi) as (i' & ok & E & Hi' & Hv). rewrite E. cbn [mbind option_bind]. eexists _, _. split; [done|]. split; [done|]. destruct ok; [by apply ss_put|]. apply ss_put_fail; [by eapply put_all|done].
  - destruct (del_ok i sid key Hi) as (i' & -> & Hi' & Hv). cbn [mbind option_bind]. eexists _, _. split; [done|]. split; [done|]. by apply ss_del.
  - destruct (clear_ok i sid Hi) as (i' & -> & Hi' & Hv). cbn [mbind option_bind]. eexists _, _. split; [done|]. split; [done|]. apply ss_clear.
    intros a c. rewrite Hv. destruct (decide _) as [[-> _]|]; auto.
Qed.

Lemma store_run_spec os i : inmem_inv i -> exists i' l, store_run i os = Some (i', l) /\ inmem_inv i' /\ store_trace (inmem_view i) os l (inmem_view i').
Proof.
  revert i. induction os as [|o os IH]; intros i Hi; [exists i, []; split; [done|]; split; [done|constructor]|].
  cbn [store_run]. destruct (store_call_spec i o Hi) as (i1 & a & -> & Hi1 & Ha). cbn [mbind option_bind]. destruct (IH _ Hi1) as (i2 & l & -> & Hi2 & Hl). cbn [mbind option_bind].
  eexists _, _. split; [done|]. split; [done|]. by econstructor.
Qed.

Lemma create_inv_inmem : inmem_inv sst_inmem_create /\ forall a c, inmem_view sst_inmem_create a c = None.
Proof. split; [split; cbn; intros *; by rewrite get_empty|]. intros a c. unfold inmem_view. cbn. by rewrite get_empty. Qed.

(** The in-memory session store, from its creation and over every sequence of calls: no call crashes, the
    pointers between sessions and their maps stay intact, and the answers are those of a function from
    sessions and keys to values.  A put that reports success has stored the value, one that fails changes nothing and
    fails only for want of memory, a delete removes the one value, and clearing a session adds nothing and leaves every
    other session as it was. *)
Theorem inmem_store_refines os :
  exists i l f, store_run sst_inmem_create os = Some (i, l) /\ inmem_inv i /\
    (forall a c, inmem_view sst_inmem_create a c = None) /\
    store_trace (inmem_view sst_inmem_create) os l f /\ (forall sid k, _get i sid k = Some (f sid k)).
Proof.
  destruct create_inv_inmem as [Hc Hn]. destruct (store_run_spec os _ Hc) as (i & l & E & Hi & Ht). exists i, l, (inmem_view i). split; [done|]. split; [done|]. split; [done|]. split; [done|].
  intros sid k. exact (so_get_ok (ops := inmem_ops (fun _ => mkAllocs true true true true true true)) i sid k Hi).
Qed.
End Inmem.

(** ** The session of a request *)

Definition IWN_WF_SESSION_ID_LEN : Z := 32.

(** [_request_sid_fill]: random bytes become characters of the set.  A [char] is converted to
    [size_t] before the remainder. *)
Definition sid_cset : list Z := bytes_of_string "abcdefghijklmnopqrstuvwxyzABCDEFGHIJKLMNOPQRSTUVWXYZ0123456789".
Definition sid_char (c : Z) : option Z := rd sid_cset (u64 (i8 c) mod 62).
Definition _request_sid_fill (urandom : option (list Z)) : option (option str) :=
  match urandom with
  | None => Some None
  | Some bytes => s ← mapM sid_char bytes; Some (Some s)
  end.

Lemma sid_fill_ok bytes : exists s, mapM sid_char bytes = Some s /\ length s = length bytes /\ Forall (fun c => c ∈ sid_cset) s.
Proof.
  induction bytes as [|c bytes (s & E & Hl & Hs)]; [by exists []|]. assert (exists x, sid_char c = Some x /\ x ∈ sid_cset) as (x & Ex & Hx).
  { unfold sid_char. assert (0 <= u64 (i8 c) mod 62 < 62) as Hr by (apply Z.mod_pos_bound; lia). destruct (rd_total sid_cset (u64 (i8 c) mod 62)) as [x Ex]; [exact Hr|].
    exists x. split; [done|]. unfold rd in Ex. destruct (_ <? 0); [done|]. by eapply list_elem_of_lookup_2. }
  exists (x :: s). change (mapM sid_char (c :: bytes)) with (y ← sid_char c; k ← mapM sid_char bytes; mret (y :: k)). rewrite Ex. cbn [mbind option_bind]. rewrite E. split; [done|]. split; [by cbn; rewrite Hl|by constructor].
Qed.

Section Session.
Context {M : Type -> Type} `{!HMap M} {S : Type} (ops : store_ops S).

(** The session part of [struct request]: the id ([[]] when [sid[0] == 0]), the cache, and whether
    [sess_map_mtx] is held by this thread. *)
Record sess := mkSess { se_sid : str; se_cache : option (M str); se_locked : bool }.

Definition _request_sid_exists (q : sess) : bool := negb (bool_decide (q.(se_sid) = [])).

(** Locking a mutex that is held blocks forever. *)
Definition lock (q : sess) : option sess := if q.(se_locked) then None else Some {| q with se_locked := true |}.
Definition unlock (q : sess) : sess := {| q with se_locked := false |}.

(** The result is the new state, with [false] for an error code. *)
Definition _request_sid_ensure (urandom : option (list Z)) (q : sess) : option (sess * bool) :=
  if _request_sid_exists q then Some (q, true)
  else s ← _request_sid_fill urandom;
       Some (match s with Some sid => ({| q with se_sid := sid |}, true) | None => ({| q with se_sid := [] |}, false) end).

Definition iwn_wf_session_id (q : sess) : option str := if _request_sid_exists q then Some q.(se_sid) else None.

Definition iwn_wf_session_id_set (q : sess) (sid : str) : option (sess * bool) :=
  if negb (zlen sid =? IWN_WF_SESSION_ID_LEN) then Some (q, false)
  else q ← lock q; Some (unlock {| q with se_sid := sid; se_cache := hm_clear (M := M) <$> q.(se_cache) |}, true).

(** [iwhmap_get(req->sess_map, key)] when the cache is there. *)
Definition cached (c : option (M str)) (key : str) : option str := m ← c; hm_get (M := M) m key.

(** Outcomes of the allocations of [iwn_wf_session_get]: the cache, the copy of the key, the entry. *)
Record gmem := mkGmem { gm_map : bool; gm_key : bool; gm_put : bool }.
Definition gm_all (g : gmem) : bool := g.(gm_map) && g.(gm_key) && g.(gm_put).

Definition iwn_wf_session_get (g : gmem) (st : S) (q : sess) (key : str) : option (sess * option str) :=
  if _request_sid_exists q then
    q ← lock q;
    match cached q.(se_cache) key with
    | Some v => Some (unlock q, Some v)
    | None =>
        r ← ops.(so_get) st q.(se_sid) key;
        match r with
        | None => Some (unlock q, None)
        | Some v =>
            match (match q.(se_cache) with Some m => Some m | None => if g.(gm_map) then Some (hm_empty (M := M)) else None end) with
            | None => Some (unlock q, None)
            | Some m =>
                if g.(gm_key) && g.(gm_put) then Some (unlock {| q with se_cache := Some (hm_put (M := M) m key v) |}, Some v)
                else Some (unlock {| q with se_cache := Some m |}, None)
            end
        end
    end
  else Some (q, None).

Definition iwn_wf_session_del (st : S) (q : sess) (key : str) : option (S * sess) :=
  if _request_sid_exists q then
    q ← lock q;
    let q := {| q with se_cache := (fun m : M str => hm_remove (M := M) m key) <$> q.(se_cache) |} in
    st ← ops.(so_del) st q.(se_sid) key;
    Some (st, unlock q)
  else Some (st, q).

(** [RCR(_request_sid_ensure(req))] returns with the mutex held. *)
Definition iwn_wf_session_put (urandom : option (list Z)) (st : S) (q : sess) (key : str) (data : option str) : option (S * sess * bool) :=
  match data with
  | None => '(st, q) ← iwn_wf_session_del st q key; Some (st, q, true)
  | Some data =>
      q ← lock q;
      '(q, ok) ← _request_sid_ensure urandom q;
      if negb ok then Some (st, q, false)
      else
        let q := {| q with se_cache := (fun m : M str => hm_remove (M := M) m key) <$> q.(se_cache) |} in
        '(st, ok) ← ops.(so_put) st q.(se_sid) key data;
        Some (st, unlock q, ok)
  end.

(** [vsnprintf] gives the formatted text, or [None] for a negative result; a text of 1024 bytes or more
    needs memory ([mem]), and the second [vsnprintf] may fail as well ([again]). *)
Definition iwn_wf_session_printf_va (urandom : option (list Z)) (vsnprintf : option str) (mem again : bool) (st : S) (q : sess) (key : str) : option (S * sess * bool) :=
  match vsnprintf with
  | None => Some (st, q, false)
  | Some text =>
      if (1024 <=? zlen text) && negb (mem && again) then Some (st, q, false)
      else iwn_wf_session_put urandom st q key (Some text)
  end.

(** [iwn_wf_session_clear]; the cache is there when the session has been read, else [iwhmap_clear]
    gets a null pointer, which the model takes for an empty map. *)
Definition iwn_wf_session_clear (st : S) (q : sess) : option (S * sess) :=
  if _request_sid_exists q then
    st ← ops.(so_clear) st q.(se_sid);
    q ← lock q;
    Some (st, unlock {| q with se_sid := []; se_cache := hm_clear (M := M) <$> q.(se_cache) |})
  else Some (st, q).

(** ** Sessions against their specification *)

Inductive sess_op := OpId | OpIdSet (sid : str) | OpGet (key : str) (g : gmem) | OpPut (key : str) (data : option str) (urandom : option (list Z)) | OpPrintf (key : str) (text : option str) (mem again : bool) (urandom : option (list Z)) | OpDel (key : str) | OpClear.

(** What a call answers. *)
Inductive answer_ := AId (sid : option str) | AVal (v : option str) | ARc (ok : bool) | ANone.

Definition sess_call (st : S) (q : sess) (o : sess_op) : option (S * sess * answer_) :=
  match o with
  | OpId => Some (st, q, AId (iwn_wf_session_id q))
  | OpIdSet sid => '(q, ok) ← iwn_wf_session_id_set q sid; Some (st, q, ARc ok)
  | OpGet key g => '(q, v) ← iwn_wf_session_get g st q key; Some (st, q, AVal v)
  | OpPut key data rnd => '(st, q, ok) ← iwn_wf_session_put rnd st q key data; Some (st, q, ARc ok)
  | OpPrintf key text mem again rnd => '(st, q, ok) ← iwn_wf_session_printf_va rnd text mem again st q key; Some (st, q, ARc ok)
  | OpDel key => '(st, q) ← iwn_wf_session_del st q key; Some (st, q, ANone)
  | OpClear => '(st, q) ← iwn_wf_session_clear st q; Some (st, q, ANone)
  end.

(** The specification: an id, or none, and a value for every session and key. *)
Abbreviation aview := (str -> str -> option str).

Inductive spec_step : option str -> aview -> sess_op -> answer_ -> option str -> aview -> Prop :=
| sp_id sid f : spec_step sid f OpId (AId sid) sid f
| sp_id_set sid f new : zlen new = IWN_WF_SESSION_ID_LEN -> spec_step sid f (OpIdSet new) (ARc true) (Some new) f
| sp_id_bad sid f new : zlen new <> IWN_WF_SESSION_ID_LEN -> spec_step sid f (OpIdSet new) (ARc false) sid f
| sp_get sid f k g : spec_step sid f (OpGet k g) (AVal (sid ≫= (fun s => f s k))) sid f
| sp_get_fail sid f k g : gm_all g = false -> spec_step sid f (OpGet k g) (AVal None) sid f
| sp_put sid f k v rnd s f' : sid = Some s \/ sid = None /\ (exists b, rnd = Some b /\ mapM sid_char b = Some s) ->
    (forall a c, f' a c = upd f s k (Some v) a c) -> spec_step sid f (OpPut k (Some v) rnd) (ARc true) (Some s) f'
| sp_put_fail sid f k v rnd s f' : sid = Some s \/ sid = None /\ (exists b, rnd = Some b /\ mapM sid_char b = Some s) ->
    (forall a c, f' a c = f a c) -> spec_step sid f (OpPut k (Some v) rnd) (ARc false) (Some s) f'
| sp_printf sid f k v mem again rnd a sid' f' : spec_step sid f (OpPut k (Some v) rnd) a sid' f' -> spec_step sid f (OpPrintf k (Some v) mem again rnd) a sid' f'
| sp_printf_fail sid f k text mem again rnd : (if text is Some v then 1024 <= zlen v /\ mem && again = false else True) -> spec_step sid f (OpPrintf k text mem again rnd) (ARc false) sid f
| sp_put_null s f k rnd f' : (forall a c, f' a c = upd f s k None a c) -> spec_step (Some s) f (OpPut k None rnd) (ARc true) (Some s) f'
| sp_put_null_none f k rnd : spec_step None f (OpPut k None rnd) (ARc true) None f
| sp_del s f k f' : (forall a c, f' a c = upd f s k None a c) -> spec_step (Some s) f (OpDel k) ANone (Some s) f'
| sp_del_none f k : spec_step None f (OpDel k) ANone None f
| sp_clear s f f' : (forall a c, a <> s -> f' a c = f a c) -> spec_step (Some s) f OpClear ANone None f'
| sp_clear_none f : spec_step None f OpClear ANone None f.

Context `{!HMapLaws M} `{!Store ops}.

(** The cache holds nothing the store does not hold. *)
Record sess_rel (st : S) (q : sess) (sid : option str) (f : aview) : Prop := {
  sr_inv : so_inv st;
  sr_view : forall a c, so_view st a c = f a c;
  sr_sid : sid = iwn_wf_session_id q;
  sr_cache : forall k v, cached q.(se_cache) k = Some v -> q.(se_sid) <> [] /\ f q.(se_sid) k = Some v;
  sr_open : q.(se_locked) = false }.

(** Calls the specification covers: a random source that works, ids that are not empty. *)
Definition op_ok (o : sess_op) : Prop :=
  match o with OpPut _ (Some _) rnd | OpPrintf _ _ _ _ rnd => exists b, rnd = Some b /\ zlen b = IWN_WF_SESSION_ID_LEN | _ => True end.

Lemma sid_exists_spec q : _request_sid_exists q = true <-> q.(se_sid) <> [].
Proof. unfold _request_sid_exists. rewrite negb_true_iff, bool_decide_eq_false. done. Qed.

Lemma session_id_some q : q.(se_sid) <> [] -> iwn_wf_session_id q = Some q.(se_sid).
Proof. intros H. unfold iwn_wf_session_id. by rewrite (proj2 (sid_exists_spec q) H). Qed.
Lemma session_id_none q : _request_sid_exists q = false -> iwn_wf_session_id q = None.
Proof. intros H. unfold iwn_wf_session_id. by rewrite H. Qed.

Lemma upd_ne (f : aview) sid k v c : c <> k -> upd f sid k v sid c = f sid c.
Proof. intros H. unfold upd. by rewrite decide_False by (by intros [_ ?]). Qed.

(** Dropping a key from the cache. *)
Lemma cache_remove (c : option (M str)) k k' v : cached ((fun m => hm_remove (M := M) m k) <$> c) k' = Some v -> k' <> k /\ cached c k' = Some v.
Proof. unfold cached. destruct c as [m|]; [|done]. cbn [fmap option_fmap option_map mbind option_bind]. rewrite get_remove. by destruct (decide (k = k')). Qed.

Lemma cache_clear (c : option (M str)) k : cached (hm_clear (M := M) <$> c) k = None.
Proof. unfold cached. destruct c as [m|]; [|done]. cbn [fmap option_fmap option_map mbind option_bind]. apply get_clear. Qed.

Lemma put_rel st q sid f k v b : sess_rel st q sid f -> zlen b = IWN_WF_SESSION_ID_LEN ->
  exists st' q' ok sid' f', iwn_wf_session_put (Some b) st q k (Some v) = Some (st', q', ok) /\
    spec_step sid f (OpPut k (Some v) (Some b)) (ARc ok) sid' f' /\ sess_rel st' q' sid' f'.
Proof.
  intros [Hi Hv Hs Hc Ho] Hb. unfold iwn_wf_session_put, lock. rewrite Ho. cbn [mbind option_bind].
  assert (exists q1 s, _request_sid_ensure (Some b) {| q with se_locked := true |} = Some (q1, true) /\ q1.(se_sid) = s /\ s <> [] /\ q1.(se_cache) = q.(se_cache) /\
    (sid = Some s \/ sid = None /\ exists b', Some b = Some b' /\ mapM sid_char b' = Some s) /\
    (forall k v, cached q.(se_cache) k = Some v -> f s k = Some v)) as (q1 & s & -> & Es & Hne & Ec & Hsid & Hcs).
  { unfold _request_sid_ensure. destruct (_request_sid_exists q) eqn:Ee.
    - change (_request_sid_exists {| q with se_locked := true |}) with (_request_sid_exists q). rewrite Ee. eexists _, _. split; [reflexivity|]. cbn [se_sid se_cache]. apply sid_exists_spec in Ee. split; [done|]. split; [done|]. split; [done|].
      split; [left; by rewrite Hs, session_id_some|]. intros k0 v0 Hk. by apply Hc.
    - change (_request_sid_exists {| q with se_locked := true |}) with (_request_sid_exists q). rewrite Ee. cbn [_request_sid_fill]. destruct (sid_fill_ok b) as (s & Eb & Hl & _). rewrite Eb. cbn [mbind option_bind].
      eexists _, _. split; [reflexivity|]. cbn [se_sid se_cache]. split; [done|]. split; [intros ->; unfold zlen in Hb; rewrite <- Hl in Hb; done|]. split; [done|].
      split; [right; split; [by rewrite Hs, session_id_none|by exists b]|]. intros k0 v0 Hk. destruct (Hc _ _ Hk) as [Hx _]. apply sid_exists_spec in Hx. congruence. }
  cbn [mbind option_bind negb se_sid]. rewrite Es, Ec. destruct (so_put_ok st s k v Hi) as (st' & ok & -> & Hi' & Hv'). cbn [mbind option_bind]. rewrite <- Es.
  exists st', (unlock {| q1 with se_cache := (fun m : M str => hm_remove (M := M) m k) <$> q.(se_cache) |}), ok, (Some s), (so_view st'). split; [done|]. split.
  - destruct ok; [apply sp_put|apply sp_put_fail]; try done; intros a c; rewrite Hv'; [unfold upd; destruct (decide _); [done|apply Hv]|apply Hv].
  - split; [done|done|unfold iwn_wf_session_id, _request_sid_exists; cbn [unlock se_sid]; by rewrite Es, bool_decide_false| |done]. cbn [unlock se_cache se_sid]. intros k' v' [Hkk Hk]%cache_remove. rewrite Es. split; [done|].
    apply Hcs in Hk. rewrite Hv'. destruct ok; [rewrite upd_ne by done|]; by rewrite Hv.
Qed.

Lemma del_rel st q sid f k : sess_rel st q sid f ->
  exists st' q' f', iwn_wf_session_del st q k = Some (st', q') /\ sess_rel st' q' sid f' /\
    match sid with Some s => forall a c, f' a c = upd f s k None a c | None => f' = f end.
Proof.
  intros [Hi Hv Hs Hc Ho]. unfold iwn_wf_session_del, lock. destruct (_request_sid_exists q) eqn:Ee.
  - apply sid_exists_spec in Ee. rewrite session_id_some in Hs by done. subst sid. rewrite Ho. cbn [mbind option_bind se_sid]. destruct (so_del_ok st q.(se_sid) k Hi) as (st' & -> & Hi' & Hv'). cbn [mbind option_bind].
    eexists _, _, (so_view st'). split; [reflexivity|]. split; [|intros a c; rewrite Hv'; unfold upd; destruct (decide _); [done|apply Hv]].
    split; [done|done|by rewrite session_id_some| |done]. cbn [unlock se_cache se_sid]. intros k' v' [Hkk Hk]%cache_remove. split; [done|]. destruct (Hc _ _ Hk) as [_ Hf]. by rewrite Hv', upd_ne, Hv.
  - rewrite session_id_none in Hs by done. subst sid. exists st, q, f. split; [done|]. split; [|done]. split; [done|done|by rewrite session_id_none|done|done].
Qed.

Lemma get_rel g st q sid f k : sess_rel st q sid f ->
  exists q' v, iwn_wf_session_get g st q k = Some (q', v) /\ sess_rel st q' sid f /\ (v = (sid ≫= fun s => f s k) \/ v = None /\ gm_all g = false).
Proof.
  intros HR. pose proof HR as [Hi Hv Hs Hc Ho]. unfold iwn_wf_session_get, lock. destruct (_request_sid_exists q) eqn:Ee.
  2: { rewrite session_id_none in Hs by done. subst sid. exists q, None. by auto. }
  apply sid_exists_spec in Ee. rewrite session_id_some in Hs by done. subst sid. rewrite Ho. cbn [mbind option_bind se_cache].
  assert (forall c, (forall k v, cached c k = Some v -> f q.(se_sid) k = Some v) -> sess_rel st (unlock (mkSess q.(se_sid) c true)) (Some q.(se_sid)) f) as Hrel.
  { intros c Hcc. split; [done|done|by rewrite session_id_some| |done]. intros k' v' Hk. split; [done|by apply Hcc]. }
  destruct (cached q.(se_cache) k) as [v|] eqn:Ek.
  - destruct (Hc _ _ Ek) as [_ Hf]. rewrite Hf. eexists _, _. split; [reflexivity|]. split; [|by left]. apply Hrel. intros k' v' Hk'. by apply Hc.
  - cbn [se_sid]. rewrite so_get_ok by done. cbn [mbind option_bind]. rewrite Hv. destruct (f q.(se_sid) k) as [v|] eqn:Ef.
    2: { eexists _, _. split; [reflexivity|]. split; [|by left]. apply Hrel. intros k' v' Hk'. by apply Hc. }
    assert (forall m, (match q.(se_cache) with Some m => Some m | None => if g.(gm_map) then Some (hm_empty (M := M)) else None end) = Some m ->
      forall k' v', hm_get (M := M) m k' = Some v' -> f q.(se_sid) k' = Some v') as Hm.
    { intros m Em k' v' Hk'. destruct (q.(se_cache)) as [m0|] eqn:Eq; [injection Em as ->; apply Hc; unfold cached; by rewrite ?Eq|].
      destruct (gm_map g); [|done]. injection Em as <-. by rewrite get_empty in Hk'. }
    destruct (match q.(se_cache) with Some m => Some m | None => _ end) as [m|] eqn:Em.
    2: { eexists _, _. split; [reflexivity|]. split; [apply Hrel; intros k' v' Hk'; by apply Hc|]. right. split; [done|]. unfold gm_all. by destruct (se_cache q), (gm_map g). }
    specialize (Hm _ eq_refl). destruct (gm_key g && gm_put g) eqn:Eg.
    + eexists _, _. split; [reflexivity|]. split; [|by left]. apply Hrel. intros k' v'. unfold cached. cbn [mbind option_bind]. rewrite get_put.
      destruct (decide (k = k')) as [<-|]; [congruence|]. apply Hm.
    + eexists _, _. split; [reflexivity|]. split; [apply Hrel; intros k' v'; apply Hm|]. right. split; [done|]. unfold gm_all. rewrite <- andb_assoc, Eg. by rewrite andb_false_r.
Qed.

(** One call on a related state. *)
Lemma sess_call_spec st q sid f o : sess_rel st q sid f -> op_ok o ->
  exists st' q' a sid' f', sess_call st q o = Some (st', q', a) /\ spec_step sid f o a sid' f' /\ sess_rel st' q' sid' f'.
Proof.
  intros HR Hok. pose proof HR as [Hi Hv Hs Hc Ho]. destruct o as [|new|k g|k [v|] rnd|k text mem again rnd|k|]; cbn [sess_call].
  - subst sid. eexists _, _, _, _, f. split; [done|]. split; [constructor|done].
  - unfold iwn_wf_session_id_set, lock. rewrite Ho. destruct (Z.eqb_spec (zlen new) IWN_WF_SESSION_ID_LEN) as [E|E]; cbn [negb mbind option_bind]; eexists _, _, _, _, f; (split; [done|]).
    + split; [by apply sp_id_set|]. split; [done|done| | |done]; cbn [unlock se_sid se_cache]; [|intros ? ?; by rewrite cache_clear]. rewrite session_id_some; [done|]. cbn. by intros ->.
    + split; [by apply sp_id_bad|done].
  - destruct (get_rel g st q sid f k HR) as (q' & v & -> & HR' & Hg). eexists _, _, _, _, f. split; [done|]. split; [|done].
    destruct Hg as [->|[-> Hg]]; [constructor|by apply sp_get_fail].
  - destruct Hok as (b & -> & Hb). destruct (put_rel st q sid f k v b HR Hb) as (st' & q' & ok & sid' & f' & -> & Hsp & HR'). eexists _, _, _, _, f'. split; [done|]. by split.
  - cbn [iwn_wf_session_put]. destruct (del_rel st q sid f k HR) as (st' & q' & f' & -> & HR' & Hf). eexists _, _, _, _, f'. split; [done|]. split; [|done]. destruct sid; [by apply sp_put_null|subst f'; apply sp_put_null_none].
  - unfold iwn_wf_session_printf_va. destruct text as [v|]; [|eexists _, _, _, _, f; split; [done|]; split; [by apply sp_printf_fail|done]].
    destruct ((1024 <=? zlen v) && negb (mem && again)) eqn:Eb.
    + apply andb_true_iff in Eb as [?%Z.leb_le ?%negb_true_iff]. eexists _, _, _, _, f. split; [done|]. split; [by apply sp_printf_fail|done].
    + destruct Hok as (b & -> & Hb). destruct (put_rel st q sid f k v b HR Hb) as (st' & q' & ok & sid' & f' & -> & Hsp & HR'). eexists _, _, _, _, f'. split; [done|]. split; [by apply sp_printf|done].
  - destruct (del_rel st q sid f k HR) as (st' & q' & f' & -> & HR' & Hf). eexists _, _, _, _, f'. split; [done|]. split; [|done]. destruct sid; [by apply sp_del|subst f'; apply sp_del_none].
  - unfold iwn_wf_session_clear, lock. destruct (_request_sid_exists q) eqn:Ee.
    + apply sid_exists_spec in Ee. rewrite session_id_some in Hs by done. subst sid. destruct (so_clear_ok st q.(se_sid) Hi) as (st' & -> & Hi' & Hv'). cbn [mbind option_bind]. rewrite Ho. cbn [mbind option_bind].
      eexists _, _, _, _, (so_view st'). split; [done|]. split; [apply sp_clear; intros a c Ha; by rewrite Hv', Hv|]. split; [done|done|done| |done]. cbn [unlock se_sid se_cache]. intros ? ?. by rewrite cache_clear.
    + rewrite session_id_none in Hs by done. subst sid. eexists _, _, _, _, f. split; [done|]. split; [constructor|done].
Qed.

Fixpoint sess_run (st : S) (q : sess) (os : list sess_op) : option (S * sess * list answer_) :=
  match os with
  | [] => Some (st, q, [])
  | o :: os => '(st, q, a) ← sess_call st q o; '(st, q, l) ← sess_run st q os; Some (st, q, a :: l)
  end.

Inductive spec_trace : option str -> aview -> list sess_op -> list answer_ -> option str -> aview -> Prop :=
| tr_nil sid f : spec_trace sid f [] [] sid f
| tr_cons sid f o a sid1 f1 os l sid2 f2 : spec_step sid f o a sid1 f1 -> spec_trace sid1 f1 os l sid2 f2 -> spec_trace sid f (o :: os) (a :: l) sid2 f2.

Lemma sess_run_spec os st q sid f : sess_rel st q sid f -> Forall op_ok os ->
  exists st' q' l sid' f', sess_run st q os = Some (st', q', l) /\ spec_trace sid f os l sid' f' /\ sess_rel st' q' sid' f'.
Proof.
  intros HR Hos. revert st q sid f HR. induction Hos as [|o os Ho Hos IH]; intros st q sid f HR; [eexists _, _, _, _, _; split; [done|]; split; [constructor|done]|].
  cbn [sess_run]. destruct (sess_call_spec st q sid f o HR Ho) as (st1 & q1 & a & sid1 & f1 & -> & Ha & HR1). cbn [mbind option_bind].
  destruct (IH _ _ _ _ HR1) as (st2 & q2 & l & sid2 & f2 & -> & Hl & HR2). cbn [mbind option_bind]. eexists _, _, _, _, _. split; [done|]. split; [by econstructor|done].
Qed.

(** C31. The session functions of one request over any store that keeps its promise, as long as the source of random bytes works when a
    put needs a new session id (see [random_failure_keeps_lock]): from a new request, every sequence of calls runs to its end without a
    crash, without waiting for a mutex the request itself holds, and answers as the specification does, where a session is an id and
    a function from keys to values.  So the cache of the request is never seen: a get answers what the store holds, or, for want of
    memory, nothing.  At the end the mutex is free. *)
Theorem session_refines st os : so_inv st -> Forall op_ok os ->
  exists st' q' l sid' f', sess_run st (mkSess [] None false) os = Some (st', q', l) /\
    spec_trace None (so_view st) os l sid' f' /\
    (forall a c, so_view st' a c = f' a c) /\ iwn_wf_session_id q' = sid' /\ q'.(se_locked) = false.
Proof.
  intros Hi Hos. assert (sess_rel st (mkSess [] None false) None (so_view st)) as HR by (split; done).
  destruct (sess_run_spec os st _ _ _ HR Hos) as (st' & q' & l & sid' & f' & E & Ht & [_ Hv Hs _ Ho]). by eexists _, _, _, _, _.
Qed.
End Session.

(** ** A hash map, and sessions over the in-memory store *)

#[export] Instance gmap_hmap : HMap (gmap str) := {|
  hm_empty V := ∅; hm_get V m k := m !! k; hm_put V m k v := <[k := v]> m; hm_remove V m k := delete k m;
  hm_clear V m := ∅; hm_count V m := Z.of_nat (size m) |}.

#[export] Instance gmap_hmap_laws : HMapLaws (gmap str).
Proof.
  split; cbn.
  - intros. apply lookup_empty.
  - intros V m k v k'. destruct (decide (k = k')) as [->|]; [apply lookup_insert_eq|by apply lookup_insert_ne].
  - intros V m k k'. destruct (decide (k = k')) as [->|]; [apply lookup_delete_eq|by apply lookup_delete_ne].
  - intros. apply lookup_empty.
  - intros V m. change 0 with (Z.of_nat 0). rewrite Nat2Z.inj_iff, map_size_empty_iff. split; [intros ->; apply lookup_empty|apply map_empty].
Qed.

Definition gm_ok : gmem := mkGmem true true true.
Definition all_ok : allocs := mkAllocs true true true true true true.
Definition demo_ops : store_ops (impl (M := gmap str)) := inmem_ops (fun _ => all_ok).
Definition demo_random : list Z := Z.of_nat <$> seq 190 32.

Definition demo_session : list sess_op :=
  [OpId; OpGet (bytes_of_string "user") gm_ok; OpPut (bytes_of_string "user") (Some (bytes_of_string "anna")) (Some demo_random); OpGet (bytes_of_string "user") gm_ok; OpGet (bytes_of_string "user") gm_ok;
   OpPut (bytes_of_string "user") (Some (bytes_of_string "otto")) (Some demo_random); OpGet (bytes_of_string "user") gm_ok; OpDel (bytes_of_string "user"); OpGet (bytes_of_string "user") gm_ok; OpClear; OpId].

(** The specification is met by the in-memory store over finite maps. *)
Lemma session_refines_witness :
  exists st' q' l sid' f', sess_run demo_ops sst_inmem_create (mkSess [] None false) demo_session = Some (st', q', l) /\
    spec_trace None (inmem_view sst_inmem_create) demo_session l sid' f' /\
    (forall a c, inmem_view st' a c = f' a c) /\ iwn_wf_session_id q' = sid' /\ q'.(se_locked (M := gmap str)) = false.
Proof.
  apply (session_refines (M := gmap str) (Store0 := inmem_store (fun _ => all_ok)) demo_ops sst_inmem_create demo_session); [apply create_inv_inmem|]. repeat constructor; exists demo_random; split; reflexivity.
Defined.

(** A source of random bytes that fails leaves the mutex held, so the next call waits forever. *)
Example random_failure_keeps_lock : forall k v k' v' st q, q = mkSess [] None false ->
  exists q', iwn_wf_session_put demo_ops None st q k (Some v) = Some (st, q', false) /\ q'.(se_locked (M := gmap str)) = true /\
    iwn_wf_session_put demo_ops (Some demo_random) st q' k' (Some v') = None.
Proof. intros k v k' v' st q ->. by eexists. Qed.

(** A cleared session still answers with its data when its id is set again. *)
Definition demo_sid : str := bytes_of_string "0123456789abcdef0123456789abcdef".
Example clear_keeps_data :
  snd <$> sess_run demo_ops sst_inmem_create (mkSess [] None false)
    [OpIdSet demo_sid; OpPut (bytes_of_string "user") (Some (bytes_of_string "anna")) (Some demo_random); OpClear; OpId; OpIdSet demo_sid; OpGet (bytes_of_string "user") gm_ok]
  = Some [ARc true; ARc true; ANone; AId None; ARc true; AVal (Some (bytes_of_string "anna"))].
Proof. vm_compute. reflexivity. Qed.

Lemma inmem_store_refines_witness :
  let os := [SPut (bytes_of_string "s") (bytes_of_string "k") (bytes_of_string "v") all_ok; SGet (bytes_of_string "s") (bytes_of_string "k"); SClear (bytes_of_string "s");
             SDel (bytes_of_string "s") (bytes_of_string "k"); SGet (bytes_of_string "s") (bytes_of_string "k")] in
  exists i l f, store_run (M := gmap str) sst_inmem_create os = Some (i, l) /\ inmem_inv i /\
    (forall a c, inmem_view (M := gmap str) sst_inmem_create a c = None) /\
    store_trace (inmem_view (M := gmap str) sst_inmem_create) os l f /\ (forall sid k, _get i sid k = Some (f sid k)).
Proof. apply (inmem_store_refines (M := gmap str)). Defined.
