(* ===== verification/WfRequest.v ===== *)
(** * WfRequest: from an HTTP request to the handlers of its routes

    The request layer of [src/src/http/iwn_wf.c]: a request is made from the method, the target and
    the headers of an HTTP request, its body is collected, its form is parsed, and the handlers of the
    routes it matches are called in the order of the iterator.

    The values of the HTTP request are those the accessors of the HTTP session give ([HttpResponse]).
    Handlers are functions of the application: they get their route and the request, of which they do
    not see the iterator ([struct request] is private), and act on a world [W] in which they also write
    responses. *)
From S2P Require Import Prelude Codec WfRoute HttpParser WfHeader WfQuery.

(** ** The HTTP request *)

(** Method, target, values of the headers [Content-Type] and [Cookie], and whether the body comes in chunks. *)
Record http_req := mkHttp {
  h_method : list Z; h_target : list Z; h_content_type : option (list Z); h_cookie : option (list Z);
  h_streamed : bool; h_body : list Z }.

(** ** The request *)

(** [struct request] and [struct iwn_wf_req]; the routing part is [r_q].  The buffers of the path and of the
    query are copies in the pool of the request; the pairs of the query point into [r_query_buf], those of
    a form into [r_body]. *)
Record wreq := mkWreq {
  r_q : request; r_query_buf : list Z; r_query : list qpair; r_sid : list Z;
  r_boundary : option (list Z); r_boundary_len : Z;
  r_body : option (list Z); r_body_len : Z; r_form : list qpair; r_parts : list part;
  r_streamed : Z; r_file : option (list Z) }.

(** ** The target *)

Fixpoint path_end (l : list Z) : Z :=
  match l with [] => 0 | c :: l => if c =? 63 then 0 else 1 + path_end l end.

(** Path, its length before decoding, and the query. *)
Definition _request_target_parse (val : list Z) : option ((list Z * Z * list Z * list qpair) + wf_error) :=
  if zlen val =? 0 then Some (inr IW_ERROR_ASSERTION)
  else
    let i := path_end val in
    p ← iwn_url_decode_inplace (take (Z.to_nat i) val ++ [0]);
    if i + 1 <? zlen val then
      let q := drop (Z.to_nat (i + 1)) val ++ [0] in
      '(q, params) ← _request_parse_query_inplace q (Some 0) (zlen val - (i + 1)) [];
      Some (inl (p, i, q, params))
    else Some (inl (p, i, [], [])).

(** ** The method *)

Definition method_is (val : list Z) (lit : string) : option bool := strncmp_same val (bytes_of_string lit ++ [0]) (zlen val).

(** The flags of the request, which are 0 before. *)
Definition _request_method_parse (val : list Z) : option (Z + wf_error) :=
  if zlen val =? 0 then Some (inr IW_ERROR_ASSERTION)
  else if zlen val =? 3 then
    b ← method_is val "GET";
    if (b : bool) then Some (inl IWN_WF_GET)
    else b ← method_is val "PUT"; Some (inl (if (b : bool) then IWN_WF_PUT else 0))
  else if zlen val =? 4 then
    b ← method_is val "POST";
    if (b : bool) then Some (inl IWN_WF_POST)
    else b ← method_is val "HEAD"; Some (inl (if (b : bool) then IWN_WF_HEAD else 0))
  else
    b ← method_is val "DELETE";
    if (b : bool) then Some (inl IWN_WF_DELETE)
    else
      b ← method_is val "OPTIONS";
      if (b : bool) then Some (inl IWN_WF_OPTIONS)
      else b ← method_is val "PATCH"; Some (if (b : bool) then inl IWN_WF_PATCH else inr WF_ERROR_UNSUPPORTED_HTTP_METHOD).

(** ** The headers *)

Definition IWN_WF_SESSION_COOKIE_KEY : string := "sessionid".

(** The session id the cookie gives; [[]] for none.  The value stands in the buffer of the request, in front
    of CR LF. *)
Definition _request_headers_cookie_parse (cookie : option (list Z)) : option (list Z) :=
  match cookie with
  | None | Some [] => Some []
  | Some val =>
      '(buf, r) ← iwn_wf_header_val_part_find (val ++ [13; 10]) 0 (zlen val) (bytes_of_string IWN_WF_SESSION_COOKIE_KEY ++ [0]);
      match r with
      | Some kv => Some (match kv.(pv) with Some p => if kv.(pv_len) =? 32 then cstr (slice buf p (p + 32)) else [] | None => [] end)
      | None => Some []
      end
  end.

(** Looks for the parameter [boundary]. *)
Fixpoint boundary_loop (fuel : nat) (buf : list Z) (rp ep : Z) : option (option (list Z)) :=
  match fuel with
  | O => None
  | S fuel =>
      '(buf, r) ← _header_parse_next_parameter buf rp ep;
      match r with
      | None => Some None
      | Some (rp, kv) =>
          same ← strncasecmp_at buf kv.(pk) "boundary" 8;
          if (same : bool) then Some (Some (match kv.(pv) with Some p => slice buf p (p + kv.(pv_len)) | None => [] end))
          else boundary_loop fuel buf rp ep
      end
  end.

(** The flags to add and the boundary. *)
Definition content_type_parse (content_type : option (list Z)) : option ((Z * option (list Z)) + wf_error) :=
  let val := default [] content_type in
  let buf := val ++ [13; 10] in
  if 0 <? zlen val then
    url ← (if 33 <=? zlen val then strncasecmp_at buf 0 "application/x-www-form-urlencoded" 33 else Some false);
    if (url : bool) then Some (inl (IWN_WF_FORM_URL_ENCODED, None))
    else
      mfd ← (if 19 <? zlen val then strncasecmp_at buf 0 "multipart/form-data" 19 else Some false);
      if (mfd : bool) then
        b ← boundary_loop (Z.to_nat (zlen val)) buf 19 (zlen val);
        match b with
        | None => Some (inr WF_ERROR_INVALID_FORM_DATA)
        | Some b => Some (inl (IWN_WF_FORM_MULTIPART, Some b))
        end
      else Some (inl (0, None))
  else Some (inl (0, None)).

(** The flags, the boundary and the session id of a request with the flags [flags] of its method. *)
Definition _request_headers_parse (flags : Z) (h : http_req) : option ((Z * option (list Z) * list Z) + wf_error) :=
  r ← content_type_parse h.(h_content_type);
  match r with
  | inr e => Some (inr e)
  | inl (f, b) => sid ← _request_headers_cookie_parse h.(h_cookie); Some (inl (Z.lor flags f, b, sid))
  end.

(** ** Creation *)

Section Request.
Context {re : Type} (re_match : re -> list Z -> list (Z * Z)).

Definition _request_create (fuel : nat) (w : @wfs re) (c : cid) (h : http_req) : option (wreq + wf_error) :=
  t ← _request_target_parse h.(h_target);
  match t with
  | inr e => Some (inr e)
  | inl (path, path_len, qbuf, query) =>
      m ← _request_method_parse h.(h_method);
      match m with
      | inr e => Some (inr e)
      | inl flags =>
          x ← _request_headers_parse flags h;
          match x with
          | inr e => Some (inr e)
          | inl (flags, boundary, sid) =>
              q ← _route_iter_init w (mkRequest c flags path path_len 0 0 [] (mkIter 0 0 [] []));
              '(q, _) ← _route_iter_next re_match fuel w.(w_routes) q;
              Some (inl (mkWreq q qbuf query sid ((fun b => b ++ [0]) <$> boundary) (zlen (default [] boundary)) None 0 [] [] 0 None))
          end
      end
  end.

(** ** Forms *)

Definition set_body (r : wreq) (body : list Z) (form : list qpair) (parts : list part) : wreq :=
  {| r with r_body := Some body; r_form := form; r_parts := parts |}.

Definition _request_form_url_encoded_parse (r : wreq) : option (wreq * bool) :=
  match r.(r_body) with
  | None => Some (r, true)
  | Some body => '(body, form) ← _request_parse_query_inplace body (Some 0) r.(r_body_len) r.(r_form); Some (set_body r body form r.(r_parts), true)
  end.

(** A null pointer as body and end: the loop is at its end. *)
Definition form_multipart_parse (r : wreq) : option (wreq * bool) :=
  match r.(r_body) with
  | None => Some (r, true)
  | Some body =>
      '(body, parts, eof) ← _request_form_multipart_parse body (default [] r.(r_boundary)) r.(r_boundary_len) 0 r.(r_body_len);
      Some (set_body r body r.(r_form) parts, eof)
  end.

Definition _request_form_parse (r : wreq) : option (wreq * bool) :=
  if negb (Z.land r.(r_q).(q_flags) IWN_WF_FORM_URL_ENCODED =? 0) then _request_form_url_encoded_parse r
  else if negb (Z.land r.(r_q).(q_flags) IWN_WF_FORM_MULTIPART =? 0) then form_multipart_parse r
  else Some (r, true).

(** ** Handlers *)

Context {W : Type} (handler : Z -> rloc -> wreq -> W -> W * Z) (by_code : W -> Z -> W * bool).

Definition IWN_WF_RES_NOT_PROCESSED : Z := 0.
Definition IWN_WF_RES_PROCESSED : Z := 1.
Definition IWN_WF_RES_CONNECTION_CLOSE : Z := -1.
Definition IWN_WF_RES_SKIP_CHILD_ROUTES : Z := -2.

Definition set_q (r : wreq) (q : request) : wreq := {| r with r_q := q |}.

(** What a handler sees of the request. *)
Definition shown (r : wreq) : wreq := set_q r {| r.(r_q) with q_it := mkIter 0 0 [] [] |}.

(** How the loop over the routes ends: [return false], or with the values of [rv] and [ok]. *)
Inductive loop_end := Closed | Left (rv : Z) (ok : bool).

Fixpoint routes_loop (n fuel : nat) (w : @wfs re) (r : wreq) (cur pr : option rloc) (rv : Z) (u : W) : option (wreq * W * loop_end) :=
  match cur with
  | None => Some (r, u, Left rv true)
  | Some l =>
      match n with
      | O => None
      | S n =>
          x ← w.(w_routes) !! l;
          let next (pr : option rloc) (rv : Z) (u : W) :=
            '(q, cur) ← _route_iter_next re_match fuel w.(w_routes) r.(r_q); routes_loop n fuel w (set_q r q) cur pr rv u in
          match x.(rt_base).(b_handler) with
          | None => next pr rv u
          | Some hd =>
              if bool_decide (is_Some pr) && bool_decide (x.(rt_parent) = pr) then next pr rv u
              else
                let '(u, rv) := handler hd l (shown r) u in
                if 0 <? rv then
                  if 1 <? rv then let '(u, ok) := by_code u rv in Some (r, u, Left rv ok) else Some (r, u, Left rv true)
                else if rv <? 0 then
                  if rv =? IWN_WF_RES_SKIP_CHILD_ROUTES then next (Some l) rv u else Some (r, u, Closed)
                else next None rv u
          end
      end
  end.

(** Requests no route has answered go to the root route. *)
Definition root_process (w : @wfs re) (r : wreq) (u : W) : option (W * bool) :=
  root ← w.(w_roots) !! r.(r_q).(q_ctx);
  l ← root;
  x ← w.(w_routes) !! l;
  let '(u, rv, ok) :=
    match x.(rt_base).(b_handler) with
    | Some hd =>
        let '(u, rv) := handler hd l (shown r) u in
        if 1 <? rv then let '(u, ok) := by_code u rv in (u, rv, ok)
        else (u, rv, negb (rv <? 0))
    | None => (u, 0, true)
    end in
  if rv =? 0 then Some (by_code u 404) else Some (u, ok).

(** From the current route on. *)
Definition routes_answer (n fuel : nat) (w : @wfs re) (r : wreq) (u : W) : option (wreq * W * bool) :=
  cur ← _route_iter_current w r.(r_q);
  '(r, u, e) ← routes_loop n fuel w r cur None 0 u;
  match e with
  | Closed => Some (r, u, false)
  | Left rv ok => if (ok : bool) && (rv =? 0) then '(u, ok) ← root_process w r u; Some (r, u, ok) else Some (r, u, ok)
  end.

Definition _request_routes_process (n fuel : nat) (w : @wfs re) (r : wreq) (u : W) : option (wreq * W * bool) :=
  '(r, ok) ← _request_form_parse r;
  if (ok : bool) then routes_answer n fuel w r u else Some (r, u, false).

Definition with_body (r : wreq) (body : list Z) : wreq :=
  {| r with r_body := if zlen body =? 0 then None else Some (body ++ [0]); r_body_len := zlen body |}.

(** The body of a request that is not streamed is in the buffer of the HTTP session, with a zero behind it. *)
Definition _request_process (n fuel : nat) (w : @wfs re) (r : wreq) (body : list Z) (u : W) : option (wreq * W * bool) :=
  _request_routes_process n fuel w (with_body r body) u.

(** ** Streamed bodies *)

(** Outcomes of the calls of the system: opening the file, a write, mapping it. *)
Record io := mkIo { io_open : bool; io_write : bool; io_map : bool }.

(** The result of [_request_stream_chunk_process]: [true] in front when the next chunk is asked for. *)
Definition _request_stream_chunk_process (n fuel : nat) (w : @wfs re) (max_size : Z) (o : io) (r : wreq) (chunk : list Z) (u : W)
    : option (wreq * W * bool * bool) :=
  if 0 <? zlen chunk then
    if u64 max_size <? u64 (r.(r_streamed) + zlen chunk) then Some ({| r with r_file := None |}, u, false, false)
    else
      match (match r.(r_file) with Some f => Some f | None => if o.(io_open) then Some [] else None end) with
      | None => Some (r, u, false, false)
      | Some f =>
          if o.(io_write) then Some ({| r with r_file := Some (f ++ chunk); r_streamed := r.(r_streamed) + zlen chunk |}, u, true, true)
          else Some ({| r with r_file := Some f |}, u, false, false)
      end
  else if 0 <? r.(r_streamed) then
    f ← r.(r_file);
    if o.(io_write) && o.(io_map) then
      let f := f ++ [0] in
      '(r, u, ok) ← _request_routes_process n fuel w {| r with r_file := Some f; r_body := Some f; r_body_len := r.(r_streamed) |} u;
      Some (r, u, false, ok)
    else Some (r, u, false, false)
  else '(r, u, ok) ← _request_routes_process n fuel w r u; Some (r, u, false, ok).

(** ** The handler of the HTTP session *)

(** What [_request_handler] leads to: the connection is closed, chunks are asked for, or the request is answered. *)
Inductive handled := Refused (e : wf_error) | Limited | Streaming (r : wreq) | Done (r : wreq) (u : W) (ok : bool).

(** [known] is the request made at an earlier call for the same HTTP request. *)
Definition _request_handler (n fuel : nat) (w : @wfs re) (c : cid) (max_size : Z) (known : option wreq) (h : http_req) (u : W) : option handled :=
  x ← match known with Some r => Some (inl r) | None => _request_create fuel w c h end;
  match x with
  | inr e => Some (Refused e)
  | inl r =>
      cur ← _route_iter_current w r.(r_q);
      match cur with
      | None =>
          let q := {| r.(r_q) with q_flags := Z.land r.(r_q).(q_flags) (Z.lnot IWN_WF_FORM_ALL) |} in
          '(r, u, ok) ← _request_routes_process n fuel w (set_q r q) u; Some (Done r u ok)
      | Some _ =>
          if h.(h_streamed) then if max_size <? 0 then Some Limited else Some (Streaming r)
          else '(r, u, ok) ← _request_process n fuel w r h.(h_body) u; Some (Done r u ok)
      end
  end.
End Request.

(** ** Submatches of the current route *)

Definition iwn_wf_request_submatch_first (route : rloc) (subs : list submatch) : option submatch :=
  snd <$> list_find (fun s => s.(sm_route) = route) subs.

(** [None]: [req->last] is a null pointer. *)
Definition iwn_wf_request_submatch_last (route : rloc) (subs : list submatch) : option (option submatch) :=
  s ← last subs;
  if bool_decide (s.(sm_route) = route) then Some (Some s)
  else Some (last (filter (fun s => s.(sm_route) = route) subs)).

(** ** Cookies of a response *)

Record cookie_opts := mkCookie {
  co_path : option (list Z); co_domain : option (list Z); co_extra : option (list Z); co_max_age_sec : Z; co_httponly : bool; co_secure : bool }.

Definition opt_text (pre : string) (o : option (list Z)) : list Z := match o with Some w => bytes_of_string pre ++ w | None => [] end.

(** The value of the header [Set-Cookie]; [decimal] is the conversion [%d] of [printf]. *)
Definition cookie_text (decimal : Z -> list Z) (secure : bool) (name value : list Z) (o : cookie_opts) : list Z :=
  name ++ [61; 34] ++ value ++ [34]
  ++ (if o.(co_max_age_sec) <? 0 then bytes_of_string "; Max-Age=0" else if 0 <? o.(co_max_age_sec) then bytes_of_string "; Max-Age=" ++ decimal o.(co_max_age_sec) else [])
  ++ opt_text "; Path=" o.(co_path) ++ opt_text "; Domain=" o.(co_domain)
  ++ (if o.(co_httponly) then bytes_of_string "; Httponly" else [])
  ++ (if o.(co_secure) || secure then bytes_of_string "; Secure" else [])
  ++ opt_text "" o.(co_extra).

(** [_response_headers_write]: the value of the [Set-Cookie] header that tells the client its session. *)
Definition session_cookie (decimal : Z -> list Z) (upgrade secure : bool) (sid : list Z) (max_age : Z) (params : option (list Z)) : option (list Z) :=
  if upgrade then None
  else match sid with
       | [] => None
       | _ => Some (cookie_text decimal secure (bytes_of_string IWN_WF_SESSION_COOKIE_KEY) sid
                      (mkCookie (Some [47]) None (Some (default (bytes_of_string "; samesite=lax") params)) max_age true false))
       end.
