(* ===== verification/WfDispatch.v ===== *)
(** * WfDispatch: which handlers a request reaches

    The loop of [_request_routes_process] over the iterator against a plain recursion over the visits
    of the depth first search, the parsing of requests, and streamed bodies. *)
From S2P Require Import Prelude Codec WfRoute HttpParser WfHeader WfQuery WfIter WfTree WfRequest.

(** ** What the iterator leaves alone *)

Definition same_req (q q' : request) : Prop :=
  q'.(q_ctx) = q.(q_ctx) /\ q'.(q_flags) = q.(q_flags) /\ q'.(q_path) = q.(q_path) /\ q'.(q_path_len) = q.(q_path_len).

#[export] Instance same_req_pre : PreOrder same_req.
Proof. split; [done|]. unfold same_req. intros x y z. intuition congruence. Qed.

Lemma aset_aget {A} (l l' : list A) i v : aset l i v = Some l' -> aget l' i = Some v.
Proof.
  unfold aset, aget. destruct (Z.ltb_spec i 0); cbn [orb]; [done|]. destruct (Z.leb_spec (zlen l) i); [done|]. intros [= <-].
  apply list_lookup_insert_eq. unfold zlen in *. lia.
Qed.

(** The route on top of the stack has matched. *)
Definition on_top (q : request) (l : rloc) : Prop :=
  aget q.(q_it).(it_stack) (q.(q_it).(it_cnt) - 1) = Some (Some l) /\ exists m, aget q.(q_it).(it_mlen) (q.(q_it).(it_cnt) - 1) = Some m /\ m <> 0.

Ltac binds H := repeat match type of H with
  | (?o ≫= _) = Some _ => let x := fresh "x" in let E := fresh "E" in destruct o as [x|] eqn:E; [cbn [mbind option_bind] in H|done]
  | (let '(_, _) := ?x in _) = Some _ => destruct x
  | match ?o with Some _ => _ | None => None end = Some _ => let x := fresh "x" in let E := fresh "E" in destruct o as [x|] eqn:E; [|done]
  end.

Section Iterator.
Context {re : Type} (re_match : re -> list Z -> list (Z * Z)) (h : gmap rloc (@route re)).

Lemma do_match_keeps pos q q' b : _route_do_match_next re_match h pos q = Some (q', b) ->
  same_req q q' /\ q'.(q_it).(it_cnt) = q.(q_it).(it_cnt) /\ q'.(q_it).(it_stack) = q.(q_it).(it_stack) /\
  (b = true -> exists m, aget q'.(q_it).(it_mlen) pos = Some m /\ m <> 0).
Proof.
  unfold _route_do_match_next. intros E. destruct (aget (it_stack (q_it q)) pos) as [[l|]|]; cbn [mbind option_bind] in E; [| |done].
  - destruct (h !! l) as [r|]; [|done]. cbn [mbind option_bind] in E. destruct (route_mlen _ _ _ _ _) as [[mlen subs]|]; [|done]. cbn [mbind option_bind] in E.
    match type of E with context [aset ?x pos mlen] => destruct (aset x pos mlen) as [ml|] eqn:Ea; [|done] end. cbn [mbind option_bind] in E. apply aset_aget in Ea.
    destruct (Z.eqb_spec mlen 0) as [->|Hm]; injection E as <- <-; (split; [done|]; split; [done|]; split; [done|]); [done|]. intros _. by exists mlen.
  - injection E as <- <-. by split.
Qed.

Lemma pop_keeps q q' r : _route_iter_pop_then_next re_match h q = Some (q', r) ->
  same_req q q' /\ forall l, r = Some l -> aget q'.(q_it).(it_stack) (q'.(q_it).(it_cnt) - 1) = Some (Some l).
Proof.
  unfold _route_iter_pop_then_next. cbn [it_stack it_mlen it_cnt]. destruct (0 <? _) eqn:Ec; [|by intros [= <- <-]]. intros E.
  destruct (aget (it_stack (q_it q)) _) as [[l|]|] eqn:Es in E; [|done|done]. cbn [mbind option_bind] in E. destruct (aget (it_mlen (q_it q)) _) as [m|] eqn:Em in E; [|done]. cbn [mbind option_bind] in E.
  destruct (h !! l) as [x|]; [|done]. cbn [mbind option_bind] in E. destruct (aset _ _ _) as [st|] eqn:Ea in E; [|done]. cbn [mbind option_bind] in E. apply aset_aget in Ea.
  destruct (_route_do_match_next _ _ _ _) as [[q1 b]|] eqn:Ed in E; [|done]. cbn [mbind option_bind] in E. injection E as <- <-. apply do_match_keeps in Ed as (Hs & Hc & Hst & _). cbn in Hc, Hst.
  split; [done|]. intros l' Hl. by rewrite Hc, Hst, Ea, Hl.
Qed.

Lemma iter_turn_keeps q q' r m : iter_turn re_match h q = Some (q', r, m) -> same_req q q' /\ forall l, r = Some l -> m = true -> on_top q' l.
Proof.
  unfold iter_turn. intros E. destruct (aget (it_stack (q_it q)) _) as [[p|]|] eqn:Es in E; [| |done]; cbn [mbind option_bind] in E.
  - destruct (h !! p) as [x|]; [|done]. cbn [mbind option_bind] in E. destruct (aget (it_mlen (q_it q)) _) as [ml|] eqn:Em in E; [|done]. cbn [mbind option_bind] in E.
    assert (forall r' pos stack st cnt prev, aset stack pos r' = Some st -> pos = cnt - 1 ->
      ('(q, m) ← _route_do_match_next re_match h pos (set_it q (mkIter cnt prev st q.(q_it).(it_mlen))); Some (q, r', m)) = Some (q', r, m) -> same_req q q' /\ forall l, r = Some l -> m = true -> on_top q' l) as Hgo.
    { intros r' pos stack st cnt prev Ea Hpos E'. destruct (_route_do_match_next _ _ _ _) as [[q2 b]|] eqn:Ed; [|done]. cbn [mbind option_bind] in E'. injection E' as <- <- <-.
      apply do_match_keeps in Ed as (Hs & Hc & Hst & Hm). apply aset_aget in Ea. assert (it_cnt (q_it q2) - 1 = pos) as Hp by (rewrite Hc; cbn; lia).
      split; [done|]. intros l -> ->. unfold on_top. rewrite Hp, Hst. split; [exact Ea|by apply Hm]. }
    destruct (rt_child x) as [c|]; [destruct (ml =? 0)|]; (destruct (aset _ _ _) as [st|] eqn:Ea in E; [|done]); cbn [mbind option_bind] in E; (eapply Hgo; [exact Ea| |exact E]); cbn; lia.
  - destruct (_route_iter_pop_then_next _ _ _) as [[q1 r1]|] eqn:Ep in E; [|done]. cbn [mbind option_bind] in E. apply pop_keeps in Ep as [Hs Ht].
    destruct r1 as [l1|]; [|by injection E as <- <- <-]. destruct (aget (it_mlen (q_it q1)) _) as [m1|] eqn:Em in E; [|done]. cbn [mbind option_bind] in E. injection E as <- <- <-. split; [done|].
    intros l [= <-] Hm. split; [by apply Ht|]. exists m1. split; [done|]. by intros ->.
Qed.

Lemma next_keeps fuel : forall q q' r, _route_iter_next re_match fuel h q = Some (q', r) ->
  same_req q q' /\ match r with Some l => on_top q' l | None => q'.(q_it).(it_cnt) <= 0 end.
Proof.
  induction fuel as [|fuel IH]; intros q q' r; cbn [_route_iter_next]; (destruct (Z.ltb_spec 0 q.(q_it).(it_cnt)); [|by intros [= <- <-]]); [done|].
  destruct (iter_turn re_match h q) as [[[q1 r1] m]|] eqn:Et; [|done]. cbn [mbind option_bind]. apply iter_turn_keeps in Et as [Hs Hl].
  assert (_route_iter_next re_match fuel h q1 = Some (q', r) -> same_req q q' /\ match r with Some l => on_top q' l | None => q'.(q_it).(it_cnt) <= 0 end) as Hgo.
  { intros [Hs' Hl']%IH. split; [by etrans|done]. }
  destruct r1 as [l|]; [|done]. destruct m; [|done]. destruct (h !! l) as [x|]; [|done]. cbn [mbind option_bind]. destruct (bool_decide _); [|done]. intros [= <- <-]. split; [done|by apply Hl].
Qed.
End Iterator.

(** ** The reference: handlers are called along the visits *)

Section Dispatch.
Context {re : Type} (re_match : re -> list Z -> list (Z * Z)) {W : Type} (handler : Z -> rloc -> wreq -> W -> W * Z) (by_code : W -> Z -> W * bool).
Context (w : @wfs re).
Implicit Types (r : wreq) (vs : list visit) (u : W) (pr : option rloc).

Definition handler_of (l : rloc) : option Z := x ← w.(w_routes) !! l; x.(rt_base).(b_handler).
Definition parent_of (l : rloc) : option rloc := x ← w.(w_routes) !! l; x.(rt_parent).
Definition call_route (l : rloc) r u : W * Z := match handler_of l with Some hd => handler hd l r u | None => (u, 0) end.

(** The request as the handler of a visited route sees it. *)
Definition at_visit r (v : visit) : wreq :=
  let q := r.(r_q) in
  set_q r (mkRequest q.(q_ctx) q.(q_flags) q.(q_path) q.(q_path_len) v.(v_unmatched) v.(v_matched) v.(v_submatches) (mkIter 0 0 [] [])).

(** [pr] is the route whose handler has asked to skip its children, [rv] the last answer. *)
Fixpoint dispatch r vs pr (rv : Z) u : W * loop_end :=
  match vs with
  | [] => (u, Left rv true)
  | v :: vs =>
      if bool_decide (is_Some pr) && bool_decide (parent_of v.(v_route) = pr) then dispatch r vs pr rv u
      else
        let '(u, rv) := call_route v.(v_route) (at_visit r v) u in
        if 1 <? rv then let '(u, ok) := by_code u rv in (u, Left rv ok)
        else if rv =? IWN_WF_RES_PROCESSED then (u, Left rv true)
        else if rv =? IWN_WF_RES_SKIP_CHILD_ROUTES then dispatch r vs (Some v.(v_route)) rv u
        else if rv <? 0 then (u, Closed)
        else dispatch r vs None rv u
  end.

(** Then the root route, and 404 when it does not answer either. *)
Definition serve_root r (root : rloc) (sm : list submatch) u : W * bool :=
  let '(u, rv) := call_route root (at_visit r (mkVisit root 0 0 sm)) u in
  if rv =? 0 then by_code u 404 else if 1 <? rv then by_code u rv else (u, negb (rv <? 0)).

Definition serve r vs (root : rloc) (sm : list submatch) u : W * bool :=
  match dispatch r vs None 0 u with
  | (u, Closed) => (u, false)
  | (u, Left rv ok) => if ok && (rv =? 0) then serve_root r root sm u else (u, ok)
  end.

(** ** The loop follows it *)

Lemma shown_visit r q l : same_req r.(r_q) q -> shown (set_q r q) = at_visit r (mkVisit l q.(q_path_matched) q.(q_path_unmatched) q.(q_submatches)).
Proof. intros (H1 & H2 & H3 & H4). unfold shown, at_visit, set_q. cbn [r_q]. destruct q; cbn in *. by subst. Qed.

Abbreviation heap := (w.(w_routes)).

(** One turn: what to do next, [rest], and how to end, [stop]. *)
Definition turn_with {B} (l : rloc) (seen : wreq) pr (rv : Z) u (rest : option rloc -> Z -> W -> B) (stop : W -> loop_end -> B) : B :=
  if bool_decide (is_Some pr) && bool_decide (parent_of l = pr) then rest pr rv u
  else
    let '(u, rv) := call_route l seen u in
    if 1 <? rv then let '(u, ok) := by_code u rv in stop u (Left rv ok)
    else if rv =? IWN_WF_RES_PROCESSED then stop u (Left rv true)
    else if rv =? IWN_WF_RES_SKIP_CHILD_ROUTES then rest (Some l) rv u
    else if rv <? 0 then stop u Closed
    else rest None rv u.

Lemma dispatch_turn r v vs pr rv u : dispatch r (v :: vs) pr rv u = turn_with v.(v_route) (at_visit r v) pr rv u (dispatch r vs) pair.
Proof. reflexivity. Qed.

Lemma loop_turn m fuel r l pr rv u q1 cur : is_Some (handler_of l) -> _route_iter_next re_match fuel heap r.(r_q) = Some (q1, cur) ->
  routes_loop re_match handler by_code (S m) fuel w r (Some l) pr rv u =
  turn_with l (shown r) pr rv u (routes_loop re_match handler by_code m fuel w (set_q r q1) cur) (fun u e => Some (r, u, e)).
Proof.
  intros [hd Hhd] Hnx. cbn [routes_loop]. unfold turn_with, parent_of, call_route. rewrite Hhd, Hnx. unfold handler_of in Hhd. destruct (heap !! l) as [x|]; [|done]. cbn [mbind option_bind] in Hhd |- *. rewrite Hhd.
  destruct (_ && _); [done|]. destruct (handler hd l (shown r) u) as [u1 rv1]. unfold IWN_WF_RES_PROCESSED, IWN_WF_RES_SKIP_CHILD_ROUTES.
  destruct (Z.ltb_spec 0 rv1), (Z.ltb_spec 1 rv1), (Z.ltb_spec rv1 0), (Z.eqb_spec rv1 1), (Z.eqb_spec rv1 (-2)); try lia; done.
Qed.

Lemma turn_rel {A B} (R : A -> B -> Prop) l seen pr rv u rest rest' stop stop' :
  (forall pr rv u, R (rest pr rv u) (rest' pr rv u)) -> (forall u e, e <> Left 0 true -> R (stop u e) (stop' u e)) ->
  R (turn_with l seen pr rv u rest stop) (turn_with l seen pr rv u rest' stop').
Proof.
  intros Hr Hs. unfold turn_with. destruct (_ && _); [apply Hr|]. destruct (call_route l seen u) as [u1 rv1]. destruct (Z.ltb_spec 1 rv1); [destruct (by_code u1 rv1); apply Hs; intros [= ->]; lia|].
  destruct (Z.eqb_spec rv1 IWN_WF_RES_PROCESSED) as [->|]; [by apply Hs|]. destruct (_ =? _); [apply Hr|]. destruct (rv1 <? 0); [by apply Hs|apply Hr].
Qed.

(** The end of the loop, and the request it leaves when no handler has answered. *)
Definition loop_ends r q' (a : option (wreq * W * loop_end)) (b : W * loop_end) : Prop :=
  exists r', a = Some (r', b.1, b.2) /\ (b.2 = Left 0 true -> r' = set_q r q' /\ same_req r.(r_q) q').

Lemma routes_loop_spec fuel r vs : forall n m q q' v pr rv u,
  turns re_match heap n q vs q' -> q'.(q_it).(it_cnt) <= 0 -> (n <= fuel)%nat -> (length vs < m)%nat ->
  same_req r.(r_q) q -> v = mkVisit v.(v_route) q.(q_path_matched) q.(q_path_unmatched) q.(q_submatches) ->
  Forall (fun v => is_Some (handler_of v.(v_route))) (v :: vs) ->
  loop_ends r q' (routes_loop re_match handler by_code m fuel w (set_q r q) (Some v.(v_route)) pr rv u) (dispatch r (v :: vs) pr rv u).
Proof.
  induction vs as [|v2 vs IH]; intros n m q q' v pr rv u T Hend Hn Hm Hs Hv Hh; (destruct m as [|m]; [cbn in Hm; lia|]);
    apply Forall_cons in Hh as [Hhd Hh]; pose proof (next_of_turns _ _ _ _ _ _ T Hend fuel Hn) as Hnx; cbn [next_gives] in Hnx.
  - assert (same_req (r_q r) q') as Hs' by (etrans; [exact Hs|exact (proj1 (next_keeps _ _ _ _ _ _ Hnx))]).
    rewrite dispatch_turn, (loop_turn m fuel (set_q r q) _ _ _ _ _ _ Hhd Hnx), (shown_visit r q v.(v_route) Hs), <- Hv. apply turn_rel.
    + intros pr' rv' u'. destruct m; (exists (set_q r q'); by split).
    + intros u' e He. by eexists.
  - destruct Hnx as (q1 & n1 & Hnx & Hv2 & T1 & Hn1).
    assert (same_req (r_q r) q1) as Hs' by (etrans; [exact Hs|exact (proj1 (next_keeps _ _ _ _ _ _ Hnx))]).
    rewrite dispatch_turn, (loop_turn m fuel (set_q r q) _ _ _ _ _ _ Hhd Hnx), (shown_visit r q v.(v_route) Hs), <- Hv. apply turn_rel.
    + intros pr' rv' u'. eapply IH; try done; [lia|cbn in Hm; lia].
    + intros u' e He. by eexists.
Qed.

(** ** From the first route on *)

Lemma root_process_spec r root x sm u : w.(w_roots) !! r.(r_q).(q_ctx) = Some (Some root) -> heap !! root = Some x -> shown r = at_visit r (mkVisit root 0 0 sm) ->
  root_process handler by_code w r u = Some (serve_root r root sm u).
Proof.
  intros Hr Hx Hs. unfold root_process, serve_root, call_route, handler_of. rewrite Hr. cbn [mbind option_bind]. rewrite Hx. cbn [mbind option_bind]. rewrite Hs. destruct (b_handler (rt_base x)) as [hd|]; [|done].
  destruct (handler hd root _ u) as [u1 rv1]. destruct (Z.ltb_spec 1 rv1).
  - rewrite (proj2 (Z.eqb_neq rv1 0)) by lia. destruct (by_code u1 rv1) as [u2 ok]. by rewrite (proj2 (Z.eqb_neq rv1 0)) by lia.
  - by destruct (rv1 =? 0).
Qed.

Lemma at_visit_again r q v : same_req r.(r_q) q -> at_visit (set_q r q) v = at_visit r v.
Proof. intros (H1 & H2 & H3 & H4). unfold at_visit, set_q. cbn [r_q]. by rewrite H1, H2, H3, H4. Qed.

Lemma serve_root_again r q root sm u : same_req r.(r_q) q -> serve_root (set_q r q) root sm u = serve_root r root sm u.
Proof. intros Hs. unfold serve_root. by rewrite at_visit_again. Qed.

(** The iterator at the route it was left at by the first call of [_route_iter_next]. *)
Lemma current_spec q l root : w.(w_roots) !! q.(q_ctx) = Some (Some root) -> on_top q l -> l <> root -> _route_iter_current w q = Some (Some l).
Proof.
  intros Hr [Hst (m & Hm & Hm0)] Hne. unfold _route_iter_current. rewrite Hr. destruct (Z.ltb_spec 0 (it_cnt (q_it q))) as [Hc|Hc].
  - cbn [mbind option_bind]. rewrite Hst. cbn [mbind option_bind]. rewrite Hm. cbn [mbind option_bind]. rewrite bool_decide_true by eauto. rewrite bool_decide_false by congruence. by rewrite (proj2 (Z.eqb_neq m 0)).
  - unfold aget in Hst. by rewrite (proj2 (Z.ltb_lt _ 0)) in Hst by lia.
Qed.

Lemma current_none q : q.(q_it).(it_cnt) <= 0 -> _route_iter_current w q = Some None.
Proof. intros Hc. unfold _route_iter_current. by rewrite (proj2 (Z.ltb_ge 0 _)) by lia. Qed.

(** The request after the last route. *)
Definition at_end (sm : list submatch) (q : request) : Prop :=
  q.(q_it).(it_cnt) <= 0 /\ q.(q_path_matched) = 0 /\ q.(q_path_unmatched) = 0 /\ q.(q_submatches) = sm.

Lemma shown_end r q root sm : at_end sm q -> same_req r.(r_q) q -> shown (set_q r q) = at_visit (set_q r q) (mkVisit root 0 0 sm).
Proof. intros (_ & H1 & H2 & H3) Hs. rewrite at_visit_again by done. by rewrite (shown_visit r q root Hs), H1, H2, H3. Qed.

Lemma answer_none m fuel r root x sm u : at_end sm r.(r_q) -> w.(w_roots) !! r.(r_q).(q_ctx) = Some (Some root) -> heap !! root = Some x ->
  exists r', routes_answer re_match handler by_code m fuel w r u = Some (r', (serve r [] root sm u).1, (serve r [] root sm u).2).
Proof.
  intros Hend Hr Hx. unfold routes_answer. rewrite current_none by apply Hend. cbn [mbind option_bind].
  assert (routes_loop re_match handler by_code m fuel w r None None 0 u = Some (r, u, Left 0 true)) as -> by (by destruct m). cbn [mbind option_bind andb Z.eqb].
  rewrite (root_process_spec r root x sm) by (done || by apply (shown_end r r.(r_q))). unfold serve. cbn [dispatch andb Z.eqb]. destruct (serve_root r root sm u). by eexists.
Qed.

Lemma answer_some m fuel n r vs v q q' root x sm u :
  turns re_match heap n q vs q' -> at_end sm q' -> (n <= fuel)%nat -> (length vs < m)%nat -> same_req r.(r_q) q ->
  v = mkVisit v.(v_route) q.(q_path_matched) q.(q_path_unmatched) q.(q_submatches) -> Forall (fun v => is_Some (handler_of v.(v_route))) (v :: vs) ->
  on_top q v.(v_route) -> v.(v_route) <> root -> w.(w_roots) !! r.(r_q).(q_ctx) = Some (Some root) -> heap !! root = Some x ->
  exists r', routes_answer re_match handler by_code m fuel w (set_q r q) u = Some (r', (serve r (v :: vs) root sm u).1, (serve r (v :: vs) root sm u).2).
Proof.
  intros T Hend Hn Hm Hs Hv Hh Htop Hne Hroot Hx. unfold routes_answer. rewrite (current_spec _ v.(v_route) root) by (done || (cbn [set_q r_q]; by rewrite (proj1 Hs))). cbn [mbind option_bind].
  destruct (routes_loop_spec fuel r vs n m q q' v None 0 u T ltac:(apply Hend) Hn Hm Hs Hv Hh) as (r' & -> & Hr'). cbn [mbind option_bind]. unfold serve.
  destruct (dispatch r (v :: vs) None 0 u) as [u1 [|rv ok]]; cbn [fst snd] in Hr' |- *; [by eexists|]. destruct (ok && (rv =? 0)) eqn:E; [|by eexists].
  apply andb_true_iff in E as [-> ->%Z.eqb_eq]. destruct (Hr' eq_refl) as [-> Hs']. rewrite (root_process_spec _ root x sm); [|cbn [set_q r_q]; by rewrite (proj1 Hs')|done|by apply shown_end].
  cbn [mbind option_bind]. rewrite serve_root_again by done. destruct (serve_root r root sm u1). by eexists.
Qed.
End Dispatch.

(** ** The visits of a forest *)

Lemma visits_in {re} (h : gmap rloc (@route re)) mf hh d par p ts : sibs h d par p ts ->
  forall base sm v, v ∈ (dfs_all mf hh base sm ts).1 -> hh v.(v_route) = true /\ v.(v_route) ∈ ts ≫= locs.
Proof.
  induction 1 as [d par|d par l r kids ts Hl Hpar Hd Hk IHk Hs IHs]; intros base sm v; cbn [dfs_all]; [by intros ?%elem_of_nil|]. rewrite bind_cons. cbn [locs].
  rewrite dfs_node. destruct (mf l base) as [m subs]. destruct (m =? 0).
  - specialize (IHs base (sm ++ subs) v). destruct (dfs_all mf hh base (sm ++ subs) ts) as [v2 sm2]. cbn [fst app] in *. intros Hv. destruct (IHs Hv). split; [done|set_solver].
  - specialize (IHk (base + pos_part m) (sm ++ subs) v). destruct (dfs_all mf hh (base + pos_part m) (sm ++ subs) kids) as [v1 sm1]. specialize (IHs base sm1 v).
    destruct (dfs_all mf hh base sm1 ts) as [v2 sm2]. cbn [fst] in *. rewrite !elem_of_app. intros [[Hv|Hv]|Hv].
    + unfold visits_of in Hv. destruct (hh l) eqn:Eh; [|by apply elem_of_nil in Hv]. apply list_elem_of_singleton in Hv as ->. cbn [v_route]. split; [done|set_solver].
    + destruct (IHk Hv). split; [done|set_solver].
    + destruct (IHs Hv). split; [done|set_solver].
Qed.

Lemma visits_count {re} (h : gmap rloc (@route re)) mf hh d par p ts : sibs h d par p ts ->
  forall base sm, (length (dfs_all mf hh base sm ts).1 <= sum_list_with tsize ts)%nat.
Proof.
  induction 1 as [d par|d par l r kids ts Hl Hpar Hd Hk IHk Hs IHs]; intros base sm; cbn [dfs_all sum_list_with tsize]; [done|]. rewrite dfs_node. destruct (mf l base) as [m subs]. destruct (m =? 0).
  - specialize (IHs base (sm ++ subs)). destruct (dfs_all mf hh base (sm ++ subs) ts). cbn [fst app] in *. lia.
  - specialize (IHk (base + pos_part m) (sm ++ subs)). destruct (dfs_all mf hh (base + pos_part m) (sm ++ subs) kids) as [v1 sm1]. specialize (IHs base sm1).
    destruct (dfs_all mf hh base sm1 ts) as [v2 sm2]. cbn [fst] in *. rewrite !length_app. unfold visits_of. destruct (hh l); cbn [length]; lia.
Qed.

(** ** The path of a request *)

Lemma decode_keeps fuel : forall buf rp wp buf', decode_loop fuel buf rp wp = Some buf' -> length buf' = length buf /\ 0 ∈ buf'.
Proof.
  assert (forall buf i v buf', wr buf i v = Some buf' -> length buf' = length buf /\ v ∈ buf') as Hwr.
  { intros buf i v buf'. unfold wr. destruct (_ || _) eqn:E; [done|]. intros [= <-]. apply orb_false_iff in E as [?%Z.ltb_ge ?%Z.leb_gt]. rewrite length_insert. split; [done|].
    apply (list_elem_of_lookup_2 _ (Z.to_nat i)), list_lookup_insert_eq. unfold zlen in *. lia. }
  induction fuel as [|fuel IH]; intros buf rp wp buf'; cbn [decode_loop]; (destruct (rd buf rp) as [c|]; [|done]); cbn [mbind option_bind]; (destruct (c =? 0); [by apply Hwr|]); [done|].
  destruct (decode_step buf rp) as [[b rp']|]; [|done]. cbn [mbind option_bind]. destruct (wr buf wp b) as [buf1|] eqn:E; [|done]. cbn [mbind option_bind]. apply Hwr in E as [El _]. intros [Hl ?]%IH. split; [congruence|done].
Qed.

Lemma split_zero (b : list Z) : 0 ∈ b -> exists p k, b = p ++ 0 :: k /\ Forall (fun c => c <> 0) p.
Proof.
  induction b as [|c b IH]; [by intros ?%elem_of_nil|]. destruct (decide (c = 0)) as [->|Hc]; [by exists [], b|]. intros [?|Hb]%elem_of_cons; [congruence|]. destruct (IH Hb) as (p & k & -> & Hp). exists (c :: p), k. split; [done|by constructor].
Qed.

Lemma path_end_range l : 0 <= path_end l <= zlen l.
Proof. induction l as [|c l IH]; [done|]. cbn [path_end]. rewrite zlen_cons. destruct (c =? 63); lia. Qed.

Lemma target_path val pbuf i qb qs : _request_target_parse val = Some (inl (pbuf, i, qb, qs)) ->
  exists p k, pbuf = p ++ 0 :: k /\ Forall (fun c => c <> 0) p /\ zlen p <= i <= zlen val.
Proof.
  unfold _request_target_parse. destruct (zlen val =? 0); [done|]. pose proof (path_end_range val) as Hi. set (e := path_end val) in *.
  destruct (iwn_url_decode_inplace _) as [b|] eqn:Ed; [|done]. cbn [mbind option_bind]. intros E.
  assert (b = pbuf /\ e = i) as [<- <-].
  { destruct (_ <? _); [|by injection E as -> ->]. destruct (_request_parse_query_inplace _ _ _ _) as [[q ps]|]; [|done]. by injection E as -> ->. }
  apply decode_keeps in Ed as [Hl H0]. destruct (split_zero b H0) as (p & k & -> & Hp). exists p, k. split; [done|]. split; [done|]. rewrite !length_app, length_take in Hl. cbn [length] in Hl. unfold zlen in *. lia.
Qed.

(** ** Requests *)

Section Handled.
Context {re : Type} (re_create : list Z -> option re) (re_match : re -> list Z -> list (Z * Z)).
Context {W : Type} (handler : Z -> rloc -> wreq -> W -> W * Z) (by_code : W -> Z -> W * bool).
Context (Hre : re_ok re_match) (w : @wfs re) (F : gmap cid tree) (Hreg : registered re_create w F).
Context (c : cid) (root : rloc) (kids : list tree) (HF : F !! c = Some (Node root kids)).
Context (fuel : nat) (Hfuel : (2 * sum_list_with tsize kids + 3 <= fuel)%nat).

(** The visits of the depth first search for a request, and the submatches at its end. *)
Definition visits_for (flags : Z) (path : list Z) (path_len : Z) : list visit * list submatch :=
  dfs_all (mf re_match flags path path_len w.(w_routes)) (has_handler w.(w_routes)) 0 [] kids.

(** What the answer of the routes is, for a request [_request_create] has made. *)
Lemma created_served h r : zlen h.(h_target) < 2 ^ 31 -> _request_create re_match fuel w c h = Some (inl r) ->
  exists flags path path_len, on_path flags path path_len r.(r_q) /\ r.(r_q).(q_ctx) = c /\
    let '(vs, sm) := visits_for flags path path_len in
    _route_iter_current w r.(r_q) = Some (v_route <$> head vs) /\
    (vs = [] -> at_end sm r.(r_q)) /\
    forall m r1 u, r1.(r_q) = r.(r_q) -> (sum_list_with tsize kids < m)%nat ->
      exists r', routes_answer re_match handler by_code m fuel w r1 u = Some (r', (serve handler by_code w r1 vs root sm u).1, (serve handler by_code w r1 vs root sm u).2).
Proof.
  intros Hlen. unfold _request_create. destruct (_request_target_parse (h_target h)) as [[[[[pbuf path_len] qb] qs]|]|] eqn:Et; cbn [mbind option_bind]; [|done|done].
  destruct (_request_method_parse _) as [[flags0|]|]; cbn [mbind option_bind]; [|done|done]. destruct (_request_headers_parse _ _) as [[[[flags bd] sid]|]|]; cbn [mbind option_bind]; [|done|done].
  set (qi := mkRequest c flags pbuf path_len 0 0 [] _). destruct (target_path _ _ _ _ _ Et) as (path & k & Hp & Hnz & Hl).
  assert (on_path flags path path_len qi) as Hon by (split; [done|by exists k|done|cbn; lia]).
  pose proof (registered_inv _ _ _ Hreg) as Hi. destruct (inv_forest _ _ _ _ _ Hi HF) as [Hroot (x & Hx & Hnx & Hk) Hok].
  destruct (inv_tree _ _ Hi _ _ HF) as (root' & kids' & [= <- <-] & _ & _ & Hnd & _). cbn [locs] in Hnd. apply NoDup_cons in Hnd as [Hnin _].
  destruct (_route_iter_init w qi) as [q0|] eqn:E0; [|done]. cbn [mbind option_bind]. destruct (_route_iter_next re_match fuel _ q0) as [[q1 cur]|] eqn:En; [|done]. cbn [mbind option_bind]. intros [= <-].
  assert (same_req qi q0) as Hs0. { unfold _route_iter_init in E0. destruct (_ !! q_ctx qi); [|done]. cbn [mbind option_bind] in E0. repeat (destruct (aset _ _ _) in E0; [|done]; cbn [mbind option_bind] in E0). by injection E0 as <-. }
  destruct (next_keeps _ _ _ _ _ _ En) as [Hs1 Hcur]. assert (same_req qi q1) as Hs by (by etrans).
  destruct (root_turns re_match flags path path_len w.(w_routes) Hre Hok w qi q0 root x kids E0 eq_refl Hroot Hx Hnx Hk Hon) as (n & vs & q' & T & Hc & Hn & Hv & Hpm & Hpu).
  change (q_submatches qi) with (@nil submatch) in Hv. assert (forall v, v ∈ vs -> has_handler w.(w_routes) v.(v_route) = true /\ v.(v_route) ∈ kids ≫= locs) as Hvs.
  { intros v. replace vs with (dfs_all (mf re_match flags path path_len w.(w_routes)) (has_handler w.(w_routes)) 0 [] kids).1 by (by rewrite <- Hv). by eapply visits_in. }
  assert (length vs <= sum_list_with tsize kids)%nat as Hcount.
  { replace vs with (dfs_all (mf re_match flags path path_len w.(w_routes)) (has_handler w.(w_routes)) 0 [] kids).1 by (by rewrite <- Hv). by eapply visits_count. }
  exists flags, path, path_len. cbn [r_q]. split; [destruct Hs as (_ & Ef & Ep & El); destruct Hon as [A [k' B] C [D E']]; split; [congruence|exists k'; congruence|done|split; [congruence|done]]|]. split; [by rewrite (proj1 Hs)|]. unfold visits_for. rewrite <- Hv.
  pose proof (next_of_turns _ _ _ _ _ _ T ltac:(lia) fuel ltac:(lia)) as Hg. destruct vs as [|v vs]; cbn [next_gives] in Hg.
  - rewrite En in Hg. injection Hg as -> ->. assert (at_end q'.(q_submatches) q') as Hend by (split; [lia|done]). split; [apply current_none; lia|]. split; [done|]. intros m r1 u E1 Hm.
    eapply answer_none; [by rewrite E1|rewrite E1, (proj1 Hs); exact Hroot|done].
  - destruct Hg as (q2 & n1 & E2 & Hv2 & T1 & Hn1). rewrite En in E2. injection E2 as <- ->. assert (v.(v_route) <> root) as Hne. { intros E. destruct (Hvs v) as [_ Hin]; [by left|]. by rewrite E in Hin. }
    split; [apply (current_spec w q1 _ root); [by rewrite (proj1 Hs)|done|done]|]. split; [done|]. intros m r1 u E1 Hm.
    destruct (answer_some re_match handler by_code w m fuel n1 r1 vs v q1 q' root x q'.(q_submatches) u T1) as (r' & E); try done.
    + split; [lia|done]. + lia. + cbn [length] in Hcount. lia. + by rewrite E1.
    + apply Forall_forall. intros y [Hy _]%Hvs. unfold has_handler in Hy. unfold handler_of. destruct (w_routes w !! v_route y); [|done]. cbn [mbind option_bind]. by apply bool_decide_eq_true in Hy.
    + by rewrite E1, (proj1 Hs).
    + exists r'. rewrite <- E. by destruct r1; cbn in E1; subst.
Qed.

Lemma form_keeps r r1 ok : _request_form_parse r = Some (r1, ok) -> r1.(r_q) = r.(r_q).
Proof.
  unfold _request_form_parse, _request_form_url_encoded_parse, form_multipart_parse. destruct (negb _).
  - destruct (r_body r) as [b|]; [|by intros [= <- <-]]. destruct (_request_parse_query_inplace _ _ _ _) as [[b' l']|]; [|done]. by intros [= <- <-].
  - destruct (negb _); [|by intros [= <- <-]]. destruct (r_body r) as [b|]; [|by intros [= <- <-]]. destruct (_request_form_multipart_parse _ _ _ _ _) as [[[b' l'] e]|]; [|done]. by intros [= <- <-].
Qed.

(** The answer to a request whose form is parsed. *)
Definition served (x : wreq * bool) (vs : list visit) (sm : list submatch) (u : W) : W * bool :=
  if x.2 then serve handler by_code w x.1 vs root sm u else (u, false).

Lemma process_served h r flags path path_len m r0 x u : zlen h.(h_target) < 2 ^ 31 -> _request_create re_match fuel w c h = Some (inl r) ->
  on_path flags path path_len r.(r_q) -> (sum_list_with tsize kids < m)%nat -> r0.(r_q) = r.(r_q) -> _request_form_parse r0 = Some x ->
  let '(vs, sm) := visits_for flags path path_len in
  exists r', _request_routes_process re_match handler by_code m fuel w r0 u = Some (r', (served x vs sm u).1, (served x vs sm u).2).
Proof.
  intros Hlen Hc Hon Hm E0 Ex. destruct (created_served h r Hlen Hc) as (flags' & path' & path_len' & Hon' & _ & Hs).
  assert (flags' = flags /\ path' = path /\ path_len' = path_len) as (-> & -> & ->).
  { destruct Hon as [A [k B] C [D _]], Hon' as [A' [k' B'] C' [D' _]]. split; [congruence|]. split; [|congruence]. rewrite B in B'. apply (f_equal cstr) in B'. by rewrite !cstr_app_0 in B'. }
  destruct (visits_for flags path path_len) as [vs sm]. destruct Hs as (_ & _ & Hs). unfold _request_routes_process. rewrite Ex. destruct x as [r1 ok]. cbn [mbind option_bind]. unfold served. cbn [fst snd].
  destruct ok; [|by eexists]. apply Hs; [|done]. rewrite (form_keeps _ _ _ Ex). done.
Qed.

(** [req->base.flags &= ~IWN_WF_FORM_ALL] *)
Definition no_form (r : wreq) : wreq := set_q r {| r.(r_q) with q_flags := Z.land r.(r_q).(q_flags) (Z.lnot IWN_WF_FORM_ALL) |}.

Lemma no_form_parse r : _request_form_parse (no_form r) = Some (no_form r, true).
Proof.
  unfold _request_form_parse, no_form. cbn [set_q r_q q_flags]. rewrite <- !Z.land_assoc. change (Z.land (Z.lnot IWN_WF_FORM_ALL) IWN_WF_FORM_URL_ENCODED) with 0.
  change (Z.land (Z.lnot IWN_WF_FORM_ALL) IWN_WF_FORM_MULTIPART) with 0. by rewrite !Z.land_0_r.
Qed.
End Handled.

(** The whole of [_request_handler], with handlers that ask to skip routes: the calls and the answer are those of [serve] along the
    visits. *)
Lemma request_served {re} (re_create : list Z -> option re) (re_match : re -> list Z -> list (Z * Z))
    {W} (handler : Z -> rloc -> wreq -> W -> W * Z) (by_code : W -> Z -> W * bool) w F c root kids h r max n fuel u :
  re_ok re_match -> registered re_create w F -> F !! c = Some (Node root kids) ->
  (2 * sum_list_with tsize kids + 3 <= fuel)%nat -> (sum_list_with tsize kids < n)%nat ->
  zlen h.(h_target) < 2 ^ 31 -> _request_create re_match fuel w c h = Some (inl r) ->
  exists flags path path_len, on_path flags path path_len r.(r_q) /\
    let '(vs, sm) := visits_for re_match w kids flags path path_len in
    let res := _request_handler re_match handler by_code n fuel w c max None h u in
    match vs with
    | [] => exists r', res = Some (Done r' (serve handler by_code w (no_form r) [] root sm u).1 (serve handler by_code w (no_form r) [] root sm u).2)
    | _ :: _ =>
        if h.(h_streamed) then res = Some (if max <? 0 then Limited else Streaming r)
        else forall x, _request_form_parse (with_body r h.(h_body)) = Some x ->
             exists r', res = Some (Done r' (served handler by_code w root x vs sm u).1 (served handler by_code w root x vs sm u).2)
    end.
Proof.
  intros Hre Hreg HF Hf Hn Hlen Hc. destruct (created_served re_create re_match handler by_code Hre w F Hreg c root kids HF fuel Hf h r Hlen Hc) as (flags & path & path_len & Hon & Hctx & Hs).
  exists flags, path, path_len. split; [done|].
  assert (forall r0 x, r0.(r_q) = r.(r_q) -> _request_form_parse r0 = Some x -> let '(vs, sm) := visits_for re_match w kids flags path path_len in
    exists r', _request_routes_process re_match handler by_code n fuel w r0 u = Some (r', (served handler by_code w root x vs sm u).1, (served handler by_code w root x vs sm u).2)) as Hproc.
  { intros r0 x E0 Ex. eapply (process_served re_create re_match handler by_code Hre w F Hreg c root kids HF fuel Hf h r); done. }
  destruct (visits_for re_match w kids flags path path_len) as [vs sm]. destruct Hs as (Hcur & Hend & _). cbv zeta. unfold _request_handler. rewrite Hc. cbn [mbind option_bind]. rewrite Hcur. cbn [mbind option_bind].
  destruct vs as [|v vs]; cbn [head fmap option_fmap option_map].
  - change (set_q r _) with (no_form r). unfold _request_routes_process. rewrite no_form_parse. cbn [mbind option_bind].
    pose proof (registered_inv _ _ _ Hreg) as Hi. destruct (inv_forest _ _ _ _ _ Hi HF) as [Hroot (x & Hx & _) _].
    destruct (answer_none re_match handler by_code w n fuel (no_form r) root x sm u) as (r' & E); [exact (Hend eq_refl)|cbn; by rewrite Hctx|done|]. rewrite E. by eexists.
  - destruct (h_streamed h); [by destruct (max <? 0)|]. intros x Ex. unfold _request_process. destruct (Hproc (with_body r h.(h_body)) x eq_refl Ex) as (r' & ->). by eexists.
Qed.

(** *** Without skipped routes

    Handlers that never answer with [IWN_WF_RES_SKIP_CHILD_ROUTES] are asked one after the other.  What the code does with that answer is
    shown by [skip_reaches_grandchildren] and [skip_without_response]. *)

Section Answer.
Context {re : Type} {W : Type} (handler : Z -> rloc -> wreq -> W -> W * Z) (by_code : W -> Z -> W * bool) (w : @wfs re).

(** The first answer that is not [IWN_WF_RES_NOT_PROCESSED]. *)
Fixpoint first_answer (r : wreq) (vs : list visit) (u : W) : W * option Z :=
  match vs with
  | [] => (u, None)
  | v :: vs =>
      let '(u, rv) := call_route handler w v.(v_route) (at_visit r v) u in
      if rv =? IWN_WF_RES_NOT_PROCESSED then first_answer r vs u else (u, Some rv)
  end.

(** The visited routes and then the root route are asked.  An answer above 1 is the status code of a response, 1 means that the handler
    has responded, a negative one closes the connection; 404 without an answer. *)
Definition answer (r : wreq) (vs : list visit) (root : rloc) (sm : list submatch) (u : W) : W * bool :=
  match first_answer r (vs ++ [mkVisit root 0 0 sm]) u with
  | (u, None) => by_code u 404
  | (u, Some rv) => if 1 <? rv then by_code u rv else (u, 0 <? rv)
  end.

Hypothesis no_skip : forall hd l r u, (handler hd l r u).2 <> IWN_WF_RES_SKIP_CHILD_ROUTES.

Lemma call_no_skip l r u : (call_route handler w l r u).2 <> IWN_WF_RES_SKIP_CHILD_ROUTES.
Proof. unfold call_route. destruct (handler_of w l); [apply no_skip|done]. Qed.

Lemma serve_answer r vs root sm u : serve handler by_code w r vs root sm u = answer r vs root sm u.
Proof.
  unfold serve, answer. induction vs as [|v vs IH] in u |- *; cbn [dispatch first_answer app bool_decide andb].
  - unfold serve_root. cbn [v_route]. destruct (call_route handler w root _ u) as [u1 rv] eqn:E. unfold IWN_WF_RES_NOT_PROCESSED.
    cbn. destruct (Z.eqb_spec rv 0); [done|]. destruct (Z.ltb_spec 1 rv); [done|]. destruct (Z.ltb_spec rv 0), (Z.ltb_spec 0 rv); try lia; done.
  - pose proof (call_no_skip v.(v_route) (at_visit r v) u) as Hns. destruct (call_route handler w (v_route v) (at_visit r v) u) as [u1 rv]. cbn [snd] in Hns.
    unfold IWN_WF_RES_NOT_PROCESSED, IWN_WF_RES_PROCESSED. rewrite (proj2 (Z.eqb_neq rv IWN_WF_RES_SKIP_CHILD_ROUTES)) by done.
    destruct (Z.eqb_spec rv 0) as [->|H0]; [exact (IH u1)|]. cbn. destruct (Z.ltb_spec 1 rv).
    { destruct (by_code u1 rv) as [u2 ok]. rewrite (proj2 (Z.eqb_neq rv 0)) by done. by rewrite andb_false_r. }
    destruct (Z.eqb_spec rv 1) as [->|]; [done|]. by destruct (Z.ltb_spec rv 0), (Z.ltb_spec 0 rv); try lia.
Qed.

(** The same for a request whose form is parsed. *)
Definition answered (root : rloc) (x : wreq * bool) (vs : list visit) (sm : list submatch) (u : W) : W * bool :=
  if x.2 then answer x.1 vs root sm u else (u, false).
Lemma served_answered root x vs sm u : served handler by_code w root x vs sm u = answered root x vs sm u.
Proof. unfold served, answered. by rewrite serve_answer. Qed.
End Answer.

(** C9. What [_request_handler] does with a new request, whatever its method, target and headers, when the handlers of the application
    answer as documented but never ask to skip child routes: when the request could be made, then the handlers of the routes the depth
    first search [visits_for] finds over the registered tree and then the handler of the root route are called in that order, each
    with the path matched so far, the rest of it and the submatches, until the first answer that is not 0.  An answer above 1 is sent
    as the status code of the response, 1 is taken as a response the handler has sent, a negative one closes the connection, and a
    request nobody answers gets 404.  Without a matching route the body is not parsed; a form that cannot be parsed closes the
    connection; a streamed body is asked for, or refused when it is not allowed. *)
Theorem request_dispatched {re} (re_create : list Z -> option re) (re_match : re -> list Z -> list (Z * Z))
    {W} (handler : Z -> rloc -> wreq -> W -> W * Z) (by_code : W -> Z -> W * bool) w F c root kids h r max n fuel u :
  (forall hd l r u, (handler hd l r u).2 <> IWN_WF_RES_SKIP_CHILD_ROUTES) ->
  re_ok re_match -> registered re_create w F -> F !! c = Some (Node root kids) ->
  (2 * sum_list_with tsize kids + 3 <= fuel)%nat -> (sum_list_with tsize kids < n)%nat ->
  zlen h.(h_target) < 2 ^ 31 -> _request_create re_match fuel w c h = Some (inl r) ->
  exists flags path path_len, on_path flags path path_len r.(r_q) /\
    let '(vs, sm) := visits_for re_match w kids flags path path_len in
    let res := _request_handler re_match handler by_code n fuel w c max None h u in
    match vs with
    | [] => exists r', res = Some (Done r' (answer handler by_code w (no_form r) [] root sm u).1 (answer handler by_code w (no_form r) [] root sm u).2)
    | _ :: _ =>
        if h.(h_streamed) then res = Some (if max <? 0 then Limited else Streaming r)
        else forall x, _request_form_parse (with_body r h.(h_body)) = Some x ->
             exists r', res = Some (Done r' (answered handler by_code w root x vs sm u).1 (answered handler by_code w root x vs sm u).2)
    end.
Proof.
  intros Hns Hre Hreg HF Hf Hn Hlen Hc.
  destruct (request_served re_create re_match handler by_code w F c root kids h r max n fuel u Hre Hreg HF Hf Hn Hlen Hc) as (flags & path & path_len & Hon & Hs).
  exists flags, path, path_len. split; [done|]. destruct (visits_for re_match w kids flags path path_len) as [vs sm]. cbv zeta in *.
  destruct vs as [|v vs]; [by rewrite <- serve_answer|]. destruct (h_streamed h); [done|]. intros x Hx. rewrite <- served_answered by done. by apply Hs.
Qed.

(** ** Streamed bodies *)

Section Stream.
Context {re : Type} (re_match : re -> list Z -> list (Z * Z)) {W : Type} (handler : Z -> rloc -> wreq -> W -> W * Z) (by_code : W -> Z -> W * bool).
Context (n fuel : nat) (w : @wfs re) (max : Z) (Hmax : 0 <= max < 2 ^ 31).

Abbreviation chunk_process := (_request_stream_chunk_process re_match handler by_code n fuel w max).

(** The HTTP session calls back for every chunk as long as it is asked for the next one. *)
Fixpoint stream_feed (r : wreq) (cs : list (io * list Z)) (u : W) : option (wreq * W * bool) :=
  match cs with
  | [] => None
  | (o, c) :: cs => '(r, u, again, ok) ← chunk_process o r c u; if (again : bool) then stream_feed r cs u else Some (r, u, ok)
  end.

Definition io_ok : io := mkIo true true true.

(** The request while its body comes in. *)
Definition stored (r : wreq) (body : list Z) : wreq := {| r with r_file := match body with [] => r.(r_file) | _ => Some body end; r_streamed := zlen body |}.

Lemma chunk_stored r body c u : r.(r_file) = None -> c <> [] -> zlen (body ++ c) <= max -> chunk_process io_ok (stored r body) c u = Some (stored r (body ++ c), u, true, true).
Proof.
  intros Hf Hc Hlen. pose proof (zlen_nonneg body). rewrite zlen_app in Hlen. assert (0 < zlen c) by (destruct c; [done|rewrite zlen_cons; pose proof (zlen_nonneg c); lia]).
  unfold _request_stream_chunk_process. rewrite (proj2 (Z.ltb_lt 0 _)) by lia. cbn [stored r_streamed r_file]. rewrite !uwrap_id by lia. rewrite (proj2 (Z.ltb_ge max _)) by lia.
  destruct body as [|b body]; [rewrite Hf|]; cbn [io_open io_write io_ok]; unfold stored; rewrite zlen_app; destruct c as [|c0 c]; done.
Qed.

Lemma chunk_too_large r body c u o : 0 < zlen c -> zlen c < 2 ^ 31 -> zlen body <= max -> max < zlen (body ++ c) ->
  exists r', chunk_process o (stored r body) c u = Some (r', u, false, false) /\ r'.(r_file) = None.
Proof.
  intros Hc Hc2 Hb Hlen. pose proof (zlen_nonneg body). rewrite zlen_app in Hlen. unfold _request_stream_chunk_process. rewrite (proj2 (Z.ltb_lt 0 _)) by lia. cbn [stored r_streamed r_file].
  rewrite !uwrap_id by lia. rewrite (proj2 (Z.ltb_lt max _)) by lia. by eexists.
Qed.

Lemma feed_stored r cs : forall body rest u, r.(r_file) = None -> Forall (fun c => c <> []) cs -> zlen (body ++ concat cs) <= max ->
  stream_feed (stored r body) (((fun c => (io_ok, c)) <$> cs) ++ rest) u = stream_feed (stored r (body ++ concat cs)) rest u.
Proof.
  induction cs as [|c cs IH]; intros body rest u Hf Hcs Hlen; cbn [concat fmap list_fmap app]; [by rewrite app_nil_r|]. apply Forall_cons in Hcs as [Hc Hcs]. cbn [concat] in Hlen. rewrite app_assoc in Hlen.
  cbn [stream_feed]. rewrite chunk_stored; [|done|done|rewrite zlen_app in Hlen; pose proof (zlen_nonneg (concat cs)); lia]. cbn [mbind option_bind]. fold (((fun c => (io_ok, c)) <$> cs)). rewrite IH by done. by rewrite app_assoc.
Qed.

(** The request with its whole body, and a zero behind it. *)
Definition body_complete (r : wreq) (body : list Z) : wreq :=
  {| r with r_file := Some (body ++ [0]); r_streamed := zlen body; r_body := Some (body ++ [0]); r_body_len := zlen body |}.

Lemma feed_end r body u : r.(r_file) = None -> body <> [] ->
  stream_feed (stored r body) [(io_ok, [])] u = _request_routes_process re_match handler by_code n fuel w (body_complete r body) u.
Proof.
  intros Hf Hb. cbn [stream_feed]. unfold _request_stream_chunk_process. change (zlen (@nil Z)) with 0. cbn [Z.ltb Z.compare stored r_streamed r_file].
  assert (0 < zlen body) as Hp by (destruct body; [done|rewrite zlen_cons; pose proof (zlen_nonneg body); lia]). rewrite (proj2 (Z.ltb_lt 0 _) Hp). destruct body as [|b body]; [done|]. cbn [mbind option_bind io_ok io_write io_map andb].
  match goal with |- context [_request_routes_process _ _ _ _ _ _ ?x u ≫= _] => change x with (body_complete r (b :: body)) end.
  destruct (_request_routes_process _ _ _ _ _ _ (body_complete r (b :: body)) u) as [[[r' u'] ok]|]; done.
Qed.
End Stream.

(** C28. A streamed body: for a request made from an HTTP request, whatever the chunks the body is cut into, as long as
    they fit into [request_file_max_size] the routes are served with exactly the concatenation of the chunks as body, zero
    terminated; and when a chunk goes over the limit the connection is closed, the file is gone and no handler has been
    called. *)
Theorem streamed_body {re} (re_create : list Z -> option re) (re_match : re -> list Z -> list (Z * Z))
    {W} (handler : Z -> rloc -> wreq -> W -> W * Z) (by_code : W -> Z -> W * bool) w F c root kids h r max n fuel u cs flags path path_len :
  re_ok re_match -> registered re_create w F -> F !! c = Some (Node root kids) ->
  (2 * sum_list_with tsize kids + 3 <= fuel)%nat -> (sum_list_with tsize kids < n)%nat ->
  zlen h.(h_target) < 2 ^ 31 -> _request_create re_match fuel w c h = Some (inl r) -> on_path flags path path_len r.(r_q) ->
  0 <= max < 2 ^ 31 -> cs <> [] -> Forall (fun x => x <> []) cs -> zlen (concat cs) <= max ->
  let '(vs, sm) := visits_for re_match w kids flags path path_len in
  (forall x, _request_form_parse (body_complete r (concat cs)) = Some x ->
    exists r', stream_feed re_match handler by_code n fuel w max r (((fun x => (io_ok, x)) <$> cs) ++ [(io_ok, [])]) u =
      Some (r', (served handler by_code w root x vs sm u).1, (served handler by_code w root x vs sm u).2)) /\
  forall big rest, zlen big < 2 ^ 31 -> max < zlen (concat cs ++ big) ->
    exists r', stream_feed re_match handler by_code n fuel w max r (((fun x => (io_ok, x)) <$> cs) ++ (io_ok, big) :: rest) u = Some (r', u, false) /\ r'.(r_file) = None.
Proof.
  intros Hre Hreg HF Hf Hn Hlen Hc Hon Hmax Hcs0 Hcs Htot.
  assert (r.(r_file) = None /\ r = stored r []) as [Hfile Er].
  { unfold _request_create in Hc. destruct (_request_target_parse _) as [[[[[? ?] ?] ?]|]|]; cbn [mbind option_bind] in Hc; [|done|done]. destruct (_request_method_parse _) as [[?|]|]; cbn [mbind option_bind] in Hc; [|done|done].
    destruct (_request_headers_parse _ _) as [[[[? ?] ?]|]|]; cbn [mbind option_bind] in Hc; [|done|done]. destruct (_route_iter_init _ _); [|done]. cbn [mbind option_bind] in Hc.
    destruct (_route_iter_next _ _ _ _) as [[? ?]|]; [|done]. cbn [mbind option_bind] in Hc. by injection Hc as <-. }
  assert (concat cs <> []) as Hne by (destruct cs as [|x cs]; [done|]; apply Forall_cons in Hcs as [Hx _]; cbn; destruct x; done).
  assert (forall x, _request_form_parse (body_complete r (concat cs)) = Some x -> let '(vs, sm) := visits_for re_match w kids flags path path_len in
    exists r', _request_routes_process re_match handler by_code n fuel w (body_complete r (concat cs)) u = Some (r', (served handler by_code w root x vs sm u).1, (served handler by_code w root x vs sm u).2)) as Hproc.
  { intros x Ex. eapply (process_served re_create re_match handler by_code Hre w F Hreg c root kids HF fuel Hf h r); done. }
  destruct (visits_for re_match w kids flags path path_len) as [vs sm]. split.
  - intros x Ex. rewrite Er, feed_stored by done. cbn [app]. rewrite feed_end by done. by apply Hproc.
  - intros big rest Hbig Hover. rewrite Er, feed_stored by done. cbn [app stream_feed]. rewrite zlen_app in Hover.
    destruct (chunk_too_large re_match handler by_code n fuel w max Hmax r (concat cs) big u io_ok) as (r' & E & Hr'); [lia|lia|done|by rewrite zlen_app|]. rewrite E. by eexists.
Qed.

(** ** Examples *)

(** The site of [WfTree]; handlers write their number down, the one of [/a/b] answers with 200. *)
Definition demo_handler (hd : Z) (l : rloc) (r : wreq) (u : list Z) : list Z * Z := (u ++ [hd], if hd =? 2 then 200 else 0).
Definition demo_by_code (u : list Z) (code : Z) : list Z * bool := (u ++ [code], true).
Definition demo_get (target : string) : http_req := mkHttp (bytes_of_string "GET") (bytes_of_string target) None None false [].
Definition blank_req : wreq := mkWreq (mkRequest 1 0 [] 0 0 0 [] (mkIter 0 0 [] [])) [] [] [] None 0 None 0 [] [] 0 None.
Definition made (h : http_req) : wreq := match _request_create lit_match 9 site.1 1 h with Some (inl r) => r | _ => blank_req end.

(** What the handlers have written down, and whether the connection stays open. *)
Definition outcome (x : option (@handled (list Z))) : option (list Z * bool) := match x with Some (Done _ u ok) => Some (u, ok) | _ => None end.

Abbreviation demo_kids := ([Node 11 [Node 12 []]; Node 13 []] : list tree).

Lemma lit_ok : re_ok lit_match.
Proof.
  intros x w s e subs. unfold lit_match. destruct (bool_decide_reflect (x `prefix_of` w)) as [Hp%prefix_length|]; [|done]. intros [= <- <- <-]. pose proof (zlen_nonneg x). unfold zlen in *. lia.
Qed.

Lemma request_dispatched_witness :
  exists flags path path_len, on_path flags path path_len (made (demo_get "/a/b")).(r_q) /\
    let '(vs, sm) := visits_for lit_match site.1 demo_kids flags path path_len in
    let res := _request_handler lit_match demo_handler demo_by_code 4 9 site.1 1 0 None (demo_get "/a/b") [] in
    match vs with
    | [] => exists r', res = Some (Done r' (answer demo_handler demo_by_code site.1 (no_form (made (demo_get "/a/b"))) [] 10 sm []).1 (answer demo_handler demo_by_code site.1 (no_form (made (demo_get "/a/b"))) [] 10 sm []).2)
    | _ :: _ =>
        if (demo_get "/a/b").(h_streamed) then res = Some (if 0 <? 0 then Limited else Streaming (made (demo_get "/a/b")))
        else forall x, _request_form_parse (with_body (made (demo_get "/a/b")) (demo_get "/a/b").(h_body)) = Some x ->
             exists r', res = Some (Done r' (answered demo_handler demo_by_code site.1 10 x vs sm []).1 (answered demo_handler demo_by_code site.1 10 x vs sm []).2)
    end.
Proof.
  apply (request_dispatched lit_create lit_match demo_handler demo_by_code site.1 site.2 1%positive 10%positive demo_kids (demo_get "/a/b") (made (demo_get "/a/b")) 0 4 9 []);
    [intros hd l r u; cbn; by destruct (hd =? 2)|apply lit_ok|apply site_registered|by vm_compute|by cbv|cbv; lia|by vm_compute|by vm_compute].
Defined.

Lemma streamed_body_witness :
  let r := made (demo_get "/a/b") in
  let '(vs, sm) := visits_for lit_match site.1 demo_kids IWN_WF_GET (bytes_of_string "/a/b") 4 in
  (forall x, _request_form_parse (body_complete r (concat [[1; 2]; [3]])) = Some x ->
    exists r', stream_feed lit_match demo_handler demo_by_code 4 9 site.1 100 r (((fun x => (io_ok, x)) <$> [[1; 2]; [3]]) ++ [(io_ok, [])]) [] =
      Some (r', (served demo_handler demo_by_code site.1 10 x vs sm []).1, (served demo_handler demo_by_code site.1 10 x vs sm []).2)) /\
  forall big rest, zlen big < 2 ^ 31 -> 100 < zlen (concat [[1; 2]; [3]] ++ big) ->
    exists r', stream_feed lit_match demo_handler demo_by_code 4 9 site.1 100 r (((fun x => (io_ok, x)) <$> [[1; 2]; [3]]) ++ (io_ok, big) :: rest) [] = Some (r', [], false) /\ r'.(r_file) = None.
Proof.
  refine (streamed_body lit_create lit_match demo_handler demo_by_code site.1 site.2 1%positive 10%positive demo_kids (demo_get "/a/b") (made (demo_get "/a/b")) 100 4 9 [] [[1; 2]; [3]] IWN_WF_GET (bytes_of_string "/a/b") 4 _ _ _ _ _ _ _ _ _ _ _ _);
    [apply lit_ok|apply site_registered|by vm_compute|by cbv|cbv; lia|by vm_compute|by vm_compute| |lia|done|repeat constructor; done|by vm_compute].
  split; [by vm_compute|by exists []|by apply (bool_decide_eq_true_1 (Forall _ _))|by vm_compute].
Defined.

Abbreviation demo_run h := (outcome (_request_handler lit_match demo_handler demo_by_code 4 9 site.1 1 0 None h [])).

Example demo_dispatch : demo_run (demo_get "/a/b?x=1") = Some ([1; 2; 200], true).
Proof. by vm_compute. Qed.

(** A path that needs decoding matches a route without [IWN_WF_MATCH_PREFIX] only by accident: its length is taken before the
    decoding.  Here the handler of [/a/b] is not reached. *)
Example encoded_path_not_matched : demo_run (demo_get "/a/%62") = Some ([1; 404], true).
Proof. by vm_compute. Qed.

(** A beginning of [DELETE], [OPTIONS] or [PATCH] is taken for the whole word; a method of three or four letters that is not known is
    no error. *)
Example method_prefix_accepted : _request_method_parse (bytes_of_string "D") = Some (inl IWN_WF_DELETE).
Proof. by vm_compute. Qed.
Example unknown_method_accepted : _request_method_parse (bytes_of_string "LOCK") = Some (inl 0).
Proof. by vm_compute. Qed.

(** Three routes below each other; the first handler asks to skip the routes below. *)
Definition deep_calls : list reg_call :=
  [Create true 1 10 None; Route true 11 (site_spec None "/a" 1); Route true 12 (site_spec (Some 11%positive) "/b" 2); Route true 13 (site_spec (Some 12%positive) "/c" 3)].
Definition deep_site : @wfs (list Z) * gmap cid tree := default (mkWfs ∅ ∅, ∅) (run_calls (mkWfs ∅ ∅) ∅ deep_calls).
Definition skip_handler (hd : Z) (l : rloc) (r : wreq) (u : list Z) : list Z * Z := (u ++ [hd], if hd =? 1 then IWN_WF_RES_SKIP_CHILD_ROUTES else 0).

(** The handler of [/a/b/c] is called although the one of [/a] has asked to skip its children. *)
Example skip_reaches_grandchildren :
  outcome (_request_handler lit_match skip_handler demo_by_code 4 9 deep_site.1 1 0 None (demo_get "/a/b/c") []) = Some ([1; 3; 404], true).
Proof. by vm_compute. Qed.

(** When the last answer is to skip the children, there is no response at all. *)
Example skip_without_response :
  outcome (_request_handler lit_match skip_handler demo_by_code 4 9 deep_site.1 1 0 None (demo_get "/a") []) = Some ([1], true).
Proof. by vm_compute. Qed.

(** [iwn_wf_request_submatch_last] follows a null pointer when the request has no submatches. *)
Example submatch_last_null : iwn_wf_request_submatch_last 11 [] = None.
Proof. reflexivity. Qed.
