(* ===== verification/WfCookie.v ===== *)
(** * WfCookie: the session cookie, and what a request says

    A client sends back the pair [name="value"] of a cookie it was given.  The parser of header
    values finds the session id among other cookies; and a request in text form is turned into the
    path, the flags, the query and the session it was written from. *)
From S2P Require Import Prelude Codec WfRoute HttpParser WfHeader WfHeaderSafe WfMultipart WfQuery WfIter WfTree WfRequest WfSession WfDispatch.

(** ** A header of cookies *)

(** A cookie, and whether its value is quoted. *)
Definition cookie : Type := (list Z * list Z) * bool.
Definition cookie_pair (c : list Z * list Z) : list Z := c.1 ++ [61; 34] ++ esc c.2 ++ [34].
Definition cookie_written (c : cookie) : list Z := if c.2 then cookie_pair c.1 else c.1.1 ++ 61 :: c.1.2.
Definition more_cookies (cs : list cookie) : list Z := cs ≫= (fun c => 59 :: 32 :: cookie_written c).
Definition cookie_header (cs : list cookie) : list Z :=
  match cs with [] => [] | c :: cs => cookie_written c ++ more_cookies cs end.

Abbreviation sid_key := (bytes_of_string IWN_WF_SESSION_COOKIE_KEY).

(** A name of token characters; a quoted value of any characters but NUL, backslash, CR and LF, or a plain one of token characters. *)
Definition val_char (c : Z) : bool := key_char c || (c =? 44).
Definition cookie_ok (c : cookie) : Prop :=
  c.1.1 <> [] /\ Forall (fun x => key_char x = true) c.1.1 /\ if c.2 then Forall quotable c.1.2 else Forall (fun x => val_char x = true) c.1.2.

Lemma more_cons c cs : more_cookies (c :: cs) = 59 :: 32 :: cookie_written c ++ more_cookies cs.
Proof. unfold more_cookies. by csimpl. Qed.

(** ** Plain values *)

Lemma val_char_turn c : val_char c = true -> c <> 34 /\ (c =? 59) = false /\ _c_is_space c = false /\ _c_is_lsep c = false /\ _c_is_token c true = true.
Proof.
  unfold val_char, key_char. rewrite orb_true_iff. intros [[Ht Hn%negb_true_iff%Z.eqb_neq]%andb_true_iff|Hc%Z.eqb_eq]; [|by subst].
  destruct (token_plain c Ht) as [(_ & Hsp & H59 & Hls)|?]; [|done]. split; [by intros ->|]. split; [done|]. split; [done|]. split; [done|].
  unfold _c_is_token in *. rewrite Hsp. cbn [orb andb] in *. by destruct (c =? 44).
Qed.

Lemma cookie_run_value hv w : forall l r ep fuel eq es ks ke vs ve, Forall (fun c => val_char c = true) w -> zlen l + zlen w <= ep ->
  exists ve', param_loop (length w + fuel) hv (l ++ w ++ r) ep (mkPst (zlen l) false false eq es ks ke vs ve) =
  param_loop fuel hv (l ++ w ++ r) ep (mkPst (zlen l + zlen w) false false eq es ks ke vs ve').
Proof.
  induction w as [|c w IH]; intros l r ep fuel eq es ks ke vs ve Hw Hep.
  { exists ve. change (zlen (@nil Z)) with 0. by rewrite Z.add_0_r. }
  apply Forall_cons in Hw as [Hc Hw]. rewrite zlen_cons in Hep. pose proof (zlen_nonneg w). cbn [length Nat.add app].
  destruct (IH (l ++ [c]) r ep fuel eq es ks ke vs (Some (zlen l + 1)) Hw) as (ve' & E); [rewrite zlen_app; change (zlen [c]) with 1; lia|].
  exists ve'. rewrite (loop_go hv l c (w ++ r) ep _ (mkPst (zlen l + 1) false false eq es ks ke vs (Some (zlen l + 1)))); [|done|cbn [s_rp]; lia|].
  - rewrite zlen_app in E. change (zlen [c]) with 1 in E. rewrite <- app_assoc in E. cbn [app] in E. rewrite E, zlen_cons. do 2 f_equal. lia.
  - cbn [s_key]. unfold val_turn. cbn [s_quote s_rp s_vs s_ve s_key s_expect_eq s_escaped s_ks s_ke]. destruct (val_char_turn c Hc) as (H34 & -> & -> & -> & ->).
    by rewrite (proj2 (Z.eqb_neq c 34) H34).
Qed.

Lemma loop_plain hv l key w r ep k : Forall (fun c => key_char c = true) key -> Forall (fun c => val_char c = true) w -> zlen l + zlen key + 1 + zlen w < ep ->
  let v := zlen l + zlen key + 1 in
  param_loop (length key + (1 + (length w + 1)) + k) hv (l ++ key ++ 61 :: w ++ 59 :: r) ep (mkPst (zlen l) false true false false (zlen l) (zlen l) None None) =
  Some (Some (mkPst (v + zlen w + 1) false false false false (zlen l) (zlen l + zlen key) (Some v) (Some (v + zlen w)))).
Proof.
  intros Hkey Hw Hep v. pose proof (zlen_nonneg key). pose proof (zlen_nonneg w). rewrite <- Nat.add_assoc.
  rewrite run_key; [|eapply Forall_impl; [exact Hkey|]; by left|lia|lia].
  assert (zlen l + zlen key = zlen (l ++ key)) as H2 by (by rewrite zlen_app). rewrite H2, (app_assoc l). set (l2 := l ++ key) in *. cbn [Nat.add].
  rewrite (loop_go hv l2 61 _ ep _ (mkPst (zlen l2 + 1) false false false false (zlen l) (zlen l2) (Some (zlen l2 + 1)) None)); [|done|cbn [s_rp]; lia|by destruct hv].
  assert (zlen l2 + 1 = zlen (l2 ++ [61])) as H3 by (by rewrite zlen_app). rewrite H3, (cons_middle 61 l2), (app_assoc l2 [61]). set (l3 := l2 ++ [61]) in *.
  rewrite <- Nat.add_assoc. destruct (cookie_run_value hv w l3 (59 :: r) ep (1 + k) false false (zlen l) (zlen l2) (Some (zlen l3)) None Hw) as (ve' & ->); [lia|].
  assert (v = zlen l3) as Ev by lia. rewrite Ev. assert (zlen l3 + zlen w = zlen (l3 ++ w)) as H5 by (by rewrite zlen_app). rewrite (app_assoc l3), H5. cbn [Nat.add].
  apply loop_break; [done|cbn [s_rp]; lia|done].
Qed.

(** A pair with a plain value and the semicolon behind it, at the start of the header or behind a space. *)
Lemma first_plain hv l key w r ep : key <> [] -> Forall (fun c => key_char c = true) key -> Forall (fun c => val_char c = true) w -> zlen l + zlen key + 1 + zlen w < ep ->
  _header_parse_next_parameter2 hv (l ++ key ++ 61 :: w ++ 59 :: r) (zlen l) ep =
    Some (l ++ key ++ 61 :: w ++ 59 :: r, Some (zlen l + zlen key + 1 + zlen w + 1, mkParam (zlen l) (zlen key) (Some (zlen l + zlen key + 1)) (zlen w))).
Proof.
  intros Hne Hkey Hw Hep. unfold _header_parse_next_parameter2. pose proof (zlen_nonneg key). pose proof (zlen_nonneg w). rewrite (proj2 (Z.leb_gt _ _)) by lia.
  destruct key as [|c key]; [done|]. cbn [app]. rewrite rd_middle. cbn [mbind option_bind].
  assert (_c_is_lsep c = false) as ->. { apply Forall_cons in Hkey as [[Ht Hn%negb_true_iff%Z.eqb_neq]%andb_true_iff _]. by destruct (token_plain c Ht) as [(_ & _ & _ & ?)|?]. }
  destruct (fuel_split (zlen l) ep (length (c :: key) + (1 + (length w + 1)))) as (k & ->); [unfold zlen in *; cbn [length] in *; lia|].
  unfold pst_start. pose proof (loop_plain hv l (c :: key) w r ep k Hkey Hw Hep) as El. cbn [app] in El. rewrite El. cbn [mbind option_bind s_ve s_vs s_escaped s_rp s_ks s_ke].
  replace (zlen l + zlen (c :: key) - zlen l) with (zlen (c :: key)) by lia. by replace (_ + zlen w - _) with (zlen w) by lia.
Qed.
Lemma param_plain l key w r ep : Forall (fun c => key_char c = true) key -> Forall (fun c => val_char c = true) w -> zlen l + 1 + zlen key + 1 + zlen w < ep ->
  _header_parse_next_parameter2 false (l ++ 32 :: key ++ 61 :: w ++ 59 :: r) (zlen l) ep =
    Some (l ++ 32 :: key ++ 61 :: w ++ 59 :: r, Some (zlen l + 1 + zlen key + 1 + zlen w + 1, mkParam (zlen l + 1) (zlen key) (Some (zlen l + 1 + zlen key + 1)) (zlen w))).
Proof.
  intros Hkey Hw Hep. unfold _header_parse_next_parameter2. pose proof (zlen_nonneg key). pose proof (zlen_nonneg w). rewrite (proj2 (Z.leb_gt _ _)), rd_middle by lia.
  cbn [mbind option_bind _c_is_lsep Z.eqb Pos.eqb orb].
  destruct (fuel_split (zlen l) ep (1 + (length key + (1 + (length w + 1))))) as (k & ->); [unfold zlen in *; lia|].
  change (1 + (length key + (1 + (length w + 1))) + k)%nat with (S (length key + (1 + (length w + 1)) + k)).
  unfold pst_start. rewrite (loop_go false l 32 _ ep _ (mkPst (zlen l + 1) false true false false (zlen l + 1) (zlen l + 1) None None)); [|done|cbn [s_rp]; lia|].
  2: { cbn [s_key key_turn _c_is_space Z.eqb Pos.eqb orb s_ke s_ks s_rp]. rewrite Z.eqb_refl. done. }
  assert (zlen l + 1 = zlen (l ++ [32])) as H1 by (by rewrite zlen_app). rewrite !(cons_middle 32 l), !(app_assoc l [32]), H1. rewrite H1 in Hep.
  rewrite loop_plain by (done || lia). cbn [mbind option_bind s_ve s_vs s_escaped s_rp s_ks s_ke].
  replace (zlen (l ++ [32]) + zlen key - zlen (l ++ [32])) with (zlen key) by lia. by replace (_ + zlen w - _) with (zlen w) by lia.
Qed.

Lemma next_plain buf rp ep c : rd buf rp = Some c -> c <> 58 -> _header_parse_next_parameter2 false buf rp ep = _header_parse_next_parameter buf rp ep.
Proof. intros Hr Hc. unfold _header_parse_next_parameter. rewrite Hr. cbn [mbind option_bind]. by rewrite (proj2 (Z.eqb_neq c 58) Hc). Qed.

(** The test for the name of the session cookie. *)
Definition key_test (buf : list Z) (kv : param) : option bool :=
  if kv.(pk_len) =? 9 then strncmp_at buf kv.(pk) (sid_key ++ [0]) 9 else Some false.

Lemma key_test_word l w r kv : kv.(pk) = zlen l -> kv.(pk_len) = zlen w -> key_test (l ++ w ++ r) kv = Some (bool_decide (w = sid_key)).
Proof.
  intros Hk Hl. unfold key_test. rewrite Hk, Hl. destruct (Z.eqb_spec (zlen w) 9) as [E|E].
  - change 9 with (zlen sid_key). rewrite strncmp_at_word; [|by apply (bool_decide_eq_true_1 (Forall _ _))|rewrite zlen_app; change (zlen sid_key) with 9; pose proof (zlen_nonneg r); lia].
    f_equal. apply bool_decide_ext. split; [|intros ->; by apply prefix_app_r].
    intros [k Hk']. apply (f_equal (take 9)) in Hk'. assert (length w = 9%nat) by (unfold zlen in E; lia). rewrite take_app_le, take_ge in Hk' by (rewrite ?H; lia). done.
  - rewrite bool_decide_false; [done|]. intros ->. by apply E.
Qed.

Lemma find_miss fuel buf start rp ep buf1 rp1 kv : _header_parse_next_parameter2 (rp =? start) buf rp ep = Some (buf1, Some (rp1, kv)) -> key_test buf1 kv = Some false ->
  part_find_loop (S fuel) buf start rp ep (sid_key ++ [0]) = part_find_loop fuel buf1 start rp1 ep (sid_key ++ [0]).
Proof. intros E Ht. cbn [part_find_loop]. rewrite E. cbn [mbind option_bind]. change (cstr (sid_key ++ [0])) with sid_key. change (zlen sid_key) with 9. unfold key_test in Ht. by rewrite Ht. Qed.

Lemma find_hit fuel buf start rp ep buf1 rp1 kv : _header_parse_next_parameter2 (rp =? start) buf rp ep = Some (buf1, Some (rp1, kv)) -> key_test buf1 kv = Some true ->
  part_find_loop (S fuel) buf start rp ep (sid_key ++ [0]) = Some (buf1, Some kv).
Proof. intros E Ht. cbn [part_find_loop]. rewrite E. cbn [mbind option_bind]. change (cstr (sid_key ++ [0])) with sid_key. change (zlen sid_key) with 9. unfold key_test in Ht. by rewrite Ht. Qed.

(** What the search finds. *)
Definition found (sid : list Z) (res : option (list Z * option param)) : Prop :=
  exists buf kv p, res = Some (buf, Some kv) /\ kv.(pv) = Some p /\ kv.(pv_len) = zlen sid /\ slice buf p (p + zlen sid) = sid.

Lemma slice_middle (l w r : list Z) : slice (l ++ w ++ r) (zlen l) (zlen l + zlen w) = w.
Proof. unfold slice. replace (zlen l + zlen w - zlen l) with (zlen w) by lia. unfold zlen. rewrite !Nat2Z.id, drop_app_length, take_app_length. done. Qed.

(** The semicolon behind a quoted value is a parameter without a name. *)
Lemma find_semicolon l t ep fuel : 0 < zlen l < ep ->
  part_find_loop (S fuel) (l ++ 59 :: t) 0 (zlen l) ep (sid_key ++ [0]) = part_find_loop fuel ((l ++ [59]) ++ t) 0 (zlen (l ++ [59])) ep (sid_key ++ [0]).
Proof.
  intros Hl. rewrite (find_miss _ _ _ _ _ (l ++ 59 :: t) (zlen l + 1) (mkParam (zlen l) 0 (Some (zlen l)) 0)); [| |done].
  - by rewrite <- app_assoc, zlen_app.
  - rewrite (proj2 (Z.eqb_neq (zlen l) 0)) by lia. rewrite (next_plain _ _ _ 59) by (apply rd_middle || done). apply param_semicolon. lia.
Qed.

(** A pair with a quoted value behind a space. *)
Lemma find_quoted l k v t ep fuel : 0 < zlen l -> cookie_ok (k, v, true) -> zlen l + 1 + zlen (cookie_pair (k, v)) <= ep ->
  if bool_decide (k = sid_key) then found v (part_find_loop (S fuel) (l ++ 32 :: cookie_pair (k, v) ++ t) 0 (zlen l) ep (sid_key ++ [0]))
  else exists l1, zlen l1 = zlen l + 1 + zlen (cookie_pair (k, v)) /\
    part_find_loop (S fuel) (l ++ 32 :: cookie_pair (k, v) ++ t) 0 (zlen l) ep (sid_key ++ [0]) = part_find_loop fuel (l1 ++ t) 0 (zlen l1) ep (sid_key ++ [0]).
Proof.
  intros Hl (Hc1 & Hc2 & Hc3) Hep. cbn [fst snd] in *.
  assert (zlen (cookie_pair (k, v)) = zlen k + zlen (esc v) + 3) as El by (unfold cookie_pair; cbn [fst snd]; rewrite !zlen_app; change (zlen [61; 34]) with 2; change (zlen [34]) with 1; lia). rewrite El in Hep |- *.
  pose proof (zlen_nonneg k). pose proof (zlen_nonneg (esc v)). destruct (param_quoted l k v t ep Hc1 Hc2 Hc3) as (g & Hg & E); [lia|].
  replace (l ++ 32 :: cookie_pair (k, v) ++ t) with (l ++ 32 :: k ++ [61; 34] ++ esc v ++ 34 :: t) by (unfold cookie_pair; cbn [fst snd]; repeat (rewrite <- !app_assoc; cbn [app]); done).
  set (b0 := l ++ 32 :: k ++ [61; 34] ++ esc v ++ 34 :: t) in *. set (b1 := l ++ 32 :: k ++ [61; 34] ++ v ++ g ++ 34 :: t) in *.
  assert (_header_parse_next_parameter2 (zlen l =? 0) b0 (zlen l) ep = Some (b1, Some (zlen l + 1 + zlen k + 2 + zlen (esc v) + 1, mkParam (zlen l + 1) (zlen k) (Some (zlen l + 1 + zlen k + 2)) (zlen v)))) as En.
  { rewrite (proj2 (Z.eqb_neq (zlen l) 0)) by lia. rewrite (next_plain _ _ _ 32) by (apply rd_middle || done). exact E. }
  assert (key_test b1 (mkParam (zlen l + 1) (zlen k) (Some (zlen l + 1 + zlen k + 2)) (zlen v)) = Some (bool_decide (k = sid_key))) as Ek.
  { unfold b1. rewrite (cons_middle 32 l), app_assoc. apply key_test_word; cbn [pk pk_len]; [by rewrite zlen_app|done]. }
  destruct (bool_decide (k = sid_key)).
  - rewrite (find_hit _ _ _ _ _ _ _ _ En Ek). eexists _, _, _. split; [reflexivity|]. split; [reflexivity|]. split; [reflexivity|].
    replace b1 with ((l ++ 32 :: k ++ [61; 34]) ++ v ++ g ++ 34 :: t) by (unfold b1; rewrite <- app_assoc; cbn [app]; by rewrite <- app_assoc).
    replace (zlen l + 1 + zlen k + 2) with (zlen (l ++ 32 :: k ++ [61; 34])) by (rewrite zlen_app, zlen_cons, zlen_app; change (zlen [61; 34]) with 2; lia). apply slice_middle.
  - exists ((l ++ 32 :: k ++ [61; 34] ++ v ++ g) ++ [34]). split; [rewrite !zlen_app, zlen_cons, !zlen_app; change (zlen [61; 34]) with 2; change (zlen [34]) with 1; lia|].
    rewrite (find_miss _ _ _ _ _ _ _ _ En Ek). f_equal.
    + unfold b1. repeat (rewrite <- !app_assoc; cbn [app]). done.
    + rewrite !zlen_app, zlen_cons, !zlen_app. change (zlen [61; 34]) with 2. change (zlen [34]) with 1. lia.
Qed.

(** A pair with a plain value behind a space, and the semicolon behind it. *)
Lemma find_plain l k v t ep fuel : 0 < zlen l -> cookie_ok (k, v, false) -> k <> sid_key -> zlen l + 2 + zlen (cookie_written (k, v, false)) <= ep ->
  exists l1, zlen l1 = zlen l + 2 + zlen (cookie_written (k, v, false)) /\
    part_find_loop (S fuel) (l ++ 32 :: cookie_written (k, v, false) ++ 59 :: t) 0 (zlen l) ep (sid_key ++ [0]) = part_find_loop fuel (l1 ++ t) 0 (zlen l1) ep (sid_key ++ [0]).
Proof.
  intros Hl (Hc1 & Hc2 & Hc3) Hne Hep. unfold cookie_written in *. cbn [fst snd] in *. rewrite zlen_app, zlen_cons in Hep |- *.
  exists ((l ++ 32 :: k ++ 61 :: v) ++ [59]). split; [zlen_lia|].
  replace (l ++ 32 :: (k ++ 61 :: v) ++ 59 :: t) with (l ++ 32 :: k ++ 61 :: v ++ 59 :: t) by (by rewrite <- app_assoc).
  assert (_header_parse_next_parameter2 (zlen l =? 0) (l ++ 32 :: k ++ 61 :: v ++ 59 :: t) (zlen l) ep = Some (l ++ 32 :: k ++ 61 :: v ++ 59 :: t,
    Some (zlen l + 1 + zlen k + 1 + zlen v + 1, mkParam (zlen l + 1) (zlen k) (Some (zlen l + 1 + zlen k + 1)) (zlen v)))) as En.
  { rewrite (proj2 (Z.eqb_neq (zlen l) 0)) by lia. apply param_plain; [done|done|lia]. }
  rewrite (find_miss _ _ _ _ _ _ _ _ En).
  - f_equal; [by repeat (rewrite <- !app_assoc; cbn [app])|]. zlen_lia.
  - rewrite (cons_middle 32 l), app_assoc, <- (bool_decide_false (k = sid_key)) by done. apply key_test_word; cbn [pk pk_len]; [by rewrite zlen_app|done].
Qed.

(** The rest of the header behind a cookie: its semicolon is read with a plain value. *)
Definition behind (quoted : bool) (cs : list cookie) : list Z := if quoted then more_cookies cs else tail (more_cookies cs).

Lemma find_behind n sid cs r ep :
  (forall l fuel, 0 < zlen l -> zlen l + zlen (behind false cs) <= ep -> (n <= fuel)%nat -> found sid (part_find_loop fuel (l ++ behind false cs ++ r) 0 (zlen l) ep (sid_key ++ [0]))) ->
  forall q l fuel, cs <> [] -> 0 < zlen l -> zlen l + zlen (behind q cs) <= ep -> (S n <= fuel)%nat ->
  found sid (part_find_loop fuel (l ++ behind q cs ++ r) 0 (zlen l) ep (sid_key ++ [0])).
Proof.
  intros H [] l fuel Hcs Hl Hep Hf; [|apply H; lia]. destruct cs as [|c cs]; [done|]. unfold behind in *. rewrite more_cons in *. cbn [tail app] in *. rewrite zlen_cons in Hep.
  set (t := 32 :: cookie_written c ++ more_cookies cs) in *. pose proof (zlen_nonneg t). destruct fuel as [|fuel]; [lia|].
  rewrite find_semicolon by lia. apply H; [rewrite zlen_app; change (zlen [59]) with 1; lia|rewrite zlen_app; change (zlen [59]) with 1; lia|lia].
Qed.

Lemma find_more before sid after r ep : Forall cookie_ok before -> Forall (fun c => c.1.1 <> sid_key) before -> Forall quotable sid ->
  forall l fuel, 0 < zlen l -> zlen l + zlen (behind false (before ++ (sid_key, sid, true) :: after)) <= ep -> (2 * length before + 1 <= fuel)%nat ->
  found sid (part_find_loop fuel (l ++ behind false (before ++ (sid_key, sid, true) :: after) ++ r) 0 (zlen l) ep (sid_key ++ [0])).
Proof.
  intros Hok Hne Hs. assert (cookie_ok (sid_key, sid, true)) as Hsid by (split; [done|split; [by apply (bool_decide_eq_true_1 (Forall _ _))|done]]).
  induction before as [|[[k v] q1] before IH]; intros l [|fuel] Hl Hep Hf; try (cbn in Hf; lia).
  - unfold behind in *. cbn [app] in *. rewrite more_cons in *. cbn [tail app] in *. rewrite zlen_cons, zlen_app in Hep.
    change (cookie_written (sid_key, sid, true)) with (cookie_pair (sid_key, sid)) in *. pose proof (zlen_nonneg (more_cookies after)).
    pose proof (find_quoted l sid_key sid (more_cookies after ++ r) ep fuel Hl Hsid ltac:(lia)) as E. rewrite bool_decide_true in E by done. by rewrite <- app_assoc.
  - apply Forall_cons in Hok as [Hc Hok]. apply Forall_cons in Hne as [Hc4 Hne]. cbn [fst] in Hc4. specialize (IH Hok Hne). cbn [app length] in *.
    set (rest := before ++ (sid_key, sid, true) :: after) in *. assert (rest <> []) as Hrest by (unfold rest; by destruct before).
    unfold behind in Hep |- *. rewrite more_cons in *. cbn [tail app] in *. rewrite zlen_cons, zlen_app in Hep. rewrite <- app_assoc. destruct q1.
    + change (cookie_written (k, v, true)) with (cookie_pair (k, v)) in *. pose proof (zlen_nonneg (more_cookies rest)). pose proof (zlen_nonneg (cookie_pair (k, v))).
      pose proof (find_quoted l k v (more_cookies rest ++ r) ep fuel Hl Hc ltac:(lia)) as E. rewrite bool_decide_false in E by done. destruct E as (l1 & Hl1 & ->).
      apply (find_behind (2 * length before + 1) sid rest r ep IH true); [done|lia|unfold behind; lia|lia].
    + assert (more_cookies rest = 59 :: behind false rest) as Er by (unfold behind; destruct rest as [|c2 rest2]; [done|]; by rewrite more_cons).
      rewrite Er in Hep |- *. rewrite zlen_cons in Hep. cbn [app]. pose proof (zlen_nonneg (cookie_written (k, v, false))). pose proof (zlen_nonneg (behind false rest)).
      destruct (find_plain l k v (behind false rest ++ r) ep fuel Hl Hc Hc4 ltac:(lia)) as (l1 & Hl1 & ->). apply IH; lia.
Qed.

Lemma more_longer cs : (2 * length cs <= length (more_cookies cs))%nat.
Proof. induction cs as [|c cs IH]; [done|]. rewrite more_cons. cbn [length]. rewrite length_app. lia. Qed.
Lemma behind_longer q cs : zlen (behind q cs) <= zlen (more_cookies cs) /\ 2 * zlen cs <= zlen (behind q cs) + 1.
Proof. pose proof (more_longer cs). unfold behind, zlen. destruct q; [lia|]. destruct (more_cookies cs); cbn [tail length] in *; lia. Qed.

(** The whole header. *)
Lemma find_session before sid after : Forall cookie_ok before -> Forall (fun c => c.1.1 <> sid_key) before -> Forall quotable sid ->
  let text := cookie_header (before ++ (sid_key, sid, true) :: after) in
  found sid (iwn_wf_header_val_part_find (text ++ [13; 10]) 0 (zlen text) (sid_key ++ [0])).
Proof.
  intros Hok Hne Hs text. unfold iwn_wf_header_val_part_find. rewrite Z.sub_0_r. destruct before as [|[[k v] q] before].
  - cbn [app] in text. unfold text. cbn [cookie_header]. change (cookie_written (sid_key, sid, true)) with (cookie_pair (sid_key, sid)).
    destruct (first_quoted true [] sid_key sid (more_cookies after ++ [13; 10]) (zlen (cookie_pair (sid_key, sid) ++ more_cookies after))) as (g & Hg & E);
      [done|by apply (bool_decide_eq_true_1 (Forall _ _))|done| |].
    { unfold cookie_pair. cbn [fst snd]. rewrite !zlen_app. change (zlen [61; 34]) with 2. change (zlen [34]) with 1. change (zlen (@nil Z)) with 0. pose proof (zlen_nonneg (more_cookies after)). lia. }
    change (zlen (@nil Z)) with 0 in E. rewrite !Z.add_0_l in E. cbn [app] in E.
    replace ((cookie_pair (sid_key, sid) ++ more_cookies after) ++ [13; 10]) with (sid_key ++ 61 :: 34 :: esc sid ++ 34 :: more_cookies after ++ [13; 10])
      by (unfold cookie_pair; cbn [fst snd]; repeat (rewrite <- !app_assoc; cbn [app]); done).
    set (b1 := sid_key ++ 61 :: 34 :: sid ++ g ++ _) in *.
    assert (key_test b1 (mkParam 0 (zlen sid_key) (Some (zlen sid_key + 2)) (zlen sid)) = Some true) as Ek by (rewrite <- (bool_decide_true (sid_key = sid_key)) by done; by apply (key_test_word [] sid_key)).
    rewrite (find_hit _ _ 0 0 _ b1 _ _ E Ek). eexists _, _, _. split; [reflexivity|]. split; [reflexivity|]. split; [reflexivity|].
    change b1 with ((sid_key ++ [61; 34]) ++ sid ++ g ++ 34 :: more_cookies after ++ [13; 10]). apply (slice_middle (sid_key ++ [61; 34])).
  - apply Forall_cons in Hok as [(Hc1 & Hc2 & Hc3) Hok]. apply Forall_cons in Hne as [Hk Hne]. cbn [fst snd] in *. unfold text. cbn [app cookie_header].
    set (rest := before ++ (sid_key, sid, true) :: after) in *. assert (rest <> []) as Hrest by (unfold rest; by destruct before).
    set (ep := zlen (cookie_written (k, v, q) ++ more_cookies rest)). assert (0 < zlen k) by (destruct k; [done|]; rewrite zlen_cons; pose proof (zlen_nonneg k); lia).
    pose proof (zlen_nonneg (more_cookies rest)).
    assert (exists l1, 0 < zlen l1 /\ zlen l1 + zlen (behind q rest) = ep /\ forall fuel,
      part_find_loop (S fuel) ((cookie_written (k, v, q) ++ more_cookies rest) ++ [13; 10]) 0 0 ep (sid_key ++ [0]) = part_find_loop fuel (l1 ++ behind q rest ++ [13; 10]) 0 (zlen l1) ep (sid_key ++ [0])) as (l1 & Hl1 & Hl1e & E).
    { unfold ep, behind, cookie_written. destruct q; cbn [fst snd].
      - pose proof (zlen_nonneg (esc v)). destruct (first_quoted true [] k v (more_cookies rest ++ [13; 10]) (zlen (cookie_pair (k, v) ++ more_cookies rest)) Hc1 Hc2 Hc3) as (g & Hg & E).
        { unfold cookie_pair. cbn [fst snd]. rewrite !zlen_app. change (zlen [61; 34]) with 2. change (zlen [34]) with 1. change (zlen (@nil Z)) with 0. lia. }
        change (zlen (@nil Z)) with 0 in E. rewrite !Z.add_0_l in E. cbn [app] in E. set (l1 := k ++ [61; 34] ++ v ++ g ++ [34]).
        assert (zlen l1 = zlen k + 2 + zlen (esc v) + 1) as E1 by (unfold l1; rewrite !zlen_app; change (zlen [61; 34]) with 2; change (zlen [34]) with 1; lia).
        exists l1. split; [lia|]. split; [rewrite E1; unfold cookie_pair; cbn [fst snd]; rewrite !zlen_app; change (zlen [61; 34]) with 2; change (zlen [34]) with 1; lia|]. intros fuel.
        replace ((cookie_pair (k, v) ++ more_cookies rest) ++ [13; 10]) with (k ++ 61 :: 34 :: esc v ++ 34 :: more_cookies rest ++ [13; 10])
          by (unfold cookie_pair; cbn [fst snd]; repeat (rewrite <- !app_assoc; cbn [app]); done).
        rewrite (find_miss _ _ 0 0 _ _ _ _ E); [f_equal; [unfold l1; repeat (rewrite <- !app_assoc; cbn [app]); done|lia]|].
        rewrite <- (bool_decide_false (k = sid_key)) by done. by apply (key_test_word [] k).
      - pose proof (zlen_nonneg v). assert (more_cookies rest = 59 :: tail (more_cookies rest)) as Er by (destruct rest as [|c2 rest2]; [done|]; by rewrite more_cons).
        set (t := tail (more_cookies rest)) in *. rewrite Er. set (l1 := k ++ 61 :: v ++ [59]).
        assert (zlen l1 = zlen k + 1 + zlen v + 1) as E1 by (unfold l1; zlen_lia). pose proof (zlen_nonneg t).
        exists l1. split; [lia|]. split; [rewrite E1; zlen_lia|]. intros fuel.
        pose proof (first_plain true [] k v (t ++ [13; 10]) (zlen ((k ++ 61 :: v) ++ 59 :: t)) Hc1 Hc2 Hc3) as E. change (zlen (@nil Z)) with 0 in E. rewrite !Z.add_0_l in E. cbn [app] in E.
        replace (((k ++ 61 :: v) ++ 59 :: t) ++ [13; 10]) with (k ++ 61 :: v ++ 59 :: t ++ [13; 10]) by (repeat (rewrite <- !app_assoc; cbn [app]); done).
        rewrite (find_miss _ _ 0 0 _ _ _ _ (E ltac:(zlen_lia))); [f_equal; [unfold l1; repeat (rewrite <- !app_assoc; cbn [app]); done|lia]|].
        rewrite <- (bool_decide_false (k = sid_key)) by done. by apply (key_test_word [] k). }
    destruct (behind_longer q rest) as [_ Hlong].
    assert (2 * length before + 2 <= Z.to_nat ep)%nat as Hf.
    { assert (Z.of_nat (length before) < zlen rest) by (unfold rest, zlen; rewrite length_app; cbn [length]; lia). lia. }
    rewrite E. apply (find_behind (2 * length before + 1) sid rest [13; 10] ep); [by apply find_more|done|done|lia|lia].
Qed.

(** ** The session cookie comes back *)

Lemma sid_quotable s : Forall (fun c => c ∈ sid_cset) s -> Forall quotable s /\ (34 ∉ s) /\ Forall (fun c => c <> 0) s.
Proof.
  intros Hs. assert (forall c, c ∈ sid_cset -> quotable c /\ c <> 34) as Hc.
  { assert (Forall (fun c => quotable c /\ c <> 34) sid_cset) as H by (unfold quotable; by apply (bool_decide_eq_true_1 (Forall _ _))). by rewrite Forall_forall in H. }
  split; [eapply Forall_impl; [exact Hs|]; intros c; apply Hc|]. split; [|eapply Forall_impl; [exact Hs|]; intros c Hin; by destruct (Hc c Hin) as [(? & _) _]].
  intros Hin. rewrite Forall_forall in Hs. by destruct (Hc 34 (Hs _ Hin)).
Qed.

(** C29. The session cookie: the id [_request_sid_ensure] makes from random bytes stands at the start of the [Set-Cookie] header of
    the response as [sessionid="..."]; and when the client sends that pair back, behind other cookies whose values are quoted or consist of
    token characters and in front of any others, the next request has the same session id. *)
Theorem session_cookie_roundtrip bytes sid before after decimal secure max_age params :
  (zlen bytes = IWN_WF_SESSION_ID_LEN) -> mapM sid_char bytes = Some sid -> Forall cookie_ok before -> Forall (fun c => c.1.1 <> sid_key) before ->
  (exists opts, session_cookie decimal false secure sid max_age params = Some (cookie_pair (sid_key, sid) ++ opts)) /\
  _request_headers_cookie_parse (Some (cookie_header (before ++ (sid_key, sid, true) :: after))) = Some sid.
Proof.
  intros Hb Hsid Hok Hne. destruct (sid_fill_ok bytes) as (s & E & Hl & Hs). rewrite Hsid in E. injection E as <-. destruct (sid_quotable sid Hs) as (Hq & Hn34 & Hnz).
  assert (zlen sid = 32) as Hlen by (unfold zlen; rewrite Hl; exact Hb). split.
  - unfold session_cookie. destruct sid as [|x sid]; [done|]. set (s := x :: sid) in *. unfold cookie_text, cookie_pair. cbn [fst snd]. rewrite (esc_plain s Hq Hn34). eexists. f_equal. rewrite <- !app_assoc. reflexivity.
  - destruct (find_session before sid after Hok Hne Hq) as (buf & kv & p & E & Hp & Hpl & Hsl). unfold _request_headers_cookie_parse.
    assert (exists x l, cookie_header (before ++ (sid_key, sid, true) :: after) = x :: l) as (x & l & Ex).
    { destruct before as [|[[k v] q] b]; [by eexists _, _|]. apply Forall_cons in Hok as [(Hc & _) _]. cbn [fst] in Hc. cbn [app cookie_header]. unfold cookie_written, cookie_pair.
      destruct k as [|y k]; [done|]. destruct q; by eexists _, _. }
    rewrite Ex in E |- *. rewrite E. cbn [mbind option_bind]. rewrite Hp, Hpl, Hlen. cbn [Z.eqb Pos.eqb]. rewrite <- Hlen, Hsl. f_equal. by apply cstr_nonzero.
Qed.

Lemma session_cookie_roundtrip_witness :
  let sid := default [] (mapM sid_char demo_random) in
  let before := [(bytes_of_string "a", bytes_of_string "1;2", true); (bytes_of_string "theme", bytes_of_string "dark", false)] in
  (exists opts, session_cookie (fun _ => bytes_of_string "60") false true sid 60 None = Some (cookie_pair (sid_key, sid) ++ opts)) /\
  _request_headers_cookie_parse (Some (cookie_header (before ++ (sid_key, sid, true) :: [(bytes_of_string "b", [], false)]))) = Some sid.
Proof.
  intros sid before. apply (session_cookie_roundtrip demo_random sid before [(bytes_of_string "b", [], false)]); [by vm_compute|by vm_compute| |].
  - repeat apply Forall_cons_2; [..|apply Forall_nil_2]; (split; [done|]; split; [by apply (bool_decide_eq_true_1 (Forall _ _))|]); cbn [snd fst]; unfold quotable; by apply (bool_decide_eq_true_1 (Forall _ _)).
  - by repeat constructor.
Defined.

(** A plain value with an equals sign, as in padded Base64, in front of the session cookie: the parser stops there, and the session is not
    found. *)
Example cookie_hidden :
  let sid := default [] (mapM sid_char demo_random) in
  _request_headers_cookie_parse (Some (cookie_header [(bytes_of_string "token", bytes_of_string "YQ==", false); (sid_key, sid, true)])) = Some [].
Proof. by vm_compute. Qed.

(** ** A request in text form *)

(** The methods the framework knows. *)
Definition methods : list (list Z * Z) :=
  [(bytes_of_string "GET", IWN_WF_GET); (bytes_of_string "PUT", IWN_WF_PUT); (bytes_of_string "POST", IWN_WF_POST); (bytes_of_string "HEAD", IWN_WF_HEAD);
   (bytes_of_string "DELETE", IWN_WF_DELETE); (bytes_of_string "OPTIONS", IWN_WF_OPTIONS); (bytes_of_string "PATCH", IWN_WF_PATCH)].

Lemma method_parsed m f : (m, f) ∈ methods -> _request_method_parse m = Some (inl f).
Proof. unfold methods. rewrite !elem_of_cons, elem_of_nil. intros Hm. repeat (destruct Hm as [[= -> ->]|Hm]; [by vm_compute|]). done. Qed.

Definition target_text (e : list Z) (xs : option (list (list Z * option (list Z)))) : list Z :=
  e ++ match xs with Some xs => 63 :: print_query xs | None => [] end.

Lemma path_end_app e r : 63 ∉ e -> r = [] \/ head r = Some 63 -> path_end (e ++ r) = zlen e.
Proof.
  intros He Hr. induction e as [|c e IH]; cbn [app path_end].
  - destruct Hr as [->|Hr]; [done|]. destruct r as [|x r]; [done|]. injection Hr as ->. done.
  - rewrite (proj2 (Z.eqb_neq c 63)) by set_solver. rewrite IH by set_solver. by rewrite zlen_cons.
Qed.

(** The forms a request announces, its header field and what the framework makes of it. *)
Inductive form_kind := NoForm | UrlForm | MultiForm (boundary : list Z).

Definition form_header (k : form_kind) : option (list Z) :=
  match k with
  | NoForm => None
  | UrlForm => Some (bytes_of_string "application/x-www-form-urlencoded")
  | MultiForm b => Some (bytes_of_string "multipart/form-data" ++ 59 :: 32 :: bytes_of_string "boundary" ++ [61; 34] ++ esc b ++ [34])
  end.
Definition form_flags (k : form_kind) : Z := match k with NoForm => 0 | UrlForm => IWN_WF_FORM_URL_ENCODED | MultiForm _ => IWN_WF_FORM_MULTIPART end.
Definition form_boundary (k : form_kind) : option (list Z) := match k with MultiForm b => Some b | _ => None end.
Definition form_ok (k : form_kind) : Prop := match k with MultiForm b => Forall quotable b | _ => True end.

Lemma multipart_header_parsed b : Forall quotable b -> content_type_parse (form_header (MultiForm b)) = Some (inl (IWN_WF_FORM_MULTIPART, Some b)).
Proof.
  intros Hb. unfold content_type_parse. set (mfd := bytes_of_string "multipart/form-data"). set (key := bytes_of_string "boundary").
  change (default [] (form_header (MultiForm b))) with (mfd ++ 59 :: 32 :: key ++ [61; 34] ++ esc b ++ [34]).
  assert (zlen (mfd ++ 59 :: 32 :: key ++ [61; 34] ++ esc b ++ [34]) = 32 + zlen (esc b)) as El by (rewrite zlen_app, !zlen_cons, !zlen_app; change (zlen mfd) with 19; change (zlen key) with 8; change (zlen [61; 34]) with 2; change (zlen [34]) with 1; lia).
  rewrite El. pose proof (zlen_nonneg (esc b)). rewrite (proj2 (Z.ltb_lt 0 _)) by lia. set (t := [13; 10]).
  replace ((mfd ++ 59 :: 32 :: key ++ [61; 34] ++ esc b ++ [34]) ++ t) with (mfd ++ 59 :: 32 :: key ++ [61; 34] ++ esc b ++ 34 :: t) by (repeat (rewrite <- !app_assoc; cbn [app]); done).
  assert (forall r, strncasecmp_at (mfd ++ 59 :: r) 0 "application/x-www-form-urlencoded" 33 = Some false) as Hu.
  { intros r. unfold strncasecmp_at. rewrite from_ptr_some by (rewrite zlen_app; pose proof (zlen_nonneg (59 :: r)); change (zlen mfd) with 19; lia). reflexivity. }
  assert (forall r, strncasecmp_at (mfd ++ 59 :: r) 0 "multipart/form-data" 19 = Some true) as Hm.
  { intros r. unfold strncasecmp_at. rewrite from_ptr_some by (rewrite zlen_app; pose proof (zlen_nonneg (59 :: r)); change (zlen mfd) with 19; lia). reflexivity. }
  rewrite Hu, Hm. rewrite (proj2 (Z.ltb_lt 19 _)) by lia. assert ((if 33 <=? 32 + zlen (esc b) then Some false else Some false) = Some false) as -> by (by destruct (_ <=? _)). cbn [mbind option_bind].
  destruct (Z.to_nat (32 + zlen (esc b))) as [|[|n]] eqn:En; [lia|lia|]. cbn [boundary_loop]. change 19 with (zlen mfd). rewrite param_semicolon by (change (zlen mfd) with 19; lia). cbn [mbind option_bind pk].
  assert (forall r, strncasecmp_at (mfd ++ 59 :: r) (zlen mfd) "boundary" 8 = Some false) as ->.
  { intros r. unfold strncasecmp_at. rewrite from_ptr_some by (rewrite zlen_app; pose proof (zlen_nonneg (59 :: r)); pose proof (zlen_nonneg mfd); lia). reflexivity. }
  cbn [mbind option_bind]. assert (zlen mfd + 1 = zlen (mfd ++ [59])) as E1 by (by rewrite zlen_app). rewrite E1, (cons_middle 59 mfd), app_assoc.
  destruct (param_quoted (mfd ++ [59]) key b t (32 + zlen (esc b))) as (g & Hg & E); [done|by apply (bool_decide_eq_true_1 (Forall _ _))|done|rewrite <- E1; change (zlen mfd) with 19; change (zlen key) with 8; lia|].
  rewrite E. cbn [mbind option_bind pk pv pv_len].
  assert (forall r, strncasecmp_at ((mfd ++ [59]) ++ 32 :: key ++ r) (zlen (mfd ++ [59]) + 1) "boundary" 8 = Some true) as ->.
  { intros r. unfold strncasecmp_at. rewrite from_ptr_some by (rewrite (zlen_app _ (32 :: key ++ r)), zlen_cons; pose proof (zlen_nonneg (key ++ r)); pose proof (zlen_nonneg (mfd ++ [59])); lia). by destruct r. }
  cbn [mbind option_bind]. do 4 f_equal. replace ((mfd ++ [59]) ++ 32 :: key ++ [61; 34] ++ b ++ g ++ 34 :: t) with (((mfd ++ [59]) ++ 32 :: key ++ [61; 34]) ++ b ++ g ++ 34 :: t) by (repeat (rewrite <- !app_assoc; cbn [app]); done).
  replace (zlen (mfd ++ [59]) + 1 + zlen key + 2) with (zlen ((mfd ++ [59]) ++ 32 :: key ++ [61; 34])) by (rewrite (zlen_app (mfd ++ [59]) (32 :: key ++ [61; 34])), zlen_cons, (zlen_app key); change (zlen [61; 34]) with 2; lia). apply slice_middle.
Qed.

Lemma form_header_parsed k : form_ok k -> content_type_parse (form_header k) = Some (inl (form_flags k, form_boundary k)).
Proof. destruct k as [| |b]; [done|by vm_compute|apply multipart_header_parsed]. Qed.

Lemma target_parsed e path xs : coded e path -> e <> [] -> 63 ∉ e -> (forall l, xs = Some l -> l <> [] /\ Forall kv_ok l) ->
  exists k qb qs, _request_target_parse (target_text e xs) = Some (inl (path ++ 0 :: k, zlen e, qb, qs)) /\ Forall2 (kv_at qb) qs (default [] xs).
Proof.
  intros He Hne H63 Hxs. unfold _request_target_parse. set (r := match xs with Some xs => 63 :: print_query xs | None => [] end). change (target_text e xs) with (e ++ r).
  assert (0 < zlen e) as Hpos by (destruct e; [done|rewrite zlen_cons; pose proof (zlen_nonneg e); lia]). assert (path_end (e ++ r) = zlen e) as -> by (apply path_end_app; [done|destruct xs; [by right|by left]]).
  pose proof (zlen_nonneg r). rewrite (proj2 (Z.eqb_neq _ 0)) by (rewrite zlen_app; lia). assert (Z.to_nat (zlen e) = length e) as -> by (unfold zlen; lia). rewrite take_app_length.
  destruct (decode_loop_coded e path He (length (e ++ [0])) [] [] []) as (g & E & _); [pose proof (coded_longer _ _ He); rewrite length_app; lia|]. cbn [app] in E. change (zlen [] + zlen []) with 0 in E. change (zlen (@nil Z)) with 0 in E.
  unfold iwn_url_decode_inplace. rewrite E. cbn [mbind option_bind]. rewrite zlen_app. destruct xs as [xs|].
  - destruct (Hxs xs eq_refl) as [Hx0 Hx]. unfold r. rewrite zlen_cons. pose proof (print_query_pos xs Hx0 Hx). rewrite (proj2 (Z.ltb_lt _ _)) by lia.
    rewrite (cons_middle 63 e), app_assoc. assert (Z.to_nat (zlen e + 1) = length (e ++ [63])) as -> by (rewrite length_app; unfold zlen; cbn [length]; lia). rewrite drop_app_length.
    replace (zlen e + (1 + zlen (print_query xs)) - (zlen e + 1)) with (zlen (print_query xs)) by lia.
    destruct (query_reads xs [] [] [] Hx) as (m & qs & Eq & Hq & _). cbn [app] in Eq, Hq. change (zlen (@nil Z)) with 0 in Eq. rewrite Eq. cbn [mbind option_bind]. rewrite (app_nil_r m). eexists _, _, _. by split.
  - unfold r. change (zlen (@nil Z)) with 0. rewrite (proj2 (Z.ltb_ge _ _)) by lia. eexists _, _, _. split; [reflexivity|constructor].
Qed.

(** The first call of the iterator returns. *)
Lemma first_next {re} (re_create : list Z -> option re) re_match w F c root kids fuel q flags path path_len :
  re_ok re_match -> registered re_create w F -> F !! c = Some (Node root kids) -> (2 * sum_list_with tsize kids + 3 <= fuel)%nat ->
  q.(q_ctx) = c -> on_path flags path path_len q ->
  exists q0 q1 cur, _route_iter_init w q = Some q0 /\ _route_iter_next re_match fuel w.(w_routes) q0 = Some (q1, cur) /\ same_req q q1.
Proof.
  intros Hre Hreg HF Hf Hq Hp. pose proof (registered_inv _ _ _ Hreg) as Hi. destruct (inv_forest _ _ _ _ _ Hi HF) as [Hroot (r & Hr & Hnx & Hk) Hok].
  assert (exists q0, _route_iter_init w q = Some q0 /\ same_req q q0) as (q0 & E0 & Hs0) by (unfold _route_iter_init; rewrite Hq, Hroot; cbn [mbind option_bind]; eexists; split; [reflexivity|done]).
  destruct (root_turns re_match flags path path_len w.(w_routes) Hre Hok w q q0 root r kids E0 eq_refl) as (n & vs & q' & T & Hc & Hn & _); [by rewrite Hq|done..|].
  assert (exists q1 cur, _route_iter_next re_match fuel w.(w_routes) q0 = Some (q1, cur)) as (q1 & cur & En).
  { pose proof (next_of_turns _ _ _ _ _ _ T ltac:(lia) fuel ltac:(lia)) as Hg. destruct vs; [by eexists _, _|]. destruct Hg as (q1 & n1 & E & _). by eexists _, _. }
  exists q0, q1, cur. split; [done|]. split; [done|]. etrans; [exact Hs0|exact (proj1 (next_keeps _ _ _ _ _ _ En))].
Qed.

(** C27. What a request says reaches the framework: for one of the seven methods, a path written with or without escapes, an
    optional query, an optional announcement of a form and any cookies that can be read, [_request_create] makes a
    request with the flag of the method and of the form, the decoded path, the pairs of the query, the boundary of the form
    and the session id. *)
Theorem request_parsed {re} (re_create : list Z -> option re) (re_match : re -> list Z -> list (Z * Z)) w F c root kids fuel m f e path xs k cookie sid streamed body :
  re_ok re_match -> registered re_create w F -> F !! c = Some (Node root kids) -> (2 * sum_list_with tsize kids + 3 <= fuel)%nat ->
  (m, f) ∈ methods -> coded e path -> e <> [] -> 63 ∉ e -> Forall (fun x => x <> 0) path -> zlen e < 2 ^ 31 ->
  (forall l, xs = Some l -> l <> [] /\ Forall kv_ok l) -> form_ok k -> _request_headers_cookie_parse cookie = Some sid ->
  exists r, _request_create re_match fuel w c (mkHttp m (target_text e xs) (form_header k) cookie streamed body) = Some (inl r) /\
    on_path (Z.lor f (form_flags k)) path (zlen e) r.(r_q) /\ Forall2 (kv_at r.(r_query_buf)) r.(r_query) (default [] xs) /\
    r.(r_sid) = sid /\ r.(r_boundary) = (fun b => b ++ [0]) <$> form_boundary k /\ r.(r_boundary_len) = zlen (default [] (form_boundary k)).
Proof.
  intros Hre Hreg HF Hf Hm He Hne H63 Hnz Hlen Hxs Hk Hck. destruct (target_parsed e path xs He Hne H63 Hxs) as (g & qb & qs & Et & Hq).
  unfold _request_create. cbn [h_target h_method h_content_type h_cookie]. rewrite Et. cbn [mbind option_bind]. rewrite (method_parsed m f Hm). cbn [mbind option_bind].
  unfold _request_headers_parse. cbn [h_content_type h_cookie]. rewrite (form_header_parsed k Hk). cbn [mbind option_bind]. rewrite Hck. cbn [mbind option_bind].
  set (qi := mkRequest c (Z.lor f (form_flags k)) (path ++ 0 :: g) (zlen e) 0 0 [] (mkIter 0 0 [] [])).
  assert (on_path (Z.lor f (form_flags k)) path (zlen e) qi) as Hon. { split; [done|by exists g|done|]. split; [done|]. pose proof (coded_longer _ _ He). unfold zlen in *. lia. }
  destruct (first_next re_create re_match w F c root kids fuel qi _ _ _ Hre Hreg HF Hf eq_refl Hon) as (q0 & q1 & cur & E0 & E1 & (_ & H2 & H3 & H4)). rewrite E0. cbn [mbind option_bind]. rewrite E1. cbn [mbind option_bind].
  eexists. split; [reflexivity|]. cbn [r_q r_query_buf r_query r_sid r_boundary r_boundary_len]. split; [|done]. destruct Hon as [A [g' B] C [D E']]. split; [congruence|exists g'; congruence|done|split; [congruence|done]].
Qed.

Lemma request_parsed_witness :
  let xs := [(bytes_of_string "x", Some (bytes_of_string "1"))] in
  exists r, _request_create lit_match 9 site.1 1 (mkHttp (bytes_of_string "POST") (target_text (bytes_of_string "/a/" ++ escape_seq 98) (Some xs)) (form_header (MultiForm (bytes_of_string "X"))) None false []) = Some (inl r) /\
    on_path (Z.lor IWN_WF_POST (form_flags (MultiForm (bytes_of_string "X")))) (bytes_of_string "/a/b") 6 r.(r_q) /\ Forall2 (kv_at r.(r_query_buf)) r.(r_query) xs /\
    r.(r_sid) = [] /\ r.(r_boundary) = Some (bytes_of_string "X" ++ [0]) /\ r.(r_boundary_len) = 1.
Proof.
  intros xs. apply (request_parsed lit_create lit_match site.1 site.2 1%positive 10%positive [Node 11 [Node 12 []]; Node 13 []] 9 (bytes_of_string "POST") IWN_WF_POST
    (bytes_of_string "/a/" ++ escape_seq 98) (bytes_of_string "/a/b") (Some xs) (MultiForm (bytes_of_string "X")) None [] false []).
  - apply lit_ok.
  - apply site_registered.
  - by vm_compute.
  - by cbv.
  - by apply (bool_decide_eq_true_1 (_ ∈ _)).
  - apply (coded_cons [47]); [by constructor|]. apply (coded_cons [97]); [by constructor|]. apply (coded_cons [47]); [by constructor|]. apply (coded_cons (escape_seq 98) 98 [] []); [by constructor|constructor].
  - done.
  - by apply (bool_decide_eq_true_1 (63 ∉ _)).
  - by apply (bool_decide_eq_true_1 (Forall _ _)).
  - by vm_compute.
  - intros l [= <-]. split; [done|]. constructor; [|constructor]. split; (split; by apply (bool_decide_eq_true_1 (Forall _ _))).
  - unfold form_ok, quotable. by apply (bool_decide_eq_true_1 (Forall _ _)).
  - done.
Defined.
