(* ===== verification/WfFiles.v ===== *)
(** * WfFiles: serving files ([src/src/http/iwn_wf_files.c])

    A file is its bytes and a position; [size] is what [stat] or [ftell] said.  The chain of ranges is a list.  The callbacks of the
    response stream are numbered.  [None] is undefined behaviour. *)
From S2P Require Import Prelude Codec HttpParser HttpResponse HttpRead HttpReply HttpChunked HttpStream WfRoute WfHeader WfSession.

Definition BOUNDARY_MAX : Z := 32.
Definition CTYPE_MAX : Z := 128.
Definition BUF_MAX : Z := 4096.
Definition INT64_MAX : Z := 2 ^ 63 - 1.
Definition INT64_MIN : Z := - 2 ^ 63.

(** [struct range]; [INT64_MAX] is an end that is not given. *)
Record range := mkRange { rg_start : Z; rg_end : Z; rg_to_read : Z }.

Record file := mkFile { fi_bytes : list Z; fi_pos : Z }.

(** [struct ctx] *)
Record fctx := mkFctx { fx_file : file; fx_ranges : list range; fx_size : Z; fx_processed : bool; fx_boundary : list Z; fx_ctype : list Z }.

(** [fseek] to a position from the start; [fread]. *)
Definition fseek (f : file) (pos : Z) : option file := if pos <? 0 then None else Some {| f with fi_pos := pos |}.
Definition fread (f : file) (n : Z) : list Z * file :=
  let b := take (Z.to_nat n) (drop (Z.to_nat f.(fi_pos)) f.(fi_bytes)) in (b, {| f with fi_pos := f.(fi_pos) + zlen b |}).

(** ** Range headers *)

Definition bad_range : Z * Z := (INT64_MIN, INT64_MIN).

(** The loop of [_ranges_parse_next] over the characters that are left: the rest behind a comma, and the two ends.  [at_end] says that
    [rv] points to the second one. *)
Fixpoint range_loop (l : list Z) (at_end : bool) (s e : Z) : option (option (list Z) * (Z * Z)) :=
  let finish (ret : option (list Z)) := Some (ret, if at_end then (s, e) else bad_range) in
  match l with
  | [] => finish None
  | c :: l =>
      let rv := if at_end then e else s in
      if c =? 32 then if rv =? INT64_MAX then range_loop l at_end s e else Some (None, bad_range)
      else if c =? 44 then finish (Some l)
      else if c =? 45 then if at_end then Some (None, bad_range) else range_loop l true s e
      else if (48 <=? c) && (c <=? 57) then
        let v := if rv =? INT64_MAX then 0 else rv in
        if INT64_MAX <? v * 10 + c then None
        else let v := v * 10 + c - 48 in range_loop l at_end (if at_end then s else v) (if at_end then v else e)
      else Some (None, bad_range)
  end.
Definition _ranges_parse_next (l : list Z) : option (option (list Z) * (Z * Z)) := range_loop l false INT64_MAX INT64_MAX.

Definition range_refused (s e : Z) : bool :=
  ((s =? INT64_MIN) || (e =? INT64_MIN)) || ((s =? INT64_MAX) && (e =? INT64_MAX)) ||
  (negb (s =? INT64_MAX) && negb (e =? INT64_MAX) && ((e <? s) || (s <? 0) || (e <? 0))) ||
  ((s =? INT64_MAX) && (e <? 1)).

(** [mem] allocations succeed; the ranges read so far stay in the context. *)
Fixpoint _ranges_parse (fuel mem : nat) (rp : option (list Z)) (ranges : list range) : option (bool * list range) :=
  match rp with
  | None => Some (true, ranges)
  | Some l =>
      match fuel with
      | O => None
      | S fuel =>
          '(rp, (s, e)) ← _ranges_parse_next l;
          if range_refused s e then Some (false, ranges)
          else match mem with
               | O => Some (false, ranges)
               | S mem => _ranges_parse fuel mem rp (ranges ++ [mkRange s e INT64_MAX])
               end
      end
  end.

(** The range is moved to, and its ends and length are found. *)
Definition _file_server_accept_range (c : fctx) (r : range) : fctx * range * option (Z * Z) :=
  let last := c.(fx_size) - 1 in
  let '(pos, start, end_, to_read) :=
    if r.(rg_start) =? INT64_MAX then
      let start := c.(fx_size) - r.(rg_end) in (zlen c.(fx_file).(fi_bytes) - r.(rg_end), start, last, last - start + 1)
    else
      let start := r.(rg_start) in
      if r.(rg_end) =? INT64_MAX then (start, start, last, c.(fx_size) - start) else (start, start, r.(rg_end), r.(rg_end) - start + 1) in
  match fseek c.(fx_file) pos with
  | None => (c, r, None)
  | Some f =>
      ({| c with fx_file := f |}, {| r with rg_to_read := to_read |},
       if (start <? 0) || (end_ <? 0) || (end_ <? start) || (to_read <? 1) then None else Some (start, end_))
  end.

(** ** The callbacks of the stream *)

Definition CB_NORANGE : Z := 1.
Definition CB_SINGLE : Z := 2.
Definition CB_PART : Z := 3.
Definition CB_BODY : Z := 4.

Definition _file_serve_norange_cb (c : fctx) : fctx * (list Z * option Z) :=
  let '(b, f) := fread c.(fx_file) BUF_MAX in
  ({| c with fx_file := f |}, (b, if zlen b =? BUF_MAX then Some CB_NORANGE else None)).

(** The next piece of a range, and whether it is the last one. *)
Definition range_piece (f : file) (r : range) : list Z * file * range * bool :=
  let to_read := Z.min BUF_MAX r.(rg_to_read) in
  let '(b, f) := fread f to_read in
  let len := zlen b in
  (b, f, {| r with rg_to_read := r.(rg_to_read) - len |}, (len =? 0) || negb (len =? to_read) || (len =? r.(rg_to_read))).

(** The first range is dereferenced. *)
Definition _file_serve_range_single_cb (c : fctx) : option (fctx * (list Z * option Z)) :=
  match c.(fx_ranges) with
  | [] => None
  | r :: rs =>
      let '(b, f, r, stop) := range_piece c.(fx_file) r in
      Some ({| c with fx_file := f; fx_ranges := r :: rs |}, (b, if stop then None else Some CB_SINGLE))
  end.

Definition _file_serve_ranges_multiple_part_body (c : fctx) : option (fctx * (list Z * option Z)) :=
  match c.(fx_ranges) with
  | [] => None
  | r :: rs =>
      let '(b, f, r, stop) := range_piece c.(fx_file) r in
      Some ({| c with fx_file := f; fx_ranges := if (stop : bool) then rs else r :: rs; fx_processed := true |}, (b, Some (if stop then CB_PART else CB_BODY)))
  end.

Definition dashes : list Z := [45; 45].
Definition content_range (start end_ size : Z) : list Z :=
  bytes_of_string "bytes " ++ print_int start ++ [45] ++ print_int end_ ++ [47] ++ print_int size.
Definition part_head (boundary ctype : list Z) (start end_ size : Z) : list Z :=
  dashes ++ boundary ++ CRLF ++ bytes_of_string "content-type: " ++ ctype ++ CRLF ++ bytes_of_string "content-range: " ++ content_range start end_ size ++ CRLF ++ CRLF.

Definition _file_serve_ranges_multiple_part (c : fctx) : fctx * option (list Z * option Z) :=
  let pre := if c.(fx_processed) then CRLF else [] in
  match c.(fx_ranges) with
  | [] => (c, Some (pre ++ dashes ++ c.(fx_boundary) ++ dashes ++ CRLF, None))
  | r :: rs =>
      let '(c, r, a) := _file_server_accept_range c r in
      let c := {| c with fx_ranges := r :: rs |} in
      (c, match a with
          | None => None
          | Some (start, end_) => Some (pre ++ part_head c.(fx_boundary) c.(fx_ctype) start end_ c.(fx_size), Some CB_BODY)
          end)
  end.

Definition file_cb (cb : Z) (c : fctx) : option (fctx * option (list Z * option Z)) :=
  if cb =? CB_NORANGE then let '(c, x) := _file_serve_norange_cb c in Some (c, Some x)
  else if cb =? CB_SINGLE then '(c, x) ← _file_serve_range_single_cb c; Some (c, Some x)
  else if cb =? CB_PART then Some (_file_serve_ranges_multiple_part c)
  else '(c, x) ← _file_serve_ranges_multiple_part_body c; Some (c, Some x).

(** ** Responses *)

Section Serve.
Context {V : Type} (base : session_ops V) (F : nat).
Abbreviation ops := (stream_ops base F file_cb).

(** The result is the error flag of the C function beside the world and the session. *)
Abbreviation served := (option (V * fctx * client * bool)).

Definition finish_response (head : bool) (code : Z) (cb : Z) (u : V * fctx) (cl : client) : served :=
  if head then '(u, cl, _) ← iwn_http_response_write ops F u cl code (Some []) None 0; Some (u, cl, true)
  else '(u, cl) ← iwn_http_response_stream_start ops F u cl (Some cb); Some (u, cl, true).

(** [rnd] is what [/dev/urandom] gives; the last of its bytes is replaced by the terminator. *)
Definition _boundary_fill (rnd : option (list Z)) : option (option (list Z)) :=
  match rnd with
  | None => Some None
  | Some bytes => s ← mapM sid_char (take (Z.to_nat (BOUNDARY_MAX - 1)) bytes); Some (Some s)
  end.

Definition _file_serve_ranges_multiple (head : bool) (rnd : option (list Z)) (v : V) (c : fctx) (cl : client) : served :=
  b ← _boundary_fill rnd;
  match b with
  | None => Some (v, c, cl, false)
  | Some b =>
      let c := {| c with fx_boundary := b |} in
      let '(cl, _) := iwn_http_response_code_set cl 206 in
      let cl := iwn_http_connection_set_keep_alive cl false in
      let text := bytes_of_string "multipart/byteranges; boundary=" ++ [34] ++ b ++ [34] in
      let cl := iwn_http_response_header_set cl (bytes_of_string "content-type") text (zlen text) in
      finish_response head 206 CB_PART (v, c) cl
  end.

Definition _file_serve_range_single (head : bool) (v : V) (c : fctx) (r : range) (rs : list range) (cl : client) : served :=
  let '(c, r, a) := _file_server_accept_range c r in
  let c := {| c with fx_ranges := r :: rs |} in
  match a with
  | None => '(u, cl, _) ← iwn_http_response_by_code ops F (v, c) cl 416; Some (u, cl, true)
  | Some (start, end_) =>
      let cl := iwn_http_response_header_set cl (bytes_of_string "content-type") c.(fx_ctype) (-1) in
      let cl := iwn_http_response_header_i64_set cl (bytes_of_string "content-length") r.(rg_to_read) in
      let '(cl, _) := iwn_http_response_code_set cl 206 in
      let text := content_range start end_ c.(fx_size) in
      let cl := iwn_http_response_header_set cl (bytes_of_string "content-range") text (zlen text) in
      finish_response head 206 CB_SINGLE (v, c) cl
  end.

Definition _file_serve_norange (head : bool) (v : V) (c : fctx) (cl : client) : served :=
  let cl := iwn_http_response_header_set cl (bytes_of_string "content-type") c.(fx_ctype) (-1) in
  let cl := iwn_http_response_header_i64_set cl (bytes_of_string "content-length") c.(fx_size) in
  finish_response head 200 CB_NORANGE (v, c) cl.

Definition _file_serve (head : bool) (rnd : option (list Z)) (v : V) (c : fctx) (cl : client) : served :=
  match c.(fx_ranges) with
  | [] => _file_serve_norange head v c cl
  | [r] => _file_serve_range_single head v c r [] cl
  | _ => _file_serve_ranges_multiple head rnd v c cl
  end.

(** ** Requests for a file *)

(** The path of a file: what [stat] says of a regular file (size and time), and its bytes when it can be opened; or a file of the
    application, with [false] when it cannot be positioned. *)
Inductive origin := Path (st : option (Z * Z)) (content : option (list Z)) | Object (content : list Z) (ok : bool).

Definition pad4 (s : list Z) : list Z := replicate (4 - length s) 48 ++ s.
Definition _etag_fill (size mtime : Z) : list Z := pad4 (print_nat 16 (u32 size)) ++ [45] ++ pad4 (print_nat 16 (u32 mtime)).

(** [strncpy] into [ctx->ctype] *)
Definition ctype_of (ctype : option (list Z)) : list Z :=
  let t := cstr (default [] ctype) in
  if zlen t =? 0 then bytes_of_string "application/octet-stream" else take (Z.to_nat (CTYPE_MAX - 1)) t.

(** [iwn_wf_header_part_find] of [range] and [bytes] *)
Definition range_value (cl : client) : option (list Z) :=
  val ← iwn_http_request_header_get cl (bytes_of_string "range") (-1);
  let val := default [] val in
  if zlen val =? 0 then Some []
  else
    '(buf, kv) ← iwn_wf_header_val_part_find val 0 (zlen val) (bytes_of_string "bytes");
    match kv with
    | Some kv => match kv.(pv) with Some p => if (0 <=? p) && (p + kv.(pv_len) <=? zlen buf) then Some (slice buf p (p + kv.(pv_len))) else None | None => Some [] end
    | None => Some []
    end.

(** The answer of the C function: 1 when the request has been handled, 0 when not, an error, or a status code; with 1 the context is left
    as [user_data] of the request. *)
Definition _wf_file_serve (head : bool) (mem : nat) (rnd : option (list Z)) (ctype : option (list Z)) (o : origin) (v : V) (cl : client) : option (V * option fctx * client * Z) :=
  let go (size mtime : Z) (content : option (list Z)) : option (V * option fctx * client * Z) :=
    val ← range_value cl;
    r ← (if (0 <? size) && negb (zlen val =? 0) then
           '(ok, rs) ← _ranges_parse (S (length val)) mem (Some val) [];
           Some (if (ok : bool) then inl (cl, rs) else inr (cl, 416))
         else
           let etag := _etag_fill size mtime in
           let cl := iwn_http_response_header_set cl (bytes_of_string "etag") etag (zlen etag) in
           m ← iwn_http_request_header_get cl (bytes_of_string "if-none-match") 13;
           Some (if bool_decide (default [] m = etag) then inr (cl, 304) else inl (cl, [])));
    match r with
    | inr (cl, code) => Some (v, None, cl, code)
    | inl (cl, rs) =>
        let cl := iwn_http_response_header_set cl (bytes_of_string "accept-ranges") (bytes_of_string "bytes") 5 in
        match content with
        | None => Some (v, None, cl, 0)
        | Some b =>
            '(u, cl, ok) ← _file_serve head rnd v (mkFctx (mkFile b 0) rs size false [] (ctype_of ctype)) cl;
            Some (if (ok : bool) then (u.1, Some u.2, cl, 1) else (u.1, None, cl, -1))
        end
    end in
  match o with
  | Path None _ => Some (v, None, cl, 0)
  | Path (Some (size, mtime)) content => go size mtime content
  | Object content ok => if ok then go (zlen content) 0 (Some content) else Some (v, None, cl, -1)
  end.

Definition iwn_wf_file_serve (head : bool) (mem : nat) (rnd ctype : option (list Z)) (st : option (Z * Z)) (content : option (list Z)) (v : V) (cl : client) :=
  _wf_file_serve head mem rnd ctype (Path st content) v cl.
Definition iwn_wf_fileobj_serve (head : bool) (mem : nat) (rnd ctype : option (list Z)) (content : list Z) (ok : bool) (v : V) (cl : client) :=
  _wf_file_serve head mem rnd ctype (Object content ok) v cl.
End Serve.

(** ** Directories *)

(** [src/src/utils/iwn_mimetypes.c]; the table is generated, [_mimetype_find] is its lookup. *)
Section Mime.
Context (_mimetype_find : list Z -> option (list Z)).
Definition PATH_MAX : Z := 4096.

(** The position of the last dot among the first [n] characters. *)
Fixpoint last_dot (path : list Z) (n : nat) : option nat :=
  match n with
  | O => None
  | S i => if bool_decide (path !! i = Some 46) then Some i else last_dot path i
  end.

Definition iwn_mimetype_find_by_path2 (path : list Z) : option (list Z) :=
  let len := zlen path in
  if (len <? 2) || bool_decide (path !! Z.to_nat (len - 1) = Some 46) || (PATH_MAX <? len) then None
  else match last_dot path (Z.to_nat (len - 1)) with Some i => _mimetype_find (drop (S i) path) | None => None end.
Definition iwn_mimetype_find_by_path (path : list Z) : option (list Z) := iwn_mimetype_find_by_path2 (cstr path).
End Mime.

(** [strstr(s, "..")] *)
Fixpoint has_dots (s : list Z) : bool :=
  match s with
  | 46 :: 46 :: _ => true
  | _ :: s => has_dots s
  | [] => false
  end.

Section Dir.
Context {V : Type} (base : session_ops V) (F : nat) (mime : list Z -> option (list Z)) (stat_ : list Z -> option (Z * Z)) (open_ : list Z -> option (list Z)).
Definition FPATH_MAX : Z := 4096.

(** [stat_] gives size and time of a regular file.  The path is put together in a buffer of [FPATH_MAX] bytes. *)
Definition _handler_dir_attach (dir : list Z) (mem : nat) (rnd : option (list Z)) (flags : Z) (path_unmatched : list Z) (v : V) (cl : client) : option (V * option fctx * client * Z) :=
  if (zlen path_unmatched =? 0) || (Z.land flags IWN_WF_GET =? 0) then Some (v, None, cl, 0)
  else if has_dots path_unmatched then Some (v, None, cl, 0)
  else if FPATH_MAX <? zlen dir + zlen path_unmatched then Some (v, None, cl, 0)
  else if FPATH_MAX <=? zlen dir + zlen path_unmatched then None
  else
    let fpath := dir ++ path_unmatched in
    match stat_ fpath with
    | None => Some (v, None, cl, 0)
    | Some st =>
        let ctype := iwn_mimetype_find_by_path mime fpath in
        iwn_wf_file_serve base F (negb (Z.land flags IWN_WF_HEAD =? 0)) mem rnd ctype (Some st) (open_ fpath) v cl
    end.
End Dir.
