(* ===== verification/WfFilesProps.v ===== *)
(** * WfFilesProps: a file reaches the peer

    The ranges of a request are read as they were written, the callbacks of the stream hand out exactly the bytes of the file
    or of its ranges, and the response with them reaches the wire.  A directory is never left. *)
From S2P Require Import Prelude Codec HttpParser HttpResponse HttpRead HttpReply HttpChunked HttpStream WfRoute WfHeader WfMultipart WfSession WfFiles.

(** ** Ranges *)

Definition digit (c : Z) : Prop := 48 <= c <= 57.
Definition value_from (v : Z) (ds : list Z) : Z := foldl (fun v c => v * 10 + (c - 48)) v ds.
Abbreviation value := (value_from 0).
Definition number (ds : list Z) : Prop := ds <> [] /\ Forall digit ds /\ value ds + 48 <= INT64_MAX.

(** A range as a client writes it: both ends, the first one, or the length of the tail. *)
Inductive rspec := FromTo (a b : list Z) | From (a : list Z) | Last (n : list Z).

Definition spec_text (x : rspec) : list Z := match x with FromTo a b => a ++ 45 :: b | From a => a ++ [45] | Last n => 45 :: n end.
Definition spec_ends (x : rspec) : Z * Z := match x with FromTo a b => (value a, value b) | From a => (value a, INT64_MAX) | Last n => (INT64_MAX, value n) end.
Definition spec_range (x : rspec) : range := mkRange (spec_ends x).1 (spec_ends x).2 INT64_MAX.
Definition spec_ok (x : rspec) : Prop :=
  match x with FromTo a b => number a /\ number b /\ value a <= value b | From a => number a | Last n => number n /\ 1 <= value n end.

Definition more_specs (xs : list rspec) : list Z := xs ≫= (fun x => 44 :: spec_text x).
Definition specs_text (xs : list rspec) : list Z := match xs with [] => [] | x :: xs => spec_text x ++ more_specs xs end.

Lemma value_mono ds : forall v, 0 <= v -> Forall digit ds -> v <= value_from v ds.
Proof. induction ds as [|c ds IH]; intros v Hv Hd; [done|]. apply Forall_cons in Hd as [Hc Hd]. unfold digit in Hc. cbn. etransitivity; [|apply IH; [lia|done]]. lia. Qed.

Definition ends (at_end : bool) (s e v : Z) : Z * Z := if at_end then (s, v) else (v, e).

Lemma range_digits ds : forall rest at_end s e v, Forall digit ds -> 0 <= v -> v + 48 <= INT64_MAX -> value_from v ds + 48 <= INT64_MAX ->
  range_loop (ds ++ rest) at_end (ends at_end s e v).1 (ends at_end s e v).2 =
  range_loop rest at_end (ends at_end s e (value_from v ds)).1 (ends at_end s e (value_from v ds)).2.
Proof.
  induction ds as [|c ds IH]; intros rest at_end s e v Hd Hv Hb Hm; [done|]. apply Forall_cons in Hd as [Hc Hd]. unfold digit in Hc. cbn [app range_loop].
  assert ((if at_end then (ends at_end s e v).2 else (ends at_end s e v).1) = v) as -> by (by destruct at_end). cbn [value_from foldl] in Hm. fold (value_from (v * 10 + (c - 48)) ds) in Hm.
  pose proof (value_mono ds (v * 10 + (c - 48)) ltac:(lia) Hd). rewrite (proj2 (Z.eqb_neq c 32)), (proj2 (Z.eqb_neq c 44)), (proj2 (Z.eqb_neq c 45)), (proj2 (Z.leb_le 48 c)), (proj2 (Z.leb_le c 57)), (proj2 (Z.eqb_neq v INT64_MAX)) by lia.
  cbn [andb]. rewrite (proj2 (Z.ltb_ge _ _)) by lia. change (value_from v (c :: ds)) with (value_from (v * 10 + (c - 48)) ds). rewrite <- (IH rest at_end s e (v * 10 + (c - 48))); [|done|lia|lia|done]. replace (v * 10 + c - 48) with (v * 10 + (c - 48)) by lia. by destruct at_end.
Qed.

(** A number in a fresh place. *)
Lemma range_number ds rest at_end s e : number ds ->
  range_loop (ds ++ rest) at_end (ends at_end s e INT64_MAX).1 (ends at_end s e INT64_MAX).2 = range_loop rest at_end (ends at_end s e (value ds)).1 (ends at_end s e (value ds)).2.
Proof.
  intros (Hne & Hd & Hm). destruct ds as [|c ds]; [done|]. rewrite <- range_digits by (done || lia). apply Forall_cons in Hd as [Hc _]. unfold digit in Hc. cbn [app range_loop].
  rewrite (proj2 (Z.eqb_neq c 32)), (proj2 (Z.eqb_neq c 44)), (proj2 (Z.eqb_neq c 45)), (proj2 (Z.leb_le 48 c)), (proj2 (Z.leb_le c 57)) by lia. by destruct at_end.
Qed.

Lemma range_first ds rest : number ds -> range_loop (ds ++ rest) false INT64_MAX INT64_MAX = range_loop rest false (value ds) INT64_MAX.
Proof. exact (range_number ds rest false INT64_MAX INT64_MAX). Qed.
Lemma range_second ds rest s : number ds -> range_loop (ds ++ rest) true s INT64_MAX = range_loop rest true s (value ds).
Proof. exact (range_number ds rest true s INT64_MAX). Qed.

Lemma next_reads x rest : spec_ok x -> rest = [] \/ (exists r, rest = 44 :: r) ->
  _ranges_parse_next (spec_text x ++ rest) = Some (match rest with _ :: r => Some r | [] => None end, spec_ends x).
Proof.
  intros Hx Hr. assert (forall s e, range_loop rest true s e = Some (match rest with _ :: r => Some r | [] => None end, (s, e))) as Hend by (by destruct Hr as [->|[r ->]]).
  unfold _ranges_parse_next. destruct x as [a b|a|n]; cbn [spec_text spec_ends]; [destruct Hx as (Ha & Hb & _)| |destruct Hx as [Hn _]].
  - rewrite <- app_assoc, range_first by done. cbn [app range_loop]. change (45 =? 32) with false. change (45 =? 44) with false. change (45 =? 45) with true. cbv iota.
    by rewrite range_second, Hend.
  - rewrite <- app_assoc, range_first by done. cbn [app range_loop]. by rewrite <- Hend.
  - cbn [app range_loop]. change (45 =? 32) with false. change (45 =? 44) with false. change (45 =? 45) with true. cbv iota. by rewrite range_second, Hend.
Qed.

Lemma value_nonneg ds : Forall digit ds -> 0 <= value ds.
Proof. intros Hd. by apply value_mono. Qed.

Lemma spec_accepted x : spec_ok x -> range_refused (spec_ends x).1 (spec_ends x).2 = false.
Proof.
  assert (forall ds, number ds -> 0 <= value ds < INT64_MAX) as Hn by (intros ds (_ & Hd & Hm); pose proof (value_nonneg ds Hd); lia).
  assert (INT64_MIN < 0 < INT64_MAX) as Hmin by done.
  assert (forall a b : Z, a <> b -> (a =? b) = false) as Hq by (intros a b; apply Z.eqb_neq). unfold range_refused.
  destruct x as [a b|a|n]; cbn [spec_ok spec_ends fst snd]; [intros (Ha & Hb & Hab)|intros Ha|intros [Hl H1]].
  - pose proof (Hn a Ha). pose proof (Hn b Hb). rewrite !Hq by lia. cbn [orb andb negb]. by rewrite !(proj2 (Z.ltb_ge _ _)) by lia.
  - pose proof (Hn a Ha). by rewrite (Hq (value a) INT64_MIN), (Hq (value a) INT64_MAX), (Hq INT64_MAX INT64_MIN) by lia.
  - pose proof (Hn n Hl). rewrite (Hq (value n) INT64_MIN), (Hq (value n) INT64_MAX), (Hq INT64_MAX INT64_MIN) by lia. rewrite (proj2 (Z.ltb_ge (value n) 1)) by lia. by rewrite Z.eqb_refl.
Qed.

(** The ranges are read as they were written. *)
Lemma ranges_read xs : forall x fuel mem acc, Forall spec_ok (x :: xs) -> (length xs < fuel)%nat -> (length xs < mem)%nat ->
  _ranges_parse fuel mem (Some (specs_text (x :: xs))) acc = Some (true, acc ++ (spec_range <$> x :: xs)).
Proof.
  induction xs as [|y xs IH]; intros x fuel mem acc Hx Hf Hm; apply Forall_cons in Hx as [Hx Hxs]; destruct fuel as [|fuel]; [lia| |lia|]; destruct mem as [|mem]; try lia; cbn [specs_text _ranges_parse].
  - rewrite next_reads by auto. cbn [mbind option_bind more_specs]. destruct (spec_ends x) as [s e] eqn:E. pose proof (spec_accepted x Hx) as Ha. rewrite E in Ha. cbn [fst snd] in Ha. cbn. rewrite Ha. unfold spec_range. rewrite E. by destruct fuel.
  - cbn [more_specs mbind list_bind app]. rewrite next_reads by eauto. cbn [mbind option_bind]. destruct (spec_ends x) as [s e] eqn:E. pose proof (spec_accepted x Hx) as Ha. rewrite E in Ha. cbn [fst snd] in Ha. rewrite Ha.
    change (spec_text y ++ (xs ≫= (fun x0 => 44 :: spec_text x0))) with (specs_text (y :: xs)). cbn [length] in *. rewrite IH by (done || lia). rewrite <- app_assoc. rewrite (fmap_cons spec_range x). unfold spec_range at 2. by rewrite E.
Qed.

(** ** What the callbacks hand out *)

(** The bytes a range stands for, and whether the file has them. *)
Definition interval (size : Z) (x : rspec) : Z * Z :=
  match x with FromTo a b => (value a, value b) | From a => (value a, size - 1) | Last n => (size - value n, size - 1) end.
Definition fits (size : Z) (x : rspec) : Prop := match x with FromTo _ b => value b < size | From a => value a < size | Last n => value n <= size end.
Definition range_bytes (content : list Z) (x : rspec) : list Z := slice content (interval (zlen content) x).1 ((interval (zlen content) x).2 + 1).

Lemma interval_range size x : spec_ok x -> fits size x -> 0 <= (interval size x).1 <= (interval size x).2 /\ (interval size x).2 < size.
Proof.
  assert (forall ds, number ds -> 0 <= value ds) as Hn by (intros ds (_ & Hd & _); by apply value_nonneg).
  destruct x as [a b|a|n]; cbn [spec_ok fits interval fst snd]; [intros (Ha & Hb & Hab) H|intros Ha H|intros [Hl H1] H]; [pose proof (Hn a Ha); lia|pose proof (Hn a Ha); lia|lia].
Qed.

(** [c] over the file [content], somewhere in it. *)
Definition over (content : list Z) (c : fctx) : Prop := c.(fx_file).(fi_bytes) = content /\ 0 <= c.(fx_file).(fi_pos) /\ c.(fx_size) = zlen content.
Definition at_pos (c : fctx) (content : list Z) (pos : Z) (rs : list range) : fctx := {| c with fx_file := mkFile content pos; fx_ranges := rs |}.

Lemma range_accepted content c x : over content c -> spec_ok x -> fits (zlen content) x -> zlen content < INT64_MAX ->
  _file_server_accept_range c (spec_range x) =
    ({| c with fx_file := mkFile content (interval (zlen content) x).1 |}, mkRange (spec_ends x).1 (spec_ends x).2 ((interval (zlen content) x).2 - (interval (zlen content) x).1 + 1), Some (interval (zlen content) x)).
Proof.
  intros (Eb & _ & Es) Hx Hf Hmax. pose proof (interval_range _ x Hx Hf) as Hi. unfold _file_server_accept_range, spec_range. cbn [rg_start rg_end]. rewrite Es, Eb.
  assert (forall ds, number ds -> 0 <= value ds /\ (value ds =? INT64_MAX) = false) as Hn by (intros ds (_ & Hd & Hm); pose proof (value_nonneg ds Hd); split; [done|apply Z.eqb_neq; lia]).
  assert (forall s e : Z, 0 <= s <= e -> (s <? 0) || (e <? 0) || (e <? s) || (e - s + 1 <? 1) = false) as Hok by (intros s e H; rewrite !(proj2 (Z.ltb_ge _ _)) by lia; done).
  assert (forall p, 0 <= p -> fseek (fx_file c) p = Some (mkFile content p)) as Hseek by (intros p Hp; unfold fseek; rewrite (proj2 (Z.ltb_ge p 0)) by lia; by rewrite Eb).
  destruct x as [a b|a|n]; cbn [spec_ok spec_ends interval fst snd] in *; [destruct Hx as (Ha & Hb & _)| |destruct Hx as [Hx _]].
  - destruct (Hn a Ha) as [Ha0 ->], (Hn b Hb) as [Hb0 ->]. rewrite Hseek by lia. by rewrite Hok by lia.
  - destruct (Hn a Hx) as [Ha0 ->]. rewrite Z.eqb_refl, Hseek by lia. replace (zlen content - value a) with (zlen content - 1 - value a + 1) by lia. by rewrite Hok by lia.
  - rewrite Z.eqb_refl, Hseek by lia. by rewrite Hok by lia.
Qed.

Lemma fread_slice content pos n : 0 <= pos -> 0 <= n -> pos + n <= zlen content -> fread (mkFile content pos) n = (slice content pos (pos + n), mkFile content (pos + n)).
Proof.
  intros Hp Hn Hb. unfold fread. cbn [fi_pos fi_bytes]. assert (take (Z.to_nat n) (drop (Z.to_nat pos) content) = slice content pos (pos + n)) as E by (unfold slice; do 2 f_equal; lia).
  rewrite E. rewrite slice_length by lia. do 2 f_equal. lia.
Qed.

Lemma fread_rest content pos n : 0 <= pos <= zlen content -> zlen content - pos < n -> fread (mkFile content pos) n = (slice content pos (zlen content), mkFile content (zlen content)).
Proof.
  intros Hp Hn. unfold fread. cbn [fi_pos fi_bytes]. assert (take (Z.to_nat n) (drop (Z.to_nat pos) content) = slice content pos (zlen content)) as E.
  - unfold slice. rewrite !take_ge; [done|rewrite length_drop; unfold zlen; lia|rewrite length_drop; unfold zlen in *; lia].
  - rewrite E. rewrite slice_length by lia. do 2 f_equal. lia.
Qed.

Abbreviation hands := (pieces file_cb).

(** The whole file. *)
Lemma file_pieces m : forall content c pos, (Z.to_nat (zlen content - pos) <= m)%nat -> fx_file c = mkFile content pos -> 0 <= pos <= zlen content ->
  exists bs, hands CB_NORANGE c bs /\ concat bs = slice content pos (zlen content) /\ (length bs <= m + 1)%nat.
Proof.
  induction m as [m IH] using lt_wf_ind. intros content c pos Hm Hc Hp. destruct (Z.lt_ge_cases (zlen content - pos) BUF_MAX) as [Hlt|Hge].
  - exists [slice content pos (zlen content)]. split; [|cbn; rewrite app_nil_r; split; [done|lia]]. eapply pieces_last. unfold file_cb, _file_serve_norange_cb. rewrite Z.eqb_refl, Hc, fread_rest by lia.
    rewrite slice_length by lia. rewrite (proj2 (Z.eqb_neq _ _)) by lia. reflexivity.
  - unfold BUF_MAX in Hge. set (c2 := {| c with fx_file := mkFile content (pos + BUF_MAX) |}).
    destruct (IH (m - 1)%nat ltac:(lia) content c2 (pos + BUF_MAX)) as (bs & Hb & Hbs & Hl); [unfold BUF_MAX; lia|done|unfold BUF_MAX; lia|].
    exists (slice content pos (pos + BUF_MAX) :: bs). split; [|split; [cbn; by rewrite Hbs, slice_join by (unfold BUF_MAX; lia)|cbn; lia]]. eapply pieces_more; [|exact Hb].
    unfold file_cb, _file_serve_norange_cb. rewrite Z.eqb_refl, Hc, fread_slice by (unfold BUF_MAX; lia). rewrite slice_length by (unfold BUF_MAX; lia). replace (pos + BUF_MAX - pos) with BUF_MAX by lia. by rewrite Z.eqb_refl.
Qed.

(** A piece of a range: the whole rest, or a full buffer. *)
Lemma piece_of content pos s e n : 0 <= pos -> 1 <= n -> pos + n <= zlen content ->
  range_piece (mkFile content pos) (mkRange s e n) =
    if n <=? BUF_MAX then (slice content pos (pos + n), mkFile content (pos + n), mkRange s e 0, true)
    else (slice content pos (pos + BUF_MAX), mkFile content (pos + BUF_MAX), mkRange s e (n - BUF_MAX), false).
Proof.
  intros Hp Hn Hb. unfold range_piece. cbn [rg_to_read]. destruct (Z.leb_spec n BUF_MAX) as [H|H].
  - rewrite Z.min_r, fread_slice by lia. rewrite slice_length by lia. replace (pos + n - pos) with n by lia. rewrite Z.eqb_refl, orb_true_r. by rewrite Z.sub_diag.
  - assert (0 < BUF_MAX) by done. rewrite Z.min_l, fread_slice by lia. rewrite slice_length by lia. replace (pos + BUF_MAX - pos) with BUF_MAX by lia. rewrite Z.eqb_refl, (proj2 (Z.eqb_neq BUF_MAX n)) by lia. done.
Qed.

(** A range whose end leads to [cb'], from where [rest] is handed out. *)
Lemma single_pieces m : forall content c pos s e n rs, (Z.to_nat n <= m)%nat -> c = at_pos c content pos (mkRange s e n :: rs) -> 0 <= pos -> 1 <= n -> pos + n <= zlen content ->
  exists bs, hands CB_SINGLE c bs /\ concat bs = slice content pos (pos + n) /\ (length bs <= m)%nat.
Proof.
  induction m as [m IH] using lt_wf_ind. intros content c pos s e n rs Hm Hc Hp Hn Hb. pose proof (piece_of content pos s e n Hp Hn Hb) as Hpc.
  assert (file_cb CB_SINGLE c = '(c, x) ← _file_serve_range_single_cb c; Some (c, Some x)) as Ecb by done. rewrite Hc in Ecb. unfold _file_serve_range_single_cb in Ecb. cbn [at_pos fx_ranges fx_file] in Ecb. rewrite Hpc in Ecb.
  destruct (Z.leb_spec n BUF_MAX) as [H|H]; cbn [mbind option_bind] in Ecb; rewrite Hc.
  - exists [slice content pos (pos + n)]. split; [eapply pieces_last; exact Ecb|]. cbn. rewrite app_nil_r. split; [done|lia].
  - unfold BUF_MAX in H. match type of Ecb with _ = Some (?c2, _) => destruct (IH (m - 1)%nat ltac:(lia) content c2 (pos + BUF_MAX) s e (n - BUF_MAX) rs) as (bs & H1 & H2 & H3) end; [unfold BUF_MAX; lia|done|unfold BUF_MAX; lia..|].
    exists (slice content pos (pos + BUF_MAX) :: bs). split; [eapply pieces_more; [exact Ecb|exact H1]|]. cbn. rewrite H2. replace (pos + BUF_MAX + (n - BUF_MAX)) with (pos + n) by lia. rewrite slice_join by (unfold BUF_MAX; lia). split; [done|lia].
Qed.

Lemma body_pieces m : forall content c pos s e n rs rest, (Z.to_nat n <= m)%nat -> c = at_pos c content pos (mkRange s e n :: rs) -> 0 <= pos -> 1 <= n -> pos + n <= zlen content ->
  hands CB_PART {| c with fx_file := mkFile content (pos + n); fx_ranges := rs; fx_processed := true |} rest ->
  exists bs, hands CB_BODY c (bs ++ rest) /\ concat bs = slice content pos (pos + n) /\ (length bs <= m)%nat.
Proof.
  induction m as [m IH] using lt_wf_ind. intros content c pos s e n rs rest Hm Hc Hp Hn Hb Hrest. pose proof (piece_of content pos s e n Hp Hn Hb) as Hpc.
  assert (file_cb CB_BODY c = '(c, x) ← _file_serve_ranges_multiple_part_body c; Some (c, Some x)) as Ecb by done. rewrite Hc in Ecb. unfold _file_serve_ranges_multiple_part_body in Ecb. cbn [at_pos fx_ranges fx_file] in Ecb. rewrite Hpc in Ecb.
  destruct (Z.leb_spec n BUF_MAX) as [H|H]; cbn [mbind option_bind] in Ecb; rewrite Hc.
  - exists [slice content pos (pos + n)]. split; [cbn [app]; eapply pieces_more; [exact Ecb|]|cbn; rewrite app_nil_r; split; [done|lia]]. exact Hrest.
  - unfold BUF_MAX in H. match type of Ecb with _ = Some (?c2, _) => destruct (IH (m - 1)%nat ltac:(lia) content c2 (pos + BUF_MAX) s e (n - BUF_MAX) rs rest) as (bs & H1 & H2 & H3) end; [unfold BUF_MAX; lia|done|unfold BUF_MAX; lia..| |].
    + replace (pos + BUF_MAX + (n - BUF_MAX)) with (pos + n) by lia. exact Hrest.
    + exists (slice content pos (pos + BUF_MAX) :: bs). split; [cbn [app]; eapply pieces_more; [exact Ecb|exact H1]|]. cbn. rewrite H2. replace (pos + BUF_MAX + (n - BUF_MAX)) with (pos + n) by lia. rewrite slice_join by (unfold BUF_MAX; lia). split; [done|lia].
Qed.

(** The body of a response with several ranges. *)
Fixpoint parts_text (content boundary ctype : list Z) (pre : bool) (xs : list rspec) : list Z :=
  (if pre then CRLF else []) ++
  match xs with
  | [] => dashes ++ boundary ++ dashes ++ CRLF
  | x :: xs =>
      part_head boundary ctype (interval (zlen content) x).1 (interval (zlen content) x).2 (zlen content) ++ range_bytes content x ++ parts_text content boundary ctype true xs
  end.

Lemma parts_pieces content xs : forall c, Forall spec_ok xs -> Forall (fits (zlen content)) xs -> zlen content < INT64_MAX -> over content c -> c.(fx_ranges) = spec_range <$> xs ->
  exists bs, hands CB_PART c bs /\ concat bs = parts_text content c.(fx_boundary) c.(fx_ctype) c.(fx_processed) xs /\ (length bs <= length xs * (length content + 1) + 1)%nat.
Proof.
  induction xs as [|x xs IH]; intros c Hx Hf Hmax Hc Hr.
  - eexists [_]. split; [eapply pieces_last; unfold file_cb, _file_serve_ranges_multiple_part; rewrite Hr; reflexivity|]. cbn. rewrite app_nil_r. split; [done|lia].
  - apply Forall_cons in Hx as [Hx Hxs], Hf as [Hf Hfs]. pose proof (interval_range _ x Hx Hf) as Hi. pose proof (range_accepted content c x Hc Hx Hf Hmax) as Ha. destruct Hc as (Eb & Hp & Es).
    assert (exists c2, file_cb CB_PART c = Some (c2, Some ((if c.(fx_processed) then CRLF else []) ++ part_head c.(fx_boundary) c.(fx_ctype) (interval (zlen content) x).1 (interval (zlen content) x).2 (zlen content), Some CB_BODY)) /\
      c2 = {| c with fx_file := mkFile content (interval (zlen content) x).1; fx_ranges := mkRange (spec_ends x).1 (spec_ends x).2 ((interval (zlen content) x).2 - (interval (zlen content) x).1 + 1) :: (spec_range <$> xs) |}) as (c2 & Ecb & Ec2).
    { eexists. split; [|reflexivity]. change (file_cb CB_PART c) with (Some (_file_serve_ranges_multiple_part c)). unfold _file_serve_ranges_multiple_part. rewrite Hr, fmap_cons, Ha. destruct (interval (zlen content) x) as [st en]. cbn [fst snd fx_size fx_boundary fx_ctype]. by rewrite Es. }
    set (n := (interval (zlen content) x).2 - (interval (zlen content) x).1 + 1) in *. set (st := (interval (zlen content) x).1) in *.
    destruct (IH {| c with fx_file := mkFile content (st + n); fx_ranges := spec_range <$> xs; fx_processed := true |}) as (bs & Hb & Hbs & Hl); [done|done|done|split_and!; [done|cbn; lia|done]|done|]. cbn [fx_boundary fx_ctype fx_processed] in Hbs.
    destruct (body_pieces (Z.to_nat n) content c2 st (spec_ends x).1 (spec_ends x).2 n (spec_range <$> xs) bs) as (bs1 & Hb1 & Hbs1 & Hl1); [lia|by rewrite Ec2|lia|lia|lia|by rewrite Ec2|].
    eexists (_ :: bs1 ++ bs). split; [eapply pieces_more; [exact Ecb|exact Hb1]|]. split.
    + cbn [concat parts_text]. rewrite concat_app, Hbs, Hbs1. unfold range_bytes. fold st. replace (st + n) with ((interval (zlen content) x).2 + 1) by lia. by rewrite <- !app_assoc.
    + cbn [length]. rewrite length_app. assert (Z.to_nat n <= length content)%nat by (unfold zlen in *; lia). lia.
Qed.

(** ** The range header *)

(** The characters of a list of ranges. *)
Definition range_char (c : Z) : Prop := digit c \/ c = 44 \/ c = 45.

Lemma specs_chars xs : Forall spec_ok xs -> Forall range_char (specs_text xs).
Proof.
  assert (forall ds, number ds -> Forall range_char ds) as Hn by (intros ds (_ & Hd & _); eapply Forall_impl; [exact Hd|]; by left).
  assert (forall x, spec_ok x -> Forall range_char (spec_text x)) as Hs.
  { assert (range_char 45) as H45 by (by right; right). intros [a b|a|n]; cbn [spec_ok spec_text]; [intros (Ha & Hb & _)|intros Ha|intros [Hl _]]; [apply Forall_app; split; [auto|]; constructor; auto|apply Forall_app; split; [auto|by constructor]|constructor; auto]. }
  intros Hx. destruct xs as [|x xs]; [constructor|]. apply Forall_cons in Hx as [Hx Hxs]. cbn [specs_text]. apply Forall_app. split; [auto|]. unfold more_specs.
  induction Hxs as [|y xs Hy _ IH]; csimpl; [constructor|]. constructor; [by right; left|]. apply Forall_app. split; [auto|done].
Qed.

Lemma specs_nonempty x xs : spec_ok x -> specs_text (x :: xs) <> [].
Proof. intros Hx. cbn [specs_text]. destruct x as [a b|a|n]; cbn [spec_text]; [by destruct a|by destruct a|done]. Qed.

Lemma range_char_turn c b s : range_char c -> s.(s_quote) = false -> s.(s_key) = false ->
  val_turn b c s = Some (Go {| s with s_rp := s.(s_rp) + 1; s_ve := Some (s.(s_rp) + 1) |}).
Proof.
  intros Hc Hq _. unfold val_turn. rewrite Hq. assert (c <> 34 /\ c <> 59 /\ c <> 32 /\ c <> 9 /\ c <> 13 /\ c <> 10) as (H1 & H2 & H3 & H4 & H5 & H6) by (destruct Hc as [Hc|[->| ->]]; unfold digit in *; lia).
  unfold _c_is_space, _c_is_lsep. rewrite (proj2 (Z.eqb_neq c 34)), (proj2 (Z.eqb_neq c 59)), (proj2 (Z.eqb_neq c 32)), (proj2 (Z.eqb_neq c 9)), (proj2 (Z.eqb_neq c 13)), (proj2 (Z.eqb_neq c 10)) by done. cbn [andb orb].
  assert (_c_is_token c true = true) as ->; [|done]. unfold _c_is_token, _c_is_space. destruct Hc as [Hc|[->| ->]]; [|done|done]. unfold digit in Hc.
  assert (c = 48 \/ c = 49 \/ c = 50 \/ c = 51 \/ c = 52 \/ c = 53 \/ c = 54 \/ c = 55 \/ c = 56 \/ c = 57) as Hd by lia. by repeat destruct Hd as [->|Hd]; [..|subst].
Qed.

Lemma run_value hv w : forall l r ep fuel eq es ks ke vs ve, Forall range_char w -> zlen l + zlen w <= ep ->
  param_loop (length w + fuel) hv (l ++ w ++ r) ep (mkPst (zlen l) false false eq es ks ke vs ve) =
  param_loop fuel hv (l ++ w ++ r) ep (mkPst (zlen l + zlen w) false false eq es ks ke vs (match w with [] => ve | _ => Some (zlen l + zlen w) end)).
Proof.
  induction w as [|c w IH]; intros l r ep fuel eq es ks ke vs ve Hw Hep; [change (zlen (@nil Z)) with 0; by rewrite Z.add_0_r|].
  apply Forall_cons in Hw as [Hc Hw]. rewrite zlen_cons in Hep. pose proof (zlen_nonneg w). cbn [length Nat.add app].
  rewrite (loop_go hv l c (w ++ r) ep _ (mkPst (zlen l + 1) false false eq es ks ke vs (Some (zlen l + 1)))); [|done|cbn [s_rp]; lia|cbn [s_key]; by rewrite range_char_turn].
  specialize (IH (l ++ [c]) r ep fuel eq es ks ke vs (Some (zlen l + 1))). rewrite zlen_app in IH. change (zlen [c]) with 1 in IH. rewrite <- app_assoc in IH. cbn [app] in IH. rewrite IH by (done || lia).
  rewrite zlen_cons. replace (zlen l + 1 + zlen w) with (zlen l + (1 + zlen w)) by lia. destruct w; [|done]. do 3 f_equal.
Qed.

Definition bytes_eq : list Z := bytes_of_string "bytes=".

Lemma range_value_reads cl t : iwn_http_request_header_get cl (bytes_of_string "range") (-1) = Some (Some (bytes_eq ++ t)) -> t <> [] -> Forall range_char t -> range_value cl = Some t.
Proof.
  intros Hg Ht Hc. unfold range_value. rewrite Hg. cbn [mbind option_bind default from_option]. unfold id. assert (zlen (bytes_eq ++ t) = 6 + zlen t) as Hz by (by rewrite zlen_app).
  pose proof (zlen_nonneg t). rewrite Hz, (proj2 (Z.eqb_neq _ _)) by lia. unfold iwn_wf_header_val_part_find. rewrite Z.sub_0_r.
  assert (_header_parse_next_parameter2 true (bytes_eq ++ t) 0 (6 + zlen t) = Some (bytes_eq ++ t, Some (6 + zlen t, mkParam 0 5 (Some 6) (zlen t)))) as Ep.
  - unfold _header_parse_next_parameter2. rewrite (proj2 (Z.leb_gt _ _)) by lia. change (rd (bytes_eq ++ t) 0) with (Some 98). cbn [mbind option_bind]. change (_c_is_lsep 98) with false. cbv iota. rewrite Z.sub_0_r.
    replace (Z.to_nat (6 + zlen t)) with (length (bytes_of_string "bytes") + (1 + length t))%nat by (unfold zlen; cbn; lia). unfold pst_start.
    pose proof (run_key true (bytes_of_string "bytes") [] (61 :: t) (6 + zlen t) (1 + length t) false false 0 None None) as Ek. change (zlen (@nil Z)) with 0 in Ek. cbn [app] in Ek.
    change (bytes_eq ++ t) with (bytes_of_string "bytes" ++ 61 :: t). rewrite Ek; [|repeat constructor; left; done|lia|change (zlen (bytes_of_string "bytes")) with 5; lia]. clear Ek.
    change (0 + zlen (bytes_of_string "bytes")) with (zlen (bytes_of_string "bytes")). cbn [Nat.add].
    rewrite (loop_go true (bytes_of_string "bytes") 61 t (6 + zlen t) _ (mkPst 6 false false false false 0 5 (Some 6) None)); [|done|cbn [s_rp]; change (zlen (bytes_of_string "bytes")) with 5; lia|done].
    pose proof (run_value true t bytes_eq [] (6 + zlen t) 0 false false 0 5 (Some 6) None Hc) as Ev. rewrite app_nil_r, Nat.add_0_r in Ev. change (zlen bytes_eq) with 6 in Ev.
    change (bytes_of_string "bytes" ++ 61 :: t) with (bytes_eq ++ t). rewrite Ev by lia. cbn [param_loop s_rp]. rewrite Z.ltb_irrefl. cbn [mbind option_bind s_ve s_vs s_escaped s_rp s_ks s_ke]. destruct t as [|x t]; [done|].
    replace (6 + zlen (x :: t) - 6) with (zlen (x :: t)) by lia. done.
  - cbn [part_find_loop]. rewrite Z.eqb_refl, Ep. cbn [mbind option_bind pk_len pk]. change (5 =? zlen (cstr (bytes_of_string "bytes"))) with true. cbv iota.
    assert (strncmp_at (bytes_eq ++ t) 0 (cstr (bytes_of_string "bytes") ++ [0]) (zlen (cstr (bytes_of_string "bytes"))) = Some true) as ->.
    { pose proof (strncmp_at_word [] (bytes_eq ++ t) (bytes_of_string "bytes")) as E. change (zlen (@nil Z)) with 0 in E. cbn [app] in E. change (cstr (bytes_of_string "bytes")) with (bytes_of_string "bytes"). etransitivity; [apply E|]; [by repeat constructor|change (zlen (bytes_of_string "bytes")) with 5; lia|].
      rewrite bool_decide_true; [done|]. by exists (61 :: t). }
    cbn [mbind option_bind pv pv_len]. rewrite Hz, (proj2 (Z.leb_le (6 + zlen t) (6 + zlen t))) by lia. change (0 <=? 6) with true. cbn [andb]. f_equal. change 6 with (zlen bytes_eq) at 1 2.
    replace (bytes_eq ++ t) with (bytes_eq ++ t ++ []) by (by rewrite app_nil_r). apply slice_app.
Qed.

(** ** The whole response *)

(** The fields an application has set, the last one first. *)
Fixpoint fields (sets : list (string * list Z)) (old : list Z -> option (list Z)) (n : list Z) : option (list Z) :=
  match sets with
  | [] => old n
  | (k, x) :: sets => if strcaseeq (bytes_of_string k) n then Some x else fields sets old n
  end.
Fixpoint set_fields (sets : list (string * list Z)) (cl : client) : client :=
  match sets with
  | [] => cl
  | (k, x) :: sets => iwn_http_response_header_set (set_fields sets cl) (bytes_of_string k) x (zlen x)
  end.

Abbreviation plain := (Forall (fun c => c <> 0)).

Lemma set_fields_get sets cl n : Forall (fun kv => plain kv.2) sets -> get_header (set_fields sets cl).(c_response).(r_headers) n = fields sets (get_header cl.(c_response).(r_headers)) n.
Proof.
  intros Hs. induction sets as [|[k x] sets IH]; [done|]. apply Forall_cons in Hs as [Hx Hs]. cbn [set_fields fields snd] in *. etransitivity; [apply header_set_get|]. rewrite arg_len_all, cstr_nonzero by done.
  destruct (strcaseeq _ _); [done|]. by apply IH.
Qed.

Lemma set_fields_rest sets cl : let cl' := set_fields sets cl in
  cl'.(c_flags) = cl.(c_flags) /\ cl'.(c_stream) = cl.(c_stream) /\ cl'.(c_tokens) = cl.(c_tokens) /\ cl'.(c_completed) = cl.(c_completed) /\ cl'.(c_response).(r_code) = cl.(c_response).(r_code).
Proof. induction sets as [|[k x] sets IH]; [done|]. cbn [set_fields]. exact IH. Qed.

Lemma header_set_str cl name x : plain x -> iwn_http_response_header_set cl name x (-1) = iwn_http_response_header_set cl name x (zlen x).
Proof. intros Hx. unfold iwn_http_response_header_set. rewrite arg_len_all. change (arg_len x (-1)) with (cstr x). by rewrite cstr_nonzero. Qed.

Lemma get_request_same cl cl' name len : cl'.(c_stream) = cl.(c_stream) -> cl'.(c_tokens) = cl.(c_tokens) -> iwn_http_request_header_get cl' name len = iwn_http_request_header_get cl name len.
Proof. intros E1 E2. unfold iwn_http_request_header_get. by rewrite E1, E2. Qed.

Lemma cstr_plain l : plain (cstr l).
Proof. induction l as [|c l IH]; [constructor|]. cbn [cstr]. destruct (Z.eqb_spec c 0); [constructor|by constructor]. Qed.
Lemma ctype_plain t : plain (ctype_of t).
Proof. unfold ctype_of. destruct (_ =? 0); [by repeat constructor|]. apply Forall_take, cstr_plain. Qed.

Section Delivery.
Context {V A : Type} (base : session_ops V) `{!NetSink (A := A) base} (rops : read_ops (V * fctx)) (sp : spec) (F : nat).
Abbreviation ops := (stream_ops base F file_cb).

Definition delivered (v : V) (code : Z) (reason : list Z) (old : list Z -> option (list Z)) (sets : list (string * list Z)) (body : list Z) (keep : bool) (u : V * fctx) (cl : client) : Prop :=
  exists n u' cl' hs, writable ops rops sp F n u cl = Some (u', cl') /\
    sk_wire u'.1 = sk_wire v ++ reply_text code reason (base.(server_time) v) hs body /\
    (forall name, get_header hs name = if strcaseeq (bytes_of_string "connection") name then Some (connection_value keep) else fields sets old name) /\
    (if keep then cl'.(c_state) = HTTP_SESSION_INIT else has_flag cl' HTTP_END_SESSION = true).

(** From the last header to the wire. *)
Lemma finish_delivered v c cl cl0 sets code code' cb bs keep reason :
  stream_ready cl -> keeps cl = Some keep -> cl.(c_response).(r_code) = code -> 0 < code -> _status_text code = Some reason ->
  (forall name, get_header cl.(c_response).(r_headers) name = fields sets (get_header cl0.(c_response).(r_headers)) name) -> hands cb c bs -> (length bs < F)%nat ->
  exists u1 cl1, finish_response base F false code' cb (v, c) cl = Some (u1, cl1, true) /\ delivered v code reason (get_header cl0.(c_response).(r_headers)) sets (concat bs) keep u1 cl1.
Proof.
  intros Hr Hk Hcode Hpos Hreason Hh Hb HF. rewrite <- Hcode in *. destruct (stream_delivered base rops sp F file_cb v c cl cb bs keep reason Hr Hk Hpos Hreason Hb HF) as (n & u' & cl' & hs & E & Hw & Hhs & Hfin).
  cbn [finish_response]. destruct (iwn_http_response_stream_start ops F (v, c) cl (Some cb)) as [[u1 cl1]|]; [|done]. cbn [mbind option_bind] in E |- *. exists u1, cl1. split; [done|].
  exists n, u', cl', hs. split; [done|]. split; [done|]. split; [|done]. intros name. rewrite Hhs. destruct (strcaseeq _ _); [done|]. apply Hh.
Qed.

Lemma same_ready cl cl' : stream_ready cl -> cl'.(c_flags) = cl.(c_flags) -> cl'.(c_completed) = cl.(c_completed) -> stream_ready cl'.
Proof. intros [A1 A2 A3] E1 E2. constructor; [by rewrite E1|unfold has_flag in *; by rewrite E1|by rewrite E2]. Qed.
Lemma same_keeps cl cl' keep : keeps cl = Some keep -> cl'.(c_flags) = cl.(c_flags) -> cl'.(c_stream) = cl.(c_stream) -> cl'.(c_tokens) = cl.(c_tokens) -> keeps cl' = Some keep.
Proof. intros Hk E1 E2 E3. apply (keeps_same cl); [done..|]. by rewrite E1. Qed.

Definition length_field (n : Z) : string * list Z := ("content-length"%string, print_int n).
Definition type_field (t : list Z) : string * list Z := ("content-type"%string, t).

(** A file without ranges. *)
Lemma norange_served v c cl0 sets cl content keep reason :
  cl = set_fields sets cl0 -> Forall (fun kv => plain kv.2) sets -> stream_ready cl0 -> keeps cl0 = Some keep -> 0 < cl0.(c_response).(r_code) -> _status_text cl0.(c_response).(r_code) = Some reason ->
  c.(fx_file) = mkFile content 0 -> c.(fx_size) = zlen content -> plain c.(fx_ctype) -> (length content + 1 < F)%nat ->
  exists u1 cl1, _file_serve_norange base F false v c cl = Some (u1, cl1, true) /\
    delivered v cl0.(c_response).(r_code) reason (get_header cl0.(c_response).(r_headers)) (length_field (zlen content) :: type_field c.(fx_ctype) :: sets) content keep u1 cl1.
Proof.
  intros -> Hs Hr Hk Hpos Hreason Ef Es Hct HF. destruct (file_pieces (length content) content c 0) as (bs & Hb & Hbs & Hl); [unfold zlen; lia|done|pose proof (zlen_nonneg content); lia|]. rewrite slice_full in Hbs.
  unfold _file_serve_norange. rewrite header_set_str by done. rewrite Es. set (sets2 := length_field (zlen content) :: type_field (fx_ctype c) :: sets).
  change (iwn_http_response_header_i64_set _ _ (zlen content)) with (set_fields sets2 cl0). destruct (set_fields_rest sets2 cl0) as (E1 & E2 & E3 & E4 & E5). rewrite <- Hbs. apply finish_delivered.
  - by apply (same_ready cl0).
  - by apply (same_keeps cl0).
  - done.
  - done.
  - done.
  - intros name. apply set_fields_get. constructor; [apply print_int_nonzero, zlen_nonneg|]. by constructor.
  - done.
  - lia.
Qed.

Definition with_code (cl : client) (code : Z) : client := let r := cl.(c_response) in {| cl with c_response := {| r with r_code := code |} |}.

Lemma content_range_plain a b n : 0 <= a -> 0 <= b -> 0 <= n -> plain (content_range a b n).
Proof. intros Ha Hb Hn. unfold content_range. repeat (apply Forall_app; split); try (by apply print_int_nonzero); by repeat constructor. Qed.

Definition range_field (size : Z) (x : rspec) : string * list Z := ("content-range"%string, content_range (interval size x).1 (interval size x).2 size).

(** One range. *)
Lemma single_served v c cl0 sets cl content x keep :
  cl = set_fields sets cl0 -> Forall (fun kv => plain kv.2) sets -> stream_ready cl0 -> keeps cl0 = Some keep ->
  over content c -> spec_ok x -> fits (zlen content) x -> zlen content < INT64_MAX -> plain c.(fx_ctype) -> (length content + 1 < F)%nat ->
  exists u1 cl1, _file_serve_range_single base F false v c (spec_range x) [] cl = Some (u1, cl1, true) /\
    delivered v 206 (bytes_of_string "Partial Content") (get_header cl0.(c_response).(r_headers))
      (range_field (zlen content) x :: length_field (zlen (range_bytes content x)) :: type_field c.(fx_ctype) :: sets) (range_bytes content x) keep u1 cl1.
Proof.
  intros -> Hs Hr Hk Hov Hx Hf Hmax Hct HF. pose proof (interval_range _ x Hx Hf) as Hi. unfold _file_serve_range_single. rewrite (range_accepted content c x Hov Hx Hf Hmax). destruct Hov as (_ & _ & Es).
  unfold range_field. assert (zlen (range_bytes content x) = (interval (zlen content) x).2 - (interval (zlen content) x).1 + 1) as Hz by (unfold range_bytes; rewrite slice_length by lia; lia).
  unfold range_bytes in *. destruct (interval (zlen content) x) as [st en]. cbn [fst snd] in *. set (n := en - st + 1) in *. cbn [fx_file fx_ranges fx_ctype fx_size rg_to_read]. rewrite header_set_str by done. rewrite Es, Hz.
  set (c2 := mkFctx _ _ _ _ _ _). destruct (single_pieces (Z.to_nat n) content c2 st (spec_ends x).1 (spec_ends x).2 n []) as (bs & Hb & Hbs & Hl); [lia|done|lia|lia|lia|].
  replace (en + 1) with (st + n) by lia. rewrite <- Hbs. set (sets2 := length_field n :: type_field (fx_ctype c) :: sets). set (text := content_range st en (zlen content)).
  change (let '(cl, _) := _ in _) with (finish_response base F false 206 CB_SINGLE (v, c2) (set_fields [("content-range"%string, text)] (with_code (set_fields sets2 cl0) 206))).
  destruct (set_fields_rest [("content-range"%string, text)] (with_code (set_fields sets2 cl0) 206)) as (E1 & E2 & E3 & E4 & E5). destruct (set_fields_rest sets2 cl0) as (G1 & G2 & G3 & G4 & G5).
  apply finish_delivered; [apply (same_ready cl0); [done|by rewrite E1|by rewrite E4]|apply (same_keeps cl0); [done|by rewrite E1|by rewrite E2|by rewrite E3]|done|lia|done| |done|].
  - intros name. rewrite (set_fields_get [("content-range"%string, text)]) by (constructor; [apply content_range_plain; lia|constructor]). cbn [fields]. destruct (strcaseeq _ _); [done|]. change (c_response (with_code (set_fields sets2 cl0) 206)).(r_headers) with (c_response (set_fields sets2 cl0)).(r_headers).
    rewrite (set_fields_get sets2 cl0); [done|]. constructor; [apply print_int_nonzero; lia|]. by constructor.
  - unfold zlen in *. lia.
Qed.

Definition multi_field (b : list Z) : string * list Z := ("content-type"%string, bytes_of_string "multipart/byteranges; boundary=" ++ [34] ++ b ++ [34]).

Lemma boundary_plain rnd b : _boundary_fill rnd = Some (Some b) -> plain b.
Proof.
  unfold _boundary_fill. destruct rnd as [bytes|]; [|done]. destruct (sid_fill_ok (take (Z.to_nat (BOUNDARY_MAX - 1)) bytes)) as (s & -> & _ & Hs). cbn [mbind option_bind]. intros [= <-].
  eapply Forall_impl; [exact Hs|]. intros c Hc ->. revert Hc. rewrite list_elem_of_In. vm_compute. intuition discriminate.
Qed.

Lemma closed_keeps cl : keeps (iwn_http_connection_set_keep_alive cl false) = Some false.
Proof.
  unfold keeps, iwn_http_connection_set_keep_alive, has_flag, clear_flag. cbn [c_flags]. assert (forall fl m m', Z.land (Z.ldiff (Z.ldiff fl m) m') m = 0 /\ Z.land (Z.ldiff fl m') m' = 0) as H.
  { intros fl m m'. split; apply Z.bits_inj'; intros n Hn; rewrite Z.land_spec, !Z.ldiff_spec, Z.bits_0; by destruct (Z.testbit fl n), (Z.testbit m n), (Z.testbit m' n). }
  rewrite (proj1 (H (c_flags cl) HTTP_AUTOMATIC HTTP_KEEP_ALIVE)), (proj2 (H (Z.ldiff (c_flags cl) HTTP_AUTOMATIC) HTTP_AUTOMATIC HTTP_KEEP_ALIVE)). done.
Qed.

(** Several ranges. *)
Lemma multiple_served v c cl0 sets cl content xs rnd b :
  cl = set_fields sets cl0 -> Forall (fun kv => plain kv.2) sets -> stream_ready cl0 ->
  over content c -> c.(fx_ranges) = spec_range <$> xs -> c.(fx_processed) = false -> Forall spec_ok xs -> Forall (fits (zlen content)) xs -> zlen content < INT64_MAX ->
  _boundary_fill rnd = Some (Some b) -> (length xs * (length content + 1) + 1 < F)%nat ->
  exists u1 cl1, _file_serve_ranges_multiple base F false rnd v c cl = Some (u1, cl1, true) /\
    delivered v 206 (bytes_of_string "Partial Content") (get_header cl0.(c_response).(r_headers)) (multi_field b :: sets) (parts_text content b c.(fx_ctype) false xs) false u1 cl1.
Proof.
  intros -> Hs [R1 R2 R3] Hov Hrs Hpr Hx Hf Hmax Hb HF. unfold _file_serve_ranges_multiple. rewrite Hb. cbn [mbind option_bind]. set (c2 := mkFctx _ _ _ _ _ _).
  destruct (parts_pieces content xs c2) as (bs & Hp & Hbs & Hl); [done|done|done|done|done|]. cbn [c2 fx_boundary fx_ctype fx_processed] in Hbs. rewrite Hpr in Hbs. rewrite <- Hbs. set (text := bytes_of_string "multipart/byteranges; boundary=" ++ [34] ++ b ++ [34]).
  set (cl2 := iwn_http_connection_set_keep_alive (with_code (set_fields sets cl0) 206) false).
  change (let '(cl, _) := iwn_http_response_code_set (set_fields sets cl0) 206 in _) with (finish_response base F false 206 CB_PART (v, c2) (set_fields [("content-type"%string, text)] cl2)).
  destruct (set_fields_rest [("content-type"%string, text)] cl2) as (E1 & E2 & E3 & E4 & E5). destruct (set_fields_rest sets cl0) as (G1 & G2 & G3 & G4 & G5).
  assert (forall m, Z.land HTTP_AUTOMATIC m = 0 -> Z.land HTTP_KEEP_ALIVE m = 0 -> Z.land (c_flags (set_fields [("content-type"%string, text)] cl2)) m = Z.land (c_flags cl0) m) as Hm.
  { intros m H1 H2. rewrite E1. unfold cl2, iwn_http_connection_set_keep_alive, clear_flag, with_code. cbn [c_flags]. rewrite !land_bits_ldiff by done. by rewrite G1. }
  apply finish_delivered; [constructor; [by rewrite Hm|unfold has_flag in *; by rewrite Hm|rewrite E4; unfold cl2; cbn; by rewrite G4]|apply (same_keeps cl2); [apply closed_keeps|done..]|done|lia|done| |done|lia].
  intros name. rewrite (set_fields_get [("content-type"%string, text)]). 2: { constructor; [|constructor]. cbn [snd]. unfold text. pose proof (boundary_plain rnd b Hb). repeat (apply Forall_app; split); try done; by repeat constructor. }
  cbn [fields multi_field]. fold text. destruct (strcaseeq _ _); [done|]. change (c_response cl2).(r_headers) with (c_response (set_fields sets cl0)).(r_headers). by apply set_fields_get.
Qed.
End Delivery.

(** What the response to a request for a file is, by the ranges that are asked for. *)
Definition file_code (old : Z) (xs : list rspec) : Z := match xs with [] => old | _ => 206 end.
Definition file_body (content boundary ctype : list Z) (xs : list rspec) : list Z :=
  match xs with [] => content | [x] => range_bytes content x | _ => parts_text content boundary ctype false xs end.
Definition ranges_field : string * list Z := ("accept-ranges"%string, bytes_of_string "bytes").
Definition file_fields (content : list Z) (mtime : Z) (boundary ctype : list Z) (xs : list rspec) : list (string * list Z) :=
  match xs with
  | [] => [length_field (zlen content); type_field ctype; ranges_field; ("etag"%string, _etag_fill (zlen content) mtime)]
  | [x] => [range_field (zlen content) x; length_field (zlen (range_bytes content x)); type_field ctype; ranges_field]
  | _ => [multi_field boundary; ranges_field]
  end.
Definition file_keep (keep : bool) (xs : list rspec) : bool := match xs with [] | [_] => keep | _ => false end.
Definition range_header (xs : list rspec) : option (list Z) := match xs with [] => None | _ => Some (bytes_eq ++ specs_text xs) end.

Lemma print_nat_plain n : 0 <= n -> plain (print_nat 16 n).
Proof. intros Hn. apply (print_base_all 16 ltac:(lia)); [|lia|constructor]. intros d Hd. unfold digit_char. destruct (d <? 10); lia. Qed.

Lemma etag_plain size mtime : plain (_etag_fill size mtime).
Proof.
  assert (forall s, plain s -> plain (pad4 s)) as Hp by (intros s Hs; unfold pad4; apply Forall_app; split; [by apply Forall_replicate|done]).
  assert (forall n, plain (print_nat 16 (u32 n))) as Hn by (intros n; apply print_nat_plain; pose proof (uwrap_range 32 n ltac:(lia)); lia).
  unfold _etag_fill. apply Forall_app. split; [apply Hp, Hn|]. apply Forall_app. split; [by repeat constructor|apply Hp, Hn].
Qed.

Section File.
Context {V A : Type} (base : session_ops V) `{!NetSink (A := A) base} (rops : read_ops (V * fctx)) (sp : spec) (F : nat).

(** C25. A file reaches the peer: [iwn_wf_file_serve] of a regular file, for a request without a range or with a list of ranges of the file, handles the request; and as the transport becomes writable the wire gets one response whose body is the whole file, the bytes of the range, or the multipart text with the bytes of all ranges in the order of the request, under the status code, the length, the range and the type that belong to it. *)
Theorem file_delivered v cl content mtime ctype rnd boundary mem xs keep reason :
  stream_ready cl -> keeps cl = Some keep -> 0 < cl.(c_response).(r_code) -> _status_text (file_code cl.(c_response).(r_code) xs) = Some reason ->
  zlen content < INT64_MAX -> Forall spec_ok xs -> Forall (fits (zlen content)) xs -> (length xs <= mem)%nat ->
  iwn_http_request_header_get cl (bytes_of_string "range") (-1) = Some (range_header xs) ->
  (exists m, iwn_http_request_header_get cl (bytes_of_string "if-none-match") 13 = Some m /\ default [] m <> _etag_fill (zlen content) mtime) ->
  _boundary_fill rnd = Some (Some boundary) -> (length xs * (length content + 1) + length content + 1 < F)%nat ->
  exists v1 c1 cl1, iwn_wf_file_serve base F false mem rnd ctype (Some (zlen content, mtime)) (Some content) v cl = Some (v1, Some c1, cl1, 1) /\
    delivered base rops sp F v (file_code cl.(c_response).(r_code) xs) reason (get_header cl.(c_response).(r_headers))
      (file_fields content mtime boundary (ctype_of ctype) xs) (file_body content boundary (ctype_of ctype) xs) (file_keep keep xs) (v1, c1) cl1.
Proof using All.
  intros Hr Hk Hpos Hreason Hmax Hx Hf Hmem Hrange (m & Hinm & Hne) Hb HF. unfold iwn_wf_file_serve, _wf_file_serve. pose proof (ctype_plain ctype) as Hct. destruct xs as [|x xs].
  - assert (range_value cl = Some []) as -> by (unfold range_value; by rewrite Hrange). cbn [mbind option_bind]. change (zlen [] =? 0) with true. rewrite andb_false_r. cbv iota. set (etag := _etag_fill (zlen content) mtime) in *.
    set (sets := [ranges_field; ("etag"%string, etag)]). rewrite (get_request_same cl) by done. rewrite Hinm. cbn [mbind option_bind]. rewrite bool_decide_false by done.
    set (c := mkFctx _ _ _ _ _ _). destruct (norange_served base rops sp F v c cl sets (set_fields sets cl) content keep reason) as ([v1 c1] & cl1 & E & Hd);
      [done|constructor; [by repeat constructor|constructor; [apply etag_plain|constructor]]|done|done|done|done|done|done|done|lia|].
    change (_file_serve base F false rnd v c _) with (_file_serve_norange base F false v c (set_fields sets cl)). rewrite E. exists v1, c1, cl1. split; [done|exact Hd].
  - pose proof Hx as [Hx1 Hxs]%Forall_cons. pose proof Hf as [Hf1 Hfs]%Forall_cons. pose proof (interval_range _ x Hx1 Hf1) as Hi. set (t := specs_text (x :: xs)) in *.
    assert (t <> []) as Ht by (by apply specs_nonempty). rewrite (range_value_reads cl t Hrange Ht) by (by apply specs_chars). cbn [mbind option_bind].
    assert (0 < zlen t) as Hz by (destruct t; [done|]; rewrite zlen_cons; pose proof (zlen_nonneg t); lia). rewrite (proj2 (Z.ltb_lt 0 (zlen content))), (proj2 (Z.eqb_neq (zlen t) 0)) by lia. cbn [andb negb].
    assert (length xs < S (length t))%nat as Hfuel.
    { unfold t. cbn [specs_text]. rewrite length_app. assert (length xs <= length (more_specs xs))%nat; [|lia]. clear. unfold more_specs. induction xs as [|y xs IH]; csimpl; [lia|]. rewrite length_app. lia. }
    pose proof (ranges_read xs x (S (length t)) mem [] Hx Hfuel ltac:(cbn in Hmem; lia)) as Hrr. fold t in Hrr. rewrite Hrr. cbn [mbind option_bind app]. set (c := mkFctx _ _ _ _ _ _). set (sets := [ranges_field]).
    assert (Forall (fun kv => plain kv.2) sets) as Hsets by (by repeat constructor). assert (over content c) as Hov by done.
    destruct xs as [|y xs].
    + destruct (single_served base rops sp F v c cl sets (set_fields sets cl) content x keep) as ([v1 c1] & cl1 & E & Hd); [done|done|done|done|done|done|done|done|done|cbn in HF; lia|].
      change (_file_serve base F false rnd v c _) with (_file_serve_range_single base F false v c (spec_range x) [] (set_fields sets cl)). rewrite E. exists v1, c1, cl1. split; [done|]. injection Hreason as <-. exact Hd.
    + destruct (multiple_served base rops sp F v c cl sets (set_fields sets cl) content (x :: y :: xs) rnd boundary) as ([v1 c1] & cl1 & E & Hd); [done|done|done|done|done|done|done|done|done|done|lia|].
      change (_file_serve base F false rnd v c _) with (_file_serve_ranges_multiple base F false rnd v c (set_fields sets cl)). rewrite E. exists v1, c1, cl1. split; [done|]. injection Hreason as <-. exact Hd.
Qed.
End File.

(** A request for two ranges of a file of five bytes. *)
Definition range_request (text : string) : client :=
  let cl := _client_init client_accepted in
  let buf := bytes_of_string "range: " ++ bytes_of_string text in
  {| cl with c_stream := mkStream buf token_zero 0 (zlen buf) (zlen buf) 0 0 false; c_tokens := [mkToken 0 5 HS_TOK_HEADER_KEY; mkToken 7 (zlen buf - 7) HS_TOK_HEADER_VAL] |}.
Definition two_ranges : list rspec := [FromTo (bytes_of_string "1") (bytes_of_string "2"); Last (bytes_of_string "1")].
Definition file_reads : read_ops (list Z * fctx) := mkReadOps (fun u _ => (u, inl (-1))) (fun _ _ => None) (fun _ => false).

Lemma file_delivered_witness :
  let b := replicate 31 97 in
  range_header two_ranges = Some (bytes_of_string "bytes=1-2,-1") /\
  exists v1 c1 cl1, iwn_wf_file_serve ten_ops 30 false 2 (Some (replicate 32 0)) None (Some (5, 7)) (Some (bytes_of_string "hello")) [] (range_request "bytes=1-2,-1") = Some (v1, Some c1, cl1, 1) /\
    delivered ten_ops file_reads (mkSpec 0 0 0 0) 30 [] 206 (bytes_of_string "Partial Content") (get_header [])
      [multi_field b; ranges_field] (parts_text (bytes_of_string "hello") b (bytes_of_string "application/octet-stream") false two_ranges) false (v1, c1) cl1.
Proof.
  intros b. split; [reflexivity|]. refine (file_delivered ten_ops file_reads (mkSpec 0 0 0 0) 30 [] (range_request "bytes=1-2,-1") (bytes_of_string "hello") 7 None (Some (replicate 32 0)) b 2 two_ranges false (bytes_of_string "Partial Content") _ _ _ _ _ _ _ _ _ _ _ _).
  - constructor; reflexivity.
  - vm_compute. reflexivity.
  - reflexivity.
  - reflexivity.
  - vm_compute. reflexivity.
  - repeat constructor; vm_compute; try discriminate; intuition discriminate.
  - repeat constructor; vm_compute; try discriminate; intuition discriminate.
  - cbn. lia.
  - vm_compute. reflexivity.
  - exists None. split; [vm_compute; reflexivity|vm_compute; discriminate].
  - vm_compute. reflexivity.
  - cbn. lia.
Defined.

(** ** Directories *)

Lemma has_dots_spec p : has_dots p = true <-> exists a b, p = a ++ [46; 46] ++ b.
Proof.
  induction p as [|x p IH]; [split; [done|]; intros (a & b & E); by destruct a|]. assert (has_dots (x :: p) = bool_decide (x = 46 /\ head p = Some 46) || has_dots p) as ->.
  { destruct (decide (x = 46)) as [->|Hx].
    - destruct p as [|y p]; [done|]. destruct (decide (y = 46)) as [->|Hy]; [by rewrite bool_decide_true|]. rewrite bool_decide_false by (cbn; intros [_ [= E]]; done). cbn [orb].
      cbn [has_dots]. destruct y as [|y|y]; try done. repeat (destruct y as [y|y|]; try done).
    - rewrite bool_decide_false by (by intros [? _]). cbn [orb has_dots]. destruct x as [|x|x]; try done. repeat (destruct x as [x|x|]; try done). }
  rewrite orb_true_iff, IH, bool_decide_eq_true. split.
  - intros [[-> Hp]|(a & b & ->)]; [destruct p as [|y p]; [done|]; injection Hp as ->; by exists [], p|by exists (x :: a), b].
  - intros (a & b & E). destruct a as [|y a]; injection E as -> ->; [by left|right; by exists a, b].
Qed.

Section Dirs.
Context {V : Type} (base : session_ops V) (F : nat) (mime : list Z -> option (list Z)).

(** C26. A directory is never left upwards: the answer to a request for a file of a directory depends on nothing but the files whose path is the directory and a rest without two dots in a row, in particular not on any file of another path; and the path is put together inside of its buffer unless it has exactly its length. *)
Theorem dir_confined (stat1 stat2 : list Z -> option (Z * Z)) (open1 open2 : list Z -> option (list Z)) dir mem rnd flags path v cl :
  (forall rest, ~ (exists a b, rest = a ++ [46; 46] ++ b) -> zlen dir + zlen rest < FPATH_MAX -> stat1 (dir ++ rest) = stat2 (dir ++ rest) /\ open1 (dir ++ rest) = open2 (dir ++ rest)) ->
  _handler_dir_attach base F mime stat1 open1 dir mem rnd flags path v cl = _handler_dir_attach base F mime stat2 open2 dir mem rnd flags path v cl /\
  (zlen dir + zlen path <> FPATH_MAX -> stat1 (dir ++ path) = None -> _handler_dir_attach base F mime stat1 open1 dir mem rnd flags path v cl = Some (v, None, cl, 0)).
Proof.
  intros Hsame. unfold _handler_dir_attach. destruct (_ || _); [done|]. destruct (has_dots path) eqn:Hd; [done|]. assert (~ (exists a b, path = a ++ [46; 46] ++ b)) as Hn by (rewrite <- has_dots_spec, Hd; done).
  destruct (Z.ltb_spec FPATH_MAX (zlen dir + zlen path)); [done|]. destruct (Z.leb_spec FPATH_MAX (zlen dir + zlen path)); [split; [done|]; intros ?; lia|].
  destruct (Hsame path Hn) as [-> ->]; [lia|]. split; [done|]. by intros _ ->.
Qed.
End Dirs.

Lemma dir_confined_witness : let stat_ (p : list Z) := if bool_decide (p = bytes_of_string "/etc/passwd") then Some (1, 1) else None in
  _handler_dir_attach ten_ops 5 (fun _ => None) stat_ (fun _ => Some [65]) (bytes_of_string "/srv") 1 None IWN_WF_GET (bytes_of_string "/../etc/passwd") [] (_client_init client_accepted) =
  _handler_dir_attach ten_ops 5 (fun _ => None) (fun _ => None) (fun _ => Some [65]) (bytes_of_string "/srv") 1 None IWN_WF_GET (bytes_of_string "/../etc/passwd") [] (_client_init client_accepted).
Proof.
  intros stat_. refine (proj1 (dir_confined ten_ops 5 (fun _ => None) stat_ (fun _ => None) (fun _ => Some [65]) (fun _ => Some [65]) (bytes_of_string "/srv") 1 None IWN_WF_GET (bytes_of_string "/../etc/passwd") [] (_client_init client_accepted) _)).
  intros rest _ _. split; [|reflexivity]. unfold stat_. rewrite bool_decide_false; [reflexivity|]. intros E. discriminate E.
Defined.

(** ** Where the code goes wrong *)

(** A range that ends behind the file: the announced length is longer than the body. *)
Example range_behind_file :
  let c := mkFctx (mkFile (bytes_of_string "hello") 0) [] 5 false [] [] in
  let '(c, r, a) := _file_server_accept_range c (spec_range (FromTo (bytes_of_string "2") (bytes_of_string "99"))) in
  a = Some (2, 99) /\ r.(rg_to_read) = 98 /\ (fun x => x.2) <$> _file_serve_range_single_cb {| c with fx_ranges := [r] |} = Some (bytes_of_string "llo", None).
Proof. vm_compute. done. Qed.

(** A space behind the comma of a list of ranges ends the value, and the rest is refused. *)
Example space_behind_comma :
  range_value (range_request "bytes=0-1, 3-4") = Some (bytes_of_string "0-1,") /\ fst <$> _ranges_parse 5 5 (Some (bytes_of_string "0-1,")) [] = Some false.
Proof. vm_compute. done. Qed.

(** The last bytes of a file that is shorter: refused. *)
Example long_tail_refused : (_file_server_accept_range (mkFctx (mkFile (bytes_of_string "hello") 0) [] 5 false [] []) (spec_range (Last (bytes_of_string "9")))).2 = None.
Proof. reflexivity. Qed.

(** A number that does not fit into 64 bits overflows. *)
Example range_overflow : _ranges_parse 5 5 (Some (bytes_of_string "9223372036854775808-")) [] = None.
Proof. vm_compute. reflexivity. Qed.

(** A path of exactly the length of the buffer: its terminator is written behind it. *)
Example path_overflow :
  _handler_dir_attach ten_ops 5 (fun _ => None) (fun _ => None) (fun _ => None) (bytes_of_string "/srv") 1 None IWN_WF_GET (replicate 4092 97) [] (_client_init client_accepted) = None.
Proof. vm_compute. reflexivity. Qed.

(** The directory and the rest of the path are joined without a separator: a sibling of the directory is reached. *)
Example sibling_reached :
  let stat_ (p : list Z) := if bool_decide (p = bytes_of_string "/srv/www-private/key") then Some (1, 1) else None in
  (fun x => x.2) <$> _handler_dir_attach ten_ops 5 (fun _ => None) stat_ (fun _ => Some [65]) (bytes_of_string "/srv/www") 1 None IWN_WF_GET (bytes_of_string "-private/key") [] (_client_init client_accepted) = Some 1.
Proof. vm_compute. reflexivity. Qed.
