(* ===== verification/Proc.v ===== *)
(** * Proc: child processes, [src/src/poller/iwn_proc.c], and the scheduler, [src/src/poller/iwn_scheduler.c]

    Processes are kept in a map from their pids with reference counts: one reference for the child itself, which the wait worker gives back,
    one for each of the slots of stdout and stderr in the poller, one for every function that works on the process.  The parts that
    hold [cc.mtx] are functions of their own, because all of them run in different threads; [proc->mtx] guards the buffer of stdin only.
    The map owns the structures, so a process is what the map has for its pid.  The callbacks of the application and what is written to
    the child are recorded in a log. *)
From S2P Require Import Prelude.

Definition FDS_STDOUT : nat := 0.
Definition FDS_STDERR : nat := 1.
Definition FDS_STDIN : nat := 2.
Definition PRC_ALLOC : Z := 1.
Definition PRC_ERRNO : Z := 2.
Definition PRC_IO : Z := 3.
Definition PRC_NOT_EXISTS : Z := 4.
Definition PRC_INVALID_ARGS : Z := 5.
Definition PRC_POLLER : Z := 6.
Definition SIGKILL : Z := 9.
Definition SIGTERM : Z := 15.

(** [struct iwn_proc_spec]; of the callbacks, whether they are set. *)
Record proc_spec := mkProcSpec {
  sp_path : option (list Z); sp_args : option (list (list Z)); sp_env : option (list (list Z)); sp_poller : bool;
  sp_stdout : bool; sp_stderr : bool; sp_exit : bool; sp_fork : bool;
  sp_write_stdin : bool; sp_pdeath : Z; sp_find : bool }.

(** [struct proc] without its pool, mutex, user data, path and [exited] flag; the flag of [buf_stdin] is its user data, "close behind the last byte". *)
Record proc := mkProc {
  p_pid : Z; p_wstatus : Z; p_refs : Z; p_argv : list (list Z); p_envp : option (list (list Z));
  p_stdin : option (list Z * bool); p_spec : proc_spec; p_fds : list Z }.

(** What the application sees, the traffic of stdin, and when a structure enters the map (with whether it has [on_exit]) and its child
    is reaped. *)
Inductive pevent :=
| EvAdded (pid : Z) (on_exit : bool)
| EvReaped (pid : Z) (wstatus : Z)
| EvOutput (pid : Z) (kind : nat) (bytes : list Z)
| EvExit (pid : Z) (wstatus : Z)
| EvFork (pid : Z)
| EvQueued (pid : Z) (bytes : list Z)
| EvFed (pid : Z) (bytes : list Z).

Section Proc.
Context {W : Type}.
Record proc_ops := mkProcOps {
  pp_read : W -> Z -> Z -> W * io (list Z);
  pp_write : W -> Z -> list Z -> W * io Z;
  pp_alloc : W -> W * bool;
  pp_pipe : W -> W * option (Z * Z);
  pp_nonblock : W -> Z -> W * bool;
  pp_add : W -> Z -> W * bool;
  pp_arm : W -> Z -> W * bool;
  pp_remove : W -> Z -> W;
  pp_close : W -> Z -> W;
  pp_kill : W -> Z -> Z -> W;
  pp_exists : W -> Z -> bool;             (* [getpgid(pid) != -1] *)
  pp_add2 : W -> W * option Z;            (* [iwn_poller_add2] of a timer *)
  pp_stw_start : W -> W * bool;
  pp_stw_schedule : W -> W * bool }.
Context (ops : proc_ops).

(** [cc] with the world and the log; [c_stw] is whether the wait worker's thread has been started. *)
Record cc := mkCC { c_w : W; c_map : option (gmap Z proc); c_stw : bool; c_log : list pevent }.

Definition log (c : cc) (e : pevent) : cc := {| c with c_log := c.(c_log) ++ [e] |}.
Definition map_get (c : cc) (pid : Z) : option proc := m ← c.(c_map); m !! pid.
Definition map_set (c : cc) (p : proc) : cc := {| c with c_map := (fun m => <[p.(p_pid) := p]> m) <$> c.(c_map) |}.

(** ** References *)

Definition _init_lk (c : cc) : cc * Z :=
  let '(c, ok) := match c.(c_map) with
                  | Some _ => (c, true)
                  | None => let '(w, ok) := ops.(pp_alloc) c.(c_w) in ({| c with c_w := w; c_map := if ok : bool then Some ∅ else None |}, ok)
                  end in
  if negb ok then (c, PRC_ALLOC)
  else if c.(c_stw) then (c, 0)
  else let '(w, ok) := ops.(pp_stw_start) c.(c_w) in ({| c with c_w := w; c_stw := ok |}, if ok : bool then 0 else PRC_ERRNO).

Definition remove_fds (w : W) (fds : list Z) : W := fold_left (fun w fd => if -1 <? fd then ops.(pp_remove) w fd else w) fds w.
Definition _proc_destroy (w : W) (p : proc) : W := remove_fds w p.(p_fds).

(** [_proc_add]; the map destroys the structure that it had for the pid. *)
Definition _proc_add (c : cc) (p : proc) : cc * Z :=
  let '(c, rc) := _init_lk c in
  if negb (rc =? 0) then (c, rc)
  else
    let '(w, ok) := ops.(pp_alloc) c.(c_w) in
    let c := {| c with c_w := w |} in
    if negb ok then (c, PRC_ALLOC)
    else
      let c := match map_get c p.(p_pid) with Some old => {| c with c_w := _proc_destroy c.(c_w) old |} | None => c end in
      (log (map_set c {| p with p_refs := 1 |}) (EvAdded p.(p_pid) p.(p_spec).(sp_exit)), 0).

Definition _proc_ref (c : cc) (pid : Z) : cc * bool :=
  match map_get c pid with
  | None => (c, false)
  | Some p => if p.(p_refs) =? 0 then (c, false) else (map_set c {| p with p_refs := p.(p_refs) + 1 |}, true)
  end.

(** The first critical section of [_proc_unref]; the result is whether the last reference is gone. *)
Definition unref_lk (c : cc) (pid wstatus : Z) : cc * bool :=
  match map_get c pid with
  | None => (c, false)
  | Some p =>
      if p.(p_refs) =? 0 then (c, false)
      else
        let p := {| p with p_refs := p.(p_refs) - 1; p_wstatus := if wstatus =? -1 then p.(p_wstatus) else wstatus |} in
        let c := map_set c p in
        (if wstatus =? -1 then c else log c (EvReaped pid wstatus), negb (0 <? p.(p_refs)))
  end.

(** Behind it: the descriptors leave the poller, and [on_exit]. *)
Definition run_exit (c : cc) (pid : Z) : option cc :=
  p ← map_get c pid;
  let c := map_set {| c with c_w := remove_fds c.(c_w) p.(p_fds) |} {| p with p_fds := [-1; -1; -1] |} in
  Some (if p.(p_spec).(sp_exit) then log c (EvExit pid p.(p_wstatus)) else c).

(** The last critical section. *)
Definition forget_lk (c : cc) (pid : Z) : cc := {| c with c_map := base.delete pid <$> c.(c_map) |}.

Definition _proc_unref (c : cc) (pid wstatus : Z) : option cc :=
  let '(c, last) := unref_lk c pid wstatus in
  if last then c ← run_exit c pid; Some (forget_lk c pid) else Some c.

Definition iwn_proc_ref (c : cc) (pid : Z) : cc := (_proc_ref c pid).1.
Definition iwn_proc_unref (c : cc) (pid : Z) : option cc := _proc_unref c pid (-1).

(** One turn of [_proc_wait_worker]: what [wait] reports. *)
Definition _proc_wait_turn (c : cc) (reaped : option (Z * Z)) : option cc :=
  match reaped with Some (pid, wstatus) => _proc_unref c pid wstatus | None => Some c end.

(** ** Output of the child *)

(** The loop over [read]: the bytes, [rc] and [ret]. *)
Fixpoint drain (fuel : nat) (w : W) (fd : Z) (acc : list Z) : option (W * list Z * Z * Z) :=
  match fuel with
  | O => None
  | S fuel =>
      let '(w, r) := ops.(pp_read) w fd 1024 in
      match r with
      | IoAgain => Some (w, acc, 0, 0)
      | IoErr => Some (w, acc, PRC_IO, 0)
      | IoDone [] => Some (w, acc, 0, -1)
      | IoDone l =>
          let '(w, ok) := ops.(pp_alloc) w in
          if ok : bool then drain fuel w fd (acc ++ l) else Some (w, acc, PRC_ALLOC, 0)
      end
  end.

(** [_on_ready] between its reference and its unreference. *)
Definition ready_body (fuel : nat) (c : cc) (pid fd : Z) (kind : nat) : option (cc * Z) :=
  let '(w, ok) := ops.(pp_alloc) c.(c_w) in
  if negb ok then Some ({| c with c_w := w |}, -1)
  else
    '(w, bytes, rc, ret) ← drain fuel w fd [];
    let c := {| c with c_w := w |} in
    let c := if 0 <? zlen bytes then log c (EvOutput pid kind bytes) else c in
    Some (c, if rc =? 0 then ret else -1).

Definition _on_ready (fuel : nat) (c : cc) (pid fd : Z) (kind : nat) : option (cc * Z) :=
  let '(c, found) := _proc_ref c pid in
  if negb found then Some (c, -1)
  else
    '(c, ret) ← ready_body fuel c pid fd kind;
    c ← _proc_unref c pid (-1); Some (c, ret).
Definition _on_stdout_ready fuel c pid fd := _on_ready fuel c pid fd FDS_STDOUT.
Definition _on_stderr_ready fuel c pid fd := _on_ready fuel c pid fd FDS_STDERR.

(** The first descriptor equal to [fd] becomes [-1]. *)
Fixpoint clear_fd (fds : list Z) (fd : Z) : list Z :=
  match fds with [] => [] | f :: fds => if f =? fd then -1 :: fds else f :: clear_fd fds fd end.
Definition dispose_body (c : cc) (pid fd : Z) : cc :=
  match map_get c pid with Some p => map_set c {| p with p_fds := clear_fd p.(p_fds) fd |} | None => c end.

Definition _on_fd_dispose (c : cc) (pid fd : Z) : option cc :=
  let '(c, found) := _proc_ref c pid in
  c ← (if found : bool then _proc_unref (dispose_body c pid fd) pid (-1) else Some c);
  _proc_unref c pid (-1).

(** ** Input of the child *)

(** One turn of the loop of [_on_stdin_write], under [proc->mtx]; with a result the loop ends. *)
Definition feed_turn (c : cc) (pid fd : Z) : option (cc * option Z) :=
  p ← map_get c pid;
  match p.(p_stdin) with
  | None => Some (c, Some 0)
  | Some ([], close) => Some (c, Some (if close : bool then -1 else 0))
  | Some (buf, close) =>
      let '(w, r) := ops.(pp_write) c.(c_w) fd buf in
      let c := {| c with c_w := w |} in
      match r with
      | IoAgain => Some (c, Some IWN_POLLOUT)
      | IoErr => Some (c, Some (-1))
      | IoDone k =>
          if k =? 0 then Some (c, Some (-1))
          else Some (log (map_set c {| p with p_stdin := Some (drop (Z.to_nat k) buf, close) |}) (EvFed pid (take (Z.to_nat k) buf)), None)
      end
  end.
Fixpoint feed_loop (fuel : nat) (c : cc) (pid fd : Z) : option (cc * Z) :=
  match fuel with
  | O => None
  | S fuel => '(c, r) ← feed_turn c pid fd; match r with Some ret => Some (c, ret) | None => feed_loop fuel c pid fd end
  end.

Definition _on_stdin_write (fuel : nat) (c : cc) (pid fd : Z) : option (cc * Z) :=
  let '(c, found) := _proc_ref c pid in
  if negb found then Some (c, -1)
  else
    '(c, ret) ← feed_loop fuel c pid fd;
    c ← _proc_unref c pid (-1); Some (c, ret).

(** [iwn_proc_stdin_write] between its reference and its unreference. *)
Definition stdin_body (c : cc) (pid : Z) (buf : list Z) (close : bool) : option (cc * Z) :=
  p ← map_get c pid;
  let '(w, ok) := match p.(p_stdin) with Some _ => (c.(c_w), true) | None => ops.(pp_alloc) c.(c_w) end in
  let c := {| c with c_w := w |} in
  if negb ok then Some (c, PRC_ALLOC)
  else
    let '(b, cl) := default ([], false) p.(p_stdin) in
    let '(w, ok) := if 0 <? zlen buf then ops.(pp_alloc) c.(c_w) else (c.(c_w), true) in
    let c := {| c with c_w := w |} in
    if negb ok then Some (map_set c {| p with p_stdin := Some (b, cl) |}, PRC_ALLOC)
    else
      let c := log (map_set c {| p with p_stdin := Some (b ++ buf, cl || close) |}) (EvQueued pid buf) in
      fd ← p.(p_fds) !! FDS_STDIN;
      let '(w, ok) := ops.(pp_arm) c.(c_w) fd in
      Some ({| c with c_w := w |}, if ok : bool then 0 else PRC_POLLER).

Definition iwn_proc_stdin_write (c : cc) (pid : Z) (buf : list Z) (close : bool) : option (cc * Z) :=
  let '(c, found) := _proc_ref c pid in
  if negb found then Some (c, PRC_NOT_EXISTS)
  else
    '(c, rc) ← stdin_body c pid buf close;
    c ← _proc_unref c pid (-1); Some (c, rc).
Definition iwn_proc_stdin_close (c : cc) (pid : Z) : option (cc * Z) := iwn_proc_stdin_write c pid [] true.

(** ** Starting a child *)

Definition _proc_create (spec : proc_spec) : proc := mkProc (-1) (-1) 0 [] None None spec [-1; -1; -1].

(** [n] allocations, up to the first that fails. *)
Fixpoint allocs (n : nat) (w : W) : W * bool :=
  match n with O => (w, true) | S n => let '(w, ok) := ops.(pp_alloc) w in if ok : bool then allocs n w else (w, false) end.

(** A pipe whose end [mine] is polled: its two ends at [at], [at + 1] of [fds]. *)
Definition open_pipe (want : bool) (w : W) (p : proc) (fds : list Z) (at_ mine : nat) (slot : nat) : W * proc * list Z * Z :=
  if negb want then (w, p, fds, 0)
  else
    let '(w, r) := ops.(pp_pipe) w in
    match r with
    | None => (w, p, fds, PRC_ERRNO)
    | Some (rd, wr) =>
        let fds := <[at_ := rd]> (<[S at_ := wr]> fds) in
        let fd := if Nat.eqb mine at_ then rd else wr in
        let p := {| p with p_fds := <[slot := fd]> p.(p_fds) |} in
        let '(w, ok) := ops.(pp_nonblock) w fd in
        (w, p, fds, if ok : bool then 0 else PRC_ERRNO)
    end.

(** [argv] is the path followed by all of [args]. *)
Definition _proc_init (w : W) (p : proc) (path : list Z) (fds : list Z) : W * proc * list Z * Z :=
  let s := p.(p_spec) in
  let '(w, ok) := allocs (2 + length (default [] s.(sp_args)))%nat w in
  if negb ok then (w, p, fds, PRC_ALLOC)
  else
    let p := {| p with p_argv := path :: default [] s.(sp_args) |} in
    let '(w, ok) := match s.(sp_env) with Some e => allocs (1 + length e)%nat w | None => (w, true) end in
    if negb ok then (w, p, fds, PRC_ALLOC)
    else
      let p := {| p with p_envp := s.(sp_env) |} in
      let '(w, p, fds, rc) := open_pipe s.(sp_stdout) w p fds 0 0 FDS_STDOUT in
      if negb (rc =? 0) then (w, p, fds, rc)
      else
        let '(w, p, fds, rc) := open_pipe s.(sp_stderr) w p fds 2 2 FDS_STDERR in
        if negb (rc =? 0) then (w, p, fds, rc) else open_pipe s.(sp_write_stdin) w p fds 4 5 FDS_STDIN.

(** One channel of the parent: the end of the child is closed and the slot added; a channel that cannot be added is closed. *)
Definition add_channel (c : cc) (pid theirs mine : Z) (slot : nat) : cc * bool :=
  let '(w, ok) := ops.(pp_add) (ops.(pp_close) c.(c_w) theirs) mine in
  let c := {| c with c_w := w |} in
  if ok : bool then (c, true)
  else
    match map_get c pid with
    | Some p =>
        (map_set {| c with c_w := match p.(p_fds) !! slot with Some fd => ops.(pp_close) w fd | None => w end |} {| p with p_fds := <[slot := -1]> p.(p_fds) |}, false)
    | None => (c, false)
    end.

(** The parent behind [_proc_add]: a reference for stdout and stderr each, taken when the slot is in the poller already. *)
Definition spawn_channels (c : cc) (pid : Z) (fds : list Z) : option cc :=
  f0 ← fds !! 0%nat; f1 ← fds !! 1%nat; f2 ← fds !! 2%nat; f3 ← fds !! 3%nat; f4 ← fds !! 4%nat; f5 ← fds !! 5%nat;
  let '(c, ok) := if -1 <? f1 then add_channel c pid f1 f0 FDS_STDOUT else (c, false) in
  let c := if ok : bool then (_proc_ref c pid).1 else c in
  let '(c, ok) := if -1 <? f3 then add_channel c pid f3 f2 FDS_STDERR else (c, false) in
  let c := if ok : bool then (_proc_ref c pid).1 else c in
  Some (if -1 <? f4 then (add_channel c pid f4 f5 FDS_STDIN).1 else c).

(** [fork] in the parent: [pid], or [-1]; the results are [rc] and, with [out_pid], what is stored there.  When the wait worker cannot be
    scheduled the structure is destroyed, but stays in the map. *)
Definition iwn_proc_spawn (fork : W -> W * Z) (c : cc) (spec : proc_spec) (out_pid : bool) : option (cc * Z * Z) :=
  match spec.(sp_path) with
  | None => Some (c, PRC_INVALID_ARGS, -1)
  | Some path =>
      if negb spec.(sp_poller) || negb out_pid then Some (c, PRC_INVALID_ARGS, -1)
      else
        let '(w, ok) := allocs 2 c.(c_w) in
        let c := {| c with c_w := w |} in
        if negb ok then Some (c, PRC_ALLOC, -1)
        else
          let '(w, p, fds, rc) := _proc_init c.(c_w) (_proc_create spec) path [-1; -1; -1; -1; -1; -1] in
          let c := {| c with c_w := w |} in
          if negb (rc =? 0) then Some ({| c with c_w := _proc_destroy c.(c_w) p |}, rc, -1)
          else
            let '(w, pid) := fork c.(c_w) in
            let c := {| c with c_w := w |} in
            if negb (0 <? pid) then Some ({| c with c_w := _proc_destroy c.(c_w) p |}, PRC_ERRNO, -1)
            else
              let p := {| p with p_pid := pid |} in
              let '(c, rc) := _proc_add c p in
              let '(c, rc) := if rc =? 0 then let '(w, ok) := ops.(pp_stw_schedule) c.(c_w) in ({| c with c_w := w |}, if ok : bool then 0 else PRC_ERRNO)
                              else (c, rc) in
              if negb (rc =? 0) then Some ({| c with c_w := _proc_destroy (ops.(pp_kill) c.(c_w) pid SIGKILL) p |}, rc, pid)
              else
                c ← spawn_channels c pid fds;
                Some (if spec.(sp_fork) then log c (EvFork pid) else c, 0, pid)
  end.

(** The child: the descriptors that become its standard ones, those that are closed, and how it ends. *)
Inductive child_end :=
| ChildExec (argv : list (list Z)) (envp : option (list (list Z)))  (* the program runs; [None] is the parent's environment *)
| ChildExit (code : Z)
| ChildReturn (rc : Z).                                             (* [iwn_proc_spawn] returns in the child *)
Record child := mkChild { ch_dups : list (Z * Z); ch_closed : list Z; ch_end : child_end }.
(** [prctl], [orphan] and [exec] are the outcomes of [prctl], [getppid() != ppid] and [execvp] or [execv]. *)
Definition child_side (p : proc) (fds : list Z) (prctl orphan exec : bool) : option child :=
  f0 ← fds !! 0%nat; f1 ← fds !! 1%nat; f2 ← fds !! 2%nat; f3 ← fds !! 3%nat; f4 ← fds !! 4%nat; f5 ← fds !! 5%nat;
  let s := p.(p_spec) in
  if negb (s.(sp_pdeath) =? 0) && (negb prctl || orphan) then Some (mkChild [] [] (ChildExit 1))
  else
    Some (mkChild
      ((if -1 <? f1 then [(f1, 1)] else []) ++ (if -1 <? f3 then [(f3, 2)] else []) ++ (if -1 <? f4 then [(f4, 0)] else []))
      ((if -1 <? f1 then [f0; f1] else []) ++ (if -1 <? f3 then [f2; f3] else []) ++ (if -1 <? f4 then [f4; f5] else []))
      (if exec then ChildExec p.(p_argv) p.(p_envp)
       else if s.(sp_find) then ChildReturn PRC_ERRNO else ChildExit 1)).

(** [iwn_proc_command_get]; the loop reads [args[0]] without looking at [args]. *)
Definition iwn_proc_command_get (spec : proc_spec) : option (list Z) :=
  args ← spec.(sp_args);
  Some (default [] spec.(sp_path) ++ args ≫= (fun a => 32 :: a)).

(** ** Waiting and signals *)

(** [iwn_proc_wait]: an answer at once, or [None] to wait for [cc.cond]; woken, it looks at the map again. *)
Definition iwn_proc_wait (c : cc) (pid : Z) : option Z :=
  match map_get c pid with
  | None => Some PRC_NOT_EXISTS
  | Some p => if p.(p_wstatus) =? -1 then None else Some 0
  end.
Definition wait_woken (c : cc) (pid : Z) : bool := bool_decide (map_get c pid = None).
Definition wait_all_done (c : cc) : bool := match c.(c_map) with Some m => bool_decide (m = ∅) | None => true end.

Definition iwn_proc_kill (c : cc) (pid signum : Z) : cc := {| c with c_w := ops.(pp_kill) c.(c_w) pid signum |}.
Definition iwn_proc_kill_all (c : cc) (signum : Z) : cc :=
  match c.(c_map) with
  | None => c
  | Some m =>
      if bool_decide (m = ∅) then c
      else
        let '(w, ok) := ops.(pp_alloc) c.(c_w) in
        if negb ok then {| c with c_w := w |}
        else {| c with c_w := fold_left (fun w pid => ops.(pp_kill) w pid signum) (map fst (map_to_list m)) w |}
  end.

(** [iwn_proc_dispose] frees every structure, whoever holds a reference. *)
Definition iwn_proc_dispose (c : cc) : cc :=
  let c := iwn_proc_kill_all c SIGTERM in
  match c.(c_map) with
  | None => {| c with c_stw := false |}
  | Some m => {| c with c_w := fold_left (fun w kv => _proc_destroy w kv.2) (map_to_list m) c.(c_w); c_map := None; c_stw := false |}
  end.

(** ** The scheduler *)

(** [iwn_schedule2]: [None] is [IW_ERROR_INVALID_ARGS] or a failure; otherwise the descriptor of the timer.  The task is freed on failure. *)
Definition iwn_schedule2 (w : W) (has_poller has_task : bool) (timeout_ms : Z) : W * option Z :=
  if (timeout_ms <? 1) || negb has_task || negb has_poller then (w, None)
  else
    let '(w, ok) := ops.(pp_alloc) w in
    if negb ok then (w, None) else ops.(pp_add2) w.

Definition iwn_schedule (w : W) (has_poller has_task : bool) (timeout_ms : Z) : W * bool :=
  let '(w, r) := iwn_schedule2 w has_poller has_task timeout_ms in (w, match r with Some _ => true | None => false end).

(** The task of a timer: whether [on_cancel] and [on_dispose] are set, and what [_on_ready] and [_on_dispose] call. *)
Record stask := mkStask { st_cancel : bool; st_dispose : bool }.
Inductive scall := CallTask | CallCancel | CallDispose.
Definition sched_on_ready (t : stask) : stask * list scall * Z := ({| t with st_cancel := false |}, [CallTask], -1).
Definition sched_on_dispose (t : stask) : list scall :=
  (if t.(st_cancel) then [CallCancel] else []) ++ (if t.(st_dispose) then [CallDispose] else []).

(** ** Killing for sure *)

(** [struct ktask]; [kt_poller] is whether [poller] is set. *)
Record ktask := mkKtask { kt_pid : Z; kt_signum : Z; kt_attempts : Z; kt_last_signum : Z; kt_poller : bool }.

(** The task again, or [None] when it is freed. *)
Definition _kill_ensure_task (w : W) (t : ktask) : W * option ktask :=
  if negb (ops.(pp_exists) w t.(kt_pid)) then (w, None)
  else
    let t := {| t with kt_attempts := t.(kt_attempts) - 1 |} in
    if t.(kt_attempts) <? 1 then (ops.(pp_kill) w t.(kt_pid) t.(kt_last_signum), None)
    else
      let w := ops.(pp_kill) w t.(kt_pid) t.(kt_signum) in
      let '(w, ok) := iwn_schedule w t.(kt_poller) true 1000 in
      (w, if ok : bool then Some t else None).

Definition iwn_proc_kill_ensure (w : W) (pid signum max_attempts last_signum : Z) : W * option ktask * Z :=
  if negb (ops.(pp_exists) w pid) then (w, None, 0)
  else
    let n := if max_attempts =? 0 then 1 else max_attempts in
    let '(w, ok) := ops.(pp_alloc) w in
    if negb ok then (w, None, PRC_ALLOC)
    else
      let t := mkKtask pid signum n (if 0 <? last_signum then last_signum else SIGKILL) false in
      let w := ops.(pp_kill) w pid signum in
      let '(w, ok) := iwn_schedule w true true (u32 (if n <? 0 then - n * 1000 else 1000)) in
      if ok : bool then (w, Some t, 0) else (w, None, PRC_POLLER).
End Proc.
Arguments proc_ops : clear implicits.
Arguments cc : clear implicits.
