(* ===== verification/ProcProps.v ===== *)
(** * ProcProps: the lives of child processes

    Threads work on the processes of [iwn_proc.c] at the same time, and [cc.mtx] is released between their critical sections.  The system
    is the map with the list of those who owe the process something: the child itself, a slot of stdout or stderr, a function behind
    [_proc_ref], the thread that dropped the last reference.  A step is one critical section, or the work of a function on a process it
    has a reference of; [iwn_proc_dispose], which frees structures that are in use, is not one of them.  A slot enters the poller and gets
    its reference in one step, which is what [iwn_proc_spawn] relies on; [early_exit] shows what happens when the slot is faster.

    The promise to the application is an automaton per pid over the log: output and traffic of stdin only between the start of a child
    and [on_exit]; [on_exit] once for every child that has one, with the status of the child, after the child was reaped; what is fed to the
    child is what was written, in order. *)
From S2P Require Import Prelude Proc.

Inductive token := KChild | KSlot | KWork | KExit | KForget.
#[global] Instance token_eq_dec : EqDecision token.
Proof. solve_decision. Defined.
Definition is_holder (k : token) : bool := match k with KChild | KSlot | KWork => true | _ => false end.
Definition is_last (k : token) : bool := negb (is_holder k).
Definition is_tok (k k' : token) : bool := bool_decide (k = k').

Definition cnt (f : token -> bool) (pid : Z) (l : list (Z * token)) : nat :=
  length (filter (fun x => x.1 = pid /\ f x.2 = true) l).

(** ** The promise *)

Inductive apst := AIdle | ALive (on_exit : bool) (status : option Z) (queue : list Z).
Definition ev_pid (e : pevent) : Z :=
  match e with EvAdded p _ | EvReaped p _ | EvOutput p _ _ | EvExit p _ | EvFork p | EvQueued p _ | EvFed p _ => p end.
Definition amove (a : apst) (e : pevent) : option apst :=
  match e, a with
  | EvFork _, a => Some a
  | EvAdded _ x, AIdle => Some (ALive x None [])
  | EvAdded _ x, ALive false (Some _) _ => Some (ALive x None [])
  | EvReaped _ ws, ALive x None q => Some (ALive x (Some ws) q)
  | EvOutput _ _ _, ALive x s q => Some (ALive x s q)
  | EvExit _ ws, ALive true (Some ws') _ => if decide (ws = ws') then Some AIdle else None
  | EvQueued _ l, ALive x s q => Some (ALive x s (q ++ l))
  | EvFed _ l, ALive x s q => if decide (take (length l) q = l) then Some (ALive x s (drop (length l) q)) else None
  | _, _ => None
  end.
Definition amoves (pid : Z) (l : list pevent) (a : option apst) : option apst :=
  fold_left (fun a e => if decide (ev_pid e = pid) then a ≫= (fun a => amove a e) else a) l a.
Definition promised (pid : Z) (l : list pevent) : option apst := amoves pid l (Some AIdle).

Section ProcProps.
Context {W : Type} (ops : proc_ops W).
Record psys := mkPsys { s_cc : cc W; s_tok : list (Z * token) }.

Definition releases (k : token) (ws : Z) : bool :=
  match k with KChild => negb (ws =? -1) | KSlot | KWork => ws =? -1 | _ => false end.

Inductive pstep : psys -> psys -> Prop :=
| St_world c tk w : pstep (mkPsys c tk) (mkPsys {| c with c_w := w |} tk)
| St_init c tk c' rc : _init_lk ops c = (c', rc) -> pstep (mkPsys c tk) (mkPsys c' tk)
| St_add c tk p c' :
    map_get c p.(p_pid) = None -> p.(p_stdin) = None -> _proc_add ops c p = (c', 0) ->
    pstep (mkPsys c tk) (mkPsys c' ((p.(p_pid), KChild) :: tk))
| St_channel c tk pid theirs mine slot c' ok :
    add_channel ops c pid theirs mine slot = (c', ok) -> ok = false \/ slot = FDS_STDIN -> pstep (mkPsys c tk) (mkPsys c' tk)
| St_slot c tk pid theirs mine slot c1 c' :
    add_channel ops c pid theirs mine slot = (c1, true) -> _proc_ref c1 pid = (c', true) -> pstep (mkPsys c tk) (mkPsys c' ((pid, KSlot) :: tk))
| St_fork c tk pid : pstep (mkPsys c tk) (mkPsys (log c (EvFork pid)) tk)
| St_ref c tk pid c' : _proc_ref c pid = (c', true) -> pstep (mkPsys c tk) (mkPsys c' ((pid, KWork) :: tk))
| St_read c tk pid fuel fd kind c' ret :
    (pid, KWork) ∈ tk -> ready_body ops fuel c pid fd kind = Some (c', ret) -> pstep (mkPsys c tk) (mkPsys c' tk)
| St_clear c tk pid fd : (pid, KWork) ∈ tk -> pstep (mkPsys c tk) (mkPsys (dispose_body c pid fd) tk)
| St_feed c tk pid fd c' r : (pid, KWork) ∈ tk -> feed_turn ops c pid fd = Some (c', r) -> pstep (mkPsys c tk) (mkPsys c' tk)
| St_stdin c tk pid buf close c' rc :
    (pid, KWork) ∈ tk -> stdin_body ops c pid buf close = Some (c', rc) -> pstep (mkPsys c tk) (mkPsys c' tk)
| St_unref c l1 l2 pid k ws c' last :
    releases k ws = true -> unref_lk c pid ws = (c', last) ->
    pstep (mkPsys c (l1 ++ (pid, k) :: l2)) (mkPsys c' (if last : bool then (pid, KExit) :: l1 ++ l2 else l1 ++ l2))
| St_exit c l1 l2 pid c' : run_exit ops c pid = Some c' -> pstep (mkPsys c (l1 ++ (pid, KExit) :: l2)) (mkPsys c' ((pid, KForget) :: l1 ++ l2))
| St_forget c l1 l2 pid : pstep (mkPsys c (l1 ++ (pid, KForget) :: l2)) (mkPsys (forget_lk c pid) (l1 ++ l2)).


(** ** The invariant *)

Definition buffered (p : proc) : list Z := match p.(p_stdin) with Some (b, _) => b | None => [] end.
Definition done (a : apst) : Prop := a = AIdle \/ exists ws q, a = ALive false (Some ws) q.

Definition pid_ok (pid : Z) (e : option proc) (tk : list (Z * token)) (a : option apst) : Prop :=
  match e with
  | None => cnt (fun _ => true) pid tk = 0%nat /\ exists a', a = Some a' /\ done a'
  | Some p =>
      p.(p_pid) = pid /\ p.(p_refs) = Z.of_nat (cnt is_holder pid tk) /\ (cnt (is_tok KChild) pid tk <= 1)%nat /\
      cnt is_last pid tk = (if p.(p_refs) =? 0 then 1%nat else 0%nat) /\
      (if decide (cnt (is_tok KForget) pid tk = 0%nat)
       then a = Some (ALive p.(p_spec).(sp_exit) (if decide (cnt (is_tok KChild) pid tk = 0%nat) then Some p.(p_wstatus) else None) (buffered p))
       else exists a', a = Some a' /\ done a')
  end.
Definition pinv (s : psys) : Prop := forall pid, pid_ok pid (map_get s.(s_cc) pid) s.(s_tok) (promised pid s.(s_cc).(c_log)).

(** *** Counting *)

Lemma cnt_app f pid l1 l2 : cnt f pid (l1 ++ l2) = (cnt f pid l1 + cnt f pid l2)%nat.
Proof. unfold cnt. by rewrite filter_app, length_app. Qed.
Lemma cnt_cons f pid q k l : cnt f pid ((q, k) :: l) = ((if decide (q = pid) then if f k then 1%nat else 0%nat else 0%nat) + cnt f pid l)%nat.
Proof. unfold cnt. rewrite filter_cons. case_decide as E1; case_decide; destruct (f k) eqn:E2; cbn in *; try done; try (destruct E1; congruence); exfalso; apply E1; by split. Qed.
Lemma cnt_same f pid k l : cnt f pid ((pid, k) :: l) = ((if f k then 1%nat else 0%nat) + cnt f pid l)%nat.
Proof. by rewrite cnt_cons, decide_True. Qed.
Lemma cnt_other f pid q k l : q <> pid -> cnt f pid ((q, k) :: l) = cnt f pid l.
Proof. intros Hq. by rewrite cnt_cons, decide_False. Qed.
Lemma cnt_middle f pid q k l1 l2 : cnt f pid (l1 ++ (q, k) :: l2) = cnt f pid ((q, k) :: l1 ++ l2).
Proof. rewrite !cnt_cons, !cnt_app, cnt_cons. lia. Qed.
Lemma cnt_split pid l : cnt (fun _ => true) pid l = (cnt is_holder pid l + cnt is_last pid l)%nat.
Proof. induction l as [|[q k] l IH]; [done|]. rewrite !cnt_cons, IH. unfold is_last. case_decide; destruct (is_holder k); simpl; lia. Qed.
Lemma cnt_le f g pid l : (forall k, f k = true -> g k = true) -> (cnt f pid l <= cnt g pid l)%nat.
Proof.
  intros Hfg. induction l as [|[q k] l IH]; [done|]. rewrite !cnt_cons. specialize (Hfg k).
  case_decide; destruct (f k), (g k); simpl in *; try lia.
Qed.
Lemma cnt_elem f pid k l : (pid, k) ∈ l -> f k = true -> (0 < cnt f pid l)%nat.
Proof.
  intros (l1 & l2 & ->)%list_elem_of_split Hf. rewrite cnt_middle, cnt_cons, decide_True, Hf by done. lia.
Qed.

Lemma take_take_length {A} n (l : list A) : take (length (take n l)) l = take n l.
Proof. rewrite length_take. destruct (decide (n <= length l)%nat); [by rewrite Nat.min_l|]. rewrite Nat.min_r by lia. by rewrite !take_ge by lia. Qed.
Lemma drop_take_length {A} n (l : list A) : drop (length (take n l)) l = drop n l.
Proof. rewrite length_take. destruct (decide (n <= length l)%nat); [by rewrite Nat.min_l|]. rewrite Nat.min_r by lia. by rewrite !drop_ge by lia. Qed.

(** *** Steps are local *)

Lemma amoves_app pid l l' a : amoves pid (l ++ l') a = amoves pid l' (amoves pid l a).
Proof. unfold amoves. apply fold_left_app. Qed.
Lemma amoves_other pid q l a : Forall (fun e => ev_pid e = q) l -> pid <> q -> amoves pid l a = a.
Proof. intros Hl Hne. induction Hl as [|e l He Hl IH] in a |- *; [done|]. simpl. rewrite decide_False by congruence. apply IH. Qed.

(** [c'] differs from [c] in the entry of [pid], which is [e] now, and has logged [evs] about it. *)
Definition upd (pid : Z) (e : option proc) (evs : list pevent) (c c' : cc W) : Prop :=
  map_get c' pid = e /\ (forall q, q <> pid -> map_get c' q = map_get c q) /\ c'.(c_log) = c.(c_log) ++ evs /\ Forall (fun e => ev_pid e = pid) evs.

Lemma upd_inv pid e evs c c' tk tk' :
  upd pid e evs c c' -> (forall q f, q <> pid -> cnt f q tk' = cnt f q tk) ->
  (pid_ok pid (map_get c pid) tk (promised pid c.(c_log)) -> pid_ok pid e tk' (amoves pid evs (promised pid c.(c_log)))) ->
  pinv (mkPsys c tk) -> pinv (mkPsys c' tk').
Proof.
  intros (He & Ho & Hl & Hev) Ht Hp Hi q. specialize (Hi q). cbn in *. rewrite Hl. unfold promised. rewrite amoves_app.
  destruct (decide (q = pid)) as [->|Hne].
  - rewrite He. by apply Hp.
  - rewrite (amoves_other q pid), Ho by done. unfold pid_ok in *. destruct (map_get c q); by rewrite !Ht.
Qed.

Lemma map_get_set (c : cc W) p q p0 : map_get c p.(p_pid) = Some p0 -> map_get (map_set c p) q = if decide (q = p.(p_pid)) then Some p else map_get c q.
Proof.
  unfold map_get, map_set. cbn. destruct (c_map c) as [m|]; [|done]. intros _. cbn. case_decide as E1; [subst; by simplify_map_eq|].
  by rewrite lookup_insert_ne by done.
Qed.
Lemma upd_set pid (c : cc W) p p0 evs c' :
  map_get c pid = Some p0 -> p.(p_pid) = pid -> (forall q, map_get c' q = map_get (map_set c p) q) -> c'.(c_log) = c.(c_log) ++ evs ->
  Forall (fun e => ev_pid e = pid) evs -> upd pid (Some p) evs c c'.
Proof.
  intros Hg <- Hm Hl Hev. repeat split; auto.
  - by rewrite Hm, (map_get_set c p _ p0), decide_True.
  - intros q Hq. by rewrite Hm, (map_get_set c p _ p0), decide_False.
Qed.
Lemma upd_same pid (c c' : cc W) evs :
  (forall q, map_get c' q = map_get c q) -> c'.(c_log) = c.(c_log) ++ evs -> Forall (fun e => ev_pid e = pid) evs -> upd pid (map_get c pid) evs c c'.
Proof. intros Hm Hl Hev. repeat split; auto. Qed.

(** *** What the operations change *)

#[local] Arguments map_get : simpl never.

Definition same_but_fds (p p' : proc) : Prop := p' = {| p with p_fds := p'.(p_fds) |}.

Lemma upd_init c c' rc pid : _init_lk ops c = (c', rc) -> upd pid (map_get c pid) [] c c'.
Proof.
  unfold _init_lk. intros E1. apply upd_same; [| |constructor].
  - intros q. unfold map_get. destruct (c_map c) as [m|] eqn:Em; [|destruct (pp_alloc ops (c_w c)) as [w []]];
      cbn in E1; destruct (c_stw c); try destruct (pp_stw_start _ _) as [w' []]; simplify_eq; cbn; rewrite ?Em; done.
  - rewrite app_nil_r. destruct (c_map c) as [m|] eqn:Em; [|destruct (pp_alloc ops (c_w c)) as [w []]];
      cbn in E1; destruct (c_stw c); try destruct (pp_stw_start _ _) as [w' []]; simplify_eq; done.
Qed.
Lemma init_map c c' : _init_lk ops c = (c', 0) -> is_Some c'.(c_map).
Proof.
  unfold _init_lk. destruct (c_map c) as [m|] eqn:Em; [|destruct (pp_alloc ops (c_w c)) as [w []]];
    cbn; destruct (c_stw c); try destruct (pp_stw_start _ _) as [w' []]; intros; simplify_eq; cbn; rewrite ?Em; eauto.
Qed.

Lemma upd_add c p c' :
  map_get c p.(p_pid) = None -> _proc_add ops c p = (c', 0) ->
  upd p.(p_pid) (Some {| p with p_refs := 1 |}) [EvAdded p.(p_pid) p.(p_spec).(sp_exit)] c c'.
Proof.
  unfold _proc_add. intros Hn. destruct (_init_lk ops c) as [c1 rc] eqn:E1.
  destruct (upd_init _ _ _ p.(p_pid) E1) as (Hg & Ho & Hl & _). rewrite app_nil_r in Hl.
  destruct (Z.eqb_spec rc 0) as [->|]; cbn; [|congruence]. apply init_map in E1 as [m Hm].
  destruct (pp_alloc ops _) as [w []]; cbn; intros E2; [|simplify_eq].
  assert (Hn' : map_get {| c1 with c_w := w |} (p_pid p) = None) by (by rewrite <- Hn, <- Hg).
  rewrite Hn' in E2. simplify_eq. unfold upd, map_get in *. cbn in *. rewrite Hm in *. cbn. repeat split.
  - by simplify_map_eq.
  - intros q Hq. rewrite lookup_insert_ne by done. rewrite <- (Ho q Hq). done.
  - by rewrite Hl.
  - by constructor.
Qed.

Lemma upd_ref (c c' : cc W) pid p :
  map_get c pid = Some p -> p.(p_pid) = pid -> _proc_ref c pid = (c', true) ->
  p.(p_refs) <> 0 /\ upd pid (Some {| p with p_refs := p.(p_refs) + 1 |}) [] c c'.
Proof.
  unfold _proc_ref. intros Hg Hp. rewrite Hg. destruct (Z.eqb_spec (p_refs p) 0); intros; simplify_eq; split; [done|].
  eapply upd_set; eauto. by rewrite app_nil_r.
Qed.
Lemma ref_found (c c' : cc W) pid : _proc_ref c pid = (c', true) -> is_Some (map_get c pid).
Proof. unfold _proc_ref. destruct (map_get c pid); intros; simplify_eq; eauto. Qed.

Lemma upd_unref (c c' : cc W) pid p ws last :
  map_get c pid = Some p -> p.(p_pid) = pid -> 0 < p.(p_refs) -> unref_lk c pid ws = (c', last) ->
  last = (p.(p_refs) =? 1) /\
  upd pid (Some {| p with p_refs := p.(p_refs) - 1; p_wstatus := if ws =? -1 then p.(p_wstatus) else ws |})
    (if ws =? -1 then [] else [EvReaped pid ws]) c c'.
Proof.
  unfold unref_lk. intros Hg Hp Hr. rewrite Hg. destruct (Z.eqb_spec (p_refs p) 0); [lia|]. cbn. intros E1. simplify_eq. split.
  { zcases; cbn; lia. }
  eapply upd_set; eauto; destruct (ws =? -1); cbn; rewrite ?app_nil_r; auto.
Qed.

Lemma upd_channel c c' pid theirs mine slot ok :
  (forall p, map_get c pid = Some p -> p.(p_pid) = pid) -> add_channel ops c pid theirs mine slot = (c', ok) ->
  exists e, upd pid e [] c c' /\
    match map_get c pid with Some p => exists p', e = Some p' /\ same_but_fds p p' | None => e = None end.
Proof.
  unfold add_channel. intros Hp. destruct (pp_add ops _ mine) as [w []]; cbn.
  - intros E1. simplify_eq. exists (map_get c pid). split; [apply upd_same; auto; by rewrite app_nil_r|].
    destruct (map_get c pid) as [[]|]; [|done]. by eexists.
  - change (map_get {| c with c_w := w |} pid) with (map_get c pid). destruct (map_get c pid) as [p|] eqn:Hg; intros E1; simplify_eq.
    + exists (Some {| p with p_fds := <[slot := -1]> p.(p_fds) |}). split; [|by eexists].
      eapply upd_set; eauto; cbn; by rewrite ?app_nil_r; auto.
    + exists None. split; [|done]. rewrite <- Hg. apply upd_same; auto. by rewrite app_nil_r.
Qed.

Lemma upd_read fuel c pid fd kind c' ret :
  ready_body ops fuel c pid fd kind = Some (c', ret) ->
  exists evs, upd pid (map_get c pid) evs c c' /\ (evs = [] \/ exists bytes, evs = [EvOutput pid kind bytes]).
Proof.
  unfold ready_body. destruct (pp_alloc ops _) as [w []]; cbn.
  2: { intros E1. simplify_eq. exists []. split; [apply upd_same; auto; by rewrite app_nil_r|by left]. }
  destruct (drain ops fuel w fd []) as [[[[w' bytes] rc] r]|]; [|done]. cbn. intros E1. simplify_eq.
  destruct (0 <? zlen bytes).
  - eexists [_]. split; [apply upd_same; auto|right; by eexists].
  - exists []. split; [apply upd_same; auto; by rewrite app_nil_r|by left].
Qed.

Lemma upd_clear (c : cc W) pid fd p :
  map_get c pid = Some p -> p.(p_pid) = pid -> exists p', upd pid (Some p') [] c (dispose_body c pid fd) /\ same_but_fds p p'.
Proof.
  unfold dispose_body. intros Hg Hp. rewrite Hg. exists {| p with p_fds := clear_fd p.(p_fds) fd |}.
  split; [|by destruct p]. eapply upd_set; eauto. by rewrite app_nil_r.
Qed.

Lemma upd_feed c c' pid fd r p :
  map_get c pid = Some p -> p.(p_pid) = pid -> feed_turn ops c pid fd = Some (c', r) ->
  upd pid (Some p) [] c c' \/
  exists k buf close, p.(p_stdin) = Some (buf, close) /\ upd pid (Some {| p with p_stdin := Some (drop k buf, close) |}) [EvFed pid (take k buf)] c c'.
Proof.
  unfold feed_turn. intros Hg Hp. rewrite Hg. cbn. destruct (p_stdin p) as [[[|b buf] close]|] eqn:Es.
  1, 3: intros E1; simplify_eq; left; rewrite <- Hg; apply upd_same; auto; by rewrite app_nil_r.
  destruct (pp_write ops _ fd _) as [w [| |k]]; [| |destruct (k =? 0)]; cbn; intros E1; simplify_eq.
  1-3: left; rewrite <- Hg; apply upd_same; auto; by rewrite app_nil_r.
  right. do 3 eexists. split; [done|]. eapply upd_set; eauto.
Qed.

Lemma upd_stdin c c' pid buf close rc p :
  map_get c pid = Some p -> p.(p_pid) = pid -> stdin_body ops c pid buf close = Some (c', rc) ->
  exists p' evs, upd pid (Some p') evs c c' /\ p' = {| p with p_stdin := p'.(p_stdin) |} /\
    (evs = [] /\ buffered p' = buffered p \/ evs = [EvQueued pid buf] /\ buffered p' = buffered p ++ buf).
Proof.
  unfold stdin_body, buffered. intros Hg Hp. rewrite Hg. cbn.
  destruct (match p_stdin p with Some _ => (c_w c, true) | None => pp_alloc ops (c_w c) end) as [w1 []]; cbn.
  2: { intros E1. simplify_eq. exists p, []. split; [rewrite <- Hg; apply upd_same; auto; by rewrite app_nil_r|]. destruct p; auto. }
  destruct (default ([], false) (p_stdin p)) as [b cl] eqn:Ed.
  assert (Hb : match p_stdin p with Some (b, _) => b | None => [] end = b) by (destruct (p_stdin p) as [[]|]; cbn in Ed; by simplify_eq).
  destruct (if 0 <? zlen buf then pp_alloc ops w1 else (w1, true)) as [w2 []]; cbn.
  - destruct (p_fds p !! FDS_STDIN); [|done]. cbn. destruct (pp_arm ops w2 _) as [w3 ok]. intros [= <- <-].
    exists {| p with p_stdin := Some (b ++ buf, cl || close) |}, [EvQueued pid buf].
    split; [by eapply upd_set; eauto|]. split; [by destruct p|]. right. by rewrite Hb.
  - intros [= <- <-]. exists {| p with p_stdin := Some (b, cl) |}, []. split; [eapply upd_set; eauto; by rewrite app_nil_r|].
    split; [by destruct p|]. left. by rewrite Hb.
Qed.

Lemma upd_exit c c' pid p :
  map_get c pid = Some p -> p.(p_pid) = pid -> run_exit ops c pid = Some c' ->
  upd pid (Some {| p with p_fds := [-1; -1; -1] |}) (if p.(p_spec).(sp_exit) then [EvExit pid p.(p_wstatus)] else []) c c'.
Proof.
  unfold run_exit. intros Hg Hp. rewrite Hg. cbn. intros E1. simplify_eq. eapply upd_set; eauto; destruct (sp_exit (p_spec p)); cbn; auto.
  by rewrite app_nil_r.
Qed.
Lemma upd_forget (c : cc W) pid : upd pid None [] c (forget_lk c pid).
Proof.
  unfold upd, forget_lk, map_get. cbn. destruct (c_map c) as [m|]; cbn; repeat split; auto; rewrite ?app_nil_r; auto.
  - by rewrite lookup_delete_eq.
  - intros q Hq. by rewrite lookup_delete_ne.
Qed.

(** *** Preservation *)

(** Someone who holds a reference finds the structure, and it is not on its way out. *)
Lemma holder_entry pid e tk a k :
  pid_ok pid e tk a -> (pid, k) ∈ tk ->
  exists p, e = Some p /\ p.(p_pid) = pid /\ (is_holder k = true -> 0 < p.(p_refs) /\ cnt is_last pid tk = 0%nat).
Proof.
  intros Hok Hk. destruct e as [p|]; cbn in Hok.
  - destruct Hok as (Hp & Hr & _ & Hl & _). exists p. split; [done|]. split; [done|]. intros Hh.
    pose proof (cnt_elem is_holder _ _ _ Hk Hh). rewrite Hl. destruct (Z.eqb_spec (p_refs p) 0); lia.
  - destruct Hok as [H0 _]. pose proof (cnt_elem (fun _ => true) _ _ _ Hk eq_refl). lia.
Qed.
Lemma forget_last pid tk : (cnt (is_tok KForget) pid tk <= cnt is_last pid tk)%nat.
Proof. apply cnt_le. by intros []. Qed.
Lemma child_holder pid tk : (cnt (is_tok KChild) pid tk <= cnt is_holder pid tk)%nat.
Proof. apply cnt_le. by intros []. Qed.

Lemma ok_fds pid p p' tk a : pid_ok pid (Some p) tk a -> same_but_fds p p' -> pid_ok pid (Some p') tk a.
Proof. unfold same_but_fds. intros Hok ->. exact Hok. Qed.
(** The work of a holder: an event that the promise allows. *)
Lemma ok_work pid p p' tk a evs k :
  pid_ok pid (Some p) tk a -> (pid, k) ∈ tk -> is_holder k = true -> p' = {| p with p_stdin := p'.(p_stdin) |} ->
  (forall x s, amoves pid evs (Some (ALive x s (buffered p))) = Some (ALive x s (buffered p'))) ->
  pid_ok pid (Some p') tk (amoves pid evs a).
Proof.
  intros Hok Hk Hh Hp' Hev. destruct (holder_entry _ _ _ _ _ Hok Hk) as (p0 & [= <-] & _ & Hpos). destruct (Hpos Hh) as [Hr Hl].
  destruct Hok as (Hp & Hc & H1 & H2 & H3). pose proof (forget_last pid tk). rewrite decide_True in H3 by lia.
  rewrite Hp', H3. cbn. rewrite decide_True by lia. rewrite Hev. done.
Qed.

Lemma proc_ok_add pid p tk a :
  pid_ok pid None tk a -> p.(p_pid) = pid -> p.(p_stdin) = None ->
  pid_ok pid (Some {| p with p_refs := 1 |}) ((pid, KChild) :: tk) (amoves pid [EvAdded pid p.(p_spec).(sp_exit)] a).
Proof.
  intros (H0 & a' & -> & Ha) Hp Hs. rewrite cnt_split in H0. pose proof (forget_last pid tk). pose proof (child_holder pid tk).
  unfold pid_ok. cbn [p_pid p_refs p_spec p_wstatus p_stdin]. rewrite !cnt_same.
  change (is_holder KChild) with true. change (is_last KChild) with false. change (is_tok KChild KChild) with true.
  change (is_tok KForget KChild) with false. change (1 =? 0) with false. cbv iota. split; [done|]. split; [lia|]. split; [lia|]. split; [lia|]. unfold buffered. cbn [p_stdin]. rewrite Hs.
  destruct (decide ((0 + cnt (is_tok KForget) pid tk)%nat = 0%nat)); [|lia]. destruct (decide ((1 + cnt (is_tok KChild) pid tk)%nat = 0%nat)); [lia|].
  unfold amoves. cbn. case_decide; [|done]. by destruct Ha as [->|(ws & q & ->)].
Qed.
Lemma proc_ok_ref pid p tk a k :
  pid_ok pid (Some p) tk a -> p.(p_refs) <> 0 -> k = KSlot \/ k = KWork ->
  pid_ok pid (Some {| p with p_refs := p.(p_refs) + 1 |}) ((pid, k) :: tk) a.
Proof.
  intros (Hp & Hr & H1 & H2 & H3) Hne Hk. unfold pid_ok. cbn [p_pid p_refs p_spec p_wstatus p_stdin]. rewrite !cnt_same.
  assert (Hb : is_holder k = true /\ is_last k = false /\ is_tok KChild k = false /\ is_tok KForget k = false) by (by destruct Hk as [-> | ->]).
  destruct Hb as (-> & -> & -> & ->). cbn. split; [done|]. split; [lia|]. split; [done|]. split; [|exact H3].
  rewrite H2. destruct (Z.eqb_spec (p_refs p) 0), (Z.eqb_spec (p_refs p + 1) 0); lia.
Qed.
Lemma pid_ok_cnt pid e tk tk' a : (forall f, cnt f pid tk' = cnt f pid tk) -> pid_ok pid e tk a -> pid_ok pid e tk' a.
Proof. intros Hc. unfold pid_ok. destruct e; by rewrite !Hc. Qed.

Lemma proc_ok_unref pid p k l a ws :
  pid_ok pid (Some p) ((pid, k) :: l) a -> releases k ws = true -> 0 < p.(p_refs) ->
  pid_ok pid (Some {| p with p_refs := p.(p_refs) - 1; p_wstatus := if ws =? -1 then p.(p_wstatus) else ws |})
    (if p.(p_refs) =? 1 then (pid, KExit) :: l else l) (amoves pid (if ws =? -1 then [] else [EvReaped pid ws]) a).
Proof.
  intros (Hp & Hr & H1 & H2 & H3) Hk Hpos. rewrite !cnt_same in *. pose proof (forget_last pid l).
  assert (Hh : is_holder k = true) by (by destruct k).
  assert (is_last k = false /\ is_tok KForget k = false) as [Hla Hfo] by (by destruct k). rewrite Hh, Hla, Hfo in *.
  destruct (Z.eqb_spec (p_refs p) 0); [lia|]. rewrite decide_True in H3 by lia. subst a.
  assert (Hst : amoves pid (if ws =? -1 then [] else [EvReaped pid ws])
      (Some (ALive (sp_exit (p_spec p)) (if decide (((if is_tok KChild k then 1 else 0) + cnt (is_tok KChild) pid l)%nat = 0%nat) then Some (p_wstatus p) else None) (buffered p))) =
    Some (ALive (sp_exit (p_spec p)) (if decide (cnt (is_tok KChild) pid l = 0%nat) then Some (if ws =? -1 then p_wstatus p else ws) else None) (buffered p))).
  { unfold amoves. destruct k; try done; cbn [releases] in Hk; [|by apply Z.eqb_eq in Hk as ->..].
    change (is_tok KChild KChild) with true in *. cbv iota in *. destruct (ws =? -1); [done|]. cbn. case_decide; [|done].
    repeat case_decide; first [done|lia]. }
  rewrite Hst. unfold pid_ok. cbn [p_pid p_refs p_spec p_wstatus].
  destruct (Z.eqb_spec (p_refs p) 1); rewrite ?cnt_same; change (is_holder KExit) with false; change (is_last KExit) with true;
    change (is_tok KChild KExit) with false; change (is_tok KForget KExit) with false; cbv iota;
    (split; [done|]; split; [lia|]; split; [destruct (is_tok KChild k); lia|]; split; [destruct (Z.eqb_spec (p_refs p - 1) 0); lia|]);
    by rewrite decide_True by lia.
Qed.

Lemma ok_exit pid p l a :
  pid_ok pid (Some p) ((pid, KExit) :: l) a ->
  pid_ok pid (Some {| p with p_fds := [-1; -1; -1] |}) ((pid, KForget) :: l)
    (amoves pid (if p.(p_spec).(sp_exit) then [EvExit pid p.(p_wstatus)] else []) a).
Proof.
  intros (Hp & Hr & H1 & H2 & H3). unfold pid_ok. cbn [p_pid p_refs p_spec p_wstatus]. rewrite !cnt_same in *.
  change (is_holder KForget) with false. change (is_last KForget) with true. change (is_tok KChild KForget) with false.
  change (is_tok KForget KForget) with true. change (is_holder KExit) with false in *. change (is_last KExit) with true in *.
  change (is_tok KChild KExit) with false in *. change (is_tok KForget KExit) with false in *. cbv iota in *.
  split; [done|]. split; [done|]. split; [done|]. split; [done|]. destruct (Z.eqb_spec (p_refs p) 0); [|lia].
  pose proof (forget_last pid l). pose proof (child_holder pid l). rewrite decide_True in H3 by lia. rewrite decide_True in H3 by lia.
  rewrite decide_False by lia. subst a. unfold amoves, done. destruct (sp_exit (p_spec p)); cbn; [|by eauto 10].
  case_decide; [|done]. case_decide; [|done]. eauto.
Qed.

Lemma ok_forget pid e l a : pid_ok pid e ((pid, KForget) :: l) a -> pid_ok pid None l a.
Proof.
  destruct e as [p|].
  - intros (Hp & Hr & H1 & H2 & H3). rewrite !cnt_same in *. change (is_last KForget) with true in *.
    change (is_holder KForget) with false in *. change (is_tok KForget KForget) with true in *. cbv iota in *. cbn [pid_ok].
    rewrite decide_False in H3 by lia. split; [|done]. rewrite cnt_split. destruct (Z.eqb_spec (p_refs p) 0); lia.
  - intros [H0 _]. rewrite cnt_same in H0. lia.
Qed.

Lemma cnt_frame f pid q k l : q <> pid -> cnt f q ((pid, k) :: l) = cnt f q l.
Proof. intros Hq. apply cnt_other. congruence. Qed.
(** The entry and the promise of the pid a token is about. *)
Ltac entry Hi Hk p Hg Hp Hpos :=
  destruct (holder_entry _ _ _ _ _ (Hi _) Hk) as (p & Hg & Hp & Hpos); cbn [s_cc s_tok] in Hg.

Lemma pinv_ref c tk pid c' k : k = KSlot \/ k = KWork -> _proc_ref c pid = (c', true) -> pinv (mkPsys c tk) -> pinv (mkPsys c' ((pid, k) :: tk)).
Proof.
  intros Hk E1 Hi. destruct (ref_found _ _ _ E1) as [p Hg]. pose proof (Hi pid) as Hok. cbn in Hok. rewrite Hg in Hok.
  destruct (upd_ref _ _ _ _ Hg (proj1 Hok) E1) as [Hne Hu]. eapply (upd_inv pid); [exact Hu|intros; by apply cnt_frame| |exact Hi].
  intros _. by apply proc_ok_ref.
Qed.

Lemma pinv_channel c tk pid theirs mine slot c' ok : add_channel ops c pid theirs mine slot = (c', ok) -> pinv (mkPsys c tk) -> pinv (mkPsys c' tk).
Proof.
  intros E1 Hi. pose proof (Hi pid) as Hok. cbn in Hok.
  destruct (upd_channel _ _ _ _ _ _ _ (fun p Hg => ltac:(rewrite Hg in Hok; exact (proj1 Hok))) E1) as (e & Hu & He).
  eapply (upd_inv pid); [exact Hu|done| |exact Hi]. intros Hok'. destruct (map_get c pid) as [p|]; [|by subst]. destruct He as (p' & -> & Hs). by eapply ok_fds.
Qed.

Lemma pinv_unref c l1 l2 pid k ws c' last :
  releases k ws = true -> unref_lk c pid ws = (c', last) -> pinv (mkPsys c (l1 ++ (pid, k) :: l2)) ->
  pinv (mkPsys c' (if last then (pid, KExit) :: l1 ++ l2 else l1 ++ l2)).
Proof.
  intros Hk E1 Hi. assert (Hel : (pid, k) ∈ l1 ++ (pid, k) :: l2) by set_solver. entry Hi Hel p Hg Hp Hpos.
  destruct (Hpos ltac:(by destruct k)) as [Hr _]. destruct (upd_unref _ _ _ _ _ _ Hg Hp Hr E1) as [-> Hu].
  eapply (upd_inv pid); [exact Hu| | |exact Hi].
  - intros q f Hq. rewrite cnt_middle, cnt_frame by done. destruct (p_refs p =? 1); [by apply cnt_frame|done].
  - rewrite Hg. intros Hok. apply (proc_ok_unref pid p k); auto. eapply pid_ok_cnt; [|exact Hok]. intros f. symmetry. apply cnt_middle.
Qed.

Lemma pinv_work c tk pid k p c' p' evs :
  map_get c pid = Some p -> (pid, k) ∈ tk -> is_holder k = true -> upd pid (Some p') evs c c' -> p' = {| p with p_stdin := p'.(p_stdin) |} ->
  (forall x s, amoves pid evs (Some (ALive x s (buffered p))) = Some (ALive x s (buffered p'))) -> pinv (mkPsys c tk) -> pinv (mkPsys c' tk).
Proof.
  intros Hg Hel Hh Hu Hp' Hev. eapply (upd_inv pid); [exact Hu|done|]. rewrite Hg. intros Hok. by eapply ok_work.
Qed.

Lemma pinv_step s s' : pstep s s' -> pinv s -> pinv s'.
Proof.
  intros [c tk w|c tk c' rc E1|c tk p c' Hn Hs E1|c tk pid theirs mine slot c' ok E1 _|c tk pid theirs mine slot c1 c' E1 E2|c tk pid|c tk pid c' E1
    |c tk pid fuel fd kind c' ret Hel E1|c tk pid fd Hel|c tk pid fd c' r Hel E1|c tk pid buf close c' rc Hel E1
    |c l1 l2 pid k ws c' last Hk E1|c l1 l2 pid c' E1|c l1 l2 pid] Hi; [exact Hi| | | | | | | | | | | | |].
  - eapply (upd_inv 0); [by eapply upd_init|done|done|exact Hi].
  - eapply (upd_inv p.(p_pid)); [by apply upd_add|intros; by apply cnt_frame| |exact Hi]. rewrite Hn. intros. by apply proc_ok_add.
  - by eapply pinv_channel.
  - eapply pinv_ref; [by left|exact E2|]. by eapply pinv_channel.
  - eapply (upd_inv pid (map_get c pid) [EvFork pid]); [apply upd_same; auto; by constructor|done| |exact Hi]. intros Hok. unfold amoves. cbn. case_decide; [|done].
    by destruct (promised pid (c_log c)).
  - eapply pinv_ref; [by right|exact E1|exact Hi].
  - entry Hi Hel p Hg Hp Hpos. destruct (upd_read _ _ _ _ _ _ _ E1) as (evs & Hu & Hev). rewrite Hg in Hu.
    eapply pinv_work; eauto; [by destruct p|]. intros x st. destruct Hev as [->|(bytes & ->)]; [done|]. unfold amoves. cbn. by rewrite decide_True.
  - entry Hi Hel p Hg Hp Hpos. destruct (upd_clear c pid fd p Hg Hp) as (p' & Hu & Hs).
    eapply (upd_inv pid); [exact Hu|done| |exact Hi]. rewrite Hg. intros Hok. by eapply ok_fds.
  - entry Hi Hel p Hg Hp Hpos. destruct (upd_feed _ _ _ _ _ _ Hg Hp E1) as [Hu|(n & buf & cl & Hb & Hu)].
    + eapply pinv_work; eauto. by destruct p.
    + eapply pinv_work; eauto. intros x st. unfold amoves, buffered. cbn. rewrite Hb. case_decide; [|done].
      rewrite take_take_length, drop_take_length. by rewrite decide_True.
  - entry Hi Hel p Hg Hp Hpos. destruct (upd_stdin _ _ _ _ _ _ _ Hg Hp E1) as (p' & evs & Hu & Hp' & Hev).
    eapply pinv_work; eauto. intros x st. destruct Hev as [[-> ->]|[-> ->]]; [done|]. unfold amoves. cbn. by rewrite decide_True.
  - by eapply pinv_unref.
  - assert (Hel : (pid, KExit) ∈ l1 ++ (pid, KExit) :: l2) by set_solver. entry Hi Hel p Hg Hp Hpos.
    eapply (upd_inv pid); [by eapply upd_exit|intros; by rewrite cnt_middle, !cnt_frame| |exact Hi].
    rewrite Hg. intros Hok. apply ok_exit. eapply pid_ok_cnt; [|exact Hok]. intros f. symmetry. apply cnt_middle.
  - eapply (upd_inv pid); [by apply upd_forget|intros; by rewrite cnt_middle, cnt_frame| |exact Hi].
    intros Hok. eapply ok_forget, pid_ok_cnt; [|exact Hok]. intros f. symmetry. apply cnt_middle.
Qed.

Lemma pinv_steps s s' : rtc pstep s s' -> pinv s -> pinv s'.
Proof. induction 1 as [|s1 s2 s3 H1 _ IH]; [done|]. intros Hi. by eapply IH, pinv_step. Qed.

(** ** The functions of the module are sequences of steps *)

Lemma unref_steps c l1 l2 pid k ws c' :
  releases k ws = true -> _proc_unref ops c pid ws = Some c' -> rtc pstep (mkPsys c (l1 ++ (pid, k) :: l2)) (mkPsys c' (l1 ++ l2)).
Proof.
  unfold _proc_unref. intros Hk E1. destruct (unref_lk c pid ws) as [c1 last] eqn:Eu.
  eapply rtc_l; [by eapply St_unref|]. destruct last; [|by simplify_eq]. destruct (run_exit ops c1 pid) as [c2|] eqn:Ex; [|done].
  injection E1 as <-. eapply rtc_l; [by apply (St_exit c1 [])|]. apply rtc_once. apply (St_forget c2 []).
Qed.

Lemma ref_same (c c1 : cc W) pid : _proc_ref c pid = (c1, false) -> c1 = c.
Proof. unfold _proc_ref. destruct (map_get c pid) as [p|]; [destruct (p_refs p =? 0)|]; congruence. Qed.

Lemma on_fd_dispose_steps c pid fd c' l1 l2 :
  _on_fd_dispose ops c pid fd = Some c' -> rtc pstep (mkPsys c (l1 ++ (pid, KSlot) :: l2)) (mkPsys c' (l1 ++ l2)).
Proof.
  unfold _on_fd_dispose. destruct (_proc_ref c pid) as [c1 []] eqn:Er; cbn.
  - destruct (_proc_unref ops (dispose_body c1 pid fd) pid (-1)) as [c2|] eqn:E1; [|done]. cbn. intros E2.
    eapply rtc_l; [by apply St_ref|]. eapply rtc_l; [eapply (St_clear c1 _ pid fd); set_solver|].
    etransitivity; [by apply (unref_steps _ [] (l1 ++ (pid, KSlot) :: l2) pid KWork (-1) c2)|]. by apply (unref_steps c2 l1 l2 pid KSlot (-1)).
  - apply ref_same in Er as ->. by apply unref_steps.
Qed.

(** *** Everything comes to an end *)



(** *** Starting a child *)

Lemma slot_steps c tk pid theirs mine slot c1 ok :
  pinv (mkPsys c tk) -> (pid, KChild) ∈ tk -> add_channel ops c pid theirs mine slot = (c1, ok) ->
  exists tk', rtc pstep (mkPsys c tk) (mkPsys (if ok then (_proc_ref c1 pid).1 else c1) (tk' ++ tk)).
Proof.
  intros Hi Hel E1. destruct ok; [|exists []; apply rtc_once; eapply St_channel; eauto].
  pose proof (pinv_channel _ _ _ _ _ _ _ _ E1 Hi) as Hi1. entry Hi1 Hel p Hg Hp Hpos. destruct (Hpos eq_refl) as [Hr _].
  assert (exists c2, _proc_ref c1 pid = (c2, true)) as [c2 E2].
  { unfold _proc_ref. rewrite Hg. destruct (Z.eqb_spec (p_refs p) 0); [lia|eauto]. }
  exists [(pid, KSlot)]. rewrite E2. apply rtc_once. by eapply St_slot.
Qed.

Lemma channel_steps c tk pid (want : bool) theirs mine slot c1 ok :
  pinv (mkPsys c tk) -> (pid, KChild) ∈ tk -> (if want then add_channel ops c pid theirs mine slot else (c, false)) = (c1, ok) ->
  exists tk', rtc pstep (mkPsys c tk) (mkPsys (if ok then (_proc_ref c1 pid).1 else c1) (tk' ++ tk)).
Proof. intros Hi Hel. destruct want; [by apply slot_steps|]. intros [= <- <-]. by exists []. Qed.

Lemma spawn_channels_steps c tk pid fds c' :
  pinv (mkPsys c tk) -> (pid, KChild) ∈ tk -> spawn_channels ops c pid fds = Some c' ->
  exists tk', rtc pstep (mkPsys c tk) (mkPsys c' (tk' ++ tk)).
Proof.
  unfold spawn_channels. intros Hi Hel E1. destruct (fds !! 0%nat) as [z|]; [|done]. destruct (fds !! 1%nat) as [z0|]; [|done].
  destruct (fds !! 2%nat) as [z1|]; [|done]. destruct (fds !! 3%nat) as [z2|]; [|done]. destruct (fds !! 4%nat) as [z3|]; [|done].
  destruct (fds !! 5%nat) as [z4|]; [|done]. cbn in E1.
  destruct (if -1 <? z0 then _ else _) as [c1 ok1] eqn:E2 in E1. destruct (channel_steps _ _ _ _ _ _ _ _ _ Hi Hel E2) as (t1 & H1).
  pose proof (pinv_steps _ _ H1 Hi) as Hi1. set (c1' := if ok1 then _ else _) in *.
  destruct (if -1 <? z2 then _ else _) as [c2 ok2] eqn:E3 in E1.
  assert (Hel1 : (pid, KChild) ∈ t1 ++ tk) by set_solver. destruct (channel_steps _ _ _ _ _ _ _ _ _ Hi1 Hel1 E3) as (t2 & H2). set (c2' := if ok2 then _ else _) in *.
  injection E1 as <-. exists (t2 ++ t1). rewrite <- app_assoc. etransitivity; [exact H1|]. etransitivity; [exact H2|].
  destruct (-1 <? z3); [|done]. destruct (add_channel ops c2' pid z3 z4 FDS_STDIN) as [c3 ok3] eqn:E4. apply rtc_once.
  eapply St_channel; eauto.
Qed.

Lemma open_pipe_stdin want w p fds a m sl w' p' fds' rc :
  open_pipe ops want w p fds a m sl = (w', p', fds', rc) -> p'.(p_stdin) = p.(p_stdin).
Proof.
  unfold open_pipe. destruct want; cbn; [|by intros [= <- <- <- <-]]. destruct (pp_pipe ops w) as [w1 [[r1 w2]|]]; [|by intros [= <- <- <- <-]].
  destruct (pp_nonblock ops w1 _) as [w3 ok]. by intros [= <- <- <- <-].
Qed.
Lemma proc_init_stdin w p path fds w' p' fds' rc : _proc_init ops w p path fds = (w', p', fds', rc) -> p'.(p_stdin) = p.(p_stdin).
Proof.
  unfold _proc_init. destruct (allocs ops _ w) as [w1 []]; cbn; [|by intros [= <- <- <- <-]].
  destruct (match sp_env (p_spec p) with Some _ => _ | None => _ end) as [w2 []]; cbn; [|by intros [= <- <- <- <-]].
  destruct (open_pipe ops (sp_stdout _) _ _ _ _ _ _) as [[[w3 p3] f3] r3] eqn:E3. apply open_pipe_stdin in E3.
  destruct (r3 =? 0); cbn; [|intros [= <- <- <- <-]; by rewrite E3].
  destruct (open_pipe ops (sp_stderr _) _ _ _ _ _ _) as [[[w4 p4] f4] r4] eqn:E4. apply open_pipe_stdin in E4.
  destruct (r4 =? 0); cbn; [|intros [= <- <- <- <-]; by rewrite E4, E3].
  intros E5. apply open_pipe_stdin in E5. by rewrite E5, E4, E3.
Qed.

Lemma spawn_steps fork c spec c' pid tk :
  iwn_proc_spawn ops fork c spec true = Some (c', 0, pid) -> map_get c pid = None -> pinv (mkPsys c tk) ->
  exists tk', rtc pstep (mkPsys c tk) (mkPsys c' (tk' ++ (pid, KChild) :: tk)).
Proof.
  unfold iwn_proc_spawn. intros E1 Hn Hi. destruct (sp_path spec) as [path|]; [|done].
  destruct (sp_poller spec); cbn -[allocs] in E1; [|done]. destruct (allocs ops 2 (c_w c)) as [w1 []]; cbn in E1; [|done].
  destruct (_proc_init ops w1 _ path _) as [[[w2 p] fds] rc] eqn:Ei. apply proc_init_stdin in Ei. cbn in E1.
  destruct (Z.eqb_spec rc 0); cbn in E1; [|congruence]. destruct (fork w2) as [w3 pid']. cbn in E1.
  destruct (0 <? pid'); cbn in E1; [|done].
  destruct (_proc_add ops _ _) as [c4 rc4] eqn:Ea. destruct (Z.eqb_spec rc4 0) as [->|]; [|]; cbn in E1.
  2: { destruct (Z.eqb_spec rc4 0); cbn in E1; congruence. }
  destruct (pp_stw_schedule ops (c_w c4)) as [w5 []]; cbn in E1; [|done].
  destruct (spawn_channels ops _ pid' fds) as [c6|] eqn:Es; [|done]. cbn in E1. injection E1 as <- ->.
  match type of Ea with _proc_add _ ?c0 ?p0 = _ => assert (S1 : pstep (mkPsys c tk) (mkPsys c0 tk)) by apply St_world;
    assert (S2 : pstep (mkPsys c0 tk) (mkPsys c4 ((pid, KChild) :: tk))) by (by apply (St_add c0 tk p0)) end.
  assert (S3 : pstep (mkPsys c4 ((pid, KChild) :: tk)) (mkPsys {| c4 with c_w := w5 |} ((pid, KChild) :: tk))) by apply St_world.
  pose proof (rtc_l _ _ _ _ S1 (rtc_l _ _ _ _ S2 (rtc_once _ _ S3))) as S4. pose proof (pinv_steps _ _ S4 Hi) as Hi4.
  assert (Hel : (pid, KChild) ∈ (pid, KChild) :: tk) by set_solver. destruct (spawn_channels_steps _ _ _ _ _ Hi4 Hel Es) as (tk' & S5). exists tk'. etransitivity; [exact S4|].
  etransitivity; [exact S5|]. destruct (sp_fork spec); [|done]. apply rtc_once, St_fork.
Qed.


(** ** Signals that stop *)

(** The documented sequence is [signum] [max_attempts] times and then [last_signum].  The task of [iwn_proc_kill_ensure] has no poller, so
    the second attempt is the last one, and [last_signum] is never sent. *)
Theorem kill_ensure_stops w pid signum n last_signum w' t :
  2 <= n -> iwn_proc_kill_ensure ops w pid signum n last_signum = (w', Some t, 0) ->
  forall w2, ops.(pp_exists) w2 pid = true -> _kill_ensure_task ops w2 t = (ops.(pp_kill) w2 pid signum, None).
Proof.
  intros Hn. unfold iwn_proc_kill_ensure. destruct (pp_exists ops w pid); cbn; [|done]. rewrite (proj2 (Z.eqb_neq n 0)) by lia.
  destruct (pp_alloc ops w) as [w1 []]; cbn; [|done]. destruct (iwn_schedule ops _ _ _ _) as [w3 []]; [|done]. intros [= _ <-] w2 He.
  unfold _kill_ensure_task. cbn. rewrite He. cbn. destruct (Z.ltb_spec (n - 1) 1); [lia|]. unfold iwn_schedule, iwn_schedule2. cbn. done.
Qed.

(** The timer of a task runs it or cancels it, never both, and disposes of it in the end. *)
Theorem task_or_cancel t :
  sched_on_dispose t = (if t.(st_cancel) then [CallCancel] else []) ++ (if t.(st_dispose) then [CallDispose] else []) /\
  (sched_on_ready t).1.2 ++ sched_on_dispose (sched_on_ready t).1.1 = CallTask :: (if t.(st_dispose) then [CallDispose] else []).
Proof. by destruct t as [[] []]. Qed.
End ProcProps.

(** ** A concrete system *)

(** What the next reads give, which descriptors were removed from the poller, the next descriptor. *)
Record demo := mkDemoW { dm_reads : list (io (list Z)); dm_removed : list Z; dm_fd : Z }.
Definition demo_proc_ops : proc_ops demo :=
  mkProcOps (W := demo)
    (fun w _ _ => match w.(dm_reads) with [] => (w, IoAgain) | r :: l => (mkDemoW l w.(dm_removed) w.(dm_fd), r) end)
    (fun w _ d => (w, IoDone (Z.min 2 (zlen d)))) (fun w => (w, true))
    (fun w => (mkDemoW w.(dm_reads) w.(dm_removed) (w.(dm_fd) + 2), Some (w.(dm_fd), w.(dm_fd) + 1)))
    (fun w _ => (w, true)) (fun w _ => (w, true)) (fun w _ => (w, true))
    (fun w fd => mkDemoW w.(dm_reads) (w.(dm_removed) ++ [fd]) w.(dm_fd)) (fun w _ => w) (fun w _ _ => w) (fun _ _ => true)
    (fun w => (w, Some 9)) (fun w => (w, true)) (fun w => (w, true)).

Definition demo_spec : proc_spec :=
  mkProcSpec (Some (bytes_of_string "/bin/cat")) None None true true false true false true 0 false.
Definition demo_fork (w : demo) : demo * Z := (w, 42).
Definition demo_init : demo := mkDemoW [IoDone (bytes_of_string "hi"); IoAgain; IoDone []] [] 10.
Definition demo_cc (o : option (cc demo)) : cc demo := default (mkCC demo_init None false []) o.

(** [cat] is started, gets three bytes, prints two, ends, and its output is closed. *)
Definition demo_c1 : cc demo := Eval vm_compute in demo_cc (fst <$> (fst <$> iwn_proc_spawn demo_proc_ops demo_fork (mkCC demo_init None false []) demo_spec true)).
Definition demo_c2 : cc demo := Eval vm_compute in demo_cc (fst <$> iwn_proc_stdin_write demo_proc_ops demo_c1 42 [104; 105; 10] true).
Definition demo_c3 : cc demo := Eval vm_compute in demo_cc (fst <$> _on_stdin_write demo_proc_ops 5 demo_c2 42 13).
Definition demo_c4 : cc demo := Eval vm_compute in demo_cc (fst <$> _on_stdout_ready demo_proc_ops 5 demo_c3 42 10).
Definition demo_c5 : cc demo := Eval vm_compute in demo_cc (_proc_wait_turn demo_proc_ops demo_c4 (Some (42, 0))).
Definition demo_c6 : cc demo := Eval vm_compute in demo_cc (_on_fd_dispose demo_proc_ops demo_c5 42 10).

Example demo_log : demo_c6.(c_log) =
  [EvAdded 42 true; EvQueued 42 [104; 105; 10]; EvFed 42 [104; 105]; EvFed 42 [10]; EvOutput 42 FDS_STDOUT [104; 105]; EvReaped 42 0; EvExit 42 0].
Proof. vm_compute. reflexivity. Qed.



(** The slot of stdout is in the poller before its reference is taken.  A child that closes its output at once: the slot is disposed of in
    between, and takes the reference of the child with it.  The application's [on_exit] is called, with the status -1, for a child that
    runs. *)
Definition race_c0 : cc demo :=
  let p := {| (_proc_create demo_spec) with p_pid := 42; p_fds := [10; -1; -1] |} in
  (_proc_add demo_proc_ops (mkCC (mkDemoW [IoDone []] [] 14) None false []) p).1.
Example early_exit :
  let c := (add_channel demo_proc_ops race_c0 42 11 10 FDS_STDOUT).1 in
  (c ← fst <$> _on_stdout_ready demo_proc_ops 5 c 42 10; c ← _on_fd_dispose demo_proc_ops c 42 10; Some (c.(c_log), promised 42 c.(c_log), (_proc_ref c 42).2))
  = Some ([EvAdded 42 true; EvExit 42 (-1)], None, false).
Proof. vm_compute. reflexivity. Qed.

(** The slot of stdin has no [on_dispose]: after its end the number of the closed descriptor stays in the process, and the exit removes
    whatever has this number then. *)
Example stdin_removed_twice :
  demo_c6.(c_w).(dm_removed) = [13] /\ (snd <$> _on_stdin_write demo_proc_ops 5 demo_c2 42 13) = Some (-1).
Proof. vm_compute. by split. Qed.

(** A program that [execvp] cannot start: [iwn_proc_spawn] returns in the child, which goes on as a second copy of the parent; [execv]
    ends it. *)
Example child_returns : forall p fds find, length fds = 6%nat -> p.(p_spec).(sp_pdeath) = 0 -> p.(p_spec).(sp_find) = find ->
  ch_end <$> child_side p fds true false false = Some (if find then ChildReturn PRC_ERRNO else ChildExit 1).
Proof. intros p [|f0 [|f1 [|f2 [|f3 [|f4 [|f5 [|]]]]]]] find Hl Hp <-; try done. unfold child_side. cbn. by rewrite Hp. Qed.

(** [argv] of a program with the arguments [["ls"; "-l"]], the first being its name as documented: the name is there twice. *)
Example argv_shifted :
  let spec := {| demo_spec with sp_path := Some (bytes_of_string "/bin/ls"); sp_args := Some [bytes_of_string "ls"; bytes_of_string "-l"] |} in
  (fun '(_, p, _, _) => p.(p_argv)) (_proc_init demo_proc_ops demo_init (_proc_create spec) (bytes_of_string "/bin/ls") (replicate 6 (-1)))
  = [bytes_of_string "/bin/ls"; bytes_of_string "ls"; bytes_of_string "-l"].
Proof. vm_compute. reflexivity. Qed.

(** Without arguments [iwn_proc_command_get] reads through a null pointer. *)
Example command_without_args : iwn_proc_command_get demo_spec = None.
Proof. reflexivity. Qed.
