(* ===== verification/Poller.v ===== *)
(** * Poller: the event poller as a concurrent state machine

    [src/src/poller/iwn_poller.c] in its epoll variant.  Slots are allocated memory with a reference count that is
    shared by the table of the poller and by the threads that work on a slot; everything is done under one mutex.
    The model keeps the slots in an explicit heap.  What a thread still has to do is an activity; an
    activity makes one critical section of the code, or one stretch of code outside of the mutex, per step, and the
    activities of all threads interleave.

    [None] is undefined behaviour: an access to a freed slot, or a second unlock of the mutex. *)
From S2P Require Import Prelude.

Abbreviation sloc := positive.

Definition INT_MAX : Z := 2147483647.
Definition IWN_POLLTIMEOUT : Z := 2 ^ 21.
Definition is_timer (events : Z) : bool := negb (Z.land events IWN_POLLTIMEOUT =? 0).

(** [EPOLLIN | EPOLLET | EPOLLONESHOT], the events of the slot of a timer. *)
Definition TIMER_EVENTS : Z := Z.lor 1 (Z.lor (2 ^ 31) (2 ^ 30)).

(** [struct poller_slot]; the bits of [flags] are booleans.  [sl_cb] says whether [on_ready] is there, [sl_dispose]
    whether [on_dispose] is. *)
Record slot := mkSlot {
  sl_fd : Z; sl_cb : bool; sl_dispose : bool; sl_events : Z; sl_events_mod : Z; sl_timeout : Z;
  sl_refs : Z; sl_events_processing : Z; sl_events_update : Z; sl_events_armed : Z;
  sl_remove_pending : bool; sl_removed : bool; sl_processing : bool; sl_unsubscribed : bool;
  sl_timeout_limit : Z; sl_destroy_cas : bool; sl_abort : bool }.

(** What the outside sees: [on_dispose] is called, a descriptor is closed. *)
Inductive note := Disposed (l : sloc) | Closed (fd : Z).

(** [struct iwn_poller], with the interest set of epoll, the time the timer descriptor is set to, and the memory. *)
Record poller := mkPoller {
  po_heap : gmap sloc slot; po_slots : gmap Z sloc; po_fds_count : Z; po_stop : bool; po_no_fds : bool;
  po_timeout_next : Z; po_timeout_checktime : Z; po_timer : Z; po_housekeeping : bool;
  po_interest : gmap Z Z; po_log : list note }.

(** ** Activities *)

Inductive act :=
| ASchedule (l : sloc)                          (* the polling thread hands the slot to the thread pool *)
| AWorker (l : sloc) (fd events : Z)            (* [_worker_fn] at [start] *)
| AReturned (l : sloc) (fd n : Z)               (* [on_ready] has returned *)
| ATail (l : sloc) (timeout : Z)                (* the end of [_worker_fn], behind the last unref *)
| ARemove (fd : Z)                              (* about to call [iwn_poller_remove] *)
| ADestroy (l : sloc)                           (* about to call [_slot_destroy] *)
| AFree (l : sloc)                              (* [_slot_destroy] behind [on_dispose] *)
| AExpired (ls : list sloc)                     (* [_timer_ready_impl] with its list of slots *)
| AProbe (l : sloc)                             (* [iwn_poller_probe] in the callback *)
| AUser (l : sloc)                              (* a reference taken by [iwn_poller_fd_ref] *)
| AAddCtl (l : sloc)                            (* [iwn_poller_add2] behind [_slot_ref] *)
| AAddTail (l : sloc)                           (* [iwn_poller_add2] behind [epoll_ctl] *)
| ACheck (l : sloc).                            (* [iwn_poller_set_timeout] behind the mutex *)

(** ** Helpers under the mutex *)

Definition upd_slot (p : poller) (l : sloc) (f : slot -> slot) : poller := {| p with po_heap := alter f l p.(po_heap) |}.
Definition say (p : poller) (x : note) : poller := {| p with po_log := p.(po_log) ++ [x] |}.

(** [epoll_ctl(EPOLL_CTL_DEL)] *)
Definition _rw_fd_unsubscribe (p : poller) (l : sloc) (s : slot) : poller :=
  if s.(sl_unsubscribed) then p
  else
    let p := upd_slot p l (fun s => {| s with sl_unsubscribed := true |}) in
    {| p with po_interest := delete s.(sl_fd) p.(po_interest) |}.

(** The table lets go of a slot whose last reference is gone; [keep] says whether the poller goes on without descriptors. *)
Definition slot_drop (keep : bool) (p : poller) (l : sloc) (s : slot) : poller :=
  let p := upd_slot p l (fun s => {| s with sl_removed := true |}) in
  let p := _rw_fd_unsubscribe p l s in
  match p.(po_slots) !! s.(sl_fd) with
  | Some _ =>
      let count := p.(po_fds_count) - 1 in
      {| p with po_slots := delete s.(sl_fd) p.(po_slots); po_fds_count := count; po_stop := p.(po_stop) || ((count <? 3) && negb keep) |}
  | None => p
  end.

(** [locked] stands for [REF_LOCKED]: with it, and on a removed slot, the mutex is unlocked although the caller unlocks it. *)
Definition _slot_unref (locked : bool) (p : poller) (l : sloc) : option (poller * bool) :=
  s ← p.(po_heap) !! l;
  if s.(sl_removed) then if locked then None else Some (p, false)
  else
    let refs := s.(sl_refs) - 1 in
    let p := upd_slot p l (fun s => {| s with sl_refs := refs |}) in
    if refs =? 0 then Some (slot_drop p.(po_no_fds) p l s, true) else Some (p, false).

Definition if_destroy (l : sloc) (destroy : bool) : list act := if destroy then [ADestroy l] else [].

(** [_slot_ref] of a new slot; the entry of the table can be made. *)
Definition _slot_ref (p : poller) (l : sloc) (s : slot) : poller * bool :=
  match p.(po_slots) !! s.(sl_fd) with
  | Some _ => (p, false)
  | None => ({| p with po_heap := <[l := {| s with sl_refs := 1 |}]> p.(po_heap); po_slots := <[s.(sl_fd) := l]> p.(po_slots); po_fds_count := p.(po_fds_count) + 1 |}, true)
  end.

Definition _slot_ref_id (p : poller) (fd : Z) : option (poller * option sloc) :=
  match p.(po_slots) !! fd with
  | None => Some (p, None)
  | Some l =>
      s ← p.(po_heap) !! l;
      if s.(sl_removed) || s.(sl_remove_pending) then Some (p, None)
      else Some (upd_slot p l (fun s => {| s with sl_refs := s.(sl_refs) + 1 |}), Some l)
  end.

Definition set_pending (p : poller) (l : sloc) : poller := upd_slot p l (fun s => {| s with sl_remove_pending := true |}).

(** The second result is [false] when the slot was being removed already: then the reference of the caller stays. *)
Definition _slot_remove_unref (p : poller) (fd : Z) : option (poller * list act * bool) :=
  match p.(po_slots) !! fd with
  | None => Some (p, [], false)
  | Some l =>
      s ← p.(po_heap) !! l;
      if s.(sl_remove_pending) || s.(sl_removed) then Some (p, [], false)
      else
        '(p, destroy) ← _slot_unref true (set_pending p l) l;
        '(p, destroy) ← if (destroy : bool) then Some (p, true) else _slot_unref true p l;
        Some (p, if_destroy l destroy, true)
  end.

Definition iwn_poller_remove (p : poller) (fd : Z) : option (poller * list act) :=
  match p.(po_slots) !! fd with
  | None => Some (if -1 <? fd then say {| p with po_interest := delete fd p.(po_interest) |} (Closed fd) else p, [])
  | Some l =>
      s ← p.(po_heap) !! l;
      if s.(sl_remove_pending) then Some (p, [])
      else
        let p := _rw_fd_unsubscribe (set_pending p l) l s in
        '(p, destroy) ← _slot_unref true p l;
        Some (p, if_destroy l destroy)
  end.

(** [iwn_poller_fd_ref] with any number of references. *)
Definition iwn_poller_fd_ref (p : poller) (fd refs : Z) : option (poller * list act * bool) :=
  match p.(po_slots) !! fd with
  | None => Some (p, [], false)
  | Some l =>
      s ← p.(po_heap) !! l;
      let n := s.(sl_refs) + refs in
      let p := upd_slot p l (fun s => {| s with sl_refs := n |}) in
      if n =? 0 then
        Some (slot_drop false p l s, [ADestroy l], true)
      else Some (p, [], true)
  end.

Definition iwn_poller_fd_is_managed (p : poller) (fd : Z) : bool := bool_decide (is_Some (p.(po_slots) !! fd)).

(** ** Timeouts *)

Definition expires (now : Z) (s : slot) : bool :=
  negb (s.(sl_removed) || s.(sl_remove_pending) || s.(sl_processing)) && (s.(sl_timeout_limit) <=? now).

(** The slots of the table, in the order of the iterator. *)
Definition table (p : poller) : list (sloc * slot) :=
  omap (fun '(_, l) => (fun s => (l, s)) <$> p.(po_heap) !! l) (map_to_list p.(po_slots)).

Definition collect (p : poller) (l : sloc) : poller :=
  upd_slot p l (fun s => {| s with sl_refs := s.(sl_refs) + 1; sl_timeout_limit := INT_MAX |}).

Definition next_timeout (now : Z) (x : Z) (s : slot) : Z :=
  if negb (s.(sl_removed) || s.(sl_remove_pending) || s.(sl_processing)) && negb (s.(sl_timeout_limit) <=? now) && (s.(sl_timeout_limit) <? x)
  then s.(sl_timeout_limit) else x.

(** [_timer_ready]: at most one thread is in [_timer_ready_impl], and nobody else writes [timeout_next].  With slots to
    remove, the timer descriptor is set when they are gone. *)
Definition _timer_ready (p : poller) (now : Z) : poller * list act :=
  if p.(po_housekeeping) then (p, [])
  else if now =? p.(po_timeout_checktime) then ({| p with po_timer := now + 86400 |}, [])
  else
    let all := table p in
    let ls := fst <$> filter (fun x => expires now x.2 = true) all in
    let next := foldl (fun x y => next_timeout now x y.2) (now + 86400) all in
    let p := foldl collect p ls in
    ({| p with po_timeout_checktime := now; po_timeout_next := next; po_housekeeping := true |}, [AExpired (rev ls)]).

Definition _timer_check (p : poller) (limit now : Z) : poller * list act :=
  if (limit <? p.(po_timeout_next)) || (p.(po_timeout_next) =? 0) then _timer_ready p now else (p, []).

(** ** One step of an activity *)

(** What the environment decides: the value of [on_ready], the results of [epoll_ctl] and of [iwtp_schedule], the time. *)
Record choice := mkChoice { ch_n : Z; ch_ctl : bool; ch_sched : bool; ch_now : Z }.

(** [epoll_ctl(EPOLL_CTL_MOD)] *)
Definition epoll_mod (ok : bool) (p : poller) (fd events : Z) : poller * bool :=
  if ok && bool_decide (is_Some (p.(po_interest) !! fd)) then ({| p with po_interest := <[fd := events]> p.(po_interest) |}, true) else (p, false).

(** The critical section at the end of [_worker_fn], for an answer that is not negative. *)
Definition worker_end (ch : choice) (p : poller) (l : sloc) (s : slot) (fd n : Z) : option (poller * list act) :=
  let events := if 0 <? n then u32 n else s.(sl_events) in
  if negb (s.(sl_events_update) =? 0) then
    Some (upd_slot p l (fun s => {| s with sl_events_update := 0 |}), [AWorker l fd s.(sl_events_update)])
  else
    let events := Z.lor (Z.lor events s.(sl_events_mod)) s.(sl_events_armed) in
    let p := upd_slot p l (fun s => {| s with sl_processing := false; sl_events_armed := 0 |}) in
    let '(p, ok) := if s.(sl_abort) then (p, true) else epoll_mod ch.(ch_ctl) p fd events in
    '(p, destroy) ← _slot_unref true p l;
    Some (p, if (destroy : bool) then [ADestroy l]
             else if s.(sl_abort) || negb ok then [ARemove fd]
             else if 0 <? s.(sl_timeout) then [ATail l s.(sl_timeout)] else []).

(** [iwn_poller_add2] at [finish] with an error. *)
Definition add_failed (p : poller) (l : sloc) (s : slot) : poller * list act * list sloc :=
  (upd_slot p l (fun s => {| s with sl_dispose := false |}), [ARemove s.(sl_fd)], []).

(** What an activity leads to: the new state, the activities that follow, and the slots whose reference is never given back. *)
Abbreviation outcome := (option (poller * list act * list sloc)).

(** [iwtp_schedule] *)
Definition schedule (ch : choice) (p : poller) (l : sloc) : outcome :=
  s ← p.(po_heap) !! l;
  if ch.(ch_sched) then Some (p, [AWorker l s.(sl_fd) s.(sl_events_processing)], [])
  else '(p, new, ok) ← _slot_remove_unref p s.(sl_fd); Some (p, new, if (ok : bool) then [] else [l]).

(** [_worker_fn] at [start]: the callback *)
Definition worker_start (ch : choice) (p : poller) (l : sloc) (fd : Z) : outcome :=
  s ← p.(po_heap) !! l;
  let n := if s.(sl_cb) then ch.(ch_n) else 0 in
  Some (p, [AReturned l fd (if is_timer s.(sl_events) then -1 else n)], []).

Definition worker_returned (ch : choice) (p : poller) (l : sloc) (fd n : Z) : outcome :=
  if n <? 0 then
    '(p, destroy) ← _slot_unref false p l;
    Some (p, if (destroy : bool) then [ADestroy l] else [ARemove fd], [])
  else s ← p.(po_heap) !! l; '(p, new) ← worker_end ch p l s fd n; Some (p, new, []).

Definition worker_tail (ch : choice) (p : poller) (l : sloc) (timeout : Z) : outcome :=
  s ← p.(po_heap) !! l;
  let limit := ch.(ch_now) + timeout in
  let '(p, new) := _timer_check (upd_slot p l (fun s => {| s with sl_timeout_limit := limit |})) limit ch.(ch_now) in Some (p, new, []).

(** Up to [on_dispose], and behind it. *)
Definition _slot_destroy (p : poller) (l : sloc) : outcome :=
  s ← p.(po_heap) !! l;
  if s.(sl_destroy_cas) then Some (p, [], [])
  else
    let p := upd_slot p l (fun s => {| s with sl_destroy_cas := true |}) in
    Some (if s.(sl_dispose) then say p (Disposed l) else p, [AFree l], []).

Definition slot_free (p : poller) (l : sloc) : outcome :=
  s ← p.(po_heap) !! l;
  let p := if -1 <? s.(sl_fd) then say {| p with po_interest := delete s.(sl_fd) p.(po_interest) |} (Closed s.(sl_fd)) else p in
  Some ({| p with po_heap := delete l p.(po_heap) |}, [], []).

(** The loop of [_timer_ready_impl] over its list, and its end *)
Definition expired (p : poller) (ls : list sloc) : outcome :=
  match ls with
  | [] => Some ({| p with po_timer := p.(po_timeout_next); po_housekeeping := false |}, [], [])
  | l :: ls =>
      s ← p.(po_heap) !! l;
      '(p, new, ok) ← _slot_remove_unref p s.(sl_fd); Some (p, AExpired ls :: new, if (ok : bool) then [] else [l])
  end.

(** [iwn_poller_probe] behind the callback *)
Definition probed (p : poller) (l : sloc) : outcome := '(p, destroy) ← _slot_unref false p l; Some (p, if_destroy l destroy, []).

(** A reference of [iwn_poller_fd_ref] is given back. *)
Definition user_unref (p : poller) (l : sloc) : outcome := s ← p.(po_heap) !! l; '(p, new, _) ← iwn_poller_fd_ref p s.(sl_fd) (-1); Some (p, new, []).

(** [epoll_ctl(EPOLL_CTL_ADD)] of [iwn_poller_add2] and of [_poller_timeout_add] *)
Definition add_ctl (ch : choice) (p : poller) (l : sloc) : outcome :=
  s ← p.(po_heap) !! l;
  let events := if is_timer s.(sl_events) then TIMER_EVENTS else Z.lor s.(sl_events) s.(sl_events_mod) in
  if ch.(ch_ctl) then Some ({| p with po_interest := <[s.(sl_fd) := events]> p.(po_interest) |}, [AAddTail l], [])
  else Some (add_failed p l s).

(** The rest of [iwn_poller_add2]: [timerfd_settime] for a timer, the timeout for the others *)
Definition add_tail (ch : choice) (p : poller) (l : sloc) : outcome :=
  s ← p.(po_heap) !! l;
  if is_timer s.(sl_events) then Some (if ch.(ch_ctl) then (p, [], []) else add_failed p l s)
  else if 0 <? s.(sl_timeout) then
    let limit := ch.(ch_now) + s.(sl_timeout) in
    let '(p, new) := _timer_check (upd_slot p l (fun s => {| s with sl_timeout_limit := limit |})) limit ch.(ch_now) in Some (p, new, [])
  else Some (upd_slot p l (fun s => {| s with sl_timeout_limit := INT_MAX |}), [], []).

Definition timeout_check (ch : choice) (p : poller) (l : sloc) : outcome :=
  s ← p.(po_heap) !! l; let '(p, new) := _timer_check p s.(sl_timeout_limit) ch.(ch_now) in Some (p, new, []).

Definition exec (ch : choice) (p : poller) (a : act) : outcome :=
  match a with
  | ASchedule l => schedule ch p l
  | AWorker l fd events => worker_start ch p l fd
  | AReturned l fd n => worker_returned ch p l fd n
  | ATail l timeout => worker_tail ch p l timeout
  | ARemove fd => '(p, new) ← iwn_poller_remove p fd; Some (p, new, [])
  | ADestroy l => _slot_destroy p l
  | AFree l => slot_free p l
  | AExpired ls => expired p ls
  | AProbe l => probed p l
  | AUser l => user_unref p l
  | AAddCtl l => add_ctl ch p l
  | AAddTail l => add_tail ch p l
  | ACheck l => timeout_check ch p l
  end.

(** ** What comes from outside *)

(** [struct iwn_poller_task]; [t_fd] is the descriptor, of a timer for a task with [IWN_POLLTIMEOUT]. *)
Record task := mkTask { t_fd : Z; t_cb : bool; t_dispose : bool; t_events : Z; t_events_mod : Z; t_timeout : Z }.

Definition new_slot (t : task) : slot :=
  mkSlot t.(t_fd) t.(t_cb) t.(t_dispose) t.(t_events) t.(t_events_mod) t.(t_timeout) 0 0 0 0 false false false false
    (if is_timer t.(t_events) then INT_MAX else 0) false false.

Inductive input :=
| InAdd (l : sloc) (t : task)
| InRemove (fd : Z)
| InEvent (fd events : Z)
| InTimer (now : Z)
| InProbe (fd : Z)
| InRef (fd : Z)
| InArm (fd events : Z) (ok : bool)
| InTimeout (fd sec now : Z)
| InCleanup
| InStop                                        (* [iwn_poller_shutdown_request] *)
| InPoll                                        (* [iwn_poller_poll] in front of its loop *)
| InFlags (no_fds : bool).                      (* [iwn_poller_flags_set] *)

(** [iwn_poller_add2] up to [_slot_ref]; [l] is the memory [calloc] gives. *)
Definition iwn_poller_add2 (p : poller) (l : sloc) (t : task) : poller * list act * bool :=
  if negb (is_timer t.(t_events)) && (t.(t_fd) <? 0) then (p, [], false)
  else if is_timer t.(t_events) && ((t.(t_timeout) <? 1) || (t.(t_fd) <? 0)) then (p, [], false)
  else
    let '(q, ok) := _slot_ref p l (new_slot t) in
    if ok then (q, [AAddCtl l], true)
    else (if is_timer t.(t_events) then say p (Closed t.(t_fd)) else p, [], false).

(** One event of the loop of [iwn_poller_poll]; [hup] says that the peer hung up or an error was signalled. *)
Definition poll_slot (p : poller) (fd events : Z) (hup : bool) : option (poller * list act) :=
  '(p, r) ← _slot_ref_id p fd;
  match r with
  | None => Some (p, if hup then [ARemove fd] else [])
  | Some l =>
      s ← p.(po_heap) !! l;
      if events =? 0 then
        '(p, destroy) ← _slot_unref true p l;
        let p := if hup then upd_slot p l (fun s => {| s with sl_abort := true |}) else p in
        Some (p, if (destroy : bool) then [ADestroy l] else if hup || s.(sl_abort) then [ARemove fd] else [])
      else if s.(sl_processing) then
        let p := upd_slot p l (fun s => {| s with sl_abort := hup || s.(sl_abort); sl_events_update := Z.lor s.(sl_events_update) events |}) in
        '(p, destroy) ← _slot_unref true p l;
        Some (p, if_destroy l destroy)
      else
        Some (upd_slot p l (fun s => {| s with sl_abort := hup || s.(sl_abort); sl_processing := true; sl_events_update := 0;
                                               sl_events_processing := events; sl_timeout_limit := INT_MAX |}), [ASchedule l])
  end.

(** [EPOLLRDHUP | EPOLLHUP | EPOLLERR] *)
Definition HUP_EVENTS : Z := Z.lor 8192 (Z.lor 16 8).
Definition poll_event (p : poller) (fd events : Z) : option (poller * list act) :=
  poll_slot p fd (Z.ldiff events HUP_EVENTS) (negb (Z.land events HUP_EVENTS =? 0)).

Definition iwn_poller_arm_events (ok : bool) (p : poller) (fd events : Z) : option poller :=
  match p.(po_slots) !! fd with
  | None => Some p
  | Some l =>
      s ← p.(po_heap) !! l;
      if s.(sl_abort) then Some p
      else if s.(sl_processing) then Some (upd_slot p l (fun s => {| s with sl_events_armed := Z.lor s.(sl_events_armed) events |}))
      else Some (fst (epoll_mod ok p fd (Z.lor events s.(sl_events_mod))))
  end.

Definition iwn_poller_set_timeout (p : poller) (fd sec now : Z) : option (poller * list act) :=
  match p.(po_slots) !! fd with
  | None => Some (p, [])
  | Some l =>
      s ← p.(po_heap) !! l;
      if (s.(sl_timeout) =? sec) || is_timer s.(sl_events) then Some (p, [])
      else if 0 <? sec then Some (upd_slot p l (fun s => {| s with sl_timeout := sec; sl_timeout_limit := now + sec |}), [ACheck l])
      else Some (upd_slot p l (fun s => {| s with sl_timeout := 0; sl_timeout_limit := INT_MAX |}), [])
  end.

(** The descriptors [_poller_cleanup] removes, the last one first. *)
Definition _poller_cleanup (p : poller) : list act := (fun x => ARemove x.1) <$> rev (map_to_list p.(po_slots)).

Definition iwn_poller_shutdown_request (p : poller) : poller := {| p with po_stop := true |}.
Definition iwn_poller_flags_set (p : poller) (no_fds : bool) : poller := {| p with po_no_fds := no_fds |}.
Definition iwn_poller_alive (p : poller) : bool := negb p.(po_stop).

(** [iwn_poller_poll] in front of its loop; the two service descriptors are there already. *)
Definition poll_begin (p : poller) : poller := {| p with po_stop := (p.(po_fds_count) <? 3) && negb p.(po_no_fds) |}.

Definition accept (p : poller) (i : input) : option (poller * list act) :=
  match i with
  | InAdd l t => let '(p, new, _) := iwn_poller_add2 p l t in Some (p, new)
  | InRemove fd => Some (p, [ARemove fd])
  | InEvent fd events => poll_event p fd events
  | InTimer now => Some (_timer_ready p now)
  | InProbe fd => '(p, r) ← _slot_ref_id p fd; Some (p, match r with Some l => [AProbe l] | None => [] end)
  | InRef fd => l ← Some (p.(po_slots) !! fd); '(p, _, ok) ← iwn_poller_fd_ref p fd 1; Some (p, match l with Some l => if (ok : bool) then [AUser l] else [] | None => [] end)
  | InArm fd events ok => p ← iwn_poller_arm_events ok p fd events; Some (p, [])
  | InTimeout fd sec now => iwn_poller_set_timeout p fd sec now
  | InCleanup => Some (p, _poller_cleanup p)
  | InStop => Some (iwn_poller_shutdown_request p, [])
  | InPoll => Some (poll_begin p, [])
  | InFlags b => Some (iwn_poller_flags_set p b, [])
  end.

(** ** Runs *)

(** The poller, what its threads have to do, and the references that nobody will give back. *)
Record sys := mkSys { y_p : poller; y_acts : list act; y_lost : list sloc }.

Inductive step : sys -> sys -> Prop :=
| step_act ch p a b x lost p' new more :
    exec ch p x = Some (p', new, more) -> step (mkSys p (a ++ x :: b) lost) (mkSys p' (a ++ new ++ b) (lost ++ more))
| step_in p acts lost i p' new :
    (forall l t, i = InAdd l t -> p.(po_heap) !! l = None) -> accept p i = Some (p', new) -> step (mkSys p acts lost) (mkSys p' (acts ++ new) lost).

Definition poller_new (no_fds : bool) : poller := mkPoller ∅ ∅ 0 false no_fds 0 0 0 false ∅ [].

Inductive reachable (no_fds : bool) : sys -> Prop :=
| reach_new : reachable no_fds (mkSys (poller_new no_fds) [] [])
| reach_step y y' : reachable no_fds y -> step y y' -> reachable no_fds y'.
