(* ===== verification/PollerInv.v ===== *)
(** * PollerInv: the reference counts of the poller

    In every reachable state the count of a slot is one for the table, as long as the slot is not being removed, plus one
    for every activity that holds a reference, plus those that were lost.  So a slot an activity holds is alive, and a
    slot is disposed of and freed exactly once. *)
From S2P Require Import Prelude Poller.

(** ** What activities hold *)

Definition b2n (b : bool) : nat := if b then 1%nat else 0%nat.
Definition one (l l' : sloc) : nat := b2n (bool_decide (l = l')).
Definition many (l : sloc) (ls : list sloc) : nat := sum_list_with (one l) ls.

(** References, disposals to come, frees to come, workers. *)
Definition holds (l : sloc) (a : act) : nat :=
  match a with
  | ASchedule l' | AWorker l' _ _ | AReturned l' _ _ | AProbe l' | AUser l' => one l l'
  | AExpired ls => many l ls
  | _ => 0%nat
  end.
Definition disposes (l : sloc) (a : act) : nat := match a with ADestroy l' => one l l' | _ => 0%nat end.
Definition frees (l : sloc) (a : act) : nat := match a with AFree l' => one l l' | _ => 0%nat end.
Definition works (l : sloc) (a : act) : nat := match a with ASchedule l' | AWorker l' _ _ | AReturned l' _ _ => one l l' | _ => 0%nat end.

Definition total (f : sloc -> act -> nat) (acts : list act) (l : sloc) : nat := sum_list_with (f l) acts.

(** ** The invariant *)

Definition owner (s : slot) : Z := if s.(sl_remove_pending) then 0 else 1.

(** [h], [d], [f], [w] count what the activities hold; [k] counts the lost references. *)
Record slot_ok (p : poller) (l : sloc) (s : slot) (h d f w k : nat) : Prop := {
  so_refs : s.(sl_refs) = owner s + Z.of_nat h + Z.of_nat k;
  so_life : if s.(sl_removed) then s.(sl_refs) = 0 /\ d = b2n (negb s.(sl_destroy_cas)) /\ f = b2n s.(sl_destroy_cas)
            else 0 < s.(sl_refs) /\ p.(po_slots) !! s.(sl_fd) = Some l /\ s.(sl_destroy_cas) = false /\ d = 0%nat /\ f = 0%nat;
  so_work : (w <= b2n s.(sl_processing))%nat }.

Record core (p : poller) (h d f w k : sloc -> nat) : Prop := {
  co_slot : forall l s, p.(po_heap) !! l = Some s -> slot_ok p l s (h l) (d l) (f l) (w l) (k l);
  co_none : forall l, p.(po_heap) !! l = None -> h l = 0%nat /\ d l = 0%nat /\ f l = 0%nat /\ w l = 0%nat /\ k l = 0%nat;
  co_table : forall fd l, p.(po_slots) !! fd = Some l -> exists s, p.(po_heap) !! l = Some s /\ s.(sl_fd) = fd /\ s.(sl_removed) = false;
  co_count : p.(po_fds_count) = Z.of_nat (size p.(po_slots)) }.

Definition inv (y : sys) : Prop :=
  core y.(y_p) (total holds y.(y_acts)) (total disposes y.(y_acts)) (total frees y.(y_acts)) (total works y.(y_acts)) (fun l => many l y.(y_lost)).

(** ** Changing a slot *)

Implicit Types (p : poller) (l : sloc) (h d f w k : sloc -> nat).

Definition plus (g : sloc -> nat) (l : sloc) (n : nat) : sloc -> nat := fun x => (g x + n * one x l)%nat.

Lemma one_refl l : one l l = 1%nat.
Proof. unfold one. by rewrite bool_decide_true. Qed.
Lemma one_ne l l' : l <> l' -> one l l' = 0%nat.
Proof. intros H. unfold one. by rewrite bool_decide_false. Qed.

Lemma core_ext p h d f w k h' d' f' w' k' : core p h d f w k ->
  (forall l, h l = h' l /\ d l = d' l /\ f l = f' l /\ w l = w' l /\ k l = k' l) -> core p h' d' f' w' k'.
Proof.
  intros [Hs Hn Ht Hc] He. split; [| |done|done].
  - intros l s Hl. destruct (He l) as (<- & <- & <- & <- & <-). by apply Hs.
  - intros l Hl. destruct (He l) as (<- & <- & <- & <- & <-). by apply Hn.
Qed.

(** A slot is changed, its place in the table is not. *)
Lemma core_alter p l s (g : slot -> slot) h d f w k h' d' f' w' k' : core p h d f w k -> p.(po_heap) !! l = Some s ->
  (g s).(sl_fd) = s.(sl_fd) -> (g s).(sl_removed) = s.(sl_removed) ->
  slot_ok p l (g s) (h' l) (d' l) (f' l) (w' l) (k' l) ->
  (forall x, x <> l -> h' x = h x /\ d' x = d x /\ f' x = f x /\ w' x = w x /\ k' x = k x) ->
  core (upd_slot p l g) h' d' f' w' k'.
Proof.
  intros [Hs Hn Ht Hc] Hl Hfd Hrm Hok Ho. split; cbn [upd_slot po_heap po_slots po_fds_count]; [| | |done].
  - intros x sx Hx. destruct (decide (x = l)) as [->|Hne].
    + rewrite lookup_alter_eq, Hl in Hx. injection Hx as <-. destruct Hok. by split.
    + rewrite lookup_alter_ne in Hx by done. destruct (Ho x Hne) as (-> & -> & -> & -> & ->). destruct (Hs x sx Hx). by split.
  - intros x Hx. assert (x <> l) as Hne by (intros ->; rewrite lookup_alter_eq, Hl in Hx; done). rewrite lookup_alter_ne in Hx by done. destruct (Ho x Hne) as (-> & -> & -> & -> & ->). by apply Hn.
  - intros fd x Hx. destruct (Ht fd x Hx) as (sx & Hsx & Hf & Hr). destruct (decide (x = l)) as [->|Hne].
    + rewrite Hl in Hsx. injection Hsx as <-. exists (g s). rewrite lookup_alter_eq, Hl. split; [done|]. by rewrite Hfd, Hrm.
    + exists sx. by rewrite lookup_alter_ne.
Qed.

(** Fields that have nothing to do with references. *)
Definition same_refs (s s' : slot) : Prop :=
  s'.(sl_fd) = s.(sl_fd) /\ s'.(sl_removed) = s.(sl_removed) /\ s'.(sl_refs) = s.(sl_refs) /\ s'.(sl_remove_pending) = s.(sl_remove_pending) /\
  s'.(sl_destroy_cas) = s.(sl_destroy_cas) /\ s'.(sl_processing) = s.(sl_processing).

(** The same, except for [sl_processing]. *)
Definition same_core (s s' : slot) : Prop :=
  s'.(sl_fd) = s.(sl_fd) /\ s'.(sl_removed) = s.(sl_removed) /\ s'.(sl_refs) = s.(sl_refs) /\ s'.(sl_remove_pending) = s.(sl_remove_pending) /\ s'.(sl_destroy_cas) = s.(sl_destroy_cas).

Lemma core_update p l (g : slot -> slot) h d f w k : core p h d f w k -> (forall s, same_refs s (g s)) -> core (upd_slot p l g) h d f w k.
Proof.
  intros Hc Hg. destruct (p.(po_heap) !! l) as [s|] eqn:Hl.
  - destruct (Hg s) as (E1 & E2 & E3 & E4 & E5 & E6). apply (core_alter p l s g h d f w k); [done|done|done|done| |done].
    destruct (co_slot _ _ _ _ _ _ Hc l s Hl) as [A B C]. split; [unfold owner in *; by rewrite E3, E4|rewrite E2, E3, E1, E5; done|by rewrite E6].
  - assert (upd_slot p l g = p) as ->; [|done]. unfold upd_slot. assert (alter g l p.(po_heap) = p.(po_heap)) as ->; [|by destruct p].
    apply map_eq. intros x. destruct (decide (x = l)) as [->|]; [by rewrite lookup_alter_eq, Hl|by rewrite lookup_alter_ne].
Qed.

(** ** Giving references back *)

Lemma alter_twice {A} (g g' : A -> A) (l : sloc) (m : gmap sloc A) : alter g l (alter g' l m) = alter (fun x => g (g' x)) l m.
Proof. apply map_eq. intros x. destruct (decide (x = l)) as [->|]; [rewrite !lookup_alter_eq; by destruct (m !! l)|by rewrite !lookup_alter_ne]. Qed.

(** What [slot_drop] does to the memory and to the table. *)
Definition dropped (s s' : slot) : Prop :=
  s'.(sl_fd) = s.(sl_fd) /\ s'.(sl_removed) = true /\ s'.(sl_refs) = s.(sl_refs) /\ s'.(sl_remove_pending) = s.(sl_remove_pending) /\
  s'.(sl_destroy_cas) = s.(sl_destroy_cas) /\ s'.(sl_processing) = s.(sl_processing).

Lemma drop_shape keep p l s : is_Some (p.(po_slots) !! s.(sl_fd)) ->
  exists g, (slot_drop keep p l s).(po_heap) = alter g l p.(po_heap) /\ (forall x, dropped x (g x)) /\
    (slot_drop keep p l s).(po_slots) = delete s.(sl_fd) p.(po_slots) /\ (slot_drop keep p l s).(po_fds_count) = p.(po_fds_count) - 1.
Proof.
  intros [x Hx]. unfold slot_drop, _rw_fd_unsubscribe. destruct (sl_unsubscribed s); cbn [upd_slot po_slots]; rewrite Hx; cbn [po_heap po_slots po_fds_count].
  - eexists. split; [reflexivity|]. by split.
  - eexists. split; [apply alter_twice|]. by split.
Qed.

Lemma drop_keep keep keep' p l s : (slot_drop keep' p l s).(po_heap) = (slot_drop keep p l s).(po_heap) /\
  (slot_drop keep' p l s).(po_slots) = (slot_drop keep p l s).(po_slots) /\ (slot_drop keep' p l s).(po_fds_count) = (slot_drop keep p l s).(po_fds_count).
Proof. unfold slot_drop. by destruct (_ !! _). Qed.

(** The last reference is given back. *)
Lemma core_drop p l s h d f w k : core p h d f w k -> p.(po_heap) !! l = Some s -> s.(sl_removed) = false -> h l = 1%nat -> owner s = 0 -> k l = 0%nat -> forall p' g,
  p'.(po_heap) = alter g l p.(po_heap) -> (g s).(sl_refs) = 0 -> (g s).(sl_removed) = true -> (g s).(sl_remove_pending) = s.(sl_remove_pending) ->
  (g s).(sl_destroy_cas) = s.(sl_destroy_cas) -> (g s).(sl_processing) = s.(sl_processing) ->
  p'.(po_slots) = delete s.(sl_fd) p.(po_slots) -> p'.(po_fds_count) = p.(po_fds_count) - 1 ->
  forall h' d', (forall x, h x = plus h' l 1 x) -> (forall x, d' x = plus d l 1 x) -> core p' h' d' f w k.
Proof.
  intros Hc Hl Hrm Hh Ho Hk p' g Eh E1 E2 E3 E4 E5 Es Ec h' d' Hh' Hd'. destruct (co_slot _ _ _ _ _ _ Hc l s Hl) as [A B C]. rewrite Hrm in B. destruct B as (B1 & B2 & B3 & B4 & B5).
  assert (h' l = 0%nat) as Hh0 by (specialize (Hh' l); unfold plus in Hh'; rewrite one_refl in Hh'; lia). assert (d' l = 1%nat) as Hd1 by (rewrite Hd'; unfold plus; rewrite one_refl; lia).
  assert (forall x, x <> l -> h' x = h x /\ d' x = d x) as Hoth by (intros x Hx; rewrite (Hh' x), (Hd' x); unfold plus; rewrite one_ne by done; lia).
  split; rewrite ?Eh, ?Es, ?Ec.
  - intros x sx Hx. destruct (decide (x = l)) as [->|Hne].
    + rewrite lookup_alter_eq, Hl in Hx. injection Hx as <-. split; [unfold owner in *; rewrite E1, E3; lia| |by rewrite E5]. rewrite E2, E4, B3. cbn. rewrite Hd1, B5. done.
    + rewrite lookup_alter_ne in Hx by done. destruct (Hoth x Hne) as [-> ->]. destruct (co_slot _ _ _ _ _ _ Hc x sx Hx) as [A' B' C']. split; [done| |done]. destruct (sl_removed sx); [done|]. rewrite Es.
      destruct B' as (? & Hx2 & ?). split; [done|]. split; [|done]. rewrite lookup_delete_ne; [done|]. intros E. rewrite E in B2. congruence.
  - intros x Hx. assert (x <> l) as Hne by (intros ->; rewrite lookup_alter_eq, Hl in Hx; done). rewrite lookup_alter_ne in Hx by done. destruct (Hoth x Hne) as [-> ->]. by apply (co_none _ _ _ _ _ _ Hc).
  - intros fd x Hx. apply lookup_delete_Some in Hx as [Hfd Hx]. destruct (co_table _ _ _ _ _ _ Hc fd x Hx) as (sx & Hsx & Hf & Hr). exists sx. rewrite lookup_alter_ne; [done|]. intros ->. rewrite Hl in Hsx. injection Hsx as <-. done.
  - rewrite (co_count _ _ _ _ _ _ Hc). rewrite map_size_delete_Some by eauto. pose proof (map_size_ne_0_lookup_2 p.(po_slots) (sl_fd s) ltac:(eauto)). lia.
Qed.

Lemma core_unref lk p l h d f w k n : core p h d f w k -> h l = S n ->
  exists p' b, _slot_unref lk p l = Some (p', b) /\ forall h' d', (forall x, h x = plus h' l 1 x) -> (forall x, d' x = plus d l (b2n b) x) -> core p' h' d' f w k.
Proof.
  intros Hc Hh. destruct (p.(po_heap) !! l) as [s|] eqn:Hl; [|destruct (co_none _ _ _ _ _ _ Hc l Hl); lia].
  pose proof (co_slot _ _ _ _ _ _ Hc l s Hl) as [A B C]. assert (0 <= owner s) as Ho by (unfold owner; destruct (sl_remove_pending s); lia).
  unfold _slot_unref. rewrite Hl. cbn [mbind option_bind]. destruct (sl_removed s) eqn:Hrm; [lia|]. destruct B as (B1 & B2 & B3 & B4 & B5).
  destruct (Z.eqb_spec (sl_refs s - 1) 0) as [E|E]; eexists _, _; (split; [reflexivity|]); intros h' d' Hh' Hd'.
  - set (p1 := upd_slot p l _). destruct (drop_shape (po_no_fds p1) p1 l s) as (g & E1 & Hg & E2 & E3); [cbn; eauto|].
    destruct (Hg {| s with sl_refs := sl_refs s - 1 |}) as (_ & G2 & G3 & G4 & G5 & G6).
    apply (core_drop p l s h d f w k Hc Hl Hrm ltac:(lia) ltac:(lia) ltac:(lia) _ (fun s0 => g {| s0 with sl_refs := sl_refs s - 1 |})); try done.
    + rewrite E1. unfold p1. cbn [upd_slot po_heap]. by rewrite alter_twice.
    + rewrite G3. cbn. lia.
  - apply (core_alter p l s _ h d f w k); [done|done|done|done| |].
    + specialize (Hh' l). specialize (Hd' l). unfold plus in *. rewrite one_refl in *. cbn [b2n] in Hd'. split; cbn [sl_refs sl_removed sl_destroy_cas sl_fd sl_processing]; [change (owner _) with (owner s); lia| |done].
      rewrite Hrm. split; [lia|]. split; [done|]. split; [done|]. split; [lia|done].
    + intros x Hx. rewrite (Hd' x), (Hh' x). unfold plus. rewrite one_ne by done. cbn [b2n]. split; [lia|]. split; [lia|done].
Qed.

(** ** The invariant over lists of activities *)

Definition ok p (acts : list act) (lost : list sloc) : Prop := inv (mkSys p acts lost).
Implicit Types (acts new : list act) (lost : list sloc).

Lemma total_cons g x acts l : total g (x :: acts) l = (g l x + total g acts l)%nat.
Proof. reflexivity. Qed.
Lemma total_app g a b l : total g (a ++ b) l = (total g a l + total g b l)%nat.
Proof. apply sum_list_with_app. Qed.

(** Two lists that count the same; fewer workers do no harm. *)
Lemma ok_counts p acts acts' lost lost' : ok p acts lost ->
  (forall l, total holds acts l = total holds acts' l /\ total disposes acts l = total disposes acts' l /\ total frees acts l = total frees acts' l /\
    (total works acts' l <= total works acts l)%nat /\ many l lost = many l lost') -> ok p acts' lost'.
Proof.
  intros [Hs Hn Ht Hc] He. split; [| |done|done]; cbn [y_p y_acts y_lost] in *.
  - intros l s Hl. destruct (He l) as (E1 & E2 & E3 & E4 & E5). destruct (Hs l s Hl) as [A B C]. split; [by rewrite <- E1, <- E5|by rewrite <- E2, <- E3|lia].
  - intros l Hl. destruct (He l) as (E1 & E2 & E3 & E4 & E5). destruct (Hn l Hl) as (? & ? & ? & ? & ?). rewrite <- E1, <- E2, <- E3, <- E5. split_and!; lia.
Qed.

Ltac counts := let x := fresh "x" in intros x; rewrite ?total_app, ?total_cons, ?total_app, ?total_cons; cbn [holds disposes frees works app total sum_list_with]; unfold many; cbn [sum_list_with]; lia.

Lemma ok_middle p a x b lost : ok p (a ++ x :: b) lost -> ok p (x :: a ++ b) lost.
Proof. intros H. apply (ok_counts _ _ _ _ _ H). counts. Qed.
Lemma ok_back p a new b lost : ok p (new ++ a ++ b) lost -> ok p (a ++ new ++ b) lost.
Proof. intros H. apply (ok_counts _ _ _ _ _ H). counts. Qed.

(** A plain reference in place of another one. *)
Definition holder (l : sloc) (x : act) : Prop :=
  match x with ASchedule l' | AWorker l' _ _ | AReturned l' _ _ | AProbe l' | AUser l' => l' = l | _ => False end.

Lemma ok_plain p x l acts lost : holder l x -> ok p (x :: acts) lost -> ok p (AProbe l :: acts) lost.
Proof. intros Hx H. apply (ok_counts _ _ _ _ _ H). destruct x; cbn in Hx; try done; subst; counts. Qed.

(** Whatever is not the memory of the slots or the table. *)
Lemma ok_fields p p' acts lost : ok p acts lost -> p'.(po_heap) = p.(po_heap) -> p'.(po_slots) = p.(po_slots) -> p'.(po_fds_count) = p.(po_fds_count) -> ok p' acts lost.
Proof.
  intros [Hs Hn Ht Hc] E1 E2 E3. split; cbn [y_p y_acts y_lost] in *; rewrite ?E1, ?E2, ?E3; [|done|done|done].
  intros l s Hl. destruct (Hs l s Hl) as [A B C]. split; [done|by rewrite E2|done].
Qed.

Lemma ok_update p l g acts lost : ok p acts lost -> (forall s, same_refs s (g s)) -> ok (upd_slot p l g) acts lost.
Proof. intros H Hg. by apply core_update. Qed.

Lemma ok_alive p l x acts lost : ok p (x :: acts) lost -> (0 < holds l x)%nat -> exists s, p.(po_heap) !! l = Some s /\ s.(sl_removed) = false /\ 0 < s.(sl_refs) /\ p.(po_slots) !! s.(sl_fd) = Some l.
Proof.
  intros H Hx. destruct (p.(po_heap) !! l) as [s|] eqn:Hl.
  - exists s. split; [done|]. destruct (co_slot _ _ _ _ _ _ H l s Hl) as [A B _]. cbn [y_p y_acts y_lost] in *. rewrite total_cons in A. destruct (sl_removed s); [|by destruct B as (? & ? & _)]. unfold owner in A. destruct (sl_remove_pending s); lia.
  - destruct (co_none _ _ _ _ _ _ H l Hl) as [E _]. cbn [y_acts] in E. rewrite total_cons in E. lia.
Qed.

Lemma ok_unref lk p l acts lost : ok p (AProbe l :: acts) lost -> exists p' b, _slot_unref lk p l = Some (p', b) /\ ok p' (if_destroy l b ++ acts) lost.
Proof.
  intros H. destruct (core_unref lk p l _ _ _ _ _ (total holds acts l) H) as (p' & b & E & Hc); [cbn [y_acts]; rewrite total_cons; cbn [holds]; by rewrite one_refl|].
  exists p', b. split; [done|]. eapply core_ext; [apply (Hc (total holds acts) (fun x => total disposes (if_destroy l b ++ acts) x))|].
  - intros x. cbn [y_acts]. rewrite total_cons. unfold plus. cbn [holds]. lia.
  - intros x. cbn [y_acts]. unfold plus. rewrite total_app, total_cons. destruct b; cbn [if_destroy b2n total sum_list_with disposes]; lia.
  - intros x. cbn [y_acts y_lost]. rewrite !total_app, !total_cons. destruct b; cbn [if_destroy total sum_list_with holds disposes frees works]; lia.
Qed.

(** The reference of the table becomes one of the caller. *)
Lemma ok_pending p l s acts lost : ok p acts lost -> p.(po_heap) !! l = Some s -> s.(sl_remove_pending) = false -> s.(sl_removed) = false -> ok (set_pending p l) (AProbe l :: acts) lost.
Proof.
  intros H Hl Hp Hr. destruct (co_slot _ _ _ _ _ _ H l s Hl) as [A B C]. cbn [y_p y_acts y_lost] in *. rewrite Hr in B. eapply (core_alter p l s); [exact H|done|done|done| |].
  - cbn [y_p y_acts y_lost]. rewrite !total_cons. cbn [holds disposes frees works]. rewrite one_refl. split; cbn [sl_refs sl_removed sl_fd sl_destroy_cas sl_processing]; [|by rewrite Hr|done]. unfold owner in *. cbn [sl_remove_pending]. rewrite Hp in A. lia.
  - intros x Hx. cbn [y_acts]. rewrite !total_cons. cbn [holds disposes frees works]. by rewrite one_ne.
Qed.

(** A new reference. *)
Lemma ok_ref p l s g acts lost : ok p acts lost -> p.(po_heap) !! l = Some s -> s.(sl_removed) = false ->
  (g s).(sl_fd) = s.(sl_fd) -> (g s).(sl_removed) = s.(sl_removed) -> (g s).(sl_refs) = s.(sl_refs) + 1 -> (g s).(sl_remove_pending) = s.(sl_remove_pending) ->
  (g s).(sl_destroy_cas) = s.(sl_destroy_cas) -> (g s).(sl_processing) = s.(sl_processing) -> ok (upd_slot p l g) (AProbe l :: acts) lost.
Proof.
  intros H Hl Hr E1 E2 E3 E4 E5 E6. destruct (co_slot _ _ _ _ _ _ H l s Hl) as [A B C]. cbn [y_p y_acts y_lost] in *. rewrite Hr in B. eapply (core_alter p l s); [exact H|done|done|done| |].
  - cbn [y_p y_acts y_lost]. rewrite !total_cons. cbn [holds disposes frees works]. rewrite one_refl. split; [|rewrite E2, Hr, E3, E1, E5; split; [lia|by destruct B]|by rewrite E6]. unfold owner in *. rewrite E3, E4. lia.
  - intros x Hx. cbn [y_acts]. rewrite !total_cons. cbn [holds disposes frees works]. by rewrite one_ne.
Qed.

Lemma table_alive p acts lost fd l : ok p acts lost -> p.(po_slots) !! fd = Some l -> exists s, p.(po_heap) !! l = Some s /\ s.(sl_fd) = fd /\ s.(sl_removed) = false.
Proof. intros H. apply (co_table _ _ _ _ _ _ H). Qed.

Lemma ok_unsubscribe p l s acts lost : ok p acts lost -> ok (_rw_fd_unsubscribe p l s) acts lost.
Proof.
  intros H. unfold _rw_fd_unsubscribe. destruct (sl_unsubscribed s); [done|]. eapply ok_fields; [apply (ok_update p l (fun s => {| s with sl_unsubscribed := true |}) _ _ H)|done..]. intros x. by split_and!.
Qed.

(** ** The operations *)

Lemma ok_remove p fd acts lost : ok p acts lost -> exists p' new, iwn_poller_remove p fd = Some (p', new) /\ ok p' (new ++ acts) lost.
Proof.
  intros H. unfold iwn_poller_remove. destruct (p.(po_slots) !! fd) as [l|] eqn:Hf.
  - destruct (table_alive _ _ _ _ _ H Hf) as (s & Hl & _ & Hr). rewrite Hl. cbn [mbind option_bind]. destruct (sl_remove_pending s) eqn:Hp; [by eexists _, _|].
    destruct (ok_unref true (_rw_fd_unsubscribe (set_pending p l) l s) l acts lost) as (p' & b & E & Hok); [apply ok_unsubscribe; by eapply ok_pending|]. rewrite E. by eexists _, _.
  - eexists _, _. split; [reflexivity|]. destruct (-1 <? fd); [|done]. by eapply ok_fields.
Qed.

Lemma ok_remove_unref p l s acts lost : ok p (AProbe l :: acts) lost -> p.(po_heap) !! l = Some s ->
  exists p' new b, _slot_remove_unref p s.(sl_fd) = Some (p', new, b) /\ ok p' (new ++ acts) (lost ++ if (b : bool) then [] else [l]).
Proof.
  intros H Hl. destruct (ok_alive p l (AProbe l) acts lost H) as (s' & Hl' & Hr & Hpos & Hf); [cbn; rewrite one_refl; lia|]. rewrite Hl in Hl'. injection Hl' as <-.
  unfold _slot_remove_unref. rewrite Hf, Hl. cbn [mbind option_bind]. rewrite Hr, orb_false_r. destruct (sl_remove_pending s) eqn:Hp.
  - eexists _, _, _. split; [reflexivity|]. destruct H as [A B C D]. split; [| |done|done]; cbn [y_p y_acts y_lost app] in *.
    + intros x sx Hx. destruct (A x sx Hx) as [A1 A2 A3]. rewrite total_cons in A1, A2, A3. rewrite total_cons in A2. cbn [holds disposes frees works] in *. unfold many in *. rewrite sum_list_with_app. cbn [sum_list_with]. split; [lia|done|done].
    + intros x Hx. destruct (B x Hx) as (B1 & B2 & B3 & B4 & B5). rewrite total_cons in B1, B2, B3, B4. cbn [holds disposes frees works] in *. unfold many in *. rewrite sum_list_with_app. cbn [sum_list_with]. split_and!; lia.
  - destruct (ok_unref true (set_pending p l) l (AProbe l :: acts) lost) as (p1 & b1 & E1 & Hok1); [by eapply ok_pending|]. rewrite E1. cbn [mbind option_bind]. destruct b1.
    + exfalso. destruct (ok_alive p1 l (AProbe l) (ADestroy l :: acts) lost) as (s1 & Hs1 & Hr1 & _); [apply (ok_counts _ _ _ _ _ Hok1); cbn [if_destroy]; counts|cbn; rewrite one_refl; lia|].
      destruct (co_slot _ _ _ _ _ _ Hok1 l s1 Hs1) as [_ B _]. rewrite Hr1 in B. destruct B as (_ & _ & _ & B & _). cbn [y_acts if_destroy app] in B. rewrite total_cons in B. cbn [disposes] in B. rewrite one_refl in B. lia.
    + cbn [if_destroy app] in Hok1. destruct (ok_unref true p1 l acts lost Hok1) as (p2 & b2 & E2 & Hok2). rewrite E2. cbn [mbind option_bind]. eexists _, _, _. split; [reflexivity|]. by rewrite app_nil_r.
Qed.

(** The reference of a caller of [iwn_poller_fd_ref] is given back. *)
Lemma ok_fd_unref p l s acts lost : ok p (AProbe l :: acts) lost -> p.(po_heap) !! l = Some s ->
  exists p' new b, iwn_poller_fd_ref p s.(sl_fd) (-1) = Some (p', new, b) /\ ok p' (new ++ acts) lost.
Proof.
  intros H Hl. destruct (ok_alive p l (AProbe l) acts lost H) as (s' & Hl' & Hr & Hpos & Hf); [cbn; rewrite one_refl; lia|]. rewrite Hl in Hl'. injection Hl' as <-.
  destruct (ok_unref true p l acts lost H) as (p1 & b & E & Hok). unfold _slot_unref in E. rewrite Hl in E. cbn [mbind option_bind] in E. rewrite Hr in E.
  unfold iwn_poller_fd_ref. rewrite Hf, Hl. cbn [mbind option_bind]. replace (sl_refs s + -1) with (sl_refs s - 1) by lia. destruct (sl_refs s - 1 =? 0); injection E as <- <-; eexists _, _, _; (split; [reflexivity|]).
  - destruct (drop_keep (po_no_fds p) false (upd_slot p l (fun s0 => {| s0 with sl_refs := sl_refs s - 1 |})) l s) as (E1 & E2 & E3). by eapply (ok_fields _ _ _ _ Hok).
  - done.
Qed.

(** ** Workers *)

Lemma works_holds l x : (works l x <= holds l x)%nat.
Proof. destruct x; cbn; lia. Qed.
Lemma total_works_holds acts l : (total works acts l <= total holds acts l)%nat.
Proof. induction acts as [|x acts IH]; [done|]. rewrite !total_cons. pose proof (works_holds l x). lia. Qed.

(** The only worker of a slot stops. *)
Lemma ok_stop p l fd n g acts lost : ok p (AReturned l fd n :: acts) lost -> (forall s, same_core s (g s)) -> ok (upd_slot p l g) (AProbe l :: acts) lost.
Proof.
  intros H Hg. destruct (ok_alive p l _ acts lost H) as (s & Hl & Hr & Hpos & Hf); [cbn; rewrite one_refl; lia|]. destruct (Hg s) as (E1 & E2 & E3 & E4 & E5).
  destruct (co_slot _ _ _ _ _ _ H l s Hl) as [A B C]. cbn [y_p y_acts y_lost] in *. rewrite Hr in B. rewrite total_cons in A, C. rewrite !total_cons in B. cbn [holds disposes frees works] in A, B, C. rewrite one_refl in A, C. eapply (core_alter p l s); [exact H|done|done|done| |].
  - cbn [y_p y_acts y_lost]. rewrite !total_cons. cbn [holds disposes frees works]. rewrite one_refl. split; [unfold owner in *; rewrite E3, E4; lia|rewrite E2, Hr, E3, E1, E5; done|]. destruct (sl_processing s); cbn in C; lia.
  - intros x Hx. cbn [y_acts]. rewrite !total_cons. cbn [holds disposes frees works]. by rewrite one_ne.
Qed.

(** A worker is started for a slot that has none. *)
Lemma ok_start p l s g acts lost : ok p (AProbe l :: acts) lost -> p.(po_heap) !! l = Some s -> s.(sl_processing) = false -> same_core s (g s) -> (g s).(sl_processing) = true ->
  ok (upd_slot p l g) (ASchedule l :: acts) lost.
Proof.
  intros H Hl Hw (E1 & E2 & E3 & E4 & E5) E6. destruct (co_slot _ _ _ _ _ _ H l s Hl) as [A B C]. cbn [y_p y_acts y_lost] in *. rewrite total_cons in A, C. rewrite !total_cons in B. cbn [holds disposes frees works] in A, B, C. rewrite Hw in C. cbn in C.
  eapply (core_alter p l s); [exact H|done|done|done| |].
  - cbn [y_p y_acts y_lost]. rewrite !total_cons. cbn [holds disposes frees works]. rewrite one_refl in *. split; [unfold owner in *; rewrite E3, E4; lia|rewrite E2, E3, E1, E5; done|]. rewrite E6. cbn. lia.
  - intros x Hx. cbn [y_acts]. rewrite !total_cons. cbn [holds disposes frees works]. by rewrite one_ne.
Qed.

(** ** The end of a slot, and its beginning *)

Lemma ok_destroy p l acts lost : ok p (ADestroy l :: acts) lost ->
  exists s, p.(po_heap) !! l = Some s /\ s.(sl_destroy_cas) = false /\ ok (upd_slot p l (fun s => {| s with sl_destroy_cas := true |})) (AFree l :: acts) lost.
Proof.
  intros H. destruct (p.(po_heap) !! l) as [s|] eqn:Hl; [|destruct (co_none _ _ _ _ _ _ H l Hl) as (_ & E & _); cbn [y_acts] in E; rewrite total_cons in E; cbn [disposes] in E; rewrite one_refl in E; lia].
  exists s. split; [done|]. destruct (co_slot _ _ _ _ _ _ H l s Hl) as [A B C]. cbn [y_p y_acts y_lost] in *. rewrite !total_cons in B. rewrite total_cons in A, C. cbn [holds disposes frees works] in A, B, C. rewrite one_refl in B.
  destruct (sl_removed s) eqn:Hr; [|destruct B as (_ & _ & _ & B & _); lia]. destruct B as (B1 & B2 & B3). destruct (sl_destroy_cas s) eqn:Hd; cbn in B2, B3; [lia|]. split; [done|].
  eapply (core_alter p l s); [exact H|done|done|done| |].
  - cbn [y_p y_acts y_lost]. rewrite !total_cons. cbn [holds disposes frees works]. rewrite one_refl. split; cbn [sl_refs sl_removed sl_fd sl_destroy_cas sl_processing]; [done|rewrite Hr; cbn; split; [done|lia]|done].
  - intros x Hx. cbn [y_acts]. rewrite !total_cons. cbn [holds disposes frees works]. by rewrite one_ne.
Qed.

Lemma ok_free p l acts lost : ok p (AFree l :: acts) lost -> exists s, p.(po_heap) !! l = Some s /\ ok {| p with po_heap := delete l p.(po_heap) |} acts lost.
Proof.
  intros H. destruct (p.(po_heap) !! l) as [s|] eqn:Hl; [|destruct (co_none _ _ _ _ _ _ H l Hl) as (_ & _ & E & _); cbn [y_acts] in E; rewrite total_cons in E; cbn [frees] in E; rewrite one_refl in E; lia].
  exists s. split; [done|]. destruct (co_slot _ _ _ _ _ _ H l s Hl) as [A B _]. cbn [y_p y_acts y_lost] in *. rewrite !total_cons in B. rewrite total_cons in A. cbn [holds disposes frees works] in A, B. rewrite one_refl in B.
  destruct (sl_removed s) eqn:Hr; [|destruct B as (_ & _ & _ & _ & B); lia]. destruct B as (B1 & B2 & B3). assert (sl_destroy_cas s = true) as Hd by (destruct (sl_destroy_cas s); [done|cbn in B3; lia]). rewrite Hd in B2, B3. cbn in B2, B3.
  destruct H as [Hs Hn Ht Hc]. split; cbn [y_p y_acts y_lost po_heap po_slots po_fds_count] in *; [| | |done].
  - intros x sx Hx. apply lookup_delete_Some in Hx as [Hne Hx]. destruct (Hs x sx Hx) as [A1 A2 A3]. rewrite total_cons in A1, A3. rewrite !total_cons in A2. cbn [holds disposes frees works] in A1, A2, A3. rewrite one_ne in A2 by done. split; [done|done|done].
  - intros x Hx. destruct (decide (x = l)) as [->|Hne].
    + pose proof (total_works_holds acts l). unfold owner in A. destruct (sl_remove_pending s); [|lia]. split_and!; lia.
    + rewrite lookup_delete_ne in Hx by done. destruct (Hn x Hx) as (N1 & N2 & N3 & N4 & N5). rewrite total_cons in N1, N2, N3, N4. cbn [holds disposes frees works] in N1, N2, N3, N4. rewrite one_ne in N3 by done. done.
  - intros fd x Hx. destruct (Ht fd x Hx) as (sx & Hsx & Hf & Hrx). exists sx. rewrite lookup_delete_ne; [done|]. intros ->. rewrite Hl in Hsx. injection Hsx as <-. congruence.
Qed.

Lemma ok_add p l t acts lost : ok p acts lost -> p.(po_heap) !! l = None -> p.(po_slots) !! t.(t_fd) = None -> ok (fst (_slot_ref p l (new_slot t))) acts lost.
Proof.
  intros H Hl Hf. unfold _slot_ref. cbn [new_slot sl_fd]. rewrite Hf. cbn [fst]. destruct H as [Hs Hn Ht Hc]. cbn [y_p y_acts y_lost] in *. destruct (Hn l Hl) as (N1 & N2 & N3 & N4 & N5).
  split; cbn [y_p y_acts y_lost po_heap po_slots po_fds_count].
  - intros x sx Hx. destruct (decide (x = l)) as [->|Hne].
    + rewrite lookup_insert_eq in Hx. injection Hx as <-. rewrite N1, N2, N3, N4, N5. split; cbn; [done|rewrite lookup_insert_eq; done|lia].
    + rewrite lookup_insert_ne in Hx by done. destruct (Hs x sx Hx) as [A B C]. split; [done| |done]. destruct (sl_removed sx); [done|]. cbn [po_slots]. destruct B as (B1 & B2 & B3). split; [done|]. split; [|done]. rewrite lookup_insert_ne; [done|]. intros E. rewrite E in Hf. congruence.
  - intros x Hx. destruct (decide (x = l)) as [->|Hne]; [by rewrite lookup_insert_eq in Hx|]. rewrite lookup_insert_ne in Hx by done. by apply Hn.
  - intros fd x Hx. destruct (decide (fd = t.(t_fd))) as [->|Hne].
    + rewrite lookup_insert_eq in Hx. injection Hx as <-. rewrite lookup_insert_eq. by eexists.
    + rewrite lookup_insert_ne in Hx by done. destruct (Ht fd x Hx) as (sx & Hsx & ?). exists sx. rewrite lookup_insert_ne; [done|]. congruence.
  - rewrite map_size_insert_None by done. lia.
Qed.

(** ** Timeouts *)

Definition alive p l : Prop := exists s, p.(po_heap) !! l = Some s /\ s.(sl_removed) = false.

Lemma table_elem p acts lost l s : ok p acts lost -> (l, s) ∈ table p -> alive p l.
Proof.
  intros H Hin. unfold table in Hin. apply list_elem_of_omap in Hin as ([fd l'] & Hin & E). apply elem_of_map_to_list in Hin. destruct (table_alive _ _ _ _ _ H Hin) as (s' & Hl & _ & Hr).
  rewrite Hl in E. injection E as -> ->. by exists s.
Qed.

Lemma collect_alive p l x : alive p x -> alive (collect p l) x.
Proof.
  intros (s & Hx & Hr). unfold alive, collect, upd_slot. cbn [po_heap]. destruct (decide (x = l)) as [->|Hne]; [rewrite lookup_alter_eq, Hx; by eexists|rewrite lookup_alter_ne by done; by exists s].
Qed.

Lemma ok_collect ls : forall p acts lost, ok p acts lost -> Forall (alive p) ls -> ok (foldl collect p ls) ((AProbe <$> ls) ++ acts) lost.
Proof.
  induction ls as [|l ls IH]; intros p acts lost H Hls; [done|]. apply Forall_cons in Hls as [(s & Hl & Hr) Hls]. cbn [foldl].
  assert (ok (collect p l) (AProbe l :: acts) lost) as H1 by (by eapply (ok_ref p l s)). specialize (IH _ _ _ H1). apply (ok_counts _ ((AProbe <$> ls) ++ AProbe l :: acts) _ lost); [|rewrite fmap_cons; counts].
  apply IH. eapply Forall_impl; [exact Hls|]. intros x. apply collect_alive.
Qed.

Lemma many_rev l ls : many l (rev ls) = many l ls.
Proof. unfold many. induction ls as [|x ls IH]; [done|]. cbn [rev]. rewrite sum_list_with_app. cbn [sum_list_with]. lia. Qed.

Lemma many_probes l ls : total holds (AProbe <$> ls) l = many l ls.
Proof. induction ls as [|x ls IH]; [done|]. cbn [fmap list_fmap]. rewrite total_cons. cbn [holds]. unfold many in *. cbn [sum_list_with]. by rewrite <- IH. Qed.

Lemma total_probes g ls l : (forall x, g l (AProbe x) = 0%nat) -> total g (AProbe <$> ls) l = 0%nat.
Proof. intros Hg. induction ls as [|x ls IH]; [done|]. cbn [fmap list_fmap]. by rewrite total_cons, Hg. Qed.

Lemma ok_timer p now acts lost : ok p acts lost -> ok (_timer_ready p now).1 ((_timer_ready p now).2 ++ acts) lost.
Proof.
  intros H. unfold _timer_ready. destruct (po_housekeeping p); [done|]. destruct (now =? _); [by eapply ok_fields|]. set (ls := fst <$> filter _ _). cbn [fst snd].
  eapply (ok_fields (foldl collect p ls)); [|done..]. apply (ok_counts _ ((AProbe <$> ls) ++ acts) _ lost).
  - apply ok_collect; [done|]. apply Forall_forall. intros l Hl. unfold ls in Hl. apply list_elem_of_fmap in Hl as ([l' s] & -> & Hl). apply list_elem_of_filter in Hl as [_ Hl]. by eapply table_elem.
  - intros l. cbn [app]. rewrite !total_app, !total_cons. cbn [holds disposes frees works]. rewrite many_rev, many_probes. rewrite !total_probes by done. lia.
Qed.

Lemma ok_check p limit now acts lost : ok p acts lost -> ok (_timer_check p limit now).1 ((_timer_check p limit now).2 ++ acts) lost.
Proof. intros H. unfold _timer_check. destruct (_ || _); [by apply ok_timer|done]. Qed.

(** ** Every step keeps the invariant *)

(** The stretches of code that use a slot without a reference to it. *)
Definition loose (x : act) : option sloc := match x with ATail l _ | AAddCtl l | AAddTail l | ACheck l => Some l | _ => None end.

Ltac keep := intros ?; by split_and!.

Lemma ok_worker_end ch p l s fd n acts lost : ok p (AReturned l fd n :: acts) lost -> p.(po_heap) !! l = Some s -> exists p' new, worker_end ch p l s fd n = Some (p', new) /\ ok p' (new ++ acts) lost.
Proof.
  intros H Hl. unfold worker_end. destruct (negb _).
  - eexists _, _. split; [reflexivity|]. apply ok_update; [|keep]. apply (ok_counts _ _ _ _ _ H). counts.
  - set (p1 := upd_slot p l _). assert (ok p1 (AProbe l :: acts) lost) as H1 by (apply (ok_stop _ _ _ _ _ _ _ H); keep).
    set (x := if sl_abort s then (p1, true) else _). assert (ok x.1 (AProbe l :: acts) lost) as H2.
    { unfold x, epoll_mod. destruct (sl_abort s); [done|]. destruct (_ && _); [|done]. by eapply ok_fields. }
    destruct x as [p2 okc]. cbn [fst] in H2. destruct (ok_unref true p2 l acts lost H2) as (p3 & b & E & H3). rewrite E. cbn [mbind option_bind]. eexists _, _. split; [reflexivity|].
    destruct b; [done|]. apply (ok_counts _ _ _ _ _ H3). cbn [if_destroy]. destruct (_ || _); [counts|]. destruct (0 <? _); counts.
Qed.

Ltac exec_in E := cbn [exec] in E; unfold schedule, worker_start, worker_returned, worker_tail, _slot_destroy, slot_free, expired, probed, user_unref, add_ctl, add_tail, timeout_check in E.
Ltac exec_goal := cbn [exec]; unfold schedule, worker_start, worker_returned, worker_tail, _slot_destroy, slot_free, expired, probed, user_unref, add_ctl, add_tail, timeout_check.

Lemma exec_ok ch p x acts lost p' new more : ok p (x :: acts) lost -> exec ch p x = Some (p', new, more) -> ok p' (new ++ acts) (lost ++ more).
Proof.
  intros H E. destruct x as [l|l fd ev|l fd n|l tm|fd|l|l|ls|l|l|l|l|l]; exec_in E.
  - destruct (p.(po_heap) !! l) as [s|] eqn:Hl; [|done]. cbn [mbind option_bind] in E. destruct (ch_sched ch).
    + injection E as <- <- <-. rewrite app_nil_r. apply (ok_counts _ _ _ _ _ H). counts.
    + destruct (ok_remove_unref p l s acts lost) as (p1 & n1 & b & E1 & H1); [by eapply (ok_plain _ (ASchedule l))|done|]. rewrite E1 in E. cbn [mbind option_bind] in E. by injection E as <- <- <-.
  - destruct (p.(po_heap) !! l) as [s|] eqn:Hl; [|done]. cbn [mbind option_bind] in E. injection E as <- <- <-. rewrite app_nil_r. apply (ok_counts _ _ _ _ _ H). counts.
  - destruct (n <? 0).
    + destruct (ok_unref false p l acts lost) as (p1 & b & E1 & H1); [by eapply (ok_plain _ (AReturned l fd n))|]. rewrite E1 in E. cbn [mbind option_bind] in E. injection E as <- <- <-. rewrite app_nil_r.
      apply (ok_counts _ _ _ _ _ H1). destruct b; cbn [if_destroy]; counts.
    + destruct (p.(po_heap) !! l) as [s|] eqn:Hl; [|done]. cbn [mbind option_bind] in E. destruct (ok_worker_end ch p l s fd n acts lost H Hl) as (p1 & n1 & E1 & H1). rewrite E1 in E. cbn [mbind option_bind] in E. injection E as <- <- <-. by rewrite app_nil_r.
  - destruct (p.(po_heap) !! l) as [s|] eqn:Hl; [|done]. cbn [mbind option_bind] in E. destruct (_timer_check _ _ _) as [p1 n1] eqn:Et. injection E as <- <- <-. rewrite app_nil_r.
    match type of Et with _timer_check ?a ?b ?c = _ => pose proof (ok_check a b c acts lost) as Hk end. rewrite Et in Hk. apply Hk. apply ok_update; [|keep]. apply (ok_counts _ _ _ _ _ H). counts.
  - destruct (ok_remove p fd acts lost) as (p1 & n1 & E1 & H1); [apply (ok_counts _ _ _ _ _ H); counts|]. rewrite E1 in E. cbn [mbind option_bind] in E. injection E as <- <- <-. by rewrite app_nil_r.
  - destruct (ok_destroy p l acts lost H) as (s & Hl & Hd & H1). rewrite Hl in E. cbn [mbind option_bind] in E. rewrite Hd in E. injection E as <- <- <-. rewrite app_nil_r. destruct (sl_dispose s); [|done]. by eapply ok_fields.
  - destruct (ok_free p l acts lost H) as (s & Hl & H1). rewrite Hl in E. cbn [mbind option_bind] in E. injection E as <- <- <-. rewrite app_nil_r. destruct (-1 <? sl_fd s); by eapply ok_fields.
  - destruct ls as [|l ls]; cbn in E.
    + injection E as <- <- <-. rewrite app_nil_r. apply (ok_fields p); [|done..]. apply (ok_counts _ _ _ _ _ H). unfold many. counts.
    + destruct (p.(po_heap) !! l) as [s|] eqn:Hl; [|done]. cbn [mbind option_bind] in E. destruct (ok_remove_unref p l s (AExpired ls :: acts) lost) as (p1 & n1 & b & E1 & H1); [|done|].
      { apply (ok_counts _ _ _ _ _ H). intros x. rewrite !total_cons. cbn [holds disposes frees works]. unfold many. cbn [sum_list_with]. lia. }
      rewrite E1 in E. cbn [mbind option_bind] in E. injection E as <- <- <-. apply (ok_counts _ _ _ _ _ H1). counts.
  - destruct (ok_unref false p l acts lost H) as (p1 & b & E1 & H1). rewrite E1 in E. cbn [mbind option_bind] in E. injection E as <- <- <-. by rewrite app_nil_r.
  - destruct (p.(po_heap) !! l) as [s|] eqn:Hl; [|done]. cbn [mbind option_bind] in E. destruct (ok_fd_unref p l s acts lost) as (p1 & n1 & b & E1 & H1); [by eapply (ok_plain _ (AUser l))|done|]. rewrite E1 in E. cbn [mbind option_bind] in E. injection E as <- <- <-. by rewrite app_nil_r.
  - destruct (p.(po_heap) !! l) as [s|] eqn:Hl; [|done]. cbn [mbind option_bind] in E. destruct (ch_ctl ch); injection E as <- <- <-; rewrite app_nil_r.
    + apply (ok_fields p); [|done..]. apply (ok_counts _ _ _ _ _ H). counts.
    + apply ok_update; [|keep]. apply (ok_counts _ _ _ _ _ H). counts.
  - destruct (p.(po_heap) !! l) as [s|] eqn:Hl; [|done]. cbn [mbind option_bind] in E. assert (ok p acts lost) as H0 by (apply (ok_counts _ _ _ _ _ H); counts). destruct (is_timer _); [|destruct (0 <? _)].
    + destruct (ch_ctl ch); injection E as <- <- <-; rewrite app_nil_r; [done|]. apply ok_update; [|keep]. apply (ok_counts _ _ _ _ _ H0). counts.
    + destruct (_timer_check _ _ _) as [p1 n1] eqn:Et. injection E as <- <- <-. rewrite app_nil_r. match type of Et with _timer_check ?a ?b ?c = _ => pose proof (ok_check a b c acts lost) as Hk end. rewrite Et in Hk. apply Hk. apply ok_update; [done|keep].
    + injection E as <- <- <-. rewrite app_nil_r. apply ok_update; [done|keep].
  - destruct (p.(po_heap) !! l) as [s|] eqn:Hl; [|done]. cbn [mbind option_bind] in E. destruct (_timer_check _ _ _) as [p1 n1] eqn:Et. injection E as <- <- <-. rewrite app_nil_r.
    match type of Et with _timer_check ?a ?b ?c = _ => pose proof (ok_check a b c acts lost) as Hk end. rewrite Et in Hk. apply Hk. apply (ok_counts _ _ _ _ _ H). counts.
Qed.

Lemma alive_of p l x acts lost : ok p (x :: acts) lost -> (0 < holds l x)%nat -> exists s, p.(po_heap) !! l = Some s.
Proof. intros H Hx. destruct (ok_alive p l x acts lost H Hx) as (s & Hl & _). by exists s. Qed.

(** An activity that holds its slot always finds it. *)
Lemma exec_total ch p x acts lost : ok p (x :: acts) lost -> loose x = None -> exists r, exec ch p x = Some r.
Proof.
  intros H Hx. destruct x as [l|l fd ev|l fd n|l tm|fd|l|l|ls|l|l|l|l|l]; cbn in Hx; try done; exec_goal.
  - destruct (alive_of p l _ acts lost H) as [s Hl]; [cbn; rewrite one_refl; lia|]. rewrite Hl. cbn [mbind option_bind]. destruct (ch_sched ch); [by eexists|].
    destruct (ok_remove_unref p l s acts lost) as (p1 & n1 & b & E1 & _); [by eapply (ok_plain _ (ASchedule l))|done|]. rewrite E1. by eexists.
  - destruct (alive_of p l _ acts lost H) as [s Hl]; [cbn; rewrite one_refl; lia|]. rewrite Hl. by eexists.
  - destruct (n <? 0).
    + destruct (ok_unref false p l acts lost) as (p1 & b & E1 & H1); [by eapply (ok_plain _ (AReturned l fd n))|]. rewrite E1. by eexists.
    + destruct (alive_of p l _ acts lost H) as [s Hl]; [cbn; rewrite one_refl; lia|]. rewrite Hl. cbn [mbind option_bind]. destruct (ok_worker_end ch p l s fd n acts lost H Hl) as (p1 & n1 & E1 & H1). rewrite E1. by eexists.
  - destruct (ok_remove p fd acts lost) as (p1 & n1 & E1 & H1); [apply (ok_counts _ _ _ _ _ H); counts|]. rewrite E1. by eexists.
  - destruct (ok_destroy p l acts lost H) as (s & Hl & Hd & H1). rewrite Hl. cbn [mbind option_bind]. rewrite Hd. by eexists.
  - destruct (ok_free p l acts lost H) as (s & Hl & H1). rewrite Hl. by eexists.
  - destruct ls as [|l ls]; [by eexists|]. destruct (alive_of p l _ acts lost H) as [s Hl]; [cbn; rewrite one_refl; lia|]. rewrite Hl. cbn [mbind option_bind].
    destruct (ok_remove_unref p l s (AExpired ls :: acts) lost) as (p1 & n1 & b & E1 & H1); [|done|rewrite E1; by eexists].
    apply (ok_counts _ _ _ _ _ H). intros x. rewrite !total_cons. cbn [holds disposes frees works]. unfold many. cbn [sum_list_with]. lia.
  - destruct (ok_unref false p l acts lost H) as (p1 & b & E1 & H1). rewrite E1. by eexists.
  - destruct (alive_of p l _ acts lost H) as [s Hl]; [cbn; rewrite one_refl; lia|]. rewrite Hl. cbn [mbind option_bind]. destruct (ok_fd_unref p l s acts lost) as (p1 & n1 & b & E1 & H1); [by eapply (ok_plain _ (AUser l))|done|]. rewrite E1. by eexists.
Qed.

(** The others go wrong only when their slot is gone. *)
Lemma exec_loose ch p x l s : loose x = Some l -> p.(po_heap) !! l = Some s -> exists r, exec ch p x = Some r.
Proof.
  intros Hx Hl. destruct x; cbn in Hx; try done; injection Hx as ->; exec_goal; rewrite Hl; cbn [mbind option_bind].
  - destruct (_timer_check _ _ _). by eexists.
  - destruct (ch_ctl ch); by eexists.
  - destruct (is_timer _); [by eexists|]. destruct (0 <? _); [destruct (_timer_check _ _ _)|]; by eexists.
  - destruct (_timer_check _ _ _). by eexists.
Qed.

Lemma ok_ref_id p fd acts lost : ok p acts lost -> exists p' r, _slot_ref_id p fd = Some (p', r) /\
  match r with Some l => ok p' (AProbe l :: acts) lost | None => ok p' acts lost end.
Proof.
  intros H. unfold _slot_ref_id. destruct (p.(po_slots) !! fd) as [l|] eqn:Hf; [|by eexists _, _]. destruct (table_alive _ _ _ _ _ H Hf) as (s & Hl & _ & Hr). rewrite Hl. cbn [mbind option_bind].
  destruct (_ || _); [by eexists _, _|]. eexists _, _. split; [reflexivity|]. by eapply (ok_ref p l s).
Qed.

Lemma ok_event p fd events hup acts lost : ok p acts lost -> exists p' new, poll_slot p fd events hup = Some (p', new) /\ ok p' (acts ++ new) lost.
Proof.
  intros H. unfold poll_slot. destruct (ok_ref_id p fd acts lost H) as (p1 & r & E & H1). rewrite E. cbn [mbind option_bind]. destruct r as [l|].
  2: { eexists _, _. split; [reflexivity|]. apply (ok_counts _ _ _ _ _ H1). destruct hup; counts. }
  destruct (alive_of p1 l _ acts lost H1) as [s Hl]; [cbn; rewrite one_refl; lia|]. rewrite Hl. cbn [mbind option_bind]. destruct (events =? 0); [|destruct (sl_processing s) eqn:Hp].
  - destruct (ok_unref true p1 l acts lost H1) as (p2 & b & E2 & H2). rewrite E2. cbn [mbind option_bind]. eexists _, _. split; [reflexivity|].
    assert (ok (if hup then upd_slot p2 l (fun s => {| s with sl_abort := true |}) else p2) (if_destroy l b ++ acts) lost) as H3 by (destruct hup; [apply ok_update; [done|keep]|done]).
    apply (ok_counts _ _ _ _ _ H3). destruct b; cbn [if_destroy]; [counts|]. destruct (_ || _); counts.
  - match goal with |- context [upd_slot p1 l ?g] => destruct (ok_unref true (upd_slot p1 l g) l acts lost) as (p2 & b & E2 & H2); [apply ok_update; [done|keep]|] end. rewrite E2. cbn [mbind option_bind]. eexists _, _. split; [reflexivity|].
    apply (ok_counts _ _ _ _ _ H2). destruct b; cbn [if_destroy]; counts.
  - eexists _, _. split; [reflexivity|]. match goal with |- ok (upd_slot p1 l ?g) _ _ => assert (ok (upd_slot p1 l g) (ASchedule l :: acts) lost) as H2 by (by apply (ok_start p1 l s)) end. apply (ok_counts _ _ _ _ _ H2). counts.
Qed.

Lemma accept_ok p i acts lost : ok p acts lost -> (forall l t, i = InAdd l t -> p.(po_heap) !! l = None) -> exists p' new, accept p i = Some (p', new) /\ ok p' (acts ++ new) lost.
Proof.
  intros H Hf. destruct i as [l t|fd|fd ev|now|fd|fd|fd ev okc|fd sec now| | | |b]; cbn [accept].
  - unfold iwn_poller_add2. destruct (_ && _); [eexists _, _; split; [reflexivity|by rewrite app_nil_r]|]. destruct (_ && _); [eexists _, _; split; [reflexivity|by rewrite app_nil_r]|].
    destruct (p.(po_slots) !! t.(t_fd)) as [l'|] eqn:Et.
    + unfold _slot_ref. cbn [new_slot sl_fd]. rewrite Et. eexists _, _. split; [reflexivity|]. rewrite app_nil_r. destruct (is_timer _); [by eapply ok_fields|done].
    + pose proof (ok_add p l t acts lost H (Hf l t eq_refl) Et) as H1. unfold _slot_ref in *. cbn [new_slot sl_fd] in *. rewrite Et in *. cbn [fst] in H1. eexists _, _. split; [reflexivity|]. apply (ok_counts _ _ _ _ _ H1). counts.
  - eexists _, _. split; [reflexivity|]. apply (ok_counts _ _ _ _ _ H). counts.
  - by apply ok_event.
  - eexists _, _. split; [by rewrite (surjective_pairing (_timer_ready p now))|]. apply (ok_counts _ _ _ _ _ (ok_timer p now acts lost H)). counts.
  - destruct (ok_ref_id p fd acts lost H) as (p1 & r & E & H1). rewrite E. cbn [mbind option_bind]. eexists _, _. split; [reflexivity|]. destruct r; apply (ok_counts _ _ _ _ _ H1); counts.
  - cbn [mbind option_bind]. unfold iwn_poller_fd_ref. destruct (p.(po_slots) !! fd) as [l|] eqn:Et; [|eexists _, _; split; [reflexivity|by rewrite app_nil_r]]. destruct (table_alive _ _ _ _ _ H Et) as (s & Hl & _ & Hr). rewrite Hl. cbn [mbind option_bind].
    destruct (co_slot _ _ _ _ _ _ H l s Hl) as [_ B _]. rewrite Hr in B. destruct B as (B & _). rewrite (proj2 (Z.eqb_neq _ 0)) by lia. cbn [mbind option_bind]. eexists _, _. split; [reflexivity|].
    match goal with |- ok (upd_slot p l ?g) _ _ => assert (ok (upd_slot p l g) (AProbe l :: acts) lost) as H2 by (by apply (ok_ref p l s)) end. apply (ok_counts _ _ _ _ _ H2). counts.
  - unfold iwn_poller_arm_events. destruct (p.(po_slots) !! fd) as [l|] eqn:Et; [|cbn [mbind option_bind]; eexists _, _; split; [reflexivity|by rewrite app_nil_r]]. destruct (table_alive _ _ _ _ _ H Et) as (s & Hl & _ & Hr). rewrite Hl. cbn [mbind option_bind].
    destruct (sl_abort s); [|destruct (sl_processing s)]; cbn [mbind option_bind]; eexists _, _; (split; [reflexivity|]); rewrite app_nil_r; [done|apply ok_update; [done|keep]|]. unfold epoll_mod. destruct (_ && _); [by eapply ok_fields|done].
  - unfold iwn_poller_set_timeout. destruct (p.(po_slots) !! fd) as [l|] eqn:Et; [|eexists _, _; split; [reflexivity|by rewrite app_nil_r]]. destruct (table_alive _ _ _ _ _ H Et) as (s & Hl & _ & Hr). rewrite Hl. cbn [mbind option_bind].
    destruct (_ || _); [eexists _, _; split; [reflexivity|by rewrite app_nil_r]|]. destruct (0 <? sec); eexists _, _; (split; [reflexivity|]).
    + apply ok_update; [|keep]. apply (ok_counts _ _ _ _ _ H). counts.
    + rewrite app_nil_r. apply ok_update; [done|keep].
  - eexists _, _. split; [reflexivity|]. unfold _poller_cleanup. apply (ok_counts _ _ _ _ _ H). intros l. rewrite !total_app.
    assert (forall g ls, (forall fd, g l (ARemove fd) = 0%nat) -> total g ((fun x : Z * sloc => ARemove x.1) <$> ls) l = 0%nat) as Hz by (intros g ls Hg; induction ls as [|x ls IH]; [done|]; cbn [fmap list_fmap]; by rewrite total_cons, Hg). rewrite !Hz by done. lia.
  - eexists _, _. split; [reflexivity|]. rewrite app_nil_r. by eapply ok_fields.
  - eexists _, _. split; [reflexivity|]. rewrite app_nil_r. by eapply ok_fields.
  - eexists _, _. split; [reflexivity|]. rewrite app_nil_r. by eapply ok_fields.
Qed.

Lemma step_ok y y' : step y y' -> inv y -> inv y'.
Proof.
  intros [ch p a b x lost p' new more E|p acts lost i p' new Hf E] H.
  - apply ok_back. eapply exec_ok; [apply ok_middle, H|done].
  - destruct (accept_ok p i acts lost H Hf) as (p1 & n1 & E1 & H1). rewrite E in E1. by injection E1 as -> ->.
Qed.

Lemma reachable_inv no_fds y : reachable no_fds y -> inv y.
Proof.
  induction 1 as [|y y' _ IH Hs]; [|by eapply step_ok]. split; cbn; [by intros l s Hl|done|by intros fd l Hl|done].
Qed.
