(* ===== verification/PollerRun.v ===== *)
(** * PollerRun: the poller comes to rest

    A measure that every step of an activity makes smaller, so that the threads of the poller always finish what they
    have begun; what is left over then, and what becomes of the slots when the poller is closed. *)
From S2P Require Import Prelude Poller PollerInv.

Implicit Types (p : poller) (l : sloc) (acts new : list act) (lost : list sloc).

(** ** Nothing new without input *)

Definition busy (s : slot) : Prop := s.(sl_events_update) <> 0.
#[global] Instance busy_dec s : Decision (busy s).
Proof. unfold busy. apply _. Defined.

(** The slots for which events came while their worker was running. *)
Definition busy_slots p : gset sloc := dom (filter (fun x => busy x.2) p.(po_heap)).

Lemma elem_busy p l : l ∈ busy_slots p <-> exists s, p.(po_heap) !! l = Some s /\ busy s.
Proof.
  unfold busy_slots. rewrite elem_of_dom. split.
  - intros [s Hs]. apply map_lookup_filter_Some in Hs as [H1 H2]. by exists s.
  - intros (s & H1 & H2). exists s. by apply map_lookup_filter_Some.
Qed.

(** [p'] has no more work for workers, and no more slots, than [p]. *)
Definition quieter p p' : Prop := busy_slots p' ⊆ busy_slots p /\ (size p'.(po_slots) <= size p.(po_slots))%nat.

#[global] Instance quieter_preorder : PreOrder quieter.
Proof. split; [by intros p|]. intros p1 p2 p3 [A1 B1] [A2 B2]. split; [set_solver|lia]. Qed.

Lemma quieter_fields p p' : p'.(po_heap) = p.(po_heap) -> p'.(po_slots) = p.(po_slots) -> quieter p p'.
Proof. intros E1 E2. unfold quieter, busy_slots. by rewrite E1, E2. Qed.

Lemma quieter_update p l g : (forall s, busy (g s) -> busy s) -> quieter p (upd_slot p l g).
Proof.
  intros Hg. split; [|done]. intros x. rewrite !elem_busy. intros (s & Hs & Hb). unfold upd_slot in Hs. cbn [po_heap] in Hs.
  destruct (decide (x = l)) as [->|Hne]; [|rewrite lookup_alter_ne in Hs by done; by exists s].
  rewrite lookup_alter_eq in Hs. destruct (po_heap p !! l) as [s'|]; [|done]. injection Hs as <-. exists s'. eauto.
Qed.

Create HintDb quiet.
#[export] Hint Extern 1 (quieter ?p ?p) => reflexivity : quiet.
#[export] Hint Extern 2 (quieter _ (upd_slot _ _ _)) => apply quieter_update; intros ?; done : quiet.
#[export] Hint Extern 3 (quieter _ _) => apply quieter_fields; reflexivity : quiet.

Lemma quieter_unsubscribe p l s : quieter p (_rw_fd_unsubscribe p l s).
Proof. unfold _rw_fd_unsubscribe. destruct (sl_unsubscribed s); [auto with quiet|]. etrans; [apply (quieter_update p l (fun s => {| s with sl_unsubscribed := true |})); by intros|]. by apply quieter_fields. Qed.

Lemma quieter_drop keep p l s : quieter p (slot_drop keep p l s).
Proof.
  unfold slot_drop. set (p1 := upd_slot p l _). assert (quieter p p1) as H1 by (apply quieter_update; by intros). set (p2 := _rw_fd_unsubscribe p1 l s).
  assert (quieter p p2) as [A B] by (etrans; [done|apply quieter_unsubscribe]). destruct (po_slots p2 !! sl_fd s); [|done]. split; [done|]. cbn [po_slots].
  etrans; [apply map_subseteq_size, delete_subseteq|done].
Qed.
#[export] Hint Resolve quieter_unsubscribe quieter_drop : quiet.

Lemma quieter_unref lk p l p' b : _slot_unref lk p l = Some (p', b) -> quieter p p'.
Proof.
  unfold _slot_unref. destruct (po_heap p !! l) as [s|]; [|done]. cbn [mbind option_bind]. destruct (sl_removed s); [destruct lk; [done|]; intros [= <- <-]; auto with quiet|].
  destruct (_ =? 0); intros [= <- <-]; [|auto with quiet]. etrans; [|apply quieter_drop]. auto with quiet.
Qed.

(** What follows an operation that gives references back. *)
Inductive tail_of : list act -> Prop := tail_none : tail_of [] | tail_destroy l : tail_of [ADestroy l].
Lemma tail_if l b : tail_of (if_destroy l b).
Proof. destruct b; constructor. Qed.
#[export] Hint Resolve tail_none tail_destroy tail_if : quiet.

Lemma quieter_remove_unref p fd p' new b : _slot_remove_unref p fd = Some (p', new, b) -> quieter p p' /\ tail_of new.
Proof.
  unfold _slot_remove_unref. destruct (po_slots p !! fd) as [l|]; [|intros [= <- <- <-]; auto with quiet]. destruct (po_heap p !! l) as [s|]; [|done]. cbn [mbind option_bind].
  destruct (_ || _); [intros [= <- <- <-]; auto with quiet|]. destruct (_slot_unref _ _ _) as [[p1 b1]|] eqn:E1; [|done]. cbn [mbind option_bind]. apply quieter_unref in E1.
  assert (quieter p p1) as H1 by (etrans; [|done]; unfold set_pending; auto with quiet). destruct b1; cbn [mbind option_bind].
  - intros [= <- <- <-]. auto with quiet.
  - destruct (_slot_unref _ p1 _) as [[p2 b2]|] eqn:E2; [|done]. cbn [mbind option_bind]. apply quieter_unref in E2. intros [= <- <- <-]. split; [by etrans|auto with quiet].
Qed.

Lemma quieter_remove p fd p' new : iwn_poller_remove p fd = Some (p', new) -> quieter p p' /\ tail_of new.
Proof.
  unfold iwn_poller_remove. destruct (po_slots p !! fd) as [l|]; [|intros [= <- <-]; split; [destruct (_ <? _); auto with quiet|auto with quiet]]. destruct (po_heap p !! l) as [s|]; [|done]. cbn [mbind option_bind].
  destruct (sl_remove_pending s); [intros [= <- <-]; auto with quiet|]. destruct (_slot_unref _ _ _) as [[p1 b1]|] eqn:E1; [|done]. cbn [mbind option_bind]. apply quieter_unref in E1. intros [= <- <-].
  split; [|auto with quiet]. etrans; [|done]. etrans; [|apply quieter_unsubscribe]. unfold set_pending. auto with quiet.
Qed.

Lemma quieter_fd_ref p fd n p' new b : iwn_poller_fd_ref p fd n = Some (p', new, b) -> quieter p p' /\ tail_of new.
Proof.
  unfold iwn_poller_fd_ref. destruct (po_slots p !! fd) as [l|]; [|intros [= <- <- <-]; auto with quiet]. destruct (po_heap p !! l) as [s|]; [|done]. cbn [mbind option_bind].
  destruct (_ =? 0); intros [= <- <- <-]; (split; [|auto with quiet]); [|auto with quiet]. etrans; [|apply quieter_drop]. auto with quiet.
Qed.

Lemma quieter_collect ls : forall p, quieter p (foldl collect p ls).
Proof. induction ls as [|l ls IH]; intros p; cbn [foldl]; [auto with quiet|]. etrans; [|apply IH]. unfold collect. auto with quiet. Qed.

Lemma table_length p : (length (table p) <= size p.(po_slots))%nat.
Proof. unfold table. rewrite <- length_map_to_list. induction (map_to_list _) as [|[fd l] xs IH]; cbn; [lia|]. destruct (po_heap p !! l); cbn; lia. Qed.

(** The timer: nothing, or a list of slots that is no longer than the table. *)
Inductive timer_of (n : nat) : list act -> Prop :=
| timer_none : timer_of n []
| timer_list ls : (length ls <= n)%nat -> timer_of n [AExpired ls].

Lemma quieter_timer p now : quieter p (_timer_ready p now).1 /\ timer_of (size p.(po_slots)) (_timer_ready p now).2.
Proof.
  unfold _timer_ready. destruct (po_housekeeping p); [split; [auto with quiet|constructor]|]. destruct (now =? _); [split; [auto with quiet|constructor]|]. cbn [fst snd]. split.
  - etrans; [apply quieter_collect|]. by apply quieter_fields.
  - constructor. rewrite length_rev, length_fmap. etrans; [apply length_filter|apply table_length].
Qed.

Lemma quieter_check p limit now : quieter p (_timer_check p limit now).1 /\ timer_of (size p.(po_slots)) (_timer_check p limit now).2.
Proof. unfold _timer_check. destruct (_ || _); [apply quieter_timer|split; [auto with quiet|constructor]]. Qed.

(** ** The measure *)

(** How many steps an activity and its successors make, with [n] slots in the table. *)
Definition weight (n : nat) (x : act) : nat :=
  match x with
  | AFree _ => 1
  | ADestroy _ => 2
  | ARemove _ | AProbe _ | AUser _ => 3
  | AExpired ls => 1 + 3 * length ls
  | ATail _ _ | ACheck _ => 2 + 3 * n
  | AReturned _ _ _ | AAddTail _ => 4 + 3 * n
  | AWorker _ _ _ | AAddCtl _ => 5 + 3 * n
  | ASchedule _ => 6 + 3 * n
  end.

Definition weights (n : nat) acts : nat := sum_list_with (weight n) acts.

Definition measure p acts : nat := weights (size p.(po_slots)) acts + 2 * size (busy_slots p).
Definition work (y : sys) : nat := measure y.(y_p) y.(y_acts).

Lemma weight_mono n m x : (n <= m)%nat -> (weight n x <= weight m x)%nat.
Proof. destruct x; cbn; lia. Qed.
Lemma weights_mono n m acts : (n <= m)%nat -> (weights n acts <= weights m acts)%nat.
Proof. intros H. unfold weights. induction acts as [|x acts IH]; cbn; [lia|]. pose proof (weight_mono n m x H). lia. Qed.
Lemma weights_app n a b : weights n (a ++ b) = (weights n a + weights n b)%nat.
Proof. apply sum_list_with_app. Qed.

Lemma quieter_busy p p' : quieter p p' -> (size (busy_slots p') <= size (busy_slots p))%nat.
Proof. intros [H _]. by apply subseteq_size. Qed.

Lemma tail_weight n new : tail_of new -> (weights n new <= 2)%nat.
Proof. intros []; cbn; lia. Qed.
Lemma timer_weight n m new : timer_of m new -> (weights n new <= 1 + 3 * m)%nat.
Proof. intros []; cbn; lia. Qed.

Definition eases p x p' new : Prop := (size p'.(po_slots) <= size p.(po_slots))%nat /\ (measure p' new < measure p [x])%nat.

(** A step that is not the turn of a worker from one callback to the next. *)
Lemma lighter p p' x new : quieter p p' -> (weights (size p'.(po_slots)) new < weight (size p.(po_slots)) x)%nat -> eases p x p' new.
Proof. intros H Hw. pose proof (quieter_busy _ _ H). split; [apply H|]. unfold measure. cbn. lia. Qed.

Lemma lighter_turn p l s fd n ev : p.(po_heap) !! l = Some s -> busy s -> eases p (AReturned l fd n) (upd_slot p l (fun s => {| s with sl_events_update := 0 |})) [AWorker l fd ev].
Proof.
  intros Hl Hb. set (p1 := upd_slot p l _). assert (busy_slots p1 ⊂ busy_slots p) as Hs.
  - split; [apply quieter_update; intros x; unfold busy; cbn; lia|]. intros Hin. specialize (Hin l). rewrite !elem_busy in Hin. destruct Hin as (s1 & H1 & H2); [by exists s|].
    unfold p1, upd_slot in H1. cbn [po_heap] in H1. rewrite lookup_alter_eq, Hl in H1. injection H1 as <-. by apply H2.
  - pose proof (subset_size _ _ Hs). split; [done|]. unfold measure. cbn. lia.
Qed.

Lemma lighter_end ch p l s fd n p' new : p.(po_heap) !! l = Some s -> worker_end ch p l s fd n = Some (p', new) -> eases p (AReturned l fd n) p' new.
Proof.
  intros Hl. unfold worker_end. destruct (Z.eqb_spec (sl_events_update s) 0) as [|Hb]; cbn [negb]; [|intros [= <- <-]; by apply (lighter_turn p l s)].
  set (p1 := upd_slot p l _). assert (quieter p p1) as H1 by (unfold p1; auto with quiet). set (x := if sl_abort s then _ else _).
  assert (quieter p x.1) as H2 by (unfold x, epoll_mod; destruct (sl_abort s); [done|]; destruct (_ && _); [|done]; etrans; [done|by apply quieter_fields]). destruct x as [p2 okc]. cbn [fst] in H2.
  destruct (_slot_unref _ _ _) as [[p3 b]|] eqn:E; [|done]. cbn [mbind option_bind]. intros [= <- <-]. apply quieter_unref in E. assert (quieter p p3) as H3 by (by etrans). apply lighter; [done|]. destruct H3 as [_ H3].
  destruct b; [cbn; lia|]. destruct (_ || _); [cbn; lia|]. destruct (0 <? _); cbn; lia.
Qed.

(** Every step of an activity leaves less to do. *)
Lemma exec_lighter ch p x p' new more : exec ch p x = Some (p', new, more) -> eases p x p' new.
Proof.
  assert (forall p2 l g limit now p1 n1 y, (forall s, busy (g s) -> busy s) -> _timer_check (upd_slot p2 l g) limit now = (p1, n1) -> (2 + 3 * size p2.(po_slots) <= weight (size p2.(po_slots)) y)%nat -> eases p2 y p1 n1) as Hc.
  { intros p2 l g limit now p1 n1 y Hg E Hw. destruct (quieter_check (upd_slot p2 l g) limit now) as [H1 H2]. rewrite E in *. cbn [fst snd] in *. apply lighter; [etrans; [by apply quieter_update|done]|].
    pose proof (timer_weight (size p1.(po_slots)) _ _ H2) as H3. cbn [upd_slot po_slots] in H3. lia. }
  intros E. destruct x as [l|l fd ev|l fd n|l tm|fd|l|l|ls|l|l|l|l|l]; exec_in E.
  5: { destruct (iwn_poller_remove p fd) as [[p1 n1]|] eqn:E1; [|done]. cbn [mbind option_bind] in E. injection E as <- <- <-. apply quieter_remove in E1 as [H1 H2]. apply lighter; [done|]. pose proof (tail_weight (size p1.(po_slots)) _ H2). cbn; lia. }
  7: { destruct ls as [|l ls]; cbn in E; [injection E as <- <- <-; apply lighter; [auto with quiet|cbn; lia]|]. destruct (po_heap p !! l) as [s|]; [|done]. cbn [mbind option_bind] in E.
       destruct (_slot_remove_unref _ _) as [[[p1 n1] b]|] eqn:E1; [|done]. cbn [mbind option_bind] in E. injection E as <- <- <-. apply quieter_remove_unref in E1 as [H1 H2]. apply lighter; [done|]. pose proof (tail_weight (size p1.(po_slots)) _ H2). cbn; unfold weights in *; lia. }
  7: { destruct (_slot_unref _ _ _) as [[p1 b]|] eqn:E1; [|done]. cbn [mbind option_bind] in E. injection E as <- <- <-. apply quieter_unref in E1. apply lighter; [done|]. destruct b; cbn; lia. }
  3: { destruct (n <? 0).
       - destruct (_slot_unref _ _ _) as [[p1 b]|] eqn:E1; [|done]. cbn [mbind option_bind] in E. injection E as <- <- <-. apply quieter_unref in E1. apply lighter; [done|]. destruct b; cbn; lia.
       - destruct (po_heap p !! l) as [s|] eqn:Hl; [|done]. cbn [mbind option_bind] in E. destruct (worker_end _ _ _ _ _ _) as [[p1 n1]|] eqn:E1; [|done]. injection E as <- <- <-. by eapply lighter_end. }
  all: destruct (po_heap p !! l) as [s|] eqn:Hl; [|done]; cbn [mbind option_bind] in E.
  - destruct (ch_sched ch); [injection E as <- <- <-; apply lighter; [auto with quiet|cbn; lia]|]. destruct (_slot_remove_unref _ _) as [[[p1 n1] b]|] eqn:E1; [|done]. cbn [mbind option_bind] in E. injection E as <- <- <-.
    apply quieter_remove_unref in E1 as [H1 H2]. apply lighter; [done|]. pose proof (tail_weight (size p1.(po_slots)) _ H2). cbn; lia.
  - injection E as <- <- <-. apply lighter; [auto with quiet|cbn; lia].
  - destruct (_timer_check _ _ _) as [p1 n1] eqn:Et. injection E as <- <- <-. by eapply Hc; [|exact Et|cbn; lia].
  - destruct (sl_destroy_cas s); injection E as <- <- <-; apply lighter; [auto with quiet|cbn; lia| |cbn; lia]. etrans; [apply (quieter_update p l (fun s => {| s with sl_destroy_cas := true |})); by intros|]. destruct (sl_dispose s); auto with quiet.
  - injection E as <- <- <-. apply lighter; [|cbn; lia]. destruct (-1 <? sl_fd s); (split; [|done]); intros x; rewrite !elem_busy; intros (s1 & H1 & H2); cbn in H1; apply lookup_delete_Some in H1 as [_ H1]; by exists s1.
  - destruct (iwn_poller_fd_ref _ _ _) as [[[p1 n1] b]|] eqn:E1; [|done]. cbn [mbind option_bind] in E. injection E as <- <- <-. apply quieter_fd_ref in E1 as [H1 H2]. apply lighter; [done|]. pose proof (tail_weight (size p1.(po_slots)) _ H2). cbn; lia.
  - destruct (ch_ctl ch); injection E as <- <- <-; apply lighter; [auto with quiet|cbn; lia|auto with quiet|cbn; lia].
  - destruct (is_timer _); [|destruct (0 <? _)].
    + destruct (ch_ctl ch); injection E as <- <- <-; apply lighter; [auto with quiet|cbn; lia|auto with quiet|cbn; lia].
    + destruct (_timer_check _ _ _) as [p1 n1] eqn:Et. injection E as <- <- <-. by eapply Hc; [|exact Et|cbn; lia].
    + injection E as <- <- <-. apply lighter; [auto with quiet|cbn; lia].
  - destruct (_timer_check _ _ _) as [p1 n1] eqn:Et. injection E as <- <- <-. destruct (quieter_check p (sl_timeout_limit s) (ch_now ch)) as [H1 H2]. rewrite Et in *. cbn [fst snd] in *. apply lighter; [done|].
    pose proof (timer_weight (size p1.(po_slots)) _ _ H2). cbn; lia.
Qed.

(** ** Runs *)

(** A step without input. *)
Inductive turn : sys -> sys -> Prop :=
| turn_act ch p a b x lost p' new more : exec ch p x = Some (p', new, more) -> turn (mkSys p (a ++ x :: b) lost) (mkSys p' (a ++ new ++ b) (lost ++ more)).

Lemma turn_step y y' : turn y y' -> step y y'.
Proof. intros []. by eapply step_act. Qed.

Lemma turn_work y y' : turn y y' -> (work y' < work y)%nat.
Proof.
  intros [ch p a b x lost p' new more E]. apply exec_lighter in E as [Hs Hm]. unfold work, measure in *. cbn [y_p y_acts] in *. rewrite !weights_app. change (x :: b) with ([x] ++ b). rewrite weights_app.
  pose proof (weights_mono _ _ a Hs). pose proof (weights_mono _ _ b Hs). lia.
Qed.

Lemma run_work n y y' : nsteps turn n y y' -> (n + work y' <= work y)%nat.
Proof. induction 1 as [|n y1 y2 y3 H _ IH]; [lia|]. apply turn_work in H. lia. Qed.

Lemma run_inv n y y' : nsteps turn n y y' -> inv y -> inv y'.
Proof. induction 1 as [|n y1 y2 y3 H _ IH]; [done|]. intros Hi. apply IH. eapply step_ok; [by apply turn_step|done]. Qed.

(** An activity that can do nothing: it uses a slot that is gone. *)
Definition dangling p (x : act) : Prop := exists l, loose x = Some l /\ p.(po_heap) !! l = None.
#[global] Instance dangling_dec p x : Decision (dangling p x).
Proof.
  destruct (loose x) as [l|] eqn:E; [|right; intros (l & Hl & _); congruence]. destruct (po_heap p !! l) as [s|] eqn:H; [right; intros (l' & Hl & Hn); congruence|left; by exists l].
Defined.

Definition calm : choice := mkChoice 0 true true 0.

Lemma turn_progress y : inv y -> Forall (dangling y.(y_p)) y.(y_acts) \/ exists y', turn y y'.
Proof.
  intros H. destruct (decide (Forall (dangling y.(y_p)) y.(y_acts))) as [Hd|Hd]; [by left|]. right. apply not_Forall_Exists in Hd; [|apply _]. apply Exists_exists in Hd as (x & Hin & Hx). cbn in Hx.
  apply list_elem_of_split in Hin as (a & b & E). destruct y as [p acts lost]. cbn [y_p y_acts] in *. subst acts. assert (exists r, exec calm p x = Some r) as [[[p' new] more] Hr].
  - destruct (loose x) as [l|] eqn:El; [|by eapply exec_total; [apply ok_middle, H|]]. destruct (po_heap p !! l) as [s|] eqn:Hl; [by eapply exec_loose|]. destruct Hx. by exists l.
  - eexists. by econstructor.
Qed.

Lemma run_drains y : inv y -> exists n y', nsteps turn n y y' /\ Forall (dangling y'.(y_p)) y'.(y_acts).
Proof.
  remember (work y) as w eqn:E. revert y E. induction w as [w IH] using lt_wf_ind. intros y -> H. destruct (turn_progress y H) as [Hd|[y1 Ht]]; [exists 0%nat, y; split; [constructor|done]|].
  destruct (IH (work y1) (turn_work _ _ Ht) y1 eq_refl) as (n & y2 & Hn & Hd); [eapply step_ok; [by apply turn_step|done]|]. exists (S n), y2. split; [by econstructor|done].
Qed.

(** ** A poller at rest *)

Record resting p lost : Prop := {
  re_slot : forall l s, p.(po_heap) !! l = Some s -> p.(po_slots) !! s.(sl_fd) = Some l /\ s.(sl_removed) = false /\ s.(sl_refs) = owner s + Z.of_nat (many l lost) /\ 0 < s.(sl_refs);
  re_table : forall fd l, p.(po_slots) !! fd = Some l -> exists s, p.(po_heap) !! l = Some s /\ s.(sl_fd) = fd }.

Lemma inv_resting p lost : ok p [] lost -> resting p lost.
Proof.
  intros H. split.
  - intros l s Hl. destruct (co_slot _ _ _ _ _ _ H l s Hl) as [A B _]. cbn [y_p y_acts y_lost total sum_list_with] in *. destruct (sl_removed s); [destruct B as (_ & B1 & B2); destruct (sl_destroy_cas s); done|].
    destruct B as (B1 & B2 & _). split_and!; [done|done|lia|done].
  - intros fd l Hf. destruct (table_alive _ _ _ _ _ H Hf) as (s & Hl & E & _). by exists s.
Qed.

(** ** Closing the poller *)

(** Slots keep their descriptor, and they stay on the way out. *)
Definition fading p p' : Prop := forall l s', p'.(po_heap) !! l = Some s' -> exists s, p.(po_heap) !! l = Some s /\ s'.(sl_fd) = s.(sl_fd) /\ (s.(sl_remove_pending) = true -> s'.(sl_remove_pending) = true).

#[global] Instance fading_preorder : PreOrder fading.
Proof.
  split; [intros p l s; by exists s|]. intros p1 p2 p3 H1 H2 l s3 Hs. destruct (H2 l s3 Hs) as (s2 & Hs2 & E2 & P2). destruct (H1 l s2 Hs2) as (s1 & Hs1 & E1 & P1). exists s1. split; [done|]. split; [congruence|auto].
Qed.

Lemma fading_fields p p' : p'.(po_heap) = p.(po_heap) -> fading p p'.
Proof. intros E l s. rewrite E. by exists s. Qed.

Lemma fading_update p l g : (forall s, (g s).(sl_fd) = s.(sl_fd) /\ (s.(sl_remove_pending) = true -> (g s).(sl_remove_pending) = true)) -> fading p (upd_slot p l g).
Proof.
  intros Hg x s Hx. unfold upd_slot in Hx. cbn [po_heap] in Hx. destruct (decide (x = l)) as [->|]; [|rewrite lookup_alter_ne in Hx by done; by exists s].
  rewrite lookup_alter_eq in Hx. destruct (po_heap p !! l) as [s0|]; [|done]. injection Hx as <-. destruct (Hg s0). by exists s0.
Qed.

Lemma fading_drop keep p l s : fading p (slot_drop keep p l s).
Proof.
  unfold slot_drop, _rw_fd_unsubscribe. set (p1 := upd_slot p l _). assert (fading p p1) as H1 by (by apply fading_update).
  etrans; [exact H1|]. destruct (sl_unsubscribed s).
  - destruct (po_slots p1 !! _); [by apply fading_fields|reflexivity].
  - set (p2 := upd_slot p1 l _). assert (fading p1 p2) as H2 by (by apply fading_update). etrans; [exact H2|]. by destruct (_ !! _); apply fading_fields.
Qed.

Lemma fading_unref lk p l p' b : _slot_unref lk p l = Some (p', b) -> fading p p'.
Proof.
  unfold _slot_unref. destruct (po_heap p !! l) as [s|]; [|done]. cbn [mbind option_bind]. destruct (sl_removed s); [destruct lk; [done|]; by intros [= <- <-]|].
  destruct (_ =? 0); intros [= <- <-]; [|by apply fading_update]. etrans; [|apply fading_drop]. by apply fading_update.
Qed.

(** Behind [iwn_poller_remove], the slot of the descriptor is on its way out. *)
Lemma fading_remove p fd p' new : iwn_poller_remove p fd = Some (p', new) -> fading p p' /\ forall l s', p.(po_slots) !! fd = Some l -> p'.(po_heap) !! l = Some s' -> s'.(sl_remove_pending) = true.
Proof.
  unfold iwn_poller_remove. destruct (po_slots p !! fd) as [l|] eqn:Hf; [|intros [= <- <-]; split; [destruct (_ <? _); [by apply fading_fields|done]|done]].
  destruct (po_heap p !! l) as [s|] eqn:Hl; [|done]. cbn [mbind option_bind]. destruct (sl_remove_pending s) eqn:Hp; [intros [= <- <-]; split; [done|]; intros ? ? [= <-]; congruence|].
  destruct (_slot_unref _ _ _) as [[p1 b1]|] eqn:E1; [|done]. cbn [mbind option_bind]. intros [= <- <-]. apply fading_unref in E1.
  assert (fading (set_pending p l) p1) as H1. { etrans; [|exact E1]. unfold _rw_fd_unsubscribe. destruct (sl_unsubscribed s); [done|]. etrans; [|by apply fading_fields]. by apply fading_update. }
  split; [etrans; [|exact H1]; by apply fading_update|]. intros ? s' [= <-] Hs'. destruct (H1 _ _ Hs') as (s1 & Hs1 & _ & Hk). apply Hk. unfold set_pending, upd_slot in Hs1. cbn [po_heap] in Hs1. rewrite lookup_alter_eq, Hl in Hs1. by injection Hs1 as <-.
Qed.

(** Only removals and what follows them; every slot is on its way out or about to be removed. *)
Definition removal (x : act) : Prop := match x with ARemove _ | ADestroy _ | AFree _ => True | _ => False end.
Record closing (y : sys) : Prop := {
  cl_acts : Forall removal y.(y_acts);
  cl_lost : y.(y_lost) = [];
  cl_slot : forall l s, y.(y_p).(po_heap) !! l = Some s -> s.(sl_remove_pending) = true \/ ARemove s.(sl_fd) ∈ y.(y_acts) }.

(** Two slots with the same descriptor: one is on its way out. *)
Lemma out_or_in_table p acts lost l s : ok p acts lost -> p.(po_heap) !! l = Some s -> s.(sl_remove_pending) = true \/ p.(po_slots) !! s.(sl_fd) = Some l.
Proof.
  intros H Hl. destruct (co_slot _ _ _ _ _ _ H l s Hl) as [A B _]. destruct (sl_removed s); [|right; by destruct B as (_ & B & _)]. left. destruct B as [B _]. unfold owner in A. destruct (sl_remove_pending s); [done|lia].
Qed.

Lemma exec_removal ch p x p' new more : removal x -> exec ch p x = Some (p', new, more) -> Forall removal new /\ more = [] /\ fading p p'.
Proof.
  intros Hx E. destruct x; try done; exec_in E.
  - destruct (iwn_poller_remove p fd) as [[p1 n1]|] eqn:E1; [|done]. cbn [mbind option_bind] in E. injection E as <- <- <-. pose proof (quieter_remove _ _ _ _ E1) as [_ Ht]. apply fading_remove in E1 as [Hf _]. split; [|done]. destruct Ht; by repeat constructor.
  - destruct (po_heap p !! l) as [s|]; [|done]. cbn [mbind option_bind] in E. destruct (sl_destroy_cas s); injection E as <- <- <-; [done|]. split; [by repeat constructor|]. split; [done|].
    etrans; [apply (fading_update p l (fun s => {| s with sl_destroy_cas := true |})); by intros|]. destruct (sl_dispose s); by apply fading_fields.
  - destruct (po_heap p !! l) as [s|]; [|done]. cbn [mbind option_bind] in E. injection E as <- <- <-. split; [done|]. split; [done|]. intros x sx Hx1. destruct (-1 <? sl_fd s); cbn in Hx1; apply lookup_delete_Some in Hx1 as [_ Hx1]; by exists sx.
Qed.

Lemma turn_closing y y' : turn y y' -> inv y -> closing y -> closing y'.
Proof.
  intros [ch p a b x lost p' new more E] Hi [Ha Hl Hs]. cbn [y_p y_acts y_lost] in *. apply Forall_app in Ha as [Ha Hb]. apply Forall_cons in Hb as [Hx Hb]. destruct (exec_removal _ _ _ _ _ _ Hx E) as (Hn & -> & Hf).
  split; cbn [y_p y_acts y_lost]; [by rewrite !Forall_app|by rewrite Hl|]. intros l s' Hs'. destruct (Hf l s' Hs') as (s & H1 & E1 & P1). destruct (Hs l s H1) as [Hp|Hin]; [left; auto|].
  assert (ARemove (sl_fd s) = x \/ ARemove (sl_fd s) ∈ a ++ b) as [<-|Hin'] by set_solver; [|right; rewrite E1; set_solver]. left. exec_in E. destruct (iwn_poller_remove _ _) as [[p1 n1]|] eqn:Er; [|done].
  cbn [mbind option_bind] in E. injection E as <- <-. apply fading_remove in Er as [_ Hk]. destruct (out_or_in_table p _ _ l s Hi H1) as [Hp|Ht]; [auto|]. by eapply Hk.
Qed.

Lemma run_closing n y y' : nsteps turn n y y' -> inv y -> closing y -> closing y'.
Proof. induction 1 as [|n y1 y2 y3 H _ IH]; [done|]. intros Hi Hc. apply IH; [eapply step_ok; [by apply turn_step|done]|by eapply turn_closing]. Qed.

Lemma cleanup_closing p : ok p [] [] -> closing (mkSys p (_poller_cleanup p) []).
Proof.
  intros H. split; cbn [y_p y_acts y_lost]; [|done|].
  - unfold _poller_cleanup. apply Forall_fmap, Forall_true. by intros.
  - intros l s Hl. destruct (out_or_in_table p _ _ l s H Hl) as [Hp|Ht]; [by left|]. right. unfold _poller_cleanup. apply list_elem_of_fmap. exists (sl_fd s, l). split; [done|]. rewrite list_elem_of_In, <- in_rev, <- list_elem_of_In. by apply elem_of_map_to_list.
Qed.

Lemma closed_empty y : inv y -> closing y -> y.(y_acts) = [] -> y.(y_p).(po_heap) = ∅ /\ y.(y_p).(po_slots) = ∅ /\ y.(y_p).(po_fds_count) = 0.
Proof.
  intros Hi [_ Hl Hs] Ha. destruct y as [p acts lost]. cbn [y_p y_acts y_lost] in *. subst acts lost. destruct (inv_resting p [] Hi) as [Hr Ht]. assert (po_heap p = ∅) as He.
  - apply map_empty. intros l. destruct (po_heap p !! l) as [s|] eqn:E; [|done]. destruct (Hr l s E) as (_ & _ & A & B). destruct (Hs l s E) as [Hp|Hin]; [|by apply elem_of_nil in Hin]. unfold owner in A. rewrite Hp in A. cbn in A. lia.
  - assert (po_slots p = ∅) as Hsl. { apply map_empty. intros fd. destruct (po_slots p !! fd) as [l|] eqn:E; [|done]. destruct (Ht fd l E) as (s & Hx & _). by rewrite He in Hx. }
    split_and!; [done|done|]. pose proof (co_count _ _ _ _ _ _ Hi) as Hc. cbn [y_p] in Hc. by rewrite Hc, Hsl.
Qed.
