(* ===== verification/PollerProps.v ===== *)
(** * PollerProps: what the poller promises

    The theorems about runs of the poller, and runs that show where the code goes wrong. *)
From S2P Require Import Prelude Poller PollerInv PollerRun.

Implicit Types (p : poller) (l : sloc) (acts new : list act) (lost : list sloc).

(** ** Concrete runs *)

(** An input, or a step of the activity with this index. *)
Inductive move := MIn (i : input) | MAct (k : nat) (ch : choice).

Definition fresh p (i : input) : bool := match i with InAdd l _ => bool_decide (p.(po_heap) !! l = None) | _ => true end.

Definition play1 (y : sys) (m : move) : option sys :=
  match m with
  | MIn i => if fresh y.(y_p) i then '(p, new) ← accept y.(y_p) i; Some (mkSys p (y.(y_acts) ++ new) y.(y_lost)) else None
  | MAct k ch => x ← y.(y_acts) !! k; '(p, new, more) ← exec ch y.(y_p) x; Some (mkSys p (take k y.(y_acts) ++ new ++ drop (S k) y.(y_acts)) (y.(y_lost) ++ more))
  end.

Definition play (no_fds : bool) (ms : list move) : option sys := foldl (fun y m => y ← y; play1 y m) (Some (mkSys (poller_new no_fds) [] [])) ms.

Lemma play1_act y k ch y' : play1 y (MAct k ch) = Some y' -> turn y y'.
Proof.
  cbn. destruct (y_acts y !! k) as [x|] eqn:Ex; [|done]. cbn [mbind option_bind]. destruct (exec ch (y_p y) x) as [[[p new] more]|] eqn:E; [|done]. cbn [mbind option_bind]. intros [= <-].
  destruct y as [p0 acts lost]. cbn [y_p y_acts y_lost] in *. rewrite <- (take_drop_middle acts k x Ex) at 1. by econstructor.
Qed.

Lemma play1_step y m y' : play1 y m = Some y' -> step y y'.
Proof.
  destruct m as [i|k ch]; [|intros E; by eapply turn_step, play1_act]. cbn. destruct (fresh (y_p y) i) eqn:Hf; [|done]. destruct (accept (y_p y) i) as [[p new]|] eqn:E; [|done]. cbn [mbind option_bind]. intros [= <-].
  destruct y as [p0 acts lost]. cbn [y_p y_acts y_lost] in *. apply (step_in p0 acts lost i); [|done]. intros l t ->. cbn in Hf. by apply bool_decide_eq_true in Hf.
Qed.

Lemma play_reachable no_fds ms y : play no_fds ms = Some y -> reachable no_fds y.
Proof.
  revert y. induction ms as [|m ms IH] using rev_ind; intros y E; [injection E as <-; constructor|]. unfold play in *. rewrite foldl_app in E. cbn [foldl] in E. destruct (foldl _ _ ms) as [y1|]; [|done].
  cbn [mbind option_bind] in E. eapply reach_step; [by apply IH|by eapply play1_step].
Qed.

(** A slot for descriptor [fd] that waits for input. *)
Definition reader (fd timeout : Z) : task := mkTask fd true true 1 0 timeout.
Definition at_time (now : Z) : choice := mkChoice 0 true true now.
Definition failing : choice := mkChoice (-1) true true 0.
Definition no_thread : choice := mkChoice 0 true false 0.

(** Descriptor 5 is added and has an event, which is being worked on while the descriptor is removed. *)
Definition demo : list move := [MIn (InAdd 1 (reader 5 0)); MAct 0 calm; MAct 0 calm; MIn (InEvent 5 1); MAct 0 calm; MIn (InRemove 5)].

Definition demo_sys : sys := default (mkSys (poller_new false) [] []) (play false demo).
Lemma demo_reachable : reachable false demo_sys.
Proof. apply (play_reachable false demo). vm_compute. reflexivity. Qed.

(** ** References *)

(** C10. In every reachable state the count of references of every slot is exact: one for the table unless the slot is being removed, one for every activity that works on the slot, and the lost ones.  A slot with references is in the table under its descriptor; one without is disposed of and freed by exactly one activity; at most one worker runs for a slot and only while it is marked as processed; the table holds live slots only, and [fds_count] is its size. *)
Theorem poller_refs no_fds y : reachable no_fds y -> inv y.
Proof. apply reachable_inv. Qed.

Lemma poller_refs_witness : reachable false demo_sys /\ inv demo_sys.
Proof. split; [apply demo_reachable|]. apply (poller_refs false). apply demo_reachable. Defined.

(** C11. Nothing goes wrong in a reachable state for whoever holds a reference: an activity that holds its slot, removes a descriptor, or disposes of or frees a slot never meets freed memory, never disposes of a slot twice and never unlocks the mutex twice, whatever the callbacks, epoll and the thread pool answer; nor does any call from outside.  Two workers never run for the same slot.  The only activities that can meet a freed slot are the four stretches of code named by [loose]. *)
Theorem poller_safe no_fds y : reachable no_fds y ->
  (forall ch a x b, y.(y_acts) = a ++ x :: b -> (exists r, exec ch y.(y_p) x = Some r) \/ (exists l, loose x = Some l /\ y.(y_p).(po_heap) !! l = None)) /\
  (forall i, fresh y.(y_p) i = true -> exists r, accept y.(y_p) i = Some r) /\
  (forall a x b z c l, y.(y_acts) = a ++ x :: b ++ z :: c -> (0 < works l x)%nat -> works l z = 0%nat).
Proof.
  intros H. apply reachable_inv in H. destruct y as [p acts lost]. cbn [y_p y_acts] in *. split_and!.
  - intros ch a x b ->. apply ok_middle in H. destruct (loose x) as [l|] eqn:El; [|left; by eapply exec_total]. destruct (po_heap p !! l) as [s|] eqn:Hl; [left; by eapply exec_loose|right; by exists l].
  - intros i Hf. destruct (accept_ok p i acts lost H) as (p' & new & E & _); [|by eexists]. intros l t ->. by apply bool_decide_eq_true in Hf.
  - intros a x b z c l -> Hx. assert (total works (a ++ x :: b ++ z :: c) l <= 1)%nat as Hw.
    + destruct (po_heap p !! l) as [s|] eqn:Hl; [destruct (co_slot _ _ _ _ _ _ H l s Hl) as [_ _ C]; cbn [y_acts] in C; destruct (sl_processing s); cbn in C; lia|].
      destruct (co_none _ _ _ _ _ _ H l Hl) as (_ & _ & _ & E & _). cbn [y_acts] in E. lia.
    + rewrite total_app, total_cons, total_app, total_cons in Hw. lia.
Qed.

Lemma poller_safe_witness : demo_sys.(y_acts) = [AWorker 1 5 1; ARemove 5] /\ exists r, exec calm demo_sys.(y_p) (AWorker 1 5 1) = Some r.
Proof.
  split; [vm_compute; reflexivity|]. destruct (poller_safe false demo_sys demo_reachable) as [H _].
  destruct (H calm [] (AWorker 1 5 1) [ARemove 5]) as [Hr|(l & Hl & _)]; [vm_compute; reflexivity|exact Hr|discriminate Hl].
Defined.

(** ** Coming to rest *)

(** C12. Without new input the threads of the poller finish: from every reachable state, in every order of the steps and whatever the environment answers, at most [work y] steps are made; some run ends in a state where no activity is left, accesses to freed slots by the stretches of code named by [loose] apart; and when no activity is left, every slot in memory is in the table under its descriptor and its references are that of the table and the lost ones. *)
Theorem poller_drains no_fds y : reachable no_fds y ->
  (forall n y', nsteps turn n y y' -> (n <= work y)%nat /\ (y'.(y_acts) = [] -> resting y'.(y_p) y'.(y_lost))) /\
  (exists n y', nsteps turn n y y' /\ Forall (dangling y'.(y_p)) y'.(y_acts)).
Proof.
  intros H. apply reachable_inv in H. split; [|by apply run_drains]. intros n y' Hn. split; [apply run_work in Hn; lia|]. intros Ha. apply (run_inv _ _ _ Hn) in H.
  destruct y' as [p acts lost]. cbn [y_p y_acts y_lost] in *. subst acts. by apply inv_resting.
Qed.

Lemma poller_drains_witness : work demo_sys = 11%nat /\ exists n y', nsteps turn n demo_sys y' /\ Forall (dangling y'.(y_p)) y'.(y_acts).
Proof. split; [vm_compute; reflexivity|]. apply (poller_drains false demo_sys). apply demo_reachable. Defined.

(** C13. Closing the poller gives everything back: when nothing is going on and no reference was lost, [_poller_cleanup] runs to its end, in every order of its steps, and leaves neither a slot in memory nor a descriptor in the table. *)
Theorem poller_cleanup_frees no_fds p : reachable no_fds (mkSys p [] []) -> let y := mkSys p (_poller_cleanup p) [] in
  (exists n y', nsteps turn n y y' /\ y'.(y_acts) = []) /\
  (forall n y', nsteps turn n y y' -> (n <= work y)%nat /\ (y'.(y_acts) = [] -> y'.(y_p).(po_heap) = ∅ /\ y'.(y_p).(po_slots) = ∅ /\ y'.(y_p).(po_fds_count) = 0)).
Proof.
  intros Hr y. apply reachable_inv in Hr. pose proof (cleanup_closing p Hr) as Hc. assert (inv y) as Hi.
  - destruct (accept_ok p InCleanup [] [] Hr) as (p' & new & E & Hok); [done|]. by injection E as <- <-.
  - split.
    + destruct (run_drains y Hi) as (n & y' & Hn & Hd). exists n, y'. split; [done|]. destruct (run_closing _ _ _ Hn Hi Hc) as [Ha _ _]. destruct (y_acts y') as [|x xs]; [done|].
      apply Forall_cons in Ha as [Hx _]. apply Forall_cons in Hd as [(l & Hl & _) _]. by destruct x.
    + intros n y' Hn. split; [apply run_work in Hn; lia|]. apply closed_empty; [by eapply run_inv|by eapply run_closing].
Qed.

(** Two descriptors at rest. *)
Definition quiet_demo : list move := [MIn (InAdd 1 (reader 5 0)); MAct 0 calm; MAct 0 calm; MIn (InAdd 2 (reader 6 0)); MAct 0 calm; MAct 0 calm].
Definition quiet_poller : poller := default (poller_new false) (y_p <$> play false quiet_demo).

Lemma poller_cleanup_frees_witness : size quiet_poller.(po_slots) = 2%nat /\ exists n y', nsteps turn n (mkSys quiet_poller (_poller_cleanup quiet_poller) []) y' /\ y'.(y_acts) = [].
Proof. split; [vm_compute; reflexivity|]. apply (poller_cleanup_frees false quiet_poller). apply (play_reachable false quiet_demo). vm_compute. reflexivity. Defined.

(** ** Timeouts *)

(** Slots that wait for an event. *)
Definition waiting (s : slot) : bool := negb (s.(sl_removed) || s.(sl_remove_pending) || s.(sl_processing)).

Lemma expires_waiting now s : expires now s = true <-> waiting s = true /\ s.(sl_timeout_limit) <= now.
Proof. unfold expires, waiting. rewrite andb_true_iff, Z.leb_le. tauto. Qed.

Lemma next_fold now xs : forall x0, now < x0 -> let x := foldl (fun x (y : sloc * slot) => next_timeout now x y.2) x0 xs in
  now < x /\ x <= x0 /\ (forall l s, (l, s) ∈ xs -> waiting s = true -> now < s.(sl_timeout_limit) -> x <= s.(sl_timeout_limit)) /\
  (x = x0 \/ exists l s, (l, s) ∈ xs /\ waiting s = true /\ x = s.(sl_timeout_limit)).
Proof.
  induction xs as [|[l s] xs IH]; intros x0 Hx0; cbn [foldl]; [split_and!; [done|lia| |by left]; intros l s H; by apply elem_of_nil in H|].
  assert (now < next_timeout now x0 s /\ next_timeout now x0 s <= x0 /\ (waiting s = true -> now < sl_timeout_limit s -> next_timeout now x0 s <= sl_timeout_limit s) /\
    (next_timeout now x0 s = x0 \/ waiting s = true /\ next_timeout now x0 s = sl_timeout_limit s)) as (A & B & C & D).
  { unfold next_timeout. fold (waiting s). destruct (waiting s); cbn [andb]; [|split_and!; [done|lia|done|by left]]. destruct (Z.leb_spec (sl_timeout_limit s) now); cbn [negb andb]; [split_and!; [done|lia|lia|by left]|].
    destruct (Z.ltb_spec (sl_timeout_limit s) x0); split_and!; try lia; auto. }
  cbn [snd]. destruct (IH _ A) as (A' & B' & C' & D'). split_and!; [done|lia| |].
  - intros l1 s1 [[= -> ->]|Hin]%elem_of_cons Hw Hn; [specialize (C Hw Hn); lia|by eapply C'].
  - destruct D' as [->|(l1 & s1 & Hin & Hw & E)]; [|right; exists l1, s1; split; [by right|done]]. destruct D as [->|[Hw E]]; [by left|]. right. exists l, s. split; [by left|done].
Qed.

Lemma elem_table p l s : (l, s) ∈ table p <-> exists fd, p.(po_slots) !! fd = Some l /\ p.(po_heap) !! l = Some s.
Proof.
  unfold table. rewrite list_elem_of_omap. split.
  - intros ([fd l'] & Hin & E). apply elem_of_map_to_list in Hin. destruct (po_heap p !! l') as [s'|] eqn:Hl; [|done]. injection E as -> ->. by exists fd.
  - intros (fd & Hf & Hl). exists (fd, l). split; [by apply elem_of_map_to_list|]. by rewrite Hl.
Qed.

Lemma table_nodup p acts lost : ok p acts lost -> NoDup (fst <$> table p).
Proof.
  intros H. unfold table. pose proof (NoDup_map_to_list p.(po_slots)) as Hd. assert (forall fd l, (fd, l) ∈ map_to_list p.(po_slots) -> exists s, p.(po_heap) !! l = Some s /\ s.(sl_fd) = fd) as Ha.
  { intros fd l Hin. apply elem_of_map_to_list in Hin. destruct (table_alive _ _ _ _ _ H Hin) as (s & ? & ? & _). by exists s. }
  induction (map_to_list (po_slots p)) as [|[fd l] xs IH]; [constructor|]. apply NoDup_cons in Hd as [Hn Hd]. destruct (Ha fd l) as (s & Hl & Hfd); [by left|]. cbn. rewrite Hl. cbn. constructor; [|apply IH; [done|]; intros f x Hin; apply Ha; by right].
  intros Hin. apply list_elem_of_fmap in Hin as ([l1 s1] & E & Hin). cbn in E. subst l1. apply list_elem_of_omap in Hin as ([fd2 l2] & Hin & E). destruct (Ha fd2 l2) as (s2 & Hl2 & Hfd2); [by right|]. rewrite Hl2 in E. injection E as -> _.
  rewrite Hl in Hl2. injection Hl2 as <-. congruence.
Qed.

(** The check of the timeouts: unless one is running or there was one in the same second, [_timer_ready] takes up exactly the waiting slots of the table whose limit has passed, each once and each with a reference of its own, and the next check is set to the nearest limit of the other waiting slots, at most a day ahead. *)
Theorem timer_selects no_fds y now : reachable no_fds y -> y.(y_p).(po_housekeeping) = false -> now <> y.(y_p).(po_timeout_checktime) ->
  exists q ls, _timer_ready y.(y_p) now = (q, [AExpired ls]) /\ NoDup ls /\
    (forall l, l ∈ ls <-> exists fd s, y.(y_p).(po_slots) !! fd = Some l /\ y.(y_p).(po_heap) !! l = Some s /\ waiting s = true /\ s.(sl_timeout_limit) <= now) /\
    inv (mkSys q (AExpired ls :: y.(y_acts)) y.(y_lost)) /\
    now < q.(po_timeout_next) <= now + 86400 /\
    (forall fd l s, y.(y_p).(po_slots) !! fd = Some l -> y.(y_p).(po_heap) !! l = Some s -> waiting s = true -> l ∉ ls -> q.(po_timeout_next) <= s.(sl_timeout_limit)) /\
    (q.(po_timeout_next) = now + 86400 \/ exists fd l s, y.(y_p).(po_slots) !! fd = Some l /\ y.(y_p).(po_heap) !! l = Some s /\ waiting s = true /\ q.(po_timeout_next) = s.(sl_timeout_limit)).
Proof.
  intros Hr Hh Hn. apply reachable_inv in Hr. destruct y as [p acts lost]. cbn [y_p y_acts y_lost] in *. pose proof (ok_timer p now acts lost Hr) as Hok. unfold _timer_ready in *. rewrite Hh in *. destruct (Z.eqb_spec now (po_timeout_checktime p)) as [|_]; [done|].
  cbn [fst snd] in Hok. eexists _, _. split; [reflexivity|]. cbn [po_timeout_next]. set (sel := filter _ (table p)). fold sel in Hok. destruct (next_fold now (table p) (now + 86400) ltac:(lia)) as (A & B & C & D).
  assert (forall l, l ∈ rev (fst <$> sel) <-> exists fd s, p.(po_slots) !! fd = Some l /\ p.(po_heap) !! l = Some s /\ waiting s = true /\ s.(sl_timeout_limit) <= now) as Hl.
  { intros l. rewrite list_elem_of_In, <- in_rev, <- list_elem_of_In, list_elem_of_fmap. split.
    - intros ([l1 s] & -> & Hin). apply list_elem_of_filter in Hin as [He Hin]. apply expires_waiting in He. apply elem_table in Hin as (fd & ? & ?). by exists fd, s.
    - intros (fd & s & H1 & H2 & H3). exists (l, s). split; [done|]. apply list_elem_of_filter. split; [by apply expires_waiting|]. apply elem_table. by exists fd. }
  split_and!; [|exact Hl|exact Hok|lia|lia| |].
  - apply NoDup_ListNoDup, NoDup_rev, NoDup_ListNoDup. apply (sublist_NoDup _ (fst <$> table p)); [exact (table_nodup p acts lost Hr)|]. apply fmap_sublist, sublist_filter.
  - intros fd l s Hf Hs Hw Hnl. apply (C l); [apply elem_table; by exists fd|done|]. destruct (Z.le_gt_cases (sl_timeout_limit s) now); [|lia]. destruct Hnl. apply Hl. by exists fd, s.
  - destruct D as [->|(l & s & Hin & Hw & E)]; [by left|]. right. apply elem_table in Hin as (fd & ? & ?). by exists fd, l, s.
Qed.

(** Descriptor 5 has ten seconds from time 100 on, descriptor 6 has twenty. *)
Definition timed_demo : list move := [MIn (InAdd 1 (reader 5 10)); MAct 0 calm; MAct 0 (at_time 100); MAct 0 calm; MIn (InAdd 2 (reader 6 20)); MAct 0 calm; MAct 0 (at_time 100)].
Definition timed_sys : sys := default (mkSys (poller_new false) [] []) (play false timed_demo).

Lemma timer_selects_witness : (timed_sys.(y_p).(po_timer) = 110 /\ (_timer_ready timed_sys.(y_p) 115).2 = [AExpired [1%positive]]) /\ exists q ls, _timer_ready timed_sys.(y_p) 115 = (q, [AExpired ls]) /\ NoDup ls.
Proof.
  split; [split; vm_compute; reflexivity|]. destruct (timer_selects false timed_sys 115) as (q & ls & H1 & H2 & _); [|vm_compute; reflexivity|vm_compute; discriminate|exists q, ls; split; [exact H1|exact H2]].
  apply (play_reachable false timed_demo). vm_compute. reflexivity.
Defined.

(** ** Runs that go wrong *)

Definition final (no_fds : bool) (ms : list move) {A} (f : sys -> A) : option A := f <$> play no_fds ms.

(** The worker of descriptor 5 has given its reference back, and goes on to set the timeout of the slot; the descriptor is removed in between, so the slot is gone. *)
Example worker_tail_use_after_free :
  final false [MIn (InAdd 1 (reader 5 10)); MAct 0 calm; MAct 0 (at_time 100); MAct 0 calm; MIn (InEvent 5 1); MAct 0 calm; MAct 0 calm; MAct 0 calm; MIn (InRemove 5); MAct 1 calm; MAct 1 calm; MAct 1 calm]
    (fun y => (y.(y_acts), exec calm y.(y_p) (ATail 1 10))) = Some ([ATail 1 10], None).
Proof. vm_compute. reflexivity. Qed.

(** The same for [iwn_poller_add2] behind [epoll_ctl]: an event arrives, its callback asks for the removal, the slot is freed. *)
Example add_tail_use_after_free :
  final false [MIn (InAdd 1 (reader 5 10)); MAct 0 calm; MIn (InEvent 5 1); MAct 1 calm; MAct 1 failing; MAct 1 calm; MAct 1 calm; MAct 1 calm; MAct 1 calm]
    (fun y => (y.(y_acts), exec calm y.(y_p) (AAddTail 1))) = Some ([AAddTail 1], None).
Proof. vm_compute. reflexivity. Qed.

(** And for [iwn_poller_set_timeout] behind the mutex. *)
Example set_timeout_use_after_free :
  final false [MIn (InAdd 1 (reader 5 0)); MAct 0 calm; MAct 0 calm; MIn (InTimeout 5 20 100); MIn (InRemove 5); MAct 1 calm; MAct 1 calm; MAct 1 calm]
    (fun y => (y.(y_acts), exec calm y.(y_p) (ACheck 1))) = Some ([ACheck 1], None).
Proof. vm_compute. reflexivity. Qed.

(** A slot is in the table before [iwn_poller_add2] has set its limit: a check of the timeouts in between finds the limit 0, removes the new slot and closes its descriptor. *)
Example new_slot_expires_at_once :
  final false [MIn (InAdd 1 (reader 5 0)); MIn (InTimer 100); MAct 1 calm; MAct 2 calm; MAct 2 calm]
    (fun y => (y.(y_acts), y.(y_p).(po_log), exec calm y.(y_p) (AAddCtl 1))) = Some ([AAddCtl 1; AExpired []], [Disposed 1; Closed 5], None).
Proof. vm_compute. reflexivity. Qed.

(** The thread pool refuses a slot that is being removed: nobody gives the reference of the event back, and the slot stays in memory and in the table, also when the poller is closed. *)
Example refused_slot_leaks :
  final false [MIn (InAdd 1 (reader 5 0)); MAct 0 calm; MAct 0 calm; MIn (InEvent 5 1); MIn (InRemove 5); MAct 1 calm; MAct 0 no_thread; MIn InCleanup; MAct 0 calm]
    (fun y => (y.(y_acts), y.(y_lost), iwn_poller_fd_is_managed y.(y_p) 5, sl_refs <$> y.(y_p).(po_heap) !! 1%positive)) = Some ([], [1%positive], true, Some 1).
Proof. vm_compute. reflexivity. Qed.

(** A callback has failed, and the worker is about to remove descriptor 5 by its number; meanwhile it is removed by someone else and the number is used for another connection, which is closed in its place. *)
Example remove_by_number_hits_another :
  final false [MIn (InAdd 1 (reader 5 0)); MAct 0 calm; MAct 0 calm; MIn (InEvent 5 1); MAct 0 calm; MAct 0 failing; MAct 0 calm; MIn (InRemove 5); MAct 1 calm; MAct 1 calm; MAct 1 calm;
      MIn (InAdd 2 (reader 5 0)); MAct 1 calm; MAct 1 calm; MAct 0 calm; MAct 0 calm; MAct 0 calm]
    (fun y => (y.(y_acts), y.(y_p).(po_log))) = Some ([], [Disposed 1; Closed 5; Disposed 2; Closed 5]).
Proof. vm_compute. reflexivity. Qed.

(** Two descriptors are added in the same second, the second with the shorter timeout: the timer is set a day ahead, although both limits are near. *)
Example timer_set_a_day_ahead :
  final false [MIn (InAdd 1 (reader 5 10)); MAct 0 calm; MAct 0 (at_time 100); MAct 0 calm; MIn (InAdd 2 (reader 6 5)); MAct 0 calm; MAct 0 (at_time 100)]
    (fun y => (y.(y_acts), y.(y_p).(po_timer), sl_timeout_limit <$> y.(y_p).(po_heap) !! 1%positive, sl_timeout_limit <$> y.(y_p).(po_heap) !! 2%positive)) = Some ([], 86500, Some 110, Some 105).
Proof. vm_compute. reflexivity. Qed.

(** A poller that is to go on without descriptors stops when the last reference is given back by [iwn_poller_fd_ref], and goes on when it is given back by a worker or by [iwn_poller_remove]. *)
Example fd_ref_stops_poller :
  final true [MIn (InAdd 1 (reader 5 0)); MAct 0 calm; MAct 0 calm; MIn (InRef 5); MIn (InRemove 5); MAct 1 calm; MAct 0 calm] (fun y => iwn_poller_alive y.(y_p)) = Some false /\
  final true [MIn (InAdd 1 (reader 5 0)); MAct 0 calm; MAct 0 calm; MIn (InRef 5); MAct 0 calm; MIn (InRemove 5); MAct 0 calm] (fun y => iwn_poller_alive y.(y_p)) = Some true.
Proof. split; vm_compute; reflexivity. Qed.
